(* ===== verification/_CoqProject ===== *)
-Q . S2P
Prelude.v
PutGet.v
Md5.v
EiTypes.v
EiInt.v
EiAtom.v
EiData.v
EiBinary.v
EiBig.v
EiNode.v
EiTerm.v
EiX.v
EiPort.v
EpmdStr.v
EiFormat.v
EiPrint.v
EiMsg.v
EiConnect.v
EiId.v
EiSock.v
EiRpc.v
EiGlobal.v
Packet.v
PacketHttp.v
HttpMessage.v
BigDigit.v
BigNat.v
BigMul.v
BigBits.v
BigDiv.v
BigBz.v
BigTerm.v
BigArith.v
BigExt.v
BigText.v
BigWidth.v
BigWrite.v
BigConv.v
EpmdNode.v
EpmdConn.v
EpmdReq.v
EpmdSrv.v
EpmdClient.v
