(* ===== verification/Prelude.v ===== *)
(** * The C-node stack of Erlang/OTP

    A program in C takes part in distributed Erlang as a "C node".  It uses the
    library [erl_interface] ([src/lib/erl_interface]) to translate data to and
    from the external term format, to connect to other nodes and to exchange
    messages with them, and the name server [epmd] ([src/erts/epmd]) to publish
    its name and to find other nodes.  This
    development models that stack and proves it correct, or says exactly where
    it is not; and on the other side of the connection the packet parser and the
    integers of the emulator.

    ** The parts, and the files that model them

    The codec (under [src/lib/erl_interface/src]):
    - [PutGet]: the put and get macros of [misc/putget.h] over a byte buffer,
      the outcome types, and the interfaces of encoders and decoders.
    - [EiTypes]: tags, encodings and structs of [include/ei.h].
    - [EiInt]: integers, [encode/] and [decode/] of char, long, ulong, longlong
      and ulonglong, in the build with 64-bit longs and in the one with 32-bit
      longs (suffix [_32]).
    - [EiAtom]: atoms and their conversions, [encode_atom.c], [decode_atom.c].
    - [EiData]: version, list, tuple and map headers, booleans, doubles,
      strings, integer lists.
    - [EiBinary]: binaries and bit strings, [copy_bits] bit by bit.
    - [EiBig]: big integers, and the GMP functions against an interface of GMP.
    - [EiNode]: pids, ports, references, traces and funs, and [ei_cmp_nc.c].
    - [EiTerm]: [ei_get_type], [ei_skip_term], [ei_decode_iodata],
      [ei_decode_ei_term], over all of the format.
    - [EiX]: the self-expanding buffers of [misc/ei_x_encode.c].
    - [EiFormat]: [ei_x_format] of [misc/ei_format.c], terms from a text.
    - [EiPrint]: [ei_print_term] and [ei_s_print_term] of [misc/ei_printterm.c],
      terms as text.

    Connections and messages (under [src/lib/erl_interface/src]):
    - [Md5]: the digest, [src/erts/emulator/beam/erl_md5.c], which the library
      compiles for itself.
    - [EiPort]: the loops of [misc/ei_portio.c] that transfer whole buffers.
    - [EiMsg]: the packets between connected nodes, [connect/send.c],
      [send_reg.c], [send_exit.c], [eirecv.c] and [misc/ei_trace.c].
    - [EiConnect]: the handshake in [connect/ei_connect.c], message by message,
      and its two sides.
    - [EiId]: [ei_self], [ei_make_pid] and [ei_make_ref], with their counters
      shared by threads.
    - [EiSock]: the table of connections, in both of its implementations.
    - [EiRpc]: receiving a message ([ei_receive_msg], [ei_xreceive_msg]) and remote
      calls ([ei_xrpc_to], [ei_rpc_from], [ei_rpc]).
    - [EiGlobal]: the functions on global names, [global/].

    The other end of a connection (under [src/erts/emulator/beam]), where a node of
    the emulator reads what a C node, or any other peer, has written:
    - [Packet]: [packet_get_length] and [packet_get_body] of [packet_parser.c], which
      find the packets in a stream, in each of fifteen formats.
    - [PacketHttp]: the rest of [packet_parser.c]: the tables of HTTP names, URIs, the
      lines of an HTTP message ([packet_parse_http]) and TLS records.
    - [HttpMessage]: the text of whole HTTP messages, and what is read of them.

    The integers of the emulator (under [src/erts/emulator/beam]), which meet those of a
    C node in the external format:
    - [BigDigit]: the macros on digits of 64 bits at the top of [big.c], for compilers
      with and without a double digit; the classes [DigitMacros] and [DigitLaws] are what
      they promise to everything else.
    - [BigNat]: vectors of digits, their comparison, sums, differences, products and
      quotients by a digit ([I_comp], [I_add], [I_sub], [I_mul], [D_mulsub], [D_div]).
    - [BigMul]: [I_sqr] and [I_mul_karatsuba].
    - [BigBits]: [I_band], [I_bor], [I_bxor], [I_bnot] and [I_lshift].
    - [BigDiv]: long division, [I_div]; [BigBz]: the recursive division of Burnikel and
      Ziegler, [I_div_bz], and the choice between both.
    - [BigTerm]: terms, smalls and bignums, with the functions of [big.c] on them.
    - [BigArith]: the operators of [erl_arith.c] on integers of either kind.
    - [BigExt]: integers in [external.c], and their way to and from a C node.
    - [BigText]: text in a base, and [write_big_simple]; [BigWidth]: the estimates of the
      length of a text, in double precision ([lookup_log2], [big_integer_estimate]).
    - [BigWrite]: [write_big], long numbers by halves with a cache of powers and their
      reciprocals ([build_dc_powers], [barrett_divmod], [write_big_dc_top]).
    - [BigConv]: [integer_to_list] and [integer_to_binary] of [bif.c] and [binary.c], and
      the reading of integers ([chars_to_integer], [erts_internal_list_to_integer_2]).

    The name server ([src/erts/epmd/src/epmd_srv.c]):
    - [EpmdStr]: its string functions and [verify_utf8].
    - [EpmdNode]: the registry, two linked lists on a heap of cells
      ([node_reg2], [node_unreg], [node_unreg_sock]); the classes [NodeDb] and
      [NodeDbSpec] are what it promises to the server.
    - [EpmdConn]: the connection table, [EpmdVars], the world of system calls,
      and the monad in which the server is written.
    - [EpmdReq]: [do_request], request by request, and [reply].
    - [EpmdSrv]: [do_read], [do_accept], and a round of the loop in [run]; the
      server as a transition system.
    - [EpmdClient]: the client side in [erl_interface] ([epmd_publish.c],
      [epmd_port.c], [epmd_unpublish.c]) and the two sides together.

    ** How the code is modelled

    A buffer is a list of bytes as integers 0..255; a pointer into it is an
    index.  A read or write outside of the buffer is an outcome of its own
    ([DOob], [EOob], [ROob], [None], [Crash]), so that a theorem that a function returns
    something also says that it stays inside of its memory.  C integers are
    kept at their width: [wrapu w] and [wraps w] are the reductions of unsigned
    and signed [w]-bit integers, and appear where the code can wrap around.

    An encoder is a function of an optional buffer ([None] is the NULL of the
    size-probing call) and of [*index], with an outcome: success with the new
    buffer and index, or -1 with the index the code leaves.  A decoder takes
    buffer and index.  [Emits f bs] says that [f] writes the byte string [bs],
    [Decodes d bs a] that [d] reads it as [a]; every encoder and decoder has an
    instance, and round trips follow from a pair of them ([emits_roundtrip]).
    [RoundTrip] spells out what users rely on: the probing call announces the
    end, the writing call succeeds when there is room up to there and leaves the
    rest of the buffer alone, and the decoder returns the value and ends at the
    same index.

    A socket is a script: the results that the calls of [read] and [write] will
    have, in their order, pieces of any size and errors included.  The functions
    that read or write take the script and return what is left of it; [delivers],
    [packet_arrives] and [hs_arrives] say that it hands out given bytes in some
    pieces.  The functions of connections and messages return [rres]: a result,
    [ERL_ERROR], an access out of bounds, or that a transfer has not ended.

    An integer of the emulator is a term: a small of 60 bits, or a bignum, a sign and
    a vector of digits, the lowest one first.  [integer_term z] is the term of the
    integer [z], [NIL] when it has too many digits; [representable] says that it has
    one.  A vector is a list of its own where the code has a result replace an
    operand, because each digit is read before it is written.

    The server runs in a state monad with four outcomes ([Ret], [Exit],
    [Blocked], [Crash]) over a world that holds the variables of the server and
    scripts of what each system call will return; theorems quantify over all
    scripts.  The registry is the linked structure of the code, with its
    pointers, related to lists by [holds_lists].

    ** What the theorems show

    - Codec: round trips for every kind of data; [ei_decode_longlong] and
      [ei_decode_ulonglong] give the mathematical value or refuse, on every
      integer of the format; a node with 32-bit longs and one with 64-bit longs
      understand each other; the ASCII fast track is equivalent to the loops it
      shortens; [copy_bits] copies exactly the requested bits; comparisons are
      total orders and compare numbers.
    - Terms: [ei_skip_term] skips every term the encoders can write, long strings
      and closures in the old format included, to any depth; the two passes of [ei_decode_iodata] agree on every input.
    - Buffers: any sequence of [ei_x_] calls that write (but the one for integers
      of GMP) refines appending to a byte string, and no call touches memory outside of the block or changes the buffer when
      it fails.
    - Formatted terms: a text that follows the rules is translated to the term it
      stands for, to any depth; the calls on any text are at most linear in number,
      and without directives they end with a value or an error, inside of the text
      and one NUL more; what is printed of a term without quotes and tildes in its
      names and strings is read back as the same term.
    - Digest: MD5 over a message in any pieces is the function of RFC 1321.
    - Transfers: writing a vector of buffers is writing their concatenation.
    - Handshake: two nodes with the same cookie complete it; a side that
      completes it has received the digest of its own cookie and challenge; a
      node with another digest is refused; on any input, a node that has a name
      stays inside of its buffers, the arrays for the names of its peers included.
    - Messages: what is sent to a pid, to a registered name, or as an exit
      signal is received with its control message, its payload and its trace
      token, in whatever pieces the packet arrives.
    - Remote calls: a request reaches the server [rex] of the other node with the
      caller's pid and the call; its answer reaches the caller behind any number
      of ticks.
    - Global names: each of the four requests reaches the other node; a name is
      registered exactly when the bytes of the answer say so behind the signals that
      are expected; the pid of a name and the list of names are those of the answer.
    - Packets: what the length of a packet is does not depend on how much of the
      stream behind its beginning has arrived; a length is never negative except
      for an error, and never asks for more than the header announces; packets
      that are written one behind the other are found again, those of a C node
      among them.
    - HTTP: requests and responses are read back, with every form of URI; the hash
      tables find exactly the names they were filled with; no line, whatever is in
      it, makes the parser read outside of it or write outside of its array for a
      name, and a TLS record is handed to its callback once, with its parts.
    - Digits: the macros of both kinds of compilers agree.  Vectors: the ways to a
      product and to a quotient agree, and are the product and the quotient.
    - Operators: for smalls and bignums in any combination, [+], [-], [*], [div],
      [rem], [band], [bor], [bxor], [bnot], [bsl] and [bsr] give the term of the
      mathematical result, or the error they have to raise, and keep the invariant
      of terms, with one exception, a result of [band] that has no term
      ([bit_operators]); all of them refuse what is not a number.  The conversions to words give the number or the error.
    - External integers: every integer is read back by the emulator and, when it is in
      the range of the type, by a C node, and the other way round; whatever bytes a
      peer sends, what the size check accepts is decoded inside of the bytes and the
      heap that were counted.
    - Text: every integer is written as its numeral in every base, whichever way is
      taken, at once or on another scheduler exactly when the work is long, and no buffer is too short; the estimates in double precision are never
      below; what is read of a text is the integer again, or left to the caller when it
      may not be small, and other strings are refused.
    - Identifiers: under every interleaving of threads, pids and references are
      those of a sequence of calls, do not repeat before their numbers wrap, and no
      pid has the serial of [ei_self].
    - Connections: the segmented table is a finite map from descriptors, for cookies
      that fit an entry.
    - Registry: every sequence of operations refines the list specification; a
      name registered again gets another creation.
    - Server: an invariant of every reachable state (memory safety, intact
      lists, one watched connection per node); how requests are fragmented makes
      no difference; a node that goes away is unregistered; peers on other hosts
      can only look up; [verify_utf8] accepts exactly UTF-8.
    - Client and server: what one C node publishes, another one finds.
    - Where the code does not do what it means to, a theorem says what it does
      instead ([ei_decode_atom_as_overflow], [copy_bits_overread],
      [skip_unbounded_recursion], [ei_small_to_big_value],
      [ei_encode_bignum_not_reread], [ei_term_big_not_stored],
      [ei_x_encode_atom_long], [recv_status_overflow], [recv_status_bad_free],
      [complement_refused], [negative_package], [recv_negative_length],
      [send_header_overflow], [exit_reason_overflow],
      [list_remove_ineffective], [rpc_short_answer], [improper_list_headless],
      [space_before_comma], [unclosed_overread], [tilde_in_quotes],
      [high_char_printed], [improper_list_reread], [quotes_not_escaped],
      [long_cookie_overflow], [long_tag_overflows],
      [no_names_overflows], [other_name_truncates], [line_limits_clash],
      [delete_in_token], [port_overflows], [D2DIVREM_short], [erts_band_nil],
      [bignum_negative_misread], [wide_character_read], [zeros_before_term]).

    ** Bounds and fuel

    Loops over data are structural recursions.  [ei_skip_term] and
    [ei_decode_iodata] recurse on untrusted input and take a fuel that bounds
    the depth of the recursion; more than the depth of the term is enough
    ([skip_encoded_term], [iodata_content]), and [DFuel] is an outcome of its
    own.  The loop of MD5 over whole blocks and the loop that drops a message
    that does not fit take the number of bytes as fuel, the loop over ticks the
    number of reads that are left; the loop over the signals in front of an answer
    takes three turns, which are enough ([wait_answer_some]).  [ei_x_format] takes fuel for the calls of its
    functions to each other; two for each character of the text are enough
    ([format_terminates]).  The loop over the lines of an HTTP header takes the
    number of bytes and one more, which is enough ([packet_length_bounds]).
    [print_term] takes the depth of
    the term as fuel ([print_format_roundtrip]).  Long division takes 200 turns for each
    digit of the dividend, because a turn that does not shorten the remainder makes it
    smaller by a quarter ([I_div_ok]); [D2DIVREM] takes 400; [I_mul_karatsuba] and
    [bz_div_2n_1n] take the number of digits as the depth, and two corrections of a
    quotient are enough for the latter ([bz_div_2n_1n_ok]).  [write_big_simple] takes two turns
    for each digit, [write_big_dc_top] and [write_big_dc_padded] the number of levels of
    the cache as the depth, and the loop that counts the levels 32 turns, which are enough
    for the largest bignum ([write_big_ok], [count_levels_ok]).  Searches in linked lists take the number of cells as fuel, which is
    enough because the lists have no cycles ([EpmdNode], [holds_lists]).

    ** Parameters

    Code that is not in the repository is a parameter: [sscanf] of the old float
    format and of [ei_x_format] ([scan], [sscanf_lf]), [printf] of a double ([fmt_f]), GMP (class [Gmp], with an instance on integers), [malloc]
    (it may refuse, and new memory has arbitrary contents), the contents of
    uninitialized arrays, the sockets, and the system calls of the server.  A descriptor that [accept] returns is assumed not to be open
    already, as POSIX says.

    ** Not modelled

    The emulator apart from its MD5, its packet parser and its integers, and everything in
    the repository outside of the C-node stack; of the integers: floats and mixed
    arithmetic with them, reading of text that is not sure to be small (which is done
    in Erlang), the sizes of the temporary blocks for powers, the 32-bit build, and the
    accounting of heap and reductions; of the stack: trace and debug output, the set-up of sockets
    and daemon mode in [run], the set-up of connections before the handshake,
    the initialization of the library and the exit of programs that leave it out,
    the socket callbacks and timeouts,
    reading the cookie file, resolving host names, locks and thread-local data,
    [erl_call], [ei_big_to_double] (floating-point
    arithmetic), and functions that only free memory. *)
From stdpp Require Export base list numbers tactics.
From Stdlib Require Export ZArith Lia Bool.
#[global] Open Scope Z_scope.

(** ** Machine integers *)

(** Unsigned and two's complement reduction of an integer to [w] bits. *)
Definition wrapu (w x : Z) : Z := x mod 2 ^ w.
Definition wraps (w x : Z) : Z := (x + 2 ^ (w - 1)) mod 2 ^ w - 2 ^ (w - 1).

Definition INT_MAX : Z := 2147483647.
Definition INT_MIN : Z := -2147483648.

Definition in_u (w x : Z) : Prop := 0 <= x < 2 ^ w.
Definition in_s (w x : Z) : Prop := - 2 ^ (w - 1) <= x < 2 ^ (w - 1).

Lemma wrapu_small w x : in_u w x -> wrapu w x = x.
Proof. intros H. apply Z.mod_small, H. Qed.

Lemma wrapu_range w x : 0 <= w -> in_u w (wrapu w x).
Proof. intros H. apply Z.mod_pos_bound. apply Z.pow_pos_nonneg; lia. Qed.

Lemma wrapu_idemp w x : wrapu w (wrapu w x) = wrapu w x.
Proof. unfold wrapu. apply Zmod_mod. Qed.

Lemma pow2_half w : 0 < w -> 2 ^ w = 2 * 2 ^ (w - 1).
Proof. intros H. replace w with (Z.succ (w - 1)) at 1 by lia. rewrite Z.pow_succ_r; lia. Qed.

Lemma wraps_small w x : 0 < w -> in_s w x -> wraps w x = x.
Proof.
  intros Hw [H1 H2]. unfold wraps. pose proof (pow2_half w Hw).
  rewrite Z.mod_small; lia.
Qed.

Lemma wraps_range w x : 0 < w -> in_s w (wraps w x).
Proof.
  intros Hw. unfold wraps, in_s. pose proof (pow2_half w Hw).
  pose proof (Z.mod_pos_bound (x + 2 ^ (w - 1)) (2 ^ w)). 
  assert (0 < 2 ^ w) by (apply Z.pow_pos_nonneg; lia). lia.
Qed.

Lemma wraps_wrapu w x : 0 < w -> wraps w (wrapu w x) = wraps w x.
Proof.
  intros Hw. unfold wraps, wrapu. rewrite Zplus_mod_idemp_l. reflexivity.
Qed.

Lemma wrapu_wraps w x : 0 < w -> wrapu w (wraps w x) = wrapu w x.
Proof.
  intros Hw. unfold wraps, wrapu.
  rewrite Zminus_mod_idemp_l. f_equal. lia.
Qed.

Lemma wrapu_wraps_small w n : 0 < w -> in_u w n -> wrapu w (wraps w n) = n.
Proof. intros Hw Hn. rewrite wrapu_wraps by done. by apply wrapu_small. Qed.

(** ** Bytes *)

(** A byte of memory, as the integer an [unsigned char] read of it gives. *)
Definition byte_ok (b : Z) : Prop := 0 <= b < 256.
Abbreviation bytes_ok := (Forall byte_ok).

(** [byte_at k n] is [((n) >> 8*k) & 0xff], the shape of every store of the
    [put] macros; the shift is arithmetic, so negative [n] gives the bytes of
    its two's complement representation. *)
Definition byte_at (k n : Z) : Z := Z.land (Z.shiftr n (8 * k)) 255.

Fixpoint be_bytes (k : nat) (n : Z) : list Z :=
  match k with
  | O => []
  | S k => byte_at (Z.of_nat k) n :: be_bytes k n
  end.

Fixpoint le_bytes (k : nat) (n : Z) : list Z :=
  match k with
  | O => []
  | S k => Z.land n 255 :: le_bytes k (Z.shiftr n 8)
  end.

(** The unsigned values of a big-endian and of a little-endian byte string. *)
Definition be_val (l : list Z) : Z := fold_left (fun a b => a * 256 + b) l 0.

Fixpoint le_val (l : list Z) : Z :=
  match l with
  | [] => 0
  | b :: l => b + 256 * le_val l
  end.

Lemma land_255 n : Z.land n 255 = n mod 256.
Proof. change 255 with (Z.ones 8). rewrite Z.land_ones by lia. reflexivity. Qed.

Lemma byte_at_alt k n : 0 <= k -> byte_at k n = (n / 2 ^ (8 * k)) mod 256.
Proof. intros. unfold byte_at. rewrite land_255, Z.shiftr_div_pow2; [reflexivity|lia]. Qed.

Lemma byte_at_ok k n : byte_ok (byte_at k n).
Proof. unfold byte_at. rewrite land_255. apply Z.mod_pos_bound. lia. Qed.

Lemma land_255_ok n : byte_ok (Z.land n 255).
Proof. rewrite land_255. apply Z.mod_pos_bound. lia. Qed.

Lemma land_255_small n : byte_ok n -> Z.land n 255 = n.
Proof. intros. rewrite land_255. apply Z.mod_small. exact H. Qed.

Lemma be_bytes_ok k n : bytes_ok (be_bytes k n).
Proof. induction k; simpl; constructor; auto using byte_at_ok. Qed.

Lemma le_bytes_ok k n : bytes_ok (le_bytes k n).
Proof. revert n. induction k; simpl; constructor; auto using land_255_ok. Qed.

Lemma length_be_bytes k n : length (be_bytes k n) = k.
Proof. induction k; simpl; auto. Qed.

Lemma length_le_bytes k n : length (le_bytes k n) = k.
Proof. revert n. induction k; simpl; auto. Qed.

Lemma be_val_acc l a :
  fold_left (fun a b => a * 256 + b) l a = a * 256 ^ Z.of_nat (length l) + be_val l.
Proof.
  unfold be_val. revert a. induction l as [|b l IH]; intros a.
  - simpl. lia.
  - cbn [fold_left length]. rewrite IH, (IH (0 * 256 + b)).
    rewrite Nat2Z.inj_succ, Z.pow_succ_r by lia. ring.
Qed.

Lemma be_val_cons b l : be_val (b :: l) = b * 256 ^ Z.of_nat (length l) + be_val l.
Proof. unfold be_val at 1. cbn [fold_left]. rewrite be_val_acc. lia. Qed.

Lemma pow_256 n : 0 <= n -> 256 ^ n = 2 ^ (8 * n).
Proof. intros. change 256 with (2 ^ 8). rewrite <- Z.pow_mul_r; [reflexivity|lia..]. Qed.

(** Storing the [k] low bytes of [n] and reading them back gives [n] reduced
    to [8*k] bits, in either byte order. *)
Lemma be_val_bytes k n : be_val (be_bytes k n) = wrapu (8 * Z.of_nat k) n.
Proof.
  unfold wrapu. induction k as [|k IH].
  - simpl. rewrite Z.mod_1_r. reflexivity.
  - cbn [be_bytes]. rewrite be_val_cons, IH, length_be_bytes, byte_at_alt by lia.
    rewrite pow_256 by lia.
    replace (8 * Z.of_nat (S k)) with (8 * Z.of_nat k + 8) by lia.
    rewrite Z.pow_add_r by lia.
    rewrite (Z.rem_mul_r n (2 ^ (8 * Z.of_nat k)) (2 ^ 8)) by lia.
    change (2 ^ 8) with 256. ring.
Qed.

Lemma le_val_bytes k n : le_val (le_bytes k n) = wrapu (8 * Z.of_nat k) n.
Proof.
  unfold wrapu. revert n. induction k as [|k IH]; intros n.
  - simpl. rewrite Z.mod_1_r. reflexivity.
  - cbn [le_bytes le_val]. rewrite IH, land_255, Z.shiftr_div_pow2 by lia.
    replace (8 * Z.of_nat (S k)) with (8 + 8 * Z.of_nat k) by lia.
    rewrite Z.pow_add_r by lia.
    rewrite (Z.rem_mul_r n (2 ^ 8) (2 ^ (8 * Z.of_nat k))) by lia.
    reflexivity.
Qed.

Lemma be_val_range l : bytes_ok l -> 0 <= be_val l < 256 ^ Z.of_nat (length l).
Proof.
  induction 1 as [|b l Hb _ IH]; [simpl; unfold be_val; simpl; lia|].
  rewrite be_val_cons. cbn [length]. rewrite Nat2Z.inj_succ, Z.pow_succ_r by lia.
  unfold byte_ok in Hb. nia.
Qed.

Lemma le_val_range l : bytes_ok l -> 0 <= le_val l < 256 ^ Z.of_nat (length l).
Proof.
  induction 1 as [|b l Hb _ IH]; [simpl; lia|].
  cbn [length le_val]. rewrite Nat2Z.inj_succ, Z.pow_succ_r by lia.
  unfold byte_ok in Hb. nia.
Qed.

Lemma le_val_app l1 l2 :
  le_val (l1 ++ l2) = le_val l1 + 256 ^ Z.of_nat (length l1) * le_val l2.
Proof.
  induction l1 as [|b l1 IH]; [simpl; lia|].
  cbn [app length le_val]. rewrite IH, Nat2Z.inj_succ, Z.pow_succ_r by lia. ring.
Qed.

(** The macros combine bytes with shifts and [|]; on bytes that is the sum. *)
Lemma lor_shiftl_add a b n :
  0 <= n -> 0 <= b < 2 ^ n -> Z.lor (Z.shiftl a n) b = a * 2 ^ n + b.
Proof.
  intros Hn Hb. rewrite <- (Z.shiftl_mul_pow2 a n) by lia.
  assert (Z.land (Z.shiftl a n) b = 0) as Hland.
  { apply Z.bits_inj'. intros i Hi.
    rewrite Z.land_spec, Z.bits_0, Z.shiftl_spec by lia.
    destruct (Z.ltb_spec i n).
    - rewrite Z.testbit_neg_r by lia. reflexivity.
    - rewrite <- (Z.mod_small b (2 ^ n)) by lia.
      rewrite Z.mod_pow2_bits_high by lia. apply andb_false_r. }
  rewrite Z.add_nocarry_lxor by exact Hland.
  symmetry. apply Z.lxor_lor, Hland.
Qed.

(** A decidable property of bytes holds of all of them when it evaluates to
    [true] on the 256 values. *)
Lemma byte_forall (f : Z -> bool) :
  forallb f (map Z.of_nat (seq 0 256)) = true -> forall c, byte_ok c -> f c = true.
Proof.
  intros H c [H0 H1]. rewrite forallb_forall in H. apply H.
  apply in_map_iff. exists (Z.to_nat c). split; [lia|]. apply in_seq. lia.
Qed.

Lemma land_cons b c x y :
  byte_ok b -> byte_ok c ->
  Z.land (b + 256 * x) (c + 256 * y) = Z.land b c + 256 * Z.land x y.
Proof.
  unfold byte_ok. intros Hb Hc.
  assert (0 <= Z.land b c < 2 ^ 8) as Hbc.
  { rewrite <- (Z.mod_small c (2 ^ 8)) by lia. rewrite <- Z.land_ones by lia.
    rewrite Z.land_assoc, Z.land_ones by lia. apply Z.mod_pos_bound. lia. }
  assert (forall u v, v + 256 * u = u * 2 ^ 8 + v) as E by (intros; lia).
  rewrite !E, <- !lor_shiftl_add by lia.
  apply Z.bits_inj'. intros i Hi.
  rewrite !Z.land_spec, !Z.lor_spec, !Z.shiftl_spec, !Z.land_spec by lia.
  destruct (Z.ltb_spec i 8).
  - rewrite !(Z.testbit_neg_r _ (i - 8)) by lia. cbn. reflexivity.
  - rewrite <- (Z.mod_small b (2 ^ 8)), <- (Z.mod_small c (2 ^ 8)) by lia.
    rewrite !Z.mod_pow2_bits_high by lia. rewrite !orb_false_r. reflexivity.
Qed.
