(* ===== verification/PutGet.v ===== *)
(** * Byte buffers and the put/get macros of [misc/putget.h]

    Memory blocks, the outcome types of the encoders and decoders, the macros
    through which [erl_interface] reads and writes buffers, and the two
    interfaces the rest of the development is stated against: [Emits] (what an
    [ei_encode_*] function promises) and [Decodes] (what an [ei_decode_*]
    function promises). *)
From S2P Require Import Prelude.

(** ** Memory *)

(** The memory block a [char *buf] points to, byte by byte. *)
Abbreviation mem := (list Z).

Definition zlen {A} (l : list A) : Z := Z.of_nat (length l).

(** [buf[s]]; [None] when [s] is outside of the block. *)
Definition mem_get (m : mem) (s : Z) : option Z :=
  if s <? 0 then None else m !! Z.to_nat s.

(** The [n] bytes at [buf + s], the source operand of a [memcpy]. *)
Definition slice (m : mem) (s n : Z) : option (list Z) :=
  if (0 <=? s) && (0 <=? n) && (s + n <=? zlen m)
  then Some (take (Z.to_nat n) (drop (Z.to_nat s) m)) else None.

(** Write the bytes [bs] at [buf + s]; [None] when that leaves the block. *)
Definition store (m : mem) (s : Z) (bs : list Z) : option mem :=
  if (0 <=? s) && (s + zlen bs <=? zlen m)
  then Some (take (Z.to_nat s) m ++ bs ++ drop (Z.to_nat s + length bs) m) else None.

(** The block holds the bytes [bs] at position [s]. *)
Definition holds (m : mem) (s : Z) (bs : list Z) : Prop :=
  exists pre post, m = pre ++ bs ++ post /\ zlen pre = s.

(** A C string: the characters up to a NUL. *)
Fixpoint c_str (l : list Z) : list Z :=
  match l with [] => [] | c :: l => if c =? 0 then [] else c :: c_str l end.

Lemma c_str_id l : forallb (fun c => negb (c =? 0)) l = true -> c_str l = l.
Proof. induction l as [|c l IH]; cbn [c_str forallb]; [done|]. intros [Hc H]%andb_true_iff. destruct (c =? 0); [done|]. by rewrite IH. Qed.

Lemma zlen_nil {A} : zlen (@nil A) = 0.
Proof. reflexivity. Qed.

Lemma zlen_cons {A} (x : A) l : zlen (x :: l) = 1 + zlen l.
Proof. unfold zlen. cbn [length]. lia. Qed.

Lemma zlen_app {A} (l1 l2 : list A) : zlen (l1 ++ l2) = zlen l1 + zlen l2.
Proof. unfold zlen. rewrite length_app. lia. Qed.

Lemma zlen_nonneg {A} (l : list A) : 0 <= zlen l.
Proof. unfold zlen. lia. Qed.

Lemma zlen_be_bytes k n : zlen (be_bytes k n) = Z.of_nat k.
Proof. unfold zlen. rewrite length_be_bytes. reflexivity. Qed.

Lemma zlen_le_bytes k n : zlen (le_bytes k n) = Z.of_nat k.
Proof. unfold zlen. rewrite length_le_bytes. reflexivity. Qed.

Lemma zlen_replicate {A} n (x : A) : zlen (replicate n x) = Z.of_nat n.
Proof. unfold zlen. rewrite length_replicate. reflexivity. Qed.

Create Rewrite HintDb zlen.
#[export] Hint Rewrite @zlen_nil @zlen_cons @zlen_app zlen_be_bytes zlen_le_bytes
  @zlen_replicate : zlen.

(** Linear arithmetic over block lengths. *)
Ltac zlen_lia :=
  autorewrite with zlen in *;
  repeat match goal with
  | |- context [zlen ?l] => lazymatch goal with
      | H : 0 <= zlen l |- _ => fail
      | _ => pose proof (zlen_nonneg l) end
  | H : context [zlen ?l] |- _ => lazymatch goal with
      | H' : 0 <= zlen l |- _ => fail
      | _ => pose proof (zlen_nonneg l) end
  end; lia.

Lemma holds_intro pre bs post : holds (pre ++ bs ++ post) (zlen pre) bs.
Proof. exists pre, post. auto. Qed.

Lemma holds_nonneg m s bs : holds m s bs -> 0 <= s.
Proof. intros (pre & post & _ & <-). apply zlen_nonneg. Qed.

Lemma holds_bound m s bs : holds m s bs -> s + zlen bs <= zlen m.
Proof. intros (pre & post & -> & <-). zlen_lia. Qed.

Lemma holds_app m s l1 l2 :
  holds m s (l1 ++ l2) -> holds m s l1 /\ holds m (s + zlen l1) l2.
Proof.
  intros (pre & post & -> & <-). split.
  - exists pre, (l2 ++ post). by rewrite !app_assoc.
  - exists (pre ++ l1), post. rewrite !app_assoc. split; [done|]. zlen_lia.
Qed.

Lemma holds_cons m s b bs :
  holds m s (b :: bs) -> mem_get m s = Some b /\ holds m (s + 1) bs.
Proof.
  intros (pre & post & -> & <-). split.
  - unfold mem_get. destruct (Z.ltb_spec (zlen pre) 0); [pose proof (zlen_nonneg pre); lia|].
    unfold zlen. rewrite Nat2Z.id, lookup_app_r, Nat.sub_diag by lia. reflexivity.
  - exists (pre ++ [b]), post. rewrite <- !app_assoc. split; [done|]. zlen_lia.
Qed.

Lemma holds_slice m s bs n : holds m s bs -> zlen bs = n -> slice m s n = Some bs.
Proof.
  intros (pre & post & -> & <-) <-. unfold slice.
  rewrite !zlen_app. pose proof (zlen_nonneg pre). pose proof (zlen_nonneg bs).
  pose proof (zlen_nonneg post).
  replace (_ && _ && _) with true by (symmetry; rewrite !andb_true_iff, !Z.leb_le; lia).
  unfold zlen. rewrite !Nat2Z.id, drop_app_length, take_app_length. reflexivity.
Qed.

Lemma slice_some m s n l :
  slice m s n = Some l -> zlen l = n /\ holds m s l /\ (bytes_ok m -> bytes_ok l).
Proof.
  unfold slice. destruct (_ && _ && _) eqn:E; [|done]. intros [= <-].
  rewrite !andb_true_iff, !Z.leb_le in E. unfold zlen in *. split; [|split].
  - rewrite length_take, length_drop. lia.
  - exists (take (Z.to_nat s) m), (drop (Z.to_nat n) (drop (Z.to_nat s) m)).
    rewrite take_drop, take_drop. unfold zlen. rewrite length_take. split; [done|lia].
  - intros H. by apply Forall_take, Forall_drop.
Qed.

Lemma store_length m s bs m' : store m s bs = Some m' -> length m' = length m.
Proof.
  unfold store, zlen. destruct (_ && _) eqn:E; [|done]. intros [= <-].
  apply andb_true_iff in E. rewrite !Z.leb_le in E.
  rewrite !length_app, length_take, length_drop. lia.
Qed.

Lemma store_holds m s bs m' : store m s bs = Some m' -> holds m' s bs.
Proof.
  unfold store, zlen. destruct (_ && _) eqn:E; [|done]. intros [= <-].
  apply andb_true_iff in E. rewrite !Z.leb_le in E.
  eexists _, _. split; [reflexivity|]. unfold zlen. rewrite length_take. lia.
Qed.

(** A store changes no byte before or after the bytes it writes. *)
Lemma store_frame m s bs m' i :
  store m s bs = Some m' -> i < s \/ s + zlen bs <= i -> mem_get m' i = mem_get m i.
Proof.
  unfold store, mem_get, zlen. destruct (_ && _) eqn:E; [|done]. intros [= <-] Hi.
  apply andb_true_iff in E. rewrite !Z.leb_le in E. destruct (Z.ltb_spec i 0); [done|].
  destruct Hi as [Hi|Hi].
  - rewrite lookup_app_l by (rewrite length_take; lia). apply lookup_take_lt. lia.
  - rewrite lookup_app_r by (rewrite length_take; lia).
    rewrite lookup_app_r by (rewrite length_take; lia).
    rewrite lookup_drop, length_take. f_equal. lia.
Qed.

Lemma store_some m s bs :
  0 <= s -> s + zlen bs <= zlen m -> exists m', store m s bs = Some m'.
Proof.
  intros. unfold store.
  replace (_ && _) with true by (symmetry; rewrite andb_true_iff, !Z.leb_le; lia). eauto.
Qed.

Lemma store_None m s bs : store m s bs = None <-> s < 0 \/ zlen m < s + zlen bs.
Proof.
  unfold store. destruct (_ && _) eqn:E.
  - rewrite andb_true_iff, !Z.leb_le in E. split; [done|lia].
  - rewrite andb_false_iff, !Z.leb_gt in E. split; [lia|done].
Qed.

Lemma store_bounds m s bs m' :
  store m s bs = Some m' -> 0 <= s /\ s + zlen bs <= zlen m /\ zlen m' = zlen m.
Proof.
  intros E. pose proof (store_length _ _ _ _ E) as Hl. revert E.
  unfold store. destruct (_ && _) eqn:E1; [|done].
  rewrite andb_true_iff, !Z.leb_le in E1. intros _. unfold zlen in *. lia.
Qed.

Lemma store_nil m s : 0 <= s <= zlen m -> store m s [] = Some m.
Proof.
  intros H. unfold store. change (zlen (@nil Z)) with 0.
  replace (_ && _) with true by (symmetry; rewrite andb_true_iff, !Z.leb_le; lia).
  cbn [app length]. rewrite Nat.add_0_r, take_drop. reflexivity.
Qed.

(** Two adjacent stores, in either order, are one store of the concatenation. *)
(** The buffer after a [memcpy] behind the [tail] that is in it. *)
Lemma store_behind tail rest l :
  (length l <= length rest)%nat ->
  store (tail ++ rest) (zlen tail) l = Some ((tail ++ l) ++ drop (length l) rest).
Proof.
  intros H. unfold store. rewrite zlen_app.
  assert ((0 <=? zlen tail) && (zlen tail + zlen l <=? zlen tail + zlen rest) = true) as ->
    by (apply andb_true_intro; split; apply Z.leb_le; unfold zlen; lia).
  unfold zlen. rewrite Nat2Z.id, take_app_length, <- drop_drop, drop_app_length. by rewrite app_assoc.
Qed.

Lemma store_seq m s l1 l2 :
  match store m s l1 with Some m1 => store m1 (s + zlen l1) l2 | None => None end
  = store m s (l1 ++ l2).
Proof.
  destruct (store m s l1) as [m1|] eqn:E.
  2:{ symmetry. apply store_None. apply store_None in E. zlen_lia. }
  pose proof (store_length _ _ _ _ E) as Hlen. unfold store, zlen in *.
  destruct (_ && _) eqn:E1 in E; [|done]. injection E as <-.
  rewrite andb_true_iff, !Z.leb_le in E1. rewrite Hlen, length_app.
  replace (0 <=? s + Z.of_nat (length l1)) with true by (symmetry; apply Z.leb_le; lia).
  replace (0 <=? s) with true by (symmetry; apply Z.leb_le; lia). cbn [andb].
  replace (s + Z.of_nat (length l1) + Z.of_nat (length l2))
    with (s + Z.of_nat (length l1 + length l2)) by lia.
  destruct (Z.leb_spec (s + Z.of_nat (length l1 + length l2)) (Z.of_nat (length m))); [|done].
  f_equal. rewrite Z2Nat.inj_add, Nat2Z.id by lia.
  set (p := take (Z.to_nat s) m). assert (length p = Z.to_nat s) as Hp.
  { unfold p. rewrite length_take. lia. }
  rewrite !app_assoc. rewrite take_app_length' by (rewrite length_app; lia).
  rewrite drop_app_ge by (rewrite length_app; lia). rewrite length_app, drop_drop.
  f_equal. f_equal. lia.
Qed.

Lemma store_back m s l1 l2 :
  match store m (s + zlen l1) l2 with Some m1 => store m1 s l1 | None => None end
  = if s <? 0 then None else store m s (l1 ++ l2).
Proof.
  destruct (Z.ltb_spec s 0).
  { destruct (store m (s + zlen l1) l2); [apply store_None; lia|done]. }
  destruct (store m (s + zlen l1) l2) as [m1|] eqn:E.
  2:{ symmetry. apply store_None. apply store_None in E. zlen_lia. }
  pose proof (store_length _ _ _ _ E) as Hlen. unfold store, zlen in *.
  destruct (_ && _) eqn:E1 in E; [|done]. injection E as <-.
  rewrite andb_true_iff, !Z.leb_le in E1. rewrite Hlen, length_app.
  replace (0 <=? s) with true by (symmetry; apply Z.leb_le; lia). cbn [andb].
  replace (s + Z.of_nat (length l1) <=? Z.of_nat (length m)) with true
    by (symmetry; apply Z.leb_le; lia).
  replace (s + Z.of_nat (length l1 + length l2) <=? Z.of_nat (length m)) with true
    by (symmetry; apply Z.leb_le; lia).
  f_equal. rewrite Z2Nat.inj_add, Nat2Z.id by lia.
  rewrite take_app_le by (rewrite length_take; lia). rewrite take_take, Nat.min_l by lia.
  rewrite (drop_app_ge _ (l2 ++ _)) by (rewrite length_take; lia).
  rewrite length_take, Nat.min_l by lia.
  rewrite Nat.sub_diag, drop_0, <- !app_assoc, Nat.add_assoc. reflexivity.
Qed.

(** ** The macros *)

(** [putN(s,n)] stores and advances [s]; [None] is a store outside of the
    block. *)
Definition put8 (m : mem) (s n : Z) : option (mem * Z) :=
  match store m s [Z.land n 255] with Some m => Some (m, s + 1) | None => None end.
Definition put16le (m : mem) (s n : Z) : option (mem * Z) :=
  match store m s [Z.land n 255; Z.land (Z.shiftr n 8) 255] with
  | Some m => Some (m, s + 2) | None => None end.
Definition put32le (m : mem) (s n : Z) : option (mem * Z) :=
  match store m s [Z.land n 255; Z.land (Z.shiftr n 8) 255;
                   Z.land (Z.shiftr n 16) 255; Z.land (Z.shiftr n 24) 255] with
  | Some m => Some (m, s + 4) | None => None end.
Definition put16be (m : mem) (s n : Z) : option (mem * Z) :=
  match store m s [Z.land (Z.shiftr n 8) 255; Z.land n 255] with
  | Some m => Some (m, s + 2) | None => None end.
Definition put32be (m : mem) (s n : Z) : option (mem * Z) :=
  match store m s [Z.land (Z.shiftr n 24) 255; Z.land (Z.shiftr n 16) 255;
                   Z.land (Z.shiftr n 8) 255; Z.land n 255] with
  | Some m => Some (m, s + 4) | None => None end.
Definition put64be (m : mem) (s n : Z) : option (mem * Z) :=
  match store m s [Z.land (Z.shiftr n 56) 255; Z.land (Z.shiftr n 48) 255;
                   Z.land (Z.shiftr n 40) 255; Z.land (Z.shiftr n 32) 255;
                   Z.land (Z.shiftr n 24) 255; Z.land (Z.shiftr n 16) 255;
                   Z.land (Z.shiftr n 8) 255; Z.land n 255] with
  | Some m => Some (m, s + 8) | None => None end.
(** [memcpy(s, p, len); s += len] with the bytes [p]. *)
Definition put_bytes (m : mem) (s : Z) (bs : list Z) : option (mem * Z) :=
  match store m s bs with Some m => Some (m, s + zlen bs) | None => None end.

(** [getN(s)] reads and advances [s]; [None] is a read outside of the block.
    The 32-bit reads have type [int]: a leading byte of 128 or more gives a
    negative value. *)
Definition get8 (m : mem) (s : Z) : option (Z * Z) :=
  match mem_get m s with Some b => Some (Z.land b 255, s + 1) | None => None end.
Definition get16le (m : mem) (s : Z) : option (Z * Z) :=
  match mem_get m s, mem_get m (s + 1) with
  | Some b0, Some b1 => Some (Z.land (Z.lor (Z.shiftl b1 8) b0) 65535, s + 2)
  | _, _ => None end.
Definition get32le (m : mem) (s : Z) : option (Z * Z) :=
  match mem_get m s, mem_get m (s + 1), mem_get m (s + 2), mem_get m (s + 3) with
  | Some b0, Some b1, Some b2, Some b3 =>
      Some (wraps 32 (Z.lor (Z.lor (Z.lor (Z.shiftl b3 24) (Z.shiftl b2 16)) (Z.shiftl b1 8)) b0),
            s + 4)
  | _, _, _, _ => None end.
Definition get16be (m : mem) (s : Z) : option (Z * Z) :=
  match mem_get m s, mem_get m (s + 1) with
  | Some b0, Some b1 => Some (Z.land (Z.lor (Z.shiftl b0 8) b1) 65535, s + 2)
  | _, _ => None end.
Definition get32be (m : mem) (s : Z) : option (Z * Z) :=
  match mem_get m s, mem_get m (s + 1), mem_get m (s + 2), mem_get m (s + 3) with
  | Some b0, Some b1, Some b2, Some b3 =>
      Some (wraps 32 (Z.lor (Z.lor (Z.lor (Z.shiftl b0 24) (Z.shiftl b1 16)) (Z.shiftl b2 8)) b3),
            s + 4)
  | _, _, _, _ => None end.
Definition get64be (m : mem) (s : Z) : option (Z * Z) :=
  match mem_get m s, mem_get m (s + 1), mem_get m (s + 2), mem_get m (s + 3),
        mem_get m (s + 4), mem_get m (s + 5), mem_get m (s + 6), mem_get m (s + 7) with
  | Some b0, Some b1, Some b2, Some b3, Some b4, Some b5, Some b6, Some b7 =>
      Some (Z.lor (Z.lor (Z.lor (Z.lor (Z.lor (Z.lor (Z.lor
              (Z.shiftl b0 56) (Z.shiftl b1 48)) (Z.shiftl b2 40)) (Z.shiftl b3 32))
              (Z.shiftl b4 24)) (Z.shiftl b5 16)) (Z.shiftl b6 8)) b7, s + 8)
  | _, _, _, _, _, _, _, _ => None end.

(** ** Outcomes *)

(** A decoder returns 0 with its result and the new [*index], or -1 with the
    [*index] it leaves behind; [DOob] is a read outside of the buffer.  [DFuel]
    is the result of the recursive decoders alone, when the depth of the C call
    stack they were given does not suffice. *)
Inductive dres (A : Type) : Type :=
| DOk (a : A) (index : Z)
| DErr (index : Z)
| DOob
| DFuel.
Arguments DOk {A} _ _.
Arguments DErr {A} _.
Arguments DOob {A}.
Arguments DFuel {A}.

(** An encoder called with [buf] ([None] is the NULL pointer, the size-probing
    mode) returns 0 with the new buffer contents and [*index], or -1 with the
    [*index] it leaves behind; [EOob] is a store outside of the buffer. *)
Inductive eres : Type :=
| EOk (buf : option mem) (index : Z)
| EErr (index : Z)
| EOob.

Declare Scope ei_scope.
Delimit Scope ei_scope with ei.
#[global] Open Scope ei_scope.

(** Macro read inside a decoder, macro store inside an encoder. *)
Notation "'let?' ( x , s ) ':=' e 'in' k" :=
  (match e with Some (x, s) => k | None => DOob end)
  (at level 10, x name, s name, e at level 100, k at level 200) : ei_scope.
Notation "'slice?' x ':=' e 'in' k" :=
  (match e with Some x => k | None => DOob end)
  (at level 10, x name, e at level 100, k at level 200) : ei_scope.
Notation "'let!' ( m , s ) ':=' e 'in' k" :=
  (match e with Some (m, s) => k | None => EOob end)
  (at level 10, m name, s name, e at level 100, k at level 200) : ei_scope.
(** Call of another decoder or encoder; [r] is what the caller returns when
    the callee returned -1 with [*index = j]. *)
Notation "'call?' ( x , s ) ':=' d 'fails' j '=>' r 'in' k" :=
  (match d with DOk x s => k | DErr j => r | DOob => DOob | DFuel => DFuel end)
  (at level 10, x name, s name, j name, d at level 100, r at level 100, k at level 200) : ei_scope.
Notation "'call!' ( b , i ) ':=' e 'fails' j '=>' r 'in' k" :=
  (match e with EOk b i => k | EErr j => r | EOob => EOob end)
  (at level 10, b name, i name, j name, e at level 100, r at level 100, k at level 200) : ei_scope.

(** ** The macros as whole-string operations *)

Lemma put8_bytes m s n : put8 m s n = put_bytes m s [Z.land n 255].
Proof. reflexivity. Qed.
Lemma put16be_bytes m s n : put16be m s n = put_bytes m s (be_bytes 2 n).
Proof. unfold put16be, put_bytes, be_bytes, byte_at. rewrite Z.shiftr_0_r. reflexivity. Qed.
Lemma put32be_bytes m s n : put32be m s n = put_bytes m s (be_bytes 4 n).
Proof. unfold put32be, put_bytes, be_bytes, byte_at. rewrite Z.shiftr_0_r. reflexivity. Qed.
Lemma put64be_bytes m s n : put64be m s n = put_bytes m s (be_bytes 8 n).
Proof. unfold put64be, put_bytes, be_bytes, byte_at. rewrite Z.shiftr_0_r. reflexivity. Qed.
Lemma put32le_bytes m s n : put32le m s n = put_bytes m s (le_bytes 4 n).
Proof. unfold put32le, put_bytes, le_bytes. rewrite !Z.shiftr_shiftr by lia. reflexivity. Qed.

Create Rewrite HintDb puts.
#[export] Hint Rewrite put8_bytes put16be_bytes put32be_bytes put64be_bytes put32le_bytes : puts.

Lemma put_bytes_some m s l m' s' :
  put_bytes m s l = Some (m', s') -> 0 <= s /\ s' = s + zlen l /\ s' <= zlen m' /\ zlen m' = zlen m.
Proof.
  unfold put_bytes. destruct (store m s l) as [m1|] eqn:E; [|done].
  apply store_bounds in E as (? & ? & ?). intros E1. apply (inj Some) in E1.
  apply pair_equal_spec in E1 as [<- <-]. lia.
Qed.

Lemma put_bytes_seq m s l1 l2 (K : mem -> Z -> eres) :
  (let! (m1, s1) := put_bytes m s l1 in let! (m2, s2) := put_bytes m1 s1 l2 in K m2 s2)
  = (let! (m2, s2) := put_bytes m s (l1 ++ l2) in K m2 s2).
Proof.
  unfold put_bytes. rewrite <- store_seq.
  destruct (store m s l1) as [m1|]; [|done].
  destruct (store m1 (s + zlen l1) l2); [|done].
  rewrite zlen_app, Z.add_assoc. reflexivity.
Qed.

(** The same under the binders of a sequence of macros. *)
Lemma put_macro_seq (P : mem -> Z -> option (mem * Z)) l2 m s l1 (K : mem -> Z -> eres) :
  (forall m s, P m s = put_bytes m s l2) ->
  (let! (m1, s1) := put_bytes m s l1 in let! (m2, s2) := P m1 s1 in K m2 s2)
  = (let! (m2, s2) := put_bytes m s (l1 ++ l2) in K m2 s2).
Proof.
  intros HP. rewrite <- put_bytes_seq.
  destruct (put_bytes m s l1) as [[m1 s1]|]; [|done]. rewrite HP. reflexivity.
Qed.

Definition put8_seq n := fun m s l K =>
  put_macro_seq (fun m s => put8 m s n) _ m s l K (fun m s => put8_bytes m s n).
Definition put16be_seq n := fun m s l K =>
  put_macro_seq (fun m s => put16be m s n) _ m s l K (fun m s => put16be_bytes m s n).
Definition put32be_seq n := fun m s l K =>
  put_macro_seq (fun m s => put32be m s n) _ m s l K (fun m s => put32be_bytes m s n).
Definition put64be_seq n := fun m s l K =>
  put_macro_seq (fun m s => put64be m s n) _ m s l K (fun m s => put64be_bytes m s n).
Definition put32le_seq n := fun m s l K =>
  put_macro_seq (fun m s => put32le m s n) _ m s l K (fun m s => put32le_bytes m s n).

Lemma get8_holds m s b bs :
  byte_ok b -> holds m s (b :: bs) -> get8 m s = Some (b, s + 1) /\ holds m (s + 1) bs.
Proof.
  intros Hb [H1 H2]%holds_cons. unfold get8. rewrite H1, land_255_small by done. done.
Qed.

Lemma be16_val b0 b1 : byte_ok b0 -> byte_ok b1 ->
  Z.land (Z.lor (Z.shiftl b0 8) b1) 65535 = be_val [b0; b1].
Proof.
  unfold byte_ok. intros. rewrite lor_shiftl_add by lia.
  change 65535 with (Z.ones 16). rewrite Z.land_ones by lia.
  unfold be_val. cbn [fold_left]. rewrite Z.mod_small; lia.
Qed.

Lemma be32_val b0 b1 b2 b3 : byte_ok b0 -> byte_ok b1 -> byte_ok b2 -> byte_ok b3 ->
  Z.lor (Z.lor (Z.lor (Z.shiftl b0 24) (Z.shiftl b1 16)) (Z.shiftl b2 8)) b3
  = be_val [b0; b1; b2; b3].
Proof.
  unfold byte_ok. intros.
  replace (Z.shiftl b0 24) with (Z.shiftl (Z.shiftl (Z.shiftl b0 8) 8) 8)
    by (rewrite !Z.shiftl_shiftl by lia; reflexivity).
  replace (Z.shiftl b1 16) with (Z.shiftl (Z.shiftl b1 8) 8)
    by (rewrite !Z.shiftl_shiftl by lia; reflexivity).
  rewrite <- !Z.shiftl_lor, !lor_shiftl_add by lia. unfold be_val. cbn [fold_left]. lia.
Qed.

Lemma be64_val b0 b1 b2 b3 b4 b5 b6 b7 :
  byte_ok b0 -> byte_ok b1 -> byte_ok b2 -> byte_ok b3 ->
  byte_ok b4 -> byte_ok b5 -> byte_ok b6 -> byte_ok b7 ->
  Z.lor (Z.lor (Z.lor (Z.lor (Z.lor (Z.lor (Z.lor
    (Z.shiftl b0 56) (Z.shiftl b1 48)) (Z.shiftl b2 40)) (Z.shiftl b3 32))
    (Z.shiftl b4 24)) (Z.shiftl b5 16)) (Z.shiftl b6 8)) b7
  = be_val [b0; b1; b2; b3; b4; b5; b6; b7].
Proof.
  unfold byte_ok. intros.
  assert (forall b k, 0 <= k -> Z.shiftl b (k + 8) = Z.shiftl (Z.shiftl b k) 8) as E.
  { intros. rewrite Z.shiftl_shiftl by lia. reflexivity. }
  change 56 with (8 + 8 + 8 + 8 + 8 + 8 + 8). change 48 with (8 + 8 + 8 + 8 + 8 + 8).
  change 40 with (8 + 8 + 8 + 8 + 8). change 32 with (8 + 8 + 8 + 8).
  change 24 with (8 + 8 + 8). change 16 with (8 + 8).
  rewrite !E by lia. rewrite <- !Z.shiftl_lor, !lor_shiftl_add by lia.
  unfold be_val. cbn [fold_left]. lia.
Qed.

Lemma holds_get m s bs (k : nat) b :
  holds m s bs -> bs !! k = Some b -> mem_get m (s + Z.of_nat k) = Some b.
Proof.
  intros (pre & post & -> & <-) Hk. unfold mem_get.
  pose proof (zlen_nonneg pre). destruct (Z.ltb_spec (zlen pre + Z.of_nat k) 0); [lia|].
  unfold zlen. replace (Z.to_nat _) with (length pre + k)%nat by lia.
  rewrite lookup_app_r by lia. replace (_ + k - _)%nat with k by lia.
  apply lookup_app_l_Some, Hk.
Qed.

Lemma get16be_holds m s n bs :
  in_u 16 n -> holds m s (be_bytes 2 n ++ bs) ->
  get16be m s = Some (n, s + 2) /\ holds m (s + 2) bs.
Proof.
  intros Hn H. pose proof (be_bytes_ok 2 n) as Hok. pose proof (be_val_bytes 2 n) as Hv.
  apply holds_app in H as [H Hrest]. split; [|done].
  destruct (be_bytes 2 n) as [|b0 [|b1 [|]]] eqn:E; try discriminate.
  apply holds_cons in H as [G0 H]. apply holds_cons in H as [G1 _].
  unfold get16be. rewrite G0, G1.
  inversion Hok as [|? ? O0 Hok1]; inversion Hok1 as [|? ? O1 _]; subst.
  rewrite be16_val, Hv by done. rewrite wrapu_small by exact Hn. reflexivity.
Qed.

Lemma get32be_holds m s n bs :
  holds m s (be_bytes 4 n ++ bs) ->
  get32be m s = Some (wraps 32 n, s + 4) /\ holds m (s + 4) bs.
Proof.
  intros H. pose proof (be_bytes_ok 4 n) as Hok. pose proof (be_val_bytes 4 n) as Hv.
  apply holds_app in H as [H Hrest]. split; [|done].
  destruct (be_bytes 4 n) as [|b0 [|b1 [|b2 [|b3 [|]]]]] eqn:E; try discriminate.
  rewrite !Forall_cons_iff in Hok. destruct Hok as (O0 & O1 & O2 & O3 & _).
  pose proof (holds_cons _ _ _ _ H) as [G0 _].
  pose proof (holds_get _ _ _ 1 _ H eq_refl : mem_get m (s + 1) = _) as G1.
  pose proof (holds_get _ _ _ 2 _ H eq_refl : mem_get m (s + 2) = _) as G2.
  pose proof (holds_get _ _ _ 3 _ H eq_refl : mem_get m (s + 3) = _) as G3.
  unfold get32be. rewrite G0, G1, G2, G3, be32_val, Hv by done.
  rewrite wraps_wrapu by lia. reflexivity.
Qed.

Lemma get32le_holds m s n bs :
  holds m s (le_bytes 4 n ++ bs) ->
  get32le m s = Some (wraps 32 n, s + 4) /\ holds m (s + 4) bs.
Proof.
  intros H. pose proof (le_bytes_ok 4 n) as Hok. pose proof (le_val_bytes 4 n) as Hv.
  apply holds_app in H as [H Hrest]. split; [|done].
  destruct (le_bytes 4 n) as [|b0 [|b1 [|b2 [|b3 [|]]]]] eqn:E; try discriminate.
  rewrite !Forall_cons_iff in Hok. destruct Hok as (O0 & O1 & O2 & O3 & _).
  pose proof (holds_cons _ _ _ _ H) as [G0 _].
  pose proof (holds_get _ _ _ 1 _ H eq_refl : mem_get m (s + 1) = _) as G1.
  pose proof (holds_get _ _ _ 2 _ H eq_refl : mem_get m (s + 2) = _) as G2.
  pose proof (holds_get _ _ _ 3 _ H eq_refl : mem_get m (s + 3) = _) as G3.
  unfold get32le. rewrite G0, G1, G2, G3, be32_val by done.
  replace (be_val [b3; b2; b1; b0]) with (le_val [b0; b1; b2; b3])
    by (unfold be_val; cbn [le_val fold_left]; lia).
  rewrite Hv, wraps_wrapu by lia. reflexivity.
Qed.

Lemma get64be_holds m s n bs :
  holds m s (be_bytes 8 n ++ bs) ->
  get64be m s = Some (wrapu 64 n, s + 8) /\ holds m (s + 8) bs.
Proof.
  intros H. pose proof (be_bytes_ok 8 n) as Hok. pose proof (be_val_bytes 8 n) as Hv.
  apply holds_app in H as [H Hrest]. split; [|done].
  destruct (be_bytes 8 n) as [|b0 [|b1 [|b2 [|b3 [|b4 [|b5 [|b6 [|b7 [|]]]]]]]]] eqn:E;
    try discriminate.
  rewrite !Forall_cons_iff in Hok. destruct Hok as (O0 & O1 & O2 & O3 & O4 & O5 & O6 & O7 & _).
  pose proof (holds_cons _ _ _ _ H) as [G0 _].
  pose proof (holds_get _ _ _ 1 _ H eq_refl : mem_get m (s + 1) = _) as G1.
  pose proof (holds_get _ _ _ 2 _ H eq_refl : mem_get m (s + 2) = _) as G2.
  pose proof (holds_get _ _ _ 3 _ H eq_refl : mem_get m (s + 3) = _) as G3.
  pose proof (holds_get _ _ _ 4 _ H eq_refl : mem_get m (s + 4) = _) as G4.
  pose proof (holds_get _ _ _ 5 _ H eq_refl : mem_get m (s + 5) = _) as G5.
  pose proof (holds_get _ _ _ 6 _ H eq_refl : mem_get m (s + 6) = _) as G6.
  pose proof (holds_get _ _ _ 7 _ H eq_refl : mem_get m (s + 7) = _) as G7.
  unfold get64be.
  rewrite G0, G1, G2, G3, G4, G5, G6, G7, be64_val, Hv by done. reflexivity.
Qed.

(** ** Interfaces *)

(** What writing the byte string [bs] at [*index] does. *)
Definition emit (m : mem) (i : Z) (bs : list Z) : eres :=
  let! (m', i') := put_bytes m i bs in EOk (Some m') i'.

(** The promise of an encoder: it emits the byte string [bs], whatever the
    buffer and the position are, and in the NULL mode it advances [*index] by
    exactly the length of [bs]; with [None] it refuses its argument. *)
Class Emits (f : option mem -> Z -> eres) (o : option (list Z)) : Prop := {
  emits_null : forall i, match o with
    | Some bs => f None i = EOk None (i + zlen bs)
    | None => exists j, f None i = EErr j end;
  emits_buf : forall m i, match o with
    | Some bs => f (Some m) i = emit m i bs
    | None => f (Some m) i = EOob \/ exists j, f (Some m) i = EErr j end
}.

(** The promise of a decoder: where the buffer holds the bytes [bs] it returns
    [a] and leaves [*index] right after them. *)
Class Decodes {A} (d : mem -> Z -> dres A) (bs : list Z) (a : A) : Prop :=
  decodes : forall m s, holds m s bs -> d m s = DOk a (s + zlen bs).

Lemma emit_ok m i bs b j :
  emit m i bs = EOk b j -> exists m', b = Some m' /\ j = i + zlen bs /\ holds m' i bs /\
    length m' = length m /\
    (forall k, k < i \/ i + zlen bs <= k -> mem_get m' k = mem_get m k).
Proof.
  unfold emit, put_bytes. destruct (store m i bs) as [m'|] eqn:E; [|done].
  intros [= <- <-]. exists m'. repeat split.
  - eapply store_holds; eauto.
  - eapply store_length; eauto.
  - intros k Hk. eapply store_frame; eauto.
Qed.

Lemma emit_fits m i bs :
  0 <= i -> i + zlen bs <= zlen m -> exists m', emit m i bs = EOk (Some m') (i + zlen bs).
Proof.
  intros H1 H2. unfold emit, put_bytes. destruct (store_some m i bs H1 H2) as [m' ->]. eauto.
Qed.

Lemma emit_over m i bs : zlen m < i + zlen bs -> emit m i bs = EOob.
Proof.
  intros H. unfold emit, put_bytes.
  replace (store m i bs) with (@None mem) by (symmetry; apply store_None; lia). reflexivity.
Qed.

(** The two calls of an encoder [f], and the decoder [d] after it, from any
    position of any buffer [m].  The call with NULL gives the end [j] of what
    will be written.  When the buffer reaches that far the second call succeeds,
    ends at [j] and changes nothing outside of the range, and the decoder ends
    at [j] too, with a result that satisfies [P].  A buffer that is too short is
    overrun: the encoders do not know its size. *)
Definition Transfers {A} (f : option mem -> Z -> eres) (d : mem -> Z -> dres A) (P : mem -> A -> Prop) : Prop :=
  forall m i, 0 <= i -> exists j, i <= j /\ f None i = EOk None j /\
    (j <= zlen m -> exists m' a, f (Some m) i = EOk (Some m') j /\ d m' i = DOk a j /\ P m' a /\
       zlen m' = zlen m /\ forall k, k < i \/ j <= k -> mem_get m' k = mem_get m k) /\
    (zlen m < j -> f (Some m) i = EOob).

(** The decoder gives back [a]. *)
Definition RoundTrip {A} (f : option mem -> Z -> eres) (d : mem -> Z -> dres A) (a : A) : Prop :=
  Transfers f d (fun _ x => x = a).

(** The encoder returns -1, with and without a buffer (before that it may have
    written into the buffer). *)
Definition Refuses (f : option mem -> Z -> eres) : Prop :=
  forall m i, (exists j, f None i = EErr j) /\ (f (Some m) i = EOob \/ exists j, f (Some m) i = EErr j).

Lemma emits_transfers {A} f bs (d : mem -> Z -> dres A) (P : mem -> A -> Prop) :
  Emits f (Some bs) ->
  (forall m i, holds m i bs -> exists a, d m i = DOk a (i + zlen bs) /\ P m a) -> Transfers f d P.
Proof.
  intros [Hn Hb] Hd m i Hi. exists (i + zlen bs). split; [zlen_lia|]. split; [apply Hn|]. cbn in Hb.
  rewrite Hb. split; [|apply emit_over]. intros Hj.
  destruct (emit_fits m i bs Hi Hj) as [m' Hm]. rewrite Hm.
  apply emit_ok in Hm as (? & [= <-] & _ & Hh & Hl & Hf). destruct (Hd _ _ Hh) as (a & Ha & Hp).
  assert (zlen m' = zlen m) by (unfold zlen; lia). exists m', a. auto 10.
Qed.

Lemma emits_roundtrip {A} f bs (d : mem -> Z -> dres A) a :
  Emits f (Some bs) -> Decodes d bs a -> RoundTrip f d a.
Proof. intros He Hd. apply (emits_transfers f bs); [done|]. intros m i Hh. exists a. by rewrite (Hd m i Hh). Qed.

Lemma emits_refuses f : Emits f None -> Refuses f.
Proof. intros [Hn Hb] m i. split; [apply Hn|apply Hb]. Qed.

(** An encoder with a partial format, and two decoders of it (with and without
    a destination). *)
Lemma emits_cases {A B} f o (d1 : mem -> Z -> dres A) a1 (d2 : mem -> Z -> dres B) a2 :
  Emits f o -> (forall bs, o = Some bs -> Decodes d1 bs a1) -> (forall bs, o = Some bs -> Decodes d2 bs a2) ->
  match o with Some _ => RoundTrip f d1 a1 /\ RoundTrip f d2 a2 | None => Refuses f end.
Proof.
  intros He H1 H2. destruct o as [bs|]; [|by apply emits_refuses].
  split; apply (emits_roundtrip f bs); auto.
Qed.

Lemma emit_call m i l (K : option mem -> Z -> eres) (E : Z -> eres) :
  (call! (b, j) := emit m i l fails j => E j in K b j)
  = (let! (m', s) := put_bytes m i l in K (Some m') s).
Proof. unfold emit. destruct (put_bytes m i l) as [[]|]; reflexivity. Qed.

Lemma emit_fold m i l : (let! (m', s) := put_bytes m i l in EOk (Some m') s) = emit m i l.
Proof. reflexivity. Qed.

(** Proves [Emits] for a straight-line encoder: macros become [put_bytes],
    adjacent ones are fused, lengths are computed. *)
Ltac emits_steps :=
  repeat first
    [ progress autorewrite with puts
    | rewrite emit_call
    | rewrite put_bytes_seq
    | rewrite put8_seq | rewrite put16be_seq | rewrite put32be_seq
    | rewrite put64be_seq | rewrite put32le_seq ];
  cbn [app].
Ltac emits_straight :=
  split; intros; cbn -[be_bytes le_bytes Z.land zlen emit put_bytes];
  [ f_equal; zlen_lia
  | emits_steps; rewrite ?emit_fold, <- ?app_assoc; reflexivity ].

(** A field between [l0] and [l2] that is filled in after [l2] was written
    (the arity byte of a big integer, the size of a fun, the tag in front of an
    atom). *)
Lemma put_backfill m i l0 l1 l2 (K : mem -> Z -> eres) :
  (let! (m1, s1) := put_bytes m i l0 in
   let! (m2, s2) := put_bytes m1 (s1 + zlen l1) l2 in
   let! (m3, _s) := put_bytes m2 s1 l1 in K m3 s2)
  = (let! (m3, s3) := put_bytes m i (l0 ++ l1 ++ l2) in K m3 s3).
Proof.
  rewrite <- put_bytes_seq. unfold put_bytes.
  destruct (store m i l0) as [m1|] eqn:E0; [|done].
  assert (0 <= i).
  { destruct (Z.ltb_spec i 0); [|lia]. assert (store m i l0 = None) by (apply store_None; lia).
    congruence. }
  pose proof (store_back m1 (i + zlen l0) l1 l2) as Hb.
  destruct (Z.ltb_spec (i + zlen l0) 0); [zlen_lia|]. rewrite <- Hb.
  destruct (store m1 (i + zlen l0 + zlen l1) l2) as [m2|]; [|done].
  destruct (store m2 (i + zlen l0) l1); [|done]. f_equal. zlen_lia.
Qed.

Lemma put_backfill0 m i l1 l2 (K : mem -> Z -> eres) :
  (let! (m2, s2) := put_bytes m (i + zlen l1) l2 in
   let! (m3, _s) := put_bytes m2 i l1 in K m3 s2)
  = (let! (m3, s3) := put_bytes m i (l1 ++ l2) in K m3 s3).
Proof.
  unfold put_bytes. pose proof (store_back m i l1 l2) as Hb.
  assert (store m i (l1 ++ l2) = if i <? 0 then None else store m i (l1 ++ l2)) as ->.
  { destruct (Z.ltb_spec i 0); [apply store_None; lia|done]. }
  rewrite <- Hb. destruct (store m (i + zlen l1) l2) as [m2|]; [|done].
  destruct (store m2 i l1); [|done]. f_equal. zlen_lia.
Qed.

(** Decides the comparisons of closed integers in the goal, as the dispatch on
    a tag byte needs. *)
Ltac closed_tests :=
  repeat match goal with
  | |- context [?a =? ?b] =>
      let r := eval vm_compute in (a =? b) in
      match r with
      | true => change (a =? b) with true
      | false => change (a =? b) with false
      end; cbv iota
  end; cbn [orb andb negb]; cbv iota.
