(* ===== verification/Md5.v ===== *)
(** * MD5: [erts/emulator/beam/erl_md5.c]

    The digest with which two nodes prove to each other that they know the
    cookie ([gen_digest] of [ei_connect.c]); [erl_interface] compiles this file
    into its library.  The code works on a message that arrives in pieces, with
    a buffer for the incomplete block and a single loop for the 64 steps; it is
    proved equal to the algorithm of RFC 1321 on the whole message. *)
From S2P Require Import Prelude PutGet.

(** ** The code *)

Record erts_md5_state := {
  st_a : Z; st_b : Z; st_c : Z; st_d : Z;
  st_len : Z; st_tot_len : Z; st_buf : list Z }.

Definition A0 : Z := 0x67452301.
Definition B0 : Z := 0xefcdab89.
Definition C0 : Z := 0x98badcfe.
Definition D0 : Z := 0x10325476.

Definition erts_md5_init : erts_md5_state :=
  {| st_a := A0; st_b := B0; st_c := C0; st_d := D0; st_len := 0; st_tot_len := 0; st_buf := replicate 64 0 |}.

(** [shift] and [k] of every step. *)
Definition sk : list (Z * Z) := [
  ( 7, 0xd76aa478); (12, 0xe8c7b756); (17, 0x242070db); (22, 0xc1bdceee);
  ( 7, 0xf57c0faf); (12, 0x4787c62a); (17, 0xa8304613); (22, 0xfd469501);
  ( 7, 0x698098d8); (12, 0x8b44f7af); (17, 0xffff5bb1); (22, 0x895cd7be);
  ( 7, 0x6b901122); (12, 0xfd987193); (17, 0xa679438e); (22, 0x49b40821);
  ( 5, 0xf61e2562); ( 9, 0xc040b340); (14, 0x265e5a51); (20, 0xe9b6c7aa);
  ( 5, 0xd62f105d); ( 9, 0x02441453); (14, 0xd8a1e681); (20, 0xe7d3fbc8);
  ( 5, 0x21e1cde6); ( 9, 0xc33707d6); (14, 0xf4d50d87); (20, 0x455a14ed);
  ( 5, 0xa9e3e905); ( 9, 0xfcefa3f8); (14, 0x676f02d9); (20, 0x8d2a4c8a);
  ( 4, 0xfffa3942); (11, 0x8771f681); (16, 0x6d9d6122); (23, 0xfde5380c);
  ( 4, 0xa4beea44); (11, 0x4bdecfa9); (16, 0xf6bb4b60); (23, 0xbebfbc70);
  ( 4, 0x289b7ec6); (11, 0xeaa127fa); (16, 0xd4ef3085); (23, 0x04881d05);
  ( 4, 0xd9d4d039); (11, 0xe6db99e5); (16, 0x1fa27cf8); (23, 0xc4ac5665);
  ( 6, 0xf4292244); (10, 0x432aff97); (15, 0xab9423a7); (21, 0xfc93a039);
  ( 6, 0x655b59c3); (10, 0x8f0ccc92); (15, 0xffeff47d); (21, 0x85845dd1);
  ( 6, 0x6fa87e4f); (10, 0xfe2ce6e0); (15, 0xa3014314); (21, 0x4e0811a1);
  ( 6, 0xf7537e82); (10, 0xbd3af235); (15, 0x2ad7d2bb); (21, 0xeb86d391)].

Definition get_little_int32 (m : mem) (s : Z) : option Z :=
  b0 ← mem_get m s; b1 ← mem_get m (s + 1); b2 ← mem_get m (s + 2); b3 ← mem_get m (s + 3);
  Some (Z.lor (Z.lor (Z.lor (Z.shiftl b3 24) (Z.shiftl b2 16)) (Z.shiftl b1 8)) b0).

Definition regs : Type := Z * Z * Z * Z.

(** One turn of the loop of [hash_part]. *)
Definition hash_step (part : mem) (r : regs) (i : Z) : option regs :=
  let '(a, b, c, d) := r in
  let '(f, g) :=
    if i <=? 15 then (Z.lxor d (Z.land b (Z.lxor c d)), i)
    else if i <=? 31 then (Z.lxor c (Z.land d (Z.lxor b c)), Z.land (5 * i + 1) 0xF)
    else if i <=? 47 then (Z.lxor (Z.lxor b c) d, Z.land (3 * i + 5) 0xF)
    else (Z.lxor c (Z.lor b (wrapu 32 (Z.lnot d))), Z.land (7 * i) 0xF) in
  '(shift, k) ← sk !! Z.to_nat i;
  word ← get_little_int32 part (g * 4);
  let f := wrapu 32 (f + wrapu 32 (a + k + word)) in
  let f := Z.lor (wrapu 32 (Z.shiftl f shift)) (Z.shiftr f (32 - shift)) in
  Some (d, wrapu 32 (b + f), b, c).

Fixpoint hash_loop (n : nat) (part : mem) (r : regs) (i : Z) : option regs :=
  match n with
  | O => Some r
  | S n => r ← hash_step part r i; hash_loop n part r (i + 1)
  end.

Definition set_regs (r : regs) (st : erts_md5_state) : erts_md5_state :=
  let '(a, b, c, d) := r in
  {| st_a := a; st_b := b; st_c := c; st_d := d;
     st_len := st_len st; st_tot_len := st_tot_len st; st_buf := st_buf st |}.

Definition get_regs (st : erts_md5_state) : regs := (st_a st, st_b st, st_c st, st_d st).

Definition hash_part (part : mem) (st : erts_md5_state) : option erts_md5_state :=
  '(a, b, c, d) ← hash_loop 64 part (get_regs st) 0;
  Some (set_regs (wrapu 32 (st_a st + a), wrapu 32 (st_b st + b), wrapu 32 (st_c st + c), wrapu 32 (st_d st + d)) st).

Definition set_buf_len (buf : list Z) (len tot : Z) (st : erts_md5_state) : erts_md5_state :=
  {| st_a := st_a st; st_b := st_b st; st_c := st_c st; st_d := st_d st;
     st_len := len; st_tot_len := tot; st_buf := buf |}.

(** [while (left >= 64)]: the rest of the message and the state. *)
Fixpoint update_loop (fuel : nat) (part : list Z) (st : erts_md5_state) : option (list Z * erts_md5_state) :=
  if 64 <=? zlen part then
    match fuel with
    | O => None
    | S fuel =>
        st ← hash_part part st;
        update_loop fuel (drop 64 part) (set_buf_len (st_buf st) (st_len st) (wrapu 64 (st_tot_len st + 64)) st)
    end
  else Some (part, st).

(** The whole blocks, and the rest into the buffer. *)
Definition update_blocks (part : list Z) (st : erts_md5_state) : option erts_md5_state :=
  '(part, st) ← update_loop (length part) part st;
  if 0 <? zlen part then
    buf ← store (st_buf st) 0 part;
    Some (set_buf_len buf (zlen part) (st_tot_len st) st)
  else Some st.

Definition erts_md5_update (st : erts_md5_state) (msg : list Z) : option erts_md5_state :=
  if 0 <? st_len st then
    let copy_size := 64 - st_len st in
    if copy_size <? zlen msg then
      buf ← store (st_buf st) (st_len st) (take (Z.to_nat copy_size) msg);
      st ← hash_part buf (set_buf_len buf (st_len st) (st_tot_len st) st);
      update_blocks (drop (Z.to_nat copy_size) msg) (set_buf_len buf 0 (wrapu 64 (st_tot_len st + 64)) st)
    else
      buf ← store (st_buf st) (st_len st) msg;
      Some (set_buf_len buf (st_len st + zlen msg) (st_tot_len st) st)
  else update_blocks msg st.

(** What [pad] leaves in the 128 bytes of [pad_buf]. *)
Definition pad (last_part : list Z) (size tot_size : Z) : option (list Z) :=
  let filled := (size + 1) mod 64 in
  let tot_bit_size := wrapu 64 (tot_size * 8) in
  let zeroes := Z.land (64 - 8 - filled) (64 - 1) in
  part ← slice last_part 0 size;
  let out := part ++ [128] ++ replicate (Z.to_nat zeroes) 0 ++ le_bytes 8 tot_bit_size in
  if zlen out <=? 2 * 64 then Some out else None.

(** [while (left > 0)] over the padded bytes. *)
Fixpoint finish_loop (fuel : nat) (part : list Z) (st : erts_md5_state) : option erts_md5_state :=
  if 0 <? zlen part then
    match fuel with
    | O => None
    | S fuel => st ← hash_part part st; finish_loop fuel (drop 64 part) st
    end
  else Some st.

Definition erts_md5_finish (st : erts_md5_state) : option (list Z) :=
  padded ← pad (st_buf st) (st_len st) (wrapu 64 (st_tot_len st + st_len st));
  st ← finish_loop (length padded) padded st;
  Some (le_bytes 4 (st_a st) ++ le_bytes 4 (st_b st) ++ le_bytes 4 (st_c st) ++ le_bytes 4 (st_d st)).

Definition erts_md5 (msg : list Z) : option (list Z) :=
  st ← erts_md5_update erts_md5_init msg; erts_md5_finish st.

(** Any number of calls of [erts_md5_update]. *)
Fixpoint md5_updates (st : erts_md5_state) (msgs : list (list Z)) : option erts_md5_state :=
  match msgs with
  | [] => Some st
  | msg :: msgs => st ← erts_md5_update st msg; md5_updates st msgs
  end.

(** ** RFC 1321

    The algorithm as the RFC describes it: the four auxiliary functions, the
    four rounds with their tables of word indices and rotations, the message
    padded as a whole.  The additive constants are those of the code's table. *)

Definition not32 (x : Z) : Z := 2 ^ 32 - 1 - x.
Definition rfc_F (x y z : Z) : Z := Z.lor (Z.land x y) (Z.land (not32 x) z).
Definition rfc_G (x y z : Z) : Z := Z.lor (Z.land x z) (Z.land y (not32 z)).
Definition rfc_H (x y z : Z) : Z := Z.lxor (Z.lxor x y) z.
Definition rfc_I (x y z : Z) : Z := Z.lxor y (Z.lor x (not32 z)).

Definition rotate_left (x n : Z) : Z := (x * 2 ^ n) mod 2 ^ 32 + x / 2 ^ (32 - n).

Definition rfc_T : list Z := map snd sk.

(** Of every step: the auxiliary function, the index of the word, the rotation. *)
Definition rfc_round (f : Z -> Z -> Z -> Z) (ks ss : list Z) : list ((Z -> Z -> Z -> Z) * Z * Z) :=
  zip_with (fun k s => (f, k, s)) ks (ss ++ ss ++ ss ++ ss).

Definition rfc_steps : list ((Z -> Z -> Z -> Z) * Z * Z) :=
  rfc_round rfc_F [0; 1; 2; 3; 4; 5; 6; 7; 8; 9; 10; 11; 12; 13; 14; 15] [7; 12; 17; 22] ++
  rfc_round rfc_G [1; 6; 11; 0; 5; 10; 15; 4; 9; 14; 3; 8; 13; 2; 7; 12] [5; 9; 14; 20] ++
  rfc_round rfc_H [5; 8; 11; 14; 1; 4; 7; 10; 13; 0; 3; 6; 9; 12; 15; 2] [4; 11; 16; 23] ++
  rfc_round rfc_I [0; 7; 14; 5; 12; 3; 10; 1; 8; 15; 6; 13; 4; 11; 2; 9] [6; 10; 15; 21].

(** The [k]-th word of a block. *)
Definition rfc_word (block : list Z) (k : Z) : Z := le_val (take 4 (drop (Z.to_nat (4 * k)) block)).

(** [a = b + ((a + f(b,c,d) + X[k] + T[i]) <<< s)], and the registers change
    their roles. *)
Definition rfc_step (block : list Z) (r : regs) (x : (Z -> Z -> Z -> Z) * Z * Z * Z) : regs :=
  let '(a, b, c, d) := r in
  let '(f, k, s, t) := x in
  (d, (b + rotate_left ((a + f b c d + rfc_word block k + t) mod 2 ^ 32) s) mod 2 ^ 32, b, c).

Definition add_regs (r1 r2 : regs) : regs :=
  let '(a1, b1, c1, d1) := r1 in
  let '(a2, b2, c2, d2) := r2 in
  ((a1 + a2) mod 2 ^ 32, (b1 + b2) mod 2 ^ 32, (c1 + c2) mod 2 ^ 32, (d1 + d2) mod 2 ^ 32).

Definition rfc_block (r : regs) (block : list Z) : regs :=
  add_regs r (fold_left (rfc_step block) (zip rfc_steps rfc_T) r).

Fixpoint blocks (n : nat) (l : list Z) : list (list Z) :=
  match n with O => [] | S n => take 64 l :: blocks n (drop 64 l) end.

Definition rfc_hash (r : regs) (l : list Z) : regs := fold_left rfc_block (blocks (length l / 64) l) r.

Definition rfc_pad (msg : list Z) : list Z :=
  msg ++ [128] ++ replicate (Z.to_nat ((55 - zlen msg) mod 64)) 0 ++ le_bytes 8 (8 * zlen msg).

Definition regs_bytes (r : regs) : list Z :=
  let '(a, b, c, d) := r in le_bytes 4 a ++ le_bytes 4 b ++ le_bytes 4 c ++ le_bytes 4 d.

Definition rfc_md5 (msg : list Z) : list Z := regs_bytes (rfc_hash (A0, B0, C0, D0) (rfc_pad msg)).

(** ** The steps agree *)

Definition regs_ok (r : regs) : Prop :=
  let '(a, b, c, d) := r in in_u 32 a /\ in_u 32 b /\ in_u 32 c /\ in_u 32 d.

Lemma not32_bits x i : in_u 32 x -> 0 <= i < 32 -> Z.testbit (not32 x) i = negb (Z.testbit x i).
Proof.
  intros Hx Hi. replace (not32 x) with (wrapu 32 (Z.lnot x)).
  - unfold wrapu. by rewrite Z.mod_pow2_bits_low, Z.lnot_spec by lia.
  - unfold not32, wrapu, in_u, Z.lnot in *. rewrite <- (Z_mod_plus_full _ 1), Z.mod_small; lia.
Qed.

Lemma lnot_not32 x : in_u 32 x -> wrapu 32 (Z.lnot x) = not32 x.
Proof.
  unfold not32, wrapu, in_u, Z.lnot. intros. rewrite <- (Z_mod_plus_full _ 1), Z.mod_small; lia.
Qed.

Lemma not32_ok x : in_u 32 x -> in_u 32 (not32 x).
Proof. unfold in_u, not32. lia. Qed.

(** Two words are equal when their 32 bits are. *)
Lemma word_bits x y :
  in_u 32 x -> in_u 32 y -> (forall i, 0 <= i < 32 -> Z.testbit x i = Z.testbit y i) -> x = y.
Proof.
  intros Hx Hy H. rewrite <- (wrapu_small 32 x), <- (wrapu_small 32 y) by done. apply Z.bits_inj'. intros i Hi.
  unfold wrapu. destruct (Z.ltb_spec i 32); [rewrite !Z.mod_pow2_bits_low by lia; auto with lia|].
  by rewrite !Z.mod_pow2_bits_high by lia.
Qed.

Lemma bitop_ok (op : Z -> Z -> Z) f x y :
  (forall a b i, Z.testbit (op a b) i = f (Z.testbit a i) (Z.testbit b i)) -> f false false = false ->
  in_u 32 x -> in_u 32 y -> in_u 32 (op x y).
Proof.
  intros Hop Hf Hx Hy. assert (wrapu 32 (op x y) = op x y) as <-; [|apply wrapu_range; lia].
  apply Z.bits_inj'. intros i Hi. unfold wrapu. destruct (Z.ltb_spec i 32); [by rewrite Z.mod_pow2_bits_low by lia|].
  rewrite Z.mod_pow2_bits_high, Hop, <- (wrapu_small 32 x), <- (wrapu_small 32 y) by (done || lia).
  unfold wrapu. by rewrite !Z.mod_pow2_bits_high, Hf by lia.
Qed.

Lemma lxor_ok x y : in_u 32 x -> in_u 32 y -> in_u 32 (Z.lxor x y).
Proof. apply (bitop_ok Z.lxor xorb); [apply Z.lxor_spec|done]. Qed.
Lemma land_ok x y : in_u 32 x -> in_u 32 y -> in_u 32 (Z.land x y).
Proof. apply (bitop_ok Z.land andb); [apply Z.land_spec|done]. Qed.
Lemma lor_ok x y : in_u 32 x -> in_u 32 y -> in_u 32 (Z.lor x y).
Proof. apply (bitop_ok Z.lor orb); [apply Z.lor_spec|done]. Qed.
#[local] Hint Resolve lxor_ok land_ok lor_ok not32_ok : core.

(** Proves an equality of two bitwise combinations of words. *)
Ltac bitwise :=
  apply word_bits; [auto 6..|];
  intros; rewrite ?Z.lxor_spec, ?Z.lor_spec, ?Z.land_spec, ?Z.lxor_spec, ?not32_bits by done;
  repeat match goal with |- context [Z.testbit ?x ?i] => destruct (Z.testbit x i) end; reflexivity.

(** The code computes the first two auxiliary functions with fewer operations. *)
Lemma F_code b c d : in_u 32 b -> in_u 32 c -> in_u 32 d ->
  Z.lxor d (Z.land b (Z.lxor c d)) = rfc_F b c d.
Proof. intros. unfold rfc_F. bitwise. Qed.

Lemma G_code b c d : in_u 32 b -> in_u 32 c -> in_u 32 d ->
  Z.lxor c (Z.land d (Z.lxor b c)) = rfc_G b c d.
Proof. intros. unfold rfc_G. bitwise. Qed.

Lemma rotate_code x s : in_u 32 x -> 0 < s < 32 ->
  Z.lor (wrapu 32 (Z.shiftl x s)) (Z.shiftr x (32 - s)) = rotate_left x s.
Proof.
  intros Hx Hs. unfold rotate_left, wrapu, in_u in *. rewrite Z.shiftl_mul_pow2, Z.shiftr_div_pow2 by lia.
  assert (0 <= x / 2 ^ (32 - s) < 2 ^ s) as Hd.
  { split; [apply Z.div_pos; lia|]. apply Z.div_lt_upper_bound; [lia|]. rewrite <- Z.pow_add_r by lia.
    replace (32 - s + s) with 32 by lia. lia. }
  assert ((x * 2 ^ s) mod 2 ^ 32 = (x mod 2 ^ (32 - s)) * 2 ^ s) as ->.
  { replace (2 ^ 32) with (2 ^ (32 - s) * 2 ^ s) by (rewrite <- Z.pow_add_r by lia; f_equal; lia).
    apply Z.mul_mod_distr_r; lia. }
  rewrite <- Z.shiftl_mul_pow2 by lia. rewrite lor_shiftl_add by lia. by rewrite Z.shiftl_mul_pow2 by lia.
Qed.

Lemma get_little_rfc part g :
  bytes_ok part -> 64 <= zlen part -> 0 <= g < 16 ->
  get_little_int32 part (g * 4) = Some (rfc_word (take 64 part) g).
Proof.
  intros Hok Hl Hg. unfold rfc_word. set (n := Z.to_nat (4 * g)).
  assert (take 4 (drop n (take 64 part)) = take 4 (drop n part)) as ->.
  { rewrite skipn_firstn_comm, firstn_firstn. f_equal. lia. }
  assert (4 <= length (drop n part))%nat as Hd by (rewrite length_drop; unfold zlen in Hl; lia).
  destruct (drop n part) as [|b0 [|b1 [|b2 [|b3 rest]]]] eqn:E; cbn in Hd; try lia. cbn [take].
  assert (Forall byte_ok (b0 :: b1 :: b2 :: b3 :: rest)) as Hb by (rewrite <- E; by apply Forall_drop).
  rewrite !Forall_cons_iff in Hb. destruct Hb as (O0 & O1 & O2 & O3 & _).
  assert (forall j b, (b0 :: b1 :: b2 :: b3 :: rest) !! j = Some b -> mem_get part (g * 4 + Z.of_nat j) = Some b) as Hget.
  { intros j b Hj. unfold mem_get. destruct (Z.ltb_spec (g * 4 + Z.of_nat j) 0); [lia|]. rewrite <- E, lookup_drop in Hj.
    by replace (Z.to_nat (g * 4 + Z.of_nat j)) with (n + j)%nat by lia. }
  unfold get_little_int32. replace (mem_get part (g * 4)) with (mem_get part (g * 4 + Z.of_nat 0)) by (f_equal; lia).
  rewrite (Hget 0%nat b0 eq_refl), (Hget 1%nat b1 eq_refl : mem_get part (g * 4 + 1) = _),
    (Hget 2%nat b2 eq_refl : mem_get part (g * 4 + 2) = _), (Hget 3%nat b3 eq_refl : mem_get part (g * 4 + 3) = _).
  cbn [mbind option_bind]. rewrite be32_val by done. f_equal. unfold be_val. rewrite firstn_O. cbn [le_val fold_left]. lia.
Qed.

Lemma rotate_ok x s : in_u 32 x -> 0 < s < 32 -> in_u 32 (rotate_left x s).
Proof.
  intros Hx Hs. rewrite <- rotate_code by done. apply lor_ok; [apply wrapu_range; lia|].
  unfold in_u in *. rewrite Z.shiftr_div_pow2 by lia. split; [apply Z.div_pos; lia|].
  apply Z.div_lt_upper_bound; [lia|]. nia.
Qed.

Lemma rfc_step_ok block r x : regs_ok r -> regs_ok (rfc_step block r x).
Proof.
  destruct r as [[[a b] c] d], x as [[[f k] s] t]. cbn. intros (Ha & Hb & Hc & Hd).
  split; [done|]. split; [apply Z.mod_pos_bound; lia|done].
Qed.

(** The three ingredients of a step: auxiliary function, word, rotation. *)
Lemma hash_step_agrees part a b c d f f' g k s t :
  bytes_ok part -> 64 <= zlen part -> regs_ok (a, b, c, d) -> 0 <= g < 16 -> 0 < s < 32 -> f = f' b c d ->
  k = g ->
  (word ← get_little_int32 part (g * 4);
   let f := wrapu 32 (f + wrapu 32 (a + t + word)) in
   let f := Z.lor (wrapu 32 (Z.shiftl f s)) (Z.shiftr f (32 - s)) in
   Some (d, wrapu 32 (b + f), b, c))
  = Some (rfc_step (take 64 part) (a, b, c, d) (f', k, s, t)).
Proof.
  intros Hok Hl Hr Hg Hs -> ->. rewrite get_little_rfc by done. cbn [mbind option_bind].
  rewrite rotate_code by (done || apply wrapu_range; lia). unfold rfc_step, wrapu.
  rewrite Zplus_mod_idemp_r.
  by replace (f' b c d + (a + t + rfc_word (take 64 part) g)) with (a + f' b c d + rfc_word (take 64 part) g + t) by lia.
Qed.

Lemma hash_step_rfc part r i x :
  bytes_ok part -> 64 <= zlen part -> regs_ok r -> zip rfc_steps rfc_T !! i = Some x ->
  hash_step part r (Z.of_nat i) = Some (rfc_step (take 64 part) r x).
Proof.
  destruct r as [[[a b] c] d]. intros Hok Hl Hr Hx. pose proof Hr as (Ha & Hb & Hc & Hd).
  unfold hash_step. do 64 (destruct i as [|i];
    [injection Hx as <-; cbn -[Z.lxor Z.land Z.lor wrapu Z.shiftl Z.shiftr get_little_int32 rfc_step Z.mul Z.lnot];
     apply hash_step_agrees; try done;
     first [by apply F_code | by apply G_code | reflexivity | unfold rfc_I; by rewrite lnot_not32]|]).
  done.
Qed.

(** ** Blocks *)

Lemma hash_loop_rfc part n i r :
  bytes_ok part -> 64 <= zlen part -> regs_ok r -> (i + n = 64)%nat ->
  hash_loop n part r (Z.of_nat i) = Some (fold_left (rfc_step (take 64 part)) (drop i (zip rfc_steps rfc_T)) r).
Proof.
  intros Hok Hl. revert i r. induction n as [|n IH]; intros i r Hr Hi.
  - by replace i with 64%nat by lia.
  - destruct (lookup_lt_is_Some_2 (zip rfc_steps rfc_T) i) as [x Hx]; [change (i < 64)%nat; lia|].
    cbn [hash_loop]. rewrite (hash_step_rfc part r i x) by done. cbn [mbind option_bind].
    replace (Z.of_nat i + 1) with (Z.of_nat (S i)) by lia. rewrite IH by (auto using rfc_step_ok; lia).
    by rewrite (drop_S _ x i Hx).
Qed.

Lemma add_regs_ok r1 r2 : regs_ok (add_regs r1 r2).
Proof.
  destruct r1 as [[[a b] c] d], r2 as [[[a' b'] c'] d']. repeat split; apply Z.mod_pos_bound; lia.
Qed.

Lemma hash_part_rfc part st :
  bytes_ok part -> 64 <= zlen part -> regs_ok (get_regs st) ->
  hash_part part st = Some (set_regs (rfc_block (get_regs st) (take 64 part)) st).
Proof.
  intros Hok Hl Hr. unfold hash_part. change 0 with (Z.of_nat 0) at 1.
  rewrite hash_loop_rfc by (done || lia). unfold rfc_block. rewrite drop_0. cbn [mbind option_bind].
  destruct (fold_left _ _ _) as [[[a b] c] d]. done.
Qed.

Lemma rfc_hash_step r l : (64 <= length l)%nat -> rfc_hash r l = rfc_hash (rfc_block r (take 64 l)) (drop 64 l).
Proof.
  intros H. unfold rfc_hash. rewrite length_drop.
  replace (length l / 64)%nat with (S ((length l - 64) / 64)); [done|].
  replace (length l) with ((length l - 64) + 1 * 64)%nat at 2 by lia. rewrite Nat.div_add; lia.
Qed.

Lemma rfc_hash_short r l : (length l < 64)%nat -> rfc_hash r l = r.
Proof. intros H. unfold rfc_hash. by rewrite Nat.div_small. Qed.

Lemma rfc_hash_app r l1 l2 n :
  length l1 = (64 * n)%nat -> rfc_hash r (l1 ++ l2) = rfc_hash (rfc_hash r l1) l2.
Proof.
  revert r l1. induction n as [|n IH]; intros r l1 Hl.
  - destruct l1; [done|cbn in Hl; lia].
  - rewrite !(rfc_hash_step r) by (rewrite ?length_app; lia).
    rewrite take_app_le, drop_app_le by lia. apply IH. rewrite length_drop. lia.
Qed.

Lemma rfc_hash_ok r l : regs_ok r -> regs_ok (rfc_hash r l).
Proof.
  intros Hr. unfold rfc_hash. generalize (blocks (length l / 64) l). intros bl. revert r Hr.
  induction bl as [|b bl IH]; intros r Hr; [done|]. apply IH, add_regs_ok.
Qed.

Lemma init_regs_ok : regs_ok (A0, B0, C0, D0).
Proof. repeat split; vm_compute; congruence. Qed.

(** ** Streaming *)

(** The state after the bytes [msg]: the registers stand for the whole blocks
    of it, the rest is in the buffer.  The buffer may be full. *)
Definition md5_rep (st : erts_md5_state) (msg : list Z) : Prop :=
  exists full tail n rest,
    msg = full ++ tail /\ length full = (64 * n)%nat /\ get_regs st = rfc_hash (A0, B0, C0, D0) full /\
    st_tot_len st = wrapu 64 (zlen full) /\ st_len st = zlen tail /\
    st_buf st = tail ++ rest /\ zlen (st_buf st) = 64 /\ bytes_ok (st_buf st).

Lemma get_set_buf buf len tot r st : get_regs (set_buf_len buf len tot (set_regs r st)) = r.
Proof. by destruct r as [[[a b] c] d]. Qed.

Lemma tot_add x k : 0 <= k -> wrapu 64 (wrapu 64 x + k) = wrapu 64 (x + k).
Proof. intros _. unfold wrapu. apply Zplus_mod_idemp_l. Qed.

Lemma update_loop_rfc fuel part st full n :
  (length part <= fuel)%nat -> bytes_ok part -> length full = (64 * n)%nat ->
  get_regs st = rfc_hash (A0, B0, C0, D0) full -> st_tot_len st = wrapu 64 (zlen full) ->
  exists blk rest st' n', update_loop fuel part st = Some (rest, st') /\ part = blk ++ rest /\
    (length rest < 64)%nat /\ length (full ++ blk) = (64 * n')%nat /\
    get_regs st' = rfc_hash (A0, B0, C0, D0) (full ++ blk) /\ st_tot_len st' = wrapu 64 (zlen (full ++ blk)) /\
    st_buf st' = st_buf st /\ st_len st' = st_len st.
Proof.
  revert part st full n. induction fuel as [|fuel IH]; intros part st full n Hf Hok Hn Hr Ht; cbn [update_loop];
    (destruct (Z.leb_spec 64 (zlen part)) as [Hl|Hl]; unfold zlen in Hl;
     [|exists [], part, st, n; rewrite app_nil_r; repeat split; auto; lia]); [lia|].
  rewrite hash_part_rfc; [|done|unfold zlen; lia|rewrite Hr; apply rfc_hash_ok, init_regs_ok].
  cbn [mbind option_bind].
  set (st1 := set_buf_len _ _ _ _).
  destruct (IH (drop 64 part) st1 (full ++ take 64 part) (S n)) as (blk & rest & st' & n' & E & Hp & H1 & H2 & H3 & H4 & H5 & H6).
  - rewrite length_drop. lia.
  - by apply Forall_drop.
  - rewrite length_app, length_take. lia.
  - rewrite (rfc_hash_app _ full _ n Hn), <- Hr, (rfc_hash_step _ (take 64 part)) by (rewrite length_take; lia).
    rewrite take_take, Nat.min_id, drop_ge by (rewrite length_take; lia). rewrite rfc_hash_short by (cbn; lia).
    unfold st1. by destruct (rfc_block _ _) as [[[a b] c] d].
  - unfold st1. destruct (rfc_block _ _) as [[[a b] c] d]. cbn. rewrite Ht, tot_add by lia. f_equal.
    unfold zlen. rewrite length_app, length_take. lia.
  - exists (take 64 part ++ blk), rest, st', n'. rewrite <- !app_assoc in *. rewrite E.
    assert (st_buf st1 = st_buf st /\ st_len st1 = st_len st) as [E1 E2]
      by (unfold st1; by destruct (rfc_block _ _) as [[[a b] c] d]).
    rewrite H5, H6, E1, E2. repeat split; auto. by rewrite <- Hp, take_drop.
Qed.

Lemma update_blocks_rep st part full n :
  bytes_ok part -> length full = (64 * n)%nat -> get_regs st = rfc_hash (A0, B0, C0, D0) full ->
  st_tot_len st = wrapu 64 (zlen full) -> st_len st = 0 -> zlen (st_buf st) = 64 -> bytes_ok (st_buf st) ->
  exists st', update_blocks part st = Some st' /\ md5_rep st' (full ++ part).
Proof.
  intros Hok Hn Hr Ht Hl Hb Hbo. unfold update_blocks.
  destruct (update_loop_rfc (length part) part st full n) as (blk & rest & st' & n' & -> & -> & H1 & H2 & H3 & H4 & H5 & H6);
    [done..|].
  cbn [mbind option_bind]. rewrite app_assoc. apply Forall_app in Hok as [_ Hok].
  destruct (Z.ltb_spec 0 (zlen rest)) as [Hz|Hz].
  - pose proof (store_behind [] (st_buf st') rest) as Hst. cbn [app] in Hst. change (zlen (@nil Z)) with 0 in Hst.
    rewrite Hst by (rewrite H5; unfold zlen in Hb; lia).
    cbn [mbind option_bind]. eexists. split; [done|].
    exists (full ++ blk), rest, n', (drop (length rest) (st_buf st')). rewrite H5 in *. repeat split; auto.
    + cbn. unfold zlen in *. rewrite length_app, length_drop. lia.
    + cbn. apply Forall_app. split; [done|]. by apply Forall_drop.
  - exists st'. split; [done|]. destruct rest; [|unfold zlen in Hz; cbn in Hz; lia].
    exists (full ++ blk), [], n', (st_buf st). rewrite H5, H6. repeat split; auto.
Qed.

Lemma update_rep st msg m :
  md5_rep st msg -> bytes_ok m -> exists st', erts_md5_update st m = Some st' /\ md5_rep st' (msg ++ m).
Proof.
  intros (full & tail & n & rest & -> & Hn & Hr & Ht & Hl & Hb & Hz & Hok) Hm.
  unfold erts_md5_update. rewrite Hl. rewrite Hb in Hz, Hok. rewrite zlen_app in Hz.
  destruct (Z.ltb_spec 0 (zlen tail)) as [H0|H0].
  2:{ destruct tail; [|unfold zlen in H0; cbn in H0; lia]. rewrite app_nil_r.
      apply (update_blocks_rep st m full n); auto; rewrite Hb; auto. }
  pose proof (proj1 (Forall_app _ _ _) Hok) as [Hto Hro].
  destruct (Z.ltb_spec (64 - zlen tail) (zlen m)) as [H1|H1].
  - set (k := Z.to_nat (64 - zlen tail)). assert (length rest = k) as Hk by (unfold k, zlen in *; lia).
    assert (length (take k m) = k) as Hkm by (rewrite length_take; unfold k, zlen in *; lia).
    rewrite Hb, store_behind by lia. rewrite (drop_ge rest), app_nil_r by lia. cbn [mbind option_bind].
    assert (bytes_ok (tail ++ take k m)) as Hbo by (apply Forall_app; split; [done|by apply Forall_take]).
    assert (length (tail ++ take k m) = 64%nat) as Hlen by (rewrite length_app; unfold zlen in *; lia).
    rewrite hash_part_rfc; [|done|unfold zlen; lia|change (regs_ok (get_regs st)); rewrite Hr; apply rfc_hash_ok, init_regs_ok].
    cbn [mbind option_bind]. rewrite (take_ge (tail ++ take k m)) by lia.
    replace ((full ++ tail) ++ m) with ((full ++ tail ++ take k m) ++ drop k m)
      by (by rewrite <- !app_assoc, take_drop).
    eapply (update_blocks_rep _ (drop k m) (full ++ tail ++ take k m) (S n)).
    + by apply Forall_drop.
    + rewrite length_app, Hlen, Hn. lia.
    + rewrite get_set_buf, (rfc_hash_app _ full _ n Hn), <- Hr, (rfc_hash_step _ (tail ++ _)) by lia.
      rewrite (take_ge (tail ++ take k m)), (drop_ge (tail ++ take k m)) by lia. rewrite rfc_hash_short by (cbn; lia).
      done.
    + destruct (rfc_block _ _) as [[[a b] c] d]. cbn. rewrite Ht, tot_add by lia. f_equal.
      unfold zlen. rewrite length_app, Hlen. lia.
    + done.
    + cbn. unfold zlen. lia.
    + done.
  - rewrite Hb, store_behind by (unfold zlen in *; lia). cbn [mbind option_bind]. eexists. split; [done|].
    exists full, (tail ++ m), n, (drop (length m) rest). rewrite zlen_app. repeat split; auto.
    + by rewrite app_assoc.
    + cbn. unfold zlen in *. rewrite !length_app, length_drop. lia.
    + cbn. apply Forall_app. split; [by apply Forall_app|by apply Forall_drop].
Qed.

(** ** Padding *)

Lemma finish_loop_rfc fuel part st n :
  (length part <= fuel)%nat -> bytes_ok part -> length part = (64 * n)%nat -> regs_ok (get_regs st) ->
  exists st', finish_loop fuel part st = Some st' /\ get_regs st' = rfc_hash (get_regs st) part.
Proof.
  revert part st n. induction fuel as [|fuel IH]; intros part st n Hf Hok Hn Hr; cbn [finish_loop];
    (destruct (Z.ltb_spec 0 (zlen part)) as [Hl|Hl]; unfold zlen in Hl;
     [|exists st; by rewrite rfc_hash_short by lia]); [lia|].
  rewrite hash_part_rfc by (done || unfold zlen; lia). cbn [mbind option_bind].
  rewrite rfc_hash_step by lia. set (st1 := set_regs _ _).
  assert (get_regs st1 = rfc_block (get_regs st) (take 64 part)) as <- by (unfold st1; by destruct (rfc_block _ _) as [[[a b] c] d]).
  apply (IH (drop 64 part) st1 (n - 1)%nat).
  - rewrite length_drop. lia.
  - by apply Forall_drop.
  - rewrite length_drop. lia.
  - unfold st1. destruct (rfc_block _ _) as [[[a b] c] d] eqn:E. change (regs_ok (a, b, c, d)). rewrite <- E. apply add_regs_ok.
Qed.

Lemma le_bytes_mod k n : le_bytes k (wrapu (8 * Z.of_nat k) n) = le_bytes k n.
Proof.
  revert n. induction k as [|k IH]; intros n; [done|]. cbn [le_bytes].
  assert (wrapu (8 * Z.of_nat (S k)) n = n mod 256 + 256 * wrapu (8 * Z.of_nat k) (n / 256)) as ->.
  { unfold wrapu. replace (8 * Z.of_nat (S k)) with (8 + 8 * Z.of_nat k) by lia. rewrite Z.pow_add_r by lia.
    change (2 ^ 8) with 256. rewrite Z.rem_mul_r by lia. lia. }
  rewrite !land_255, !Z.shiftr_div_pow2 by lia. change (2 ^ 8) with 256. f_equal.
  - rewrite Z.mul_comm, Z_mod_plus_full. apply Zmod_mod.
  - rewrite Z.mul_comm, Z.div_add, (Z.div_small (n mod 256)), Z.add_0_l by (lia || (apply Z.mod_pos_bound; lia)). apply IH.
Qed.

(** The number of zeros the code computes is the one that completes the last
    block. *)
Lemma pad_zeroes full tail :
  0 <= full -> Z.land (64 - 8 - (tail + 1) mod 64) (64 - 1) = (55 - (64 * full + tail)) mod 64.
Proof.
  intros _. change (64 - 1) with (Z.ones 6). rewrite Z.land_ones by lia. change (2 ^ 6) with 64.
  replace (64 - 8 - (tail + 1) mod 64) with (56 - (tail + 1) mod 64) by lia.
  rewrite Zminus_mod_idemp_r. replace (55 - (64 * full + tail)) with (56 - (tail + 1) + (- full) * 64) by lia.
  by rewrite Z_mod_plus_full.
Qed.

Lemma finish_rep st msg :
  md5_rep st msg -> bytes_ok msg -> erts_md5_finish st = Some (rfc_md5 msg).
Proof.
  intros (full & tail & n & rest & -> & Hn & Hr & Ht & Hl & Hb & Hz & Hok) Hm.
  rewrite Hb in Hz, Hok. rewrite zlen_app in Hz. apply Forall_app in Hm as [_ Hm].
  unfold erts_md5_finish, pad. rewrite Hl, Hb, Ht, tot_add by zlen_lia.
  pose proof (holds_slice (tail ++ rest) 0 tail (zlen tail)) as Hs. rewrite Hs; [|by exists [], rest|done]. clear Hs.
  cbn [mbind option_bind].
  assert (zlen full = 64 * Z.of_nat n) as Hf by (unfold zlen; lia).
  rewrite (pad_zeroes (Z.of_nat n)), <- Hf, <- zlen_app by lia.
  assert (le_bytes 8 (wrapu 64 (wrapu 64 (zlen (full ++ tail)) * 8)) = le_bytes 8 (8 * zlen (full ++ tail))) as ->.
  { rewrite (le_bytes_mod 8). rewrite <- (le_bytes_mod 8 (8 * _)), <- (le_bytes_mod 8 (wrapu 64 _ * 8)). f_equal.
    unfold wrapu. change (8 * Z.of_nat 8) with 64. rewrite Zmult_mod_idemp_l. f_equal. lia. }
  set (z := Z.to_nat _). set (padded := tail ++ _).
  assert (exists k, length padded = 64 * k /\ k <= 2)%nat as (k & Hk & Hk2).
  { unfold padded. rewrite !length_app, length_replicate, length_le_bytes. cbn [length].
    unfold z. rewrite zlen_app, Hf. pose proof (Z.mod_pos_bound (55 - (64 * Z.of_nat n + zlen tail)) 64 ltac:(lia)).
    pose proof (Z.div_mod (55 - (64 * Z.of_nat n + zlen tail)) 64 ltac:(lia)) as Hd.
    set (q := _ / 64) in *. set (r := _ mod 64) in *.
    exists (Z.to_nat (1 - Z.of_nat n - q)). unfold zlen in *. split; [|lia].
    assert (0 <= 1 - Z.of_nat n - q) by lia. lia. }
  destruct (Z.leb_spec (zlen padded) (2 * 64)) as [_|Hx]; [|exfalso; unfold zlen in Hx; lia].
  cbn [mbind option_bind].
  assert (bytes_ok padded) as Hpo.
  { unfold padded. rewrite !Forall_app. split; [done|]. split; [repeat constructor; lia|].
    split; [apply Forall_replicate; unfold byte_ok; lia|apply le_bytes_ok]. }
  destruct (finish_loop_rfc (length padded) padded st k) as (st' & -> & E); [lia|done|done| |].
  { rewrite Hr. apply rfc_hash_ok, init_regs_ok. }
  cbn [mbind option_bind]. unfold rfc_md5. rewrite Hr, <- (rfc_hash_app _ full padded n Hn) in E.
  unfold rfc_pad. rewrite <- app_assoc. fold z. fold padded. rewrite <- E. done.
Qed.

Lemma md5_updates_rep msgs st msg :
  md5_rep st msg -> Forall bytes_ok msgs ->
  exists st', md5_updates st msgs = Some st' /\ md5_rep st' (msg ++ concat msgs).
Proof.
  revert st msg. induction msgs as [|m msgs IH]; intros st msg Hr Hok; cbn [md5_updates concat].
  - exists st. by rewrite app_nil_r.
  - apply Forall_cons_iff in Hok as [Hm Hok]. destruct (update_rep st msg m Hr Hm) as (st1 & -> & H1).
    cbn [mbind option_bind]. rewrite app_assoc. by apply IH.
Qed.

Lemma md5_init_rep : md5_rep erts_md5_init [].
Proof.
  exists [], [], 0%nat, (replicate 64 0). repeat split; try done. apply Forall_replicate. unfold byte_ok. lia.
Qed.

(** ** Properties *)

(** C7: However the message is cut into pieces, [erts_md5_update] on the pieces
    and [erts_md5_finish] stay inside of their buffers and give the digest that
    RFC 1321 defines for the whole message; the code's cheaper forms of the
    auxiliary functions, its computed word indices and its padding included. *)
Theorem md5_stream msgs :
  Forall bytes_ok msgs ->
  exists st, md5_updates erts_md5_init msgs = Some st /\ erts_md5_finish st = Some (rfc_md5 (concat msgs)).
Proof.
  intros Hok. destruct (md5_updates_rep msgs erts_md5_init [] md5_init_rep Hok) as (st & E & H).
  exists st. split; [done|]. apply (finish_rep st _ H). cbn [app]. clear E H.
  induction Hok; cbn [concat]; [done|]. by apply Forall_app.
Qed.

Lemma md5_stream_witness :
  exists st, md5_updates erts_md5_init [[97]; []; [98; 99]] = Some st /\
    erts_md5_finish st = Some [144; 1; 80; 152; 60; 210; 79; 176; 214; 150; 63; 125; 40; 225; 127; 114].
Proof.
  destruct (md5_stream [[97]; []; [98; 99]]) as (st & E & H).
  - unfold byte_ok. repeat constructor; lia.
  - exists st. split; [exact E|]. rewrite H. vm_compute. reflexivity.
Defined.
