(* ===== verification/EiTypes.v ===== *)
(** * Constants and data of [lib/erl_interface/include/ei.h] *)
From S2P Require Import Prelude PutGet.

(** ** Tags of the external term format *)
Definition ERL_SMALL_INTEGER_EXT : Z := 97.
Definition ERL_INTEGER_EXT : Z := 98.
Definition ERL_FLOAT_EXT : Z := 99.
Definition NEW_FLOAT_EXT : Z := 70.
Definition ERL_ATOM_EXT : Z := 100.
Definition ERL_SMALL_ATOM_EXT : Z := 115.
Definition ERL_ATOM_UTF8_EXT : Z := 118.
Definition ERL_SMALL_ATOM_UTF8_EXT : Z := 119.
Definition ERL_REFERENCE_EXT : Z := 101.
Definition ERL_NEW_REFERENCE_EXT : Z := 114.
Definition ERL_NEWER_REFERENCE_EXT : Z := 90.
Definition ERL_PORT_EXT : Z := 102.
Definition ERL_NEW_PORT_EXT : Z := 89.
Definition ERL_PID_EXT : Z := 103.
Definition ERL_NEW_PID_EXT : Z := 88.
Definition ERL_SMALL_TUPLE_EXT : Z := 104.
Definition ERL_LARGE_TUPLE_EXT : Z := 105.
Definition ERL_NIL_EXT : Z := 106.
Definition ERL_STRING_EXT : Z := 107.
Definition ERL_LIST_EXT : Z := 108.
Definition ERL_BINARY_EXT : Z := 109.
Definition ERL_BIT_BINARY_EXT : Z := 77.
Definition ERL_SMALL_BIG_EXT : Z := 110.
Definition ERL_LARGE_BIG_EXT : Z := 111.
Definition ERL_NEW_FUN_EXT : Z := 112.
Definition ERL_MAP_EXT : Z := 116.
Definition ERL_FUN_EXT : Z := 117.
Definition ERL_EXPORT_EXT : Z := 113.
Definition ERL_V4_PORT_EXT : Z := 120.
Definition ERL_NEW_CACHE : Z := 78.
Definition ERL_CACHED_ATOM : Z := 67.
Definition ERL_PASS_THROUGH : Z := 112.

(** [misc/eiext.h] *)
Definition ERL_VERSION_MAGIC : Z := 131.
Definition ERL_MAX : Z := 134217727.
Definition ERL_MIN : Z := -134217728.

Definition MAXATOMLEN : Z := 256.
Definition MAXATOMLEN_UTF8 : Z := 1021.

(** [erlang_char_encoding] is a set of bit flags. *)
Definition ERLANG_ASCII : Z := 1.
Definition ERLANG_LATIN1 : Z := 2.
Definition ERLANG_UTF8 : Z := 4.

(** ** Structures.  A [char name[N]] that holds a C string is the list of the
    bytes before its terminating NUL. *)
Record erlang_pid := { pid_node : list Z; pid_num : Z; pid_serial : Z; pid_creation : Z }.
Record erlang_port := { port_node : list Z; port_id : Z; port_creation : Z }.
Record erlang_ref := { ref_node : list Z; ref_len : Z; ref_n : list Z; ref_creation : Z }.
Record erlang_trace := { tr_serial : Z; tr_prev : Z; tr_from : erlang_pid; tr_label : Z; tr_flags : Z }.
Record erlang_big := { big_arity : Z; big_is_neg : Z; big_digits : list Z }.

(** The union of [erlang_fun], with its discriminator [type].  [free_vars] is
    the memory the pointer refers to; [func] is [None] for a NULL pointer. *)
Inductive fun_u :=
  | EI_FUN_CLOSURE (md5 : list Z) (index old_index uniq n_free_vars : Z) (pid : erlang_pid)
      (free_var_len : Z) (free_vars : list Z)
  | EI_FUN_EXPORT (func : option (list Z)) (func_allocated : bool).
Record erlang_fun := { fun_arity : Z; fun_module : list Z; fun_body : fun_u }.
