(* ===== verification/EiInt.v ===== *)
(** * Integers: [encode_char.c], [encode_long.c], [encode_longlong.c],
    [encode_ulong.c], [encode_ulonglong.c] and the matching decoders

    The functions without suffix are the ones of a 64-bit build ([EI_64BIT]),
    those with suffix [_32] are the bodies compiled when [long] has 32 bits. *)
From S2P Require Import Prelude PutGet EiTypes.

(** ** Encoders *)

Definition ei_encode_char (buf : option mem) (index p : Z) : eres :=
  match buf with
  | None => EOk None (index + 2)
  | Some m =>
      let! (m, s) := put8 m index ERL_SMALL_INTEGER_EXT in
      let! (m, s) := put8 m s (Z.land p 255) in
      EOk (Some m) s
  end.

(** The macro [abs(p)] of these files on a [w]-bit signed argument. *)
Definition abs_w (w p : Z) : Z := if p <? 0 then wraps w (- p) else p.

Definition ei_encode_long_32 (buf : option mem) (index p : Z) : eres :=
  if (p <? 256) && (0 <=? p) then
    match buf with
    | None => EOk None (index + 2)
    | Some m =>
        let! (m, s) := put8 m index ERL_SMALL_INTEGER_EXT in
        let! (m, s) := put8 m s (Z.land p 255) in
        EOk (Some m) s
    end
  else if (p <=? ERL_MAX) && (ERL_MIN <=? p) then
    match buf with
    | None => EOk None (index + 5)
    | Some m =>
        let! (m, s) := put8 m index ERL_INTEGER_EXT in
        let! (m, s) := put32be m s p in
        EOk (Some m) s
    end
  else
    match buf with
    | None => EOk None (index + 7)
    | Some m =>
        let! (m, s) := put8 m index ERL_SMALL_BIG_EXT in
        let! (m, s) := put8 m s 4 in
        let! (m, s) := put8 m s (if p <? 0 then 1 else 0) in
        let! (m, s) := put32le m s (abs_w 32 p) in
        EOk (Some m) s
    end.

(** [while (up) { *s++ = up & 0xff; up >>= 8; arity++; }].  [up] has 64 bits,
    so 8 iterations empty it. *)
Fixpoint put_digits (fuel : nat) (m : mem) (s up arity : Z) : option (mem * Z * Z) :=
  if up =? 0 then Some (m, s, arity) else
  match fuel with
  | O => None
  | S fuel =>
      match store m s [Z.land up 255] with
      | None => None
      | Some m => put_digits fuel m (s + 1) (Z.shiftr up 8) (arity + 1)
      end
  end.

(** [while (up) { s++; up >>= 8; }] *)
Fixpoint skip_digits (fuel : nat) (s up : Z) : option Z :=
  if up =? 0 then Some s else
  match fuel with
  | O => None
  | S fuel => skip_digits fuel (s + 1) (Z.shiftr up 8)
  end.

(** The [ERL_SMALL_BIG_EXT] branch shared by the two 64-bit encoders. *)
Definition put_big64 (buf : option mem) (index up sign : Z) : eres :=
  match buf with
  | Some m =>
      let! (m, arityp) := put8 m index ERL_SMALL_BIG_EXT in
      let s := arityp + 1 in
      let! (m, s) := put8 m s sign in
      match put_digits 8 m s up 0 with
      | None => EOob
      | Some (m, s, arity) =>
          let! (m, _s) := put8 m arityp arity in
          EOk (Some m) s
      end
  | None =>
      match skip_digits 8 (index + 3) up with
      | None => EOob
      | Some s => EOk None s
      end
  end.

Definition ei_encode_longlong (buf : option mem) (index p : Z) : eres :=
  if (p <? 256) && (0 <=? p) then
    match buf with
    | None => EOk None (index + 2)
    | Some m =>
        let! (m, s) := put8 m index ERL_SMALL_INTEGER_EXT in
        let! (m, s) := put8 m s (Z.land p 255) in
        EOk (Some m) s
    end
  else if (p <=? ERL_MAX) && (ERL_MIN <=? p) then
    match buf with
    | None => EOk None (index + 5)
    | Some m =>
        let! (m, s) := put8 m index ERL_INTEGER_EXT in
        let! (m, s) := put32be m s p in
        EOk (Some m) s
    end
  else
    let up := wrapu 64 (abs_w 64 p) in
    put_big64 buf index up (if p <? 0 then 1 else 0).

Definition ei_encode_long (buf : option mem) (index p : Z) : eres :=
  ei_encode_longlong buf index p.

Definition ei_encode_ulong_32 (buf : option mem) (index p : Z) : eres :=
  if ERL_MAX <? p then
    match buf with
    | None => EOk None (index + 7)
    | Some m =>
        let! (m, s) := put8 m index ERL_SMALL_BIG_EXT in
        let! (m, s) := put8 m s 4 in
        let! (m, s) := put8 m s 0 in
        let! (m, s) := put32le m s p in
        EOk (Some m) s
    end
  else if (p <? 256) && (0 <=? p) then
    match buf with
    | None => EOk None (index + 2)
    | Some m =>
        let! (m, s) := put8 m index ERL_SMALL_INTEGER_EXT in
        let! (m, s) := put8 m s (Z.land p 255) in
        EOk (Some m) s
    end
  else
    match buf with
    | None => EOk None (index + 5)
    | Some m =>
        let! (m, s) := put8 m index ERL_INTEGER_EXT in
        let! (m, s) := put32be m s p in
        EOk (Some m) s
    end.

Definition ei_encode_ulonglong (buf : option mem) (index p : Z) : eres :=
  if p <? 256 then
    match buf with
    | None => EOk None (index + 2)
    | Some m =>
        let! (m, s) := put8 m index ERL_SMALL_INTEGER_EXT in
        let! (m, s) := put8 m s (Z.land p 255) in
        EOk (Some m) s
    end
  else if p <=? ERL_MAX then
    match buf with
    | None => EOk None (index + 5)
    | Some m =>
        let! (m, s) := put8 m index ERL_INTEGER_EXT in
        let! (m, s) := put32be m s p in
        EOk (Some m) s
    end
  else put_big64 buf index p 0.

Definition ei_encode_ulong (buf : option mem) (index p : Z) : eres :=
  ei_encode_ulonglong buf index p.

(** ** Decoders *)

(** [for (i = 0; i < arity; i++) if (i < w) u |= get8(s) << (i*8); else if
    (get8(s) != 0) return -1;], [n] counting the iterations left. *)
Fixpoint get_digits (w : Z) (n : nat) (m : mem) (i s u index : Z) : dres Z :=
  match n with
  | O => DOk u s
  | S n =>
      let? (b, s) := get8 m s in
      if i <? w then get_digits w n m (i + 1) s (Z.lor u (Z.shiftl b (i * 8))) index
      else if b =? 0 then get_digits w n m (i + 1) s u index
      else DErr index
  end.

(** The signed [decode_big] block; [w] is the number of bytes of the result
    type, [8*w] its width. *)
Definition decode_big_s (w : Z) (m : mem) (arity s index : Z) : dres Z :=
  let? (sign, s) := get8 m s in
  call? (u, s) := get_digits w (Z.to_nat arity) m 0 s 0 index fails j => DErr j in
  if negb (sign =? 0) then
    if 2 ^ (8 * w - 1) <? u then DErr index
    else DOk (wraps (8 * w) (- wraps (8 * w) u)) s
  else
    if 2 ^ (8 * w - 1) - 1 <? u then DErr index
    else DOk (wraps (8 * w) u) s.

(** The unsigned one. *)
Definition decode_big_u (w : Z) (m : mem) (arity s index : Z) : dres Z :=
  let? (sign, s) := get8 m s in
  if negb (sign =? 0) then DErr index
  else get_digits w (Z.to_nat arity) m 0 s 0 index.

Definition ei_decode_longlong (m : mem) (index : Z) : dres Z :=
  let? (tag, s) := get8 m index in
  if tag =? ERL_SMALL_INTEGER_EXT then
    let? (n, s) := get8 m s in DOk n s
  else if tag =? ERL_INTEGER_EXT then
    let? (n, s) := get32be m s in DOk n s
  else if tag =? ERL_SMALL_BIG_EXT then
    let? (arity, s) := get8 m s in decode_big_s 8 m arity s index
  else if tag =? ERL_LARGE_BIG_EXT then
    let? (arity, s) := get32be m s in decode_big_s 8 m arity s index
  else DErr index.

Definition ei_decode_long (m : mem) (index : Z) : dres Z := ei_decode_longlong m index.

Definition ei_decode_long_32 (m : mem) (index : Z) : dres Z :=
  let? (tag, s) := get8 m index in
  if tag =? ERL_SMALL_INTEGER_EXT then
    let? (n, s) := get8 m s in DOk n s
  else if tag =? ERL_INTEGER_EXT then
    let? (n, s) := get32be m s in DOk n s
  else if tag =? ERL_SMALL_BIG_EXT then
    let? (arity, s) := get8 m s in decode_big_s 4 m arity s index
  else if tag =? ERL_LARGE_BIG_EXT then
    let? (arity, s) := get32be m s in decode_big_s 4 m arity s index
  else DErr index.

Definition ei_decode_ulonglong (m : mem) (index : Z) : dres Z :=
  let? (tag, s) := get8 m index in
  if tag =? ERL_SMALL_INTEGER_EXT then
    let? (n, s) := get8 m s in DOk n s
  else if tag =? ERL_INTEGER_EXT then
    let? (sn, s) := get32be m s in
    if sn <? 0 then DErr index else DOk sn s
  else if tag =? ERL_SMALL_BIG_EXT then
    let? (arity, s) := get8 m s in decode_big_u 8 m arity s index
  else if tag =? ERL_LARGE_BIG_EXT then
    let? (arity, s) := get32be m s in decode_big_u 8 m arity s index
  else DErr index.

Definition ei_decode_ulong (m : mem) (index : Z) : dres Z := ei_decode_ulonglong m index.

Definition ei_decode_ulong_32 (m : mem) (index : Z) : dres Z :=
  let? (tag, s) := get8 m index in
  if tag =? ERL_SMALL_INTEGER_EXT then
    let? (n, s) := get8 m s in DOk n s
  else if tag =? ERL_INTEGER_EXT then
    let? (sn, s) := get32be m s in
    if sn <? 0 then DErr index else DOk sn s
  else if tag =? ERL_SMALL_BIG_EXT then
    let? (arity, s) := get8 m s in decode_big_u 4 m arity s index
  else if tag =? ERL_LARGE_BIG_EXT then
    let? (arity, s) := get32be m s in decode_big_u 4 m arity s index
  else DErr index.

(** The loop over the bytes 1 to [arity - 1], all of which have to be 0. *)
Fixpoint zero_bytes (n : nat) (m : mem) (s index : Z) : dres unit :=
  match n with
  | O => DOk tt s
  | S n =>
      let? (b, s) := get8 m s in
      if b =? 0 then zero_bytes n m s index else DErr index
  end.

Definition decode_big_char (m : mem) (arity s index : Z) : dres Z :=
  let? (sign, s) := get8 m s in
  if negb (sign =? 0) then DErr index else
  let? (n, s) := get8 m s in
  call? (_u, s) := zero_bytes (Z.to_nat (arity - 1)) m s index fails j => DErr j in
  DOk n s.

Definition ei_decode_char (m : mem) (index : Z) : dres Z :=
  let? (tag, s) := get8 m index in
  if tag =? ERL_SMALL_INTEGER_EXT then
    let? (n, s) := get8 m s in DOk n s
  else if tag =? ERL_INTEGER_EXT then
    let? (n, s) := get32be m s in
    if (n <? 0) || (255 <? n) then DErr index else DOk n s
  else if tag =? ERL_SMALL_BIG_EXT then
    let? (arity, s) := get8 m s in decode_big_char m arity s index
  else if tag =? ERL_LARGE_BIG_EXT then
    let? (arity, s) := get32be m s in decode_big_char m arity s index
  else DErr index.

(** ** What the encoders emit *)

(** The little-endian base-256 digits the encoding loop produces. *)
Fixpoint digit_bytes (fuel : nat) (up : Z) : list Z :=
  if up =? 0 then [] else
  match fuel with
  | O => []
  | S fuel => Z.land up 255 :: digit_bytes fuel (Z.shiftr up 8)
  end.

Lemma shiftr8_bound k up : 0 <= up < 256 ^ Z.of_nat (S k) -> 0 <= Z.shiftr up 8 < 256 ^ Z.of_nat k.
Proof.
  intros H. rewrite Z.shiftr_div_pow2 by lia.
  rewrite Nat2Z.inj_succ, Z.pow_succ_r in H by lia.
  split; [apply Z.div_pos; lia|]. apply Z.div_lt_upper_bound; lia.
Qed.

Lemma digit_bytes_val fuel up :
  0 <= up < 256 ^ Z.of_nat fuel -> le_val (digit_bytes fuel up) = up.
Proof.
  revert up. induction fuel as [|k IH]; intros up Hu.
  - cbn. destruct (Z.eqb_spec up 0); simpl; [lia|]. simpl in Hu. lia.
  - cbn [digit_bytes]. destruct (Z.eqb_spec up 0); [simpl; lia|].
    cbn [le_val]. rewrite IH by (apply shiftr8_bound, Hu).
    rewrite land_255, Z.shiftr_div_pow2 by lia. change (2 ^ 8) with 256.
    pose proof (Z.div_mod up 256). lia.
Qed.

Lemma digit_bytes_ok fuel up : bytes_ok (digit_bytes fuel up).
Proof.
  revert up. induction fuel; intros up; cbn [digit_bytes]; destruct (up =? 0);
    constructor; auto using land_255_ok.
Qed.

Lemma digit_bytes_length fuel up : (length (digit_bytes fuel up) <= fuel)%nat.
Proof.
  revert up. induction fuel as [|k IH]; intros up; cbn [digit_bytes]; destruct (up =? 0);
    cbn [length]; try lia. specialize (IH (Z.shiftr up 8)). lia.
Qed.

Lemma put_digits_spec fuel m s up a :
  0 <= up < 256 ^ Z.of_nat fuel -> 0 <= s <= zlen m ->
  put_digits fuel m s up a =
  match put_bytes m s (digit_bytes fuel up) with
  | Some (m', s') => Some (m', s', a + zlen (digit_bytes fuel up)) | None => None end.
Proof.
  revert m s up a. induction fuel as [|k IH]; intros m s up a Hu Hs;
    cbn [put_digits digit_bytes]; unfold put_bytes; destruct (Z.eqb_spec up 0) as [->|Hne].
  1, 3: by rewrite store_nil, zlen_nil, !Z.add_0_r by lia.
  - simpl in Hu. lia.
  - change (Z.land up 255 :: digit_bytes k (Z.shiftr up 8))
      with ([Z.land up 255] ++ digit_bytes k (Z.shiftr up 8)).
    rewrite <- store_seq, zlen_app. change (zlen [Z.land up 255]) with 1.
    destruct (store m s [Z.land up 255]) as [m1|] eqn:E; [|done].
    apply store_bounds in E as (? & E & ?). change (zlen [Z.land up 255]) with 1 in E.
    rewrite IH; [|apply shiftr8_bound, Hu|lia]. unfold put_bytes.
    destruct (store m1 (s + 1) _); [|done]. rewrite !Z.add_assoc. reflexivity.
Qed.

Lemma skip_digits_spec fuel s up :
  0 <= up < 256 ^ Z.of_nat fuel ->
  skip_digits fuel s up = Some (s + zlen (digit_bytes fuel up)).
Proof.
  revert s up. induction fuel as [|k IH]; intros s up Hu; cbn [skip_digits digit_bytes].
  - cbn in Hu. assert (up = 0) as -> by lia. cbn. f_equal. zlen_lia.
  - destruct (Z.eqb_spec up 0); [f_equal; zlen_lia|].
    rewrite IH by (apply shiftr8_bound, Hu). f_equal. zlen_lia.
Qed.

Definition big64_bytes (up sign : Z) : list Z :=
  let d := digit_bytes 8 up in
  [ERL_SMALL_BIG_EXT; zlen d; Z.land sign 255] ++ d.

Lemma put_big64_emits up sign :
  0 <= up < 2 ^ 64 -> Emits (fun b i => put_big64 b i up sign) (Some (big64_bytes up sign)).
Proof.
  intros Hu. change (2 ^ 64) with (256 ^ Z.of_nat 8) in Hu. unfold big64_bytes.
  pose proof (digit_bytes_length 8 up) as Hl.
  split; intros; cbn [put_big64].
  - rewrite skip_digits_spec by exact Hu. f_equal. zlen_lia.
  - rewrite put8_bytes. cbn zeta.
    transitivity (let! (m1, s1) := put_bytes m i [Z.land ERL_SMALL_BIG_EXT 255] in
      let! (m2, s2) := put_bytes m1 (s1 + zlen [zlen (digit_bytes 8 up)])
        ([Z.land sign 255] ++ digit_bytes 8 up) in
      let! (m3, _s) := put_bytes m2 s1 [zlen (digit_bytes 8 up)] in EOk (Some m3) s2).
    2:{ rewrite (put_backfill _ _ _ _ _ (fun m s => EOk (Some m) s)), emit_fold. reflexivity. }
    destruct (put_bytes m i _) as [[m1 s1]|] eqn:E1; [|done].
    rewrite <- (put_bytes_seq _ _ _ _
       (fun m2 s2 => let! (m3, _s) := put_bytes m2 s1 [zlen (digit_bytes 8 up)] in EOk (Some m3) s2)).
    rewrite put8_bytes. change (zlen [zlen (digit_bytes 8 up)]) with 1.
    unfold put_bytes in *. destruct (store m i _) as [m1'|] eqn:E0; [|done].
    injection E1 as <- <-.
    destruct (store m1' _ [Z.land sign 255]) as [m2|] eqn:E2; [|done].
    change (zlen [Z.land ERL_SMALL_BIG_EXT 255]) with 1 in *.
    change (zlen [Z.land sign 255]) with 1.
    apply store_bounds in E2 as (? & E2 & ?). change (zlen [Z.land sign 255]) with 1 in E2.
    rewrite put_digits_spec; [|exact Hu|lia].
    unfold put_bytes. destruct (store m2 _ (digit_bytes 8 up)); [|done].
    rewrite Z.add_0_l, put8_bytes. unfold put_bytes.
    rewrite (land_255_small (zlen _)) by (unfold byte_ok, zlen; lia). reflexivity.
Qed.

Definition small_bytes (p : Z) : list Z := [ERL_SMALL_INTEGER_EXT; Z.land p 255].
Definition int32_bytes (p : Z) : list Z := ERL_INTEGER_EXT :: be_bytes 4 p.
Definition big32_bytes (up sign : Z) : list Z := [ERL_SMALL_BIG_EXT; 4; sign] ++ le_bytes 4 up.

(** The byte strings of the two 64-bit encoders. *)
Definition longlong_bytes (p : Z) : list Z :=
  if (p <? 256) && (0 <=? p) then small_bytes p
  else if (p <=? ERL_MAX) && (ERL_MIN <=? p) then int32_bytes p
  else big64_bytes (wrapu 64 (abs_w 64 p)) (if p <? 0 then 1 else 0).

Definition ulonglong_bytes (p : Z) : list Z :=
  if p <? 256 then small_bytes p
  else if p <=? ERL_MAX then int32_bytes p
  else big64_bytes p 0.

Definition long_bytes_32 (p : Z) : list Z :=
  if (p <? 256) && (0 <=? p) then small_bytes p
  else if (p <=? ERL_MAX) && (ERL_MIN <=? p) then int32_bytes p
  else big32_bytes (abs_w 32 p) (if p <? 0 then 1 else 0).

Definition ulong_bytes_32 (p : Z) : list Z :=
  if ERL_MAX <? p then big32_bytes p 0
  else if (p <? 256) && (0 <=? p) then small_bytes p
  else int32_bytes p.

Lemma zlen_longlong_bytes p : 2 <= zlen (longlong_bytes p) <= 11.
Proof.
  unfold longlong_bytes, small_bytes, int32_bytes, big64_bytes.
  pose proof (digit_bytes_length 8 (wrapu 64 (abs_w 64 p))) as Hd.
  assert (zlen (digit_bytes 8 (wrapu 64 (abs_w 64 p))) <= 8) by (unfold zlen; lia). repeat case_match; zlen_lia.
Qed.

Lemma land_land_255 p : Z.land (Z.land p 255) 255 = Z.land p 255.
Proof. rewrite <- Z.land_assoc. reflexivity. Qed.

#[export] Instance ei_encode_char_emits p :
  Emits (fun b i => ei_encode_char b i p) (Some (small_bytes p)).
Proof.
  unfold ei_encode_char, small_bytes. split; intros; cbn iota; [f_equal; zlen_lia|].
  emits_steps. rewrite land_land_255. reflexivity.
Qed.

(** The two branches of the encoders that do not produce a big integer. *)
Lemma small_branch_emits p :
  Emits (fun b i => match b with
    | None => EOk None (i + 2)
    | Some m => let! (m, s) := put8 m i ERL_SMALL_INTEGER_EXT in
                let! (m, s) := put8 m s (Z.land p 255) in EOk (Some m) s end)
    (Some (small_bytes p)).
Proof. exact (ei_encode_char_emits p). Qed.

Lemma int32_branch_emits p :
  Emits (fun b i => match b with
    | None => EOk None (i + 5)
    | Some m => let! (m, s) := put8 m i ERL_INTEGER_EXT in
                let! (m, s) := put32be m s p in EOk (Some m) s end)
    (Some (int32_bytes p)).
Proof. unfold int32_bytes. emits_straight. Qed.

Lemma big32_branch_emits up sign :
  byte_ok sign ->
  Emits (fun b i => match b with
    | None => EOk None (i + 7)
    | Some m => let! (m, s) := put8 m i ERL_SMALL_BIG_EXT in
                let! (m, s) := put8 m s 4 in
                let! (m, s) := put8 m s sign in
                let! (m, s) := put32le m s up in EOk (Some m) s end)
    (Some (big32_bytes up sign)).
Proof.
  intros Hs. unfold big32_bytes. split; intros; cbn iota; [f_equal; zlen_lia|].
  emits_steps. rewrite (land_255_small sign) by exact Hs. reflexivity.
Qed.

#[export] Instance ei_encode_longlong_emits p :
  Emits (fun b i => ei_encode_longlong b i p) (Some (longlong_bytes p)).
Proof.
  unfold ei_encode_longlong, longlong_bytes.
  destruct (_ && _); [apply small_branch_emits|].
  destruct (_ && _); [apply int32_branch_emits|].
  apply put_big64_emits, wrapu_range. lia.
Qed.

#[export] Instance ei_encode_long_emits p :
  Emits (fun b i => ei_encode_long b i p) (Some (longlong_bytes p)).
Proof. exact (ei_encode_longlong_emits p). Qed.

Lemma ei_encode_ulonglong_emits p :
  in_u 64 p -> Emits (fun b i => ei_encode_ulonglong b i p) (Some (ulonglong_bytes p)).
Proof.
  intros Hp. unfold ei_encode_ulonglong, ulonglong_bytes.
  destruct (p <? 256); [apply small_branch_emits|].
  destruct (p <=? ERL_MAX); [apply int32_branch_emits|].
  apply put_big64_emits, Hp.
Qed.

#[export] Instance ei_encode_long_32_emits p :
  Emits (fun b i => ei_encode_long_32 b i p) (Some (long_bytes_32 p)).
Proof.
  unfold ei_encode_long_32, long_bytes_32.
  destruct (_ && _); [apply small_branch_emits|].
  destruct (_ && _); [apply int32_branch_emits|].
  apply big32_branch_emits. destruct (p <? 0); unfold byte_ok; lia.
Qed.

#[export] Instance ei_encode_ulong_32_emits p :
  Emits (fun b i => ei_encode_ulong_32 b i p) (Some (ulong_bytes_32 p)).
Proof.
  unfold ei_encode_ulong_32, ulong_bytes_32.
  destruct (_ <? _); [apply big32_branch_emits; unfold byte_ok; lia|].
  destruct (_ && _); [apply small_branch_emits|apply int32_branch_emits].
Qed.

(** ** The integers of the external format, and what the decoders accept *)

Inductive int_ext : Type :=
| SmallInt (n : Z)
| Int32 (n : Z)
| SmallBig (sign : Z) (digits : list Z)
| LargeBig (sign : Z) (digits : list Z).

Definition int_ext_bytes (e : int_ext) : list Z :=
  match e with
  | SmallInt n => [ERL_SMALL_INTEGER_EXT; n]
  | Int32 n => ERL_INTEGER_EXT :: be_bytes 4 n
  | SmallBig sign ds => [ERL_SMALL_BIG_EXT; zlen ds; sign] ++ ds
  | LargeBig sign ds => ERL_LARGE_BIG_EXT :: be_bytes 4 (zlen ds) ++ sign :: ds
  end.

Definition int_ext_val (e : int_ext) : Z :=
  match e with
  | SmallInt n | Int32 n => n
  | SmallBig sign ds | LargeBig sign ds => if sign =? 0 then le_val ds else - le_val ds
  end.

Definition int_ext_ok (e : int_ext) : Prop :=
  match e with
  | SmallInt n => byte_ok n
  | Int32 n => in_s 32 n
  | SmallBig sign ds => byte_ok sign /\ bytes_ok ds /\ zlen ds < 256
  | LargeBig sign ds => byte_ok sign /\ bytes_ok ds /\ zlen ds < 2 ^ 31
  end.

(** The sign byte of a big integer, 0 for the other forms. *)
Definition int_ext_sign (e : int_ext) : Z :=
  match e with SmallInt _ | Int32 _ => 0 | SmallBig sign _ | LargeBig sign _ => sign end.

Lemma le_val_nonneg ds : bytes_ok ds -> 0 <= le_val ds.
Proof. intros H. apply le_val_range in H. lia. Qed.

Lemma get_digits_high w ds m i s u index :
  bytes_ok ds -> holds m s ds -> w <= i ->
  get_digits w (length ds) m i s u index
  = if le_val ds =? 0 then DOk u (s + zlen ds) else DErr index.
Proof.
  intros Hok. revert m i s. induction Hok as [|b ds Hb Hds IH]; intros m i s Hh Hi.
  - cbn. rewrite Z.add_0_r. reflexivity.
  - cbn [length get_digits]. apply get8_holds in Hh as [-> Hh]; [|exact Hb].
    destruct (Z.ltb_spec i w); [lia|]. pose proof (le_val_nonneg ds Hds).
    cbn [le_val]. unfold byte_ok in Hb.
    destruct (Z.eqb_spec b 0) as [->|Hne].
    + rewrite IH by (done || lia). rewrite zlen_cons, Z.add_assoc.
      destruct (Z.eqb_spec (le_val ds) 0), (Z.eqb_spec (0 + 256 * le_val ds) 0);
        (reflexivity || lia).
    + destruct (Z.eqb_spec (b + 256 * le_val ds) 0); [lia|reflexivity].
Qed.

Lemma get_digits_spec w ds m i s u index :
  bytes_ok ds -> holds m s ds -> 0 <= i <= w -> 0 <= u < 256 ^ i ->
  get_digits w (length ds) m i s u index
  = if u + 256 ^ i * le_val ds <? 256 ^ w
    then DOk (u + 256 ^ i * le_val ds) (s + zlen ds) else DErr index.
Proof.
  intros Hok. revert m i s u. induction Hok as [|b ds Hb Hds IH]; intros m i s u Hh Hi Hu.
  - cbn. rewrite Z.mul_0_r, !Z.add_0_r.
    assert (256 ^ i <= 256 ^ w) by (apply Z.pow_le_mono_r; lia).
    destruct (Z.ltb_spec u (256 ^ w)); [reflexivity|lia].
  - destruct (Z.eqb_spec i w) as [->|Hne].
    + rewrite get_digits_high by (first [by constructor|done|lia]).
      assert (0 <= le_val (b :: ds)) by (apply le_val_nonneg; by constructor).
      destruct (Z.eqb_spec (le_val (b :: ds)) 0) as [->|].
      * rewrite Z.mul_0_r, Z.add_0_r. destruct (Z.ltb_spec u (256 ^ w)); [reflexivity|lia].
      * destruct (Z.ltb_spec (u + 256 ^ w * le_val (b :: ds)) (256 ^ w)); [nia|reflexivity].
    + cbn [length get_digits]. apply get8_holds in Hh as [-> Hh]; [|exact Hb].
      destruct (Z.ltb_spec i w); [|lia]. cbn [le_val]. unfold byte_ok in Hb.
      rewrite Z.lor_comm, lor_shiftl_add by (rewrite <- ?pow_256; lia || (rewrite Z.mul_comm, <- pow_256; lia)).
      rewrite (Z.mul_comm i 8), <- pow_256 by lia.
      assert (0 < 256 ^ i) by (apply Z.pow_pos_nonneg; lia).
      rewrite IH; [|exact Hh|lia|rewrite Z.pow_add_r by lia; nia].
      rewrite zlen_cons, Z.add_assoc, Z.pow_add_r by lia.
      replace (b * 256 ^ i + u + 256 ^ i * 256 ^ 1 * le_val ds)
        with (u + 256 ^ i * (b + 256 * le_val ds)) by ring. reflexivity.
Qed.

(** The value a signed [w]-byte decode gives, or -1. *)
Lemma decode_big_s_spec w sign ds m s index :
  w = 4 \/ w = 8 -> byte_ok sign -> bytes_ok ds -> holds m s (sign :: ds) ->
  let v := if sign =? 0 then le_val ds else - le_val ds in
  decode_big_s w m (zlen ds) s index
  = if (- 2 ^ (8 * w - 1) <=? v) && (v <? 2 ^ (8 * w - 1)) then DOk v (s + 1 + zlen ds) else DErr index.
Proof.
  intros Hw Hs Hds Hh v. unfold decode_big_s.
  apply get8_holds in Hh as [-> Hh]; [|exact Hs].
  unfold zlen at 1. rewrite Nat2Z.id.
  rewrite get_digits_spec; [|done|done|lia|simpl; lia].
  rewrite Z.pow_0_r, Z.mul_1_l, Z.add_0_l.
  pose proof (le_val_nonneg ds Hds) as H0. set (x := le_val ds) in *.
  assert (256 ^ w = 2 * 2 ^ (8 * w - 1)) as Hp by (destruct Hw as [-> | ->]; reflexivity).
  assert (0 < 2 ^ (8 * w - 1)) by (destruct Hw as [-> | ->]; reflexivity).
  assert (0 < 8 * w) as Hw0 by lia.
  set (h := 2 ^ (8 * w - 1)) in *. subst v.
  destruct (Z.eqb_spec sign 0) as [E|E]; cbn [negb].
  - destruct (Z.ltb_spec x (256 ^ w)); cbn iota.
    + destruct (Z.ltb_spec (h - 1) x), (Z.leb_spec (- h) x), (Z.ltb_spec x h);
        try lia; cbn [andb]; [reflexivity|].
      rewrite wraps_small by (unfold in_s; fold h; lia). reflexivity.
    + destruct (Z.leb_spec (- h) x), (Z.ltb_spec x h); try lia; reflexivity.
  - destruct (Z.ltb_spec x (256 ^ w)); cbn iota.
    + destruct (Z.ltb_spec h x), (Z.leb_spec (- h) (- x)), (Z.ltb_spec (- x) h);
        try lia; cbn [andb]; [reflexivity|]. f_equal.
      destruct (Z.eq_dec x h) as [Ex|Ex].
      * assert (wraps (8 * w) x = - h) as ->.
        { rewrite Ex. unfold h. destruct Hw as [-> | ->]; reflexivity. }
        rewrite Ex. unfold h. destruct Hw as [-> | ->]; reflexivity.
      * rewrite (wraps_small _ x), wraps_small by (unfold in_s; fold h; lia). reflexivity.
    + destruct (Z.leb_spec (- h) (- x)), (Z.ltb_spec (- x) h); try lia; reflexivity.
Qed.

Lemma decode_big_u_spec w sign ds m s index :
  w = 4 \/ w = 8 -> byte_ok sign -> bytes_ok ds -> holds m s (sign :: ds) ->
  decode_big_u w m (zlen ds) s index
  = if (sign =? 0) && (le_val ds <? 2 ^ (8 * w)) then DOk (le_val ds) (s + 1 + zlen ds)
    else DErr index.
Proof.
  intros Hw Hs Hds Hh. unfold decode_big_u.
  apply get8_holds in Hh as [-> Hh]; [|exact Hs].
  destruct (sign =? 0); cbn [negb andb]; [|reflexivity].
  unfold zlen at 1. rewrite Nat2Z.id.
  rewrite get_digits_spec; [|done|done|lia|simpl; lia].
  rewrite Z.pow_0_r, Z.mul_1_l, Z.add_0_l, pow_256 by lia. reflexivity.
Qed.

(** The shape all five decoders share: a direct value, a 32-bit value handled
    by [k32], or a big integer of [arity] digit bytes handled by [kbig]. *)
Definition int_dispatch (k32 kbig : Z -> Z -> dres Z) (m : mem) (index : Z) : dres Z :=
  let? (tag, s) := get8 m index in
  if tag =? ERL_SMALL_INTEGER_EXT then let? (n, s) := get8 m s in DOk n s
  else if tag =? ERL_INTEGER_EXT then let? (n, s) := get32be m s in k32 n s
  else if tag =? ERL_SMALL_BIG_EXT then let? (arity, s) := get8 m s in kbig arity s
  else if tag =? ERL_LARGE_BIG_EXT then let? (arity, s) := get32be m s in kbig arity s
  else DErr index.

Lemma int_dispatch_spec k32 kbig e m s :
  int_ext_ok e -> holds m s (int_ext_bytes e) ->
  match e with
  | SmallInt n => int_dispatch k32 kbig m s = DOk n (s + zlen (int_ext_bytes e))
  | Int32 n => int_dispatch k32 kbig m s = k32 n (s + zlen (int_ext_bytes e))
  | SmallBig sign ds | LargeBig sign ds =>
      exists t, int_dispatch k32 kbig m s = kbig (zlen ds) t /\
        holds m t (sign :: ds) /\ s + zlen (int_ext_bytes e) = t + 1 + zlen ds
  end.
Proof.
  intros Hok Hh. unfold int_dispatch.
  destruct e as [n|n|sign ds|sign ds]; cbn [int_ext_bytes int_ext_val app] in *;
    (apply get8_holds in Hh as [-> Hh]; [|split; vm_compute; congruence]); closed_tests.
  - apply get8_holds in Hh as [-> _]; [|exact Hok]. f_equal; zlen_lia.
  - rewrite <- (app_nil_r (be_bytes 4 n)) in Hh. apply get32be_holds in Hh as [-> _].
    rewrite wraps_small by (exact Hok || lia). f_equal; zlen_lia.
  - destruct Hok as (Hs & Hds & Hl).
    apply get8_holds in Hh as [-> Hh]; [|unfold byte_ok; zlen_lia].
    eexists. split; [reflexivity|]. split; [exact Hh|zlen_lia].
  - destruct Hok as (Hs & Hds & Hl). apply get32be_holds in Hh as [-> Hh].
    rewrite wraps_small by (unfold in_s; zlen_lia).
    eexists. split; [reflexivity|]. split; [exact Hh|zlen_lia].
Qed.

Lemma int_ext_parts e : int_ext_ok e ->
  match e with
  | SmallBig sign ds | LargeBig sign ds => byte_ok sign /\ bytes_ok ds
  | _ => True end.
Proof. destruct e; simpl; tauto. Qed.

Definition in_range (lo hi v : Z) : bool := (lo <=? v) && (v <=? hi).

Lemma in_range_ltb lo hi v : (lo <=? v) && (v <? hi) = in_range lo (hi - 1) v.
Proof. apply eq_true_iff_eq. unfold in_range. rewrite !andb_true_iff, !Z.leb_le, Z.ltb_lt. lia. Qed.

Lemma in_range_true lo hi v : lo <= v <= hi -> in_range lo hi v = true.
Proof. intros. unfold in_range. rewrite andb_true_iff, !Z.leb_le. lia. Qed.

Lemma in_range_iff lo hi v : in_range lo hi v = true <-> lo <= v <= hi.
Proof. unfold in_range. rewrite andb_true_iff, !Z.leb_le. lia. Qed.

(** A decoder over [w]-byte signed integers accepts an integer of the external
    format exactly when its value fits in the type. *)
Lemma signed_decoder_spec w e m s :
  w = 4 \/ w = 8 -> int_ext_ok e -> holds m s (int_ext_bytes e) ->
  int_dispatch (fun n s => DOk n s) (fun arity s' => decode_big_s w m arity s' s) m s
  = if in_range (- 2 ^ (8 * w - 1)) (2 ^ (8 * w - 1) - 1) (int_ext_val e)
    then DOk (int_ext_val e) (s + zlen (int_ext_bytes e)) else DErr s.
Proof.
  intros Hw Hok Hh.
  pose proof (int_dispatch_spec (fun n s => DOk n s) (fun arity s' => decode_big_s w m arity s' s)
                e m s Hok Hh) as Hd.
  pose proof (int_ext_parts e Hok) as Hp.
  assert (2 ^ 31 <= 2 ^ (8 * w - 1)) by (destruct Hw as [-> | ->]; vm_compute; congruence).
  destruct e as [n|n|sign ds|sign ds]; cbn [int_ext_val].
  - rewrite Hd, in_range_true by (cbn in Hok; unfold byte_ok in Hok; lia). reflexivity.
  - rewrite Hd, in_range_true by (cbn in Hok; unfold in_s in Hok; lia). reflexivity.
  - destruct Hd as (t & -> & Ht & ->). rewrite (decode_big_s_spec w sign) by tauto.
    cbn zeta. rewrite in_range_ltb. reflexivity.
  - destruct Hd as (t & -> & Ht & ->). rewrite (decode_big_s_spec w sign) by tauto.
    cbn zeta. rewrite in_range_ltb. reflexivity.
Qed.

(** Over [w]-byte unsigned integers, it accepts it exactly when the sign byte
    is 0 and the value fits. *)
Lemma unsigned_decoder_spec w e m s :
  w = 4 \/ w = 8 -> int_ext_ok e -> holds m s (int_ext_bytes e) ->
  int_dispatch (fun n s' => if n <? 0 then DErr s else DOk n s')
    (fun arity s' => decode_big_u w m arity s' s) m s
  = if (int_ext_sign e =? 0) && in_range 0 (2 ^ (8 * w) - 1) (int_ext_val e)
    then DOk (int_ext_val e) (s + zlen (int_ext_bytes e)) else DErr s.
Proof.
  intros Hw Hok Hh.
  pose proof (int_dispatch_spec (fun n s' => if n <? 0 then DErr s else DOk n s')
                (fun arity s' => decode_big_u w m arity s' s) e m s Hok Hh) as Hd.
  pose proof (int_ext_parts e Hok) as Hp.
  assert (2 ^ 32 <= 2 ^ (8 * w)) by (destruct Hw as [-> | ->]; vm_compute; congruence).
  destruct e as [n|n|sign ds|sign ds]; cbn [int_ext_val int_ext_sign].
  - rewrite Hd, in_range_true by (cbn in Hok; unfold byte_ok in Hok; lia). reflexivity.
  - rewrite Hd. cbn in Hok. unfold in_s in Hok. cbn [Z.eqb andb].
    destruct (Z.ltb_spec n 0).
    + destruct (in_range 0 (2 ^ (8 * w) - 1) n) eqn:E; [|reflexivity].
      apply in_range_iff in E. lia.
    + rewrite in_range_true by lia. reflexivity.
  - destruct Hd as (t & -> & Ht & ->). destruct Hp as [Hs Hds].
    rewrite (decode_big_u_spec w sign) by auto. pose proof (le_val_nonneg ds Hds).
    destruct (Z.eqb_spec sign 0); cbn [andb]; [|reflexivity].
    rewrite <- in_range_ltb. destruct (Z.leb_spec 0 (le_val ds)); [reflexivity|lia].
  - destruct Hd as (t & -> & Ht & ->). destruct Hp as [Hs Hds].
    rewrite (decode_big_u_spec w sign) by auto. pose proof (le_val_nonneg ds Hds).
    destruct (Z.eqb_spec sign 0); cbn [andb]; [|reflexivity].
    rewrite <- in_range_ltb. destruct (Z.leb_spec 0 (le_val ds)); [reflexivity|lia].
Qed.

(** The encoders produce integers of the external format. *)
Definition big64_ext (up sign : Z) : int_ext := SmallBig sign (digit_bytes 8 up).

Definition longlong_ext (p : Z) : int_ext :=
  if (p <? 256) && (0 <=? p) then SmallInt p
  else if (p <=? ERL_MAX) && (ERL_MIN <=? p) then Int32 p
  else big64_ext (wrapu 64 (abs_w 64 p)) (if p <? 0 then 1 else 0).

Definition ulonglong_ext (p : Z) : int_ext :=
  if p <? 256 then SmallInt p else if p <=? ERL_MAX then Int32 p else big64_ext p 0.

Definition long_ext_32 (p : Z) : int_ext :=
  if (p <? 256) && (0 <=? p) then SmallInt p
  else if (p <=? ERL_MAX) && (ERL_MIN <=? p) then Int32 p
  else SmallBig (if p <? 0 then 1 else 0) (le_bytes 4 (abs_w 32 p)).

Definition ulong_ext_32 (p : Z) : int_ext :=
  if ERL_MAX <? p then SmallBig 0 (le_bytes 4 p)
  else if (p <? 256) && (0 <=? p) then SmallInt p else Int32 p.

(** [e] is an encoding of [p]: its bytes are [bs] and its value is [p]. *)
Definition ext_of (bs : list Z) (p : Z) (e : int_ext) : Prop :=
  int_ext_bytes e = bs /\ int_ext_val e = p /\ int_ext_ok e.

Lemma small_ext_of p : byte_ok p -> ext_of (small_bytes p) p (SmallInt p).
Proof. intros H. unfold ext_of, small_bytes. cbn. rewrite land_255_small by exact H. auto. Qed.

Lemma int32_ext_of p : ERL_MIN <= p <= ERL_MAX -> ext_of (int32_bytes p) p (Int32 p).
Proof. unfold ERL_MIN, ERL_MAX. intros H. unfold ext_of. cbn. unfold in_s. repeat split; lia. Qed.

Lemma big64_ext_of p up sign :
  byte_ok sign -> 0 <= up < 2 ^ 64 -> p = (if sign =? 0 then up else - up) ->
  ext_of (big64_bytes up sign) p (big64_ext up sign).
Proof.
  intros Hs Hu ->. unfold ext_of, big64_bytes, big64_ext. cbn [int_ext_bytes int_ext_val int_ext_ok].
  rewrite digit_bytes_val by (change (256 ^ Z.of_nat 8) with (2 ^ 64); exact Hu).
  rewrite land_255_small by exact Hs. pose proof (digit_bytes_length 8 up).
  repeat split; try apply Hs; [apply digit_bytes_ok|unfold zlen; lia].
Qed.

Lemma big32_ext_of p up sign :
  byte_ok sign -> in_u 32 (wrapu 32 up) -> p = (if sign =? 0 then wrapu 32 up else - wrapu 32 up) ->
  ext_of (big32_bytes up sign) p (SmallBig sign (le_bytes 4 up)).
Proof.
  intros Hs Hu ->. unfold ext_of. cbn [int_ext_bytes int_ext_val int_ext_ok].
  rewrite le_val_bytes. split; [reflexivity|]. split; [reflexivity|].
  split; [exact Hs|]. split; [apply le_bytes_ok|]. rewrite zlen_le_bytes. lia.
Qed.

Lemma abs_w_val w p : 1 < w -> in_s w p -> wrapu w (abs_w w p) = Z.abs p.
Proof.
  intros Hw [H1 H2]. unfold abs_w. pose proof (pow2_half w ltac:(lia)) as Hp.
  destruct (Z.ltb_spec p 0).
  - rewrite wrapu_wraps by lia. rewrite wrapu_small by (unfold in_u; lia). lia.
  - rewrite wrapu_small by (unfold in_u; lia). lia.
Qed.

Ltac ext_cases :=
  repeat match goal with
  | |- context [?a <? ?b] => destruct (Z.ltb_spec a b)
  | |- context [?a <=? ?b] => destruct (Z.leb_spec a b)
  end; cbn [andb].

Lemma longlong_ext_of p : in_s 64 p -> ext_of (longlong_bytes p) p (longlong_ext p).
Proof.
  intros Hp. unfold longlong_bytes, longlong_ext. rewrite abs_w_val by (lia || exact Hp).
  unfold in_s in Hp. ext_cases;
    first [ apply small_ext_of; unfold byte_ok; lia
          | apply int32_ext_of; lia
          | apply big64_ext_of; [unfold byte_ok; lia|lia|cbn; lia] ].
Qed.

Lemma ulonglong_ext_of p : in_u 64 p -> ext_of (ulonglong_bytes p) p (ulonglong_ext p).
Proof.
  intros Hp. unfold ulonglong_bytes, ulonglong_ext. unfold in_u in Hp. ext_cases;
    first [ apply small_ext_of; unfold byte_ok; lia
          | apply int32_ext_of; unfold ERL_MIN; lia
          | apply big64_ext_of; [unfold byte_ok; lia|lia|cbn; lia] ].
Qed.

Lemma long_ext_32_of p : in_s 32 p -> ext_of (long_bytes_32 p) p (long_ext_32 p).
Proof.
  intros Hp. unfold long_bytes_32, long_ext_32. pose proof (abs_w_val 32 p ltac:(lia) Hp) as Ha.
  unfold in_s in Hp. ext_cases;
    first [ apply small_ext_of; unfold byte_ok; lia
          | apply int32_ext_of; lia
          | apply big32_ext_of; [unfold byte_ok; lia|apply wrapu_range; lia|rewrite Ha; cbn; lia] ].
Qed.

Lemma ulong_ext_32_of p : in_u 32 p -> ext_of (ulong_bytes_32 p) p (ulong_ext_32 p).
Proof.
  intros Hp. unfold ulong_bytes_32, ulong_ext_32.
  pose proof (wrapu_small 32 p Hp) as Ha. unfold in_u in Hp. ext_cases;
    first [ apply small_ext_of; unfold byte_ok; lia
          | apply int32_ext_of; unfold ERL_MIN; lia
          | apply big32_ext_of; [unfold byte_ok; lia|apply wrapu_range; lia|rewrite Ha; cbn; lia]
          | unfold ERL_MAX in *; lia ].
Qed.

Lemma longlong_ext_sign p : 0 <= p -> int_ext_sign (longlong_ext p) = 0.
Proof.
  unfold in_s, longlong_ext, ERL_MIN, ERL_MAX. intros Hp.
  ext_cases; cbn [int_ext_sign big64_ext]; lia.
Qed.

(** The decoders are instances of the dispatch. *)
Lemma ei_decode_longlong_dispatch m s : ei_decode_longlong m s
  = int_dispatch (fun n s => DOk n s) (fun arity s' => decode_big_s 8 m arity s' s) m s.
Proof. reflexivity. Qed.
Lemma ei_decode_long_32_dispatch m s : ei_decode_long_32 m s
  = int_dispatch (fun n s => DOk n s) (fun arity s' => decode_big_s 4 m arity s' s) m s.
Proof. reflexivity. Qed.
Lemma ei_decode_ulonglong_dispatch m s : ei_decode_ulonglong m s
  = int_dispatch (fun n s' => if n <? 0 then DErr s else DOk n s')
      (fun arity s' => decode_big_u 8 m arity s' s) m s.
Proof. reflexivity. Qed.
Lemma ei_decode_ulong_32_dispatch m s : ei_decode_ulong_32 m s
  = int_dispatch (fun n s' => if n <? 0 then DErr s else DOk n s')
      (fun arity s' => decode_big_u 4 m arity s' s) m s.
Proof. reflexivity. Qed.

Lemma ei_decode_longlong_decodes p : in_s 64 p -> Decodes ei_decode_longlong (longlong_bytes p) p.
Proof.
  intros Hp m s Hh. destruct (longlong_ext_of p Hp) as (Hb & Hv & Hok). rewrite <- Hb in Hh |- *.
  rewrite ei_decode_longlong_dispatch, (signed_decoder_spec 8 (longlong_ext p)) by auto.
  rewrite Hv, in_range_true; [reflexivity|]. unfold in_s in Hp. lia.
Qed.

Lemma ei_decode_long_decodes p : in_s 64 p -> Decodes ei_decode_long (longlong_bytes p) p.
Proof. exact (ei_decode_longlong_decodes p). Qed.

(** The decoders of this file and the value each of them can represent. *)
Lemma ei_decode_ulonglong_decodes p :
  in_u 64 p -> Decodes ei_decode_ulonglong (ulonglong_bytes p) p.
Proof.
  intros Hp m s Hh. destruct (ulonglong_ext_of p Hp) as (Hb & Hv & Hok).
  assert (int_ext_sign (ulonglong_ext p) = 0) as Hs.
  { unfold ulonglong_ext. destruct (p <? 256); [done|]. by destruct (p <=? ERL_MAX). }
  rewrite <- Hb in Hh |- *.
  rewrite ei_decode_ulonglong_dispatch, (unsigned_decoder_spec 8 (ulonglong_ext p)) by auto.
  unfold in_u in Hp. rewrite Hv, Hs, in_range_true by lia. reflexivity.
Qed.

Lemma zero_bytes_spec ds m s index :
  bytes_ok ds -> holds m s ds ->
  zero_bytes (length ds) m s index = if le_val ds =? 0 then DOk tt (s + zlen ds) else DErr index.
Proof.
  intros Hok. revert m s. induction Hok as [|b ds Hb Hds IH]; intros m s Hh.
  - cbn. rewrite Z.add_0_r. reflexivity.
  - cbn [length zero_bytes le_val]. apply get8_holds in Hh as [-> Hh]; [|exact Hb].
    pose proof (le_val_nonneg ds Hds). unfold byte_ok in Hb.
    destruct (Z.eqb_spec b 0) as [->|Hne].
    + rewrite IH by done. rewrite zlen_cons, Z.add_assoc.
      destruct (Z.eqb_spec (le_val ds) 0), (Z.eqb_spec (0 + 256 * le_val ds) 0);
        (reflexivity || lia).
    + destruct (Z.eqb_spec (b + 256 * le_val ds) 0); [lia|reflexivity].
Qed.

Lemma decode_big_char_spec sign b ds m s index :
  byte_ok sign -> bytes_ok (b :: ds) -> holds m s (sign :: b :: ds) ->
  decode_big_char m (zlen (b :: ds)) s index
  = if (sign =? 0) && (le_val (b :: ds) <? 256)
    then DOk (le_val (b :: ds)) (s + 1 + zlen (b :: ds)) else DErr index.
Proof.
  intros Hs Hds Hh. inversion Hds as [|? ? Hb Hds']; subst. unfold decode_big_char.
  apply get8_holds in Hh as [-> Hh]; [|exact Hs].
  destruct (sign =? 0); cbn [negb andb]; [|reflexivity].
  apply get8_holds in Hh as [-> Hh]; [|exact Hb].
  replace (Z.to_nat (zlen (b :: ds) - 1)) with (length ds) by (unfold zlen; cbn [length]; lia).
  rewrite zero_bytes_spec by done. pose proof (le_val_nonneg ds Hds').
  cbn [le_val]. unfold byte_ok in Hb.
  destruct (Z.eqb_spec (le_val ds) 0), (Z.ltb_spec (b + 256 * le_val ds) 256); try lia.
  - f_equal; [lia|]. rewrite zlen_cons. lia.
  - reflexivity.
Qed.

(** ** Properties *)

(** Whatever integer of the external format the buffer holds (direct,
    32-bit, small or large big), [ei_decode_longlong] returns its mathematical
    value and moves [*index] right after it when the value fits in a signed
    64-bit integer, and returns -1 with [*index] unchanged otherwise. *)
Theorem ei_decode_longlong_exact e m s :
  int_ext_ok e -> holds m s (int_ext_bytes e) ->
  ei_decode_longlong m s
  = if in_range (- 2 ^ 63) (2 ^ 63 - 1) (int_ext_val e)
    then DOk (int_ext_val e) (s + zlen (int_ext_bytes e)) else DErr s.
Proof.
  intros. rewrite ei_decode_longlong_dispatch. apply (signed_decoder_spec 8); auto.
Qed.

Lemma ei_decode_longlong_exact_witness :
  ei_decode_longlong [7; 110; 8; 1; 0; 0; 0; 0; 0; 0; 0; 128; 9] 1 = DOk (- 2 ^ 63) 12 /\
  ei_decode_longlong [110; 8; 0; 0; 0; 0; 0; 0; 0; 0; 128] 0 = DErr 0.
Proof.
  split.
  - refine (ei_decode_longlong_exact (SmallBig 1 [0; 0; 0; 0; 0; 0; 0; 128]) _ 1 _ _).
    + cbn. unfold byte_ok. repeat constructor; lia.
    + exact (holds_intro [7] (int_ext_bytes (SmallBig 1 [0; 0; 0; 0; 0; 0; 0; 128])) [9]).
  - refine (ei_decode_longlong_exact (SmallBig 0 [0; 0; 0; 0; 0; 0; 0; 128]) _ 0 _ _).
    + cbn. unfold byte_ok. repeat constructor; lia.
    + exact (holds_intro [] (int_ext_bytes (SmallBig 0 [0; 0; 0; 0; 0; 0; 0; 128])) []).
Defined.

(** [ei_decode_ulonglong] accepts an integer of the external format exactly
    when its sign byte is 0 and its value fits in 64 unsigned bits; negative
    and too large values are refused with [*index] unchanged. *)
Theorem ei_decode_ulonglong_exact e m s :
  int_ext_ok e -> holds m s (int_ext_bytes e) ->
  ei_decode_ulonglong m s
  = if (int_ext_sign e =? 0) && in_range 0 (2 ^ 64 - 1) (int_ext_val e)
    then DOk (int_ext_val e) (s + zlen (int_ext_bytes e)) else DErr s.
Proof.
  intros. rewrite ei_decode_ulonglong_dispatch. apply (unsigned_decoder_spec 8); auto.
Qed.

Lemma ei_decode_ulonglong_exact_witness :
  ei_decode_ulonglong [98; 255; 255; 255; 255] 0 = DErr 0.
Proof.
  refine (ei_decode_ulonglong_exact (Int32 (-1)) _ 0 _ _).
  - cbn. unfold in_s. lia.
  - exact (holds_intro [] (int_ext_bytes (Int32 (-1))) []).
Defined.

(** Every signed 64-bit integer written by [ei_encode_longlong] at any
    position of any buffer with room for it is read back by
    [ei_decode_longlong]; the size-probing call, the writing call and the
    decoder agree on [*index], and nothing else in the buffer changes. *)
Theorem longlong_roundtrip p :
  in_s 64 p -> RoundTrip (fun b i => ei_encode_longlong b i p) ei_decode_longlong p.
Proof.
  intros Hp. exact (emits_roundtrip _ _ _ _ (ei_encode_longlong_emits p) (ei_decode_longlong_decodes p Hp)).
Qed.

Lemma longlong_roundtrip_witness :
  RoundTrip (fun b i => ei_encode_longlong b i (- 2 ^ 63)) ei_decode_longlong (- 2 ^ 63).
Proof. apply longlong_roundtrip. unfold in_s; lia. Defined.

(** A [long] sent by a node built with 32-bit longs is read by a 64-bit
    node as the same number, and a 64-bit [long] is read by a 32-bit node as
    the same number when it fits in 32 bits and refused otherwise. *)
Theorem long_interoperates p :
  (in_s 32 p -> Decodes ei_decode_long (long_bytes_32 p) p) /\
  (in_s 64 p -> forall m s, holds m s (longlong_bytes p) ->
     ei_decode_long_32 m s
     = if in_range (- 2 ^ 31) (2 ^ 31 - 1) p
       then DOk p (s + zlen (longlong_bytes p)) else DErr s).
Proof.
  split.
  - intros Hp m s Hh. destruct (long_ext_32_of p Hp) as (Hb & Hv & Hok).
    rewrite <- Hb in Hh |- *. unfold ei_decode_long.
    rewrite ei_decode_longlong_dispatch, (signed_decoder_spec 8 (long_ext_32 p)) by auto.
    unfold in_s in Hp. rewrite Hv, in_range_true by lia. reflexivity.
  - intros Hp m s Hh. destruct (longlong_ext_of p Hp) as (Hb & Hv & Hok).
    rewrite <- Hb in Hh |- *.
    rewrite ei_decode_long_32_dispatch, (signed_decoder_spec 4 (longlong_ext p)) by auto.
    rewrite Hv. reflexivity.
Qed.

Lemma long_interoperates_witness :
  ei_decode_long [110; 4; 1; 0; 0; 0; 128] 0 = DOk (- 2 ^ 31) 7 /\
  ei_decode_long_32 [110; 4; 0; 0; 0; 0; 128] 0 = DErr 0.
Proof.
  split.
  - refine (proj1 (long_interoperates (- 2 ^ 31)) _ _ 0 _); [unfold in_s; lia|].
    exact (holds_intro [] (long_bytes_32 (- 2 ^ 31)) []).
  - refine (proj2 (long_interoperates (2 ^ 31)) _ _ 0 _); [unfold in_s; lia|].
    exact (holds_intro [] (longlong_bytes (2 ^ 31)) []).
Defined.
