(* ===== verification/EiAtom.v ===== *)
(** * Atoms: [encode_atom.c] and [decode_atom.c]

    The Latin-1 / UTF-8 conversions with their word-at-a-time ASCII fast track,
    the checks on atom names, and the atom encoders and decoders. *)
From S2P Require Import Prelude PutGet EiTypes.

(** ** Conversions ([decode_atom.c]) *)

(** [ASCII_CHECK_MASK] for 8-byte words. *)
Definition ASCII_CHECK_MASK : Z := 0x8080808080808080.

(** The word loop of [ascii_fast_track]: the number of leading bytes, in whole
    8-byte words, that it copies. *)
Fixpoint ascii_words (src : list Z) : nat :=
  match src with
  | b0 :: b1 :: b2 :: b3 :: b4 :: b5 :: b6 :: b7 :: rest =>
      if Z.land (le_val [b0; b1; b2; b3; b4; b5; b6; b7]) ASCII_CHECK_MASK =? 0
      then (8 + ascii_words rest)%nat else O
  | _ => O
  end.

Definition ascii_fast_track (src : list Z) (destlen : Z) : nat :=
  if destlen <? zlen src then O else ascii_words src.

(** The byte loops.  [k] is [dst - dst_start]; the result is the bytes written
    from there on and [found_non_ascii], or [None] for [return -1]. *)
Fixpoint utf8_to_latin1_loop (src : list Z) (k destlen : Z) : option (list Z * bool) :=
  match src with
  | [] => Some ([], false)
  | c :: src1 =>
      if destlen <=? k then None
      else if Z.land c 0x80 =? 0 then
        match utf8_to_latin1_loop src1 (k + 1) destlen with
        | Some (o, f) => Some (c :: o, f) | None => None end
      else match src1 with
        | c1 :: src2 =>
            if (Z.land c 0xFE =? 0xC2) && (Z.land c1 0xC0 =? 0x80) then
              match utf8_to_latin1_loop src2 (k + 1) destlen with
              | Some (o, f) => Some (Z.land (Z.lor (Z.shiftl c 6) (Z.land c1 0x3F)) 255 :: o, true)
              | None => None end
            else None
        | [] => None
        end
  end.

Fixpoint latin1_to_utf8_loop (src : list Z) (k destlen : Z) : option (list Z * bool) :=
  match src with
  | [] => Some ([], false)
  | c :: src1 =>
      if destlen <=? k then None
      else if Z.land c 0x80 =? 0 then
        match latin1_to_utf8_loop src1 (k + 1) destlen with
        | Some (o, f) => Some (c :: o, f) | None => None end
      else
        match latin1_to_utf8_loop src1 (k + 2) destlen with
        | Some (o, f) => Some (Z.lor 0xC0 (Z.shiftr c 6) :: Z.lor 0x80 (Z.land c 0x3F) :: o, true)
        | None => None end
  end.

(** The whole functions, as compiled with [HAVE_UNALIGNED_WORD_ACCESS]. *)
Definition utf8_to_latin1 (src : list Z) (destlen : Z) : option (list Z * bool) :=
  let aft := ascii_fast_track src destlen in
  match utf8_to_latin1_loop (drop aft src) (Z.of_nat aft) destlen with
  | Some (o, f) => Some (take aft src ++ o, f)
  | None => None
  end.

Definition latin1_to_utf8 (src : list Z) (destlen : Z) : option (list Z * bool) :=
  let aft := ascii_fast_track src destlen in
  match latin1_to_utf8_loop (drop aft src) (Z.of_nat aft) destlen with
  | Some (o, f) => Some (take aft src ++ o, f)
  | None => None
  end.

(** ** Encoding ([encode_atom.c]) *)

Definition verify_ascii_atom (src : list Z) : bool :=
  forallb (fun c => Z.land c 0x80 =? 0) src.

Fixpoint verify_utf8_loop (src : list Z) (num_chars : Z) : bool :=
  match src with
  | [] => true
  | c0 :: r0 =>
      let num_chars := num_chars + 1 in
      if MAXATOMLEN <=? num_chars then false
      else if Z.land c0 0x80 =? 0 then verify_utf8_loop r0 num_chars
      else if Z.land c0 0xE0 =? 0xC0 then
        match r0 with
        | c1 :: r1 => if Z.land c1 0xC0 =? 0x80 then verify_utf8_loop r1 num_chars else false
        | _ => false
        end
      else if Z.land c0 0xF0 =? 0xE0 then
        match r0 with
        | c1 :: c2 :: r2 =>
            if (Z.land c1 0xC0 =? 0x80) && (Z.land c2 0xC0 =? 0x80)
            then verify_utf8_loop r2 num_chars else false
        | _ => false
        end
      else if Z.land c0 0xF8 =? 0xF0 then
        match r0 with
        | c1 :: c2 :: c3 :: r3 =>
            if (Z.land c1 0xC0 =? 0x80) && (Z.land c2 0xC0 =? 0x80) && (Z.land c3 0xC0 =? 0x80)
            then verify_utf8_loop r3 num_chars else false
        | _ => false
        end
      else false
  end.

Definition verify_utf8_atom (src : list Z) : bool := verify_utf8_loop src 0.

(** The end of [ei_encode_atom_len_as]: the name is already at [s+offs], the
    header goes in front of it. *)
Definition put_atom_at (buf : option mem) (index offs : Z) (len : Z) (name : list Z) : eres :=
  match buf with
  | Some m =>
      let! (m, _e) := put_bytes m (index + offs) name in
      if offs =? 2 then
        let! (m, s) := put8 m index ERL_SMALL_ATOM_UTF8_EXT in
        let! (m, s) := put8 m s len in
        EOk (Some m) (s + len)
      else
        let! (m, s) := put8 m index ERL_ATOM_UTF8_EXT in
        let! (m, s) := put16be m s len in
        EOk (Some m) (s + len)
  | None => EOk None (index + offs + len)
  end.

(** [p] is the memory the name is read from; a [len] that does not fit in it is
    a read out of bounds. *)
Definition ei_encode_atom_len_as (buf : option mem) (index : Z) (p : list Z) (len from_enc to_enc : Z)
  : eres :=
  if (MAXATOMLEN <=? len) && negb (Z.land from_enc (Z.lor ERLANG_LATIN1 ERLANG_ASCII) =? 0)
  then EErr index
  else match slice p 0 len with
  | None => EOob
  | Some src =>
      if from_enc =? ERLANG_LATIN1 then
        let offs := if 256 / 2 <=? len then 3 else 2 in
        match latin1_to_utf8 src (MAXATOMLEN_UTF8 - 1) with
        | Some (o, _) => put_atom_at buf index offs (zlen o) o
        | None => put_atom_at buf index offs (-1) []
        end
      else if from_enc =? ERLANG_ASCII then
        if verify_ascii_atom src then put_atom_at buf index 2 len src else EErr index
      else if from_enc =? ERLANG_UTF8 then
        let offs := if 256 <=? len then 3 else 2 in
        if verify_utf8_atom src then put_atom_at buf index offs len src else EErr index
      else EErr index
  end.

(** In the functions that take a C string, [p] is the bytes before its NUL, so
    [strlen(p)] is their number. *)
Definition ei_encode_atom (buf : option mem) (index : Z) (p : list Z) : eres :=
  let len := if MAXATOMLEN <=? zlen p then MAXATOMLEN - 1 else zlen p in
  ei_encode_atom_len_as buf index p len ERLANG_LATIN1 0.

Definition ei_encode_atom_len (buf : option mem) (index : Z) (p : list Z) (len : Z) : eres :=
  let len := if MAXATOMLEN <=? len then MAXATOMLEN - 1 else len in
  ei_encode_atom_len_as buf index p len ERLANG_LATIN1 0.

Definition ei_encode_atom_as (buf : option mem) (index : Z) (p : list Z) (from_enc to_enc : Z) : eres :=
  ei_encode_atom_len_as buf index p (zlen p) from_enc to_enc.

Definition ei_internal_put_atom (buf : option mem) (s : Z) (p : list Z) (slen to_enc : Z) : eres :=
  ei_encode_atom_len_as buf s p slen ERLANG_UTF8 to_enc.

(** ** Decoding *)

(** What [ei_decode_atom_as] writes through its out-parameters: the bytes of
    [p] before the NUL it adds, [*was_encp] and [*res_encp]. *)
Record atom_out := { at_name : list Z; at_was : Z; at_res : Z }.

(** The tag and length; the cursor is then at the first byte of the name. *)
Definition atom_header (m : mem) (index : Z) : dres (Z * Z) :=
  let? (tag, s) := get8 m index in
  if tag =? ERL_ATOM_EXT then
    let? (len, s) := get16be m s in DOk (len, ERLANG_LATIN1) s
  else if tag =? ERL_SMALL_ATOM_EXT then
    let? (len, s) := get8 m s in DOk (len, ERLANG_LATIN1) s
  else if tag =? ERL_ATOM_UTF8_EXT then
    let? (len, s) := get16be m s in DOk (len, ERLANG_UTF8) s
  else if tag =? ERL_SMALL_ATOM_UTF8_EXT then
    let? (len, s) := get8 m s in DOk (len, ERLANG_UTF8) s
  else DErr index.

Definition non_ascii (c : Z) : bool := negb (Z.land c 0x80 =? 0).

(** A name whose length field reaches outside of the buffer counts as a read
    out of bounds as a whole. *)
Definition ei_decode_atom_as (m : mem) (index destlen want_enc : Z) : dres atom_out :=
  call? (hd, s) := atom_header m index fails j => DErr j in
  let '(len, got_enc) := hd in
  if negb (Z.land want_enc got_enc =? 0) || (want_enc =? ERLANG_ASCII) then
    if destlen <=? len then DErr index else
    slice? src := slice m s len in
    let found_non_ascii := existsb non_ascii src in
    if (want_enc =? ERLANG_ASCII) && found_non_ascii then DErr index
    else DOk {| at_name := src; at_was := got_enc;
                at_res := if found_non_ascii then got_enc else ERLANG_ASCII |} (s + len)
  else
    slice? src := slice m s len in
    match (if got_enc =? ERLANG_LATIN1 then latin1_to_utf8 src (destlen - 1)
           else utf8_to_latin1 src (destlen - 1)) with
    | None => DErr index
    | Some (o, f) =>
        DOk {| at_name := o; at_was := got_enc;
               at_res := if f then (if got_enc =? ERLANG_LATIN1 then ERLANG_UTF8 else ERLANG_LATIN1)
                         else ERLANG_ASCII |} (s + len)
    end.

Definition ei_decode_atom (m : mem) (index : Z) : dres atom_out :=
  ei_decode_atom_as m index MAXATOMLEN ERLANG_LATIN1.

Definition ei_internal_get_atom (m : mem) (s : Z) : dres atom_out :=
  ei_decode_atom_as m s MAXATOMLEN_UTF8 ERLANG_UTF8.

(** ** The fast track changes nothing *)

Lemma ascii_bit c : byte_ok c -> (Z.land c 0x80 =? 0) = (c <? 128).
Proof.
  intros H. apply eqb_prop. revert c H. 
  apply (byte_forall (fun c => Bool.eqb (Z.land c 128 =? 0) (c <? 128))). vm_compute. reflexivity.
Qed.

Definition is_ascii (c : Z) : Prop := Z.land c 0x80 = 0.

Lemma mask_zero l k :
  bytes_ok l -> length l = k -> Z.land (le_val l) (le_val (replicate k 0x80)) = 0 ->
  Forall is_ascii l.
Proof.
  intros H. revert k. induction H as [|b l Hb Hl IH]; intros k Hk E; [constructor|].
  destruct k; [discriminate|]. cbn [replicate le_val] in E.
  rewrite land_cons in E by (exact Hb || (unfold byte_ok; lia)).
  assert (0 <= Z.land (le_val l) (le_val (replicate k 128))).
  { apply Z.land_nonneg. left. apply le_val_range in Hl. lia. }
  assert (0 <= Z.land b 128) by (apply Z.land_nonneg; unfold byte_ok in Hb; lia).
  constructor; [unfold is_ascii; lia|]. apply (IH k); [by injection Hk|lia].
Qed.

Lemma ascii_words_spec src :
  bytes_ok src -> (ascii_words src <= length src)%nat /\ Forall is_ascii (take (ascii_words src) src).
Proof.
  induction src as [src IH] using (induction_ltof1 _ (@length Z)). unfold ltof in IH. intros Hok.
  destruct src as [|b0 [|b1 [|b2 [|b3 [|b4 [|b5 [|b6 [|b7 rest]]]]]]]]; cbn [ascii_words take length];
    try (split; [lia|constructor]).
  destruct (Z.eqb_spec (Z.land (le_val [b0; b1; b2; b3; b4; b5; b6; b7]) ASCII_CHECK_MASK) 0) as [E|E];
    [|split; [lia|constructor]].
  rewrite !Forall_cons_iff in Hok. destruct Hok as (O0 & O1 & O2 & O3 & O4 & O5 & O6 & O7 & Hrest).
  destruct (IH rest) as [I1 I2]; [cbn [length]; lia|exact Hrest|]. split; [lia|].
  assert (Forall is_ascii [b0; b1; b2; b3; b4; b5; b6; b7]) as H8.
  { apply (mask_zero _ 8); [by rewrite !Forall_cons_iff|reflexivity|exact E]. }
  rewrite !Forall_cons_iff in H8. destruct H8 as (? & ? & ? & ? & ? & ? & ? & ? & _).
  cbn [Nat.add take]. by rewrite !Forall_cons_iff.
Qed.

Lemma latin1_loop_ascii pre r k destlen :
  Forall is_ascii pre -> k + zlen pre <= destlen ->
  latin1_to_utf8_loop (pre ++ r) k destlen
  = match latin1_to_utf8_loop r (k + zlen pre) destlen with
    | Some (o, f) => Some (pre ++ o, f) | None => None end.
Proof.
  intros H. revert k. induction H as [|c pre Hc Hpre IH]; intros k Hk.
  - cbn [app]. rewrite zlen_nil, Z.add_0_r. by destruct (latin1_to_utf8_loop r k destlen) as [[]|].
  - cbn [app latin1_to_utf8_loop]. rewrite zlen_cons in *.
    destruct (Z.leb_spec destlen k); [zlen_lia|]. unfold is_ascii in Hc. rewrite Hc. cbn.
    rewrite IH by lia. rewrite Z.add_assoc.
    by destruct (latin1_to_utf8_loop r (k + 1 + zlen pre) destlen) as [[]|].
Qed.

Lemma utf8_loop_ascii pre r k destlen :
  Forall is_ascii pre -> k + zlen pre <= destlen ->
  utf8_to_latin1_loop (pre ++ r) k destlen
  = match utf8_to_latin1_loop r (k + zlen pre) destlen with
    | Some (o, f) => Some (pre ++ o, f) | None => None end.
Proof.
  intros H. revert k. induction H as [|c pre Hc Hpre IH]; intros k Hk.
  - cbn [app]. rewrite zlen_nil, Z.add_0_r. by destruct (utf8_to_latin1_loop r k destlen) as [[]|].
  - cbn [app utf8_to_latin1_loop]. rewrite zlen_cons in *.
    destruct (Z.leb_spec destlen k); [zlen_lia|]. unfold is_ascii in Hc. rewrite Hc. cbn.
    rewrite IH by lia. rewrite Z.add_assoc.
    by destruct (utf8_to_latin1_loop r (k + 1 + zlen pre) destlen) as [[]|].
Qed.

Lemma fast_track_prefix src destlen :
  bytes_ok src -> let n := ascii_fast_track src destlen in
  Forall is_ascii (take n src) /\ zlen (take n src) = Z.of_nat n /\
  (n <> O -> Z.of_nat n <= destlen).
Proof.
  intros Hok n. destruct (ascii_words_spec src Hok) as [H1 H2]. subst n. unfold ascii_fast_track, zlen.
  destruct (Z.ltb_spec destlen (Z.of_nat (length src))); cbn iota.
  - repeat split; [constructor|lia].
  - repeat split; [exact H2|rewrite length_take; lia|lia].
Qed.

Lemma latin1_fast_track src destlen :
  bytes_ok src -> latin1_to_utf8 src destlen = latin1_to_utf8_loop src 0 destlen.
Proof.
  intros Hok. unfold latin1_to_utf8.
  destruct (fast_track_prefix src destlen Hok) as (H1 & H2 & H3).
  set (n := ascii_fast_track src destlen) in *. destruct (decide (n = O)) as [->|Hn].
  - rewrite drop_0, take_0. change (Z.of_nat 0) with 0.
    by destruct (latin1_to_utf8_loop src 0 destlen) as [[]|].
  - replace (latin1_to_utf8_loop src 0 destlen) with (latin1_to_utf8_loop (take n src ++ drop n src) 0 destlen)
      by (by rewrite take_drop).
    rewrite latin1_loop_ascii by (done || (rewrite H2; lia)).
    rewrite H2. reflexivity.
Qed.

Lemma utf8_fast_track src destlen :
  bytes_ok src -> utf8_to_latin1 src destlen = utf8_to_latin1_loop src 0 destlen.
Proof.
  intros Hok. unfold utf8_to_latin1.
  destruct (fast_track_prefix src destlen Hok) as (H1 & H2 & H3).
  set (n := ascii_fast_track src destlen) in *. destruct (decide (n = O)) as [->|Hn].
  - rewrite drop_0, take_0. change (Z.of_nat 0) with 0.
    by destruct (utf8_to_latin1_loop src 0 destlen) as [[]|].
  - replace (utf8_to_latin1_loop src 0 destlen) with (utf8_to_latin1_loop (take n src ++ drop n src) 0 destlen)
      by (by rewrite take_drop).
    rewrite utf8_loop_ascii by (done || (rewrite H2; lia)).
    rewrite H2. reflexivity.
Qed.

(** ** Conversion lengths and round trips *)

(** Up to one byte more than [destlen] is written: a two-byte character is
    written whenever one byte is free. *)
Lemma latin1_loop_length src k destlen o f :
  k <= destlen + 1 -> latin1_to_utf8_loop src k destlen = Some (o, f) ->
  k + zlen o <= destlen + 1 /\ zlen src <= zlen o <= 2 * zlen src.
Proof.
  revert k o f. induction src as [|c src IH]; intros k o f Hk E.
  - injection E as <- <-. zlen_lia.
  - cbn [latin1_to_utf8_loop] in E. destruct (Z.leb_spec destlen k); [done|].
    destruct (Z.land c 0x80 =? 0).
    + destruct (latin1_to_utf8_loop src (k + 1) destlen) as [[o' f']|] eqn:E'; [|done].
      injection E as <- <-. apply IH in E'; [|lia]. zlen_lia.
    + destruct (latin1_to_utf8_loop src (k + 2) destlen) as [[o' f']|] eqn:E'; [|done].
      injection E as <- <-. apply IH in E'; [|lia]. zlen_lia.
Qed.

Lemma utf8_loop_length src k d o f :
  k <= d -> utf8_to_latin1_loop src k d = Some (o, f) -> k + zlen o <= d.
Proof.
  revert k o f. induction src as [src IH] using (induction_ltof1 _ (@length Z)). unfold ltof in IH.
  intros k o f Hk. destruct src as [|c r]; [intros [= <- <-]; zlen_lia|].
  cbn [utf8_to_latin1_loop]. destruct (Z.leb_spec d k); [done|].
  destruct (Z.land c 0x80 =? 0).
  - destruct (utf8_to_latin1_loop r (k + 1) d) as [[o' f']|] eqn:E; [|done].
    intros [= <- <-]. apply IH in E; [zlen_lia|cbn; lia|lia].
  - destruct r as [|c1 r]; [done|]. destruct (_ && _); [|done].
    destruct (utf8_to_latin1_loop r (k + 1) d) as [[o' f']|] eqn:E; [|done].
    intros [= <- <-]. apply IH in E; [zlen_lia|cbn; lia|lia].
Qed.

Lemma latin1_loop_fits src k destlen :
  k + 2 * zlen src <= destlen -> exists o f, latin1_to_utf8_loop src k destlen = Some (o, f).
Proof.
  revert k. induction src as [|c src IH]; intros k Hk; [by eexists _, _|].
  cbn [latin1_to_utf8_loop]. rewrite zlen_cons in Hk. pose proof (zlen_nonneg src).
  destruct (Z.leb_spec destlen k); [lia|].
  destruct (Z.land c 0x80 =? 0).
  - destruct (IH (k + 1)) as (o & f & ->); [lia|]. eauto.
  - destruct (IH (k + 2)) as (o & f & ->); [lia|]. eauto.
Qed.

Lemma two_byte_facts c : byte_ok c -> (c <? 128) = false ->
  let c0 := Z.lor 0xC0 (Z.shiftr c 6) in let c1 := Z.lor 0x80 (Z.land c 0x3F) in
  (Z.land c0 0x80 =? 0) = false /\ Z.land c0 0xFE = 0xC2 /\ Z.land c1 0xC0 = 0x80 /\
  Z.land (Z.lor (Z.shiftl c0 6) (Z.land c1 0x3F)) 255 = c /\ byte_ok c0 /\ byte_ok c1.
Proof.
  intros H Hc c0 c1.
  pose proof (byte_forall (fun c => let c0 := Z.lor 0xC0 (Z.shiftr c 6) in
    let c1 := Z.lor 0x80 (Z.land c 0x3F) in (c <? 128) ||
    (negb (Z.land c0 0x80 =? 0) && (Z.land c0 0xFE =? 0xC2) && (Z.land c1 0xC0 =? 0x80) &&
     (Z.land (Z.lor (Z.shiftl c0 6) (Z.land c1 0x3F)) 255 =? c) &&
     (0 <=? c0) && (c0 <? 256) && (0 <=? c1) && (c1 <? 256))) ltac:(vm_compute; reflexivity) c H) as HF.
  cbn beta zeta in HF. rewrite Hc in HF. cbn [orb] in HF. fold c0 c1 in HF.
  rewrite !andb_true_iff, negb_true_iff, !Z.eqb_eq, !Z.leb_le, !Z.ltb_lt in HF.
  unfold byte_ok. tauto.
Qed.

Lemma latin1_utf8_latin1 src k destlen o f k' d' :
  bytes_ok src -> latin1_to_utf8_loop src k destlen = Some (o, f) -> k' + zlen src <= d' ->
  utf8_to_latin1_loop o k' d' = Some (src, f).
Proof.
  intros Hok. revert k o f k'. induction Hok as [|c src Hc Hsrc IH]; intros k o f k' E Hk.
  - injection E as <- <-. reflexivity.
  - cbn [latin1_to_utf8_loop] in E. rewrite zlen_cons in Hk. pose proof (zlen_nonneg src).
    destruct (destlen <=? k); [done|]. destruct (Z.land c 0x80 =? 0) eqn:Ea.
    + destruct (latin1_to_utf8_loop src (k + 1) destlen) as [[o' f']|] eqn:E'; [|done].
      injection E as <- <-. cbn [utf8_to_latin1_loop]. destruct (Z.leb_spec d' k'); [lia|].
      rewrite Ea. rewrite (IH _ _ _ (k' + 1) E') by lia. reflexivity.
    + destruct (latin1_to_utf8_loop src (k + 2) destlen) as [[o' f']|] eqn:E'; [|done].
      injection E as <- <-. rewrite ascii_bit in Ea by exact Hc.
      destruct (two_byte_facts c Hc Ea) as (F1 & F2 & F3 & F4 & _).
      cbn [utf8_to_latin1_loop]. destruct (Z.leb_spec d' k'); [lia|].
      rewrite F1, F2, F3, !Z.eqb_refl. cbn [andb].
      rewrite (IH _ _ _ (k' + 1) E') by lia. rewrite F4. reflexivity.
Qed.

Lemma latin1_loop_ok src k destlen o f :
  bytes_ok src -> latin1_to_utf8_loop src k destlen = Some (o, f) -> bytes_ok o.
Proof.
  intros Hok. revert k o f. induction Hok as [|c src Hc Hsrc IH]; intros k o f E.
  - injection E as <- <-. constructor.
  - cbn [latin1_to_utf8_loop] in E. destruct (destlen <=? k); [done|].
    destruct (Z.land c 0x80 =? 0) eqn:Ea.
    + destruct (latin1_to_utf8_loop src (k + 1) destlen) as [[o' f']|] eqn:E'; [|done].
      injection E as <- <-. constructor; eauto.
    + destruct (latin1_to_utf8_loop src (k + 2) destlen) as [[o' f']|] eqn:E'; [|done].
      injection E as <- <-. rewrite ascii_bit in Ea by exact Hc.
      destruct (two_byte_facts c Hc Ea) as (_ & _ & _ & _ & ? & ?). repeat constructor; eauto; apply H || apply H0.
Qed.

(** A verified UTF-8 name has at most 255 characters, hence at most 1020 bytes. *)
Lemma verify_utf8_length src n :
  0 <= n -> verify_utf8_loop src n = true -> zlen src <= 4 * (255 - n) \/ src = [].
Proof.
  revert n. induction src as [src IH] using (induction_ltof1 _ (@length Z)). unfold ltof in IH.
  intros n Hn H. destruct src as [|c0 r0]; [by right|]. left. revert H.
  cbn [verify_utf8_loop]. unfold MAXATOMLEN.
  destruct (Z.leb_spec 256 (n + 1)); [done|].
  assert (forall l, (length l < length (c0 :: r0))%nat -> zlen (c0 :: r0) <= 4 + zlen l ->
            verify_utf8_loop l (n + 1) = true -> zlen (c0 :: r0) <= 4 * (255 - n)) as Hstep.
  { intros l Hl Hz E. apply IH in E; [|exact Hl|lia]. destruct E as [E| ->]; [lia|].
    rewrite zlen_nil in Hz. lia. }
  destruct (Z.land c0 0x80 =? 0); [apply (Hstep r0); [cbn; lia|zlen_lia]|].
  destruct (Z.land c0 0xE0 =? 0xC0).
  { destruct r0 as [|c1 r1]; [done|]. destruct (Z.land c1 0xC0 =? 0x80); [|done].
    apply (Hstep r1); [cbn; lia|zlen_lia]. }
  destruct (Z.land c0 0xF0 =? 0xE0).
  { destruct r0 as [|c1 [|c2 r2]]; try done. destruct (_ && _); [|done].
    apply (Hstep r2); [cbn; lia|zlen_lia]. }
  destruct (Z.land c0 0xF8 =? 0xF0); [|done].
  destruct r0 as [|c1 [|c2 [|c3 r3]]]; try done. destruct (_ && _ && _); [|done].
  apply (Hstep r3); [cbn; lia|zlen_lia].
Qed.

Lemma verify_utf8_atom_length src : verify_utf8_atom src = true -> zlen src <= 1020.
Proof. intros H. apply verify_utf8_length in H; [|lia]. destruct H as [H| ->]; [lia|zlen_lia]. Qed.

(** ** What the atom encoders emit *)

(** The external form of an atom with UTF-8 name [name]. *)
Definition atom_ext (long : bool) (name : list Z) : list Z :=
  if long then ERL_ATOM_UTF8_EXT :: be_bytes 2 (zlen name) ++ name
  else [ERL_SMALL_ATOM_UTF8_EXT; Z.land (zlen name) 255] ++ name.

(** The bytes of the atom whose name is [src] in encoding [from_enc], if the
    encoder accepts it. *)
Definition atom_bytes (src : list Z) (from_enc : Z) : option (list Z) :=
  if (MAXATOMLEN <=? zlen src) && negb (Z.land from_enc (Z.lor ERLANG_LATIN1 ERLANG_ASCII) =? 0)
  then None
  else if from_enc =? ERLANG_LATIN1 then
    match latin1_to_utf8 src (MAXATOMLEN_UTF8 - 1) with
    | Some (o, _) => Some (atom_ext (128 <=? zlen src) o) | None => None end
  else if from_enc =? ERLANG_ASCII then
    if verify_ascii_atom src then Some (atom_ext false src) else None
  else if from_enc =? ERLANG_UTF8 then
    if verify_utf8_atom src then Some (atom_ext (256 <=? zlen src) src) else None
  else None.

Lemma zlen_atom_ext long name : zlen (atom_ext long name) <= 3 + zlen name.
Proof. unfold atom_ext. destruct long; zlen_lia. Qed.

Lemma put_atom_at_emits (long : bool) name :
  Emits (fun b i => put_atom_at b i (if long then 3 else 2) (zlen name) name)
    (Some (atom_ext long name)).
Proof.
  split; intros; cbn [put_atom_at].
  - f_equal. unfold atom_ext. destruct long; zlen_lia.
  - unfold emit, atom_ext. destruct long; closed_tests.
    + change (ERL_ATOM_UTF8_EXT :: be_bytes 2 (zlen name) ++ name)
        with ((ERL_ATOM_UTF8_EXT :: be_bytes 2 (zlen name)) ++ name).
      rewrite <- put_backfill0, zlen_cons, zlen_be_bytes.
      change (1 + Z.of_nat 2) with 3. unfold put_bytes at 1 2.
      destruct (store m (i + 3) name) as [m1|]; [|done]. emits_steps.
      unfold put_bytes. change (Z.land ERL_ATOM_UTF8_EXT 255) with ERL_ATOM_UTF8_EXT.
      destruct (store m1 i _); [|done]. f_equal; zlen_lia.
    + rewrite <- put_backfill0. change (zlen [_; _]) with 2. unfold put_bytes at 1 2.
      destruct (store m (i + 2) name) as [m1|]; [|done]. emits_steps.
      unfold put_bytes. change (Z.land ERL_SMALL_ATOM_UTF8_EXT 255) with ERL_SMALL_ATOM_UTF8_EXT.
      destruct (store m1 i _); [|done]. f_equal; zlen_lia.
Qed.

Lemma emits_refuse : Emits (fun _ i => EErr i) None.
Proof. split; eauto. Qed.

Lemma emits_ext f g o : Emits f o -> (forall b i, g b i = f b i) -> Emits g o.
Proof.
  intros [H1 H2] E. split; intros; rewrite E; [apply H1|apply H2].
Qed.

Lemma slice_prefix (p : list Z) len :
  0 <= len <= zlen p -> slice p 0 len = Some (take (Z.to_nat len) p).
Proof.
  intros H. unfold slice. replace (_ && _ && _) with true; [reflexivity|].
  symmetry. rewrite !andb_true_iff, !Z.leb_le. lia.
Qed.

Lemma zlen_take (p : list Z) len : 0 <= len <= zlen p -> zlen (take (Z.to_nat len) p) = len.
Proof. unfold zlen. intros. rewrite length_take. lia. Qed.

Lemma ei_encode_atom_len_as_emits p len from_enc to_enc :
  bytes_ok p -> 0 <= len <= zlen p ->
  Emits (fun b i => ei_encode_atom_len_as b i p len from_enc to_enc)
    (atom_bytes (take (Z.to_nat len) p) from_enc).
Proof.
  intros Hp Hlen. unfold ei_encode_atom_len_as, atom_bytes.
  rewrite slice_prefix, zlen_take by exact Hlen.
  set (src := take (Z.to_nat len) p).
  assert (bytes_ok src) as Hsrc by (apply Forall_take, Hp).
  assert (zlen src = len) as Hz by (apply zlen_take, Hlen).
  destruct (Z.eqb_spec from_enc ERLANG_LATIN1) as [->|Hn1].
  { closed_tests. rewrite andb_true_r. destruct (Z.leb_spec MAXATOMLEN len) as [|Hmax]; [apply emits_refuse|].
    unfold MAXATOMLEN in Hmax. rewrite latin1_fast_track by exact Hsrc.
    destruct (latin1_loop_fits src 0 (MAXATOMLEN_UTF8 - 1)) as (o & f & ->).
    { unfold MAXATOMLEN_UTF8. lia. }
    exact (put_atom_at_emits (128 <=? len) o). }
  destruct (_ && _); [apply emits_refuse|].
  destruct (Z.eqb_spec from_enc ERLANG_ASCII) as [->|Hn2].
  { destruct (verify_ascii_atom src); [|apply emits_refuse].
    rewrite <- Hz. exact (put_atom_at_emits false src). }
  destruct (Z.eqb_spec from_enc ERLANG_UTF8) as [->|Hn3]; [|apply emits_refuse].
  destruct (verify_utf8_atom src); [|apply emits_refuse].
  rewrite <- Hz. exact (put_atom_at_emits (256 <=? zlen src) src).
Qed.

Lemma ei_encode_atom_as_emits p from_enc to_enc :
  bytes_ok p -> Emits (fun b i => ei_encode_atom_as b i p from_enc to_enc) (atom_bytes p from_enc).
Proof.
  intros Hp. pose proof (ei_encode_atom_len_as_emits p (zlen p) from_enc to_enc Hp) as H.
  assert (take (Z.to_nat (zlen p)) p = p) as E by (unfold zlen; rewrite Nat2Z.id; apply firstn_all).
  rewrite E in H. apply H. zlen_lia.
Qed.

Lemma ei_encode_atom_emits p :
  bytes_ok p -> Emits (fun b i => ei_encode_atom b i p) (atom_bytes (take 255 p) ERLANG_LATIN1).
Proof.
  intros Hp. unfold ei_encode_atom. destruct (Z.leb_spec MAXATOMLEN (zlen p)) as [H|H];
    unfold MAXATOMLEN in H.
  - apply (ei_encode_atom_len_as_emits p 255 ERLANG_LATIN1 0 Hp). lia.
  - pose proof (ei_encode_atom_as_emits p ERLANG_LATIN1 0 Hp).
    rewrite firstn_all2; [exact H0|]. unfold zlen in H. lia.
Qed.

(** ** Decoding what was encoded *)

Lemma atom_header_ext (long : bool) name m s :
  (zlen name < if long then 65536 else 256) -> holds m s (atom_ext long name) ->
  exists t, atom_header m s = DOk (zlen name, ERLANG_UTF8) t /\ holds m t name /\
    t + zlen name = s + zlen (atom_ext long name).
Proof.
  intros Hl Hh. unfold atom_header, atom_ext in *. pose proof (zlen_nonneg name).
  destruct long; cbn [app] in Hh;
    (apply get8_holds in Hh as [-> Hh]; [|split; vm_compute; congruence]); closed_tests.
  - apply get16be_holds in Hh as [-> Hh]; [|unfold in_u; lia].
    eexists. split; [reflexivity|]. split; [exact Hh|zlen_lia].
  - rewrite land_255_small in Hh by (unfold byte_ok; lia).
    apply get8_holds in Hh as [-> Hh]; [|unfold byte_ok; lia].
    eexists. split; [reflexivity|]. split; [exact Hh|zlen_lia].
Qed.

(** What a decode of the UTF-8 name [name] asked for as UTF-8 writes. *)
Definition utf8_atom_out (name : list Z) : atom_out :=
  {| at_name := name; at_was := ERLANG_UTF8;
     at_res := if existsb non_ascii name then ERLANG_UTF8 else ERLANG_ASCII |}.

Lemma ei_decode_atom_as_utf8 (long : bool) name destlen want :
  (zlen name < if long then 65536 else 256) -> zlen name < destlen ->
  Z.land want ERLANG_UTF8 <> 0 -> want <> ERLANG_ASCII ->
  Decodes (fun m i => ei_decode_atom_as m i destlen want) (atom_ext long name) (utf8_atom_out name).
Proof.
  intros Hl Hd Hw Ha m s Hh. unfold ei_decode_atom_as.
  destruct (atom_header_ext long name m s Hl Hh) as (t & -> & Ht & <-).
  destruct (Z.eqb_spec (Z.land want ERLANG_UTF8) 0); [congruence|]. cbn [negb orb].
  destruct (Z.leb_spec destlen (zlen name)); [lia|].
  rewrite (holds_slice _ _ _ _ Ht eq_refl).
  destruct (Z.eqb_spec want ERLANG_ASCII); [congruence|]. cbn [andb]. reflexivity.
Qed.

Lemma atom_bytes_utf8 src bs :
  atom_bytes src ERLANG_UTF8 = Some bs ->
  verify_utf8_atom src = true /\ bs = atom_ext (256 <=? zlen src) src.
Proof.
  unfold atom_bytes. closed_tests. rewrite andb_false_r.
  destruct (verify_utf8_atom src); [|done]. intros [= <-]. auto.
Qed.

Lemma atom_bytes_verified src :
  atom_bytes src ERLANG_UTF8
  = if verify_utf8_atom src then Some (atom_ext (256 <=? zlen src) src) else None.
Proof. unfold atom_bytes. closed_tests. by rewrite andb_false_r. Qed.

(** Every accepted UTF-8 name is decoded again by [get_atom]. *)
Lemma get_atom_decodes src bs :
  atom_bytes src ERLANG_UTF8 = Some bs -> Decodes ei_internal_get_atom bs (utf8_atom_out src).
Proof.
  intros [Hv ->]%atom_bytes_utf8. apply verify_utf8_atom_length in Hv.
  apply ei_decode_atom_as_utf8; [|unfold MAXATOMLEN_UTF8; lia|vm_compute; congruence|done].
  destruct (Z.leb_spec 256 (zlen src)); lia.
Qed.

(** The atom read back through the Latin-1 interface. *)
Definition latin1_atom_out (name : list Z) (f : bool) : atom_out :=
  {| at_name := name; at_was := ERLANG_UTF8; at_res := if f then ERLANG_LATIN1 else ERLANG_ASCII |}.

Lemma latin1_atom_decodes src o f :
  bytes_ok src -> zlen src <= 255 -> latin1_to_utf8 src (MAXATOMLEN_UTF8 - 1) = Some (o, f) ->
  Decodes ei_decode_atom (atom_ext (128 <=? zlen src) o) (latin1_atom_out src f).
Proof.
  intros Hok Hl E m s Hh. rewrite latin1_fast_track in E by exact Hok.
  pose proof (latin1_loop_length src 0 (MAXATOMLEN_UTF8 - 1) o f ltac:(unfold MAXATOMLEN_UTF8; lia) E) as [_ Hlen].
  assert (zlen o < if 128 <=? zlen src then 65536 else 256) as Hh1.
  { destruct (Z.leb_spec 128 (zlen src)); lia. }
  unfold ei_decode_atom, ei_decode_atom_as.
  destruct (atom_header_ext _ o m s Hh1 Hh) as (t & -> & Ht & <-). closed_tests.
  rewrite (holds_slice _ _ _ _ Ht eq_refl).
  rewrite utf8_fast_track by (eapply latin1_loop_ok; eauto).
  rewrite (latin1_utf8_latin1 src 0 (MAXATOMLEN_UTF8 - 1) o f 0) by (auto; unfold MAXATOMLEN; lia).
  reflexivity.
Qed.

(** ** Properties *)

(** The word-at-a-time ASCII fast track does not change the result of the
    two conversions: for every input and destination size they compute what
    the byte loops alone compute. *)
Theorem ascii_fast_track_equiv src destlen :
  bytes_ok src ->
  latin1_to_utf8 src destlen = latin1_to_utf8_loop src 0 destlen /\
  utf8_to_latin1 src destlen = utf8_to_latin1_loop src 0 destlen.
Proof. intros H. split; [by apply latin1_fast_track|by apply utf8_fast_track]. Qed.

Lemma ascii_fast_track_equiv_witness :
  latin1_to_utf8 [97; 98; 99; 100; 101; 102; 103; 104; 233] 20
  = latin1_to_utf8_loop [97; 98; 99; 100; 101; 102; 103; 104; 233] 0 20.
Proof.
  apply (ascii_fast_track_equiv [97; 98; 99; 100; 101; 102; 103; 104; 233] 20).
  unfold byte_ok. repeat constructor; lia.
Defined.

(** An atom name in Latin-1 written by [ei_encode_atom] is read back byte
    for byte by [ei_decode_atom], cut to its first 255 characters, from any
    position of any buffer with room for it. *)
Theorem atom_roundtrip p :
  bytes_ok p ->
  exists f, RoundTrip (fun b i => ei_encode_atom b i p) ei_decode_atom (latin1_atom_out (take 255 p) f).
Proof.
  intros Hp. pose proof (ei_encode_atom_emits p Hp) as He.
  assert (bytes_ok (take 255 p)) as Hok by (apply Forall_take, Hp).
  assert (zlen (take 255 p) <= 255) as Hl by (unfold zlen; rewrite length_take; lia).
  destruct (latin1_loop_fits (take 255 p) 0 (MAXATOMLEN_UTF8 - 1)) as (o & f & E).
  { unfold MAXATOMLEN_UTF8. lia. }
  rewrite <- latin1_fast_track in E by exact Hok. exists f.
  apply (emits_roundtrip (fun b i => ei_encode_atom b i p) (atom_ext (128 <=? zlen (take 255 p)) o)).
  - revert He. unfold atom_bytes. closed_tests. rewrite E.
    destruct (Z.leb_spec MAXATOMLEN (zlen (take 255 p))) as [Hx|Hx]; [unfold MAXATOMLEN in Hx; lia|].
    cbn [andb]. tauto.
  - by apply latin1_atom_decodes.
Qed.

Lemma atom_roundtrip_witness :
  exists f, RoundTrip (fun b i => ei_encode_atom b i [111; 107; 255]) ei_decode_atom
    (latin1_atom_out [111; 107; 255] f).
Proof. apply (atom_roundtrip [111; 107; 255]). unfold byte_ok. repeat constructor; lia. Defined.

(** [ei_encode_atom_as] refuses a UTF-8 name that does not pass its check (at
    most 255 characters); every other name is read back unchanged by the
    internal atom reader, and with its NUL fits in the [MAXATOMLEN_UTF8] bytes of
    the destination. *)
Theorem utf8_atom_roundtrip p to_enc :
  bytes_ok p ->
  if verify_utf8_atom p
  then RoundTrip (fun b i => ei_encode_atom_as b i p ERLANG_UTF8 to_enc) ei_internal_get_atom (utf8_atom_out p) /\
       zlen p + 1 <= MAXATOMLEN_UTF8
  else Refuses (fun b i => ei_encode_atom_as b i p ERLANG_UTF8 to_enc).
Proof.
  intros Hp. pose proof (ei_encode_atom_as_emits p ERLANG_UTF8 to_enc Hp) as He.
  pose proof (atom_bytes_verified p) as E.
  destruct (verify_utf8_atom p) eqn:Hv; rewrite E in He; [|by apply emits_refuses].
  split; [exact (emits_roundtrip _ _ _ _ He (get_atom_decodes p _ E))|].
  apply verify_utf8_atom_length in Hv. unfold MAXATOMLEN_UTF8. lia.
Qed.

Lemma utf8_atom_roundtrip_witness :
  RoundTrip (fun b i => ei_encode_atom_as b i [195; 164; 226; 130; 172] ERLANG_UTF8 4) ei_internal_get_atom
    (utf8_atom_out [195; 164; 226; 130; 172]) /\
  Refuses (fun b i => ei_encode_atom_as b i [195] ERLANG_UTF8 4).
Proof.
  split.
  - apply (utf8_atom_roundtrip [195; 164; 226; 130; 172] 4). unfold byte_ok. repeat constructor; lia.
  - apply (utf8_atom_roundtrip [195] 4). unfold byte_ok. repeat constructor; lia.
Defined.

(** Converting Latin-1 to UTF-8 writes at most one byte more than
    [destlen]: [ei_decode_atom_as] with a destination of [destlen] bytes stores
    the name and its NUL within [destlen + 1] bytes. *)
Theorem ei_decode_atom_as_bound m i destlen want a j :
  bytes_ok m -> 1 <= destlen -> ei_decode_atom_as m i destlen want = DOk a j ->
  zlen (at_name a) + 1 <= destlen + 1.
Proof.
  intros Hm Hd. unfold ei_decode_atom_as.
  destruct (atom_header m i) as [[len got] s|k| |]; try done.
  destruct (_ || _).
  - destruct (Z.leb_spec destlen len); [done|].
    destruct (slice m s len) as [src|] eqn:Es; [|done].
    destruct (_ && _); [done|]. intros [= <- <-]. apply slice_some in Es as [Es _]. cbn. lia.
  - destruct (slice m s len) as [src|] eqn:Es; [|done].
    assert (bytes_ok src) as Hok by (apply slice_some in Es as (_ & _ & Es); auto).
    destruct (got =? ERLANG_LATIN1).
    + rewrite latin1_fast_track by exact Hok.
      destruct (latin1_to_utf8_loop src 0 (destlen - 1)) as [[o f]|] eqn:E; [|done].
      intros [= <- <-]. apply latin1_loop_length in E as [E _]; [|lia]. cbn. lia.
    + rewrite utf8_fast_track by exact Hok.
      destruct (utf8_to_latin1_loop src 0 (destlen - 1)) as [[o f]|] eqn:E; [|done].
      intros [= <- <-]. cbn.
      apply utf8_loop_length in E; lia.
Qed.

Lemma ei_decode_atom_as_bound_witness :
  exists a, ei_decode_atom_as [115; 2; 97; 233] 0 3 ERLANG_UTF8 = DOk a 4 /\
    zlen (at_name a) + 1 <= 3 + 1.
Proof.
  eexists. split; [vm_compute; reflexivity|].
  refine (ei_decode_atom_as_bound [115; 2; 97; 233] 0 3 ERLANG_UTF8 _ 4 _ _ _).
  - unfold byte_ok. repeat constructor; lia.
  - lia.
  - vm_compute. reflexivity.
Defined.

(** A Latin-1 atom whose UTF-8 form has exactly [MAXATOMLEN_UTF8] bytes. *)
Definition overlong_atom : mem := ERL_ATOM_EXT :: be_bytes 2 511 ++ 97 :: replicate 510 233.

(** The bound of the previous property is reached with the sizes the
    library itself uses: reading [overlong_atom] as UTF-8 into a node name of
    [MAXATOMLEN_UTF8] bytes succeeds and stores the terminating NUL one byte
    past the end of the destination. *)
Theorem ei_decode_atom_as_overflow :
  exists a, ei_internal_get_atom overlong_atom 0 = DOk a (zlen overlong_atom) /\
    zlen (at_name a) + 1 = MAXATOMLEN_UTF8 + 1.
Proof. eexists. split; vm_compute; reflexivity. Qed.
