(* ===== verification/EiData.v ===== *)
(** * Scalars and byte data: headers, version, booleans, floats, strings,
    integer lists and binaries

    [encode_{version,list_header,tuple_header,boolean,double,string,binary}.c]
    and the matching decoders, with [decode_intlist.c]. *)
From S2P Require Import Prelude PutGet EiTypes EiInt EiAtom.

(** ** Version magic *)

Definition ei_encode_version (buf : option mem) (index : Z) : eres :=
  match buf with
  | None => EOk None (index + 1)
  | Some m => let! (m, s) := put8 m index ERL_VERSION_MAGIC in EOk (Some m) s
  end.

Definition ei_decode_version (m : mem) (index : Z) : dres Z :=
  let? (v, s) := get8 m index in
  if negb (v =? ERL_VERSION_MAGIC) then DErr index else DOk v s.

(** ** Headers *)

Definition ei_encode_list_header (buf : option mem) (index arity : Z) : eres :=
  if arity <? 0 then EErr index
  else if 0 <? arity then
    match buf with
    | None => EOk None (index + 5)
    | Some m =>
        let! (m, s) := put8 m index ERL_LIST_EXT in
        let! (m, s) := put32be m s arity in
        EOk (Some m) s
    end
  else
    match buf with
    | None => EOk None (index + 1)
    | Some m => let! (m, s) := put8 m index ERL_NIL_EXT in EOk (Some m) s
    end.

Definition ei_encode_empty_list (buf : option mem) (index : Z) : eres :=
  ei_encode_list_header buf index 0.

(** [p] says whether the [arity] pointer is not NULL; with NULL the four bytes
    are skipped without being read. *)
Definition ei_decode_list_header (p : bool) (m : mem) (index : Z) : dres Z :=
  let? (tag, s) := get8 m index in
  if tag =? ERL_NIL_EXT then DOk 0 s
  else if tag =? ERL_LIST_EXT then
    if p then let? (arity, s) := get32be m s in DOk arity s else DOk 0 (s + 4)
  else DErr index.

Definition ei_encode_tuple_header (buf : option mem) (index arity : Z) : eres :=
  if arity <? 0 then EErr index
  else if arity <=? 0xff then
    match buf with
    | None => EOk None (index + 2)
    | Some m =>
        let! (m, s) := put8 m index ERL_SMALL_TUPLE_EXT in
        let! (m, s) := put8 m s arity in
        EOk (Some m) s
    end
  else
    match buf with
    | None => EOk None (index + 5)
    | Some m =>
        let! (m, s) := put8 m index ERL_LARGE_TUPLE_EXT in
        let! (m, s) := put32be m s arity in
        EOk (Some m) s
    end.

Definition ei_encode_map_header (buf : option mem) (index arity : Z) : eres :=
  if arity <? 0 then EErr index
  else
    match buf with
    | None => EOk None (index + 5)
    | Some m =>
        let! (m, s) := put8 m index ERL_MAP_EXT in
        let! (m, s) := put32be m s arity in
        EOk (Some m) s
    end.

Definition ei_decode_tuple_header (p : bool) (m : mem) (index : Z) : dres Z :=
  let? (i, s) := get8 m index in
  if i =? ERL_SMALL_TUPLE_EXT then
    if p then let? (arity, s) := get8 m s in DOk arity s else DOk 0 (s + 1)
  else if i =? ERL_LARGE_TUPLE_EXT then
    if p then let? (arity, s) := get32be m s in DOk arity s else DOk 0 (s + 4)
  else DErr index.

Definition ei_decode_map_header (p : bool) (m : mem) (index : Z) : dres Z :=
  let? (i, s) := get8 m index in
  if i =? ERL_MAP_EXT then
    if p then let? (arity, s) := get32be m s in DOk arity s else DOk 0 (s + 4)
  else DErr index.

(** ** Booleans *)

Definition str_true : list Z := [116; 114; 117; 101].
Definition str_false : list Z := [102; 97; 108; 115; 101].

Definition ei_encode_boolean (buf : option mem) (index p : Z) : eres :=
  let val := if negb (p =? 0) then str_true else str_false in
  let len := zlen val in
  match buf with
  | None => EOk None (index + 2 + len)
  | Some m =>
      let! (m, s) := put8 m index ERL_SMALL_ATOM_UTF8_EXT in
      let! (m, s) := put8 m s len in
      let! (m, s) := put_bytes m s val in
      EOk (Some m) s
  end.

(** The atom has been consumed when the function returns -1 because its name is
    neither [true] nor [false].  The [memcmp]s compare the NUL too, so they
    succeed exactly when the names are equal. *)
Definition ei_decode_boolean (m : mem) (index : Z) : dres Z :=
  call? (tbuf, s) := ei_decode_atom_as m index 6 ERLANG_ASCII fails j => DErr j in
  if decide (take 5 (at_name tbuf ++ [0]) = str_true ++ [0]) then DOk 1 s
  else if decide (take 6 (at_name tbuf ++ [0]) = str_false ++ [0]) then DOk 0 s
  else DErr s.

(** ** Floats.  A [double] is its IEEE 754 bit pattern. *)

Definition isfinite (d : Z) : bool := negb (Z.land (Z.shiftr d 52) 0x7ff =? 0x7ff).

Definition ei_encode_double (buf : option mem) (index p : Z) : eres :=
  if negb (isfinite p) then EErr index
  else
    match buf with
    | None => EOk None (index + 9)
    | Some m =>
        let! (m, s) := put8 m index NEW_FLOAT_EXT in
        let! (m, s) := put64be m s p in
        EOk (Some m) s
    end.

(** [sscanf_lf bytes] is what [sscanf(s, "%lf", &d)] stores, [None] when it does
    not return 1. *)
Section double.
Context (sscanf_lf : list Z -> option Z).

Definition ei_decode_double (m : mem) (index : Z) : dres Z :=
  let? (tag, s) := get8 m index in
  if tag =? ERL_FLOAT_EXT then
    match sscanf_lf (drop (Z.to_nat s) m) with
    | None => DErr index
    | Some d => DOk d (s + 31)
    end
  else if tag =? NEW_FLOAT_EXT then
    let? (d, s) := get64be m s in DOk d s
  else DErr index.
End double.

(** ** Strings *)

(** [for (i=0; i<len; i++) { put8(s,ERL_SMALL_INTEGER_EXT); put8(s,p[i]); }] *)
Fixpoint put_chars (m : mem) (s : Z) (p : list Z) : option (mem * Z) :=
  match p with
  | [] => Some (m, s)
  | c :: p =>
      match put8 m s ERL_SMALL_INTEGER_EXT with
      | None => None
      | Some (m, s) =>
          match put8 m s c with
          | None => None
          | Some (m, s) => put_chars m s p
          end
      end
  end.

Definition ei_encode_string_len (buf : option mem) (index : Z) (p : list Z) (len : Z) : eres :=
  if len =? 0 then
    match buf with
    | None => EOk None (index + 1)
    | Some m => let! (m, s) := put8 m index ERL_NIL_EXT in EOk (Some m) s
    end
  else if len <=? 0xffff then
    match buf with
    | None => EOk None (index + 3 + len)
    | Some m =>
        let! (m, s) := put8 m index ERL_STRING_EXT in
        let! (m, s) := put16be m s len in
        match slice p 0 len with
        | None => EOob
        | Some chars => let! (m, s) := put_bytes m s chars in EOk (Some m) s
        end
    end
  else
    match buf with
    | None => EOk None (index + (5 + 2 * len + 1))
    | Some m =>
        let! (m, s) := put8 m index ERL_LIST_EXT in
        let! (m, s) := put32be m s len in
        match slice p 0 len with
        | None => EOob
        | Some chars =>
            let! (m, s) := put_chars m s chars in
            let! (m, s) := put8 m s ERL_NIL_EXT in
            EOk (Some m) s
        end
    end.

Definition ei_encode_string (buf : option mem) (index : Z) (p : list Z) : eres :=
  if INT_MAX <=? zlen p then EErr index
  else ei_encode_string_len buf index p (zlen p).

(** The loops of [ei_decode_string] over a list of small integers; [p] says
    whether the destination is not NULL. *)
Fixpoint get_chars (p : bool) (n : nat) (m : mem) (s index : Z) : dres (list Z) :=
  match n with
  | O => DOk [] s
  | S n =>
      let? (etype, s) := get8 m s in
      if negb (etype =? ERL_SMALL_INTEGER_EXT) then DErr index else
      if p then
        let? (c, s) := get8 m s in
        call? (cs, s) := get_chars p n m s index fails j => DErr j in
        DOk (c :: cs) s
      else get_chars p n m (s + 1) index
  end.

(** The result is the bytes stored at [p], without the NUL added after them
    (none with NULL). *)
Definition ei_decode_string (p : bool) (m : mem) (index : Z) : dres (list Z) :=
  let? (tag, s) := get8 m index in
  if tag =? ERL_STRING_EXT then
    let? (len, s) := get16be m s in
    if p then slice? chars := slice m s len in DOk chars (s + len) else DOk [] (s + len)
  else if tag =? ERL_LIST_EXT then
    let? (len, s) := get32be m s in
    call? (chars, s) := get_chars p (Z.to_nat len) m s index fails j => DErr j in
    let? (etype, s) := get8 m s in
    if negb (etype =? ERL_NIL_EXT) then DErr index else DOk chars s
  else if tag =? ERL_NIL_EXT then DOk [] s
  else DErr index.

(** ** Integer lists.  The loop returns the integers and, when an element is
    not an integer that fits, how many were stored. *)
Fixpoint get_longs (n : nat) (m : mem) (s : Z) : dres (list Z) * Z :=
  match n with
  | O => (DOk [] s, 0)
  | S n =>
      match ei_decode_long m s with
      | DOk a s =>
          match get_longs n m s with
          | (DOk l s, c) => (DOk (a :: l) s, c + 1)
          | (r, c) => (r, c + 1)
          end
      | DErr j => (DErr j, 0)
      | DOob => (DOob, 0)
      | DFuel => (DFuel, 0)
      end
  end.

(** The result and what is stored in [*count], if anything. *)
Definition ei_decode_intlist (m : mem) (index : Z) : dres (list Z) * option Z :=
  match get8 m index with
  | None => (DOob, None)
  | Some (tag, s) =>
      if tag =? ERL_STRING_EXT then
        match get16be m s with
        | None => (DOob, None)
        | Some (len, s) =>
            match slice m s len with
            | None => (DOob, None)
            | Some l => (DOk l (s + len), Some len)
            end
        end
      else if tag =? ERL_LIST_EXT then
        match get32be m s with
        | None => (DOob, None)
        | Some (len, s) =>
            match get_longs (Z.to_nat len) m s with
            | (DOk l s, _) => (DOk l s, Some len)
            | (DErr _, c) => (DErr index, Some c)
            | (DOob, _) => (DOob, None)
            | (DFuel, _) => (DFuel, None)
            end
        end
      else (DErr index, None)
  end.

(** ** What the encoders emit *)

#[export] Instance ei_encode_version_emits : Emits ei_encode_version (Some [ERL_VERSION_MAGIC]).
Proof. unfold ei_encode_version. emits_straight. Qed.

Definition list_header_bytes (arity : Z) : option (list Z) :=
  if arity <? 0 then None
  else if 0 <? arity then Some (ERL_LIST_EXT :: be_bytes 4 arity) else Some [ERL_NIL_EXT].

#[export] Instance ei_encode_list_header_emits arity :
  Emits (fun b i => ei_encode_list_header b i arity) (list_header_bytes arity).
Proof.
  unfold ei_encode_list_header, list_header_bytes.
  destruct (arity <? 0); [apply emits_refuse|]. destruct (0 <? arity); emits_straight.
Qed.

#[export] Instance ei_encode_empty_list_emits : Emits ei_encode_empty_list (Some [ERL_NIL_EXT]).
Proof. exact (ei_encode_list_header_emits 0). Qed.

Definition tuple_header_bytes (arity : Z) : option (list Z) :=
  if arity <? 0 then None
  else if arity <=? 0xff then Some [ERL_SMALL_TUPLE_EXT; Z.land arity 255]
  else Some (ERL_LARGE_TUPLE_EXT :: be_bytes 4 arity).

#[export] Instance ei_encode_tuple_header_emits arity :
  Emits (fun b i => ei_encode_tuple_header b i arity) (tuple_header_bytes arity).
Proof.
  unfold ei_encode_tuple_header, tuple_header_bytes.
  destruct (arity <? 0); [apply emits_refuse|]. destruct (arity <=? 0xff); emits_straight.
Qed.

Definition map_header_bytes (arity : Z) : option (list Z) :=
  if arity <? 0 then None else Some (ERL_MAP_EXT :: be_bytes 4 arity).

#[export] Instance ei_encode_map_header_emits arity :
  Emits (fun b i => ei_encode_map_header b i arity) (map_header_bytes arity).
Proof.
  unfold ei_encode_map_header, map_header_bytes.
  destruct (arity <? 0); [apply emits_refuse|]. emits_straight.
Qed.

Definition boolean_name (p : Z) : list Z := if negb (p =? 0) then str_true else str_false.

#[export] Instance ei_encode_boolean_emits p :
  Emits (fun b i => ei_encode_boolean b i p) (Some (atom_ext false (boolean_name p))).
Proof.
  unfold ei_encode_boolean, atom_ext, boolean_name.
  destruct (negb (p =? 0)); (split; intros; cbn zeta iota; [f_equal; unfold str_true, str_false; zlen_lia|]);
    emits_steps; reflexivity.
Qed.

#[export] Instance ei_encode_double_emits p :
  Emits (fun b i => ei_encode_double b i p)
    (if isfinite p then Some (NEW_FLOAT_EXT :: be_bytes 8 p) else None).
Proof.
  unfold ei_encode_double. destruct (isfinite p); cbn [negb]; [|apply emits_refuse]. emits_straight.
Qed.

Definition chars_bytes (p : list Z) : list Z :=
  concat (map (fun c => [ERL_SMALL_INTEGER_EXT; Z.land c 255]) p).

Definition string_bytes (p : list Z) : list Z :=
  if zlen p =? 0 then [ERL_NIL_EXT]
  else if zlen p <=? 0xffff then ERL_STRING_EXT :: be_bytes 2 (zlen p) ++ p
  else ERL_LIST_EXT :: be_bytes 4 (zlen p) ++ chars_bytes p ++ [ERL_NIL_EXT].

Lemma zlen_chars_bytes p : zlen (chars_bytes p) = 2 * zlen p.
Proof.
  induction p as [|c p IH]; [reflexivity|].
  change (chars_bytes (c :: p)) with ([ERL_SMALL_INTEGER_EXT; Z.land c 255] ++ chars_bytes p).
  zlen_lia.
Qed.

Lemma put_chars_bytes p m s :
  0 <= s <= zlen m -> put_chars m s p = put_bytes m s (chars_bytes p).
Proof.
  revert m s. induction p as [|c p IH]; intros m s Hs.
  - unfold put_bytes. cbn. rewrite store_nil by exact Hs. by rewrite zlen_nil, Z.add_0_r.
  - cbn [put_chars]. change (chars_bytes (c :: p))
      with ([ERL_SMALL_INTEGER_EXT] ++ [Z.land c 255] ++ chars_bytes p).
    unfold put_bytes, put8. rewrite <- !store_seq.
    change (Z.land ERL_SMALL_INTEGER_EXT 255) with ERL_SMALL_INTEGER_EXT.
    change (zlen [ERL_SMALL_INTEGER_EXT]) with 1.
    destruct (store m s [ERL_SMALL_INTEGER_EXT]) as [m1|] eqn:E1; [|done].
    rewrite <- store_seq. change (zlen [Z.land c 255]) with 1.
    destruct (store m1 (s + 1) [Z.land c 255]) as [m2|] eqn:E2; [|done].
    apply store_bounds in E1 as (? & ? & ?), E2 as (? & E2 & ?).
    change (zlen [Z.land c 255]) with 1 in E2.
    rewrite IH by lia. unfold put_bytes. destruct (store m2 _ _); [|done].
    do 2 f_equal. zlen_lia.
Qed.

(** The string the encoder is given is the first [len] bytes of [p]. *)
Lemma ei_encode_string_len_emits p len :
  0 <= len <= zlen p ->
  Emits (fun b i => ei_encode_string_len b i p len) (Some (string_bytes (take (Z.to_nat len) p))).
Proof.
  intros Hlen. unfold ei_encode_string_len, string_bytes.
  rewrite slice_prefix, zlen_take by exact Hlen. set (src := take _ p).
  assert (zlen src = len) as Hz by (apply zlen_take, Hlen).
  destruct (len =? 0); [emits_straight|].
  destruct (len <=? 0xffff); (split; intros; cbn iota;
    [f_equal; rewrite ?zlen_cons, ?zlen_app, ?zlen_chars_bytes; zlen_lia|]).
  - emits_steps. rewrite emit_fold. reflexivity.
  - emits_steps.
    transitivity (let! (m1, s1) := put_bytes m i (ERL_LIST_EXT :: be_bytes 4 len) in
      let! (m2, s2) := put_bytes m1 s1 (chars_bytes src) in
      let! (m3, s3) := put_bytes m2 s2 [ERL_NIL_EXT] in EOk (Some m3) s3).
    2:{ emits_steps. rewrite emit_fold, <- !app_assoc. reflexivity. }
    unfold put_bytes at 1 2. change (Z.land ERL_LIST_EXT 255) with ERL_LIST_EXT.
    destruct (store m i _) as [m1|] eqn:E; [|done].
    apply store_bounds in E as (? & E & ?).
    rewrite put_chars_bytes by zlen_lia. reflexivity.
Qed.

Lemma ei_encode_string_emits p :
  Emits (fun b i => ei_encode_string b i p)
    (if INT_MAX <=? zlen p then None else Some (string_bytes p)).
Proof.
  unfold ei_encode_string. destruct (INT_MAX <=? zlen p); [apply emits_refuse|].
  pose proof (ei_encode_string_len_emits p (zlen p)) as H.
  assert (take (Z.to_nat (zlen p)) p = p) as E by (unfold zlen; rewrite Nat2Z.id; apply firstn_all).
  rewrite E in H. apply H. zlen_lia.
Qed.

(** ** Decoding what was encoded *)

(** Reads the tag byte at the start of a [holds] hypothesis. *)
Ltac read_tag Hh :=
  apply get8_holds in Hh as [-> Hh]; [|split; vm_compute; congruence]; closed_tests.

#[export] Instance ei_decode_version_decodes : Decodes ei_decode_version [ERL_VERSION_MAGIC] ERL_VERSION_MAGIC.
Proof. intros m s Hh. unfold ei_decode_version. read_tag Hh. f_equal; zlen_lia. Qed.

Lemma ei_decode_list_header_decodes p arity bs :
  arity < 2 ^ 31 -> list_header_bytes arity = Some bs ->
  Decodes (ei_decode_list_header p) bs (if p then arity else 0).
Proof.
  unfold list_header_bytes. intros Ha. destruct (Z.ltb_spec arity 0); [done|].
  destruct (Z.ltb_spec 0 arity); intros E m s Hh; apply (inj Some) in E as <-; unfold ei_decode_list_header; read_tag Hh.
  - rewrite <- (app_nil_r (be_bytes 4 arity)) in Hh. apply get32be_holds in Hh as [Hg _].
    rewrite Hg, wraps_small by (unfold in_s; lia). destruct p; f_equal; zlen_lia.
  - destruct p; f_equal; zlen_lia.
Qed.

Lemma ei_decode_tuple_header_decodes p arity bs :
  arity < 2 ^ 31 -> tuple_header_bytes arity = Some bs ->
  Decodes (ei_decode_tuple_header p) bs (if p then arity else 0).
Proof.
  unfold tuple_header_bytes. intros Ha. destruct (Z.ltb_spec arity 0); [done|].
  destruct (Z.leb_spec arity 0xff); intros E m s Hh; apply (inj Some) in E as <-; unfold ei_decode_tuple_header; read_tag Hh.
  - rewrite land_255_small in Hh by (unfold byte_ok; lia).
    apply get8_holds in Hh as [-> _]; [|unfold byte_ok; lia]. destruct p; f_equal; zlen_lia.
  - rewrite <- (app_nil_r (be_bytes 4 arity)) in Hh. apply get32be_holds in Hh as [Hg _].
    rewrite Hg, wraps_small by (unfold in_s; lia). destruct p; f_equal; zlen_lia.
Qed.

Lemma ei_decode_map_header_decodes p arity bs :
  arity < 2 ^ 31 -> map_header_bytes arity = Some bs ->
  Decodes (ei_decode_map_header p) bs (if p then arity else 0).
Proof.
  unfold map_header_bytes. intros Ha. destruct (Z.ltb_spec arity 0); [done|].
  intros E m s Hh; apply (inj Some) in E as <-; unfold ei_decode_map_header; read_tag Hh.
  rewrite <- (app_nil_r (be_bytes 4 arity)) in Hh. apply get32be_holds in Hh as [Hg _].
  rewrite Hg, wraps_small by (unfold in_s; lia). destruct p; f_equal; zlen_lia.
Qed.

Lemma ei_decode_boolean_decodes p :
  Decodes ei_decode_boolean (atom_ext false (boolean_name p)) (if negb (p =? 0) then 1 else 0).
Proof.
  intros m s Hh. unfold ei_decode_boolean, ei_decode_atom_as.
  assert (zlen (boolean_name p) < 256) as Hz
    by (unfold boolean_name, str_true, str_false; destruct (negb _); zlen_lia).
  destruct (atom_header_ext false (boolean_name p) m s Hz Hh) as (t & -> & Ht & <-).
  closed_tests. rewrite (holds_slice _ _ _ _ Ht eq_refl).
  unfold boolean_name. by destruct (negb (p =? 0)).
Qed.

Lemma ei_decode_double_decodes scan p :
  in_u 64 p -> Decodes (ei_decode_double scan) (NEW_FLOAT_EXT :: be_bytes 8 p) p.
Proof.
  intros Hp m s Hh. unfold ei_decode_double. read_tag Hh.
  rewrite <- (app_nil_r (be_bytes 8 p)) in Hh. apply get64be_holds in Hh as [-> _].
  rewrite wrapu_small by exact Hp. f_equal; zlen_lia.
Qed.

Lemma get_chars_holds d p m s index rest :
  bytes_ok p -> holds m s (chars_bytes p ++ rest) ->
  get_chars d (length p) m s index = DOk (if d then p else []) (s + zlen (chars_bytes p)) /\
  holds m (s + zlen (chars_bytes p)) rest.
Proof.
  intros Hp Hh. split; [|by apply holds_app in Hh as [_ Hh]].
  revert m s Hh. induction Hp as [|c p Hc Hp IH]; intros m s Hh.
  - destruct d; cbn; by rewrite zlen_nil, Z.add_0_r.
  - cbn [length get_chars].
    change (chars_bytes (c :: p)) with ([ERL_SMALL_INTEGER_EXT; Z.land c 255] ++ chars_bytes p) in *.
    cbn [app] in Hh. rewrite land_255_small in Hh by exact Hc. read_tag Hh.
    apply get8_holds in Hh as [-> Hh]; [|exact Hc]. cbn [negb].
    destruct d; rewrite IH by exact Hh; f_equal; zlen_lia.
Qed.

Lemma ei_decode_string_decodes d p :
  bytes_ok p -> zlen p < 2 ^ 31 ->
  Decodes (ei_decode_string d) (string_bytes p) (if d then p else []).
Proof.
  intros Hp Hl m s. unfold string_bytes. pose proof (zlen_nonneg p).
  destruct (Z.eqb_spec (zlen p) 0) as [E|E].
  { intros Hh. destruct p; [|rewrite zlen_cons in E; pose proof (zlen_nonneg p); lia].
    unfold ei_decode_string. read_tag Hh. destruct d; f_equal; zlen_lia. }
  destruct (Z.leb_spec (zlen p) 0xffff); intros Hh; unfold ei_decode_string; read_tag Hh.
  - apply get16be_holds in Hh as [-> Hh]; [|unfold in_u; lia].
    destruct d; [rewrite (holds_slice _ _ _ _ Hh eq_refl)|]; f_equal; zlen_lia.
  - apply get32be_holds in Hh as [-> Hh]. rewrite wraps_small by (unfold in_s; lia).
    unfold zlen at 1. rewrite Nat2Z.id.
    destruct (get_chars_holds d p m _ s [ERL_NIL_EXT] Hp Hh) as [-> Hh']. read_tag Hh'.
    f_equal. rewrite ?zlen_cons, ?zlen_app, ?zlen_chars_bytes. zlen_lia.
Qed.

(** A list of longs as a C program writes it: header, then the elements. *)
Definition longs_bytes (l : list Z) : list Z := concat (map longlong_bytes l).

Lemma get_longs_holds l m s rest :
  Forall (in_s 64) l -> holds m s (longs_bytes l ++ rest) ->
  get_longs (length l) m s = (DOk l (s + zlen (longs_bytes l)), zlen l).
Proof.
  intros Hl. revert m s. induction Hl as [|a l Ha Hl IH]; intros m s Hh.
  - change (longs_bytes []) with (@nil Z). cbn [length get_longs]. do 2 f_equal. zlen_lia.
  - cbn [length get_longs].
    change (longs_bytes (a :: l)) with (longlong_bytes a ++ longs_bytes l) in *.
    rewrite <- app_assoc in Hh. apply holds_app in Hh as [Hh1 Hh2].
    rewrite (ei_decode_long_decodes a Ha _ _ Hh1), (IH _ _ Hh2).
    rewrite zlen_cons, zlen_app, Z.add_assoc, (Z.add_comm 1). reflexivity.
Qed.

(** ** Properties *)

(** A byte string of any length below 2^31 written by [ei_encode_string_len]
    is read back by [ei_decode_string], whichever of the three forms (nil,
    string, list of small integers beyond 65535 bytes) its length selects. *)
Theorem string_roundtrip p :
  bytes_ok p -> zlen p < 2 ^ 31 ->
  RoundTrip (fun b i => ei_encode_string_len b i p (zlen p)) (ei_decode_string true) p.
Proof.
  intros Hp Hl. pose proof (ei_encode_string_len_emits p (zlen p)) as He.
  assert (take (Z.to_nat (zlen p)) p = p) as E by (unfold zlen; rewrite Nat2Z.id; apply firstn_all).
  rewrite E in He.
  apply (emits_roundtrip (fun b i => ei_encode_string_len b i p (zlen p)) (string_bytes p)).
  - apply He. zlen_lia.
  - by apply (ei_decode_string_decodes true).
Qed.

Lemma string_roundtrip_witness :
  RoundTrip (fun b i => ei_encode_string_len b i [104; 105] 2) (ei_decode_string true) [104; 105].
Proof.
  apply (string_roundtrip [104; 105]); [unfold byte_ok; repeat constructor; lia|vm_compute; reflexivity].
Defined.

(** [ei_encode_double] refuses infinities and NaNs and accepts every finite
    double; the bit pattern it writes is the one [ei_decode_double] reads,
    whatever the text conversion for the old float format does. *)
Theorem double_roundtrip scan p :
  in_u 64 p ->
  if isfinite p then RoundTrip (fun b i => ei_encode_double b i p) (ei_decode_double scan) p
  else Refuses (fun b i => ei_encode_double b i p).
Proof.
  intros Hp. pose proof (ei_encode_double_emits p) as H. destruct (isfinite p).
  - exact (emits_roundtrip _ _ _ _ H (ei_decode_double_decodes scan p Hp)).
  - by apply emits_refuses.
Qed.

Lemma double_roundtrip_witness :
  Refuses (fun b i => ei_encode_double b i 0x7ff0000000000000) /\
  RoundTrip (fun b i => ei_encode_double b i 0x3ff8000000000000) (ei_decode_double (fun _ => None)) 0x3ff8000000000000.
Proof.
  split.
  - apply (double_roundtrip (fun _ => None) 0x7ff0000000000000). unfold in_u; lia.
  - apply (double_roundtrip (fun _ => None) 0x3ff8000000000000). unfold in_u; lia.
Defined.
