(* ===== verification/EiBinary.v ===== *)
(** * Binaries and bit strings: [encode_binary.c] and [decode_binary.c] *)
From S2P Require Import Prelude PutGet EiTypes EiAtom EiData.

(** ** Encoding *)

Definition ei_encode_binary (buf : option mem) (index : Z) (p : list Z) (len : Z) : eres :=
  match buf with
  | None => EOk None (index + 5 + len)
  | Some m =>
      let! (m, s) := put8 m index ERL_BINARY_EXT in
      let! (m, s) := put32be m s len in
      match slice p 0 len with
      | None => EOob
      | Some d => let! (m, s) := put_bytes m s d in EOk (Some m) s
      end
  end.

Definition MAKE_MASK (n : Z) : Z := Z.shiftl 1 n - 1.

(** The main loop of [copy_bits]: [bits] is the byte read last, [sp] the
    position of [src], the result the bytes stored at [dst]. *)
Fixpoint copy_loop (count : nat) (src : mem) (sp bits soffs rshift : Z)
  : option (list Z * Z * Z) :=
  match count with
  | O => Some ([], bits, sp)
  | S count =>
      let bits1 := Z.shiftl bits soffs in
      match mem_get src sp with
      | None => None
      | Some bits =>
          let d := Z.land (Z.lor bits1 (Z.shiftr bits rshift)) 255 in
          match copy_loop count src (sp + 1) bits soffs rshift with
          | None => None
          | Some (ds, bits, sp) => Some (d :: ds, bits, sp)
          end
      end
  end.

(** The bytes [copy_bits] stores at [dst]; [None] when it reads outside of the
    source.  [nbytes] and [count] are [unsigned]. *)
Definition copy_bits (src : mem) (soffs n : Z) : option (list Z) :=
  if n =? 0 then Some [] else
  let deoffs := Z.land n 7 in
  let rmask := if deoffs =? 0 then 0 else Z.shiftl (MAKE_MASK deoffs) (8 - deoffs) in
  if soffs =? 0 then
    let nbytes := wrapu 32 ((n + 7) / 8) in
    match slice src 0 nbytes with
    | None => None
    | Some d => Some (if rmask =? 0 then d
                      else alter (fun b => Z.land b rmask) (Z.to_nat (nbytes - 1)) d)
    end
  else
    let sp := soffs / 8 in
    let soffs := Z.land soffs 7 in
    if n <? 8 then
      match mem_get src sp with
      | None => None
      | Some b =>
          let bits := Z.shiftl b soffs in
          if 8 <? soffs + n then
            match mem_get src (sp + 1) with
            | None => None
            | Some b1 => Some [Z.land (Z.land (Z.lor bits (Z.shiftr b1 (8 - soffs))) rmask) 255]
            end
          else Some [Z.land (Z.land bits rmask) 255]
      end
    else
      let count := wrapu 32 (Z.shiftr n 3) in
      let rshift := 8 - soffs in
      match mem_get src sp with
      | None => None
      | Some bits =>
          let sp := if 8 <? soffs + n then sp + 1 else sp in
          match copy_loop (Z.to_nat count) src sp bits soffs rshift with
          | None => None
          | Some (ds, bits, sp) =>
              if rmask =? 0 then Some ds else
              let bits1 := Z.shiftl bits soffs in
              if negb (Z.land (Z.shiftl rmask rshift) 0xff =? 0) then
                match mem_get src sp with
                | None => None
                | Some b => Some (ds ++ [Z.land (Z.land (Z.lor bits1 (Z.shiftr b rshift)) rmask) 255])
                end
              else Some (ds ++ [Z.land (Z.land bits1 rmask) 255])
          end
      end.

Definition ei_encode_bitstring (buf : option mem) (index : Z) (p : list Z) (bitoffs bits : Z) : eres :=
  let bytes := (bits + 7) / 8 in
  let last_bits := bits mod 8 in
  match buf with
  | None => EOk None (index + (if negb (last_bits =? 0) then 6 else 5) + bytes)
  | Some m =>
      let tagp := index in
      let! (m, s) := put32be m (tagp + 1) bytes in
      if negb (last_bits =? 0) then
        match store m tagp [ERL_BIT_BINARY_EXT] with
        | None => EOob
        | Some m =>
            let! (m, s) := put8 m s last_bits in
            match copy_bits p bitoffs bits with
            | None => EOob
            | Some d => let! (m, s) := put_bytes m s d in EOk (Some m) s
            end
        end
      else
        match store m tagp [ERL_BINARY_EXT] with
        | None => EOob
        | Some m =>
            match copy_bits p bitoffs bits with
            | None => EOob
            | Some d => let! (m, s) := put_bytes m s d in EOk (Some m) s
            end
        end
  end.

(** ** Decoding *)

(** [p] says whether the destination is not NULL; the result is the bytes
    copied (none with NULL) and [len].  The length is an [int]: a negative one
    moves the cursor backwards. *)
Definition ei_decode_binary (p : bool) (m : mem) (index : Z) : dres (list Z * Z) :=
  let? (tag, s) := get8 m index in
  if negb (tag =? ERL_BINARY_EXT) then DErr index else
  let? (len, s) := get32be m s in
  if p then slice? d := slice m s len in DOk (d, len) (s + len)
  else DOk ([], len) (s + len).

(** The result is [*pp] (as a position in the buffer) and [*nbitsp]; [*bitoffsp]
    is always 0.  [size_t len] is the sign extension of a 32-bit [int]. *)
Definition ei_decode_bitstring (m : mem) (index : Z) : dres (Z * Z) :=
  let? (tag, s) := get8 m index in
  let? (len, s) := get32be m s in
  if tag =? ERL_BINARY_EXT then DOk (s, wrapu 64 (len * 8)) (s + len)
  else if tag =? ERL_BIT_BINARY_EXT then
    let? (last_bits, s) := get8 m s in
    if negb (Bool.eqb (last_bits =? 0) (len =? 0)) || (8 <? last_bits) then DErr index
    else DOk (s, if len =? 0 then 0 else wrapu 64 ((len - 1) * 8 + last_bits)) (s + len)
  else DErr index.

(** ** [copy_bits] copies bits *)

(** Bit [j] of a byte string, the most significant bit of a byte first. *)
Definition bit_at (l : list Z) (j : Z) : bool :=
  match mem_get l (j / 8) with Some b => Z.testbit b (7 - j mod 8) | None => false end.

Lemma bit_at_byte l a x b :
  0 <= x < 8 -> mem_get l a = Some b -> bit_at l (8 * a + x) = Z.testbit b (7 - x).
Proof.
  intros Hx Ha. unfold bit_at.
  replace ((8 * a + x) / 8) with a by (rewrite Z.mul_comm, Z.div_add_l, Z.div_small; lia).
  replace ((8 * a + x) mod 8) with x by (rewrite Z.add_comm, Z.mul_comm, Z_mod_plus_full, Z.mod_small; lia).
  rewrite Ha. reflexivity.
Qed.

Lemma byte_testbit_high b i : byte_ok b -> 8 <= i -> Z.testbit b i = false.
Proof.
  intros [H0 H1] Hi. rewrite <- (Z.mod_small b (2 ^ 8)) by lia.
  apply Z.mod_pow2_bits_high. lia.
Qed.

Lemma testbit_land_255 x i : 0 <= i < 8 -> Z.testbit (Z.land x 255) i = Z.testbit x i.
Proof.
  intros H. change 255 with (Z.ones 8). rewrite Z.land_spec, Z.ones_spec_low by lia.
  apply andb_true_r.
Qed.

(** The byte that straddles [b0] and [b1] at bit offset [o]. *)
Lemma straddle_bit b0 b1 o j :
  byte_ok b0 -> byte_ok b1 -> 0 <= o < 8 -> 0 <= j < 8 ->
  Z.testbit (Z.lor (Z.shiftl b0 o) (Z.shiftr b1 (8 - o))) (7 - j)
  = if o + j <? 8 then Z.testbit b0 (7 - (o + j)) else Z.testbit b1 (7 - (o + j - 8)).
Proof.
  intros H0 H1 Ho Hj. rewrite Z.lor_spec, Z.shiftl_spec, Z.shiftr_spec by lia.
  destruct (Z.ltb_spec (o + j) 8).
  - rewrite (byte_testbit_high b1) by (exact H1 || lia). rewrite orb_false_r. f_equal. lia.
  - rewrite (Z.testbit_neg_r b0) by lia. cbn. f_equal. lia.
Qed.

Lemma straddle_one b0 o j :
  0 <= o < 8 -> 0 <= j -> o + j < 8 -> Z.testbit (Z.shiftl b0 o) (7 - j) = Z.testbit b0 (7 - (o + j)).
Proof. intros. rewrite Z.shiftl_spec by lia. f_equal. lia. Qed.

Lemma rmask_bit d j :
  0 < d < 8 -> 0 <= j < 8 ->
  Z.testbit (Z.shiftl (MAKE_MASK d) (8 - d)) (7 - j) = (j <? d).
Proof.
  intros Hd Hj. unfold MAKE_MASK.
  replace (Z.shiftl 1 d - 1) with (Z.ones d)
    by (rewrite Z.ones_equiv, Z.shiftl_mul_pow2 by lia; lia).
  rewrite Z.shiftl_spec by lia. destruct (Z.ltb_spec j d).
  - apply Z.ones_spec_low. lia.
  - apply Z.testbit_neg_r. lia.
Qed.

Lemma rmask_nonzero d : 0 < d < 8 -> (Z.shiftl (MAKE_MASK d) (8 - d) =? 0) = false.
Proof.
  intros H. apply Z.eqb_neq. intros E. pose proof (rmask_bit d 0 H ltac:(lia)) as X.
  rewrite E, Z.bits_0 in X. destruct (Z.ltb_spec 0 d); [done|lia].
Qed.

(** The second read of the tail is done exactly when bits of the next byte are
    needed. *)
Lemma rmask_spill d o :
  0 < d < 8 -> 0 <= o < 8 ->
  (Z.land (Z.shiftl (Z.shiftl (MAKE_MASK d) (8 - d)) (8 - o)) 0xff =? 0) = (o + d <=? 8).
Proof.
  intros Hd Ho.
  assert (forall d o : nat, (0 < d < 8)%nat -> (o < 8)%nat ->
    (Z.land (Z.shiftl (Z.shiftl (MAKE_MASK (Z.of_nat d)) (8 - Z.of_nat d)) (8 - Z.of_nat o)) 0xff =? 0)
    = (Z.of_nat o + Z.of_nat d <=? 8)) as H.
  { intros d' o' H1 H2.
    do 8 (destruct d' as [|d']; [try lia; do 8 (destruct o' as [|o']; [vm_compute; reflexivity|]); lia|]).
    lia. }
  specialize (H (Z.to_nat d) (Z.to_nat o)). rewrite !Z2Nat.id in H by lia. apply H; lia.
Qed.

Lemma mem_get_ok l i b : bytes_ok l -> mem_get l i = Some b -> byte_ok b.
Proof.
  unfold mem_get. destruct (i <? 0); [done|]. intros H E. by eapply Forall_lookup_1.
Qed.

Lemma mem_get_bound l i b : mem_get l i = Some b -> 0 <= i < zlen l.
Proof.
  unfold mem_get, zlen. destruct (Z.ltb_spec i 0); [done|].
  intros E%lookup_lt_Some. lia.
Qed.

Lemma mem_get_in l i : 0 <= i < zlen l -> exists b, mem_get l i = Some b.
Proof.
  intros H. unfold mem_get, zlen in *. destruct (Z.ltb_spec i 0); [lia|].
  apply lookup_lt_is_Some. lia.
Qed.

(** Byte [k] of the output carries the bits [8*k .. 8*k+7] of the request; the
    bits from [n] on are zero. *)
Definition copied (src : mem) (base n : Z) (k : Z) (b : Z) : Prop :=
  byte_ok b /\ forall r, 0 <= r < 8 ->
    Z.testbit b (7 - r) = if 8 * k + r <? n then bit_at src (base + (8 * k + r)) else false.

(** The window on two neighbouring source bytes. *)
Lemma straddle_copied src a o b0 b1 n k :
  bytes_ok src -> mem_get src (a + k) = Some b0 -> mem_get src (a + k + 1) = Some b1 ->
  0 <= o < 8 -> 8 * k + 8 <= n ->
  copied src (8 * a + o) n k (Z.land (Z.lor (Z.shiftl b0 o) (Z.shiftr b1 (8 - o))) 255).
Proof.
  intros Hok H0 H1 Ho Hn. split; [apply land_255_ok|]. intros r Hr.
  pose proof (mem_get_ok _ _ _ Hok H0). pose proof (mem_get_ok _ _ _ Hok H1).
  rewrite testbit_land_255, straddle_bit by (done || lia).
  destruct (Z.ltb_spec (8 * k + r) n); [|lia]. destruct (Z.ltb_spec (o + r) 8).
  - replace (8 * a + o + (8 * k + r)) with (8 * (a + k) + (o + r)) by lia.
    symmetry. apply bit_at_byte; [lia|done].
  - replace (8 * a + o + (8 * k + r)) with (8 * (a + k + 1) + (o + r - 8)) by lia.
    symmetry. apply bit_at_byte; [lia|done].
Qed.

(** The same for the last, masked byte; [d] bits of it are wanted. *)
Lemma straddle_copied_last src a o b0 b1 n k d :
  bytes_ok src -> mem_get src (a + k) = Some b0 -> mem_get src (a + k + 1) = Some b1 ->
  0 <= o < 8 -> 0 < d < 8 -> n = 8 * k + d ->
  copied src (8 * a + o) n k
    (Z.land (Z.land (Z.lor (Z.shiftl b0 o) (Z.shiftr b1 (8 - o))) (Z.shiftl (MAKE_MASK d) (8 - d))) 255).
Proof.
  intros Hok H0 H1 Ho Hd ->. split; [apply land_255_ok|]. intros r Hr.
  pose proof (mem_get_ok _ _ _ Hok H0). pose proof (mem_get_ok _ _ _ Hok H1).
  rewrite testbit_land_255, Z.land_spec, rmask_bit, straddle_bit by (done || lia).
  destruct (Z.ltb_spec r d), (Z.ltb_spec (8 * k + r) (8 * k + d)); try (exfalso; lia);
    [rewrite andb_true_r|apply andb_false_r]. destruct (Z.ltb_spec (o + r) 8).
  - replace (8 * a + o + (8 * k + r)) with (8 * (a + k) + (o + r)) by lia.
    symmetry. apply bit_at_byte; [lia|done].
  - replace (8 * a + o + (8 * k + r)) with (8 * (a + k + 1) + (o + r - 8)) by lia.
    symmetry. apply bit_at_byte; [lia|done].
Qed.

Lemma single_copied_last src a o b0 n k d :
  mem_get src (a + k) = Some b0 -> 0 <= o < 8 -> 0 < d < 8 -> o + d <= 8 -> n = 8 * k + d ->
  copied src (8 * a + o) n k
    (Z.land (Z.land (Z.shiftl b0 o) (Z.shiftl (MAKE_MASK d) (8 - d))) 255).
Proof.
  intros H0 Ho Hd Hod ->. split; [apply land_255_ok|]. intros r Hr.
  rewrite testbit_land_255, Z.land_spec, rmask_bit by lia.
  destruct (Z.ltb_spec r d), (Z.ltb_spec (8 * k + r) (8 * k + d)); try (exfalso; lia);
    [rewrite andb_true_r|apply andb_false_r].
  rewrite straddle_one by lia.
  replace (8 * a + o + (8 * k + r)) with (8 * (a + k) + (o + r)) by lia.
  symmetry. apply bit_at_byte; [lia|done].
Qed.

Lemma copy_loop_spec count src a k bits o ds bits' sp' n :
  bytes_ok src -> mem_get src (a + k) = Some bits -> 0 <= o < 8 ->
  8 * (k + Z.of_nat count) <= n ->
  copy_loop count src (a + k + 1) bits o (8 - o) = Some (ds, bits', sp') ->
  length ds = count /\ mem_get src (a + (k + Z.of_nat count)) = Some bits' /\
  sp' = a + (k + Z.of_nat count) + 1 /\
  forall i b, ds !! i = Some b -> copied src (8 * a + o) n (k + Z.of_nat i) b.
Proof.
  intros Hok. revert k bits ds. induction count as [|c IH]; intros k bits ds Hb Ho Hn E.
  - cbn in E. injection E as <- <- <-. rewrite !Z.add_0_r.
    split; [done|]. split; [done|]. split; [done|]. intros i' b'. by rewrite lookup_nil.
  - cbn [copy_loop] in E. destruct (mem_get src (a + k + 1)) as [b1|] eqn:E1; [|done].
    destruct (copy_loop c src (a + k + 1 + 1) b1 o (8 - o)) as [[[ds' b2] s2]|] eqn:E2; [|done].
    injection E as <- <- <-. rewrite <- (Z.add_assoc a k 1) in E2.
    apply IH in E2 as (L & G & S' & C); [|by rewrite Z.add_assoc|done|lia].
    split; [cbn; lia|]. split; [rewrite <- G; f_equal; lia|]. split; [lia|].
    intros [|i] b; cbn.
    + intros [= <-]. rewrite Z.add_0_r. apply straddle_copied; (done || lia).
    + intros Hi. apply C in Hi. replace (k + Z.of_nat (S i)) with (k + 1 + Z.of_nat i) by lia. done.
Qed.

Lemma land_byte_ok b x : byte_ok b -> byte_ok (Z.land b x).
Proof.
  intros H. rewrite <- (land_255_small b H), <- Z.land_assoc, (Z.land_comm 255), Z.land_assoc.
  apply land_255_ok.
Qed.

Lemma land_7 n : Z.land n 7 = n mod 8.
Proof. change 7 with (Z.ones 3). rewrite Z.land_ones by lia. reflexivity. Qed.

Lemma mem_get_lookup l (i : nat) : mem_get l (Z.of_nat i) = l !! i.
Proof. unfold mem_get. destruct (Z.ltb_spec (Z.of_nat i) 0); [lia|]. by rewrite Nat2Z.id. Qed.

(** The aligned case: [memcpy] and a mask on the last byte. *)
Lemma copy_aligned_spec src n d :
  bytes_ok src -> 0 < n -> slice src 0 ((n + 7) / 8) = Some d ->
  let deoffs := n mod 8 in
  let rmask := if deoffs =? 0 then 0 else Z.shiftl (MAKE_MASK deoffs) (8 - deoffs) in
  let out := if rmask =? 0 then d
             else alter (fun b => Z.land b rmask) (Z.to_nat ((n + 7) / 8 - 1)) d in
  zlen out = (n + 7) / 8 /\ forall i b, out !! i = Some b -> copied src 0 n (Z.of_nat i) b.
Proof.
  intros Hok Hn Hs deoffs rmask out. apply slice_some in Hs as (Hl & Hh & _).
  assert (zlen out = (n + 7) / 8) as Ho.
  { subst out. destruct (rmask =? 0); [done|]. unfold zlen in *. by rewrite length_alter. }
  split; [done|]. intros i b Hi.
  assert (Z.of_nat i < (n + 7) / 8) as Hi'.
  { apply lookup_lt_Some in Hi. unfold zlen in Ho. lia. }
  pose proof (Z.div_mod n 8 ltac:(lia)) as Hdm. pose proof (Z.mod_pos_bound n 8 ltac:(lia)) as Hm.
  fold deoffs in Hdm, Hm.
  assert (forall b0, d !! i = Some b0 -> mem_get src (Z.of_nat i) = Some b0) as Hsrc.
  { intros b0 E. apply (holds_get _ _ _ _ _ Hh E). }
  assert (forall b0, d !! i = Some b0 -> 8 * Z.of_nat i + 8 <= n -> copied src 0 n (Z.of_nat i) b0) as Hfull.
  { intros b0 E Hle. pose proof (Hsrc _ E) as G. split; [eapply mem_get_ok; eauto|]. intros r Hr.
    destruct (Z.ltb_spec (8 * Z.of_nat i + r) n); [|lia]. symmetry.
    apply (bit_at_byte src (Z.of_nat i)); [lia|done]. }
  subst out rmask. destruct (Z.eqb_spec deoffs 0) as [E0|E0].
  - cbn in Hi. apply Hfull; [exact Hi|].
    assert ((n + 7) / 8 = n / 8) by (symmetry; apply Z.div_unique with 7; lia). lia.
  - rewrite rmask_nonzero in Hi by lia.
    assert ((n + 7) / 8 = n / 8 + 1) as Hc by (symmetry; apply Z.div_unique with (deoffs - 1); lia).
    destruct (decide (i = Z.to_nat ((n + 7) / 8 - 1))) as [Hd|Hd].
    + rewrite <- Hd, list_lookup_alter_eq in Hi.
      destruct (d !! i) as [b0|] eqn:E; [|done]. cbn in Hi. injection Hi as <-.
      pose proof (Hsrc _ eq_refl) as G. split; [eapply land_byte_ok, mem_get_ok; eauto|]. intros r Hr.
      rewrite Z.land_spec, rmask_bit by lia.
      assert (8 * Z.of_nat i + deoffs = n) by lia.
      destruct (Z.ltb_spec r deoffs), (Z.ltb_spec (8 * Z.of_nat i + r) n); try (exfalso; lia).
      * rewrite andb_true_r. symmetry. apply (bit_at_byte src (Z.of_nat i)); [lia|done].
      * apply andb_false_r.
    + rewrite list_lookup_alter_ne in Hi by congruence. apply Hfull; [exact Hi|]. lia.
Qed.

Lemma copied_single src base n b :
  0 < n < 8 -> copied src base n 0 b ->
  zlen [b] = (n + 7) / 8 /\ forall i c, [b] !! i = Some c -> copied src base n (Z.of_nat i) c.
Proof.
  intros Hn Hc. split.
  - change (zlen [b]) with 1. apply Z.div_unique with (n - 1); lia.
  - intros [|i] c; [intros [= <-]; exact Hc|]. done.
Qed.

Lemma copied_snoc src base n ds b :
  (forall i c, ds !! i = Some c -> copied src base n (Z.of_nat i) c) ->
  copied src base n (zlen ds) b ->
  forall i c, (ds ++ [b]) !! i = Some c -> copied src base n (Z.of_nat i) c.
Proof.
  intros Hds Hb i c [Hi|[Hlt Hi]]%lookup_app_Some; [by apply Hds|].
  apply list_lookup_singleton_Some in Hi as [Hi <-].
  replace (Z.of_nat i) with (zlen ds) by (unfold zlen; lia). done.
Qed.

Lemma copy_size n : 0 <= n < 2 ^ 34 -> wrapu 32 ((n + 7) / 8) = (n + 7) / 8.
Proof.
  intros H. apply wrapu_small. split; [apply Z.div_pos; lia|].
  apply Z.div_lt_upper_bound; [lia|]. change (8 * 2 ^ 32) with (2 ^ 34 + 2 ^ 34). lia.
Qed.

Lemma copy_count n : 0 <= n < 2 ^ 34 -> wrapu 32 (Z.shiftr n 3) = n / 8.
Proof.
  intros H. rewrite Z.shiftr_div_pow2 by lia. change (2 ^ 3) with 8.
  apply wrapu_small. split; [apply Z.div_pos; lia|].
  apply Z.div_lt_upper_bound; [lia|]. change (8 * 2 ^ 32) with (2 ^ 34 + 2 ^ 34). lia.
Qed.

(** Every branch of [copy_bits] produces the requested bits. *)
Lemma copy_bits_copied src soffs n out :
  bytes_ok src -> 0 <= soffs -> 0 <= n < 2 ^ 34 -> copy_bits src soffs n = Some out ->
  zlen out = (n + 7) / 8 /\ forall i b, out !! i = Some b -> copied src soffs n (Z.of_nat i) b.
Proof.
  intros Hok Hs Hn. unfold copy_bits. rewrite !land_7, copy_size by lia.
  destruct (Z.eqb_spec n 0) as [->|Hn0].
  { intros [= <-]. split; [reflexivity|]. intros i b. by rewrite lookup_nil. }
  pose proof (Z.div_mod n 8 ltac:(lia)) as Hdm. pose proof (Z.mod_pos_bound n 8 ltac:(lia)) as Hm.
  set (d := n mod 8) in *. set (rmask := if d =? 0 then 0 else _). cbn zeta.
  destruct (Z.eqb_spec soffs 0) as [->|Hs0].
  { destruct (slice src 0 ((n + 7) / 8)) as [l|] eqn:E; [|done]. intros [= <-].
    apply copy_aligned_spec; (done || lia). }
  pose proof (Z.div_mod soffs 8 ltac:(lia)) as Hsd. pose proof (Z.mod_pos_bound soffs 8 ltac:(lia)) as Hsm.
  set (a := soffs / 8) in *. set (o := soffs mod 8) in *. rewrite Hsd.
  destruct (Z.ltb_spec n 8) as [H8|H8].
  { assert (d = n) as Hd by (apply Z.mod_small; lia).
    assert (rmask = Z.shiftl (MAKE_MASK n) (8 - n)) as ->.
    { unfold rmask. rewrite Hd. destruct (Z.eqb_spec n 0); [lia|done]. }
    destruct (mem_get src a) as [b0|] eqn:G0; [|done].
    destruct (Z.ltb_spec 8 (o + n)).
    - destruct (mem_get src (a + 1)) as [b1|] eqn:G1; [|done]. intros [= <-].
      apply copied_single; [lia|].
      apply straddle_copied_last; rewrite ?Z.add_0_r; (done || lia).
    - intros [= <-]. apply copied_single; [lia|].
      apply single_copied_last; rewrite ?Z.add_0_r; (done || lia). }
  rewrite copy_count by lia.
  destruct (mem_get src a) as [b0|] eqn:G0; [|done].
  assert (1 <= n / 8) by (apply Z.div_le_lower_bound; lia).
  destruct (Z.ltb_spec 8 (o + n)) as [Hbig|Hsmall].
  - destruct (copy_loop (Z.to_nat (n / 8)) src (a + 1) b0 o (8 - o)) as [[[ds b'] sp']|] eqn:E; [|done].
    replace (a + 1) with (a + 0 + 1) in E by lia.
    apply (copy_loop_spec _ _ a 0 b0 o ds b' sp' n) in E as (L & G & -> & C);
      [|done|by rewrite Z.add_0_r|lia|rewrite Z2Nat.id; lia].
    rewrite Z.add_0_l, Z2Nat.id in G by lia. rewrite Z.add_0_l, Z2Nat.id by lia.
    assert (zlen ds = n / 8) as Lz by (unfold zlen; lia).
    assert (forall i c, ds !! i = Some c -> copied src (8 * a + o) n (Z.of_nat i) c) as C'.
    { intros i c Hi. apply C in Hi. by rewrite Z.add_0_l in Hi. }
    unfold rmask. destruct (Z.eqb_spec d 0) as [Hd|Hd].
    { cbn. intros [= <-]. split; [rewrite Lz; apply Z.div_unique with 7; lia|exact C']. }
    rewrite rmask_nonzero, rmask_spill by lia.
    assert (n / 8 + 1 = (n + 7) / 8) as Hc by (apply Z.div_unique with (d - 1); lia).
    destruct (Z.leb_spec (o + d) 8); cbn [negb].
    + intros [= <-]. split; [zlen_lia|]. apply copied_snoc; [exact C'|]. rewrite Lz.
      apply single_copied_last; (done || lia).
    + destruct (mem_get src (a + n / 8 + 1)) as [b1|] eqn:G1; [|done].
      intros [= <-]. split; [zlen_lia|]. apply copied_snoc; [exact C'|]. rewrite Lz.
      apply straddle_copied_last; (done || lia).
  - assert (o = 0 /\ n = 8) as [Ho Hn8] by lia. rewrite Ho, Hn8 in *.
    change (Z.to_nat (8 / 8)) with 1%nat. cbn [copy_loop]. rewrite G0.
    assert (rmask = 0) as -> by (unfold rmask, d; rewrite Hn8; reflexivity). cbn.
    intros [= <-]. split; [reflexivity|]. intros [|i] c; [|done].
    intros [= <-]. pose proof (mem_get_ok _ _ _ Hok G0) as Hb.
    split; [apply land_255_ok|]. intros r Hr.
    rewrite testbit_land_255, Z.lor_spec, Z.shiftl_0_r, Z.shiftr_spec by lia.
    rewrite Z.sub_0_r, (byte_testbit_high b0 (7 - r + 8)) by (done || lia). rewrite orb_false_r.
    destruct (Z.ltb_spec (8 * Z.of_nat 0 + r) 8); [|lia]. symmetry.
    replace (8 * a + 0 + (8 * Z.of_nat 0 + r)) with (8 * a + r) by lia. by apply bit_at_byte.
Qed.

(** ** What [copy_bits] reads *)

(** The one shape of request for which the main loop reads a byte more than the
    bits that were asked for lie in: a byte-aligned offset of at least one byte
    and a whole number of bytes, more than one. *)
Definition reads_ahead (soffs n : Z) : bool :=
  negb (soffs =? 0) && (soffs mod 8 =? 0) && (n mod 8 =? 0) && (8 <? n).

Lemma copy_loop_some count src sp bits o rs :
  0 <= sp -> sp + Z.of_nat count <= zlen src ->
  exists r, copy_loop count src sp bits o rs = Some r.
Proof.
  revert sp bits. induction count as [|c IH]; intros sp bits H0 H1; [eexists; reflexivity|].
  cbn [copy_loop]. destruct (mem_get_in src sp) as [b ->]; [lia|].
  destruct (IH (sp + 1) b) as [[[ds b'] sp'] ->]; [lia..|]. eexists. reflexivity.
Qed.

Lemma copy_loop_none count src sp bits o rs :
  (0 < count)%nat -> 0 <= sp -> zlen src < sp + Z.of_nat count ->
  copy_loop count src sp bits o rs = None.
Proof.
  revert sp bits. induction count as [|c IH]; intros sp bits Hc H0 H1; [lia|].
  cbn [copy_loop]. destruct (mem_get src sp) as [b|] eqn:E; [|done].
  apply mem_get_bound in E. destruct c as [|c]; [lia|]. rewrite IH by lia. done.
Qed.

Lemma copy_loop_end count src sp bits o rs ds b' sp' :
  copy_loop count src sp bits o rs = Some (ds, b', sp') -> sp' = sp + Z.of_nat count.
Proof.
  revert sp bits ds. induction count as [|c IH]; intros sp bits ds E.
  - injection E as <- <- <-. lia.
  - cbn [copy_loop] in E. destruct (mem_get src sp); [|done].
    destruct (copy_loop c _ _ _ _ _) as [[[ds' b2] s2]|] eqn:E2; [|done].
    injection E as <- <- <-. apply IH in E2. lia.
Qed.

Lemma copy_bits_reads src soffs n :
  0 <= soffs -> 0 <= n < 2 ^ 34 -> soffs + n <= 8 * zlen src ->
  reads_ahead soffs n = false -> exists out, copy_bits src soffs n = Some out.
Proof.
  intros Hs Hn Hb Hr. unfold copy_bits. rewrite !land_7, copy_size by lia.
  destruct (Z.eqb_spec n 0) as [->|Hn0]; [eexists; reflexivity|].
  pose proof (Z.div_mod n 8 ltac:(lia)) as Hdm. pose proof (Z.mod_pos_bound n 8 ltac:(lia)) as Hm.
  unfold reads_ahead in Hr. set (d := n mod 8) in *. set (rmask := if d =? 0 then 0 else _). cbn zeta.
  destruct (Z.eqb_spec soffs 0) as [->|Hs0].
  { assert ((n + 7) / 8 <= zlen src) by (apply Z.lt_succ_r, Z.div_lt_upper_bound; lia).
    rewrite slice_prefix by (split; [apply Z.div_pos; lia|lia]). eexists. reflexivity. }
  pose proof (Z.div_mod soffs 8 ltac:(lia)) as Hsd. pose proof (Z.mod_pos_bound soffs 8 ltac:(lia)) as Hsm.
  assert (0 <= soffs / 8) as Ha by (apply Z.div_pos; lia).
  set (a := soffs / 8) in *. set (o := soffs mod 8) in *.
  destruct (mem_get_in src a) as [b0 ->]; [lia|].
  destruct (Z.ltb_spec n 8) as [H8|H8].
  { destruct (Z.ltb_spec 8 (o + n)); [|eexists; reflexivity].
    destruct (mem_get_in src (a + 1)) as [b1 ->]; [lia|]. eexists. reflexivity. }
  rewrite copy_count by lia. assert (1 <= n / 8) by (apply Z.div_le_lower_bound; lia).
  destruct (copy_loop _ _ _ _ _ _) as [[[ds b'] sp']|] eqn:E.
  - apply copy_loop_end in E as ->. unfold rmask.
    destruct (Z.eqb_spec d 0) as [Hd|Hd]; [eexists; reflexivity|].
    rewrite rmask_nonzero, rmask_spill by lia. destruct (Z.leb_spec (o + d) 8); [eexists; reflexivity|].
    destruct (Z.ltb_spec 8 (o + n)); [|lia]. cbn [negb].
    match goal with |- context [mem_get src ?x] => destruct (mem_get_in src x) as [b1 ->]; [lia|] end.
    eexists. reflexivity.
  - exfalso. match type of E with copy_loop ?c src ?x ?b ?o ?r = _ =>
      destruct (copy_loop_some c src x b o r) as [? E']; [..|congruence] end;
      destruct (Z.ltb_spec 8 (o + n)); try lia.
Qed.

(** ** The encoders and decoders *)

#[export] Instance ei_encode_binary_emits p :
  Emits (fun b i => ei_encode_binary b i p (zlen p)) (Some (ERL_BINARY_EXT :: be_bytes 4 (zlen p) ++ p)).
Proof.
  unfold ei_encode_binary. rewrite (slice_prefix p (zlen p)) by zlen_lia.
  replace (take _ p) with p by (unfold zlen; by rewrite Nat2Z.id, firstn_all).
  emits_straight.
Qed.

Lemma ei_decode_binary_decodes b p :
  zlen p < 2 ^ 31 ->
  Decodes (ei_decode_binary b) (ERL_BINARY_EXT :: be_bytes 4 (zlen p) ++ p)
    (if b then p else [], zlen p).
Proof.
  intros Hl m s Hh. unfold ei_decode_binary. read_tag Hh. apply get32be_holds in Hh as [-> Hh].
  rewrite wraps_small by (unfold in_s; zlen_lia). cbn [negb].
  destruct b; [rewrite (holds_slice _ _ _ _ Hh eq_refl)|]; f_equal; zlen_lia.
Qed.

Definition bitstring_header (bits : Z) : list Z :=
  if bits mod 8 =? 0 then ERL_BINARY_EXT :: be_bytes 4 ((bits + 7) / 8)
  else ERL_BIT_BINARY_EXT :: be_bytes 4 ((bits + 7) / 8) ++ [Z.land (bits mod 8) 255].

Lemma zlen_bitstring_header bits :
  zlen (bitstring_header bits) = if bits mod 8 =? 0 then 5 else 6.
Proof. unfold bitstring_header. destruct (bits mod 8 =? 0); zlen_lia. Qed.

Lemma ei_encode_bitstring_emits p bitoffs bits d :
  copy_bits p bitoffs bits = Some d -> zlen d = (bits + 7) / 8 ->
  Emits (fun b i => ei_encode_bitstring b i p bitoffs bits) (Some (bitstring_header bits ++ d)).
Proof.
  intros Hc Hz. unfold ei_encode_bitstring. rewrite Hc. split; intros.
  - f_equal. rewrite zlen_app, zlen_bitstring_header, Hz. destruct (bits mod 8 =? 0); cbn [negb]; lia.
  - unfold bitstring_header.
    assert (forall (m : mem) t (K : mem -> eres), match store m i [t] with None => EOob | Some m => K m end
      = let! (m, _s) := put_bytes m i [t] in K m) as E.
    { intros m0 t K. unfold put_bytes. by destruct (store m0 i [t]). }
    rewrite put32be_bytes. destruct (bits mod 8 =? 0); cbn [negb].
    + transitivity (let! (m2, s2) := put_bytes m (i + zlen [ERL_BINARY_EXT]) (be_bytes 4 ((bits + 7) / 8)) in
        let! (m3, _s) := put_bytes m2 i [ERL_BINARY_EXT] in
        let! (m4, s4) := put_bytes m3 s2 d in EOk (Some m4) s4).
      { change (zlen [ERL_BINARY_EXT]) with 1. destruct (put_bytes m (i + 1) _) as [[m1 s1]|]; [|done]. apply E. }
      rewrite put_backfill0. rewrite put_bytes_seq, emit_fold, <- app_assoc. reflexivity.
    + transitivity (let! (m2, s2) := put_bytes m (i + zlen [ERL_BIT_BINARY_EXT]) (be_bytes 4 ((bits + 7) / 8)) in
        let! (m3, _s) := put_bytes m2 i [ERL_BIT_BINARY_EXT] in
        let! (m4, s4) := put8 m3 s2 (bits mod 8) in
        let! (m5, s5) := put_bytes m4 s4 d in EOk (Some m5) s5).
      { change (zlen [ERL_BIT_BINARY_EXT]) with 1. destruct (put_bytes m (i + 1) _) as [[m1 s1]|]; [|done]. apply E. }
      rewrite put_backfill0. emits_steps. rewrite emit_fold. cbn [app]. by rewrite <- !app_assoc.
Qed.

Lemma ei_decode_bitstring_holds bits d m s :
  0 <= bits < 2 ^ 34 - 8 -> zlen d = (bits + 7) / 8 -> holds m s (bitstring_header bits ++ d) ->
  ei_decode_bitstring m s
  = DOk (s + zlen (bitstring_header bits), bits) (s + zlen (bitstring_header bits ++ d)).
Proof.
  intros Hb Hz Hh. rewrite zlen_app, zlen_bitstring_header. unfold bitstring_header in Hh.
  pose proof (Z.div_mod bits 8 ltac:(lia)) as Hdm. pose proof (Z.mod_pos_bound bits 8 ltac:(lia)) as Hm.
  assert (0 <= (bits + 7) / 8 < 2 ^ 31)
    by (split; [apply Z.div_pos; lia|apply Z.div_lt_upper_bound; lia]).
  assert ((bits + 7) / 8 = bits / 8 + if bits mod 8 =? 0 then 0 else 1) as Hq.
  { symmetry. apply Z.div_unique with (if bits mod 8 =? 0 then 7 else bits mod 8 - 1);
      destruct (Z.eqb_spec (bits mod 8) 0); lia. }
  unfold ei_decode_bitstring. destruct (Z.eqb_spec (bits mod 8) 0) as [E|E]; cbn [app] in Hh.
  - read_tag Hh. apply get32be_holds in Hh as [-> Hh]. rewrite wraps_small by (unfold in_s; lia).
    replace ((bits + 7) / 8 * 8) with bits by lia.
    rewrite wrapu_small by (unfold in_u; lia). rewrite <- !Z.add_assoc. f_equal. lia.
  - rewrite <- app_assoc in Hh. read_tag Hh. apply get32be_holds in Hh as [-> Hh].
    rewrite wraps_small by (unfold in_s; lia). cbn [app] in Hh.
    rewrite land_255_small in Hh by (unfold byte_ok; lia).
    apply get8_holds in Hh as [-> Hh]; [|unfold byte_ok; lia].
    replace (bits mod 8 =? 0) with false by lia. replace ((bits + 7) / 8 =? 0) with false by lia.
    replace (8 <? bits mod 8) with false by lia. cbn [Bool.eqb negb orb].
    replace (((bits + 7) / 8 - 1) * 8 + bits mod 8) with bits by lia.
    rewrite wrapu_small by (unfold in_u; lia). rewrite <- !Z.add_assoc. f_equal. lia.
Qed.

(** The bits of an output byte string, from its bytes. *)
Lemma copied_bits src base n out j :
  (forall i b, out !! i = Some b -> copied src base n (Z.of_nat i) b) ->
  0 <= j < 8 * zlen out ->
  bit_at out j = if j <? n then bit_at src (base + j) else false.
Proof.
  intros H Hj. pose proof (Z.div_mod j 8 ltac:(lia)) as Hdm.
  pose proof (Z.mod_pos_bound j 8 ltac:(lia)) as Hm.
  assert (0 <= j / 8) by (apply Z.div_pos; lia).
  destruct (mem_get_in out (j / 8)) as [b Hb]; [lia|]. unfold bit_at at 1. rewrite Hb.
  rewrite <- (Z2Nat.id (j / 8)), mem_get_lookup in Hb by lia.
  apply H in Hb as [_ Hb]. rewrite Hb by lia. rewrite Z2Nat.id by lia. by rewrite <- Hdm.
Qed.

Lemma holds_bit m s d j : holds m s d -> 0 <= j < 8 * zlen d -> bit_at m (8 * s + j) = bit_at d j.
Proof.
  intros Hh Hj. pose proof (Z.div_mod j 8 ltac:(lia)) as Hdm.
  pose proof (Z.mod_pos_bound j 8 ltac:(lia)) as Hm. assert (0 <= j / 8) by (apply Z.div_pos; lia).
  destruct (mem_get_in d (j / 8)) as [b Hb]; [lia|].
  replace (bit_at d j) with (Z.testbit b (7 - j mod 8)) by (unfold bit_at; by rewrite Hb).
  rewrite <- (Z2Nat.id (j / 8)), mem_get_lookup in Hb by lia.
  pose proof (holds_get _ _ _ _ _ Hh Hb) as Hg. rewrite Z2Nat.id in Hg by lia.
  rewrite Hdm at 1. rewrite Z.add_assoc, <- Z.mul_add_distr_l. by apply bit_at_byte.
Qed.

(** ** Properties *)

(** For a request that lies within the source, [copy_bits] reads only the
    source and produces exactly the requested bits, padded with zeros to a
    whole number of bytes, for every bit offset and every length; the one shape
    of request excluded is the one of [copy_bits_overread]. *)
Theorem copy_bits_correct src soffs n :
  bytes_ok src -> 0 <= soffs -> 0 <= n < 2 ^ 34 -> soffs + n <= 8 * zlen src ->
  reads_ahead soffs n = false ->
  exists out, copy_bits src soffs n = Some out /\ zlen out = (n + 7) / 8 /\
    forall j, 0 <= j < 8 * zlen out ->
      bit_at out j = if j <? n then bit_at src (soffs + j) else false.
Proof.
  intros Hok Hs Hn Hb Hr. destruct (copy_bits_reads src soffs n) as [out E]; [done..|].
  exists out. split; [done|]. apply copy_bits_copied in E as [Hz Hc]; [|done..].
  split; [done|]. intros j Hj. by apply copied_bits.
Qed.

Lemma copy_bits_correct_witness :
  exists out, copy_bits [0xAB; 0xCD; 0xEF] 3 13 = Some out /\ zlen out = 2 /\
    forall j, 0 <= j < 8 * zlen out ->
      bit_at out j = if j <? 13 then bit_at [0xAB; 0xCD; 0xEF] (3 + j) else false.
Proof.
  apply (copy_bits_correct [0xAB; 0xCD; 0xEF] 3 13);
    [repeat constructor; unfold byte_ok; lia|lia|lia|vm_compute; congruence|reflexivity].
Defined.

(** A byte-aligned offset of at least one byte together with a whole number
    of bytes, more than one, that ends at the end of the source makes
    [copy_bits] read the byte after the source. *)
Theorem copy_bits_overread src soffs n :
  0 <= soffs -> 0 <= n < 2 ^ 34 -> soffs + n = 8 * zlen src ->
  reads_ahead soffs n = true -> copy_bits src soffs n = None.
Proof.
  intros Hs Hn Hb Hr. unfold reads_ahead in Hr. unfold copy_bits. rewrite !land_7, copy_count by lia.
  rewrite !andb_true_iff, negb_true_iff, Z.eqb_neq, !Z.eqb_eq, Z.ltb_lt in Hr.
  destruct Hr as (((Hs0 & Ho) & Hd) & H8). rewrite Ho, Hd.
  pose proof (Z.div_mod n 8 ltac:(lia)) as Hdm. pose proof (Z.div_mod soffs 8 ltac:(lia)) as Hsd.
  replace (n =? 0) with false by lia. replace (soffs =? 0) with false by lia.
  replace (n <? 8) with false by lia. replace (8 <? 0 + n) with true by lia.
  destruct (mem_get src (soffs / 8)) as [b|]; [|done].
  rewrite copy_loop_none by lia. done.
Qed.

Lemma copy_bits_overread_witness : copy_bits [1; 2; 3] 8 16 = None.
Proof. apply (copy_bits_overread [1; 2; 3] 8 16); [lia|lia|reflexivity|reflexivity]. Defined.

(** A bit string of up to 2^34-9 bits taken from any bit offset of a source
    that holds it, but for the requests of [copy_bits_overread], and written by
    [ei_encode_bitstring] is found again by [ei_decode_bitstring]: the same
    number of bits, and at the position it returns the same bits. *)
Theorem bitstring_roundtrip p bitoffs bits :
  bytes_ok p -> 0 <= bitoffs -> 0 <= bits < 2 ^ 34 - 8 -> bitoffs + bits <= 8 * zlen p ->
  reads_ahead bitoffs bits = false ->
  Transfers (fun b i => ei_encode_bitstring b i p bitoffs bits) ei_decode_bitstring
    (fun m' '(pos, n) => n = bits /\
       forall k, 0 <= k < bits -> bit_at m' (8 * pos + k) = bit_at p (bitoffs + k)).
Proof.
  intros Hok Ho Hb Hf Hr. destruct (copy_bits_reads p bitoffs bits) as [d Hc]; [done|lia|done|done|].
  pose proof (copy_bits_copied p bitoffs bits d Hok Ho ltac:(lia) Hc) as [Hz Hcp].
  apply (emits_transfers _ _ _ _ (ei_encode_bitstring_emits p bitoffs bits d Hc Hz)). intros m i Hh.
  exists (i + zlen (bitstring_header bits), bits). split; [by apply ei_decode_bitstring_holds|].
  split; [done|]. apply holds_app in Hh as [_ Hh]. intros k Hk.
  assert (bits <= 8 * zlen d).
  { rewrite Hz. pose proof (Z.div_mod (bits + 7) 8 ltac:(lia)).
    pose proof (Z.mod_pos_bound (bits + 7) 8 ltac:(lia)). lia. }
  rewrite (holds_bit _ _ _ _ Hh) by lia. rewrite (copied_bits _ _ _ _ _ Hcp) by lia.
  by replace (k <? bits) with true by lia.
Qed.

Lemma bitstring_roundtrip_witness :
  Transfers (fun b i => ei_encode_bitstring b i [0xAB; 0xCD] 3 10) ei_decode_bitstring
    (fun m' '(pos, n) => n = 10 /\
       forall k, 0 <= k < 10 -> bit_at m' (8 * pos + k) = bit_at [0xAB; 0xCD] (3 + k)).
Proof.
  apply (bitstring_roundtrip [0xAB; 0xCD] 3 10);
    [repeat constructor; unfold byte_ok; lia|lia|lia|vm_compute; discriminate|reflexivity].
Defined.
