(* ===== verification/EiBig.v ===== *)
(** * Big integers: [encode_big.c], [decode_big.c], [encode_bignum.c] and
    [decode_bignum.c] *)
From S2P Require Import Prelude PutGet EiTypes EiAtom EiData.

(** ** [encode_big.c] *)

(** The store loop, [n] iterations from [i] on; [None] when it reads a digit
    that is not there or writes outside of the block. *)
Fixpoint store_digits (n : nat) (i : Z) (dt : list Z) (digit_bytes : Z) (m : mem) (s : Z) : option mem :=
  match n with
  | O => Some m
  | S n =>
      match mem_get dt i with
      | None => None
      | Some d =>
          let hi := Z.land (Z.shiftr d 8) 255 in
          let lo := Z.land d 255 in
          match store m (s + i * 2) [lo] with
          | None => None
          | Some m =>
              if i * 2 + 1 <? digit_bytes then
                match store m (s + (i * 2 + 1)) [hi] with
                | None => None
                | Some m => store_digits n (i + 1) dt digit_bytes m s
                end
              else store_digits n (i + 1) dt digit_bytes m s
          end
      end
  end.

(** The number of 16-bit digits, in [unsigned int] arithmetic. *)
Definition digit_count (digit_bytes : Z) : Z := wrapu 32 (digit_bytes + 1) / 2.

Definition ei_encode_big (buf : option mem) (index : Z) (big : erlang_big) : eres :=
  let digit_bytes := big_arity big in
  let n := digit_count digit_bytes in
  match buf with
  | None => EOk None (index + (if digit_bytes <? 256 then 2 else 5) + 1 + digit_bytes)
  | Some m =>
      let body m s :=
        let! (m, s) := put8 m s (big_is_neg big) in
        match store_digits (Z.to_nat n) 0 (big_digits big) digit_bytes m s with
        | None => EOob
        | Some m => EOk (Some m) (s + digit_bytes)
        end in
      if digit_bytes <? 256 then
        let! (m, s) := put8 m index ERL_SMALL_BIG_EXT in
        let! (m, s) := put8 m s digit_bytes in body m s
      else
        let! (m, s) := put8 m index ERL_LARGE_BIG_EXT in
        let! (m, s) := put32be m s digit_bytes in body m s
  end.

(** ** [decode_big.c] *)

(** The load loop on the bytes of the magnitude. *)
Fixpoint load_digits (l : list Z) : list Z :=
  match l with
  | [] => []
  | [b] => [b]
  | b0 :: b1 :: l => Z.lor b0 (Z.shiftl b1 8) :: load_digits l
  end.

(** [b] is the arity of the destination, [None] for NULL.  [*index] is an [int]:
    adding the unsigned [digit_bytes] to it is adding the [int] that was read. *)
Definition ei_decode_big (b : option Z) (m : mem) (index : Z) : dres (option erlang_big) :=
  let? (tag, s) := get8 m index in
  let body len s :=
    let digit_bytes := wrapu 32 len in
    match b with
    | Some arity =>
        if negb (digit_bytes =? arity) then DErr index else
        let? (is_neg, s) := get8 m s in
        slice? l := slice m s digit_bytes in
        DOk (Some {| big_arity := arity; big_is_neg := is_neg; big_digits := load_digits l |}) (s + len)
    | None => DOk None (s + 1 + len)
    end in
  if tag =? ERL_SMALL_BIG_EXT then let? (len, s) := get8 m s in body len s
  else if tag =? ERL_LARGE_BIG_EXT then let? (len, s) := get32be m s in body len s
  else DErr index.

(** [ok1], [ok2]: whether the two [malloc] calls succeed. *)
Definition ei_alloc_big (ok1 ok2 : bool) (digit_bytes : Z) : option erlang_big :=
  if negb ok1 then None
  else if negb ok2 then None
  else Some {| big_arity := digit_bytes; big_is_neg := 0;
               big_digits := replicate (Z.to_nat (digit_count digit_bytes)) 0 |}.

(** The loop of [I_comp], with [xl] digits left; [None] for a read outside of
    the digits. *)
Fixpoint I_comp_loop (xl : nat) (x y : list Z) : option Z :=
  match xl with
  | O => Some 0
  | S k =>
      match x !! k, y !! k with
      | Some a, Some b =>
          if a =? b then I_comp_loop k x y else Some (if a <? b then -1 else 1)
      | _, _ => None
      end
  end.

(** [same]: the two pointers are equal. *)
Definition I_comp (same : bool) (x : list Z) (xl : Z) (y : list Z) (yl : Z) : option Z :=
  if xl <? yl then Some (-1)
  else if yl <? xl then Some 1
  else if same then Some 0
  else I_comp_loop (Z.to_nat xl) x y.

Definition ei_big_comp (same : bool) (x y : erlang_big) : option Z :=
  if big_is_neg x =? big_is_neg y then
    match I_comp same (big_digits x) (digit_count (big_arity x)) (big_digits y) (digit_count (big_arity y)) with
    | None => None
    | Some c => Some (if negb (big_is_neg x =? 0) then - c else c)
    end
  else Some (if negb (big_is_neg x =? 0) then -1 else 1).

Definition DLOW (x : Z) : Z := Z.land x 65535.
Definition DHIGH (x : Z) : Z := Z.land (Z.shiftr x 16) 65535.

(** [None] is [return -1]. *)
Definition ei_small_to_big (s : Z) (b : erlang_big) : option erlang_big :=
  let n := digit_count (big_arity b) in
  if n <? 2 then None
  else Some {| big_arity := big_arity b; big_is_neg := if s <? 0 then 1 else 0;
               big_digits := <[1%nat := DHIGH s]> (<[0%nat := DLOW s]> (big_digits b)) |}.

(** ** The integer a big stands for *)

Fixpoint digits_val (l : list Z) : Z :=
  match l with
  | [] => 0
  | d :: l => d + 65536 * digits_val l
  end.

Definition big_value (b : erlang_big) : Z :=
  if big_is_neg b =? 0 then digits_val (big_digits b) else - digits_val (big_digits b).

(** A big as [ei_alloc_big] lays it out: one 16-bit digit per two bytes, whose
    magnitude fits in [arity] bytes (the upper half of the last digit is unused
    when [arity] is odd). *)
Definition big_wf (b : erlang_big) : Prop :=
  0 <= big_arity b < 2 ^ 31 /\ byte_ok (big_is_neg b) /\
  zlen (big_digits b) = (big_arity b + 1) / 2 /\ Forall (in_u 16) (big_digits b) /\
  digits_val (big_digits b) < 256 ^ big_arity b.

(** No leading zero digit, and zero is not negative. *)
Definition big_normal (b : erlang_big) : Prop :=
  (big_is_neg b = 0 \/ big_is_neg b = 1 /\ big_digits b <> []) /\
  (big_digits b <> [] -> 65536 ^ (zlen (big_digits b) - 1) <= digits_val (big_digits b)).

(** The external format of a big. *)
Definition big_ext (b : erlang_big) : list Z :=
  (if big_arity b <? 256 then [ERL_SMALL_BIG_EXT; Z.land (big_arity b) 255]
   else ERL_LARGE_BIG_EXT :: be_bytes 4 (big_arity b))
  ++ Z.land (big_is_neg b) 255 :: le_bytes (Z.to_nat (big_arity b)) (digits_val (big_digits b)).

Lemma digit_count_eq k : 0 <= k < 2 ^ 31 -> digit_count k = (k + 1) / 2.
Proof. intros H. unfold digit_count. rewrite wrapu_small; [done|]. unfold in_u. lia. Qed.

Lemma digits_val_range l :
  Forall (in_u 16) l -> 0 <= digits_val l < 65536 ^ zlen l.
Proof.
  induction 1 as [|d l Hd _ IH]; [change (zlen (@nil Z)) with 0; cbn; lia|]. cbn [digits_val].
  rewrite zlen_cons, Z.pow_add_r by zlen_lia. change (65536 ^ 1) with 65536.
  unfold in_u in Hd. change (2 ^ 16) with 65536 in Hd. nia.
Qed.

Lemma digits_val_inj l1 l2 :
  Forall (in_u 16) l1 -> Forall (in_u 16) l2 -> length l1 = length l2 ->
  digits_val l1 = digits_val l2 -> l1 = l2.
Proof.
  intros H. revert l2. induction H as [|d l Hd Hl IH]; intros [|d2 l2] H2 Hlen Hv; try done.
  apply Forall_cons_iff in H2 as [Hd2 H2]. cbn in *. unfold in_u in *.
  change (2 ^ 16) with 65536 in *.
  assert (d = d2 /\ digits_val l = digits_val l2) as [-> E] by lia.
  f_equal. apply IH; [done|lia|done].
Qed.

Lemma digit_lo d v : in_u 16 d -> Z.land (d + 65536 * v) 255 = Z.land d 255.
Proof.
  intros _. rewrite !land_255. replace (d + 65536 * v) with (d + 256 * v * 256) by lia.
  apply Z_mod_plus_full.
Qed.

Lemma digit_hi d v : Z.shiftr (d + 65536 * v) 8 = Z.shiftr d 8 + 256 * v.
Proof.
  rewrite !Z.shiftr_div_pow2 by lia. change (2 ^ 8) with 256.
  replace (d + 65536 * v) with (d + 256 * v * 256) by lia. rewrite Z.div_add by lia. lia.
Qed.

Lemma le_bytes_digit k d v :
  in_u 16 d -> le_bytes (S (S k)) (d + 65536 * v) = Z.land d 255 :: Z.land (Z.shiftr d 8) 255 :: le_bytes k v.
Proof.
  intros Hd. cbn [le_bytes]. rewrite digit_lo, digit_hi by done. f_equal.
  unfold in_u in Hd. change (2 ^ 16) with 65536 in Hd.
  assert (0 <= Z.shiftr d 8 < 256).
  { rewrite Z.shiftr_div_pow2 by lia. change (2 ^ 8) with 256.
    split; [apply Z.div_pos; lia|apply Z.div_lt_upper_bound; lia]. }
  f_equal.
  - rewrite !land_255, (Z.mul_comm 256), Z_mod_plus_full. done.
  - f_equal. rewrite Z.shiftr_div_pow2 by lia. change (2 ^ 8) with 256.
    rewrite (Z.mul_comm 256), Z.div_add, Z.div_small by lia. done.
Qed.

Lemma store_digits_spec suf pre k m s :
  Forall (in_u 16) suf -> zlen suf = (k + 1) / 2 -> 0 <= k -> 0 <= s + 2 * zlen pre <= zlen m ->
  store_digits (length suf) (zlen pre) (pre ++ suf) (2 * zlen pre + k) m s
  = store m (s + 2 * zlen pre) (le_bytes (Z.to_nat k) (digits_val suf)).
Proof.
  intros H. revert pre k m. induction H as [|d suf Hd Hsuf IH]; intros pre k m Hz Hk Hb.
  - assert (k = 0) as ->.
    { change (zlen (@nil Z)) with 0 in Hz. pose proof (Z.div_mod (k + 1) 2 ltac:(lia)).
      pose proof (Z.mod_pos_bound (k + 1) 2 ltac:(lia)). lia. }
    cbn. by rewrite store_nil.
  - cbn [length store_digits]. rewrite zlen_cons in Hz.
    destruct (holds_cons (pre ++ d :: suf) (zlen pre) d suf) as [-> _].
    { exists pre, []. by rewrite app_nil_r. }
    pose proof (Z.div_mod (k + 1) 2 ltac:(lia)) as Hdm.
    pose proof (Z.mod_pos_bound (k + 1) 2 ltac:(lia)) as Hm. pose proof (zlen_nonneg suf).
    rewrite (Z.mul_comm (zlen pre) 2). destruct (Z.ltb_spec (2 * zlen pre + 1) (2 * zlen pre + k)) as [Hlt|Hlt].
    + replace (Z.to_nat k) with (S (S (Z.to_nat (k - 2)))) by lia. cbn [digits_val].
      rewrite le_bytes_digit by done.
      change (Z.land d 255 :: Z.land (Z.shiftr d 8) 255 :: ?r) with
        ([Z.land d 255] ++ [Z.land (Z.shiftr d 8) 255] ++ r).
      rewrite <- store_seq. change (zlen [Z.land d 255]) with 1.
      destruct (store m (s + 2 * zlen pre) [Z.land d 255]) as [m1|] eqn:E1; [|done].
      rewrite <- store_seq. change (zlen [Z.land (Z.shiftr d 8) 255]) with 1.
      rewrite (Z.add_assoc s). 
      destruct (store m1 _ _) as [m2|] eqn:E2; [|done].
      apply store_bounds in E1 as (? & ? & ?), E2 as (? & E2 & ?).
      change (zlen [Z.land (Z.shiftr d 8) 255]) with 1 in E2.
      specialize (IH (pre ++ [d]) (k - 2) m2). rewrite zlen_app in IH. change (zlen [d]) with 1 in IH.
      rewrite <- app_assoc in IH. cbn [app] in IH.
      replace (2 * zlen pre + k) with (2 * (zlen pre + 1) + (k - 2)) by lia.
      rewrite IH; [f_equal; lia| |lia|lia].
      replace (k - 2 + 1) with (k + 1 + -1 * 2) by lia. rewrite Z.div_add by lia. lia.
    + assert (k = 1) as -> by lia. cbn in Hz. assert (suf = []) as ->.
      { destruct suf; [done|]. rewrite zlen_cons in Hz. zlen_lia. }
      change (Z.to_nat 1) with 1%nat. cbn [digits_val le_bytes length store_digits].
      rewrite digit_lo by done. by destruct (store m _ _).
Qed.

#[export] Instance ei_encode_big_emits big :
  big_wf big -> Emits (fun b i => ei_encode_big b i big) (Some (big_ext big)).
Proof.
  intros (Ha & Hn & Hz & Hd & Hv). unfold ei_encode_big, big_ext.
  rewrite digit_count_eq, <- Hz by lia.
  assert (forall m s, 0 <= s <= zlen m ->
    store_digits (Z.to_nat (zlen (big_digits big))) 0 (big_digits big) (big_arity big) m s
    = store m s (le_bytes (Z.to_nat (big_arity big)) (digits_val (big_digits big)))) as P.
  { intros m s Hs. pose proof (store_digits_spec (big_digits big) [] (big_arity big) m s) as E.
    cbn [app] in E. change (2 * zlen (@nil Z)) with 0 in E. change (zlen (@nil Z)) with 0 in E.
    rewrite Z.add_0_r, Z.add_0_l in E. unfold zlen at 1. rewrite Nat2Z.id. apply E; (done || lia). }
  assert (forall m i l, 0 < zlen l ->
    (let! (m, s) := put_bytes m i l in
     match store_digits (Z.to_nat (zlen (big_digits big))) 0 (big_digits big) (big_arity big) m s with
     | None => EOob | Some m => EOk (Some m) (s + big_arity big) end)
    = emit m i (l ++ le_bytes (Z.to_nat (big_arity big)) (digits_val (big_digits big)))) as B.
  { intros m i l Hl. rewrite <- emit_fold, <- put_bytes_seq. unfold put_bytes.
    destruct (store m i l) as [m1|] eqn:E; [|done]. apply store_bounds in E as (? & ? & ?).
    rewrite P by lia. destruct (store m1 _ _); [|done]. do 2 f_equal. zlen_lia. }
  split; intros.
  - f_equal. destruct (big_arity big <? 256); zlen_lia.
  - destruct (big_arity big <? 256); emits_steps; rewrite B by zlen_lia; by rewrite <- ?app_assoc.
Qed.

(** ** Decoding *)

Lemma load_digits_spec l :
  bytes_ok l -> digits_val (load_digits l) = le_val l /\ Forall (in_u 16) (load_digits l) /\
    zlen (load_digits l) = (zlen l + 1) / 2.
Proof.
  induction l as [l IH] using (induction_ltof1 _ (@length Z)). unfold ltof in IH. intros Hok.
  destruct l as [|b0 [|b1 l]]; cbn [load_digits digits_val le_val].
  - repeat split; constructor.
  - apply Forall_cons_iff in Hok as [H0 _]. unfold byte_ok in H0. split; [lia|]. split; [|done].
    constructor; [unfold in_u; lia|constructor].
  - apply Forall_cons_iff in Hok as [H0 Hok]. apply Forall_cons_iff in Hok as [H1 Hok].
    destruct (IH l) as (I1 & I2 & I3); [cbn; lia|done|]. unfold byte_ok in *.
    rewrite Z.lor_comm, lor_shiftl_add by lia. rewrite I1. split; [lia|]. split.
    + constructor; [unfold in_u; lia|done].
    + rewrite !zlen_cons, I3. replace (1 + (1 + zlen l) + 1) with (zlen l + 1 + 1 * 2) by lia.
      rewrite Z.div_add by lia. lia.
Qed.

Lemma le_val_wrap k v : 0 <= v < 256 ^ Z.of_nat k -> le_val (le_bytes k v) = v.
Proof. intros H. rewrite le_val_bytes. apply wrapu_small. unfold in_u. by rewrite <- pow_256 by lia. Qed.

Lemma ei_decode_big_decodes big b :
  big_wf big -> (b = None \/ b = Some (big_arity big)) ->
  Decodes (ei_decode_big b) (big_ext big) (if b is Some _ then Some big else None).
Proof.
  intros (Ha & Hn & Hz & Hd & Hv) Hb m s Hh. unfold big_ext in *.
  rewrite (land_255_small _ Hn) in Hh.
  assert (forall t, holds m t (big_is_neg big :: le_bytes (Z.to_nat (big_arity big)) (digits_val (big_digits big))) ->
    match b with
    | Some arity =>
        if negb (wrapu 32 (big_arity big) =? arity) then DErr s else
        let? (is_neg, s) := get8 m t in
        slice? l := slice m s (wrapu 32 (big_arity big)) in
        DOk (Some {| big_arity := arity; big_is_neg := is_neg; big_digits := load_digits l |})
          (s + big_arity big)
    | None => DOk None (t + 1 + big_arity big)
    end = DOk (if b is Some _ then Some big else None) (t + 1 + big_arity big)) as B.
  { intros t Ht. destruct Hb as [->| ->]; [done|]. rewrite wrapu_small by (unfold in_u; lia).
    rewrite Z.eqb_refl. cbn [negb]. apply get8_holds in Ht as [-> Ht]; [|exact Hn].
    rewrite (holds_slice _ _ _ _ Ht) by (rewrite zlen_le_bytes; lia). do 2 f_equal.
    destruct (load_digits_spec (le_bytes (Z.to_nat (big_arity big)) (digits_val (big_digits big)))) as (E1 & E2 & E3);
      [apply le_bytes_ok|].
    destruct big as [a n ds]. cbn in *. f_equal. apply digits_val_inj; [done..| |].
    - rewrite zlen_le_bytes, Z2Nat.id, <- Hz in E3 by lia. unfold zlen in E3. lia.
    - rewrite E1. apply le_val_wrap. rewrite Z2Nat.id by lia. split; [|done].
      by apply digits_val_range. }
  unfold ei_decode_big. destruct (Z.ltb_spec (big_arity big) 256); cbn [app] in Hh; read_tag Hh.
  - rewrite land_255_small in Hh by (unfold byte_ok; lia).
    apply get8_holds in Hh as [-> Hh]; [|unfold byte_ok; lia].
    rewrite B by exact Hh. f_equal. zlen_lia.
  - apply get32be_holds in Hh as [-> Hh]. rewrite wraps_small by (unfold in_s; lia).
    rewrite B by exact Hh. f_equal. zlen_lia.
Qed.

(** ** Comparison *)

Lemma digits_val_snoc l d : digits_val (l ++ [d]) = digits_val l + 65536 ^ zlen l * d.
Proof.
  induction l as [|x l IH]; [change (zlen (@nil Z)) with 0; cbn; lia|].
  cbn [app digits_val]. rewrite IH, zlen_cons, Z.pow_add_r by zlen_lia. lia.
Qed.

Lemma take_S_digits (l : list Z) k a : l !! k = Some a -> Forall (in_u 16) l ->
  digits_val (take (S k) l) = digits_val (take k l) + 65536 ^ Z.of_nat k * a.
Proof.
  intros E _. rewrite (take_S_r _ _ _ E), digits_val_snoc. do 3 f_equal.
  apply lookup_lt_Some in E. unfold zlen. rewrite length_take. lia.
Qed.

Lemma I_comp_loop_spec k x y :
  Forall (in_u 16) x -> Forall (in_u 16) y -> (k <= length x)%nat -> (k <= length y)%nat ->
  I_comp_loop k x y = Some (Z.sgn (digits_val (take k x) - digits_val (take k y))).
Proof.
  intros Hx Hy. induction k as [|k IH]; intros Lx Ly; [done|]. cbn [I_comp_loop].
  destruct (lookup_lt_is_Some_2 x k ltac:(lia)) as [a Ea].
  destruct (lookup_lt_is_Some_2 y k ltac:(lia)) as [b Eb]. rewrite Ea, Eb.
  rewrite (take_S_digits _ _ _ Ea Hx), (take_S_digits _ _ _ Eb Hy).
  pose proof (digits_val_range _ (Forall_take _ k _ Hx)) as Rx.
  pose proof (digits_val_range _ (Forall_take _ k _ Hy)) as Ry.
  assert (zlen (take k x) = Z.of_nat k) as Zx by (unfold zlen; rewrite length_take; lia).
  assert (zlen (take k y) = Z.of_nat k) as Zy by (unfold zlen; rewrite length_take; lia).
  rewrite Zx in Rx. rewrite Zy in Ry.
  destruct (Z.eqb_spec a b) as [->|Hab]; [rewrite IH by lia; do 2 f_equal; lia|].
  f_equal. symmetry. destruct (Z.ltb_spec a b); [apply Z.sgn_neg|apply Z.sgn_pos]; nia.
Qed.

Lemma digits_longer x y :
  Forall (in_u 16) x -> zlen x < zlen y ->
  (y <> [] -> 65536 ^ (zlen y - 1) <= digits_val y) -> digits_val x < digits_val y.
Proof.
  intros Hx Hl Hy. apply digits_val_range in Hx.
  assert (y <> []) as Hne by (intros ->; zlen_lia). specialize (Hy Hne).
  assert (65536 ^ zlen x <= 65536 ^ (zlen y - 1)) by (apply Z.pow_le_mono_r; lia). lia.
Qed.

Lemma I_comp_spec same x y :
  Forall (in_u 16) x -> Forall (in_u 16) y -> (same = true -> x = y) ->
  (x <> [] -> 65536 ^ (zlen x - 1) <= digits_val x) ->
  (y <> [] -> 65536 ^ (zlen y - 1) <= digits_val y) ->
  I_comp same x (zlen x) y (zlen y) = Some (Z.sgn (digits_val x - digits_val y)).
Proof.
  intros Hx Hy Hs Nx Ny. unfold I_comp. destruct (Z.ltb_spec (zlen x) (zlen y)) as [H1|H1].
  { rewrite Z.sgn_neg; [done|]. pose proof (digits_longer x y Hx H1 Ny). lia. }
  destruct (Z.ltb_spec (zlen y) (zlen x)) as [H2|H2].
  { rewrite Z.sgn_pos; [done|]. pose proof (digits_longer y x Hy H2 Nx). lia. }
  destruct same; [rewrite (Hs eq_refl), Z.sub_diag; done|].
  unfold zlen in *. rewrite Nat2Z.id, I_comp_loop_spec by (done || lia).
  rewrite firstn_all. replace (length x) with (length y) by lia. by rewrite firstn_all.
Qed.

(** ** [encode_bignum.c] and [decode_bignum.c], over GMP *)

(** What the two files use of GMP: numbers with an integer value, and the
    documented behaviour of the calls for one-byte words, least significant
    first.  [mpz_import] makes a number of the bytes of a magnitude. *)
Class Gmp := {
  mpz : Type;
  mpz_val : mpz -> Z;
  mpz_sgn : mpz -> Z;
  mpz_sizeinbase2 : mpz -> Z;
  mpz_export : mpz -> list Z;
  mpz_import : list Z -> mpz;
  mpz_set_ui : Z -> mpz;
  mpz_neg : mpz -> mpz;
  mpz_sgn_val : forall n, mpz_sgn n = Z.sgn (mpz_val n);
  mpz_sizeinbase2_val : forall n, mpz_val n <> 0 ->
    1 <= mpz_sizeinbase2 n /\ 2 ^ (mpz_sizeinbase2 n - 1) <= Z.abs (mpz_val n) < 2 ^ mpz_sizeinbase2 n;
  mpz_export_val : forall n, mpz_val n <> 0 ->
    bytes_ok (mpz_export n) /\ le_val (mpz_export n) = Z.abs (mpz_val n) /\
    zlen (mpz_export n) = (mpz_sizeinbase2 n + 7) / 8;
  mpz_import_val : forall l, bytes_ok l -> mpz_val (mpz_import l) = le_val l;
  mpz_set_ui_val : forall n, in_u 64 n -> mpz_val (mpz_set_ui n) = n;
  mpz_neg_val : forall n, mpz_val (mpz_neg n) = - mpz_val n
}.

Section Bignum.
Context {G : Gmp}.

Definition ei_encode_bignum (buf : option mem) (index : Z) (obj : mpz) : eres :=
  let mpz_sign := mpz_sgn obj in
  if mpz_sign =? 0 then
    match buf with
    | None => EOk None (index + 2)
    | Some m =>
        let! (m, s) := put8 m index ERL_SMALL_INTEGER_EXT in
        let! (m, s) := put8 m s 0 in EOk (Some m) s
    end
  else
    match buf with
    | None => EOk None (index + (mpz_sizeinbase2 obj + 8 - 1) / 8)
    | Some m =>
        let! (m, s) := put8 m index ERL_LARGE_BIG_EXT in
        let arityp := s in
        let s := s + 4 in
        let! (m, s) := put8 m s (if mpz_sign =? 1 then 1 else 0) in
        let l := mpz_export obj in
        let! (m, s) := put_bytes m s l in
        let! (m, _s) := put32le m arityp (zlen l) in
        EOk (Some m) s
    end.

Definition ei_decode_bignum (m : mem) (index : Z) : dres mpz :=
  let? (tag, s) := get8 m index in
  let decode_bytes arity s :=
    let? (sign, s) := get8 m s in
    slice? l := slice m s arity in
    let obj := mpz_import l in
    DOk (if negb (sign =? 0) then mpz_neg obj else obj) (s + arity) in
  if tag =? ERL_SMALL_INTEGER_EXT then
    let? (n, s) := get8 m s in DOk (mpz_set_ui n) s
  else if tag =? ERL_INTEGER_EXT then
    let? (n, s) := get32be m s in DOk (mpz_set_ui (wrapu 64 n)) s
  else if tag =? ERL_SMALL_BIG_EXT then
    let? (arity, s) := get8 m s in decode_bytes arity s
  else if tag =? ERL_LARGE_BIG_EXT then
    let? (arity, s) := get32be m s in decode_bytes arity s
  else DErr index.

Lemma decode_bytes_holds b m t :
  big_wf b -> holds m t (big_is_neg b :: le_bytes (Z.to_nat (big_arity b)) (digits_val (big_digits b))) ->
  exists n, mpz_val n = big_value b /\
    (let? (sign, s) := get8 m t in
     slice? l := slice m s (big_arity b) in
     DOk (if negb (sign =? 0) then mpz_neg (mpz_import l) else mpz_import l) (s + big_arity b))
    = DOk n (t + 1 + big_arity b).
Proof.
  intros (Ha & Hn & Hz & Hd & Hv) Hh. apply get8_holds in Hh as [-> Hh]; [|exact Hn].
  rewrite (holds_slice _ _ _ _ Hh) by (rewrite zlen_le_bytes; lia).
  eexists. split; [|reflexivity]. unfold big_value.
  assert (le_val (le_bytes (Z.to_nat (big_arity b)) (digits_val (big_digits b))) = digits_val (big_digits b)) as E.
  { apply le_val_wrap. rewrite Z2Nat.id by lia. split; [|done]. by apply digits_val_range. }
  destruct (big_is_neg b =? 0); cbn [negb].
  - rewrite mpz_import_val, E by apply le_bytes_ok. done.
  - rewrite mpz_neg_val, mpz_import_val, E by apply le_bytes_ok. done.
Qed.

Lemma ei_decode_bignum_holds b m s :
  big_wf b -> holds m s (big_ext b) ->
  exists n, mpz_val n = big_value b /\ ei_decode_bignum m s = DOk n (s + zlen (big_ext b)).
Proof.
  intros Hw Hh. pose proof Hw as (Ha & Hn & _). unfold big_ext in *. rewrite (land_255_small _ Hn) in Hh.
  unfold ei_decode_bignum.
  destruct (Z.ltb_spec (big_arity b) 256); cbn [app] in Hh; read_tag Hh.
  - rewrite land_255_small in Hh by (unfold byte_ok; lia).
    apply get8_holds in Hh as [-> Hh]; [|unfold byte_ok; lia].
    destruct (decode_bytes_holds b m _ Hw Hh) as (n & En & ->). exists n. split; [done|].
    f_equal. zlen_lia.
  - apply get32be_holds in Hh as [-> Hh]. rewrite wraps_small by (unfold in_s; lia).
    destruct (decode_bytes_holds b m _ Hw Hh) as (n & En & ->). exists n. split; [done|].
    f_equal. zlen_lia.
Qed.

(** What the encoder writes for a non-zero number. *)
Lemma ei_encode_bignum_writes obj m i :
  mpz_val obj <> 0 ->
  ei_encode_bignum (Some m) i obj
  = emit m i ([ERL_LARGE_BIG_EXT] ++ le_bytes 4 (zlen (mpz_export obj)) ++
              [if 0 <? mpz_val obj then 1 else 0] ++ mpz_export obj).
Proof.
  intros Hv. unfold ei_encode_bignum. rewrite mpz_sgn_val.
  destruct (Z.eqb_spec (Z.sgn (mpz_val obj)) 0); [lia|].
  replace (Z.sgn (mpz_val obj) =? 1) with (0 <? mpz_val obj) by lia.
  rewrite !put8_bytes. change (Z.land ERL_LARGE_BIG_EXT 255) with ERL_LARGE_BIG_EXT.
  rewrite <- emit_fold, <- (put_backfill m i [ERL_LARGE_BIG_EXT] (le_bytes 4 (zlen (mpz_export obj)))).
  destruct (put_bytes m i [ERL_LARGE_BIG_EXT]) as [[m1 s1]|]; [|done].
  rewrite zlen_le_bytes. rewrite put8_bytes, put_bytes_seq.
  replace (Z.land (if 0 <? mpz_val obj then 1 else 0) 255) with (if 0 <? mpz_val obj then 1 else 0)
    by (by destruct (0 <? mpz_val obj)).
  destruct (put_bytes m1 _ _) as [[m2 s2]|]; [|done]. by rewrite put32le_bytes.
Qed.
End Bignum.

(** GMP's numbers as integers. *)
Definition gmp_export (n : Z) : list Z := le_bytes (Z.to_nat ((Z.log2 (Z.abs n) + 1 + 7) / 8)) (Z.abs n).

#[program]
Definition gmp_Z : Gmp := {|
  mpz := Z; mpz_val n := n; mpz_sgn := Z.sgn; mpz_sizeinbase2 n := Z.log2 (Z.abs n) + 1;
  mpz_export := gmp_export; mpz_import := le_val; mpz_set_ui n := n; mpz_neg := Z.opp |}.
Next Obligation. done. Qed.
Next Obligation.
  intros n Hn. pose proof (Z.log2_spec (Z.abs n) ltac:(lia)) as H.
  pose proof (Z.log2_nonneg (Z.abs n)). cbn beta in *. rewrite Z.add_simpl_r, Z.add_1_r. lia.
Qed.
Next Obligation.
  intros n Hn. pose proof (Z.log2_spec (Z.abs n) ltac:(lia)) as H. pose proof (Z.log2_nonneg (Z.abs n)) as H0.
  assert (0 <= (Z.log2 (Z.abs n) + 1 + 7) / 8) by (apply Z.div_pos; lia). unfold gmp_export.
  split; [apply le_bytes_ok|]. split; [|rewrite zlen_le_bytes; lia].
  apply le_val_wrap. rewrite Z2Nat.id, pow_256 by lia. split; [lia|].
  eapply Z.lt_le_trans; [apply H|]. apply Z.pow_le_mono_r; [lia|].
  pose proof (Z.div_mod (Z.log2 (Z.abs n) + 1 + 7) 8 ltac:(lia)).
  pose proof (Z.mod_pos_bound (Z.log2 (Z.abs n) + 1 + 7) 8 ltac:(lia)). lia.
Qed.
Next Obligation. done. Qed.
Next Obligation. done. Qed.
Next Obligation. done. Qed.

(** ** Properties *)

(** Every well-formed big, of up to 2^31-1 bytes, written by
    [ei_encode_big] is read back by [ei_decode_big], digit for digit, into a
    destination of the same arity. *)
Theorem big_roundtrip big :
  big_wf big ->
  RoundTrip (fun b i => ei_encode_big b i big) (ei_decode_big (Some (big_arity big))) (Some big).
Proof.
  intros Hw. apply (emits_roundtrip (fun b i => ei_encode_big b i big) (big_ext big)).
  - by apply ei_encode_big_emits.
  - apply (ei_decode_big_decodes big (Some (big_arity big)) Hw). by right.
Qed.

Lemma big_roundtrip_witness :
  let big := {| big_arity := 3; big_is_neg := 1; big_digits := [0x1234; 0x56] |} in
  RoundTrip (fun b i => ei_encode_big b i big) (ei_decode_big (Some 3)) (Some big).
Proof.
  apply (big_roundtrip {| big_arity := 3; big_is_neg := 1; big_digits := [0x1234; 0x56] |}).
  unfold big_wf, byte_ok, in_u. cbn. repeat split; try lia. repeat constructor; lia.
Defined.

(** On normalized bigs [ei_big_comp] is the sign of the difference of the
    two integers. *)
Theorem ei_big_comp_correct same x y :
  big_wf x -> big_wf y -> big_normal x -> big_normal y ->
  (same = true -> big_digits x = big_digits y) ->
  ei_big_comp same x y = Some (Z.sgn (big_value x - big_value y)).
Proof.
  intros (Ax & _ & Zx & Dx & _) (Ay & _ & Zy & Dy & _) (Nx & Vx) (Ny & Vy) Hs.
  unfold ei_big_comp. rewrite !digit_count_eq, <- Zx, <- Zy by lia.
  rewrite I_comp_spec by done. unfold big_value.
  pose proof (digits_val_range _ Dx) as Rx. pose proof (digits_val_range _ Dy) as Ry.
  assert (forall l, l <> [] -> (l <> [] -> 65536 ^ (zlen l - 1) <= digits_val l) -> 0 < digits_val l) as Hpos.
  { intros l Hl H. specialize (H Hl).
    assert (0 < 65536 ^ (zlen l - 1)); [|lia].
    apply Z.pow_pos_nonneg; [lia|]. destruct l; [done|]. zlen_lia. }
  destruct Nx as [-> |[-> Hx]], Ny as [-> |[-> Hy]]; cbn -[Z.sgn]; f_equal.
  - symmetry. apply Z.sgn_pos. specialize (Hpos _ Hy Vy). lia.
  - symmetry. apply Z.sgn_neg. specialize (Hpos _ Hx Vx). lia.
  - rewrite <- Z.sgn_opp. f_equal. lia.
Qed.

Lemma ei_big_comp_correct_witness :
  ei_big_comp false {| big_arity := 2; big_is_neg := 1; big_digits := [7] |}
                    {| big_arity := 3; big_is_neg := 1; big_digits := [5; 1] |} = Some 1.
Proof.
  apply (ei_big_comp_correct false {| big_arity := 2; big_is_neg := 1; big_digits := [7] |}
           {| big_arity := 3; big_is_neg := 1; big_digits := [5; 1] |});
    [unfold big_wf, byte_ok, in_u; cbn; repeat split; try lia; repeat constructor; lia..| | |done];
    (split; [right; split; [reflexivity|done]|vm_compute; congruence]).
Defined.

(** [ei_small_to_big] gives the integer it is passed when that is not
    negative; of a negative [s] it stores the two's complement digits beside
    the sign, and the big stands for [-(2^32 + s)]. *)
Theorem ei_small_to_big_value s a n :
  in_s 32 s -> 3 <= a < 2 ^ 31 -> zlen n = (a + 1) / 2 -> Forall (eq 0) n ->
  exists b, ei_small_to_big s {| big_arity := a; big_is_neg := 0; big_digits := n |} = Some b /\
    big_value b = if s <? 0 then - (2 ^ 32 + s) else s.
Proof.
  intros Hs Ha Hz Hn. unfold ei_small_to_big. cbn [big_arity big_digits].
  rewrite digit_count_eq, <- Hz by lia.
  assert (2 <= zlen n) by (rewrite Hz; apply Z.div_le_lower_bound; lia).
  destruct (Z.ltb_spec (zlen n) 2); [lia|]. eexists. split; [reflexivity|].
  destruct n as [|d0 [|d1 n]]; [zlen_lia..|]. rewrite !Forall_cons_iff in Hn.
  destruct Hn as (_ & _ & Hn).
  assert (digits_val n = 0) as En.
  { clear -Hn. induction Hn as [|? ? <- _ IH]; cbn; lia. }
  unfold big_value, DHIGH, DLOW. cbn [big_is_neg big_digits insert list_insert digits_val]. rewrite En.
  change 65535 with (Z.ones 16). rewrite !Z.land_ones, Z.shiftr_div_pow2 by lia.
  unfold in_s in Hs. change (2 ^ 16) with 65536. change (2 ^ 32) with (65536 * 65536).
  assert (s mod 65536 + 65536 * ((s / 65536) mod 65536) = s mod (65536 * 65536)) as E
    by (rewrite Z.rem_mul_r; lia).
  destruct (Z.ltb_spec s 0); cbn [Z.eqb].
  - rewrite <- (Z.mod_unique s (65536 * 65536) (-1) (65536 * 65536 + s)) in E by lia. lia.
  - rewrite (Z.mod_small s (65536 * 65536)) in E by lia. lia.
Qed.

Lemma ei_small_to_big_value_witness :
  exists b, ei_small_to_big (-1) {| big_arity := 4; big_is_neg := 0; big_digits := [0; 0] |} = Some b /\
    big_value b = -4294967295.
Proof.
  apply (ei_small_to_big_value (-1) 4 [0; 0]); [unfold in_s; lia|lia|reflexivity|repeat constructor].
Defined.

(** [ei_decode_bignum] gives GMP the integer of any big in the external
    term format, of either sign. *)
Theorem ei_decode_bignum_value (G : Gmp) b :
  big_wf b ->
  Transfers (fun m i => ei_encode_big m i b) ei_decode_bignum (fun _ n => mpz_val n = big_value b).
Proof.
  intros Hw. apply (emits_transfers _ _ _ _ (ei_encode_big_emits b Hw)). intros m i Hh.
  destruct (ei_decode_bignum_holds b _ _ Hw Hh) as (n & Hv & E). eauto.
Qed.

Lemma ei_decode_bignum_value_witness :
  Transfers (fun m i => ei_encode_big m i {| big_arity := 3; big_is_neg := 1; big_digits := [0x1234; 0x56] |})
    (@ei_decode_bignum gmp_Z) (fun _ n => @mpz_val gmp_Z n = -0x561234).
Proof.
  apply (ei_decode_bignum_value gmp_Z {| big_arity := 3; big_is_neg := 1; big_digits := [0x1234; 0x56] |}).
  unfold big_wf, byte_ok, in_u. cbn. repeat split; try lia. repeat constructor; lia.
Defined.

(** What [ei_encode_bignum] writes is not what [ei_decode_bignum] reads: the
    arity is stored least significant byte first and read most significant
    byte first, so that already a number of one byte sends the decoder outside
    of any buffer below 16 MB; and the size it announces for NULL is six bytes
    short of what it writes. *)
Theorem ei_encode_bignum_not_reread (G : Gmp) (obj : mpz) m i m' j :
  0 < mpz_val obj < 256 -> zlen m < 2 ^ 24 ->
  ei_encode_bignum (Some m) i obj = EOk (Some m') j ->
  j = i + 7 /\ ei_encode_bignum None i obj = EOk None (i + 1) /\ ei_decode_bignum m' i = DOob.
Proof.
  intros Hv Hm He. rewrite ei_encode_bignum_writes in He by lia.
  destruct (mpz_sizeinbase2_val obj ltac:(lia)) as (Hs1 & Hs2 & Hs3).
  destruct (mpz_export_val obj ltac:(lia)) as (Ho & Hval & Hlen).
  assert (mpz_sizeinbase2 obj - 1 < 8) as Hs by (apply (Z.pow_lt_mono_r_iff 2); lia).
  assert ((mpz_sizeinbase2 obj + 7) / 8 = 1) as E1
    by (symmetry; apply Z.div_unique with (mpz_sizeinbase2 obj - 1); lia).
  rewrite E1 in Hlen. rewrite Hlen in He. pose proof (emit_ok _ _ _ _ _ He) as (m2 & [= <-] & -> & Hh & Hl & _).
  split; [zlen_lia|]. split.
  - unfold ei_encode_bignum. rewrite mpz_sgn_val. destruct (Z.eqb_spec (Z.sgn (mpz_val obj)) 0); [lia|].
    do 2 f_equal. rewrite <- E1. f_equal. lia.
  - unfold ei_decode_bignum. cbn [app] in Hh. read_tag Hh.
    change (le_bytes 4 1) with (be_bytes 4 (2 ^ 24)) in Hh.
    apply get32be_holds in Hh as [-> Hh]. apply get8_holds in Hh as [-> Hh]; [|by destruct (0 <? mpz_val obj)].
    change (wraps 32 (2 ^ 24)) with (2 ^ 24).
    replace (slice m' _ (2 ^ 24)) with (@None (list Z)); [done|]. unfold slice.
    apply holds_nonneg in Hh. destruct (_ && _) eqn:E; [|done].
    rewrite !andb_true_iff, !Z.leb_le in E. unfold zlen in *. lia.
Qed.

Lemma ei_encode_bignum_not_reread_witness :
  exists m', @ei_encode_bignum gmp_Z (Some (replicate 9 0)) 1 5 = EOk (Some m') 8 /\
    8 = 1 + 7 /\ @ei_encode_bignum gmp_Z None 1 5 = EOk None 2 /\ @ei_decode_bignum gmp_Z m' 1 = DOob.
Proof.
  eexists. split; [vm_compute; reflexivity|].
  apply (ei_encode_bignum_not_reread gmp_Z 5 (replicate 9 0) 1); [cbn; lia|vm_compute; reflexivity|vm_compute; reflexivity].
Defined.
