(* ===== verification/EiNode.v ===== *)
(** * Node containers: [encode_/decode_] [pid.c], [port.c], [ref.c], [trace.c],
    [fun.c], and their comparison, [ei_cmp_nc.c] *)
From S2P Require Import Prelude PutGet EiTypes EiInt EiAtom EiData.

(** ** Encoding *)

Definition ei_encode_pid (buf : option mem) (index : Z) (p : erlang_pid) : eres :=
  let s := index in
  call! (buf, index) := ei_encode_atom_len_as buf (index + 1) (pid_node p) (zlen (pid_node p))
      ERLANG_UTF8 (Z.lor ERLANG_LATIN1 ERLANG_UTF8) fails j => EErr j in
  match buf with
  | Some m =>
      let! (m, _s) := put8 m s ERL_NEW_PID_EXT in
      let! (m, s) := put32be m index (pid_num p) in
      let! (m, s) := put32be m s (pid_serial p) in
      let! (m, s) := put32be m s (pid_creation p) in
      EOk (Some m) (index + (4 + 4 + 4))
  | None => EOk None (index + (4 + 4 + 4))
  end.

Definition ei_encode_port (buf : option mem) (index : Z) (p : erlang_port) : eres :=
  let s := index in
  call! (buf, index) := ei_encode_atom_len_as buf (index + 1) (port_node p) (zlen (port_node p))
      ERLANG_UTF8 (Z.lor ERLANG_LATIN1 ERLANG_UTF8) fails j => EErr j in
  if 0x0fffffff <? port_id p then
    match buf with
    | Some m =>
        let! (m, _s) := put8 m s ERL_V4_PORT_EXT in
        let! (m, s) := put64be m index (port_id p) in
        let! (m, s) := put32be m s (port_creation p) in
        EOk (Some m) (index + (8 + 4))
    | None => EOk None (index + (8 + 4))
    end
  else
    match buf with
    | Some m =>
        let! (m, _s) := put8 m s ERL_NEW_PORT_EXT in
        let! (m, s) := put32be m index (port_id p) in
        let! (m, s) := put32be m s (port_creation p) in
        EOk (Some m) (index + (4 + 4))
    | None => EOk None (index + (4 + 4))
    end.

(** The loop over [p->n]. *)
Fixpoint put_ids (m : mem) (s : Z) (ids : list Z) : option (mem * Z) :=
  match ids with
  | [] => Some (m, s)
  | n :: ids =>
      match put32be m s n with
      | None => None
      | Some (m, s) => put_ids m s ids
      end
  end.

Definition ei_encode_ref (buf : option mem) (index : Z) (p : erlang_ref) : eres :=
  let s := index in
  call! (buf, index) := ei_encode_atom_len_as buf (index + (1 + 2)) (ref_node p) (zlen (ref_node p))
      ERLANG_UTF8 (Z.lor ERLANG_LATIN1 ERLANG_UTF8) fails j => EErr j in
  match buf with
  | Some m =>
      let! (m, s) := put8 m s ERL_NEWER_REFERENCE_EXT in
      let! (m, s) := put16be m s (ref_len p) in
      let! (m, s) := put32be m index (ref_creation p) in
      match slice (ref_n p) 0 (Z.max 0 (ref_len p)) with
      | None => EOob
      | Some ids => let! (m, s) := put_ids m s ids in EOk (Some m) (index + (ref_len p * 4 + 4))
      end
  | None => EOk None (index + (ref_len p * 4 + 4))
  end.

Definition ei_encode_trace (buf : option mem) (index : Z) (p : erlang_trace) : eres :=
  call! (buf, index) := ei_encode_tuple_header buf index 5 fails j => EErr j in
  call! (buf, index) := ei_encode_long buf index (tr_flags p) fails j => EErr j in
  call! (buf, index) := ei_encode_long buf index (tr_label p) fails j => EErr j in
  call! (buf, index) := ei_encode_long buf index (tr_serial p) fails j => EErr j in
  call! (buf, index) := ei_encode_pid buf index (tr_from p) fails j => EErr j in
  call! (buf, index) := ei_encode_long buf index (tr_prev p) fails j => EErr j in
  EOk buf index.

(** A macro in the [if (buf)] of an encoder. *)
Definition put_if (buf : option mem) (f : mem -> option (mem * Z)) (k : option mem -> eres) : eres :=
  match buf with
  | Some m => let! (m, _s) := f m in k (Some m)
  | None => k None
  end.

(** [memcpy(buf + ix, src, len)]. *)
Definition put_free_vars (m : mem) (ix : Z) (src : list Z) (len : Z) : option (mem * Z) :=
  match slice src 0 len with
  | Some l => put_bytes m ix l
  | None => None
  end.

Definition put_new_fun_header (m : mem) (ix arity : Z) (md5 : list Z) (fi n_free_vars : Z) : option (mem * Z) :=
  match put8 m ix ERL_NEW_FUN_EXT with
  | None => None
  | Some (m, s) =>
      let s := s + 4 in
      match put8 m s arity with
      | None => None
      | Some (m, s) =>
          match put_bytes m s md5 with
          | None => None
          | Some (m, s) =>
              match put32be m s fi with
              | None => None
              | Some (m, s) => put32be m s n_free_vars
              end
          end
      end
  end.

Definition ei_encode_fun (buf : option mem) (index : Z) (p : erlang_fun) : eres :=
  let ix := index in
  match fun_body p with
  | EI_FUN_CLOSURE md5 fi old_index uniq n_free_vars pid free_var_len free_vars =>
      if fun_arity p =? -1 then
        put_if buf (fun m => match put8 m ix ERL_FUN_EXT with
                             | Some (m, s) => put32be m s n_free_vars | None => None end) (fun buf =>
        call! (buf, ix) := ei_encode_pid buf (ix + (1 + 4)) pid fails j => EErr index in
        call! (buf, ix) := ei_encode_atom_as buf ix (fun_module p) ERLANG_UTF8 ERLANG_UTF8 fails j => EErr index in
        call! (buf, ix) := ei_encode_long buf ix fi fails j => EErr index in
        call! (buf, ix) := ei_encode_long buf ix uniq fails j => EErr index in
        put_if buf (fun m => put_free_vars m ix free_vars free_var_len) (fun buf =>
        EOk buf (ix + free_var_len)))
      else
        let size_p := ix + 1 in
        put_if buf (fun m => put_new_fun_header m ix (fun_arity p) md5 fi n_free_vars) (fun buf =>
        call! (buf, ix) := ei_encode_atom_as buf (ix + (1 + 4 + 1 + 16 + 4 + 4)) (fun_module p)
            ERLANG_UTF8 ERLANG_UTF8 fails j => EErr index in
        call! (buf, ix) := ei_encode_long buf ix old_index fails j => EErr index in
        call! (buf, ix) := ei_encode_long buf ix uniq fails j => EErr index in
        call! (buf, ix) := ei_encode_pid buf ix pid fails j => EErr index in
        put_if buf (fun m => put_free_vars m ix free_vars free_var_len) (fun buf =>
        let ix := ix + free_var_len in
        put_if buf (fun m => put32be m size_p (ix - size_p)) (fun buf => EOk buf ix)))
  | EI_FUN_EXPORT func _ =>
      put_if buf (fun m => put8 m ix ERL_EXPORT_EXT) (fun buf =>
      call! (buf, ix) := ei_encode_atom_as buf (ix + 1) (fun_module p) ERLANG_UTF8 ERLANG_UTF8 fails j => EErr index in
      match func with
      | None => EOob
      | Some func =>
          call! (buf, ix) := ei_encode_atom_as buf ix func ERLANG_UTF8 ERLANG_UTF8 fails j => EErr index in
          call! (buf, ix) := ei_encode_long buf ix (fun_arity p) fails j => EErr index in
          EOk buf ix
      end)
  end.

(** ** Decoding

    [p] says whether the destination is not NULL; what a function stores in
    [*p] before it fails is not kept. *)

Definition ei_decode_pid (p : bool) (m : mem) (index : Z) : dres (option erlang_pid) :=
  let? (tag, s) := get8 m index in
  if negb (tag =? ERL_PID_EXT) && negb (tag =? ERL_NEW_PID_EXT) then DErr index else
  call? (a, s) := ei_internal_get_atom m s fails j => DErr index in
  if p then
    let? (num, s) := get32be m s in
    let? (serial, s) := get32be m s in
    let pid creation := {| pid_node := at_name a; pid_num := wrapu 32 num;
                           pid_serial := wrapu 32 serial; pid_creation := creation |} in
    if tag =? ERL_PID_EXT then let? (c, s) := get8 m s in DOk (Some (pid (Z.land c 0x03))) s
    else let? (c, s) := get32be m s in DOk (Some (pid (wrapu 32 c))) s
  else DOk None (s + if tag =? ERL_PID_EXT then 9 else 12).

(** [(EI_ULONGLONG) get32be(s)] extends the sign of an [int]. *)
Definition ei_decode_port (p : bool) (m : mem) (index : Z) : dres (option erlang_port) :=
  let? (tag, s) := get8 m index in
  if negb ((tag =? ERL_V4_PORT_EXT) || (tag =? ERL_NEW_PORT_EXT) || (tag =? ERL_PORT_EXT))
  then DErr index else
  call? (a, s) := ei_internal_get_atom m s fails j => DErr index in
  let port id creation := {| port_node := at_name a; port_id := id; port_creation := creation |} in
  if p then
    if tag =? ERL_V4_PORT_EXT then
      let? (id, s) := get64be m s in
      let? (c, s) := get32be m s in DOk (Some (port id (wrapu 32 c))) s
    else if tag =? ERL_NEW_PORT_EXT then
      let? (id, s) := get32be m s in
      let? (c, s) := get32be m s in DOk (Some (port (wrapu 64 id) (wrapu 32 c))) s
    else
      let? (id, s) := get32be m s in
      let? (c, s) := get8 m s in DOk (Some (port (wrapu 64 id) (Z.land c 0x03))) s
  else
    DOk None (s + if tag =? ERL_V4_PORT_EXT then 12 else if tag =? ERL_NEW_PORT_EXT then 8 else 5).

(** The first loop over [p->n]. *)
Fixpoint get_ids (count : nat) (m : mem) (s : Z) : dres (list Z) :=
  match count with
  | O => DOk [] s
  | S count =>
      let? (n, s) := get32be m s in
      match get_ids count m s with
      | DOk l s => DOk (wrapu 32 n :: l) s
      | r => r
      end
  end.

(** [p] is the destination with its previous contents: the old format writes
    only [n[0]].  The struct has room for 5 integers. *)
Definition ei_decode_ref (p : option erlang_ref) (m : mem) (index : Z) : dres (option erlang_ref) :=
  let? (tag, s) := get8 m index in
  if tag =? ERL_REFERENCE_EXT then
    call? (a, s) := ei_internal_get_atom m s fails j => DErr index in
    match p with
    | Some p =>
        let? (n0, s) := get32be m s in
        let? (c, s) := get8 m s in
        DOk (Some {| ref_node := at_name a; ref_len := 1;
                     ref_n := <[0%nat := wrapu 32 n0]> (ref_n p); ref_creation := Z.land c 0x03 |}) s
    | None => DOk None (s + 5)
    end
  else if (tag =? ERL_NEW_REFERENCE_EXT) || (tag =? ERL_NEWER_REFERENCE_EXT) then
    let? (count, s) := get16be m s in
    if 5 <? count then DErr index else
    call? (a, s) := ei_internal_get_atom m s fails j => DErr index in
    match p with
    | Some p =>
        let ids creation s :=
          call? (l, s) := get_ids (Z.to_nat count) m s fails j => DErr index in
          DOk (Some {| ref_node := at_name a; ref_len := count;
                       ref_n := l ++ replicate (5 - length l) 0; ref_creation := creation |}) s in
        if tag =? ERL_NEW_REFERENCE_EXT
        then let? (c, s) := get8 m s in ids (Z.land c 0x03) s
        else let? (c, s) := get32be m s in ids (wrapu 32 c) s
    | None => DOk None (s + (if tag =? ERL_NEW_REFERENCE_EXT then 1 else 4) + 4 * count)
    end
  else DErr index.

Definition ei_decode_trace (p : bool) (m : mem) (index : Z) : dres (option erlang_trace) :=
  call? (arity, i) := ei_decode_tuple_header true m index fails j => DErr index in
  if negb (arity =? 5) then DErr index else
  call? (flags, i) := ei_decode_long m i fails j => DErr index in
  call? (label, i) := ei_decode_long m i fails j => DErr index in
  call? (serial, i) := ei_decode_long m i fails j => DErr index in
  call? (from, i) := ei_decode_pid p m i fails j => DErr index in
  call? (prev, i) := ei_decode_long m i fails j => DErr index in
  DOk (match from with
       | Some from => Some {| tr_serial := serial; tr_prev := prev; tr_from := from;
                              tr_label := label; tr_flags := flags |}
       | None => None
       end) i.

(** [ei_decode_fun] and [ei_skip_term] call each other; [skip] is the latter. *)
Section DecodeFun.
Variable skip : mem -> Z -> dres unit.

Fixpoint skip_n (n : nat) (m : mem) (i : Z) : dres unit :=
  match n with
  | O => DOk tt i
  | S n =>
      match skip m i with
      | DOk _ i => skip_n n m i
      | r => r
      end
  end.

(** [memcpy(p->u.closure.free_vars, s, n)] into a fresh block, when [n > 0]. *)
Definition copy_free_vars (alloc : bool) (m : mem) (s n : Z) : option (option (list Z)) :=
  if 0 <? n then if alloc then match slice m s n with Some l => Some (Some l) | None => None end
                 else Some None
  else Some (Some []).

(** [p] is the destination with the previous contents of its [md5] and
    [old_index] fields, which the old format does not write; [alloc] says
    whether [malloc] succeeds. *)
Definition ei_decode_fun (p : option (list Z * Z)) (alloc : bool) (m : mem) (index : Z)
  : dres (option erlang_fun) :=
  let dst := match p with Some _ => true | None => false end in
  let? (tag, s) := get8 m index in
  if tag =? ERL_FUN_EXT then
    let? (n, s) := get32be m s in
    call? (pid, ix) := ei_decode_pid dst m s fails j => DErr index in
    call? (md, ix) := ei_decode_atom_as m ix MAXATOMLEN_UTF8 ERLANG_UTF8 fails j => DErr index in
    call? (fi, ix) := ei_decode_long m ix fails j => DErr index in
    call? (uniq, ix) := ei_decode_long m ix fails j => DErr index in
    let ix0 := ix in
    call? (_u, ix) := skip_n (Z.to_nat n) m ix fails j => DErr index in
    match p, pid with
    | Some (md5, old_index), Some pid =>
        match copy_free_vars alloc m ix0 (ix - ix0) with
        | None => DOob
        | Some None => DErr index
        | Some (Some l) =>
            DOk (Some {| fun_arity := -1; fun_module := at_name md;
                         fun_body := EI_FUN_CLOSURE md5 fi old_index uniq n pid (ix - ix0) l |}) ix
        end
    | _, _ => DOk None ix
    end
  else if tag =? ERL_NEW_FUN_EXT then
    let? (n, s) := get32be m s in
    let? (arity, s) := get8 m s in
    match (if dst then slice m s 16 else Some []) with
    | None => DOob
    | Some md5 =>
        let s := s + 16 in
        let? (fi, s) := get32be m s in
        let? (n_free_vars, s) := get32be m s in
        call? (md, ix) := ei_decode_atom_as m s MAXATOMLEN_UTF8 ERLANG_UTF8 fails j => DErr index in
        call? (old_index, ix) := ei_decode_long m ix fails j => DErr index in
        call? (uniq, ix) := ei_decode_long m ix fails j => DErr index in
        call? (pid, s) := ei_decode_pid dst m ix fails j => DErr index in
        let n := wraps 32 (n - (s - index) + 1) in
        if n <? 0 then DErr index else
        match pid with
        | Some pid =>
            match copy_free_vars alloc m s n with
            | None => DOob
            | Some None => DErr index
            | Some (Some l) =>
                DOk (Some {| fun_arity := arity; fun_module := at_name md;
                             fun_body := EI_FUN_CLOSURE md5 fi old_index uniq n_free_vars pid n l |}) (s + n)
            end
        | None => DOk None (s + n)
        end
    end
  else if tag =? ERL_EXPORT_EXT then
    call? (md, ix) := ei_decode_atom_as m s MAXATOMLEN_UTF8 ERLANG_UTF8 fails j => DErr index in
    let used := if dst then zlen (at_name md) + 1 else 0 in
    let finish func allocated ix :=
      call? (arity, ix) := ei_decode_long m ix fails j => DErr index in
      DOk (if dst then Some {| fun_arity := arity; fun_module := at_name md;
                               fun_body := EI_FUN_EXPORT func allocated |} else None) ix in
    match ei_decode_atom_as m ix (MAXATOMLEN_UTF8 - used) ERLANG_UTF8 with
    | DOob => DOob
    | DFuel => DFuel
    | DOk f ix => finish (Some (at_name f)) false ix
    | DErr _ =>
        if used =? 0 then DErr index else
        call? (f, ix) := ei_decode_atom_as m ix MAXATOMLEN_UTF8 ERLANG_UTF8 fails j => DErr index in
        finish (if alloc then Some (at_name f) else None) true ix
    end
  else DErr index.
End DecodeFun.

(** ** Comparison ([ei_cmp_nc.c]) *)

(** [strcmp], up to the size of its non-zero results. *)
Fixpoint strcmp (a b : list Z) : Z :=
  match a, b with
  | [], [] => 0
  | [], _ :: _ => -1
  | _ :: _, [] => 1
  | x :: a, y :: b => if x =? y then strcmp a b else if x <? y then -1 else 1
  end.

Definition cmp_nodes (aname : list Z) (acreation : Z) (bname : list Z) (bcreation : Z) : Z :=
  let differ := strcmp aname bname in
  if negb (differ =? 0) then differ
  else if acreation =? bcreation then 0
  else if acreation <? bcreation then -1
  else 1.

(** The two [do ... while] loops that look for a non-zero integer above the
    shorter length: [k] integers remain to be looked at. *)
Fixpoint cmp_excess (k : nat) (num : list Z) (len : Z) : option bool :=
  match k with
  | O => Some false
  | S k =>
      match mem_get num (len - 1) with
      | None => None
      | Some n => if negb (n =? 0) then Some true else cmp_excess k num (len - 1)
      end
  end.

(** The final loop, from index [i - 1] downwards. *)
Fixpoint cmp_ids (i : nat) (anum bnum : list Z) : option Z :=
  match i with
  | O => Some 0
  | S k =>
      match anum !! k, bnum !! k with
      | Some a, Some b => if negb (a =? b) then Some (if a <? b then -1 else 1) else cmp_ids k anum bnum
      | _, _ => None
      end
  end.

(** [None]: a read outside of [n]. *)
Definition ei_cmp_refs (a b : erlang_ref) : option Z :=
  let differ := cmp_nodes (ref_node a) (ref_creation a) (ref_node b) (ref_creation b) in
  if negb (differ =? 0) then Some differ else
  let alen := ref_len a in
  let blen := ref_len b in
  if blen <? alen then
    match cmp_excess (Z.to_nat (alen - blen)) (ref_n a) alen with
    | None => None
    | Some true => Some 1
    | Some false => cmp_ids (Z.to_nat blen) (ref_n a) (ref_n b)
    end
  else if alen <? blen then
    match cmp_excess (Z.to_nat (blen - alen)) (ref_n b) blen with
    | None => None
    | Some true => Some (-1)
    | Some false => cmp_ids (Z.to_nat alen) (ref_n a) (ref_n b)
    end
  else cmp_ids (Z.to_nat alen) (ref_n a) (ref_n b).

Definition ei_cmp_pids (a b : erlang_pid) : Z :=
  if negb (pid_serial a =? pid_serial b) then if pid_serial a <? pid_serial b then -1 else 1
  else if negb (pid_num a =? pid_num b) then if pid_num a <? pid_num b then -1 else 1
  else
    let differ := cmp_nodes (pid_node a) (pid_creation a) (pid_node b) (pid_creation b) in
    if negb (differ =? 0) then differ else 0.

Definition ei_cmp_ports (a b : erlang_port) : Z :=
  let differ := cmp_nodes (port_node a) (port_creation a) (port_node b) (port_creation b) in
  if negb (differ =? 0) then differ
  else if negb (port_id a =? port_id b) then if port_id a <? port_id b then -1 else 1
  else 0.

(** ** What the encoders emit *)

(** A fixed-size front that is filled in after the atom behind it was written,
    then a trailer: the shape of pids, ports and references. *)
Lemma emits_tagged (F : option mem -> Z -> eres) o (t tr : list Z) :
  Emits F o ->
  Emits (fun b i => call! (b, j) := F b (i + zlen t) fails j => EErr j in
           match b with
           | Some m => let! (m, _s) := put_bytes m i t in
                       let! (m, s) := put_bytes m j tr in EOk (Some m) s
           | None => EOk None (j + zlen tr)
           end)
    (match o with Some a => Some (t ++ a ++ tr) | None => None end).
Proof.
  intros [H1 H2]. split.
  - intros i. specialize (H1 (i + zlen t)). destruct o as [a|].
    + rewrite H1. f_equal. zlen_lia.
    + destruct H1 as [j ->]. eauto.
  - intros m i. specialize (H2 m (i + zlen t)). destruct o as [a|].
    + rewrite H2, emit_call, put_backfill0, put_bytes_seq, emit_fold, <- app_assoc. reflexivity.
    + destruct H2 as [->|[j ->]]; eauto.
Qed.

Definition tagged_bytes (t : list Z) (node tr : list Z) : option (list Z) :=
  match atom_bytes node ERLANG_UTF8 with Some a => Some (t ++ a ++ tr) | None => None end.

Definition pid_bytes (p : erlang_pid) : option (list Z) :=
  tagged_bytes [ERL_NEW_PID_EXT] (pid_node p)
    (be_bytes 4 (pid_num p) ++ be_bytes 4 (pid_serial p) ++ be_bytes 4 (pid_creation p)).

Definition port_bytes (p : erlang_port) : option (list Z) :=
  if 0x0fffffff <? port_id p then
    tagged_bytes [ERL_V4_PORT_EXT] (port_node p) (be_bytes 8 (port_id p) ++ be_bytes 4 (port_creation p))
  else
    tagged_bytes [ERL_NEW_PORT_EXT] (port_node p) (be_bytes 4 (port_id p) ++ be_bytes 4 (port_creation p)).

Definition ids_bytes (ids : list Z) : list Z := concat (map (be_bytes 4) ids).

Definition ref_bytes (p : erlang_ref) : option (list Z) :=
  tagged_bytes (ERL_NEWER_REFERENCE_EXT :: be_bytes 2 (ref_len p)) (ref_node p)
    (be_bytes 4 (ref_creation p) ++ ids_bytes (take (Z.to_nat (ref_len p)) (ref_n p))).

Lemma zlen_ids_bytes ids : zlen (ids_bytes ids) = 4 * zlen ids.
Proof.
  induction ids as [|n ids IH]; [reflexivity|].
  change (ids_bytes (n :: ids)) with (be_bytes 4 n ++ ids_bytes ids). zlen_lia.
Qed.
#[export] Hint Rewrite zlen_ids_bytes : zlen.

Lemma put_ids_bytes ids m s :
  0 <= s <= zlen m -> put_ids m s ids = put_bytes m s (ids_bytes ids).
Proof.
  revert m s. induction ids as [|n ids IH]; intros m s Hs.
  - unfold put_bytes. cbn. rewrite store_nil by exact Hs. f_equal. f_equal. zlen_lia.
  - cbn [put_ids]. change (ids_bytes (n :: ids)) with (be_bytes 4 n ++ ids_bytes ids).
    rewrite put32be_bytes. unfold put_bytes. rewrite <- store_seq.
    destruct (store m s (be_bytes 4 n)) as [m1|] eqn:E; [|done].
    apply store_bounds in E as (? & E & ?). rewrite zlen_be_bytes in *. cbn in E.
    rewrite IH by lia. unfold put_bytes. change (Z.of_nat 4) with 4.
    destruct (store m1 (s + 4) (ids_bytes ids)); [|done]. do 2 f_equal. zlen_lia.
Qed.

(** The position after a store is where the code says it is. *)
Lemma put_bytes_end m s l k :
  k = s + zlen l ->
  (let! (m, _s) := put_bytes m s l in EOk (Some m) k) = (let! (m, s) := put_bytes m s l in EOk (Some m) s).
Proof. intros ->. unfold put_bytes. by destruct (store m s l). Qed.

(** Reduces a node container encoder with front [t] and trailer [tr] to
    [emits_tagged]. *)
Ltac emits_node Hn t tr to_enc :=
  eapply emits_ext; [exact (emits_tagged _ _ t tr (ei_encode_atom_as_emits _ ERLANG_UTF8 to_enc Hn))|];
  let b := fresh "b" in let i := fresh "i" in intros b i; unfold ei_encode_atom_as;
  let z := eval vm_compute in (zlen t) in change (zlen t) with z;
  destruct (ei_encode_atom_len_as _ _ _ _ _ _) as [[m|] j|j|]; [| |done|done].

Lemma ei_encode_pid_emits p :
  bytes_ok (pid_node p) -> Emits (fun b i => ei_encode_pid b i p) (pid_bytes p).
Proof.
  intros Hn. unfold ei_encode_pid, pid_bytes, tagged_bytes.
  set (tr := be_bytes 4 (pid_num p) ++ _).
  emits_node Hn [ERL_NEW_PID_EXT] tr (Z.lor ERLANG_LATIN1 ERLANG_UTF8); [|f_equal; subst tr; zlen_lia].
  rewrite put8_bytes. change (Z.land ERL_NEW_PID_EXT 255) with ERL_NEW_PID_EXT.
  destruct (put_bytes m i [ERL_NEW_PID_EXT]) as [[m1 s1]|]; [|done].
  emits_steps. rewrite put_bytes_end by zlen_lia. by rewrite <- app_assoc.
Qed.

Lemma ei_encode_port_emits p :
  bytes_ok (port_node p) -> Emits (fun b i => ei_encode_port b i p) (port_bytes p).
Proof.
  intros Hn. unfold ei_encode_port, port_bytes, tagged_bytes. destruct (0x0fffffff <? port_id p).
  - set (tr := be_bytes 8 (port_id p) ++ _).
    emits_node Hn [ERL_V4_PORT_EXT] tr (Z.lor ERLANG_LATIN1 ERLANG_UTF8); [|f_equal; subst tr; zlen_lia].
    rewrite put8_bytes. change (Z.land ERL_V4_PORT_EXT 255) with ERL_V4_PORT_EXT.
    destruct (put_bytes m i [ERL_V4_PORT_EXT]) as [[m1 s1]|]; [|done].
    emits_steps. by rewrite put_bytes_end by zlen_lia.
  - set (tr := be_bytes 4 (port_id p) ++ _).
    emits_node Hn [ERL_NEW_PORT_EXT] tr (Z.lor ERLANG_LATIN1 ERLANG_UTF8); [|f_equal; subst tr; zlen_lia].
    rewrite put8_bytes. change (Z.land ERL_NEW_PORT_EXT 255) with ERL_NEW_PORT_EXT.
    destruct (put_bytes m i [ERL_NEW_PORT_EXT]) as [[m1 s1]|]; [|done].
    emits_steps. by rewrite put_bytes_end by zlen_lia.
Qed.

Lemma ei_encode_ref_emits p :
  bytes_ok (ref_node p) -> 0 <= ref_len p <= zlen (ref_n p) ->
  Emits (fun b i => ei_encode_ref b i p) (ref_bytes p).
Proof.
  intros Hn Hl. unfold ei_encode_ref, ref_bytes, tagged_bytes.
  rewrite Z.max_r, slice_prefix by lia. set (ids := take _ _).
  assert (zlen ids = ref_len p) as Hz by (apply zlen_take, Hl).
  set (tr := be_bytes 4 (ref_creation p) ++ _).
  emits_node Hn (ERL_NEWER_REFERENCE_EXT :: be_bytes 2 (ref_len p)) tr (Z.lor ERLANG_LATIN1 ERLANG_UTF8);
    [|f_equal; subst tr; zlen_lia].
  rewrite put8_bytes. change (Z.land ERL_NEWER_REFERENCE_EXT 255) with ERL_NEWER_REFERENCE_EXT.
  rewrite put16be_seq. cbn [app].
  destruct (put_bytes m i _) as [[m1 s1]|]; [|done]. rewrite put32be_bytes. subst tr.
  rewrite <- put_bytes_seq.
  destruct (put_bytes m1 j (be_bytes 4 (ref_creation p))) as [[m2 s2]|] eqn:E; [|done].
  apply put_bytes_some in E as (? & -> & ? & ?). rewrite zlen_be_bytes in *.
  rewrite put_ids_bytes by lia. rewrite put_bytes_end by zlen_lia. done.
Qed.

(** Encoders in sequence; [i] is where the first one started. *)
Definition app_bytes (o1 o2 : option (list Z)) : option (list Z) :=
  match o1, o2 with Some a, Some b => Some (a ++ b) | _, _ => None end.

Lemma emits_seq F o1 (K : Z -> option mem -> Z -> eres) o2 (e : Z -> Z -> Z) :
  Emits F o1 -> (forall i, Emits (K i) o2) ->
  Emits (fun b i => call! (b, j) := F b i fails j => EErr (e i j) in K i b j) (app_bytes o1 o2).
Proof.
  intros [F1 F2] HK. split.
  - intros i. specialize (F1 i). destruct o1 as [a|]; cbn [app_bytes].
    + rewrite F1. destruct (HK i) as [K1 _]. specialize (K1 (i + zlen a)).
      destruct o2 as [c|]; [|exact K1]. rewrite K1. f_equal. zlen_lia.
    + destruct F1 as [j ->]. eauto.
  - intros m i. specialize (F2 m i). destruct o1 as [a|]; cbn [app_bytes].
    + rewrite F2. rewrite emit_call. destruct (HK i) as [_ K2]. destruct o2 as [c|].
      * rewrite <- emit_fold, <- put_bytes_seq. destruct (put_bytes m i a) as [[m1 s1]|]; [|done]. apply K2.
      * destruct (put_bytes m i a) as [[m1 s1]|]; [apply K2|by left].
    + destruct F2 as [->|[j ->]]; eauto.
Qed.

(** A block of macros under [if (buf)], then the rest of the encoder. *)
Lemma emits_put_if (P : Z -> mem -> option (mem * Z)) l (K : Z -> option mem -> Z -> eres) o k :
  (forall m i, P i m = put_bytes m i l) -> k = zlen l -> (forall i, Emits (K i) o) ->
  Emits (fun b i => put_if b (P i) (fun b => K i b (i + k))) (app_bytes (Some l) o).
Proof.
  intros HP -> HK. split.
  - intros i. cbn [put_if app_bytes]. destruct (HK i) as [K1 _]. specialize (K1 (i + zlen l)).
    destruct o as [c|]; [|exact K1]. rewrite K1. f_equal. zlen_lia.
  - intros m i. cbn [put_if app_bytes]. rewrite HP. destruct (HK i) as [_ K2]. unfold put_bytes at 1.
    destruct o as [c|].
    + rewrite <- emit_fold, <- put_bytes_seq. unfold put_bytes at 1.
      destruct (store m i l) as [m1|]; [apply K2|done].
    + unfold put_bytes. destruct (store m i l) as [m1|]; [apply K2|by left].
Qed.

Lemma emits_last F o (e : Z -> Z -> Z) :
  Emits F o -> Emits (fun b i => call! (b, j) := F b i fails j => EErr (e i j) in EOk b j) o.
Proof.
  intros [F1 F2]. split.
  - intros i. specialize (F1 i). destruct o; [by rewrite F1|]. destruct F1 as [j ->]. eauto.
  - intros m i. specialize (F2 m i). destruct o as [a|].
    + rewrite F2. by rewrite emit_call.
    + destruct F2 as [->|[j ->]]; eauto.
Qed.

(** The [memcpy] of the free variables, last. *)
Lemma emits_free_vars l :
  Emits (fun b i => put_if b (fun m => put_free_vars m i l (zlen l)) (fun b => EOk b (i + zlen l))) (Some l).
Proof.
  unfold put_free_vars, put_if. rewrite slice_prefix by zlen_lia.
  replace (take _ l) with l by (unfold zlen; by rewrite Nat2Z.id, firstn_all).
  split; intros; [done|]. rewrite put_bytes_end by done. done.
Qed.

Definition trace_bytes (p : erlang_trace) : option (list Z) :=
  app_bytes (Some [ERL_SMALL_TUPLE_EXT; 5])
  (app_bytes (Some (longlong_bytes (tr_flags p)))
  (app_bytes (Some (longlong_bytes (tr_label p)))
  (app_bytes (Some (longlong_bytes (tr_serial p)))
  (app_bytes (pid_bytes (tr_from p)) (Some (longlong_bytes (tr_prev p))))))).

Lemma ei_encode_trace_emits p :
  bytes_ok (pid_node (tr_from p)) -> Emits (fun b i => ei_encode_trace b i p) (trace_bytes p).
Proof.
  intros Hn. unfold ei_encode_trace, trace_bytes.
  apply (emits_seq _ _ (fun _ => _) _ (fun _ j => j)); [exact (ei_encode_tuple_header_emits 5)|intros _].
  apply (emits_seq _ _ (fun _ => _) _ (fun _ j => j)); [apply ei_encode_long_emits|intros _].
  apply (emits_seq _ _ (fun _ => _) _ (fun _ j => j)); [apply ei_encode_long_emits|intros _].
  apply (emits_seq _ _ (fun _ => _) _ (fun _ j => j)); [apply ei_encode_long_emits|intros _].
  apply (emits_seq _ _ (fun _ => _) _ (fun _ j => j)); [by apply ei_encode_pid_emits|intros _].
  apply (emits_last _ _ (fun _ j => j)). apply ei_encode_long_emits.
Qed.

(** The three forms of a fun.  The size field counts from itself to the end. *)
Definition old_fun_bytes (n_free_vars : Z) (pid : erlang_pid) (md : list Z) (fi uniq : Z) (fv : list Z)
  : option (list Z) :=
  app_bytes (Some (ERL_FUN_EXT :: be_bytes 4 n_free_vars))
  (app_bytes (pid_bytes pid)
  (app_bytes (atom_bytes md ERLANG_UTF8)
  (app_bytes (Some (longlong_bytes fi))
  (app_bytes (Some (longlong_bytes uniq)) (Some fv))))).

Definition new_fun_rest (arity : Z) (md5 : list Z) (fi n_free_vars : Z) (md : list Z)
    (old_index uniq : Z) (pid : erlang_pid) (fv : list Z) : option (list Z) :=
  app_bytes (Some (Z.land arity 255 :: md5 ++ be_bytes 4 fi ++ be_bytes 4 n_free_vars))
  (app_bytes (atom_bytes md ERLANG_UTF8)
  (app_bytes (Some (longlong_bytes old_index))
  (app_bytes (Some (longlong_bytes uniq))
  (app_bytes (pid_bytes pid) (Some fv))))).

Definition new_fun_bytes (rest : option (list Z)) : option (list Z) :=
  match rest with
  | Some rest => Some (ERL_NEW_FUN_EXT :: be_bytes 4 (4 + zlen rest) ++ rest)
  | None => None
  end.

Definition export_bytes (md func : list Z) (arity : Z) : option (list Z) :=
  app_bytes (Some [ERL_EXPORT_EXT])
  (app_bytes (atom_bytes md ERLANG_UTF8)
  (app_bytes (atom_bytes func ERLANG_UTF8) (Some (longlong_bytes arity)))).

Definition fun_bytes (p : erlang_fun) : option (list Z) :=
  match fun_body p with
  | EI_FUN_CLOSURE md5 fi old_index uniq n_free_vars pid _ fv =>
      if fun_arity p =? -1 then old_fun_bytes n_free_vars pid (fun_module p) fi uniq fv
      else new_fun_bytes (new_fun_rest (fun_arity p) md5 fi n_free_vars (fun_module p) old_index uniq pid fv)
  | EI_FUN_EXPORT (Some func) _ => export_bytes (fun_module p) func (fun_arity p)
  | EI_FUN_EXPORT None _ => None
  end.

(** Valid contents of the struct: C strings, 16 bytes of MD5, and as many bytes
    of free variables as [free_var_len] says. *)
Definition fun_wf (p : erlang_fun) : Prop :=
  bytes_ok (fun_module p) /\
  match fun_body p with
  | EI_FUN_CLOSURE md5 _ _ _ _ pid len fv =>
      zlen md5 = 16 /\ bytes_ok md5 /\ bytes_ok (pid_node pid) /\ len = zlen fv
  | EI_FUN_EXPORT func _ => exists f, func = Some f /\ bytes_ok f
  end.

(** A field left open after the tag and filled in at the end with the size. *)
Lemma emits_sized (F : Z -> option mem -> Z -> eres) o t (e : Z -> Z) :
  (forall i, Emits (F i) o) ->
  Emits (fun b i =>
      put_if b (fun m => put_bytes m i [t]) (fun b =>
      call! (b, j) := F i b (i + 5) fails j => EErr (e i) in
      put_if b (fun m => put32be m (i + 1) (j - (i + 1))) (fun b => EOk b j)))
    (match o with Some rest => Some (t :: be_bytes 4 (4 + zlen rest) ++ rest) | None => None end).
Proof.
  intros HF. split.
  - intros i. cbn [put_if]. destruct (HF i) as [F1 _]. specialize (F1 (i + 5)). destruct o as [rest|].
    + rewrite F1. cbn. f_equal. zlen_lia.
    + destruct F1 as [j ->]. eauto.
  - intros m i. cbn [put_if]. destruct (HF i) as [_ F2]. destruct o as [rest|].
    + change (t :: be_bytes 4 (4 + zlen rest) ++ rest) with ([t] ++ be_bytes 4 (4 + zlen rest) ++ rest).
      rewrite <- emit_fold, <- put_backfill.
      destruct (put_bytes m i [t]) as [[m1 s1]|] eqn:E; [|done].
      apply put_bytes_some in E as (? & -> & _). change (zlen [t]) with 1.
      rewrite F2, emit_call. rewrite zlen_be_bytes. change (Z.of_nat 4) with 4.
      replace (i + 1 + 4) with (i + 5) by lia.
      destruct (put_bytes m1 (i + 5) rest) as [[m2 s2]|] eqn:E; [|done].
      apply put_bytes_some in E as (? & -> & _). cbn [put_if]. rewrite put32be_bytes.
      replace (i + 5 + zlen rest - (i + 1)) with (4 + zlen rest) by lia. done.
    + destruct (put_bytes m i [t]) as [[m1 s1]|] eqn:E; [|by left].
      destruct (F2 m1 (i + 5)) as [->|[j ->]]; eauto.
Qed.

(** The calls of [ei_encode_fun] after the front of a closure; a failing one
    leaves [*index] as it was, [i0]. *)
Definition old_fun_tail (i0 : Z) (pid : erlang_pid) (md : list Z) (fi uniq : Z) (fv : list Z)
    (b : option mem) (ix : Z) : eres :=
  call! (b, ix) := ei_encode_pid b ix pid fails j => EErr i0 in
  call! (b, ix) := ei_encode_atom_as b ix md ERLANG_UTF8 ERLANG_UTF8 fails j => EErr i0 in
  call! (b, ix) := ei_encode_long b ix fi fails j => EErr i0 in
  call! (b, ix) := ei_encode_long b ix uniq fails j => EErr i0 in
  put_if b (fun m => put_free_vars m ix fv (zlen fv)) (fun b => EOk b (ix + zlen fv)).

Definition new_fun_tail (i0 : Z) (md : list Z) (old_index uniq : Z) (pid : erlang_pid) (fv : list Z)
    (b : option mem) (ix : Z) : eres :=
  call! (b, ix) := ei_encode_atom_as b ix md ERLANG_UTF8 ERLANG_UTF8 fails j => EErr i0 in
  call! (b, ix) := ei_encode_long b ix old_index fails j => EErr i0 in
  call! (b, ix) := ei_encode_long b ix uniq fails j => EErr i0 in
  call! (b, ix) := ei_encode_pid b ix pid fails j => EErr i0 in
  put_if b (fun m => put_free_vars m ix fv (zlen fv)) (fun b => EOk b (ix + zlen fv)).

Definition export_tail (i0 : Z) (md func : list Z) (arity : Z) (b : option mem) (ix : Z) : eres :=
  call! (b, ix) := ei_encode_atom_as b ix md ERLANG_UTF8 ERLANG_UTF8 fails j => EErr i0 in
  call! (b, ix) := ei_encode_atom_as b ix func ERLANG_UTF8 ERLANG_UTF8 fails j => EErr i0 in
  call! (b, ix) := ei_encode_long b ix arity fails j => EErr i0 in EOk b ix.

Ltac emits_call i0 tac := apply (emits_seq _ _ (fun _ => _) _ (fun _ _ => i0)); [tac|intros _].

Lemma old_fun_tail_emits i0 pid md fi uniq fv :
  bytes_ok (pid_node pid) -> bytes_ok md ->
  Emits (old_fun_tail i0 pid md fi uniq fv)
    (app_bytes (pid_bytes pid) (app_bytes (atom_bytes md ERLANG_UTF8)
      (app_bytes (Some (longlong_bytes fi)) (app_bytes (Some (longlong_bytes uniq)) (Some fv))))).
Proof.
  intros Hp Hm. unfold old_fun_tail.
  emits_call i0 ltac:(by apply ei_encode_pid_emits).
  emits_call i0 ltac:(by apply ei_encode_atom_as_emits).
  emits_call i0 ltac:(apply ei_encode_long_emits).
  emits_call i0 ltac:(apply ei_encode_long_emits).
  apply emits_free_vars.
Qed.

Lemma new_fun_tail_emits i0 md old_index uniq pid fv :
  bytes_ok (pid_node pid) -> bytes_ok md ->
  Emits (new_fun_tail i0 md old_index uniq pid fv)
    (app_bytes (atom_bytes md ERLANG_UTF8) (app_bytes (Some (longlong_bytes old_index))
      (app_bytes (Some (longlong_bytes uniq)) (app_bytes (pid_bytes pid) (Some fv))))).
Proof.
  intros Hp Hm. unfold new_fun_tail.
  emits_call i0 ltac:(by apply ei_encode_atom_as_emits).
  emits_call i0 ltac:(apply ei_encode_long_emits).
  emits_call i0 ltac:(apply ei_encode_long_emits).
  emits_call i0 ltac:(by apply ei_encode_pid_emits).
  apply emits_free_vars.
Qed.

Lemma export_tail_emits i0 md func arity :
  bytes_ok md -> bytes_ok func ->
  Emits (export_tail i0 md func arity)
    (app_bytes (atom_bytes md ERLANG_UTF8) (app_bytes (atom_bytes func ERLANG_UTF8)
      (Some (longlong_bytes arity)))).
Proof.
  intros Hm Hf. unfold export_tail.
  emits_call i0 ltac:(by apply ei_encode_atom_as_emits).
  emits_call i0 ltac:(by apply ei_encode_atom_as_emits).
  apply (emits_last _ _ (fun _ _ => i0)). apply ei_encode_long_emits.
Qed.

Lemma new_fun_rest_emits i0 arity md5 fi n_free_vars md old_index uniq pid fv :
  bytes_ok (pid_node pid) -> bytes_ok md -> zlen md5 = 16 ->
  Emits (fun b i =>
    put_if b (fun m => put_bytes m i (Z.land arity 255 :: md5 ++ be_bytes 4 fi ++ be_bytes 4 n_free_vars)) (fun b =>
    new_fun_tail i0 md old_index uniq pid fv b (i + 25)))
  (new_fun_rest arity md5 fi n_free_vars md old_index uniq pid fv).
Proof.
  intros Hp Hm H5. unfold new_fun_rest.
  apply (emits_put_if (fun i m => put_bytes m i _) _
    (fun _ => new_fun_tail i0 md old_index uniq pid fv) _ 25); [done|zlen_lia|].
  intros _. by apply new_fun_tail_emits.
Qed.

Lemma put_new_fun_header_eq b i arity md5 fi n K :
  put_if b (fun m => put_new_fun_header m i arity md5 fi n) K
  = put_if b (fun m => put_bytes m i [ERL_NEW_FUN_EXT]) (fun b =>
    put_if b (fun m => put_bytes m (i + 5) (Z.land arity 255 :: md5 ++ be_bytes 4 fi ++ be_bytes 4 n)) K).
Proof.
  destruct b as [m|]; [|done]. cbn [put_if]. unfold put_new_fun_header. rewrite put8_bytes.
  change (Z.land ERL_NEW_FUN_EXT 255) with ERL_NEW_FUN_EXT.
  destruct (put_bytes m i [ERL_NEW_FUN_EXT]) as [[m1 s1]|] eqn:E; [|done].
  apply put_bytes_some in E as (? & -> & _). change (zlen [ERL_NEW_FUN_EXT]) with 1.
  replace (i + 1 + 4) with (i + 5) by lia.
  change (Z.land arity 255 :: md5 ++ be_bytes 4 fi ++ be_bytes 4 n)
    with ([Z.land arity 255] ++ md5 ++ be_bytes 4 fi ++ be_bytes 4 n).
  rewrite <- put_bytes_seq, put8_bytes.
  destruct (put_bytes m1 (i + 5) [Z.land arity 255]) as [[m2 s2]|]; [|done].
  rewrite <- put_bytes_seq. destruct (put_bytes m2 s2 md5) as [[m3 s3]|]; [|done].
  rewrite <- put_bytes_seq, put32be_bytes. destruct (put_bytes m3 s3 _) as [[m4 s4]|]; [|done].
  by rewrite put32be_bytes.
Qed.

Lemma new_fun_tail_end i0 md old_index uniq pid fv b ix (G : option mem -> Z -> eres) :
  (call! (b, j) := new_fun_tail i0 md old_index uniq pid fv b ix fails j => EErr i0 in G b j)
  = (call! (b, ix) := ei_encode_atom_as b ix md ERLANG_UTF8 ERLANG_UTF8 fails j => EErr i0 in
     call! (b, ix) := ei_encode_long b ix old_index fails j => EErr i0 in
     call! (b, ix) := ei_encode_long b ix uniq fails j => EErr i0 in
     call! (b, ix) := ei_encode_pid b ix pid fails j => EErr i0 in
     put_if b (fun m => put_free_vars m ix fv (zlen fv)) (fun b => G b (ix + zlen fv))).
Proof.
  unfold new_fun_tail. destruct (ei_encode_atom_as _ _ _ _ _) as [b1 i1| |]; try done.
  destruct (ei_encode_long b1 i1 _) as [b2 i2| |]; try done.
  destruct (ei_encode_long b2 i2 _) as [b3 i3| |]; try done.
  destruct (ei_encode_pid b3 i3 _) as [[m|] i4| |]; try done. cbn [put_if].
  by destruct (put_free_vars _ _ _ _) as [[]|].
Qed.

Lemma ei_encode_fun_emits p :
  fun_wf p -> Emits (fun b i => ei_encode_fun b i p) (fun_bytes p).
Proof.
  intros [Hm Hb]. unfold ei_encode_fun, fun_bytes.
  destruct (fun_body p) as [md5 fi old_index uniq n pid len fv|func al].
  - destruct Hb as (H5 & Hk5 & Hp & ->). destruct (fun_arity p =? -1).
    + unfold old_fun_bytes.
      apply (emits_put_if (fun i m => match put8 m i ERL_FUN_EXT with
          | Some (m, s) => put32be m s n | None => None end) _
        (fun i0 => old_fun_tail i0 pid (fun_module p) fi uniq fv) _ 5); [|reflexivity|].
      * intros m i. rewrite put8_bytes. change (Z.land ERL_FUN_EXT 255) with ERL_FUN_EXT.
        change (ERL_FUN_EXT :: be_bytes 4 n) with ([ERL_FUN_EXT] ++ be_bytes 4 n).
        unfold put_bytes at 1 2. rewrite <- store_seq. destruct (store m i _); [|done].
        rewrite put32be_bytes. unfold put_bytes. destruct (store _ _ _); [|done]. do 2 f_equal. zlen_lia.
      * intros i0. by apply old_fun_tail_emits.
    + eapply emits_ext; [exact (emits_sized _ _ ERL_NEW_FUN_EXT (fun i => i)
        (fun i0 => new_fun_rest_emits i0 (fun_arity p) md5 fi n (fun_module p) old_index uniq pid fv Hp Hm H5))|].
      intros b i. cbn beta. replace (i + (1 + 4 + 1 + 16 + 4 + 4)) with (i + 5 + 25) by lia.
      rewrite put_new_fun_header_eq. destruct b as [m|]; cbn [put_if].
      * destruct (put_bytes m i [ERL_NEW_FUN_EXT]) as [[m1 s1]|]; [|done].
        destruct (put_bytes m1 (i + 5) _) as [[m2 s2]|]; [|done]. by rewrite new_fun_tail_end.
      * by rewrite new_fun_tail_end.
  - destruct Hb as (f & -> & Hf). unfold export_bytes.
    apply (emits_put_if (fun i m => put8 m i ERL_EXPORT_EXT) _
      (fun i0 => export_tail i0 (fun_module p) f (fun_arity p)) _ 1); [|reflexivity|].
    * intros m i. apply put8_bytes.
    * intros i0. by apply export_tail_emits.
Qed.

(** ** Decoding what was encoded *)

Definition pid_wf (p : erlang_pid) : Prop :=
  bytes_ok (pid_node p) /\ in_u 32 (pid_num p) /\ in_u 32 (pid_serial p) /\ in_u 32 (pid_creation p).
Definition port_wf (p : erlang_port) : Prop :=
  bytes_ok (port_node p) /\ in_u 64 (port_id p) /\ in_u 32 (port_creation p).
(** [n] has five entries, of which those from [len] on are zero. *)
Definition ref_wf (p : erlang_ref) : Prop :=
  bytes_ok (ref_node p) /\ in_u 32 (ref_creation p) /\ 0 <= ref_len p <= 5 /\
  zlen (ref_n p) = 5 /\ Forall (in_u 32) (ref_n p) /\
  ref_n p = take (Z.to_nat (ref_len p)) (ref_n p) ++ replicate (5 - Z.to_nat (ref_len p)) 0.

Lemma tagged_bytes_some t node tr bs :
  tagged_bytes t node tr = Some bs ->
  exists a, atom_bytes node ERLANG_UTF8 = Some a /\ bs = t ++ a ++ tr.
Proof. unfold tagged_bytes. destruct (atom_bytes node ERLANG_UTF8) as [a|]; [|done]. intros [= <-]. eauto. Qed.

(** Of the formats with a node name, the encoders refuse exactly those whose name
    is not accepted. *)
Lemma tagged_bytes_cases (t : list Z) node tr (X Y : Prop) :
  match tagged_bytes t node tr with Some _ => X | None => Y end = (if verify_utf8_atom node then X else Y).
Proof. unfold tagged_bytes. rewrite atom_bytes_verified. by destruct (verify_utf8_atom node). Qed.

Lemma get_atom_holds node a m s rest :
  atom_bytes node ERLANG_UTF8 = Some a -> holds m s (a ++ rest) ->
  ei_internal_get_atom m s = DOk (utf8_atom_out node) (s + zlen a) /\ holds m (s + zlen a) rest.
Proof. intros Ha [H1 H2]%holds_app. split; [|done]. by apply (get_atom_decodes node a Ha). Qed.

(** Reads the next field of a [holds] hypothesis. *)
Ltac read32 Hh := apply get32be_holds in Hh as [-> Hh].
Ltac read32_last Hh n :=
  rewrite <- (app_nil_r (be_bytes 4 n)) in Hh; apply get32be_holds in Hh as [-> _].

Lemma ei_decode_pid_decodes d p bs :
  pid_wf p -> pid_bytes p = Some bs -> Decodes (ei_decode_pid d) bs (if d then Some p else None).
Proof.
  intros (Hn & H1 & H2 & H3) (a & Ha & ->)%tagged_bytes_some m s Hh.
  cbn [app] in Hh. unfold ei_decode_pid. read_tag Hh.
  destruct (get_atom_holds _ _ _ _ _ Ha Hh) as [-> Hh']. destruct d; [|f_equal; zlen_lia].
  read32 Hh'. read32 Hh'. read32_last Hh' (pid_creation p).
  rewrite !wrapu_wraps_small by (done || lia). destruct p. f_equal. zlen_lia.
Qed.

Lemma ei_decode_port_decodes d p bs :
  port_wf p -> port_bytes p = Some bs -> Decodes (ei_decode_port d) bs (if d then Some p else None).
Proof.
  intros (Hn & H1 & H2) Hb m s Hh. unfold port_bytes in Hb, H1.
  destruct (Z.ltb_spec 0x0fffffff (port_id p)) as [Hid|Hid];
    apply tagged_bytes_some in Hb as (a & Ha & ->); cbn [app] in Hh; unfold ei_decode_port; read_tag Hh;
    destruct (get_atom_holds _ _ _ _ _ Ha Hh) as [-> Hh']; (destruct d; [|f_equal; zlen_lia]).
  - apply get64be_holds in Hh' as [-> Hh']. read32_last Hh' (port_creation p).
    rewrite wrapu_wraps_small, wrapu_small by (done || lia). destruct p. f_equal. zlen_lia.
  - read32 Hh'. read32_last Hh' (port_creation p).
    unfold in_u in H1. rewrite (wraps_small 32 (port_id p)) by (unfold in_s; lia).
    rewrite wrapu_wraps_small, wrapu_small by (done || lia). destruct p. f_equal. zlen_lia.
Qed.

Lemma get_ids_holds ids m s :
  Forall (in_u 32) ids -> holds m s (ids_bytes ids) ->
  get_ids (length ids) m s = DOk ids (s + zlen (ids_bytes ids)).
Proof.
  intros H. revert s. induction H as [|n ids Hn Hids IH]; intros s Hh.
  - cbn. f_equal. zlen_lia.
  - cbn [length get_ids]. change (ids_bytes (n :: ids)) with (be_bytes 4 n ++ ids_bytes ids) in *.
    read32 Hh. rewrite (IH _ Hh), wrapu_wraps_small by (done || lia). f_equal. zlen_lia.
Qed.

Lemma ei_decode_ref_decodes d p bs :
  ref_wf p -> ref_bytes p = Some bs ->
  Decodes (ei_decode_ref d) bs (if d is Some _ then Some p else None).
Proof.
  intros (Hn & H1 & H2 & H5 & H3 & H4) (a & Ha & ->)%tagged_bytes_some m s Hh.
  set (ids := take (Z.to_nat (ref_len p)) (ref_n p)) in *.
  assert (length ids = Z.to_nat (ref_len p)) as Hl.
  { unfold ids, zlen in *. rewrite length_take. lia. }
  assert (zlen ids = ref_len p) as Hz by (unfold zlen; lia).
  cbn [app] in Hh. unfold ei_decode_ref. read_tag Hh.
  apply get16be_holds in Hh as [-> Hh]; [|unfold in_u; lia].
  destruct (Z.ltb_spec 5 (ref_len p)); [lia|].
  destruct (get_atom_holds _ _ _ _ _ Ha Hh) as [-> Hh'].
  destruct d; [|f_equal; zlen_lia]. read32 Hh'. rewrite <- Hl.
  rewrite get_ids_holds by (done || by apply Forall_take). rewrite Hl, <- H4.
  rewrite wrapu_wraps_small by (done || lia). destruct p. f_equal. zlen_lia.
Qed.

Lemma app_bytes_some o1 o2 bs :
  app_bytes o1 o2 = Some bs -> exists a b, o1 = Some a /\ o2 = Some b /\ bs = a ++ b.
Proof. destruct o1 as [a|], o2 as [b|]; try done. intros [= <-]. eauto. Qed.

Lemma decodes_app {A} (d : mem -> Z -> dres A) a x m s rest :
  Decodes d a x -> holds m s (a ++ rest) -> d m s = DOk x (s + zlen a) /\ holds m (s + zlen a) rest.
Proof. intros Hd [H1 H2]%holds_app. split; [by apply Hd|done]. Qed.

Definition trace_wf (p : erlang_trace) : Prop :=
  pid_wf (tr_from p) /\ in_s 64 (tr_flags p) /\ in_s 64 (tr_label p) /\
  in_s 64 (tr_serial p) /\ in_s 64 (tr_prev p).

(** Splits a chain of encodings and runs the decoder of the first one. *)
Ltac split_bytes H := apply app_bytes_some in H as (? & ? & ?E & H & ->).
Ltac decode_with Hh lem := let H := fresh in destruct (decodes_app _ _ _ _ _ _ lem Hh) as [-> H]; clear Hh; rename H into Hh.

Lemma ei_decode_trace_decodes d p bs :
  trace_wf p -> trace_bytes p = Some bs -> Decodes (ei_decode_trace d) bs (if d then Some p else None).
Proof.
  intros (Hp & H1 & H2 & H3 & H4) Hb m s Hh. unfold trace_bytes in Hb.
  destruct (pid_bytes (tr_from p)) as [pb|] eqn:Hpb; [|done].
  cbn [app_bytes] in Hb. apply (inj Some) in Hb as <-. unfold ei_decode_trace.
  decode_with Hh (ei_decode_tuple_header_decodes true 5 _ ltac:(lia) eq_refl : Decodes _ [ERL_SMALL_TUPLE_EXT; 5] _).
  cbn [Z.eqb negb Pos.eqb].
  decode_with Hh (ei_decode_long_decodes _ H1). decode_with Hh (ei_decode_long_decodes _ H2).
  decode_with Hh (ei_decode_long_decodes _ H3). decode_with Hh (ei_decode_pid_decodes d _ _ Hp Hpb).
  rewrite (ei_decode_long_decodes _ H4 _ _ Hh). destruct d, p; f_equal; zlen_lia.
Qed.

(** The name of an atom read into a destination of [destlen] bytes. *)
Lemma decode_name_holds name a m s rest destlen :
  atom_bytes name ERLANG_UTF8 = Some a -> holds m s (a ++ rest) ->
  ei_decode_atom_as m s destlen ERLANG_UTF8
  = (if destlen <=? zlen name then DErr s else DOk (utf8_atom_out name) (s + zlen a)) /\
  holds m (s + zlen a) rest /\ zlen name <= 1020.
Proof.
  intros [Hv ->]%atom_bytes_utf8 [H1 H2]%holds_app. apply verify_utf8_atom_length in Hv.
  split; [|done]. set (long := 256 <=? zlen name) in *.
  assert (zlen name < if long then 65536 else 256) as Hl
    by (subst long; destruct (Z.leb_spec 256 (zlen name)); lia).
  destruct (Z.leb_spec destlen (zlen name)) as [Hd|Hd].
  - unfold ei_decode_atom_as. destruct (atom_header_ext long name m s Hl H1) as (t & -> & _).
    closed_tests. destruct (Z.leb_spec destlen (zlen name)); [done|lia].
  - apply (ei_decode_atom_as_utf8 long name destlen ERLANG_UTF8); (done || vm_compute; congruence).
Qed.

Lemma copy_free_vars_holds m s fv : holds m s fv -> copy_free_vars true m s (zlen fv) = Some (Some fv).
Proof.
  intros H. unfold copy_free_vars. destruct (Z.ltb_spec 0 (zlen fv)).
  - by rewrite (holds_slice _ _ _ _ H eq_refl).
  - destruct fv; [done|zlen_lia].
Qed.

(** What the decoder's struct holds for the fun [p]: a function name that does
    not fit behind the module name is in memory of its own, and the previous
    contents of [md5] and [old_index] stay with the old format. *)
Definition fun_decoded (old : list Z * Z) (p : erlang_fun) : erlang_fun :=
  {| fun_arity := fun_arity p; fun_module := fun_module p;
     fun_body := match fun_body p with
       | EI_FUN_CLOSURE md5 fi old_index uniq n pid len fv =>
           if fun_arity p =? -1 then EI_FUN_CLOSURE (fst old) fi (snd old) uniq n pid len fv
           else fun_body p
       | EI_FUN_EXPORT (Some f) _ =>
           EI_FUN_EXPORT (Some f) (MAXATOMLEN_UTF8 - (zlen (fun_module p) + 1) <=? zlen f)
       | b => b
       end |}.

(** The values fit the fields of the external format. *)
Definition fun_ranges (p : erlang_fun) : Prop :=
  match fun_body p with
  | EI_FUN_CLOSURE _ fi old_index uniq n pid _ fv =>
      pid_wf pid /\ in_s 64 uniq /\ in_s 32 n /\
      (fun_arity p = -1 /\ in_s 64 fi \/ byte_ok (fun_arity p) /\ in_s 32 fi /\ in_s 64 old_index)
  | EI_FUN_EXPORT _ _ => in_s 64 (fun_arity p)
  end.

(** [skip] moves over the free variables of [p]. *)
Definition skips_free_vars (skip : mem -> Z -> dres unit) (p : erlang_fun) : Prop :=
  match fun_body p with
  | EI_FUN_CLOSURE _ _ _ _ n _ _ fv =>
      fun_arity p = -1 -> Decodes (skip_n skip (Z.to_nat n)) fv tt
  | EI_FUN_EXPORT _ _ => True
  end.

Section FunDecodes.
Variable skip : mem -> Z -> dres unit.

Lemma old_fun_decodes d md5 fi old_index uniq n pid md fv bs :
  pid_wf pid -> in_s 64 uniq -> in_s 32 n -> in_s 64 fi ->
  Decodes (skip_n skip (Z.to_nat n)) fv tt ->
  old_fun_bytes n pid md fi uniq fv = Some bs ->
  Decodes (ei_decode_fun skip d true) bs
    (if d is Some old then Some (fun_decoded old {| fun_arity := -1; fun_module := md;
       fun_body := EI_FUN_CLOSURE md5 fi old_index uniq n pid (zlen fv) fv |}) else None).
Proof.
  intros Hp Hu Hn Hf Hs Hb m s Hh. unfold old_fun_bytes in Hb.
  destruct (pid_bytes pid) as [pb|] eqn:Hpb; [|done].
  destruct (atom_bytes md ERLANG_UTF8) as [ab|] eqn:Hab; [|done].
  cbn [app_bytes app] in Hb. apply (inj Some) in Hb as <-. unfold ei_decode_fun. read_tag Hh.
  read32 Hh. rewrite wraps_small by (done || lia).
  decode_with Hh (ei_decode_pid_decodes (if d is Some _ then true else false) _ _ Hp Hpb).
  destruct (decode_name_holds _ _ _ _ _ MAXATOMLEN_UTF8 Hab Hh) as (-> & Hh2 & Hl).
  destruct (Z.leb_spec MAXATOMLEN_UTF8 (zlen md)) as [Hx|_]; [unfold MAXATOMLEN_UTF8 in Hx; lia|].
  decode_with Hh2 (ei_decode_long_decodes _ Hf). decode_with Hh2 (ei_decode_long_decodes _ Hu).
  rewrite (Hs _ _ Hh2).
  match goal with |- context [copy_free_vars true m ?t (?u - ?t)] => replace (u - t) with (zlen fv) by lia end.
  rewrite copy_free_vars_holds by exact Hh2.
  destruct d as [[o5 oi]|]; cbn [fun_decoded fun_arity fun_module fun_body fst snd]; f_equal; zlen_lia.
Qed.

Lemma new_fun_decodes d arity md5 fi old_index uniq n pid md fv bs :
  pid_wf pid -> in_s 64 uniq -> in_s 32 n -> byte_ok arity -> in_s 32 fi -> in_s 64 old_index ->
  zlen md5 = 16 -> zlen bs < 2 ^ 31 ->
  new_fun_bytes (new_fun_rest arity md5 fi n md old_index uniq pid fv) = Some bs ->
  Decodes (ei_decode_fun skip d true) bs
    (if d is Some old then Some (fun_decoded old {| fun_arity := arity; fun_module := md;
       fun_body := EI_FUN_CLOSURE md5 fi old_index uniq n pid (zlen fv) fv |}) else None).
Proof.
  intros Hp Hu Hn Ha Hf Ho H5 Hz Hb m s Hh. unfold new_fun_rest in Hb.
  destruct (pid_bytes pid) as [pb|] eqn:Hpb; [|by destruct (atom_bytes md ERLANG_UTF8)].
  destruct (atom_bytes md ERLANG_UTF8) as [ab|] eqn:Hab; [|done].
  cbn [app_bytes new_fun_bytes app] in Hb. set (rest := Z.land arity 255 :: _) in Hb.
  assert (zlen rest = 1 + 16 + 4 + 4 + zlen ab + zlen (longlong_bytes old_index)
    + zlen (longlong_bytes uniq) + zlen pb + zlen fv) as Hr by (subst rest; zlen_lia).
  apply (inj Some) in Hb as <-. rewrite zlen_cons, zlen_app, zlen_be_bytes in *.
  pose proof (zlen_nonneg rest). unfold ei_decode_fun. read_tag Hh.
  read32 Hh. rewrite wraps_small by (unfold in_s; lia). subst rest. rewrite land_255_small in Hh by done.
  apply get8_holds in Hh as [-> Hh]; [|exact Ha]. rewrite <- !app_assoc in Hh.
  apply holds_app in Hh as [H16 Hh]. rewrite H5 in Hh.
  rewrite (holds_slice _ _ _ _ H16 H5).
  destruct d as [old|]; cbv iota; read32 Hh; read32 Hh; rewrite !(wraps_small 32) by (done || lia).
  all: destruct (decode_name_holds _ _ _ _ _ MAXATOMLEN_UTF8 Hab Hh) as (-> & Hh2 & Hl).
  all: destruct (Z.leb_spec MAXATOMLEN_UTF8 (zlen md)) as [Hx|_]; [unfold MAXATOMLEN_UTF8 in Hx; lia|].
  all: decode_with Hh2 (ei_decode_long_decodes _ Ho); decode_with Hh2 (ei_decode_long_decodes _ Hu).
  1: decode_with Hh2 (ei_decode_pid_decodes true _ _ Hp Hpb).
  2: decode_with Hh2 (ei_decode_pid_decodes false _ _ Hp Hpb).
  all: match goal with |- context [wraps 32 ?x] =>
         replace (wraps 32 x) with (zlen fv) by (rewrite wraps_small; [|lia|unfold in_s]; zlen_lia) end.
  all: replace (zlen fv <? 0) with false by zlen_lia.
  - rewrite copy_free_vars_holds by exact Hh2. unfold fun_decoded. cbn [fun_arity fun_body fun_module].
    unfold byte_ok in Ha. replace (arity =? -1) with false by lia. f_equal. zlen_lia.
  - f_equal. zlen_lia.
Qed.

Lemma export_decodes d md f al arity bs :
  in_s 64 arity -> export_bytes md f arity = Some bs ->
  Decodes (ei_decode_fun skip d true) bs
    (if d is Some old then Some (fun_decoded old {| fun_arity := arity; fun_module := md;
       fun_body := EI_FUN_EXPORT (Some f) al |}) else None).
Proof.
  intros Ha Hb m s Hh. unfold export_bytes in Hb.
  destruct (atom_bytes md ERLANG_UTF8) as [mb|] eqn:Hmb; [|done].
  destruct (atom_bytes f ERLANG_UTF8) as [fb|] eqn:Hfb; [|done].
  cbn [app_bytes app] in Hb. apply (inj Some) in Hb as <-. unfold ei_decode_fun. read_tag Hh.
  destruct (decode_name_holds _ _ _ _ _ MAXATOMLEN_UTF8 Hmb Hh) as (-> & Hh2 & Hl).
  destruct (Z.leb_spec MAXATOMLEN_UTF8 (zlen md)) as [Hx|_]; [unfold MAXATOMLEN_UTF8 in Hx; lia|].
  pose proof (fun dl => decode_name_holds _ _ _ _ _ dl Hfb Hh2) as Hf.
  destruct (Hf 0) as (_ & Hh3 & Hlf).
  assert (forall dl, ei_decode_atom_as m (s + 1 + zlen mb) dl ERLANG_UTF8 = if dl <=? zlen f
    then DErr (s + 1 + zlen mb) else DOk (utf8_atom_out f) (s + 1 + zlen mb + zlen fb)) as Hd
    by (intros dl; by destruct (Hf dl) as (-> & _)).
  rewrite !Hd. pose proof (ei_decode_long_decodes _ Ha _ _ Hh3) as Hlong.
  replace (MAXATOMLEN_UTF8 <=? zlen f) with false by (unfold MAXATOMLEN_UTF8; lia).
  unfold fun_decoded. destruct d as [old|]; cbn [fun_arity fun_body fun_module utf8_atom_out at_name].
  - destruct (MAXATOMLEN_UTF8 - (zlen md + 1) <=? zlen f).
    + replace (zlen md + 1 =? 0) with false by zlen_lia. rewrite Hlong. f_equal. zlen_lia.
    + rewrite Hlong. f_equal. zlen_lia.
  - rewrite Z.sub_0_r. replace (MAXATOMLEN_UTF8 <=? zlen f) with false by (unfold MAXATOMLEN_UTF8; lia).
    rewrite Hlong. f_equal. zlen_lia.
Qed.

Lemma ei_decode_fun_decodes d p bs :
  fun_wf p -> fun_ranges p -> skips_free_vars skip p -> zlen bs < 2 ^ 31 -> fun_bytes p = Some bs ->
  Decodes (ei_decode_fun skip d true) bs (if d is Some old then Some (fun_decoded old p) else None).
Proof.
  destruct p as [arity md body]. unfold fun_wf, fun_ranges, skips_free_vars, fun_bytes.
  cbn [fun_arity fun_module fun_body]. intros [Hm Hw] Hr Hs Hz Hb.
  destruct body as [md5 fi old_index uniq n pid len fv|func al].
  - destruct Hw as (H5 & H5' & Hn & ->). destruct Hr as (Hp & Hu & Hn' & [[-> Hf]|(Ha & Hf & Ho)]).
    + by apply old_fun_decodes; auto.
    + unfold byte_ok in Ha. replace (arity =? -1) with false in Hb by lia. by apply new_fun_decodes.
  - destruct Hw as (f & -> & Hf). by apply export_decodes.
Qed.
End FunDecodes.

(** ** The comparisons are total orders *)

(** What a C comparison function promises: a total order given by the sign. *)
Class TotalCmp {A} (c : A -> A -> Z) : Prop := {
  cmp_sign : forall a b, c b a = - c a b;
  cmp_eq : forall a b, c a b = 0 <-> a = b;
  cmp_trans : forall a b d, c a b <= 0 -> c b d <= 0 -> c a d <= 0
}.

Definition zcmp (a b : Z) : Z := if a =? b then 0 else if a <? b then -1 else 1.

Definition lexcmp {A B} (c : A -> A -> Z) (d : B -> B -> Z) (x y : A * B) : Z :=
  let r := c (fst x) (fst y) in if negb (r =? 0) then r else d (snd x) (snd y).

#[export] Instance zcmp_total : TotalCmp zcmp.
Proof.
  unfold zcmp. split; intros *;
    repeat match goal with |- context [?a =? ?b] => destruct (Z.eqb_spec a b)
                         | |- context [?a <? ?b] => destruct (Z.ltb_spec a b) end; lia.
Qed.

#[export] Instance strcmp_total : TotalCmp strcmp.
Proof.
  split.
  - intros a. induction a as [|x a IH]; intros [|y b]; try done. cbn [strcmp].
    rewrite (Z.eqb_sym y x). destruct (Z.eqb_spec x y); [apply IH|].
    destruct (Z.ltb_spec x y), (Z.ltb_spec y x); lia.
  - intros a. induction a as [|x a IH]; intros [|y b]; try done. cbn [strcmp].
    destruct (Z.eqb_spec x y) as [->|Hxy].
    + rewrite IH. split; [by intros ->|by intros [= ->]].
    + destruct (x <? y); split; (done || intros [= E _]; done).
  - intros a. induction a as [|x a IH]; intros [|y b] [|z d]; try (cbn; lia). cbn [strcmp].
    destruct (Z.eqb_spec x y), (Z.eqb_spec y z), (Z.eqb_spec x z); try (exfalso; congruence); try apply IH;
      destruct (Z.ltb_spec x y), (Z.ltb_spec y z), (Z.ltb_spec x z); lia.
Qed.

#[export] Instance lexcmp_total {A B} (c : A -> A -> Z) (d : B -> B -> Z) :
  TotalCmp c -> TotalCmp d -> TotalCmp (lexcmp c d).
Proof.
  intros C D. split.
  - intros [a1 a2] [b1 b2]. unfold lexcmp. cbn. rewrite (cmp_sign (c := c) a1 b1), (cmp_sign (c := d) a2 b2).
    destruct (Z.eqb_spec (c a1 b1) 0), (Z.eqb_spec (- c a1 b1) 0); cbn; lia.
  - intros [a1 a2] [b1 b2]. unfold lexcmp. cbn. destruct (Z.eqb_spec (c a1 b1) 0) as [E|E]; cbn.
    + rewrite cmp_eq. apply cmp_eq in E as ->. split; [by intros ->|by intros [= ->]].
    + split; [done|]. intros [= -> _]. by destruct E; apply cmp_eq.
  - intros [a1 a2] [b1 b2] [d1 d2]. unfold lexcmp. cbn.
    intros H1 H2.
    assert (c a1 b1 <= 0) as L1 by (destruct (Z.eqb_spec (c a1 b1) 0); cbn in H1; lia).
    assert (c b1 d1 <= 0) as L2 by (destruct (Z.eqb_spec (c b1 d1) 0); cbn in H2; lia).
    pose proof (cmp_trans (c := c) _ _ _ L1 L2) as L3.
    destruct (Z.eqb_spec (c a1 d1) 0) as [E3|E3]; cbn; [|exact L3].
    apply (cmp_eq (c := c)) in E3 as ->. pose proof (cmp_sign (c := c) b1 d1) as S.
    assert (c b1 d1 = 0) as E by lia. rewrite E in H2. rewrite (cmp_sign (c := c) b1 d1), E in H1.
    change (- 0) with 0 in H1. cbn in H1, H2. exact (cmp_trans (c := d) _ _ _ H1 H2).
Qed.

(** The order of the terms: pids by their numbers and then by node, ports by
    node first. *)
Definition node_cmp : list Z * Z -> list Z * Z -> Z := lexcmp strcmp zcmp.
Definition pid_key (p : erlang_pid) := (pid_serial p, (pid_num p, (pid_node p, pid_creation p))).
Definition port_key (p : erlang_port) := ((port_node p, port_creation p), port_id p).

(** A reference is compared as one number, least significant integer first. *)
Fixpoint ids_val (l : list Z) : Z :=
  match l with [] => 0 | n :: l => n + 2 ^ 32 * ids_val l end.
Definition ref_key (p : erlang_ref) :=
  ((ref_node p, ref_creation p), ids_val (take (Z.to_nat (ref_len p)) (ref_n p))).

Lemma cmp_nodes_key an ac bn bc : cmp_nodes an ac bn bc = node_cmp (an, ac) (bn, bc).
Proof. reflexivity. Qed.

Lemma ei_cmp_pids_key a b : ei_cmp_pids a b = lexcmp zcmp (lexcmp zcmp node_cmp) (pid_key a) (pid_key b).
Proof.
  unfold ei_cmp_pids, lexcmp, pid_key, zcmp. rewrite cmp_nodes_key. cbn [fst snd].
  destruct (pid_serial a =? pid_serial b); cbn.
  - destruct (pid_num a =? pid_num b); cbn.
    + by destruct (Z.eqb_spec (node_cmp (pid_node a, pid_creation a) (pid_node b, pid_creation b)) 0) as [-> |].
    + by destruct (pid_num a <? pid_num b).
  - by destruct (pid_serial a <? pid_serial b).
Qed.

Lemma ei_cmp_ports_key a b : ei_cmp_ports a b = lexcmp node_cmp zcmp (port_key a) (port_key b).
Proof.
  unfold ei_cmp_ports, lexcmp at 1, port_key, zcmp. rewrite cmp_nodes_key. cbn [fst snd].
  destruct (negb _); [done|]. by destruct (port_id a =? port_id b).
Qed.

Lemma zcmp_shift x y c : zcmp (x + c) (y + c) = zcmp x y.
Proof. unfold zcmp. replace (x + c =? y + c) with (x =? y) by lia. by replace (x + c <? y + c) with (x <? y) by lia. Qed.

Lemma ids_val_range l : Forall (in_u 32) l -> 0 <= ids_val l < (2 ^ 32) ^ zlen l.
Proof.
  induction 1 as [|n l Hn _ IH]; [change (zlen (@nil Z)) with 0; cbn; lia|]. cbn [ids_val].
  rewrite zlen_cons, Z.pow_add_r by zlen_lia. rewrite Z.pow_1_r. unfold in_u in Hn. nia.
Qed.

Lemma ids_val_app l1 l2 : ids_val (l1 ++ l2) = ids_val l1 + (2 ^ 32) ^ zlen l1 * ids_val l2.
Proof.
  induction l1 as [|n l1 IH]; [change (zlen (@nil Z)) with 0; cbn [app ids_val]; lia|].
  cbn [app ids_val]. rewrite IH, zlen_cons, Z.pow_add_r by zlen_lia. lia.
Qed.

Lemma ids_val_snoc l k a : l !! k = Some a ->
  ids_val (take (S k) l) = ids_val (take k l) + (2 ^ 32) ^ Z.of_nat k * a.
Proof.
  intros E. rewrite (take_S_r _ _ _ E), ids_val_app. cbn [ids_val].
  apply lookup_lt_Some in E. replace (zlen (take k l)) with (Z.of_nat k); [lia|].
  unfold zlen. rewrite length_take. lia.
Qed.

Lemma cmp_ids_spec k x y :
  Forall (in_u 32) x -> Forall (in_u 32) y -> (k <= length x)%nat -> (k <= length y)%nat ->
  cmp_ids k x y = Some (zcmp (ids_val (take k x)) (ids_val (take k y))).
Proof.
  intros Hx Hy. induction k as [|k IH]; intros Lx Ly; [done|]. cbn [cmp_ids].
  destruct (lookup_lt_is_Some_2 x k ltac:(lia)) as [a Ea].
  destruct (lookup_lt_is_Some_2 y k ltac:(lia)) as [b Eb]. rewrite Ea, Eb.
  rewrite (ids_val_snoc _ _ _ Ea), (ids_val_snoc _ _ _ Eb), IH by lia.
  pose proof (ids_val_range _ (Forall_take _ k _ Hx)) as Rx.
  pose proof (ids_val_range _ (Forall_take _ k _ Hy)) as Ry.
  replace (zlen (take k x)) with (Z.of_nat k) in Rx by (unfold zlen; rewrite length_take; lia).
  replace (zlen (take k y)) with (Z.of_nat k) in Ry by (unfold zlen; rewrite length_take; lia).
  set (W := (2 ^ 32) ^ Z.of_nat k) in *.
  destruct (Z.eqb_spec a b) as [->|Hab]; cbn [negb]; f_equal; [by rewrite zcmp_shift|]. unfold zcmp.
  - destruct (Z.ltb_spec a b).
    + replace (_ =? _) with false by (symmetry; apply Z.eqb_neq; nia).
      replace (_ <? _) with true by (symmetry; apply Z.ltb_lt; nia). done.
    + replace (_ =? _) with false by (symmetry; apply Z.eqb_neq; nia).
      replace (_ <? _) with false by (symmetry; apply Z.ltb_ge; nia). done.
Qed.

Lemma ids_val_zero l : Forall (in_u 32) l -> ids_val l = 0 -> Forall (eq 0) l.
Proof.
  intros H. induction H as [|n l Hn Hl IH]; [constructor|]. cbn [ids_val]. intros E.
  pose proof (ids_val_range l Hl). unfold in_u in Hn. constructor; [lia|]. apply IH. lia.
Qed.

(** The excess loop finds a non-zero integer exactly when the larger number is
    not below [2^32 ^ lo]. *)
Lemma cmp_excess_spec k lo x :
  Forall (in_u 32) x -> (lo + k <= length x)%nat ->
  cmp_excess k x (Z.of_nat (lo + k)) = Some (negb (ids_val (take k (drop lo x)) =? 0)).
Proof.
  intros Hx. induction k as [|k IH]; intros Hl; [done|]. cbn [cmp_excess].
  replace (Z.of_nat (lo + S k) - 1) with (Z.of_nat (lo + k)) by lia.
  destruct (lookup_lt_is_Some_2 x (lo + k) ltac:(lia)) as [a Ea].
  unfold mem_get. destruct (Z.ltb_spec (Z.of_nat (lo + k)) 0); [lia|]. rewrite Nat2Z.id, Ea.
  rewrite IH by lia. assert (drop lo x !! k = Some a) as Ea' by (by rewrite lookup_drop).
  rewrite (ids_val_snoc _ _ _ Ea').
  pose proof (ids_val_range _ (Forall_take _ k _ (Forall_drop _ lo _ Hx))) as R.
  assert (0 <= a) by (exact (proj1 (Forall_lookup_1 _ _ _ _ Hx Ea))).
  assert (0 < (2 ^ 32) ^ Z.of_nat k) by (apply Z.pow_pos_nonneg; lia).
  destruct (Z.eqb_spec a 0) as [->|Ha]; cbn [negb].
  - do 2 f_equal. lia.
  - replace (_ =? 0) with false; [done|]. symmetry. apply Z.eqb_neq. nia.
Qed.

(** The comparison of two numbers of different lengths. *)
Lemma zcmp_excess (lo hi : nat) x y :
  Forall (in_u 32) x -> Forall (in_u 32) y -> (lo <= hi)%nat -> (hi <= length x)%nat -> (lo <= length y)%nat ->
  (if negb (ids_val (take (hi - lo) (drop lo x)) =? 0) then Some 1 else cmp_ids lo x y)
  = Some (zcmp (ids_val (take hi x)) (ids_val (take lo y))).
Proof.
  intros Hx Hy H1 H2 H3.
  assert (ids_val (take hi x) = ids_val (take lo x)
    + (2 ^ 32) ^ Z.of_nat lo * ids_val (take (hi - lo) (drop lo x))) as E.
  { rewrite <- (take_drop lo (take hi x)) at 1. rewrite ids_val_app, take_take, Nat.min_l by lia.
    rewrite skipn_firstn_comm. do 3 f_equal. unfold zlen. rewrite length_take. lia. }
  rewrite E, cmp_ids_spec by (done || lia).
  pose proof (ids_val_range _ (Forall_take _ lo _ Hx)) as Rx.
  pose proof (ids_val_range _ (Forall_take _ lo _ Hy)) as Ry.
  pose proof (ids_val_range _ (Forall_take _ (hi - lo) _ (Forall_drop _ lo _ Hx))) as Re.
  replace (zlen (take lo x)) with (Z.of_nat lo) in Rx by (unfold zlen; rewrite length_take; lia).
  replace (zlen (take lo y)) with (Z.of_nat lo) in Ry by (unfold zlen; rewrite length_take; lia).
  set (W := (2 ^ 32) ^ Z.of_nat lo) in *.
  destruct (Z.eqb_spec (ids_val (take (hi - lo) (drop lo x))) 0) as [->|Hne]; cbn [negb].
  - by rewrite Z.mul_0_r, Z.add_0_r.
  - unfold zcmp. replace (_ =? _) with false by (symmetry; apply Z.eqb_neq; nia).
    replace (_ <? _) with false by (symmetry; apply Z.ltb_ge; nia). done.
Qed.

Lemma ei_cmp_refs_key a b :
  ref_wf a -> ref_wf b ->
  ei_cmp_refs a b = Some (lexcmp node_cmp zcmp (ref_key a) (ref_key b)).
Proof.
  intros (_ & _ & La & Za & Fa & _) (_ & _ & Lb & Zb & Fb & _).
  unfold ei_cmp_refs, lexcmp at 1, ref_key. rewrite cmp_nodes_key. cbn [fst snd].
  destruct (negb _); [done|]. unfold zlen in *.
  destruct (Z.ltb_spec (ref_len b) (ref_len a)).
  - pose proof (cmp_excess_spec (Z.to_nat (ref_len a - ref_len b)) (Z.to_nat (ref_len b)) (ref_n a) Fa ltac:(lia)) as E.
    replace (Z.of_nat _) with (ref_len a) in E by lia. rewrite E.
    pose proof (zcmp_excess (Z.to_nat (ref_len b)) (Z.to_nat (ref_len a)) (ref_n a) (ref_n b) Fa Fb) as Z1.
    replace (Z.to_nat (ref_len a - ref_len b)) with (Z.to_nat (ref_len a) - Z.to_nat (ref_len b))%nat in * by lia.
    rewrite <- Z1 by lia. by destruct (negb _).
  - destruct (Z.ltb_spec (ref_len a) (ref_len b)).
    + pose proof (cmp_excess_spec (Z.to_nat (ref_len b - ref_len a)) (Z.to_nat (ref_len a)) (ref_n b) Fb ltac:(lia)) as E.
      replace (Z.of_nat _) with (ref_len b) in E by lia. rewrite E.
      pose proof (zcmp_excess (Z.to_nat (ref_len a)) (Z.to_nat (ref_len b)) (ref_n b) (ref_n a) Fb Fa) as Z1.
      replace (Z.to_nat (ref_len b - ref_len a)) with (Z.to_nat (ref_len b) - Z.to_nat (ref_len a))%nat in * by lia.
      rewrite cmp_ids_spec in * by (done || lia).
      rewrite (cmp_sign (c := zcmp) (ids_val (take (Z.to_nat (ref_len b)) (ref_n b)))).
      specialize (Z1 ltac:(lia) ltac:(lia) ltac:(lia)). destruct (negb _).
      * apply (inj Some) in Z1 as <-. done.
      * apply (inj Some) in Z1 as <-. f_equal. apply cmp_sign.
    + replace (ref_len b) with (ref_len a) by lia. by rewrite cmp_ids_spec by (done || lia).
Qed.

(** ** Properties *)

(** A pid with 32-bit fields is written by [ei_encode_pid] exactly when its
    node name is UTF-8 of at most 255 characters, and [ei_decode_pid] reads it
    back; the call with a NULL destination moves [*index] as far. *)
Theorem pid_roundtrip p :
  pid_wf p ->
  if verify_utf8_atom (pid_node p)
  then RoundTrip (fun b i => ei_encode_pid b i p) (ei_decode_pid true) (Some p) /\
       RoundTrip (fun b i => ei_encode_pid b i p) (ei_decode_pid false) None
  else Refuses (fun b i => ei_encode_pid b i p).
Proof.
  intros Hw. rewrite <- (tagged_bytes_cases [ERL_NEW_PID_EXT] (pid_node p)
    (be_bytes 4 (pid_num p) ++ be_bytes 4 (pid_serial p) ++ be_bytes 4 (pid_creation p))).
  apply (emits_cases (fun b i => ei_encode_pid b i p) (pid_bytes p));
    [by apply ei_encode_pid_emits, Hw|exact (fun bs => ei_decode_pid_decodes true p bs Hw)|exact (fun bs => ei_decode_pid_decodes false p bs Hw)].
Qed.

Lemma pid_roundtrip_witness :
  let p := {| pid_node := [97; 64; 98]; pid_num := 4294967295; pid_serial := 7; pid_creation := 3 |} in
  RoundTrip (fun b i => ei_encode_pid b i p) (ei_decode_pid true) (Some p) /\
  RoundTrip (fun b i => ei_encode_pid b i p) (ei_decode_pid false) None.
Proof.
  intros p. apply (pid_roundtrip p). unfold pid_wf, in_u. cbn. split; [repeat constructor; lia|lia].
Defined.

(** A port with any 64-bit id and an acceptable node name is read back by
    [ei_decode_port], whichever of the two formats (28-bit and 64-bit ids) the
    encoder chooses; a port with another node name is refused. *)
Theorem port_roundtrip p :
  port_wf p ->
  if verify_utf8_atom (port_node p)
  then RoundTrip (fun b i => ei_encode_port b i p) (ei_decode_port true) (Some p) /\
       RoundTrip (fun b i => ei_encode_port b i p) (ei_decode_port false) None
  else Refuses (fun b i => ei_encode_port b i p).
Proof.
  intros Hw.
  pose proof (emits_cases (fun b i => ei_encode_port b i p) (port_bytes p) (ei_decode_port true) (Some p)
    (ei_decode_port false) None (ei_encode_port_emits p (proj1 Hw))
    (fun bs => ei_decode_port_decodes true p bs Hw) (fun bs => ei_decode_port_decodes false p bs Hw)) as H.
  revert H. unfold port_bytes. destruct (0x0fffffff <? port_id p); by rewrite tagged_bytes_cases.
Qed.

Lemma port_roundtrip_witness :
  let p := {| port_node := [97; 64; 98]; port_id := 0x123456789; port_creation := 3 |} in
  RoundTrip (fun b i => ei_encode_port b i p) (ei_decode_port true) (Some p) /\
  RoundTrip (fun b i => ei_encode_port b i p) (ei_decode_port false) None.
Proof.
  intros p. apply (port_roundtrip p). unfold port_wf, in_u. cbn. split; [repeat constructor; lia|lia].
Defined.

(** A reference of up to five 32-bit integers and an acceptable node name is
    read back by [ei_decode_ref], whatever the destination held before; a
    reference with another node name is refused. *)
Theorem ref_roundtrip p old :
  ref_wf p ->
  if verify_utf8_atom (ref_node p)
  then RoundTrip (fun b i => ei_encode_ref b i p) (ei_decode_ref (Some old)) (Some p) /\
       RoundTrip (fun b i => ei_encode_ref b i p) (ei_decode_ref None) None
  else Refuses (fun b i => ei_encode_ref b i p).
Proof.
  intros Hw. pose proof Hw as (Hn & _ & Hl & Hz & _).
  rewrite <- (tagged_bytes_cases (ERL_NEWER_REFERENCE_EXT :: be_bytes 2 (ref_len p)) (ref_node p)
    (be_bytes 4 (ref_creation p) ++ ids_bytes (take (Z.to_nat (ref_len p)) (ref_n p)))).
  apply (emits_cases (fun b i => ei_encode_ref b i p) (ref_bytes p));
    [apply ei_encode_ref_emits; [done|lia]|intros bs Hb; by apply (ei_decode_ref_decodes (Some old) p bs Hw)|
     intros bs Hb; by apply (ei_decode_ref_decodes None p bs Hw)].
Qed.

Lemma ref_roundtrip_witness :
  let p := {| ref_node := [97; 64; 98]; ref_len := 3; ref_n := [1; 2; 4294967295; 0; 0]; ref_creation := 3 |} in
  RoundTrip (fun b i => ei_encode_ref b i p) (ei_decode_ref (Some p)) (Some p) /\
  RoundTrip (fun b i => ei_encode_ref b i p) (ei_decode_ref None) None.
Proof.
  intros p. apply (ref_roundtrip p p).
  unfold ref_wf, in_u. cbn. repeat split; try lia; repeat constructor; lia.
Defined.

(** A fun of any of the three kinds (closure in the old and in the new
    format, external fun) whose external format [fun_bytes] is defined and below
    2^31 bytes is read back by [ei_decode_fun]; a function name too long to stand
    behind the module name goes to memory of its own.  Other funs are refused.
    The decoder of the old format relies on the term skipper to find the end of
    the free variables. *)
Theorem fun_roundtrip skip old p :
  fun_wf p -> fun_ranges p -> skips_free_vars skip p ->
  match fun_bytes p with
  | Some bs => zlen bs < 2 ^ 31 ->
      RoundTrip (fun b i => ei_encode_fun b i p) (ei_decode_fun skip (Some old) true) (Some (fun_decoded old p)) /\
      RoundTrip (fun b i => ei_encode_fun b i p) (ei_decode_fun skip None true) None
  | None => Refuses (fun b i => ei_encode_fun b i p)
  end.
Proof.
  intros Hw Hr Hs. pose proof (ei_encode_fun_emits p Hw) as Hem.
  destruct (fun_bytes p) as [bs|] eqn:Hb; [|by apply emits_refuses].
  intros Hz. split; apply (emits_roundtrip _ bs); try done.
  - apply (ei_decode_fun_decodes skip (Some old) p bs Hw Hr Hs Hz Hb).
  - apply (ei_decode_fun_decodes skip None p bs Hw Hr Hs Hz Hb).
Qed.

Lemma fun_roundtrip_witness :
  let pid := {| pid_node := [97; 64; 98]; pid_num := 1; pid_serial := 2; pid_creation := 3 |} in
  let p := {| fun_arity := 2; fun_module := [109; 111; 100];
              fun_body := EI_FUN_CLOSURE (replicate 16 9) 4 4 77 1 pid 2 [97; 5] |} in
  RoundTrip (fun b i => ei_encode_fun b i p) (ei_decode_fun (fun _ _ => DOob) (Some ([], 0)) true) (Some p) /\
  RoundTrip (fun b i => ei_encode_fun b i p) (ei_decode_fun (fun _ _ => DOob) None true) None.
Proof.
  intros pid p. apply (fun_roundtrip (fun _ _ => DOob) ([], 0) p).
  - unfold fun_wf, byte_ok. cbn. repeat split; try (repeat constructor; lia).
  - unfold fun_ranges, pid_wf, byte_ok, in_u, in_s. cbn. split; [split; [repeat constructor|]|]; lia.
  - unfold skips_free_vars. cbn. done.
  - vm_compute. reflexivity.
Defined.

(** [ei_cmp_pids] and [ei_cmp_ports] are total orders: their results negate
    when the arguments are swapped, they are 0 only for equal arguments, and
    they are transitive. *)
Theorem ei_cmp_total_order :
  TotalCmp ei_cmp_pids /\ TotalCmp ei_cmp_ports.
Proof.
  split.
  - assert (forall a b, pid_key a = pid_key b <-> a = b) as Hinj.
    { intros [] []. unfold pid_key. cbn. split; [by intros [= -> -> -> ->]|by intros [= -> -> -> ->]]. }
    split; intros *; rewrite !ei_cmp_pids_key; [apply cmp_sign|rewrite cmp_eq; apply Hinj|apply cmp_trans].
  - assert (forall a b, port_key a = port_key b <-> a = b) as Hinj.
    { intros [] []. unfold port_key. cbn. split; [by intros [= -> -> ->]|by intros [= -> -> ->]]. }
    split; intros *; rewrite !ei_cmp_ports_key; [apply cmp_sign|rewrite cmp_eq; apply Hinj|apply cmp_trans].
Qed.

(** [ei_cmp_refs] never reads outside of the integers of its arguments, and
    compares two references by node name, creation, and then as the numbers
    their 32-bit integers stand for, even when they have different lengths. *)
Theorem ei_cmp_refs_numeric a b :
  ref_wf a -> ref_wf b ->
  ei_cmp_refs a b = Some (
    let nodes := cmp_nodes (ref_node a) (ref_creation a) (ref_node b) (ref_creation b) in
    if negb (nodes =? 0) then nodes
    else Z.sgn (ids_val (take (Z.to_nat (ref_len a)) (ref_n a))
                - ids_val (take (Z.to_nat (ref_len b)) (ref_n b)))).
Proof.
  intros Ha Hb. rewrite ei_cmp_refs_key by done. unfold lexcmp at 1, ref_key. cbn [fst snd].
  rewrite <- cmp_nodes_key. destruct (negb _); [done|]. unfold zcmp. f_equal.
  destruct (Z.eqb_spec (ids_val (take (Z.to_nat (ref_len a)) (ref_n a))) (ids_val (take (Z.to_nat (ref_len b)) (ref_n b)))); [lia|].
  destruct (Z.ltb_spec (ids_val (take (Z.to_nat (ref_len a)) (ref_n a))) (ids_val (take (Z.to_nat (ref_len b)) (ref_n b)))); lia.
Qed.

Lemma ei_cmp_refs_numeric_witness :
  ei_cmp_refs {| ref_node := [97]; ref_len := 3; ref_n := [1; 2; 0; 0; 0]; ref_creation := 1 |}
              {| ref_node := [97]; ref_len := 2; ref_n := [1; 3; 0; 0; 0]; ref_creation := 1 |} = Some (-1).
Proof.
  refine (ei_cmp_refs_numeric
    {| ref_node := [97]; ref_len := 3; ref_n := [1; 2; 0; 0; 0]; ref_creation := 1 |}
    {| ref_node := [97]; ref_len := 2; ref_n := [1; 3; 0; 0; 0]; ref_creation := 1 |} _ _);
  unfold ref_wf, in_u; cbn; repeat split; try lia; repeat constructor; lia.
Defined.
