(* ===== verification/EiTerm.v ===== *)
(** * Whole terms: [get_type.c], [decode_skip.c], [ei_decode_term.c] and
    [decode_iodata.c]

    [ei_skip_term] is the function through which a C node walks over terms it
    does not know; its correctness is stated against an inductive type of terms
    and an encoder put together from the [ei_encode_*] functions. *)
From S2P Require Import Prelude PutGet EiTypes EiInt EiAtom EiData EiBinary EiBig EiNode.

(** ** [ei_get_type] *)

(** The type and length; [*index] stays. *)
Definition ei_get_type (m : mem) (index : Z) : dres (Z * Z) :=
  let? (ty, s) := get8 m index in
  if (ty =? ERL_SMALL_ATOM_EXT) || (ty =? ERL_SMALL_ATOM_UTF8_EXT) then
    let? (len, _s) := get8 m s in DOk (ERL_ATOM_EXT, len) index
  else if ty =? ERL_SMALL_TUPLE_EXT then
    let? (len, _s) := get8 m s in DOk (ty, len) index
  else if ty =? ERL_ATOM_UTF8_EXT then
    let? (len, _s) := get16be m s in DOk (ERL_ATOM_EXT, len) index
  else if (ty =? ERL_ATOM_EXT) || (ty =? ERL_STRING_EXT) then
    let? (len, _s) := get16be m s in DOk (ty, len) index
  else if (ty =? ERL_FLOAT_EXT) || (ty =? NEW_FLOAT_EXT) then DOk (ERL_FLOAT_EXT, 0) index
  else if (ty =? ERL_LARGE_TUPLE_EXT) || (ty =? ERL_LIST_EXT) || (ty =? ERL_MAP_EXT)
       || (ty =? ERL_BINARY_EXT) || (ty =? ERL_BIT_BINARY_EXT) then
    let? (len, _s) := get32be m s in DOk (ty, len) index
  else if ty =? ERL_SMALL_BIG_EXT then
    let? (len, _s) := get8 m s in DOk (ty, len) index
  else if ty =? ERL_LARGE_BIG_EXT then
    let? (len, _s) := get32be m s in DOk (ty, len) index
  else if ty =? ERL_NEW_PID_EXT then DOk (ERL_PID_EXT, 0) index
  else if (ty =? ERL_V4_PORT_EXT) || (ty =? ERL_NEW_PORT_EXT) then DOk (ERL_PORT_EXT, 0) index
  else if ty =? ERL_NEWER_REFERENCE_EXT then DOk (ERL_NEW_REFERENCE_EXT, 0) index
  else DOk (ty, 0) index.

(** ** [ei_skip_term] *)

(** A decoder called for its effect on [*index]; [return -1] when it fails. *)
Definition discard {A} (d : dres A) : dres unit :=
  match d with DOk _ i => DOk tt i | DErr j => DErr j | DOob => DOob | DFuel => DFuel end.

(** [for (i = 0; i < n; ++i) ei_skip_term(buf, index);], the results unused. *)
Fixpoint skip_terms (skip : mem -> Z -> dres unit) (n : nat) (m : mem) (i : Z) : dres unit :=
  match n with
  | O => DOk tt i
  | S n =>
      match skip m i with
      | DOk _ i => skip_terms skip n m i
      | DErr i => skip_terms skip n m i
      | DOob => DOob
      | DFuel => DFuel
      end
  end.

Section Skip.
Variable sscanf_lf : list Z -> option Z.

(** [fuel] bounds the depth of the recursion. *)
Fixpoint ei_skip_term (fuel : nat) (m : mem) (index : Z) : dres unit :=
  match fuel with
  | O => DFuel
  | S fuel =>
      call? (tn, _i) := ei_get_type m index fails j => DErr j in
      let ty := fst tn in
      if ty =? ERL_ATOM_EXT then
        discard (ei_decode_atom_as m index MAXATOMLEN_UTF8 (Z.lor ERLANG_LATIN1 ERLANG_UTF8))
      else if (ty =? ERL_PID_EXT) || (ty =? ERL_NEW_PID_EXT) then discard (ei_decode_pid false m index)
      else if (ty =? ERL_PORT_EXT) || (ty =? ERL_NEW_PORT_EXT) then discard (ei_decode_port false m index)
      else if (ty =? ERL_NEW_REFERENCE_EXT) || (ty =? ERL_NEWER_REFERENCE_EXT) || (ty =? ERL_REFERENCE_EXT) then
        discard (ei_decode_ref None m index)
      else if ty =? ERL_NIL_EXT then discard (ei_decode_list_header true m index)
      else if ty =? ERL_LIST_EXT then
        call? (n, i) := ei_decode_list_header true m index fails j => DErr j in
        call? (_u, i) := skip_terms (ei_skip_term fuel) (Z.to_nat n) m i fails j => DErr j in
        call? (tn, _i) := ei_get_type m i fails j => DErr j in
        if negb (fst tn =? ERL_NIL_EXT) then
          skip_terms (ei_skip_term fuel) 1 m i
        else discard (ei_decode_list_header true m i)
      else if ty =? ERL_STRING_EXT then discard (ei_decode_string false m index)
      else if (ty =? ERL_SMALL_TUPLE_EXT) || (ty =? ERL_LARGE_TUPLE_EXT) then
        call? (n, i) := ei_decode_tuple_header true m index fails j => DErr j in
        skip_terms (ei_skip_term fuel) (Z.to_nat n) m i
      else if ty =? ERL_MAP_EXT then
        call? (n, i) := ei_decode_map_header true m index fails j => DErr j in
        skip_terms (ei_skip_term fuel) (Z.to_nat (wraps 32 (n * 2))) m i
      else if ty =? ERL_BINARY_EXT then discard (ei_decode_binary false m index)
      else if ty =? ERL_BIT_BINARY_EXT then discard (ei_decode_bitstring m index)
      else if (ty =? ERL_SMALL_INTEGER_EXT) || (ty =? ERL_INTEGER_EXT) then discard (ei_decode_long m index)
      else if (ty =? ERL_SMALL_BIG_EXT) || (ty =? ERL_LARGE_BIG_EXT) then discard (ei_decode_big None m index)
      else if (ty =? ERL_FLOAT_EXT) || (ty =? NEW_FLOAT_EXT) then discard (ei_decode_double sscanf_lf m index)
      else if (ty =? ERL_FUN_EXT) || (ty =? ERL_NEW_FUN_EXT) || (ty =? ERL_EXPORT_EXT) then
        discard (ei_decode_fun (ei_skip_term fuel) None true m index)
      else DErr index
  end.
End Skip.

(** ** Terms *)

(** The terms a C program can put together with the [ei_encode_*] functions.
    [TMap] lists keys and values in turn; [TList] is a list with at least one
    element and its tail; [TFun] comes with the terms that the free variables of a
    closure in the old format (arity -1, which is written without its size) are. *)
Inductive term :=
  | TInt (n : Z)
  | TBig (b : erlang_big)
  | TFloat (bits : Z)
  | TAtom (name : list Z)
  | TString (chars : list Z)
  | TBinary (data : list Z)
  | TBitstring (data : list Z) (bitoffs bits : Z)
  | TPid (p : erlang_pid)
  | TPort (p : erlang_port)
  | TRef (p : erlang_ref)
  | TFun (p : erlang_fun) (vars : list term)
  | TNil
  | TTuple (l : list term)
  | TMap (l : list term)
  | TList (l : list term) (tail : term).

Section TermInd.
Variable P : term -> Prop.
Hypothesis PInt : forall n, P (TInt n).
Hypothesis PBig : forall b, P (TBig b).
Hypothesis PFloat : forall f, P (TFloat f).
Hypothesis PAtom : forall a, P (TAtom a).
Hypothesis PString : forall s, P (TString s).
Hypothesis PBinary : forall d, P (TBinary d).
Hypothesis PBitstring : forall d o n, P (TBitstring d o n).
Hypothesis PPid : forall p, P (TPid p).
Hypothesis PPort : forall p, P (TPort p).
Hypothesis PRef : forall p, P (TRef p).
Hypothesis PFun : forall p l, Forall P l -> P (TFun p l).
Hypothesis PNil : P TNil.
Hypothesis PTuple : forall l, Forall P l -> P (TTuple l).
Hypothesis PMap : forall l, Forall P l -> P (TMap l).
Hypothesis PList : forall l t, Forall P l -> P t -> P (TList l t).

Fixpoint term_rect' (t : term) : P t :=
  let all := fix all l : Forall P l :=
    match l with [] => Forall_nil_2 P | t :: l => Forall_cons_2 P t l (term_rect' t) (all l) end in
  match t with
  | TInt n => PInt n | TBig b => PBig b | TFloat f => PFloat f | TAtom a => PAtom a
  | TString s => PString s | TBinary d => PBinary d | TBitstring d o n => PBitstring d o n
  | TPid p => PPid p | TPort p => PPort p | TRef p => PRef p | TFun p l => PFun p l (all l) | TNil => PNil
  | TTuple l => PTuple l (all l) | TMap l => PMap l (all l)
  | TList l t => PList l t (all l) (term_rect' t)
  end.
End TermInd.

(** A program that encodes a term: the header, then the elements in order. *)
Fixpoint encode_term (t : term) (buf : option mem) (index : Z) : eres :=
  let elements := fix elements (l : list term) (buf : option mem) (index : Z) : eres :=
    match l with
    | [] => EOk buf index
    | t :: l => call! (buf, index) := encode_term t buf index fails j => EErr j in elements l buf index
    end in
  match t with
  | TInt n => ei_encode_longlong buf index n
  | TBig b => ei_encode_big buf index b
  | TFloat f => ei_encode_double buf index f
  | TAtom a => ei_encode_atom_as buf index a ERLANG_UTF8 ERLANG_UTF8
  | TString s => ei_encode_string_len buf index s (zlen s)
  | TBinary d => ei_encode_binary buf index d (zlen d)
  | TBitstring d o n => ei_encode_bitstring buf index d o n
  | TPid p => ei_encode_pid buf index p
  | TPort p => ei_encode_port buf index p
  | TRef p => ei_encode_ref buf index p
  | TFun p _ => ei_encode_fun buf index p
  | TNil => ei_encode_empty_list buf index
  | TTuple l =>
      call! (buf, index) := ei_encode_tuple_header buf index (zlen l) fails j => EErr j in
      elements l buf index
  | TMap l =>
      call! (buf, index) := ei_encode_map_header buf index (zlen l / 2) fails j => EErr j in
      elements l buf index
  | TList l t =>
      call! (buf, index) := ei_encode_list_header buf index (zlen l) fails j => EErr j in
      call! (buf, index) := elements l buf index fails j => EErr j in
      encode_term t buf index
  end.

Fixpoint encode_terms (l : list term) (buf : option mem) (index : Z) : eres :=
  match l with
  | [] => EOk buf index
  | t :: l => call! (buf, index) := encode_term t buf index fails j => EErr j in encode_terms l buf index
  end.

(** The external format of a term, if its parts are accepted. *)
Fixpoint term_bytes (t : term) : option (list Z) :=
  let elements := fix elements (l : list term) : option (list Z) :=
    match l with [] => Some [] | t :: l => app_bytes (term_bytes t) (elements l) end in
  match t with
  | TInt n => Some (longlong_bytes n)
  | TBig b => Some (big_ext b)
  | TFloat f => if isfinite f then Some (NEW_FLOAT_EXT :: be_bytes 8 f) else None
  | TAtom a => atom_bytes a ERLANG_UTF8
  | TString s => Some (string_bytes s)
  | TBinary d => Some (ERL_BINARY_EXT :: be_bytes 4 (zlen d) ++ d)
  | TBitstring d o n => app_bytes (Some (bitstring_header n)) (copy_bits d o n)
  | TPid p => pid_bytes p
  | TPort p => port_bytes p
  | TRef p => ref_bytes p
  | TFun p _ => fun_bytes p
  | TNil => Some [ERL_NIL_EXT]
  | TTuple l => app_bytes (tuple_header_bytes (zlen l)) (elements l)
  | TMap l => app_bytes (map_header_bytes (zlen l / 2)) (elements l)
  | TList l t => app_bytes (list_header_bytes (zlen l)) (app_bytes (elements l) (term_bytes t))
  end.

Fixpoint terms_bytes (l : list term) : option (list Z) :=
  match l with [] => Some [] | t :: l => app_bytes (term_bytes t) (terms_bytes l) end.

(** The depth of a term as it is written: a string of more than 65535 characters
    is written as a list of them. *)
Fixpoint term_depth (t : term) : nat :=
  match t with
  | TString s => if zlen s <=? 0xffff then O else 1%nat
  | TFun _ [] => O
  | TFun _ l => S (list_max (map term_depth l))
  | TTuple l | TMap l => S (list_max (map term_depth l))
  | TList l t => S (Nat.max (list_max (map term_depth l)) (term_depth t))
  | _ => O
  end.

(** The values are ones the structs and fields can hold, lengths are [int]s, the
    bits of a bit string are inside of its bytes, and the bytes of the free
    variables of a closure in the old format are those of as many terms. *)
Fixpoint term_ok (t : term) : Prop :=
  let all := fix all l : Prop := match l with [] => True | t :: l => term_ok t /\ all l end in
  match t with
  | TInt n => in_s 64 n
  | TBig b => big_wf b
  | TFloat f => in_u 64 f
  | TAtom a => bytes_ok a
  | TString s => bytes_ok s /\ zlen s < 2 ^ 31
  | TBinary d => zlen d < 2 ^ 31
  | TBitstring d o n => bytes_ok d /\ 0 <= o /\ 0 <= n < 2 ^ 34 - 8 /\ exists out, copy_bits d o n = Some out
  | TPid p => pid_wf p
  | TPort p => port_wf p
  | TRef p => ref_wf p
  | TFun p l => fun_wf p /\ fun_ranges p /\
      match fun_body p with
      | EI_FUN_CLOSURE _ _ _ _ n _ _ fv => fun_arity p = -1 -> n = zlen l /\ all l /\ terms_bytes l = Some fv
      | EI_FUN_EXPORT _ _ => True
      end /\
      forall bs, fun_bytes p = Some bs -> zlen bs < 2 ^ 31
  | TNil => True
  | TTuple l => zlen l < 2 ^ 31 /\ all l
  | TMap l => zlen l < 2 ^ 31 /\ zlen l mod 2 = 0 /\ all l
  | TList l t => 0 < zlen l < 2 ^ 31 /\ all l /\ term_ok t
  end.

(** ** Skipping the leaves *)

Section SkipLeaves.
Variable scan : list Z -> option Z.
Variable fuel : nat.















End SkipLeaves.

(** ** Skipping whole terms *)

Definition terms_ok (l : list term) : Prop := Forall term_ok l.

(** The nested loops are the ones over lists. *)
Lemma elements_bytes l :
  (fix elements (l : list term) : option (list Z) :=
    match l with [] => Some [] | t :: l => app_bytes (term_bytes t) (elements l) end) l = terms_bytes l.
Proof. induction l as [|t l IH]; [done|]. cbn [terms_bytes]. by rewrite <- IH. Qed.

Lemma elements_encode l b i :
  (fix elements (l : list term) (buf : option mem) (index : Z) : eres :=
    match l with
    | [] => EOk buf index
    | t :: l => call! (buf, index) := encode_term t buf index fails j => EErr j in elements l buf index
    end) l b i = encode_terms l b i.
Proof. revert b i. induction l as [|t l IH]; intros b i; [done|]. cbn [encode_terms]. destruct (encode_term t b i); [apply IH|done|done]. Qed.

Lemma elements_ok l :
  (fix all l : Prop := match l with [] => True | t :: l => term_ok t /\ all l end) l <-> terms_ok l.
Proof.
  induction l as [|t l IH]; [split; [constructor|done]|]. unfold terms_ok in *. by rewrite Forall_cons_iff, IH.
Qed.



Lemma zlen_map {A B} (f : A -> B) l : zlen (map f l) = zlen l.
Proof. unfold zlen. by rewrite length_map. Qed.

(** A long string is written as the list of its characters. *)
Lemma chars_terms p : bytes_ok p -> terms_bytes (map TInt p) = Some (chars_bytes p).
Proof.
  induction 1 as [|c p Hc _ IH]; [done|]. cbn [map terms_bytes term_bytes]. rewrite IH.
  change (chars_bytes (c :: p)) with ([ERL_SMALL_INTEGER_EXT; Z.land c 255] ++ chars_bytes p).
  unfold byte_ok in Hc. unfold longlong_bytes. by replace ((c <? 256) && (0 <=? c)) with true by lia.
Qed.

Lemma long_string_list p :
  bytes_ok p -> 0xffff < zlen p -> term_bytes (TList (map TInt p) TNil) = Some (string_bytes p).
Proof.
  intros Hp Hl. cbn [term_bytes]. rewrite elements_bytes, chars_terms by done. unfold list_header_bytes, string_bytes.
  rewrite zlen_map. replace (zlen p <? 0) with false by lia. replace (0 <? zlen p) with true by lia.
  replace (zlen p =? 0) with false by lia. by replace (zlen p <=? 0xffff) with false by lia.
Qed.

Lemma zlen_to_nat {A} (l : list A) : Z.to_nat (zlen l) = length l.
Proof. unfold zlen. apply Nat2Z.id. Qed.

Section SkipTerm.
Variable scan : list Z -> option Z.

Lemma header_type ty tag arity bs :
  (tag = ERL_LARGE_TUPLE_EXT \/ tag = ERL_LIST_EXT \/ tag = ERL_MAP_EXT) -> ty = tag ->
  forall m s, holds m s ((tag :: be_bytes 4 arity) ++ bs) -> exists len, ei_get_type m s = DOk (ty, len) s.
Proof.
  intros Ht -> m s Hh. cbn [app] in Hh. unfold ei_get_type.
  destruct Ht as [-> |[-> | ->]]; read_tag Hh; apply get32be_holds in Hh as [-> _]; eauto.
Qed.




End SkipTerm.

Lemma list_max_in l n : In n l -> (n <= list_max l)%nat.
Proof. intros H. pose proof (proj1 (list_max_le l (list_max l)) (Nat.le_refl _)) as F. rewrite List.Forall_forall in F. auto. Qed.



(** ** Encoding whole terms *)

(** A sequence of encoders that may be empty: it emits its bytes where they can
    be written. *)
Definition emits_at (F : option mem -> Z -> eres) (o : option (list Z)) : Prop :=
  (forall i, match o with Some bs => F None i = EOk None (i + zlen bs) | None => exists j, F None i = EErr j end) /\
  (forall m i, 0 <= i <= zlen m ->
     match o with Some bs => F (Some m) i = emit m i bs
                | None => F (Some m) i = EOob \/ exists j, F (Some m) i = EErr j end).

Lemma encode_terms_emits l :
  Forall (fun t => term_ok t -> Emits (encode_term t) (term_bytes t)) l -> terms_ok l ->
  emits_at (encode_terms l) (terms_bytes l).
Proof.
  intros H. induction H as [|t l Ht Hl IH]; intros Hok.
  - split; [intros i; cbn; f_equal; zlen_lia|]. intros m i Hi. cbn [terms_bytes encode_terms].
    unfold emit, put_bytes. rewrite store_nil by done. f_equal. zlen_lia.
  - unfold terms_ok in Hok. apply Forall_cons_iff in Hok as [Hok1 Hok2]. specialize (IH Hok2) as [I1 I2].
    destruct (Ht Hok1) as [T1 T2]. split.
    + intros i. cbn [terms_bytes encode_terms]. specialize (T1 i). destruct (term_bytes t) as [a|]; cbn [app_bytes].
      * rewrite T1. specialize (I1 (i + zlen a)). destruct (terms_bytes l) as [b|]; [|exact I1].
        rewrite I1. f_equal. zlen_lia.
      * destruct T1 as [j ->]. eauto.
    + intros m i Hi. cbn [terms_bytes encode_terms]. specialize (T2 m i). destruct (term_bytes t) as [a|]; cbn [app_bytes].
      * rewrite T2, emit_call. destruct (terms_bytes l) as [b|].
        -- rewrite <- emit_fold, <- put_bytes_seq. destruct (put_bytes m i a) as [[m1 s1]|] eqn:E; [|done].
           apply put_bytes_some in E as (? & ? & ? & ?). apply I2. zlen_lia.
        -- destruct (put_bytes m i a) as [[m1 s1]|] eqn:E; [|by left].
           apply put_bytes_some in E as (? & ? & ? & ?). apply I2. zlen_lia.
      * destruct T2 as [->|[j ->]]; eauto.
Qed.

(** A header and then such a sequence. *)
Lemma emits_header F o1 K o2 :
  Emits F o1 -> emits_at K o2 ->
  Emits (fun b i => call! (b, j) := F b i fails j => EErr j in K b j) (app_bytes o1 o2).
Proof.
  intros [F1 F2] [K1 K2]. split.
  - intros i. specialize (F1 i). destruct o1 as [a|]; cbn [app_bytes].
    + rewrite F1. specialize (K1 (i + zlen a)). destruct o2 as [c|]; [|exact K1]. rewrite K1. f_equal. zlen_lia.
    + destruct F1 as [j ->]. eauto.
  - intros m i. specialize (F2 m i). destruct o1 as [a|]; cbn [app_bytes].
    + rewrite F2, emit_call. destruct o2 as [c|].
      * rewrite <- emit_fold, <- put_bytes_seq. destruct (put_bytes m i a) as [[m1 s1]|] eqn:E; [|done].
        apply put_bytes_some in E as (? & ? & ? & ?). apply K2. zlen_lia.
      * destruct (put_bytes m i a) as [[m1 s1]|] eqn:E; [|by left].
        apply put_bytes_some in E as (? & ? & ? & ?). apply K2. zlen_lia.
    + destruct F2 as [->|[j ->]]; eauto.
Qed.

Lemma emits_at_seq F o1 K o2 :
  emits_at F o1 -> Emits K o2 ->
  emits_at (fun b i => call! (b, j) := F b i fails j => EErr j in K b j) (app_bytes o1 o2).
Proof.
  intros [F1 F2] [K1 K2]. split.
  - intros i. specialize (F1 i). destruct o1 as [a|]; cbn [app_bytes].
    + rewrite F1. specialize (K1 (i + zlen a)). destruct o2 as [c|]; [|exact K1]. rewrite K1. f_equal. zlen_lia.
    + destruct F1 as [j ->]. eauto.
  - intros m i Hi. specialize (F2 m i Hi). destruct o1 as [a|]; cbn [app_bytes].
    + rewrite F2, emit_call. destruct o2 as [c|].
      * rewrite <- emit_fold, <- put_bytes_seq. destruct (put_bytes m i a) as [[m1 s1]|] eqn:E; [|done]. apply K2.
      * destruct (put_bytes m i a) as [[m1 s1]|] eqn:E; [|by left]. apply K2.
    + destruct F2 as [->|[j ->]]; eauto.
Qed.

Lemma encode_term_emits t : term_ok t -> Emits (encode_term t) (term_bytes t).
Proof.
  induction t using term_rect'; intros Hok; cbn [term_ok term_bytes] in *; rewrite ?elements_bytes.
  - apply ei_encode_longlong_emits.
  - by apply ei_encode_big_emits.
  - apply ei_encode_double_emits.
  - by apply (ei_encode_atom_as_emits a ERLANG_UTF8 ERLANG_UTF8).
  - pose proof (ei_encode_string_len_emits s (zlen s)) as He.
    rewrite zlen_to_nat, firstn_all in He. apply He. zlen_lia.
  - apply ei_encode_binary_emits.
  - destruct Hok as (Hd & Ho & Hn & out & E). rewrite E. apply ei_encode_bitstring_emits; [done|].
    apply copy_bits_copied in E as [Hz _]; (done || lia).
  - apply ei_encode_pid_emits, Hok.
  - apply ei_encode_port_emits, Hok.
  - destruct Hok as (Hn & _ & Hl & Hz & _). apply ei_encode_ref_emits; [done|lia].
  - apply ei_encode_fun_emits, Hok.
  - apply ei_encode_empty_list_emits.
  - destruct Hok as [Hl Hall]. rewrite elements_ok in Hall.
    apply (emits_ext _ _ _ (emits_header _ _ _ _ (ei_encode_tuple_header_emits (zlen l))
      (encode_terms_emits l H Hall))). intros b i. cbn [encode_term].
    destruct (ei_encode_tuple_header b i (zlen l)); [apply elements_encode|done|done].
  - destruct Hok as (Hl & H2 & Hall). rewrite elements_ok in Hall.
    apply (emits_ext _ _ _ (emits_header _ _ _ _ (ei_encode_map_header_emits (zlen l / 2))
      (encode_terms_emits l H Hall))). intros b i. cbn [encode_term].
    destruct (ei_encode_map_header b i (zlen l / 2)); [apply elements_encode|done|done].
  - destruct Hok as (Hl & Hall & Ht). rewrite elements_ok in Hall.
    apply (emits_ext _ _ _ (emits_header _ _ _ _ (ei_encode_list_header_emits (zlen l))
      (emits_at_seq _ _ _ _ (encode_terms_emits l H Hall) (IHt Ht)))). intros b i. cbn [encode_term].
    destruct (ei_encode_list_header b i (zlen l)) as [b1 i1| |]; [|done|done]. by rewrite elements_encode.
Qed.

(** ** [ei_decode_iodata] *)

(** [decode_string]: the bytes copied to [*pp] (none with NULL) and the amount
    added to [*szp]. *)
Definition decode_string (pp : bool) (m : mem) (index : Z) : dres (list Z * Z) :=
  let s := index + 1 in
  let? (len, s) := get16be m s in
  if pp then slice? d := slice m s len in DOk (d, len) (s + len)
  else DOk ([], len) (s + len).

(** The element at [index]; [last] says that [i == conses], the cdr of the last
    cons.  [rec] is [decode_list_ext_iodata]. *)
Definition iodata_element (rec : mem -> Z -> dres (list Z * Z)) (pp last : bool) (m : mem) (index : Z)
  : dres (list Z * Z) :=
  call? (tn, _i) := ei_get_type m index fails j => DErr j in
  let '(type, len) := tn in
  if (type =? ERL_SMALL_INTEGER_EXT) || (type =? ERL_INTEGER_EXT) then
    if last then DErr index else
    call? (val, i) := ei_decode_long m index fails j => DErr j in
    if (val <? 0) || (255 <? val) then DErr i
    else DOk (if pp then [val] else [], 1) i
  else if type =? ERL_BINARY_EXT then
    call? (dl, i) := ei_decode_binary pp m index fails j => DErr j in
    if negb (snd dl =? len) then DErr i else DOk (fst dl, len) i
  else if type =? ERL_STRING_EXT then decode_string pp m index
  else if type =? ERL_LIST_EXT then rec m index
  else if type =? ERL_NIL_EXT then
    call? (_n, i) := ei_decode_list_header false m index fails j => DErr j in DOk ([], 0) i
  else DErr index.

(** The loop, with [n] elements left. *)
Fixpoint iodata_loop (rec : mem -> Z -> dres (list Z * Z)) (pp : bool) (n : nat) (m : mem) (i : Z)
  : dres (list Z * Z) :=
  match n with
  | O => DOk ([], 0) i
  | S k =>
      call? (r1, i) := iodata_element rec pp (match k with O => true | S _ => false end) m i fails j => DErr j in
      call? (r2, i) := iodata_loop rec pp k m i fails j => DErr j in
      DOk (fst r1 ++ fst r2, snd r1 + snd r2) i
  end.

(** [fuel] bounds the depth of the recursion. *)
Fixpoint decode_list_ext_iodata (fuel : nat) (pp : bool) (m : mem) (index : Z) : dres (list Z * Z) :=
  match fuel with
  | O => DFuel
  | S fuel =>
      call? (conses, i) := ei_decode_list_header true m index fails j => DErr j in
      iodata_loop (decode_list_ext_iodata fuel pp) pp (Z.to_nat (conses + 1)) m i
  end.

(** [pp]: [out_buf] is not NULL.  The result is the bytes written to [out_buf]
    and [*szp]. *)
Definition ei_decode_iodata (fuel : nat) (pp : bool) (m : mem) (index : Z) : dres (list Z * Z) :=
  call? (tn, _i) := ei_get_type m index fails j => DErr j in
  let '(type, len) := tn in
  if type =? ERL_BINARY_EXT then
    call? (dl, i) := ei_decode_binary pp m index fails j => DErr j in
    if negb (snd dl =? len) then DErr i else DOk (fst dl, len) i
  else if type =? ERL_STRING_EXT then decode_string pp m index
  else if type =? ERL_NIL_EXT then
    call? (_n, i) := ei_decode_list_header false m index fails j => DErr j in DOk ([], 0) i
  else if type =? ERL_LIST_EXT then decode_list_ext_iodata fuel pp m index
  else DErr index.

(** The bytes an iolist stands for; [elem] says that an integer is allowed. *)
Fixpoint io_flatten (elem : bool) (t : term) : option (list Z) :=
  let elements := fix elements (l : list term) : option (list Z) :=
    match l with [] => Some [] | t :: l => app_bytes (io_flatten true t) (elements l) end in
  match t with
  | TInt n => if elem && (0 <=? n) && (n <=? 255) then Some [n] else None
  | TBinary d => Some d
  | TString s => Some s
  | TNil => Some []
  | TList l t => app_bytes (elements l) (io_flatten false t)
  | _ => None
  end.

Fixpoint io_flatten_list (l : list term) : option (list Z) :=
  match l with [] => Some [] | t :: l => app_bytes (io_flatten true t) (io_flatten_list l) end.

Lemma elements_flatten l :
  (fix elements (l : list term) : option (list Z) :=
    match l with [] => Some [] | t :: l => app_bytes (io_flatten true t) (elements l) end) l = io_flatten_list l.
Proof. induction l as [|t l IH]; [done|]. cbn [io_flatten_list]. by rewrite <- IH. Qed.

(** What the decoder hands out for the bytes [out]. *)
Definition io_result (pp : bool) (out : list Z) : list Z * Z := (if pp then out else [], zlen out).

Lemma io_result_app pp a b :
  (fst (io_result pp a) ++ fst (io_result pp b), snd (io_result pp a) + snd (io_result pp b))
  = io_result pp (a ++ b).
Proof. unfold io_result. cbn [fst snd]. rewrite zlen_app. by destruct pp. Qed.

Section Iodata.
Variables (rec : mem -> Z -> dres (list Z * Z)) (pp : bool).

Lemma io_int n last :
  0 <= n <= 255 -> last = false ->
  Decodes (iodata_element rec pp last) (longlong_bytes n) (io_result pp [n]).
Proof.
  intros Hn -> m s Hh. pose proof (ei_decode_long_decodes n ltac:(unfold in_s; lia) m s Hh) as Hd.
  unfold longlong_bytes in *. replace ((n <? 256) && (0 <=? n)) with true in * by lia.
  unfold iodata_element, ei_get_type. read_tag Hh. rewrite Hd.
  by replace ((n <? 0) || (255 <? n)) with false by lia.
Qed.

Lemma io_binary_type d : zlen d < 2 ^ 31 -> forall m s, holds m s (ERL_BINARY_EXT :: be_bytes 4 (zlen d) ++ d) ->
  ei_get_type m s = DOk (ERL_BINARY_EXT, zlen d) s.
Proof.
  intros Hl m s Hh. unfold ei_get_type. read_tag Hh. apply get32be_holds in Hh as [-> _].
  by rewrite wraps_small by (unfold in_s; zlen_lia).
Qed.

Lemma io_binary d last :
  zlen d < 2 ^ 31 ->
  Decodes (iodata_element rec pp last) (ERL_BINARY_EXT :: be_bytes 4 (zlen d) ++ d) (io_result pp d).
Proof.
  intros Hl m s Hh. unfold iodata_element. rewrite (io_binary_type d Hl m s Hh). closed_tests.
  rewrite (ei_decode_binary_decodes pp d Hl m s Hh). cbn [fst snd]. by rewrite Z.eqb_refl.
Qed.

Lemma io_nil last : Decodes (iodata_element rec pp last) [ERL_NIL_EXT] (io_result pp []).
Proof.
  intros m s Hh. pose proof (ei_decode_list_header_decodes false 0 _ ltac:(lia) eq_refl m s Hh) as Hd.
  unfold iodata_element, ei_get_type. read_tag Hh. rewrite Hd. unfold io_result. by destruct pp.
Qed.

Lemma decode_string_holds p m s :
  0 < zlen p <= 0xffff -> holds m s (string_bytes p) ->
  ei_get_type m s = DOk (ERL_STRING_EXT, zlen p) s /\
  decode_string pp m s = DOk (io_result pp p) (s + zlen (string_bytes p)).
Proof.
  intros Hl. unfold string_bytes. destruct (Z.eqb_spec (zlen p) 0); [lia|].
  destruct (Z.leb_spec (zlen p) 0xffff); [|lia]. intros Hh.
  unfold ei_get_type, decode_string, io_result. read_tag Hh.
  apply get16be_holds in Hh as [-> Hh]; [|unfold in_u; lia]. split; [done|].
  destruct pp; [rewrite (holds_slice _ _ _ _ Hh eq_refl)|]; f_equal; zlen_lia.
Qed.

Lemma io_string p last :
  zlen p <= 0xffff -> Decodes (iodata_element rec pp last) (string_bytes p) (io_result pp p).
Proof.
  intros Hl. destruct (Z.eqb_spec (zlen p) 0) as [E|E].
  - destruct p; [exact (io_nil last)|]. rewrite zlen_cons in E. zlen_lia.
  - intros m s Hh. destruct (decode_string_holds p m s ltac:(zlen_lia) Hh) as [E1 E2].
    unfold iodata_element. rewrite E1. closed_tests. exact E2.
Qed.

Lemma list_type arity a rest m s :
  0 < arity -> list_header_bytes arity = Some a -> holds m s (a ++ rest) ->
  exists len, ei_get_type m s = DOk (ERL_LIST_EXT, len) s.
Proof.
  intros Hl Ha Hh. unfold list_header_bytes in Ha. destruct (Z.ltb_spec arity 0); [done|].
  destruct (Z.ltb_spec 0 arity); [|lia]. apply (inj Some) in Ha as <-.
  exact (header_type ERL_LIST_EXT ERL_LIST_EXT arity rest ltac:(auto) eq_refl m s Hh).
Qed.

(** The loop, given what it does with each element and with the tail. *)
Lemma io_loop l tail bs out :
  Forall (fun t => forall tb o, term_bytes t = Some tb -> io_flatten true t = Some o ->
            Decodes (iodata_element rec pp false) tb (io_result pp o)) l ->
  (forall tb o, term_bytes tail = Some tb -> io_flatten false tail = Some o ->
     Decodes (iodata_element rec pp true) tb (io_result pp o)) ->
  app_bytes (terms_bytes l) (term_bytes tail) = Some bs ->
  app_bytes (io_flatten_list l) (io_flatten false tail) = Some out ->
  Decodes (iodata_loop rec pp (S (length l))) bs (io_result pp out).
Proof.
  intros H Ht (a & b & Ha & Hb & ->)%app_bytes_some (oa & ob & Hoa & Hob & ->)%app_bytes_some.
  revert a oa Ha Hoa. induction H as [|t l Hel Hl IH]; intros a oa Ha Hoa m s Hh.
  - apply (inj Some) in Ha as <-, Hoa as <-. cbn [app length iodata_loop] in *.
    rewrite (Ht b ob Hb Hob m s Hh). unfold io_result. cbn [fst snd]. rewrite Z.add_0_r.
    destruct pp; by rewrite ?app_nil_r.
  - apply app_bytes_some in Ha as (a1 & a2 & Ha1 & Ha2 & ->), Hoa as (o1 & o2 & Ho1 & Ho2 & ->).
    rewrite <- app_assoc in Hh. apply holds_app in Hh as [H1 H2].
    change (length (t :: l)) with (S (length l)). set (k := S (length l)) in *. cbn [iodata_loop].
    subst k. cbv iota. rewrite (Hel a1 o1 Ha1 Ho1 m s H1), (IH a2 o2 Ha2 Ho2 m _ H2), io_result_app, app_assoc.
    f_equal. zlen_lia.
Qed.
End Iodata.

Lemma app_bytes_assoc o1 o2 o3 : app_bytes o1 (app_bytes o2 o3) = app_bytes (app_bytes o1 o2) o3.
Proof. destruct o1, o2, o3; cbn; try done. by rewrite app_assoc. Qed.

Definition io_ok (pp : bool) (t : term) : Prop :=
  forall fuel last bs out, (term_depth t <= fuel)%nat -> term_bytes t = Some bs ->
    io_flatten (negb last) t = Some out ->
    Decodes (iodata_element (decode_list_ext_iodata fuel pp) pp last) bs (io_result pp out).

Lemma io_list pp fuel l t bs out :
  0 < zlen l < 2 ^ 31 -> Forall (io_ok pp) l -> io_ok pp t ->
  (list_max (map term_depth l) <= fuel)%nat -> (term_depth t <= fuel)%nat ->
  app_bytes (list_header_bytes (zlen l)) (app_bytes (terms_bytes l) (term_bytes t)) = Some bs ->
  app_bytes (io_flatten_list l) (io_flatten false t) = Some out ->
  Decodes (decode_list_ext_iodata (S fuel) pp) bs (io_result pp out).
Proof.
  intros Hl Hall Ht Hd1 Hd2 (a & r & Ha & Hr & ->)%app_bytes_some Hout m s Hh.
  pose proof (ei_decode_list_header_decodes true (zlen l) a ltac:(lia) Ha) as Hd.
  apply holds_app in Hh as [H1 H2]. cbn [decode_list_ext_iodata]. rewrite (Hd _ _ H1).
  replace (Z.to_nat (zlen l + 1)) with (S (length l)) by (unfold zlen; lia).
  rewrite (io_loop (decode_list_ext_iodata fuel pp) pp l t r out); [f_equal; zlen_lia| | |done|done|done].
  - rewrite List.Forall_forall in *. intros x Hx tb o Htb Ho. apply (Hall x Hx fuel false); [|done|done].
    etransitivity; [|exact Hd1]. apply list_max_in, in_map, Hx.
  - intros tb o Htb Ho. by apply (Ht fuel true).
Qed.

(** A long string, read as the list it is written as. *)
Lemma io_long_string pp fuel last s :
  bytes_ok s -> 0xffff < zlen s < 2 ^ 31 ->
  Decodes (iodata_element (decode_list_ext_iodata (S fuel) pp) pp last) (string_bytes s) (io_result pp s).
Proof.
  intros Hs Hl m i Hh. assert (Forall (fun c => 0 <= c <= 255) s) as Hs' by (eapply Forall_impl; [|exact Hs]; unfold byte_ok; lia).
  pose proof (long_string_list s Hs ltac:(lia)) as E. cbn [term_bytes] in E. rewrite elements_bytes in E.
  pose proof E as E'. apply app_bytes_some in E' as (a & r & Ha & _ & E').
  assert (0 < zlen (map TInt s)) as Hz by (rewrite zlen_map; lia). pose proof Hh as Hh'. rewrite E' in Hh'.
  destruct (list_type _ a r m i Hz Ha Hh') as [len Et]. unfold iodata_element. rewrite Et. closed_tests.
  apply (io_list pp fuel (map TInt s) TNil); [rewrite zlen_map; lia| | | |cbn; lia|done| |done].
  - apply Forall_map, Forall_forall. intros c Hc%(proj1 (Forall_forall _ _) Hs') f l bs o _ [= <-] Ho. cbn [io_flatten] in Ho.
    destruct l; [done|]. cbn [negb andb] in Ho. replace ((0 <=? c) && (c <=? 255)) with true in Ho by lia.
    injection Ho as <-. by apply io_int.
  - intros f l bs o _ [= <-] [= <-]. apply io_nil.
  - clear. induction s as [|c s IH]; [cbn; lia|]. cbn [map term_depth list_max fold_right] in *. exact IH.
  - clear -Hs'. assert (io_flatten_list (map TInt s) = Some s) as ->; [|cbn; by rewrite app_nil_r].
    induction Hs' as [|c s Hc _ IH]; [done|]. cbn [map io_flatten_list io_flatten]. rewrite IH.
    by replace (true && (0 <=? c) && (c <=? 255)) with true by lia.
Qed.

Lemma iodata_element_ok pp t : term_ok t -> io_ok pp t.
Proof.
  induction t using term_rect'; intros Hok fuel last bs out Hf Hb Ho; try done;
    cbn [term_ok term_depth term_bytes io_flatten] in *; rewrite ?elements_bytes, ?elements_flatten in *.
  - apply (inj Some) in Hb as <-. destruct last; [done|]. cbn [negb andb] in Ho.
    destruct (Z.leb_spec 0 n), (Z.leb_spec n 255); try done. apply (inj Some) in Ho as <-. by apply io_int.
  - apply (inj Some) in Hb as <-, Ho as <-. destruct Hok as [Hs Hl].
    destruct (Z.leb_spec (zlen s) 0xffff); [by apply io_string|]. destruct fuel as [|fuel]; [lia|].
    by apply io_long_string.
  - apply (inj Some) in Hb as <-, Ho as <-. by apply io_binary.
  - apply (inj Some) in Hb as <-, Ho as <-. apply io_nil.
  - destruct Hok as (Hl & Hall & Ht). rewrite elements_ok in Hall. destruct fuel as [|fuel]; [lia|].
    intros m s Hh. pose proof Hb as Hb'. apply app_bytes_some in Hb as (a & r & Ha & Hr & ->).
    destruct (list_type (zlen l) a r m s ltac:(lia) Ha Hh) as [len E]. unfold iodata_element. rewrite E.
    closed_tests. apply (io_list pp fuel l t (a ++ r) out); try done; try lia.
    + unfold terms_ok in Hall. rewrite List.Forall_forall in *. intros x Hx. apply (H x Hx). by apply Hall.
    + by apply IHt.
Qed.

Lemma ei_decode_iodata_decodes pp t fuel bs out :
  term_ok t -> (term_depth t <= fuel)%nat -> term_bytes t = Some bs -> io_flatten false t = Some out ->
  Decodes (ei_decode_iodata fuel pp) bs (io_result pp out).
Proof.
  intros Hok Hd Hb Ho m s Hh.
  pose proof (iodata_element_ok pp t Hok fuel true bs out Hd Hb Ho m s Hh) as E. rewrite <- E.
  unfold ei_decode_iodata, iodata_element. destruct (ei_get_type m s) as [[ty len] i| | |] eqn:Et; try done.
  unfold iodata_element in E. rewrite Et in E.
  destruct (_ || _); [done|]. destruct (ty =? ERL_BINARY_EXT); [done|]. destruct (ty =? ERL_STRING_EXT); [done|].
  destruct (Z.eqb_spec ty ERL_LIST_EXT) as [->|]; [by closed_tests|]. by destruct (ty =? ERL_NIL_EXT).
Qed.

(** *** The two passes: first the size, then the bytes *)

Lemma ei_decode_binary_size m i d len j :
  ei_decode_binary true m i = DOk (d, len) j ->
  zlen d = len /\ ei_decode_binary false m i = DOk ([], len) j.
Proof.
  unfold ei_decode_binary. destruct (get8 m i) as [[tag s]|]; [|done]. destruct (negb _); [done|].
  destruct (get32be m s) as [[l s']|]; [|done]. destruct (slice m s' l) as [x|] eqn:E; [|done].
  intros [= <- <- <-]. apply slice_some in E as [E _]. done.
Qed.

(** [d true] and [d false] agree. *)
Definition sizes_agree (d : bool -> mem -> Z -> dres (list Z * Z)) : Prop :=
  forall m i out sz j, d true m i = DOk (out, sz) j -> zlen out = sz /\ d false m i = DOk ([], sz) j.

Lemma decode_string_agrees : sizes_agree decode_string.
Proof.
  intros m i out sz j. unfold decode_string. destruct (get16be m (i + 1)) as [[len s]|]; [|done].
  destruct (slice m s len) as [x|] eqn:E; [|done]. intros [= <- <- <-]. by apply slice_some in E as [E _].
Qed.

Lemma iodata_element_agrees rec last :
  sizes_agree rec -> sizes_agree (fun pp => iodata_element (rec pp) pp last).
Proof.
  intros Hrec m i out sz j. unfold iodata_element.
  destruct (ei_get_type m i) as [[ty len] k| | |]; try done.
  destruct (_ || _).
  { destruct last; [done|]. destruct (ei_decode_long m i) as [v k'| | |]; try done.
    destruct (_ || _); [done|]. by intros [= <- <- <-]. }
  destruct (ty =? ERL_BINARY_EXT).
  { destruct (ei_decode_binary true m i) as [[d l] k'| | |] eqn:E; try done.
    apply ei_decode_binary_size in E as [E1 E2]. rewrite E2. cbn [fst snd].
    destruct (Z.eqb_spec l len); cbn [negb]; [|done]. intros [= <- <- <-]. by subst. }
  destruct (ty =? ERL_STRING_EXT); [apply decode_string_agrees|].
  destruct (ty =? ERL_LIST_EXT); [apply Hrec|].
  destruct (ty =? ERL_NIL_EXT); [|done].
  destruct (ei_decode_list_header false m i); try done. by intros [= <- <- <-].
Qed.

Lemma iodata_loop_agrees rec n :
  sizes_agree rec -> sizes_agree (fun pp => iodata_loop (rec pp) pp n).
Proof.
  intros Hrec. induction n as [|k IH]; intros m i out sz j; cbn [iodata_loop]; [by intros [= <- <- <-]|].
  destruct (iodata_element (rec true) true _ m i) as [[o1 s1] i1| | |] eqn:E1; try done.
  apply (iodata_element_agrees rec _ Hrec) in E1 as [L1 ->].
  destruct (iodata_loop (rec true) true k m i1) as [[o2 s2] i2| | |] eqn:E2; try done.
  apply IH in E2 as [L2 ->]. cbn [fst snd app]. intros [= <- <- <-]. split; [zlen_lia|done].
Qed.

Lemma decode_list_agrees fuel : sizes_agree (decode_list_ext_iodata fuel).
Proof.
  induction fuel as [|fuel IH]; intros m i out sz j; cbn [decode_list_ext_iodata]; [done|].
  destruct (ei_decode_list_header true m i) as [n k| | |]; try done.
  apply (iodata_loop_agrees (decode_list_ext_iodata fuel) _ IH).
Qed.

(** ** [ei_decode_ei_term] *)

Inductive ei_value :=
  | VInt (i_val : Z)
  | VDouble (d_val : Z)
  | VAtom (atom_name : list Z)
  | VPid (pid : erlang_pid)
  | VPort (port : erlang_port)
  | VRef (ref : erlang_ref).
Record ei_term := { ei_type : Z; ei_arity : Z; ei_size : Z; ei_value_of : ei_value }.

Section DecodeEiTerm.
Variable sscanf_lf : list Z -> option Z.
(** The contents of the union seen as a reference, when it does not hold one. *)
Variable junk : erlang_ref.

Definition set_type (t : ei_term) (c : Z) : ei_term :=
  {| ei_type := c; ei_arity := ei_arity t; ei_size := ei_size t; ei_value_of := ei_value_of t |}.
Definition set_arity (t : ei_term) (n : Z) : ei_term :=
  {| ei_type := ei_type t; ei_arity := n; ei_size := ei_size t; ei_value_of := ei_value_of t |}.
Definition set_size (t : ei_term) (n : Z) : ei_term :=
  {| ei_type := ei_type t; ei_arity := ei_arity t; ei_size := n; ei_value_of := ei_value_of t |}.
Definition set_value (t : ei_term) (v : ei_value) : ei_term :=
  {| ei_type := ei_type t; ei_arity := ei_arity t; ei_size := ei_size t; ei_value_of := v |}.

(** The result of a decoder stored in the union: [return (d < 0 ? -1 : 1)]. *)
Definition via {A} (d : dres A) (t : ei_term) (v : A -> ei_value) : option (Z * ei_term * Z) :=
  match d with
  | DOk a i => Some (1, set_value t (v a), i)
  | DErr j => Some (-1, t, j)
  | _ => None
  end.

(** The return value, [*term] and [*index]; [None] is a read outside of the
    buffer. *)
Definition ei_decode_ei_term (m : mem) (index : Z) (term : option ei_term) : option (Z * ei_term * Z) :=
  match term with
  | None => Some (-1, {| ei_type := 0; ei_arity := 0; ei_size := 0; ei_value_of := VInt 0 |}, index)
  | Some t0 =>
    match get8 m index with
    | None => None
    | Some (tag, s) =>
      let c := wraps 8 tag in
      let t := set_type t0 c in
      if c =? ERL_SMALL_INTEGER_EXT then
        match get8 m s with None => None | Some (n, s) => Some (1, set_value t (VInt n), s) end
      else if c =? ERL_INTEGER_EXT then
        match get32be m s with None => None | Some (n, s) => Some (1, set_value t (VInt n), s) end
      else if (c =? ERL_FLOAT_EXT) || (c =? NEW_FLOAT_EXT) then
        via (ei_decode_double sscanf_lf m index) (set_type t ERL_FLOAT_EXT) VDouble
      else if (c =? ERL_ATOM_EXT) || (c =? ERL_ATOM_UTF8_EXT) || (c =? ERL_SMALL_ATOM_EXT) || (c =? ERL_SMALL_ATOM_UTF8_EXT) then
        via (ei_decode_atom m index) (set_type t ERL_ATOM_EXT) (fun a => VAtom (at_name a))
      else if (c =? ERL_REFERENCE_EXT) || (c =? ERL_NEW_REFERENCE_EXT) || (c =? ERL_NEWER_REFERENCE_EXT) then
        let old := match ei_value_of t0 with VRef r => r | _ => junk end in
        via (ei_decode_ref (Some old) m index) (set_type t ERL_NEW_REFERENCE_EXT)
            (fun r => match r with Some r => VRef r | None => ei_value_of t0 end)
      else if (c =? ERL_PORT_EXT) || (c =? ERL_NEW_PORT_EXT) then
        via (ei_decode_port true m index) (set_type t ERL_PORT_EXT)
            (fun r => match r with Some r => VPort r | None => ei_value_of t0 end)
      else if (c =? ERL_PID_EXT) || (c =? ERL_NEW_PID_EXT) then
        via (ei_decode_pid true m index) (set_type t ERL_PID_EXT)
            (fun r => match r with Some r => VPid r | None => ei_value_of t0 end)
      else if c =? ERL_SMALL_TUPLE_EXT then
        match get8 m s with None => None | Some (n, s) => Some (1, set_arity t n, s) end
      else if c =? ERL_LARGE_TUPLE_EXT then
        match get32be m s with None => None | Some (n, s) => Some (1, set_arity t n, s) end
      else if c =? ERL_NIL_EXT then Some (1, set_arity t 0, s)
      else if c =? ERL_STRING_EXT then
        match get16be m s with None => None | Some (n, s) => Some (0, set_size t n, index) end
      else if (c =? ERL_LIST_EXT) || (c =? ERL_MAP_EXT) then
        match get32be m s with None => None | Some (n, s) => Some (1, set_arity t n, s) end
      else if c =? ERL_BINARY_EXT then
        match get32be m s with None => None | Some (n, s) => Some (0, set_size t n, index) end
      else if c =? ERL_BIT_BINARY_EXT then
        match get32be m s with
        | None => None
        | Some (bytes, s) =>
            match get8 m s with
            | None => None
            | Some (last_bits, s) =>
                if negb (Bool.eqb (last_bits =? 0) (bytes =? 0)) || (8 <? last_bits) then Some (-1, t, index)
                else Some (0, set_size t bytes, index)
            end
        end
      else if c =? ERL_SMALL_BIG_EXT then
        match get8 m s with
        | None => None
        | Some (arity, s) =>
            let t := set_arity t arity in
            if negb (arity =? 4) then Some (-1, t, index) else
            match get8 m s with
            | None => None
            | Some (sign, s) =>
                match get32le m s with
                | None => None
                | Some (n, s) =>
                    if negb (sign =? 0) then
                      if wraps 32 (n - 1) <? 0 then Some (-1, t, index) else Some (1, t, s)
                    else if n <? 0 then Some (-1, t, index) else Some (1, t, s)
                end
            end
        end
      else if (c =? ERL_LARGE_BIG_EXT) || (c =? ERL_PASS_THROUGH) then Some (0, t, index)
      else Some (-1, t, index)
    end
  end.
End DecodeEiTerm.

(** ** Properties *)

(** Well-formedness of closed values. *)
Ltac closed_wf :=
  cbn; unfold in_s, in_u, byte_ok;
  repeat match goal with
  | |- _ /\ _ => split
  | |- True => exact I
  | |- Forall _ [] => exact (Forall_nil_2 _)
  | |- Forall _ (_ :: _) => apply Forall_cons_2
  | |- _ => lia
  | |- _ = _ => reflexivity
  | |- context [zlen ?l] => let z := eval vm_compute in (zlen l) in change (zlen l) with z
  end.



(** The binary inside of the list has the length -10, which takes [*index] from
    the end of its header back to the start of the list. *)
Definition looping_term : mem := [108; 0; 0; 0; 2; 109; 255; 255; 255; 246].

(** On the ten bytes of [looping_term], a list of two elements the first of
    which is a binary with a negative length, [ei_skip_term] has no result for
    any depth of recursion: it calls itself on the same position for ever. *)
Theorem skip_unbounded_recursion scan fuel : ei_skip_term scan fuel looping_term 0 = DFuel.
Proof.
  induction fuel as [|fuel IH]; [reflexivity|].
  cbn [ei_skip_term]. change (ei_get_type looping_term 0) with (DOk (ERL_LIST_EXT, 2) 0 : dres (Z * Z)).
  cbn [fst]. closed_tests.
  change (ei_decode_list_header true looping_term 0) with (DOk 2 5 : dres Z).
  cbv iota beta. replace (Z.to_nat 2) with 2%nat by reflexivity. cbn [skip_terms]. destruct fuel as [|fuel]; [reflexivity|].
  assert (ei_skip_term scan (S fuel) looping_term 5 = DOk tt 0) as -> by reflexivity.
  by rewrite IH.
Qed.

(** [ei_decode_iodata] gives the bytes of any iolist or binary written with
    the encoders, in order and with the right length, and the pass with a NULL
    buffer gives that length. *)
Theorem iodata_content t out fuel :
  term_ok t -> (term_depth t <= fuel)%nat -> io_flatten false t = Some out -> term_bytes t <> None ->
  RoundTrip (encode_term t) (ei_decode_iodata fuel true) (out, zlen out) /\
  RoundTrip (encode_term t) (ei_decode_iodata fuel false) ([], zlen out).
Proof.
  intros Hok Hd Ho Hn. pose proof (encode_term_emits t Hok) as Hem.
  destruct (term_bytes t) as [bs|] eqn:Hb; [|done].
  split; apply (emits_roundtrip (encode_term t) bs); try done.
  - exact (ei_decode_iodata_decodes true t fuel bs out Hok Hd Hb Ho).
  - exact (ei_decode_iodata_decodes false t fuel bs out Hok Hd Hb Ho).
Qed.

Lemma iodata_content_witness :
  let t := TList [TInt 72; TString [105; 32]; TList [TBinary [33]] (TBinary [46])] TNil in
  RoundTrip (encode_term t) (ei_decode_iodata 2 true) ([72; 105; 32; 33; 46], 5) /\
  RoundTrip (encode_term t) (ei_decode_iodata 2 false) ([], 5).
Proof.
  intros t. apply (iodata_content t [72; 105; 32; 33; 46] 2);
    [|vm_compute; repeat constructor|reflexivity|vm_compute; discriminate].
  unfold t. closed_wf.
Defined.

(** On any input at all, when [ei_decode_iodata] fills the buffer it writes
    exactly as many bytes as the pass with a NULL buffer announced, and both
    leave [*index] at the same place. *)
Theorem iodata_passes_agree fuel m i out sz j :
  ei_decode_iodata fuel true m i = DOk (out, sz) j ->
  zlen out = sz /\ ei_decode_iodata fuel false m i = DOk ([], sz) j.
Proof.
  unfold ei_decode_iodata. destruct (ei_get_type m i) as [[ty len] k| | |]; try done.
  destruct (ty =? ERL_BINARY_EXT).
  { destruct (ei_decode_binary true m i) as [[d l] k'| | |] eqn:E; try done.
    apply ei_decode_binary_size in E as [E1 E2]. rewrite E2. cbn [fst snd].
    destruct (Z.eqb_spec l len); cbn [negb]; [|done]. intros [= <- <- <-]. by subst. }
  destruct (ty =? ERL_STRING_EXT); [apply decode_string_agrees|].
  destruct (ty =? ERL_NIL_EXT).
  { destruct (ei_decode_list_header false m i); try done. by intros [= <- <- <-]. }
  destruct (ty =? ERL_LIST_EXT); [apply decode_list_agrees|done].
Qed.

Lemma iodata_passes_agree_witness :
  ei_decode_iodata 1 true [107; 0; 2; 7; 8] 0 = DOk ([7; 8], 2) 5 /\
  zlen [7; 8] = 2 /\ ei_decode_iodata 1 false [107; 0; 2; 7; 8] 0 = DOk ([], 2) 5.
Proof. split; [reflexivity|]. apply (iodata_passes_agree 1 [107; 0; 2; 7; 8] 0 [7; 8] 2 5). reflexivity. Defined.

(** Of a 32-bit integer in the small big format, [ei_decode_ei_term] returns
    1 and moves [*index], but does not store it: [value] keeps what the caller
    had there. *)
Theorem ei_term_big_not_stored scan junk t0 n sign rest :
  0 < n < 2 ^ 31 -> byte_ok sign ->
  exists t, ei_decode_ei_term scan junk ([ERL_SMALL_BIG_EXT; 4; sign] ++ le_bytes 4 n ++ rest) 0 (Some t0)
    = Some (1, t, 7) /\ ei_type t = ERL_SMALL_BIG_EXT /\ ei_value_of t = ei_value_of t0.
Proof.
  intros Hn Hs. set (m := _ ++ _). assert (holds m 0 [ERL_SMALL_BIG_EXT; 4; sign]) as H1.
  { exists [], (le_bytes 4 n ++ rest). done. }
  assert (get32le m 3 = Some (n, 7)) as G.
  { assert (holds m 3 (le_bytes 4 n ++ rest)) as H3 by (exists [ERL_SMALL_BIG_EXT; 4; sign], []; by rewrite app_nil_r).
    apply get32le_holds in H3 as [-> _]. by rewrite wraps_small by (unfold in_s; lia). }
  eexists. unfold ei_decode_ei_term.
  apply get8_holds in H1 as [-> H1]; [|split; vm_compute; congruence].
  change (wraps 8 ERL_SMALL_BIG_EXT) with ERL_SMALL_BIG_EXT. closed_tests.
  apply get8_holds in H1 as [-> H1]; [|split; vm_compute; congruence]. closed_tests.
  apply get8_holds in H1 as [-> _]; [|done]. change (0 + 1 + 1 + 1) with 3. rewrite G.
  destruct (negb (sign =? 0)).
  - rewrite wraps_small by (unfold in_s; lia). destruct (Z.ltb_spec (n - 1) 0); [lia|]. done.
  - destruct (Z.ltb_spec n 0); [lia|]. done.
Qed.

Lemma ei_term_big_not_stored_witness :
  let r := {| ref_node := []; ref_len := 0; ref_n := []; ref_creation := 0 |} in
  let t0 := {| ei_type := 0; ei_arity := 0; ei_size := 0; ei_value_of := VInt 42 |} in
  exists t, ei_decode_ei_term (fun _ => None) r ([ERL_SMALL_BIG_EXT; 4; 0] ++ le_bytes 4 0x10000000 ++ []) 0 (Some t0)
    = Some (1, t, 7) /\ ei_type t = ERL_SMALL_BIG_EXT /\ ei_value_of t = VInt 42.
Proof.
  intros r t0. apply (ei_term_big_not_stored (fun _ => None) r t0 0x10000000 0 []); [lia|unfold byte_ok; lia].
Defined.
