(* ===== verification/EiX.v ===== *)
(** * Self-expanding buffers: [ei_x_encode.c]

    The [ei_x_*] functions over the allocator, their invariant, and the
    refinement of the abstract buffer: a byte string to which every operation
    appends the external format of its argument. *)
From S2P Require Import Prelude PutGet EiTypes EiInt EiAtom EiData EiBinary EiBig EiNode EiTerm.

Definition ei_x_extra : Z := 100.

(** [buff] is [None] for NULL. *)
Record ei_x_buff := { x_buff : option mem; x_buffsz : Z; x_index : Z }.

(** The value returned (0 or -1) with the new [*x]; [XOob] is an access outside
    of the buffer. *)
Inductive xres :=
  | XOk (x : ei_x_buff)
  | XErr (x : ei_x_buff)
  | XOob.

Section Alloc.
(** Whether a request of so many bytes is granted, and what a granted block
    holds before it is written. *)
Variable alloc : Z -> bool.
Variable junk : nat -> list Z.
Hypothesis junk_length : forall n, length (junk n) = n.

Definition ei_malloc (sz : Z) : option mem :=
  if (0 <=? sz) && alloc sz then Some (junk (Z.to_nat sz)) else None.

Definition ei_realloc (old : option mem) (sz : Z) : option mem :=
  if (0 <=? sz) && alloc sz then
    let keep := match old with Some m => take (Z.to_nat sz) m | None => [] end in
    Some (keep ++ junk (Z.to_nat sz - length keep))
  else None.

Definition ei_x_new : xres :=
  let b := ei_malloc ei_x_extra in
  let x := {| x_buff := b; x_buffsz := ei_x_extra; x_index := 0 |} in
  match b with Some _ => XOk x | None => XErr x end.

Definition ei_x_free (x : ei_x_buff) : xres :=
  match x_buff x with
  | None => XErr x
  | Some _ => XOk {| x_buff := None; x_buffsz := x_buffsz x; x_index := x_index x |}
  end.

(** [int] arithmetic. *)
Definition x_fix_buff (x : ei_x_buff) (szneeded : Z) : bool * ei_x_buff :=
  let sz := wraps 32 (szneeded + ei_x_extra) in
  if x_buffsz x <? sz then
    let sz := wraps 32 (sz + ei_x_extra) in
    match ei_realloc (x_buff x) sz with
    | None => (false, x)
    | Some b => (true, {| x_buff := Some b; x_buffsz := sz; x_index := x_index x |})
    end
  else (match x_buff x with Some _ => true | None => false end, x).

Definition ei_x_append_buf (x : ei_x_buff) (buf : list Z) (len : Z) : xres :=
  match x_fix_buff x (x_index x + len) with
  | (false, x) => XErr x
  | (true, x) =>
      match x_buff x, slice buf 0 len with
      | Some m, Some l =>
          match store m (x_index x) l with
          | Some m => XOk {| x_buff := Some m; x_buffsz := x_buffsz x; x_index := x_index x + len |}
          | None => XOob
          end
      | _, _ => XOob
      end
  end.

Definition ei_x_append (x x2 : ei_x_buff) : xres :=
  match x_buff x2 with
  | Some m2 => ei_x_append_buf x m2 (x_index x2)
  | None => if x_index x2 =? 0 then ei_x_append_buf x [] 0 else XOob
  end.

(** A call of an encoder on [x->buff] and [x->index]. *)
Definition x_call (f : option mem -> Z -> eres) (x : ei_x_buff) : xres :=
  match f (x_buff x) (x_index x) with
  | EOk b j => XOk {| x_buff := b; x_buffsz := x_buffsz x; x_index := j |}
  | EErr j => XErr {| x_buff := x_buff x; x_buffsz := x_buffsz x; x_index := j |}
  | EOob => XOob
  end.

(** The body shared by the [ei_x_encode_*] functions: probe, grow, encode. *)
Definition x_encode (f : option mem -> Z -> eres) (x : ei_x_buff) : xres :=
  match f None (x_index x) with
  | EErr _ => XErr x
  | EOob => XOob
  | EOk _ i =>
      match x_fix_buff x i with
      | (false, x) => XErr x
      | (true, x) => x_call f x
      end
  end.

Definition ei_x_new_with_version : xres :=
  match ei_x_new with
  | XOk x => x_call ei_encode_version x
  | r => r
  end.

Definition ei_x_encode_string_len x (s : list Z) (len : Z) := x_encode (fun b i => ei_encode_string_len b i s len) x.
Definition ei_x_encode_string x (s : list Z) := ei_x_encode_string_len x s (wraps 32 (zlen s)).
Definition ei_x_encode_binary x (p : list Z) (len : Z) := x_encode (fun b i => ei_encode_binary b i p len) x.
Definition ei_x_encode_bitstring x (p : list Z) (bitoffs bits : Z) :=
  x_encode (fun b i => ei_encode_bitstring b i p bitoffs bits) x.
Definition ei_x_encode_long x n := x_encode (fun b i => ei_encode_long b i n) x.
Definition ei_x_encode_ulong x n := x_encode (fun b i => ei_encode_ulong b i n) x.
Definition ei_x_encode_longlong x n := x_encode (fun b i => ei_encode_longlong b i n) x.
Definition ei_x_encode_ulonglong x n := x_encode (fun b i => ei_encode_ulonglong b i n) x.
Definition ei_x_encode_char x p := x_encode (fun b i => ei_encode_char b i p) x.
Definition ei_x_encode_boolean x p := x_encode (fun b i => ei_encode_boolean b i p) x.
Definition ei_x_encode_double x dbl := x_encode (fun b i => ei_encode_double b i dbl) x.
Definition ei_x_encode_list_header x n := x_encode (fun b i => ei_encode_list_header b i n) x.
Definition ei_x_encode_empty_list x := x_encode ei_encode_empty_list x.
Definition ei_x_encode_version x := x_encode ei_encode_version x.
Definition ei_x_encode_tuple_header x n := x_encode (fun b i => ei_encode_tuple_header b i n) x.
Definition ei_x_encode_map_header x n := x_encode (fun b i => ei_encode_map_header b i n) x.
Definition ei_x_encode_atom_len_as x (s : list Z) (len from_enc to_enc : Z) :=
  x_encode (fun b i => ei_encode_atom_len_as b i s len from_enc to_enc) x.
Definition ei_x_encode_atom x (s : list Z) := ei_x_encode_atom_len_as x s (zlen s) ERLANG_LATIN1 ERLANG_LATIN1.
Definition ei_x_encode_atom_len x (s : list Z) (len : Z) :=
  ei_x_encode_atom_len_as x s len ERLANG_LATIN1 ERLANG_LATIN1.
Definition ei_x_encode_atom_as x (s : list Z) (from_enc to_enc : Z) :=
  ei_x_encode_atom_len_as x s (zlen s) from_enc to_enc.
Definition ei_x_encode_pid x pid := x_encode (fun b i => ei_encode_pid b i pid) x.
Definition ei_x_encode_fun x f := x_encode (fun b i => ei_encode_fun b i f) x.
Definition ei_x_encode_ref x ref := x_encode (fun b i => ei_encode_ref b i ref) x.
Definition ei_x_encode_port x port := x_encode (fun b i => ei_encode_port b i port) x.
Definition ei_x_encode_trace x trace := x_encode (fun b i => ei_encode_trace b i trace) x.
Definition ei_x_encode_big x big := x_encode (fun b i => ei_encode_big b i big) x.
Definition ei_x_encode_bignum {G : Gmp} x (n : mpz) := x_encode (fun b i => ei_encode_bignum b i n) x.

(** ** Invariant *)

(** The block has [buffsz] bytes and [index] lies in it. *)
Definition x_wf (x : ei_x_buff) : Prop :=
  exists m, x_buff x = Some m /\ zlen m = x_buffsz x /\ 0 <= x_index x <= x_buffsz x.

(** The bytes written so far. *)
Definition x_contents (x : ei_x_buff) : list Z :=
  match x_buff x with Some m => take (Z.to_nat (x_index x)) m | None => [] end.

Lemma ei_x_new_wf x : ei_x_new = XOk x -> x_wf x /\ x_contents x = [].
Proof.
  unfold ei_x_new, ei_malloc. destruct (_ && _); [|done]. intros [= <-]. split; [|done].
  eexists. split; [reflexivity|]. cbn [x_buffsz x_index]. unfold zlen. rewrite junk_length.
  unfold ei_x_extra. lia.
Qed.

(** Growing keeps what was written and leaves room for [szneeded]. *)
Lemma x_fix_buff_ok x n :
  x_wf x -> x_index x <= n -> n + 2 * ei_x_extra < 2 ^ 31 ->
  match x_fix_buff x n with
  | (true, x') => x_wf x' /\ x_contents x' = x_contents x /\ x_index x' = x_index x /\ n <= x_buffsz x'
  | (false, x') => x' = x /\ alloc (n + 2 * ei_x_extra) = false
  end.
Proof.
  intros (m & Hb & Hz & Hi) Hn Hmax. unfold x_fix_buff, ei_x_extra in *.
  rewrite wraps_small by (unfold in_s; lia).
  destruct (Z.ltb_spec (x_buffsz x) (n + 100)) as [Hlt|Hge].
  - rewrite wraps_small by (unfold in_s; lia). unfold ei_realloc. rewrite Hb.
    replace (n + 100 + 100) with (n + 2 * 100) by lia.
    replace (0 <=? n + 2 * 100) with true by lia. destruct (alloc (n + 2 * 100)) eqn:Ha; cbn [andb]; [|done].
    assert (take (Z.to_nat (n + 2 * 100)) m = m) as -> by (apply firstn_all2; unfold zlen in Hz; lia).
    split; [|split; [|split; [done|cbn; lia]]].
    + eexists. split; [reflexivity|]. cbn [x_buffsz x_index]. split; [|lia].
      rewrite zlen_app. unfold zlen in *. rewrite junk_length. lia.
    + unfold x_contents. cbn [x_buff x_index]. rewrite Hb. apply take_app_le. unfold zlen in Hz. lia.
  - rewrite Hb. split; [by exists m|]. split; [done|]. split; [done|lia].
Qed.

(** ** Every operation appends *)

Lemma x_call_appends f bs x :
  Emits f (Some bs) -> x_wf x -> x_index x + zlen bs <= x_buffsz x ->
  exists x', x_call f x = XOk x' /\ x_wf x' /\ x_contents x' = x_contents x ++ bs /\
    x_index x' = x_index x + zlen bs.
Proof.
  intros [_ He] (m & Hb & Hz & Hi) Hroom. unfold x_call. rewrite Hb, He.
  destruct (emit_fits m (x_index x) bs ltac:(lia) ltac:(lia)) as [m' Em]. rewrite Em.
  eexists. split; [reflexivity|]. pose proof (emit_ok _ _ _ _ _ Em) as (m2 & [= <-] & _ & Hh & Hl & Hfr).
  split; [|split; [|done]].
  - eexists. split; [reflexivity|]. cbn [x_buffsz x_index]. unfold zlen in *. lia.
  - unfold x_contents. cbn [x_buff x_index]. rewrite Hb.
    destruct Hh as (pre & post & -> & Hpre). rewrite app_assoc.
    replace (Z.to_nat (x_index x + zlen bs)) with (length (pre ++ bs))
      by (rewrite length_app; unfold zlen in *; lia).
    rewrite take_app_length. f_equal.
    apply list_eq. intros k. destruct (decide (k < length pre)%nat) as [Hk|Hk].
    + rewrite lookup_take_lt by (unfold zlen in Hpre; lia).
      specialize (Hfr (Z.of_nat k) ltac:(unfold zlen in Hpre; lia)). rewrite !mem_get_lookup in Hfr.
      rewrite <- Hfr. by rewrite lookup_app_l.
    + rewrite lookup_ge_None_2 by lia. symmetry. apply lookup_ge_None_2. rewrite length_take.
      unfold zlen in *. lia.
Qed.

Lemma x_encode_appends f bs x :
  Emits f (Some bs) -> x_wf x -> x_index x + zlen bs + 2 * ei_x_extra < 2 ^ 31 ->
  (exists x', x_encode f x = XOk x' /\ x_wf x' /\ x_contents x' = x_contents x ++ bs) \/
  (x_encode f x = XErr x /\ alloc (x_index x + zlen bs + 2 * ei_x_extra) = false).
Proof.
  intros He Hw Hmax. unfold x_encode. pose proof (emits_null (Emits := He) (x_index x)) as Hn. cbn in Hn. rewrite Hn.
  pose proof (x_fix_buff_ok x (x_index x + zlen bs) Hw ltac:(zlen_lia) Hmax) as Hf.
  destruct (x_fix_buff x (x_index x + zlen bs)) as [[|] x1].
  - left. destruct Hf as (Hw1 & Hc & Hi & Hroom).
    destruct (x_call_appends f bs x1 He Hw1 ltac:(lia)) as (x2 & E & Hw2 & Hc2 & _).
    exists x2. rewrite Hc2, Hc. done.
  - right. destruct Hf as [-> Ha]. done.
Qed.

Lemma x_encode_refuses f x : Emits f None -> x_encode f x = XErr x.
Proof. intros He. unfold x_encode. destruct (emits_null (Emits := He) (x_index x)) as [j ->]. done. Qed.
End Alloc.

(** ** Sequences of operations refine appending to a byte string *)

Inductive x_op :=
  | OpVersion
  | OpLong (n : Z) | OpULong (n : Z) | OpLongLong (n : Z) | OpULongLong (n : Z)
  | OpChar (p : Z) | OpBoolean (p : Z) | OpDouble (d : Z)
  | OpListHeader (n : Z) | OpEmptyList | OpTupleHeader (n : Z) | OpMapHeader (n : Z)
  | OpAtomAs (s : list Z) (from_enc to_enc : Z)
  | OpString (s : list Z) | OpBinary (p : list Z) | OpBitstring (p : list Z) (bitoffs bits : Z)
  | OpPid (p : erlang_pid) | OpPort (p : erlang_port) | OpRef (p : erlang_ref)
  | OpFun (p : erlang_fun) | OpTrace (p : erlang_trace) | OpBig (b : erlang_big)
  | OpAppend (x2 : ei_x_buff) | OpAppendBuf (buf : list Z).

Section Ops.
Variable alloc : Z -> bool.
Variable junk : nat -> list Z.
Hypothesis junk_length : forall n, length (junk n) = n.

Definition x_step (op : x_op) (x : ei_x_buff) : xres :=
  match op with
  | OpVersion => ei_x_encode_version alloc junk x
  | OpLong n => ei_x_encode_long alloc junk x n
  | OpULong n => ei_x_encode_ulong alloc junk x n
  | OpLongLong n => ei_x_encode_longlong alloc junk x n
  | OpULongLong n => ei_x_encode_ulonglong alloc junk x n
  | OpChar p => ei_x_encode_char alloc junk x p
  | OpBoolean p => ei_x_encode_boolean alloc junk x p
  | OpDouble d => ei_x_encode_double alloc junk x d
  | OpListHeader n => ei_x_encode_list_header alloc junk x n
  | OpEmptyList => ei_x_encode_empty_list alloc junk x
  | OpTupleHeader n => ei_x_encode_tuple_header alloc junk x n
  | OpMapHeader n => ei_x_encode_map_header alloc junk x n
  | OpAtomAs s from_enc to_enc => ei_x_encode_atom_as alloc junk x s from_enc to_enc
  | OpString s => ei_x_encode_string alloc junk x s
  | OpBinary p => ei_x_encode_binary alloc junk x p (zlen p)
  | OpBitstring p o n => ei_x_encode_bitstring alloc junk x p o n
  | OpPid p => ei_x_encode_pid alloc junk x p
  | OpPort p => ei_x_encode_port alloc junk x p
  | OpRef p => ei_x_encode_ref alloc junk x p
  | OpFun p => ei_x_encode_fun alloc junk x p
  | OpTrace p => ei_x_encode_trace alloc junk x p
  | OpBig b => ei_x_encode_big alloc junk x b
  | OpAppend x2 => ei_x_append alloc junk x x2
  | OpAppendBuf buf => ei_x_append_buf alloc junk x buf (zlen buf)
  end.

(** The abstract operation: what is appended, or [None] when it is refused. *)
Definition op_bytes (op : x_op) : option (list Z) :=
  match op with
  | OpVersion => Some [ERL_VERSION_MAGIC]
  | OpLong n | OpLongLong n => Some (longlong_bytes n)
  | OpULong n | OpULongLong n => Some (ulonglong_bytes n)
  | OpChar p => Some (small_bytes p)
  | OpBoolean p => Some (atom_ext false (boolean_name p))
  | OpDouble d => if isfinite d then Some (NEW_FLOAT_EXT :: be_bytes 8 d) else None
  | OpListHeader n => list_header_bytes n
  | OpEmptyList => Some [ERL_NIL_EXT]
  | OpTupleHeader n => tuple_header_bytes n
  | OpMapHeader n => map_header_bytes n
  | OpAtomAs s from_enc _ => atom_bytes s from_enc
  | OpString s => Some (string_bytes s)
  | OpBinary p => Some (ERL_BINARY_EXT :: be_bytes 4 (zlen p) ++ p)
  | OpBitstring p o n => app_bytes (Some (bitstring_header n)) (copy_bits p o n)
  | OpPid p => pid_bytes p
  | OpPort p => port_bytes p
  | OpRef p => ref_bytes p
  | OpFun p => fun_bytes p
  | OpTrace p => trace_bytes p
  | OpBig b => Some (big_ext b)
  | OpAppend x2 => Some (x_contents x2)
  | OpAppendBuf buf => Some buf
  end.

(** The arguments are values of their C types. *)
Definition op_ok (op : x_op) : Prop :=
  match op with
  | OpULong n | OpULongLong n => in_u 64 n
  | OpAtomAs s _ _ => bytes_ok s
  | OpString s => zlen s < 2 ^ 31
  | OpBitstring p o n => bytes_ok p /\ 0 <= o /\ 0 <= n < 2 ^ 34 /\ exists out, copy_bits p o n = Some out
  | OpPid p => bytes_ok (pid_node p)
  | OpPort p => bytes_ok (port_node p)
  | OpRef p => bytes_ok (ref_node p) /\ 0 <= ref_len p <= zlen (ref_n p)
  | OpFun p => fun_wf p
  | OpTrace p => bytes_ok (pid_node (tr_from p))
  | OpBig b => big_wf b
  | OpAppend x2 => x_wf x2
  | _ => True
  end.

(** What one operation promises. *)
Definition appends (x : ei_x_buff) (o : option (list Z)) (r : xres) : Prop :=
  match o with
  | Some bs =>
      (exists x', r = XOk x' /\ x_wf x' /\ x_contents x' = x_contents x ++ bs) \/
      (r = XErr x /\ alloc (x_index x + zlen bs + 2 * ei_x_extra) = false)
  | None => r = XErr x
  end.

Lemma emits_appends f o x :
  Emits f o -> x_wf x ->
  match o with Some bs => x_index x + zlen bs + 2 * ei_x_extra < 2 ^ 31 | None => True end ->
  appends x o (x_encode alloc junk f x).
Proof.
  intros He Hw Hmax. destruct o as [bs|]; cbn [appends].
  - by apply x_encode_appends.
  - by apply x_encode_refuses.
Qed.

Lemma append_buf_appends buf x :
  x_wf x -> x_index x + zlen buf + 2 * ei_x_extra < 2 ^ 31 ->
  appends x (Some buf) (ei_x_append_buf alloc junk x buf (zlen buf)).
Proof.
  intros Hw Hmax. cbn [appends]. unfold ei_x_append_buf.
  pose proof (x_fix_buff_ok alloc junk junk_length x (x_index x + zlen buf) Hw ltac:(zlen_lia) Hmax) as Hf.
  destruct (x_fix_buff alloc junk x (x_index x + zlen buf)) as [[|] x1].
  - left. destruct Hf as (Hw1 & Hc & Hi & Hroom).
    rewrite slice_prefix, zlen_to_nat, firstn_all by zlen_lia.
    set (f := fun (b : option mem) i => match b with Some m => emit m i buf | None => EOk None (i + zlen buf) end).
    assert (Emits f (Some buf)) as He by (split; done).
    destruct (x_call_appends f buf x1 He Hw1 ltac:(lia)) as (x2 & E & Hw2 & Hc2 & _).
    exists x2. split; [|by rewrite Hc2, Hc]. rewrite <- E. unfold x_call, f.
    destruct (x_buff x1) as [m|] eqn:Eb; [|destruct Hw1 as (? & ? & _); congruence].
    unfold emit, put_bytes. by destruct (store m (x_index x1) buf).
  - right. destruct Hf as [-> Ha]. done.
Qed.

Lemma x_index_contents x : x_wf x -> zlen (x_contents x) = x_index x.
Proof. intros (m & Hb & Hz & Hi). unfold x_contents. rewrite Hb. apply zlen_take. lia. Qed.

(** [ei_x_append] appends the contents of the other buffer. *)
Lemma append_contents x x2 :
  x_wf x2 -> ei_x_append alloc junk x x2 = ei_x_append_buf alloc junk x (x_contents x2) (zlen (x_contents x2)).
Proof.
  intros Hw. pose proof (x_index_contents x2 Hw) as Hi. destruct Hw as (m & Hb & Hz & Hr).
  unfold ei_x_append. rewrite Hb. unfold x_contents in *. rewrite Hb in *.
  unfold ei_x_append_buf. rewrite Hi, !slice_prefix by (rewrite ?Hi; lia).
  by rewrite take_take, Nat.min_id.
Qed.

Lemma x_step_appends op x :
  op_ok op -> x_wf x ->
  match op_bytes op with Some bs => x_index x + zlen bs + 2 * ei_x_extra < 2 ^ 31 | None => True end ->
  appends x (op_bytes op) (x_step op x).
Proof.
  intros Hok Hw Hmax. destruct op; cbn [op_ok op_bytes x_step] in *;
    [..|rewrite append_contents by done; by apply append_buf_appends|by apply append_buf_appends]; (apply emits_appends; [|exact Hw|exact Hmax]).
  all: try apply _.
  - by apply ei_encode_ulonglong_emits.
  - by apply ei_encode_ulonglong_emits.
  - by apply (ei_encode_atom_as_emits s from_enc to_enc).
  - rewrite wraps_small by (unfold in_s; zlen_lia).
    pose proof (ei_encode_string_len_emits s (zlen s)) as He. rewrite zlen_to_nat, firstn_all in He.
    apply He. zlen_lia.
  - destruct Hok as (Hd & Ho & Hn & out & E). rewrite E. apply ei_encode_bitstring_emits; [done|].
    by apply copy_bits_copied in E as [Hz _].
  - by apply ei_encode_pid_emits.
  - by apply ei_encode_port_emits.
  - destruct Hok. by apply ei_encode_ref_emits.
  - by apply ei_encode_fun_emits.
  - by apply ei_encode_trace_emits.
  - by apply ei_encode_big_emits.
Qed.

(** A program of [ei_x_*] calls that stops at the first one that fails. *)
Fixpoint x_run (ops : list x_op) (x : ei_x_buff) : xres :=
  match ops with
  | [] => XOk x
  | op :: ops =>
      match x_step op x with
      | XOk x => x_run ops x
      | r => r
      end
  end.

Fixpoint ops_bytes (ops : list x_op) : option (list Z) :=
  match ops with [] => Some [] | op :: ops => app_bytes (op_bytes op) (ops_bytes ops) end.

Lemma x_run_contents ops x bs :
  (forall n, alloc n = true) -> Forall op_ok ops -> x_wf x -> ops_bytes ops = Some bs ->
  x_index x + zlen bs + 2 * ei_x_extra < 2 ^ 31 ->
  exists x', x_run ops x = XOk x' /\ x_wf x' /\ x_contents x' = x_contents x ++ bs.
Proof.
  intros Hal Hok. revert x bs. induction Hok as [|op ops Hop Hops IH]; intros x bs Hw Hb Hmax.
  - apply (inj Some) in Hb as <-. exists x. by rewrite app_nil_r.
  - apply app_bytes_some in Hb as (a & b & Ha & Hb & ->). cbn [x_run]. rewrite zlen_app in Hmax.
    pose proof (x_step_appends op x Hop Hw) as Hs. rewrite Ha in Hs.
    destruct Hs as [(x1 & -> & Hw1 & Hc1)|[_ Hf]]; [zlen_lia| |by rewrite Hal in Hf].
    pose proof (x_index_contents x1 Hw1) as Hi. rewrite Hc1, zlen_app, (x_index_contents x Hw) in Hi.
    destruct (IH x1 b Hw1 Hb ltac:(lia)) as (x2 & E & Hw2 & Hc2). exists x2. rewrite Hc2, Hc1, app_assoc. done.
Qed.
End Ops.

(** ** Properties *)

(** C9: starting from [ei_x_new], any sequence of [ei_x_*] calls (all that write but
    the one for integers of GMP) with valid arguments, of up to 2^31 bytes in all, succeeds when memory is granted; the
    buffer then holds exactly the external formats of the arguments one after
    the other, and its fields are consistent: the self-expanding buffer
    implements the abstract one, a byte string to which each call appends. *)
Theorem x_run_refines alloc junk ops bs x0 :
  (forall n, length (junk n) = n) -> (forall n, alloc n = true) ->
  Forall op_ok ops -> ops_bytes ops = Some bs -> zlen bs + 2 * ei_x_extra < 2 ^ 31 ->
  ei_x_new alloc junk = XOk x0 ->
  exists x, x_run alloc junk ops x0 = XOk x /\ x_wf x /\ x_contents x = bs.
Proof.
  intros Hj Hal Hok Hb Hmax Hnew. apply ei_x_new_wf in Hnew as [Hw Hc]; [|done].
  pose proof (x_index_contents x0 Hw) as Hi. rewrite Hc in Hi. change (zlen (@nil Z)) with 0 in Hi.
  destruct (x_run_contents alloc junk Hj ops x0 bs Hal Hok Hw Hb ltac:(lia)) as (x & E & Hw' & Hc').
  exists x. rewrite Hc', Hc. done.
Qed.

Lemma x_run_refines_witness :
  exists x, x_run (fun _ => true) (fun n => replicate n 170)
      [OpVersion; OpTupleHeader 2; OpAtomAs [111; 107] ERLANG_LATIN1 0; OpBinary (replicate 200 7)]
      {| x_buff := Some (replicate 100 170); x_buffsz := 100; x_index := 0 |} = XOk x /\ x_wf x /\
    x_contents x = [131; 104; 2; 119; 2; 111; 107; 109; 0; 0; 0; 200] ++ replicate 200 7.
Proof.
  apply (x_run_refines (fun _ => true) (fun n => replicate n 170)
    [OpVersion; OpTupleHeader 2; OpAtomAs [111; 107] ERLANG_LATIN1 0; OpBinary (replicate 200 7)]).
  - intros n. apply length_replicate.
  - done.
  - repeat constructor; cbn; try done; unfold byte_ok; lia.
  - vm_compute. reflexivity.
  - vm_compute. reflexivity.
  - vm_compute. reflexivity.
Defined.

(** A single [ei_x_*] call on a consistent buffer never touches memory
    outside of the block.  It either appends the external format of its
    argument, or returns -1 and leaves the buffer as it was: when the argument
    is refused, or when the memory it asks for is not granted. *)
Theorem x_step_safe alloc junk op x :
  (forall n, length (junk n) = n) -> op_ok op -> x_wf x ->
  (forall bs, op_bytes op = Some bs -> x_index x + zlen bs + 2 * ei_x_extra < 2 ^ 31) ->
  match op_bytes op with
  | Some bs =>
      (exists x', x_step alloc junk op x = XOk x' /\ x_wf x' /\ x_contents x' = x_contents x ++ bs) \/
      (x_step alloc junk op x = XErr x /\ alloc (x_index x + zlen bs + 2 * ei_x_extra) = false)
  | None => x_step alloc junk op x = XErr x
  end.
Proof.
  intros Hj Hok Hw Hmax. pose proof (x_step_appends alloc junk Hj op x Hok Hw) as H.
  destruct (op_bytes op) as [bs|]; apply H; auto.
Qed.

Lemma x_step_safe_witness :
  let x := {| x_buff := Some (replicate 100 0); x_buffsz := 100; x_index := 99 |} in
  x_step (fun _ => false) (fun n => replicate n 170) (OpLong 5) x = XErr x.
Proof.
  intros x. destruct (x_step_safe (fun _ => false) (fun n => replicate n 170) (OpLong 5) x) as [(x' & E & _)|[E _]].
  - intros n. apply length_replicate.
  - exact I.
  - exists (replicate 100 0). repeat split; cbn; lia.
  - intros bs E. apply (inj Some) in E as <-. vm_compute. reflexivity.
  - vm_compute in E. discriminate.
  - exact E.
Defined.

(** An atom name of more than 255 bytes, which [ei_encode_atom] cuts to 255
    bytes and encodes, makes [ei_x_encode_atom] return -1. *)
Theorem ei_x_encode_atom_long alloc junk x s i :
  bytes_ok s -> MAXATOMLEN <= zlen s ->
  ei_x_encode_atom alloc junk x s = XErr x /\
  exists j, ei_encode_atom None i s = EOk None j.
Proof.
  intros Hs Hl. split.
  - unfold ei_x_encode_atom, ei_x_encode_atom_len_as, x_encode, ei_encode_atom_len_as.
    replace (MAXATOMLEN <=? zlen s) with true by lia. done.
  - pose proof (ei_encode_atom_emits s Hs) as [He _]. specialize (He i). revert He.
    unfold atom_bytes. assert (zlen (take 255 s) = 255) as Hz.
    { unfold zlen, MAXATOMLEN in *. rewrite length_take. lia. }
    rewrite Hz. closed_tests. cbn [andb]. change (MAXATOMLEN <=? 255) with false. cbn [andb]. cbv iota.
    rewrite latin1_fast_track by (by apply Forall_take).
    destruct (latin1_loop_fits (take 255 s) 0 (MAXATOMLEN_UTF8 - 1)) as (o & f & ->).
    { rewrite Hz. unfold MAXATOMLEN_UTF8. lia. }
    eauto.
Qed.

Lemma ei_x_encode_atom_long_witness :
  let x := {| x_buff := Some []; x_buffsz := 0; x_index := 0 |} in
  ei_x_encode_atom (fun _ => true) (fun n => replicate n 0) x (replicate 300 97) = XErr x /\
  exists j, ei_encode_atom None 0 (replicate 300 97) = EOk None j.
Proof.
  intros x. apply (ei_x_encode_atom_long (fun _ => true) (fun n => replicate n 0) x (replicate 300 97) 0).
  - apply Forall_replicate. unfold byte_ok. lia.
  - vm_compute. congruence.
Defined.
