(* ===== verification/EiPort.v ===== *)
(** * Transfers over a socket: [ei_read_fill_ctx_t__], [ei_write_fill_ctx_t__]
    and [ei_writev_fill_ctx_t__] of [misc/ei_portio.c]

    The loops that read or write a whole buffer over a socket that may transfer
    any part of it at a time.  What the socket does is a script: the results of
    the calls of [read_ctx_t__], [write_ctx_t__] and [writev_ctx_t__] in their
    order. *)
From S2P Require Import Prelude PutGet.

Definition EINTR : Z := 4.
Definition EIO : Z := 5.
Definition ENOMEM : Z := 12.

(** ** The code *)

(** Results of [write_ctx_t__] and [read_ctx_t__]; an error is not 0. *)
Inductive cwrite := CWrote (n : Z) | CWErr (e : Z).
Inductive cread := CRead (bs : list Z) | CRErr (e : Z).

(** The error (0: none), the bytes that were written, and the results not used;
    [None] while the loop has not ended. *)
Fixpoint ei_write_fill (ws : list cwrite) (buf : list Z) : option (Z * list Z * list cwrite) :=
  match ws with
  | [] => None
  | CWErr e :: ws => if e =? 0 then None else Some (e, [], ws)
  | CWrote n :: ws =>
      if (n <? 0) || (zlen buf <? n) then None
      else if n <? zlen buf then
        match ei_write_fill ws (drop (Z.to_nat n) buf) with
        | Some (e, sent, ws) => Some (e, take (Z.to_nat n) buf ++ sent, ws)
        | None => None
        end
      else Some (0, buf, ws)
  end.

(** [while (i > 0)]: move the first [i] bytes out of the vector of buffers. *)
Fixpoint iov_advance (i : Z) (iov : list (list Z)) : option (list (list Z)) :=
  if i <=? 0 then Some iov
  else
    match iov with
    | [] => None
    | b :: iov =>
        if i <? zlen b then Some (drop (Z.to_nat i) b :: iov)
        else iov_advance (i - zlen b) iov
    end.

(** [sum] and [done] are the variables of the code; [alloc]: the memory for a
    copy of the vector is granted. *)
Fixpoint writev_loop (alloc : bool) (ws : list cwrite) (iov : list (list Z)) (sum done : Z)
  : option (Z * list Z * list cwrite) :=
  match ws with
  | [] => None
  | CWErr e :: ws => if e =? 0 then None else Some (e, [], ws)
  | CWrote i :: ws =>
      if (i <? 0) || (zlen (concat iov) <? i) then None
      else
        let sent := take (Z.to_nat i) (concat iov) in
        let done := done + i in
        if done <? sum then
          if negb alloc then Some (ENOMEM, sent, ws)
          else
            match iov_advance i iov with
            | None => None
            | Some iov =>
                match writev_loop alloc ws iov sum done with
                | Some (e, l, ws) => Some (e, sent ++ l, ws)
                | None => None
                end
            end
        else Some (0, sent, ws)
  end.

Definition iov_sum (iov : list (list Z)) : Z := fold_left (fun sum b => sum + zlen b) iov 0.

Definition ei_writev_fill (alloc : bool) (ws : list cwrite) (iov : list (list Z)) : option (Z * list Z * list cwrite) :=
  writev_loop alloc ws iov (iov_sum iov) 0.

(** The error, the bytes that were read ([*len] of them, when there is no error)
    and the results not used. *)
Fixpoint ei_read_fill (rs : list cread) (want : Z) : option (Z * list Z * list cread) :=
  match rs with
  | [] => None
  | CRErr e :: rs =>
      if e =? EINTR then ei_read_fill rs want else if e =? 0 then None else Some (e, [], rs)
  | CRead bs :: rs =>
      let got := take (Z.to_nat want) bs in
      if zlen got =? 0 then Some (0, [], rs)
      else if zlen got <? want then
        match ei_read_fill rs (want - zlen got) with
        | Some (e, l, rs) => Some (e, got ++ l, rs)
        | None => None
        end
      else Some (0, got, rs)
  end.

(** ** Writing *)

Lemma ei_write_fill_all ws buf sent rest : ei_write_fill ws buf = Some (0, sent, rest) -> sent = buf.
Proof.
  revert buf sent rest. induction ws as [|[n|e] ws IH]; intros buf sent rest; cbn [ei_write_fill]; [done| |].
  - destruct (_ || _); [done|]. destruct (n <? zlen buf); [|by intros [= <-]].
    destruct (ei_write_fill ws _) as [[[e l] ws']|] eqn:E; [|done]. intros [= -> <- <-]. apply IH in E as ->. apply take_drop.
  - by destruct (Z.eqb_spec e 0) as [->|]; [|intros [= -> <-]].
Qed.

Lemma iov_sum_concat (iov : list (list Z)) acc : fold_left (fun sum b => sum + zlen b) iov acc = acc + zlen (concat iov).
Proof.
  revert acc. induction iov as [|b iov IH]; intros acc; cbn [fold_left concat]; [rewrite zlen_nil; lia|].
  rewrite IH, zlen_app. lia.
Qed.

Lemma iov_advance_concat i iov :
  0 <= i <= zlen (concat iov) ->
  exists iov', iov_advance i iov = Some iov' /\ concat iov' = drop (Z.to_nat i) (concat iov).
Proof.
  revert i. induction iov as [|b iov IH]; intros i Hi; cbn [iov_advance concat] in *.
  - assert (i = 0) as -> by (change (zlen _) with 0 in Hi; lia). exists []. split; [done|]. by rewrite drop_nil.
  - destruct (Z.leb_spec i 0) as [H0|H0]; [exists (b :: iov); split; [done|]; by replace (Z.to_nat i) with 0%nat by lia|].
    rewrite zlen_app in Hi. destruct (Z.ltb_spec i (zlen b)) as [H1|H1].
    + eexists. split; [done|]. cbn [concat]. rewrite drop_app_le by (unfold zlen in *; lia). done.
    + destruct (IH (i - zlen b)) as (iov' & E & Hc); [lia|]. exists iov'. split; [done|]. rewrite Hc.
      rewrite drop_app_ge by (unfold zlen in *; lia). f_equal. unfold zlen. lia.
Qed.

Lemma writev_loop_equiv ws iov sum dn :
  sum = dn + zlen (concat iov) -> writev_loop true ws iov sum dn = ei_write_fill ws (concat iov).
Proof.
  revert iov dn. induction ws as [|[n|e] ws IH]; intros iov dn Hs; cbn [writev_loop ei_write_fill]; [done| |done].
  destruct ((n <? 0) || (zlen (concat iov) <? n)) eqn:Hn; [done|].
  replace (dn + n <? sum) with (n <? zlen (concat iov)) by (apply eq_true_iff_eq; rewrite !Z.ltb_lt; lia).
  destruct (Z.ltb_spec n (zlen (concat iov))) as [Hl|Hl].
  - cbn [negb]. destruct (iov_advance_concat n iov) as (iov' & -> & Hc); [lia|]. rewrite IH, Hc; [done|].
    rewrite Hc. unfold zlen in *. rewrite length_drop. lia.
  - rewrite take_ge by (unfold zlen in *; lia). done.
Qed.

(** A failure to allocate is an error; without one, the allocation does not matter. *)
Lemma writev_loop_alloc alloc ws iov sum dn sent rest :
  writev_loop alloc ws iov sum dn = Some (0, sent, rest) -> writev_loop true ws iov sum dn = Some (0, sent, rest).
Proof.
  revert iov dn sent rest. induction ws as [|[n|e] ws IH]; intros iov dn sent rest; cbn [writev_loop]; [done| |done].
  destruct (_ || _); [done|]. destruct (_ <? _); [|done]. destruct alloc; [done|]. cbn [negb]. done.
Qed.

Lemma ei_writev_fill_all alloc ws iov sent rest :
  ei_writev_fill alloc ws iov = Some (0, sent, rest) -> sent = concat iov.
Proof.
  unfold ei_writev_fill, iov_sum. rewrite iov_sum_concat. intros H%writev_loop_alloc.
  rewrite writev_loop_equiv in H by done. by apply ei_write_fill_all in H.
Qed.

(** ** Reading *)

(** The bytes arrive in any number of non-empty pieces. *)
Lemma ei_read_fill_chunks chunks rs :
  chunks <> [] -> Forall (fun l => l <> []) chunks ->
  ei_read_fill (map CRead chunks ++ rs) (zlen (concat chunks)) = Some (0, concat chunks, rs).
Proof.
  intros Hn Hc. revert Hn. induction Hc as [|l chunks Hl Hc IH]; intros Hn; [done|].
  cbn [map app ei_read_fill concat].
  assert (take (Z.to_nat (zlen (l ++ concat chunks))) l = l) as ->.
  { apply take_ge. unfold zlen. rewrite length_app. lia. }
  assert (0 < zlen l) by (destruct l; [done|unfold zlen; cbn; lia]).
  replace (zlen l =? 0) with false by lia. rewrite zlen_app.
  destruct chunks as [|l2 chunks].
  - cbn [concat map app]. rewrite zlen_nil, app_nil_r. by replace (zlen l <? zlen l + 0) with false by lia.
  - assert (0 < zlen (concat (l2 :: chunks))).
    { apply Forall_cons_iff in Hc as [Hl2 _]. cbn [concat]. rewrite zlen_app. pose proof (zlen_nonneg (concat chunks)).
      destruct l2; [done|]. rewrite zlen_cons. pose proof (zlen_nonneg l2). lia. }
    destruct (Z.ltb_spec (zlen l) (zlen l + zlen (concat (l2 :: chunks)))); [|lia].
    replace (zlen l + zlen (concat (l2 :: chunks)) - zlen l) with (zlen (concat (l2 :: chunks))) by lia.
    by rewrite IH.
Qed.

Lemma ei_read_fill_length rs want e bs rs' :
  0 <= want -> ei_read_fill rs want = Some (e, bs, rs') -> zlen bs <= want.
Proof.
  revert want e bs rs'. induction rs as [|[l|e1] rs IH]; intros want e bs rs' Hw; cbn [ei_read_fill]; [done| |].
  - assert (zlen (take (Z.to_nat want) l) <= want) by (unfold zlen; rewrite length_take; lia).
    destruct (zlen (take (Z.to_nat want) l) =? 0); [intros [= _ <- _]; by rewrite zlen_nil|].
    destruct (_ <? _); [|by intros [= _ <- _]].
    destruct (ei_read_fill rs _) as [[[e2 l2] rs2]|] eqn:E; [|done]. intros [= _ <- _]. apply IH in E; [|lia]. rewrite zlen_app. lia.
  - destruct (e1 =? EINTR); [by apply IH|]. destruct (e1 =? 0); [done|]. intros [= _ <- _]. by rewrite zlen_nil.
Qed.

(** Asked for as many bytes as [bs] has, the socket hands out [bs]. *)
Definition delivers (rs : list cread) (bs : list Z) (rs' : list cread) : Prop :=
  ei_read_fill rs (zlen bs) = Some (0, bs, rs').

(** What is left of the script is its end. *)
Lemma ei_read_fill_suffix rs want e bs rs' : ei_read_fill rs want = Some (e, bs, rs') -> rs' `suffix_of` rs.
Proof.
  revert want e bs rs'. induction rs as [|[l|e1] rs IH]; intros want e bs rs'; cbn [ei_read_fill]; [done| |].
  - destruct (zlen _ =? 0); [intros [= _ _ <-]; by apply suffix_cons_r|].
    destruct (_ <? _); [|intros [= _ _ <-]; by apply suffix_cons_r].
    destruct (ei_read_fill rs _) as [[[e2 l2] rs2]|] eqn:E; [|done]. intros [= _ _ <-]. apply IH in E. by apply suffix_cons_r.
  - destruct (e1 =? EINTR); [intros E%IH; by apply suffix_cons_r|]. destruct (e1 =? 0); [done|].
    intros [= _ _ <-]. by apply suffix_cons_r.
Qed.

(** ** Properties *)

(** Writing a vector of buffers over a socket that takes any part of it at
    a time, [ei_writev_fill_ctx_t__] sends and returns what
    [ei_write_fill_ctx_t__] does for one buffer with the concatenated contents:
    no byte is lost, repeated or reordered at the borders of the buffers. *)
Theorem writev_equiv_write ws iov :
  ei_writev_fill true ws iov = ei_write_fill ws (concat iov).
Proof. unfold ei_writev_fill, iov_sum. rewrite iov_sum_concat. by apply writev_loop_equiv. Qed.
