(* ===== verification/EpmdStr.v ===== *)
(** * Strings of [epmd_srv.c]: [is_same_str], [copy_str], [length_str],
    [verify_utf8] and the [int16]/[int32] macros of [epmd_int.h]; the texts of
    [printf] *)
From S2P Require Import Prelude PutGet.
From Stdlib Require Import Ascii.
From Stdlib Require String.
Import String.StringSyntax.
Delimit Scope string_scope with string.

Definition MAXSYMLEN : Z := 255 * 4.
Definition INBUF_SIZE : Z := 3 * MAXSYMLEN.
Definition OUTBUF_SIZE : Z := 3 * MAXSYMLEN.

(** ** Macros *)

Definition get_int16 (m : mem) (s : Z) : option Z :=
  match mem_get m s, mem_get m (s + 1) with
  | Some b0, Some b1 => Some (Z.lor (Z.shiftl b0 8) b1)
  | _, _ => None
  end.

Definition put_int16 (i : Z) : list Z := [Z.land (Z.shiftr i 8) 0xff; Z.land i 0xff].

Definition put_int32 (i : Z) : list Z :=
  [Z.land (Z.shiftr i 24) 0xff; Z.land (Z.shiftr i 16) 0xff; Z.land (Z.shiftr i 8) 0xff; Z.land i 0xff].

(** ** Text *)

(** The characters of a string literal. *)
Definition str (s : String.string) : list Z := map (fun c => Z.of_N (N_of_ascii c)) (String.list_ascii_of_string s).

(** [%d] of an [int]. *)
Fixpoint dec_loop (fuel : nat) (n : Z) (acc : list Z) : list Z :=
  match fuel with
  | O => acc
  | S fuel =>
      let acc := (48 + n mod 10) :: acc in
      if n / 10 =? 0 then acc else dec_loop fuel (n / 10) acc
  end.
Definition dec (n : Z) : list Z := if n <? 0 then 45 :: dec_loop 10 (- n) [] else dec_loop 10 n [].

Lemma dec_loop_len fuel n acc : zlen (dec_loop fuel n acc) <= zlen acc + Z.of_nat fuel.
Proof.
  revert n acc. induction fuel as [|fuel IH]; intros n acc; cbn [dec_loop]; [zlen_lia|].
  destruct (_ =? 0); [zlen_lia|]. specialize (IH (n / 10) ((48 + n mod 10) :: acc)). zlen_lia.
Qed.

Lemma dec_len n : zlen (dec n) <= 11.
Proof.
  unfold dec. pose proof (dec_loop_len 10 (- n) []). pose proof (dec_loop_len 10 n []).
  destruct (n <? 0); zlen_lia.
Qed.

(** ** C strings

    The three loops run over memory and stop at a NUL; [None] is a read past
    the end of the block. *)

Fixpoint is_same_str (x y : mem) : option bool :=
  match x, y with
  | a :: x, b :: y =>
      if a =? b then if a =? 0 then Some true else is_same_str x y
      else Some false
  | _, _ => None
  end.

Fixpoint length_str (x : mem) : option Z :=
  match x with
  | [] => None
  | a :: x => if a =? 0 then Some 0 else match length_str x with Some n => Some (n + 1) | None => None end
  end.

(** The bytes stored at [x], the NUL included, and the length returned. *)
Fixpoint copy_str (y : mem) : option (list Z * Z) :=
  match y with
  | [] => None
  | a :: y =>
      if a =? 0 then Some ([0], 0)
      else match copy_str y with Some (l, n) => Some (a :: l, n + 1) | None => None end
  end.

(** The contents of the C string at the start of a block. *)
Fixpoint cstr (m : mem) : list Z :=
  match m with
  | [] => []
  | a :: m => if a =? 0 then [] else a :: cstr m
  end.

(** ** [verify_utf8] *)

(** One character at the start of [source]: the number of its bytes, [None] for
    [return -1]. *)
Definition utf8_char (source : list Z) : option nat :=
  match source with
  | [] => None
  | c :: r =>
      if Z.land c 0x80 =? 0 then Some 1%nat
      else if Z.land c 0xE0 =? 0xC0 then
        match r with
        | c1 :: _ =>
            if negb (Z.land c1 0xC0 =? 0x80) || (c <? 0xC2) then None else Some 2%nat
        | _ => None
        end
      else if Z.land c 0xF0 =? 0xE0 then
        match r with
        | c1 :: c2 :: _ =>
            if negb (Z.land c1 0xC0 =? 0x80) || negb (Z.land c2 0xC0 =? 0x80)
               || ((c =? 0xE0) && (c1 <? 0xA0)) then None
            else if (Z.land c 0xF =? 0xD) && negb (Z.land c1 0x20 =? 0) then None
            else Some 3%nat
        | _ => None
        end
      else if Z.land c 0xF8 =? 0xF0 then
        match r with
        | c1 :: c2 :: c3 :: _ =>
            if negb (Z.land c1 0xC0 =? 0x80) || negb (Z.land c2 0xC0 =? 0x80) || negb (Z.land c3 0xC0 =? 0x80)
               || ((c =? 0xF0) && (c1 <? 0x90)) then None
            else if (4 <? Z.land c 0x7) || ((Z.land c 0x7 =? 4) && (0xF <? Z.land c1 0x3F)) then None
            else Some 4%nat
        | _ => None
        end
      else None
  end.

(** The loop, on the [size] bytes that are left; [fuel] bounds their number. *)
Fixpoint utf8_loop (fuel : nat) (source : list Z) (null_term : bool) (num_chars : Z) : Z :=
  match source, fuel with
  | [], _ => num_chars
  | _, O => num_chars
  | c :: _, S fuel =>
      if null_term && (c =? 0) then num_chars
      else match utf8_char source with
        | None => -1
        | Some n => utf8_loop fuel (drop n source) null_term (num_chars + 1)
        end
  end.

(** [src] is the [sz] bytes at the pointer. *)
Definition verify_utf8 (src : list Z) (null_term : bool) : Z :=
  utf8_loop (length src) src null_term 0.

(** ** The string loops compute equality, length and copy *)

Definition nul_free (s : list Z) : Prop := Forall (fun c => c <> 0) s.

Lemma is_same_str_spec s t r r' :
  nul_free s -> nul_free t ->
  is_same_str (s ++ 0 :: r) (t ++ 0 :: r') = Some (bool_decide (s = t)).
Proof.
  intros Hs. revert t. induction Hs as [|a s Ha Hs IH]; intros [|b t] Ht; cbn [app is_same_str].
  - done.
  - apply Forall_cons_iff in Ht as [Hb _]. by destruct (Z.eqb_spec 0 b).
  - by destruct (Z.eqb_spec a 0).
  - apply Forall_cons_iff in Ht as [Hb Ht]. destruct (Z.eqb_spec a b) as [->|Hab].
    + destruct (Z.eqb_spec b 0); [done|]. rewrite IH by done. f_equal. apply bool_decide_ext.
      split; [by intros ->|by intros [= ->]].
    + rewrite bool_decide_eq_false_2; [done|]. by intros [= -> _].
Qed.

Lemma length_str_spec s r : nul_free s -> length_str (s ++ 0 :: r) = Some (zlen s).
Proof.
  induction 1 as [|a s Ha Hs IH]; cbn [app length_str]; [done|].
  destruct (Z.eqb_spec a 0); [done|]. rewrite IH. f_equal. zlen_lia.
Qed.

Lemma copy_str_spec s r : nul_free s -> copy_str (s ++ 0 :: r) = Some (s ++ [0], zlen s).
Proof.
  induction 1 as [|a s Ha Hs IH]; cbn [app copy_str]; [done|].
  destruct (Z.eqb_spec a 0); [done|]. rewrite IH. do 2 f_equal. zlen_lia.
Qed.

Lemma cstr_spec s r : nul_free s -> cstr (s ++ 0 :: r) = s.
Proof.
  induction 1 as [|a s Ha Hs IH]; cbn [app cstr]; [done|]. destruct (Z.eqb_spec a 0); [done|]. by rewrite IH.
Qed.

Lemma cstr_nul_free m : nul_free (cstr m).
Proof. induction m as [|a m IH]; cbn [cstr]; [constructor|]. destruct (Z.eqb_spec a 0); [constructor|]. by constructor. Qed.

(** ** [verify_utf8] accepts exactly UTF-8 *)

(** The Unicode scalar values and their UTF-8 form. *)
Definition scalar_value (cp : Z) : Prop := 0 <= cp < 0xD800 \/ 0xE000 <= cp < 0x110000.

Definition utf8_encode (cp : Z) : list Z :=
  if cp <? 0x80 then [cp]
  else if cp <? 0x800 then [0xC0 + cp / 64; 0x80 + cp mod 64]
  else if cp <? 0x10000 then [0xE0 + cp / 4096; 0x80 + (cp / 64) mod 64; 0x80 + cp mod 64]
  else [0xF0 + cp / 262144; 0x80 + (cp / 4096) mod 64; 0x80 + (cp / 64) mod 64; 0x80 + cp mod 64].

(** What the masks of the code say of a byte. *)
Lemma mask_80 c : byte_ok c -> (Z.land c 0x80 =? 0) = (c <? 0x80).
Proof.
  intros H. apply eqb_prop. revert c H.
  apply (byte_forall (fun c => Bool.eqb (Z.land c 0x80 =? 0) (c <? 0x80))). vm_compute. reflexivity.
Qed.
Lemma mask_E0 c : byte_ok c -> (Z.land c 0xE0 =? 0xC0) = (0xC0 <=? c) && (c <? 0xE0).
Proof.
  intros H. apply eqb_prop. revert c H.
  apply (byte_forall (fun c => Bool.eqb (Z.land c 0xE0 =? 0xC0) ((0xC0 <=? c) && (c <? 0xE0)))). vm_compute. reflexivity.
Qed.
Lemma mask_F0 c : byte_ok c -> (Z.land c 0xF0 =? 0xE0) = (0xE0 <=? c) && (c <? 0xF0).
Proof.
  intros H. apply eqb_prop. revert c H.
  apply (byte_forall (fun c => Bool.eqb (Z.land c 0xF0 =? 0xE0) ((0xE0 <=? c) && (c <? 0xF0)))). vm_compute. reflexivity.
Qed.
Lemma mask_F8 c : byte_ok c -> (Z.land c 0xF8 =? 0xF0) = (0xF0 <=? c) && (c <? 0xF8).
Proof.
  intros H. apply eqb_prop. revert c H.
  apply (byte_forall (fun c => Bool.eqb (Z.land c 0xF8 =? 0xF0) ((0xF0 <=? c) && (c <? 0xF8)))). vm_compute. reflexivity.
Qed.
Lemma mask_C0 c : byte_ok c -> (Z.land c 0xC0 =? 0x80) = (0x80 <=? c) && (c <? 0xC0).
Proof.
  intros H. apply eqb_prop. revert c H.
  apply (byte_forall (fun c => Bool.eqb (Z.land c 0xC0 =? 0x80) ((0x80 <=? c) && (c <? 0xC0)))). vm_compute. reflexivity.
Qed.
Lemma mask_F c : byte_ok c -> Z.land c 0xF = c mod 16.
Proof. intros _. change 0xF with (Z.ones 4). rewrite Z.land_ones by lia. done. Qed.
Lemma mask_7 c : byte_ok c -> Z.land c 0x7 = c mod 8.
Proof. intros _. change 0x7 with (Z.ones 3). rewrite Z.land_ones by lia. done. Qed.
Lemma mask_3F c : byte_ok c -> Z.land c 0x3F = c mod 64.
Proof. intros _. change 0x3F with (Z.ones 6). rewrite Z.land_ones by lia. done. Qed.
Lemma mask_20 c : byte_ok c -> (Z.land c 0x20 =? 0) = (c mod 64 <? 32).
Proof.
  intros H. apply eqb_prop. revert c H.
  apply (byte_forall (fun c => Bool.eqb (Z.land c 0x20 =? 0) (c mod 64 <? 32))). vm_compute. reflexivity.
Qed.

(** Linear arithmetic with division and remainder by constants. *)
Ltac div_lia := Z.div_mod_to_equations; lia.

Ltac ltb_case a b := destruct (Z.ltb_spec a b); try lia.

Lemma utf8_encode_2 c c1 :
  0xC2 <= c < 0xE0 -> 0x80 <= c1 < 0xC0 ->
  let cp := (c - 0xC0) * 64 + (c1 - 0x80) in scalar_value cp /\ utf8_encode cp = [c; c1].
Proof.
  intros H H1 cp. split; [unfold scalar_value; lia|]. unfold utf8_encode.
  ltb_case cp 0x80. ltb_case cp 0x800. subst cp. repeat f_equal; div_lia.
Qed.

Lemma utf8_encode_3 c c1 c2 :
  0xE0 <= c < 0xF0 -> 0x80 <= c1 < 0xC0 -> 0x80 <= c2 < 0xC0 ->
  (c = 0xE0 -> 0xA0 <= c1) -> (c = 0xED -> c1 < 0xA0) ->
  let cp := (c - 0xE0) * 4096 + (c1 - 0x80) * 64 + (c2 - 0x80) in
  scalar_value cp /\ utf8_encode cp = [c; c1; c2].
Proof.
  intros H H1 H2 Ho Hs cp. split; [unfold scalar_value; lia|]. unfold utf8_encode.
  ltb_case cp 0x80. ltb_case cp 0x800. ltb_case cp 0x10000. subst cp. repeat f_equal; div_lia.
Qed.

Lemma utf8_encode_4 c c1 c2 c3 :
  0xF0 <= c <= 0xF4 -> 0x80 <= c1 < 0xC0 -> 0x80 <= c2 < 0xC0 -> 0x80 <= c3 < 0xC0 ->
  (c = 0xF0 -> 0x90 <= c1) -> (c = 0xF4 -> c1 < 0x90) ->
  let cp := (c - 0xF0) * 262144 + (c1 - 0x80) * 4096 + (c2 - 0x80) * 64 + (c3 - 0x80) in
  scalar_value cp /\ utf8_encode cp = [c; c1; c2; c3].
Proof.
  intros H H1 H2 H3 Ho Hs cp. split; [unfold scalar_value; lia|]. unfold utf8_encode.
  ltb_case cp 0x80. ltb_case cp 0x800. ltb_case cp 0x10000. subst cp. repeat f_equal; div_lia.
Qed.

Lemma utf8_char_sound src n :
  bytes_ok src -> utf8_char src = Some n ->
  exists cp, scalar_value cp /\ utf8_encode cp = take n src /\ (n <= length src)%nat /\ (1 <= n)%nat.
Proof.
  intros Hok. destruct src as [|c r]; [done|]. apply Forall_cons_iff in Hok as [Hc Hr].
  cbn [utf8_char]. rewrite mask_80, mask_E0, mask_F0, mask_F8 by done. unfold byte_ok in Hc.
  destruct (Z.ltb_spec c 0x80).
  { intros [= <-]. exists c. split; [unfold scalar_value; lia|]. unfold utf8_encode.
    ltb_case c 0x80. cbn. rewrite take_0. repeat split; lia. }
  destruct (Z.leb_spec 0xC0 c), (Z.ltb_spec c 0xE0); cbn [andb]; try (exfalso; lia).
  { destruct r as [|c1 r]; [done|]. apply Forall_cons_iff in Hr as [K1 _]. rewrite mask_C0 by done.
    unfold byte_ok in K1.
    destruct (Z.leb_spec 0x80 c1), (Z.ltb_spec c1 0xC0), (Z.ltb_spec c 0xC2); try done. intros [= <-].
    destruct (utf8_encode_2 c c1) as [Hs He]; [lia..|]. eexists. split; [exact Hs|]. rewrite He.
    cbn. rewrite take_0. repeat split; lia. }
  2:{ replace (0xE0 <=? c) with false by lia. by replace (0xF0 <=? c) with false by lia. }
  destruct (Z.leb_spec 0xE0 c); [|lia]. destruct (Z.ltb_spec c 0xF0); cbn [andb].
  { destruct r as [|c1 [|c2 r]]; [done..|]. apply Forall_cons_iff in Hr as [K1 Hr].
    apply Forall_cons_iff in Hr as [K2 _]. rewrite !mask_C0, mask_F, mask_20 by done. unfold byte_ok in K1, K2.
    destruct (Z.leb_spec 0x80 c1), (Z.ltb_spec c1 0xC0), (Z.leb_spec 0x80 c2), (Z.ltb_spec c2 0xC0); try done.
    cbn [andb negb orb].
    destruct (Z.eqb_spec c 0xE0), (Z.ltb_spec c1 0xA0); cbn [andb]; try done;
      destruct (Z.eqb_spec (c mod 16) 0xD), (Z.ltb_spec (c1 mod 64) 32); cbn [andb negb]; try done; intros [= <-];
      (destruct (utf8_encode_3 c c1 c2) as [Hs He]; [div_lia..|]; eexists; split; [exact Hs|]; rewrite He;
       cbn; rewrite take_0; repeat split; lia). }
  destruct (Z.leb_spec 0xF0 c); [|lia]. destruct (Z.ltb_spec c 0xF8); cbn [andb]; [|done].
  destruct r as [|c1 [|c2 [|c3 r]]]; [done..|]. apply Forall_cons_iff in Hr as [K1 Hr].
  apply Forall_cons_iff in Hr as [K2 Hr]. apply Forall_cons_iff in Hr as [K3 _].
  rewrite !mask_C0, mask_7, mask_3F by done. unfold byte_ok in K1, K2, K3.
  destruct (Z.leb_spec 0x80 c1), (Z.ltb_spec c1 0xC0), (Z.leb_spec 0x80 c2), (Z.ltb_spec c2 0xC0),
    (Z.leb_spec 0x80 c3), (Z.ltb_spec c3 0xC0); try done. cbn [andb negb orb].
  destruct (Z.eqb_spec c 0xF0), (Z.ltb_spec c1 0x90); cbn [andb]; try done;
    destruct (Z.ltb_spec 4 (c mod 8)); cbn [orb]; try done;
    destruct (Z.eqb_spec (c mod 8) 4), (Z.ltb_spec 0xF (c1 mod 64)); cbn [andb]; try done; intros [= <-];
    (destruct (utf8_encode_4 c c1 c2 c3) as [Hs He]; [div_lia..|]; eexists; split; [exact Hs|]; rewrite He;
     cbn; rewrite take_0; repeat split; lia).
Qed.

Lemma utf8_char_complete cp r :
  scalar_value cp ->
  utf8_char (utf8_encode cp ++ r) = Some (length (utf8_encode cp)) /\ bytes_ok (utf8_encode cp) /\
  (1 <= length (utf8_encode cp))%nat.
Proof.
  intros Hs. unfold scalar_value in Hs. unfold utf8_encode.
  destruct (Z.ltb_spec cp 0x80) as [L1|L1]; [|destruct (Z.ltb_spec cp 0x800) as [L2|L2];
    [|destruct (Z.ltb_spec cp 0x10000) as [L3|L3]]]; cbn [app utf8_char length];
    (split; [|split; [repeat constructor; unfold byte_ok; div_lia|lia]]).
  - rewrite mask_80 by (unfold byte_ok; lia). by replace (cp <? 0x80) with true by lia.
  - assert (byte_ok (0xC0 + cp / 64)) as K by (unfold byte_ok; div_lia).
    assert (byte_ok (0x80 + cp mod 64)) as K1 by (unfold byte_ok; div_lia).
    rewrite mask_80, mask_E0, mask_C0 by done. clear K K1.
    replace (0xC0 + cp / 64 <? 0x80) with false by div_lia.
    replace ((0xC0 <=? 0xC0 + cp / 64) && (0xC0 + cp / 64 <? 0xE0)) with true by div_lia.
    replace ((0x80 <=? 0x80 + cp mod 64) && (0x80 + cp mod 64 <? 0xC0)) with true by div_lia.
    by replace (0xC0 + cp / 64 <? 0xC2) with false by div_lia.
  - assert (byte_ok (0xE0 + cp / 4096)) as K by (unfold byte_ok; div_lia).
    assert (byte_ok (0x80 + (cp / 64) mod 64)) as K1 by (unfold byte_ok; div_lia).
    assert (byte_ok (0x80 + cp mod 64)) as K2 by (unfold byte_ok; div_lia).
    rewrite mask_80, mask_E0, mask_F0, !mask_C0, mask_F, mask_20 by done. clear K K1 K2.
    replace (0xE0 + cp / 4096 <? 0x80) with false by div_lia.
    replace ((0xC0 <=? 0xE0 + cp / 4096) && (0xE0 + cp / 4096 <? 0xE0)) with false by div_lia.
    replace ((0xE0 <=? 0xE0 + cp / 4096) && (0xE0 + cp / 4096 <? 0xF0)) with true by div_lia.
    replace ((0x80 <=? 0x80 + (cp / 64) mod 64) && (0x80 + (cp / 64) mod 64 <? 0xC0)) with true by div_lia.
    replace ((0x80 <=? 0x80 + cp mod 64) && (0x80 + cp mod 64 <? 0xC0)) with true by div_lia.
    replace ((0xE0 + cp / 4096 =? 0xE0) && (0x80 + (cp / 64) mod 64 <? 0xA0)) with false by div_lia.
    cbn [negb orb andb].
    by replace (((0xE0 + cp / 4096) mod 16 =? 0xD) && negb ((0x80 + (cp / 64) mod 64) mod 64 <? 32))
      with false by div_lia.
  - assert (byte_ok (0xF0 + cp / 262144)) as K by (unfold byte_ok; div_lia).
    assert (byte_ok (0x80 + (cp / 4096) mod 64)) as K1 by (unfold byte_ok; div_lia).
    assert (byte_ok (0x80 + (cp / 64) mod 64)) as K2 by (unfold byte_ok; div_lia).
    assert (byte_ok (0x80 + cp mod 64)) as K3 by (unfold byte_ok; div_lia).
    rewrite mask_80, mask_E0, mask_F0, mask_F8, !mask_C0, mask_7, mask_3F by done. clear K K1 K2 K3.
    replace (0xF0 + cp / 262144 <? 0x80) with false by div_lia.
    replace ((0xC0 <=? 0xF0 + cp / 262144) && (0xF0 + cp / 262144 <? 0xE0)) with false by div_lia.
    replace ((0xE0 <=? 0xF0 + cp / 262144) && (0xF0 + cp / 262144 <? 0xF0)) with false by div_lia.
    replace ((0xF0 <=? 0xF0 + cp / 262144) && (0xF0 + cp / 262144 <? 0xF8)) with true by div_lia.
    replace ((0x80 <=? 0x80 + (cp / 4096) mod 64) && (0x80 + (cp / 4096) mod 64 <? 0xC0)) with true by div_lia.
    replace ((0x80 <=? 0x80 + (cp / 64) mod 64) && (0x80 + (cp / 64) mod 64 <? 0xC0)) with true by div_lia.
    replace ((0x80 <=? 0x80 + cp mod 64) && (0x80 + cp mod 64 <? 0xC0)) with true by div_lia.
    replace ((0xF0 + cp / 262144 =? 0xF0) && (0x80 + (cp / 4096) mod 64 <? 0x90)) with false by div_lia.
    cbn [negb orb andb].
    replace (4 <? (0xF0 + cp / 262144) mod 8) with false by div_lia. cbn [orb].
    by replace (((0xF0 + cp / 262144) mod 8 =? 4) && (0xF <? (0x80 + (cp / 4096) mod 64) mod 64))
      with false by div_lia.
Qed.

Definition utf8_text (cps : list Z) : list Z := concat (map utf8_encode cps).

Lemma utf8_loop_complete cps fuel k :
  Forall scalar_value cps -> (length (utf8_text cps) <= fuel)%nat ->
  utf8_loop fuel (utf8_text cps) false k = k + zlen cps.
Proof.
  intros H. revert fuel k. induction H as [|cp cps Hcp Hcps IH]; intros fuel k Hf.
  - destruct fuel; cbn; change (zlen (@nil Z)) with 0; lia.
  - change (utf8_text (cp :: cps)) with (utf8_encode cp ++ utf8_text cps) in *.
    destruct (utf8_char_complete cp (utf8_text cps) Hcp) as (Hc & _ & Hl).
    rewrite length_app in Hf. destruct fuel as [|fuel]; [lia|].
    destruct (utf8_encode cp ++ utf8_text cps) as [|c r] eqn:E.
    { apply (f_equal length) in E. rewrite length_app in E. cbn in E. lia. }
    cbn [utf8_loop andb]. rewrite Hc, <- E, drop_app_length, IH by lia. zlen_lia.
Qed.

Lemma utf8_loop_sound fuel src k n :
  bytes_ok src -> (length src <= fuel)%nat -> 0 <= k ->
  utf8_loop fuel src false k = n -> 0 <= n ->
  exists cps, Forall scalar_value cps /\ src = utf8_text cps /\ n = k + zlen cps.
Proof.
  revert src k. induction fuel as [|fuel IH]; intros src k Hok Hf Hk Hn Hn0.
  - destruct src; [|cbn in Hf; lia]. cbn in Hn. exists []. repeat split; [constructor|].
    change (zlen (@nil Z)) with 0. lia.
  - destruct src as [|c r].
    { cbn in Hn. exists []. repeat split; [constructor|]. change (zlen (@nil Z)) with 0. lia. }
    cbn [utf8_loop andb] in Hn. destruct (utf8_char (c :: r)) as [len|] eqn:E; [|lia].
    destruct (utf8_char_sound _ _ Hok E) as (cp & Hcp & He & Hl1 & Hl2).
    destruct (IH (drop len (c :: r)) (k + 1)) as (cps & Hs & Htxt & Hlen);
      [by apply Forall_drop|rewrite length_drop; lia|lia|done|done|].
    exists (cp :: cps). split; [by constructor|]. split; [|zlen_lia].
    change (utf8_text (cp :: cps)) with (utf8_encode cp ++ utf8_text cps). rewrite He, <- Htxt.
    by rewrite take_drop.
Qed.

(** ** Properties *)

(** [verify_utf8] accepts exactly the well-formed UTF-8 strings (no overlong
    forms, no surrogates, nothing above U+10FFFF) and returns their number of
    characters; on anything else it returns -1. *)
Theorem verify_utf8_exact src :
  bytes_ok src ->
  (forall cps, Forall scalar_value cps -> src = utf8_text cps -> verify_utf8 src false = zlen cps) /\
  (0 <= verify_utf8 src false ->
     exists cps, Forall scalar_value cps /\ src = utf8_text cps /\ verify_utf8 src false = zlen cps).
Proof.
  intros Hok. split.
  - intros cps Hs ->. unfold verify_utf8. rewrite utf8_loop_complete by done. lia.
  - intros Hn. unfold verify_utf8 in *.
    destruct (utf8_loop_sound (length src) src 0 _ Hok (Nat.le_refl _) ltac:(lia) eq_refl Hn) as (cps & H1 & H2 & H3).
    exists cps. split; [done|]. split; [done|]. lia.
Qed.

Lemma verify_utf8_exact_witness :
  (forall cps, Forall scalar_value cps -> [97; 0xE2; 0x82; 0xAC] = utf8_text cps ->
     verify_utf8 [97; 0xE2; 0x82; 0xAC] false = zlen cps) /\
  verify_utf8 [97; 0xE2; 0x82; 0xAC] false = 2 /\ verify_utf8 [0xED; 0xA0; 0x80] false = -1.
Proof.
  split; [|split; vm_compute; reflexivity].
  apply (verify_utf8_exact [97; 0xE2; 0x82; 0xAC]). repeat constructor; unfold byte_ok; lia.
Defined.
