(* ===== verification/EiFormat.v ===== *)
(** * Formatted terms: [ei_format.c]

    [ei_x_format] builds a term from a text with directives for values, a bit
    like [printf].  The parser, and that a text written by the rules gives the
    external format of the term it stands for. *)
From S2P Require Import Prelude PutGet EiTypes EiInt EiAtom EiData EiBinary EiBig EiNode EiTerm EiX EpmdStr.
From Stdlib Require String.
Import String.StringSyntax.
Delimit Scope string_scope with string.

(** ** Characters *)

Definition isspace (c : Z) : bool := ((9 <=? c) && (c <=? 13)) || (c =? 32).
Definition isdigit (c : Z) : bool := (48 <=? c) && (c <=? 57).
Definition islower (c : Z) : bool := (97 <=? c) && (c <=? 122).
Definition isalnum (c : Z) : bool := isdigit c || islower c || ((65 <=? c) && (c <=? 90)).

(** [%ld]: the number at the beginning of the text, at most [LONG_MAX] and at
    least [LONG_MIN]. *)
Fixpoint scan_digits (p : list Z) (acc : Z) : Z :=
  match p with
  | c :: p => if isdigit c then scan_digits p (10 * acc + (c - 48)) else acc
  | [] => acc
  end.
Definition sscanf_ld (p : list Z) : Z :=
  let n := match p with
           | c :: q => if c =? 45 then - scan_digits q 0 else if c =? 43 then scan_digits q 0 else scan_digits p 0
           | [] => 0
           end in
  Z.max (- 2 ^ 63) (Z.min (2 ^ 63 - 1) n).

(** ** Arguments *)

Inductive arg :=
  | arg_c (c : Z) | arg_s (s : list Z) | arg_l (l : Z) | arg_u (u : Z) | arg_d (d : Z) | arg_pid (pid : erlang_pid).

(** What the caller passed. *)
Inductive va :=
  | va_int (n : Z) | va_str (s : list Z) | va_long (n : Z) | va_ulong (n : Z) | va_double (d : Z) | va_pid (p : erlang_pid).

(** ** The code

    A pointer into the text is what is left of the text, with the NUL at its
    end; [[]] is the end of the memory.  The outcomes: the value returned (it is
    not negative) with [*fmt], [*args] and [*x]; -1 with [*x]; an access outside of
    the text, of the arguments or of a buffer, or to a member of an argument that
    was not stored; the recursion was cut off. *)
Inductive fres :=
  | FOk (res : Z) (fmt : list Z) (args : list arg) (x : ei_x_buff)
  | FErr (x : ei_x_buff)
  | FOob
  | FFuel.

Definition fbind (r : fres) (k : Z -> list Z -> list arg -> ei_x_buff -> fres) : fres :=
  match r with FOk res p args x => k res p args x | _ => r end.

(** [while (isspace((int) *p)) ++p;] *)
Fixpoint skip_space (p : list Z) : option (list Z) :=
  match p with [] => None | c :: q => if isspace c then skip_space q else Some p end.

(** The result of an [ei_x_] function. *)
Definition of_x (r : xres) (p : list Z) (args : list arg) : fres :=
  match r with XOk x => FOk 0 p args x | XErr x => FErr x | XOob => FOob end.

Section Format.
Variable alloc : Z -> bool.
Variable junk : nat -> list Z.
(** [%lf], and the variable it leaves alone when there is no number. *)
Variable sscanf_lf : list Z -> option Z.
Variable junk_d : Z.

Fixpoint patom_loop (fmt : list Z) : option (list Z) :=
  match fmt with
  | [] => None
  | c :: p => if isalnum c || (c =? 95) || (c =? 64) then patom_loop p else Some fmt
  end.

Definition patom (fmt : list Z) (args : list arg) (x : ei_x_buff) : fres :=
  let start := fmt in
  match patom_loop fmt with
  | None => FOob
  | Some fmt =>
      let len := zlen start - zlen fmt in
      let len := if MAXATOMLEN <=? len then MAXATOMLEN - 1 else len in
      of_x (ei_x_encode_atom_len alloc junk x start len) fmt args
  end.

Fixpoint pdigit_loop (fmt : list Z) (dotp : bool) : option (list Z * bool) :=
  match fmt with
  | [] => None
  | c :: p =>
      if isdigit c then pdigit_loop p dotp
      else if negb dotp && (c =? 46) then pdigit_loop p true
      else Some (fmt, dotp)
  end.

Definition pdigit (fmt : list Z) (args : list arg) (x : ei_x_buff) : fres :=
  let start := fmt in
  match fmt with
  | [] => FOob
  | c :: p =>
      match pdigit_loop (if (c =? 45) || (c =? 43) then p else fmt) false with
      | None => FOob
      | Some (fmt, true) => of_x (ei_x_encode_double alloc junk x (default junk_d (sscanf_lf start))) fmt args
      | Some (fmt, false) => of_x (ei_x_encode_long alloc junk x (sscanf_ld start)) fmt args
      end
  end.

(** Up to the closing [quote]; [Some None] at the end of the text.  The
    character compared with a backslash is the quote itself. *)
Fixpoint quoted_loop (quote : Z) (fmt : list Z) : option (option (list Z)) :=
  match fmt with
  | [] => None
  | c :: p =>
      if c =? 0 then Some None
      else if c =? quote then (if c =? 92 then quoted_loop quote p else Some (Some p))
      else quoted_loop quote p
  end.

Definition pstring (fmt : list Z) (args : list arg) (x : ei_x_buff) : fres :=
  let start := drop 1 fmt in
  match quoted_loop 34 start with
  | None => FOob
  | Some None => FErr x
  | Some (Some fmt) => of_x (ei_x_encode_string_len alloc junk x start (zlen start - zlen fmt - 1)) fmt args
  end.

Definition pquotedatom (fmt : list Z) (args : list arg) (x : ei_x_buff) : fres :=
  let start := drop 1 fmt in
  match quoted_loop 39 start with
  | None => FOob
  | Some None => FErr x
  | Some (Some fmt) => of_x (ei_x_encode_atom_len alloc junk x start (zlen start - zlen fmt - 1)) fmt args
  end.

Definition pformat (fmt : list Z) (args : list arg) (x : ei_x_buff) : fres :=
  match drop 1 fmt with
  | [] => FOob
  | c :: fmt =>
      if c =? 97 then
        match args with arg_s s :: args => of_x (ei_x_encode_atom alloc junk x s) fmt args | _ => FOob end
      else if c =? 99 then
        match args with arg_c c :: args => of_x (ei_x_encode_char alloc junk x c) fmt args | _ => FOob end
      else if c =? 115 then
        match args with arg_s s :: args => of_x (ei_x_encode_string alloc junk x s) fmt args | _ => FOob end
      else if (c =? 105) || (c =? 108) then
        match args with arg_l l :: args => of_x (ei_x_encode_long alloc junk x l) fmt args | _ => FOob end
      else if c =? 117 then
        match args with arg_u u :: args => of_x (ei_x_encode_ulong alloc junk x u) fmt args | _ => FOob end
      else if (c =? 102) || (c =? 100) then
        match args with arg_d d :: args => of_x (ei_x_encode_double alloc junk x d) fmt args | _ => FOob end
      else if c =? 112 then
        match args with arg_pid pid :: args => of_x (ei_x_encode_pid alloc junk x pid) fmt args | _ => FOob end
      else FErr x
  end.

(** The elements go to a new buffer [x2], which is appended to [x] behind the
    header. *)
Definition into_new (build : ei_x_buff -> fres) (header : Z -> ei_x_buff -> xres) (x : ei_x_buff) : fres :=
  match ei_x_new alloc junk with
  | XOk x2 =>
      match build x2 with
      | FOk res p args x2 =>
          match header res x with
          | XOk x => of_x (ei_x_append alloc junk x x2) p args
          | r => of_x r p args
          end
      | FErr _ => FErr x
      | r => r
      end
  | XErr _ => FErr x
  | XOob => FOob
  end.

Definition list_header (n : Z) (x : ei_x_buff) : xres :=
  if 0 <? n then ei_x_encode_list_header alloc junk x n else XOk x.

(** The result of [ei_x_encode_empty_list] is not looked at. *)
Definition list_end (x : ei_x_buff) : option ei_x_buff :=
  match ei_x_encode_empty_list alloc junk x with XOk x | XErr x => Some x | XOob => None end.

(** The bodies of the functions that call each other; what they call are their
    parameters. *)
Section Bodies.
Variable eiformat : list Z -> list arg -> ei_x_buff -> fres.
Variable ptuple plist : list Z -> list arg -> ei_x_buff -> Z -> fres.
Variable pmap : list Z -> list arg -> ei_x_buff -> fres.
Variable pmap_loop : list Z -> list arg -> ei_x_buff -> Z -> fres.

(** [default] of the [switch]. *)
Definition eiformat_default (c : Z) (q : list Z) (args : list arg) (x : ei_x_buff) : fres :=
  let p := c :: q in
  if isdigit c then pdigit p args x
  else
    match q with
    | [] => if (c =? 45) || (c =? 43) then FOob else if islower c then patom p args x else FErr x
    | c1 :: _ =>
        if ((c =? 45) || (c =? 43)) && isdigit c1 then pdigit p args x
        else if islower c then patom p args x
        else FErr x
    end.

Definition eiformat_body (fmt : list Z) (args : list arg) (x : ei_x_buff) : fres :=
  match skip_space fmt with
  | None | Some [] => FOob
  | Some ((c :: q) as p) =>
      if c =? 126 then pformat p args x
      else if c =? 91 then into_new (fun x2 => plist p args x2 0) list_header x
      else if c =? 123 then into_new (fun x2 => ptuple p args x2 0) (fun n x => ei_x_encode_tuple_header alloc junk x n) x
      else if c =? 34 then pstring p args x
      else if c =? 39 then pquotedatom p args x
      else if c =? 35 then
        match q with
        | [] => FOob
        | c1 :: r =>
            if c1 =? 123 then into_new (fun x2 => pmap r args x2) (fun n x => ei_x_encode_map_header alloc junk x n) x
            else eiformat_default c q args x
        end
      else eiformat_default c q args x
  end.

Definition ptuple_body (fmt : list Z) (args : list arg) (x : ei_x_buff) (size : Z) : fres :=
  match fmt with
  | [] => FOob
  | after :: p =>
      if after =? 125 then FOk size p args x
      else
        match skip_space p with
        | None | Some [] => FOob
        | Some ((c :: q) as p) =>
            if c =? 125 then (if after =? 44 then FErr x else FOk size q args x)
            else if c =? 44 then (if (after =? 44) || (after =? 123) then FErr x else ptuple q args x size)
            else fbind (eiformat p args x) (fun _ p args x => ptuple p args x (size + 1))
        end
  end.

Definition plist_body (fmt : list Z) (args : list arg) (x : ei_x_buff) (size : Z) : fres :=
  match fmt with
  | [] => FOob
  | after :: q =>
      match skip_space (if after =? 93 then fmt else q) with
      | None | Some [] => FOob
      | Some ((c :: q) as p) =>
          if c =? 93 then
            (if after =? 44 then FErr x
             else if negb (after =? 124) then
               match list_end x with Some x => FOk size q args x | None => FOob end
             else FOk size q args x)
          else if (c =? 124) || (c =? 44) then
            (if (after =? 124) || (after =? 44) then FErr x else plist q args x size)
          else
            fbind (eiformat p args x) (fun res p args x =>
              if after =? 124 then
                match skip_space p with
                | None | Some [] => FOob
                | Some ((c :: _) as p) => if negb (c =? 93) then FErr x else FOk res p args x
                end
              else plist p args x (size + 1))
      end
  end.

Definition pmap_body (fmt : list Z) (args : list arg) (x : ei_x_buff) : fres :=
  match skip_space fmt with
  | None | Some [] => FOob
  | Some ((c :: q) as p) => if c =? 125 then FOk 0 q args x else pmap_loop p args x 0
  end.

(** One turn of [for (;;)]. *)
Definition pmap_turn (p : list Z) (args : list arg) (x : ei_x_buff) (size : Z) : fres :=
  fbind (eiformat p args x) (fun _ p args x =>
    match skip_space p with
    | None | Some [] => FOob
    | Some [c0] => if c0 =? 61 then FOob else FErr x
    | Some (c0 :: c1 :: p) =>
        if negb ((c0 =? 61) && (c1 =? 62)) then FErr x
        else
          fbind (eiformat p args x) (fun _ p args x =>
            let size := size + 1 in
            match skip_space p with
            | None | Some [] => FOob
            | Some (c :: q) =>
                if c =? 125 then FOk size q args x
                else if negb (c =? 44) then FErr x
                else match skip_space q with None => FOob | Some p => pmap_loop p args x size end
            end)
    end).
End Bodies.

Fixpoint eiformat (fuel : nat) (fmt : list Z) (args : list arg) (x : ei_x_buff) : fres :=
  match fuel with
  | O => FFuel
  | S fuel =>
      eiformat_body (fun p a x n => ptuple fuel p a x n) (fun p a x n => plist fuel p a x n) (fun p a x => pmap fuel p a x)
        fmt args x
  end
with ptuple (fuel : nat) (fmt : list Z) (args : list arg) (x : ei_x_buff) (size : Z) : fres :=
  match fuel with
  | O => FFuel
  | S fuel => ptuple_body (fun p a x => eiformat fuel p a x) (fun p a x n => ptuple fuel p a x n) fmt args x size
  end
with plist (fuel : nat) (fmt : list Z) (args : list arg) (x : ei_x_buff) (size : Z) : fres :=
  match fuel with
  | O => FFuel
  | S fuel => plist_body (fun p a x => eiformat fuel p a x) (fun p a x n => plist fuel p a x n) fmt args x size
  end
with pmap (fuel : nat) (fmt : list Z) (args : list arg) (x : ei_x_buff) : fres :=
  match fuel with
  | O => FFuel
  | S fuel => pmap_body (fun p a x n => pmap_loop fuel p a x n) fmt args x
  end
with pmap_loop (fuel : nat) (p : list Z) (args : list arg) (x : ei_x_buff) (size : Z) : fres :=
  match fuel with
  | O => FFuel
  | S fuel => pmap_turn (fun p a x => eiformat fuel p a x) (fun p a x n => pmap_loop fuel p a x n) p args x size
  end.

(** The second pass of [read_args], over the text without its NUL: [None] is
    -1, [Some None] an argument that was not passed as the type it is read as. *)
Fixpoint read_args_loop (p : list Z) (ap : list va) : option (option (list arg)) :=
  match p with
  | [] => Some (Some [])
  | t :: p =>
      if negb (t =? 126) then read_args_loop p ap
      else
        match p with
        | [] => None
        | c :: p =>
            let next (ap : list va) (a : arg) := option_map (option_map (cons a)) (read_args_loop p ap) in
            if c =? 99 then match ap with va_int n :: ap => next ap (arg_c (wraps 8 n)) | _ => Some None end
            else if (c =? 97) || (c =? 115) then match ap with va_str s :: ap => next ap (arg_s s) | _ => Some None end
            else if c =? 105 then match ap with va_int n :: ap => next ap (arg_l n) | _ => Some None end
            else if c =? 108 then match ap with va_long n :: ap => next ap (arg_l n) | _ => Some None end
            else if c =? 117 then match ap with va_ulong n :: ap => next ap (arg_u n) | _ => Some None end
            else if (c =? 102) || (c =? 100) then match ap with va_double d :: ap => next ap (arg_d d) | _ => Some None end
            else if c =? 112 then match ap with va_pid pid :: ap => next ap (arg_pid pid) | _ => Some None end
            else None
        end
  end.

Definition arg_count (fmt : list Z) : Z := zlen (List.filter (fun c => c =? 126) fmt).

(** [sizeof(union arg)] is 8. *)
Definition read_args (fmt : list Z) (ap : list va) : option (option (list arg)) :=
  if arg_count fmt =? 0 then Some (Some [])
  else if negb (alloc (arg_count fmt * 8)) then None
  else read_args_loop fmt ap.

Definition ei_x_format_wo_ver (fuel : nat) (x : ei_x_buff) (fmt : list Z) (ap : list va) : fres :=
  match read_args fmt ap with
  | None => FErr x
  | Some None => FOob
  | Some (Some args) => eiformat fuel (fmt ++ [0]) args x
  end.

Definition ei_x_format (fuel : nat) (x : ei_x_buff) (fmt : list Z) (ap : list va) : fres :=
  match ei_x_encode_version alloc junk x with
  | XOk x => ei_x_format_wo_ver fuel x fmt ap
  | XErr x => FErr x
  | XOob => FOob
  end.
End Format.

(** ** Termination *)

(** The text that is left got shorter. *)
Definition advanced (n : nat) (r : fres) : Prop :=
  match r with FOk _ p _ _ => (length p < n)%nat | FFuel => False | _ => True end.

Lemma advanced_mono n m r : (n <= m)%nat -> advanced n r -> advanced m r.
Proof. destruct r; cbn; [lia|done..]. Qed.

Lemma of_x_advanced r p args n : (length p < n)%nat -> advanced n (of_x r p args).
Proof. by destruct r. Qed.

Lemma skip_space_le p q : skip_space p = Some q -> (length q <= length p)%nat.
Proof.
  revert q. induction p as [|c p IH]; intros q; cbn [skip_space]; [done|].
  destruct (isspace c); [|intros [= <-]; done]. intros H%IH. cbn [length]. lia.
Qed.

Lemma patom_loop_le p q : patom_loop p = Some q -> (length q <= length p)%nat.
Proof.
  revert q. induction p as [|c p IH]; intros q; cbn [patom_loop]; [done|].
  destruct (_ || _); [|intros [= <-]; done]. intros H%IH. cbn [length]. lia.
Qed.

Lemma pdigit_loop_le p d q e : pdigit_loop p d = Some (q, e) -> (length q <= length p)%nat.
Proof.
  revert d q e. induction p as [|c p IH]; intros d q e; cbn [pdigit_loop]; [done|].
  destruct (isdigit c); [intros H%IH; cbn [length]; lia|]. destruct (_ && _); [intros H%IH; cbn [length]; lia|].
  by intros [= <- _].
Qed.

Lemma quoted_loop_le c p q : quoted_loop c p = Some (Some q) -> (length q <= length p)%nat.
Proof.
  revert q. induction p as [|b p IH]; intros q; cbn [quoted_loop]; [done|].
  destruct (b =? 0); [done|]. destruct (b =? c); [|intros H%IH; cbn [length]; lia].
  destruct (b =? 92); [intros H%IH; cbn [length]; lia|]. intros [= <-]. cbn [length]. lia.
Qed.

Section Ends.
Variable alloc : Z -> bool.
Variable junk : nat -> list Z.
Variable sscanf_lf : list Z -> option Z.
Variable junk_d : Z.

Lemma quoted_advanced quote (enc : list Z -> list Z -> xres) c q args x :
  advanced (S (length q))
    match quoted_loop quote (drop 1 (c :: q)) with
    | None => FOob | Some None => FErr x | Some (Some p) => of_x (enc (drop 1 (c :: q)) p) p args
    end.
Proof.
  change (drop 1 (c :: q)) with q. destruct (quoted_loop quote q) as [[p|]|] eqn:E; [|done..]. apply of_x_advanced.
  apply quoted_loop_le in E. lia.
Qed.

Lemma patom_advanced c q args x : isalnum c = true -> advanced (S (length q)) (patom alloc junk (c :: q) args x).
Proof.
  intros Hc. unfold patom. cbn [patom_loop]. rewrite Hc. cbn [orb].
  destruct (patom_loop q) as [p|] eqn:E; [|done]. apply of_x_advanced. apply patom_loop_le in E. lia.
Qed.

Lemma pdigit_advanced c q args x :
  isdigit c || (c =? 45) || (c =? 43) = true ->
  advanced (S (length q)) (pdigit alloc junk sscanf_lf junk_d (c :: q) args x).
Proof.
  intros Hc. unfold pdigit. assert (pdigit_loop (if (c =? 45) || (c =? 43) then q else c :: q) false = pdigit_loop q false) as ->.
  { destruct ((c =? 45) || (c =? 43)) eqn:Es; [done|]. cbn [pdigit_loop]. rewrite <- orb_assoc, Es, orb_false_r in Hc. by rewrite Hc. }
  destruct (pdigit_loop q false) as [[p [|]]|] eqn:E; [| |done]; apply of_x_advanced; apply pdigit_loop_le in E; lia.
Qed.

Lemma pformat_advanced c q args x : advanced (S (length q)) (pformat alloc junk (c :: q) args x).
Proof.
  unfold pformat. change (drop 1 (c :: q)) with q. destruct q as [|b p]; [done|].
  assert (forall r args, advanced (S (length (b :: p))) (of_x r p args)) as H by (intros; apply of_x_advanced; cbn [length]; lia).
  repeat match goal with
  | |- context [if ?t then _ else _] => destruct t; [destruct args as [|[] ?]; lazymatch goal with |- advanced _ FOob => exact I | _ => apply H end|]
  end. exact I.
Qed.

Lemma into_new_advanced n build header x :
  (forall x2, advanced n (build x2)) -> advanced n (into_new alloc junk build header x).
Proof.
  intros Hb. unfold into_new. destruct (ei_x_new alloc junk) as [x2| |]; [|done..]. specialize (Hb x2).
  destruct (build x2) as [res p args x3| | |]; [|done..]. destruct (header res x); [|by apply of_x_advanced..].
  by apply of_x_advanced.
Qed.

Lemma fbind_advanced n r k :
  advanced n r -> (forall res p args x, (length p < n)%nat -> advanced n (k res p args x)) -> advanced n (fbind r k).
Proof. intros Hr Hk. destruct r; cbn in *; [by apply Hk|done..]. Qed.

Lemma eiformat_default_advanced c q args x : advanced (S (length q)) (eiformat_default alloc junk sscanf_lf junk_d c q args x).
Proof.
  unfold eiformat_default. destruct (isdigit c) eqn:Ed; [apply pdigit_advanced; by rewrite Ed|].
  assert (advanced (S (length q)) (if islower c then patom alloc junk (c :: q) args x else FErr x)) as Ha.
  { destruct (islower c) eqn:El; [|done]. apply patom_advanced. unfold isalnum. by rewrite El, orb_true_r. }
  destruct q as [|c1 r]; [by destruct (_ || _)|]. destruct ((c =? 45) || (c =? 43)) eqn:Es; [|exact Ha].
  cbn [andb]. destruct (isdigit c1); [|exact Ha]. apply pdigit_advanced. by rewrite <- orb_assoc, Es, orb_true_r.
Qed.

(** What the calls from a body are given is shorter than the text, or the same. *)
Lemma eiformat_body_advanced ptuple plist pmap p args x :
  (forall q y, (length q <= length p)%nat -> advanced (length q) (ptuple q args y 0)) ->
  (forall q y, (length q <= length p)%nat -> advanced (length q) (plist q args y 0)) ->
  (forall q y, (length q + 2 <= length p)%nat -> advanced (length q) (pmap q args y)) ->
  advanced (length p) (eiformat_body alloc junk sscanf_lf junk_d ptuple plist pmap p args x).
Proof.
  intros Ht Hl Hm. unfold eiformat_body. destruct (skip_space p) as [[|c q]|] eqn:E; [done| |done].
  apply skip_space_le in E. apply (advanced_mono (length (c :: q))); [done|].
  destruct (c =? 126); [exact (pformat_advanced c q args x)|].
  destruct (c =? 91); [apply into_new_advanced; intros; by apply Hl|].
  destruct (c =? 123); [apply into_new_advanced; intros; by apply Ht|].
  destruct (c =? 34); [apply (quoted_advanced 34 (fun start p => ei_x_encode_string_len alloc junk x start (zlen start - zlen p - 1)))|].
  destruct (c =? 39); [apply (quoted_advanced 39 (fun start p => ei_x_encode_atom_len alloc junk x start (zlen start - zlen p - 1)))|].
  pose proof (eiformat_default_advanced c q args x) as Ho.
  destruct (c =? 35); [|exact Ho]. destruct q as [|c1 r]; [done|]. destruct (c1 =? 123); [|exact Ho].
  apply into_new_advanced. intros. cbn [length] in *. apply (advanced_mono (length r)); [lia|]. apply Hm. lia.
Qed.

Lemma ptuple_body_advanced eiformat ptuple p args x n :
  (forall q args x, (length q + 1 <= length p)%nat -> advanced (length q) (eiformat q args x)) ->
  (forall q args x n, (length q + 2 <= length p)%nat -> advanced (length q) (ptuple q args x n)) ->
  advanced (length p) (ptuple_body eiformat ptuple p args x n).
Proof.
  intros He Ht. unfold ptuple_body. destruct p as [|after q]; [done|]. destruct (after =? 125); [cbn; lia|].
  destruct (skip_space q) as [[|c r]|] eqn:E; [done| |done]. apply skip_space_le in E. cbn [length] in *.
  destruct (c =? 125); [destruct (after =? 44); [done|]; cbn; lia|].
  destruct (c =? 44).
  { destruct (_ || _); [done|]. apply (advanced_mono (length r)); [lia|]. apply Ht. lia. }
  specialize (He (c :: r) args x ltac:(cbn [length]; lia)).
  destruct (eiformat (c :: r) args x) as [res p args' x'| | |]; cbn [fbind advanced length] in *; [|done..].
  apply (advanced_mono (length p)); [lia|]. apply Ht. lia.
Qed.

Lemma plist_body_advanced eiformat plist p args x n :
  (forall q args x, (length q + 1 <= length p)%nat -> advanced (length q) (eiformat q args x)) ->
  (forall q args x n, (length q + 2 <= length p)%nat -> advanced (length q) (plist q args x n)) ->
  advanced (length p) (plist_body alloc junk eiformat plist p args x n).
Proof.
  intros He Ht. unfold plist_body. destruct p as [|after q]; [done|]. cbn [length] in *.
  destruct (Z.eqb_spec after 93) as [->|Ha].
  { cbn [skip_space]. change (isspace 93) with false. cbn iota. change (93 =? 93) with true. cbn iota.
    change (93 =? 44) with false. change (93 =? 124) with false. cbn [negb]. cbn iota.
    destruct (list_end alloc junk x); cbn; [lia|done]. }
  destruct (skip_space q) as [[|c r]|] eqn:E; [done| |done]. apply skip_space_le in E. cbn [length] in *.
  destruct (c =? 93).
  { destruct (after =? 44); [done|]. destruct (negb (after =? 124)); [|cbn; lia]. destruct (list_end alloc junk x); cbn; [lia|done]. }
  destruct (_ || _).
  { destruct (_ || _); [done|]. apply (advanced_mono (length r)); [lia|]. apply Ht. lia. }
  specialize (He (c :: r) args x ltac:(cbn [length]; lia)).
  destruct (eiformat (c :: r) args x) as [res p args' x'| | |]; cbn [fbind advanced length] in *; [|done..].
  destruct (after =? 124); [|apply (advanced_mono (length p)); [lia|]; apply Ht; lia].
  destruct (skip_space p) as [[|c1 p1]|] eqn:E1; [done| |done]. apply skip_space_le in E1.
  destruct (negb (c1 =? 93)); [done|]. cbn [advanced]. lia.
Qed.

Lemma pmap_body_advanced pmap_loop p args x :
  (forall q, (length q <= length p)%nat -> advanced (length q) (pmap_loop q args x 0)) ->
  advanced (length p) (pmap_body pmap_loop p args x).
Proof.
  intros Hp. unfold pmap_body. destruct (skip_space p) as [[|c r]|] eqn:E; [done| |done]. apply skip_space_le in E.
  destruct (c =? 125); [cbn in *; lia|]. apply (advanced_mono (length (c :: r))); [done|]. by apply Hp.
Qed.

Lemma pmap_turn_advanced eiformat pmap_loop p args x n :
  (forall q args x, (length q <= length p)%nat -> advanced (length q) (eiformat q args x)) ->
  (forall q args x n, (length q + 1 <= length p)%nat -> advanced (length q) (pmap_loop q args x n)) ->
  advanced (length p) (pmap_turn eiformat pmap_loop p args x n).
Proof.
  intros He Hp. unfold pmap_turn. pose proof (He p args x ltac:(done)) as H1.
  destruct (eiformat p args x) as [res p1 args1 x1| | |]; cbn [fbind advanced] in *; [|done..].
  destruct (skip_space p1) as [[|c0 [|c1 p2]]|] eqn:E1; [done|by destruct (c0 =? 61)| |done].
  apply skip_space_le in E1. cbn [length] in E1.
  assert (advanced (length p) (fbind (eiformat p2 args1 x1) (fun _ p args x =>
            match skip_space p with
            | None | Some [] => FOob
            | Some (c :: q) =>
                if c =? 125 then FOk (n + 1) q args x
                else if negb (c =? 44) then FErr x
                else match skip_space q with None => FOob | Some p => pmap_loop p args x (n + 1) end
            end))) as H2.
  { specialize (He p2 args1 x1 ltac:(lia)). destruct (eiformat p2 args1 x1) as [res2 p3 args2 x2| | |]; cbn [fbind advanced] in *; [|done..].
    destruct (skip_space p3) as [[|c q]|] eqn:E2; [done| |done]. apply skip_space_le in E2. cbn [length] in E2.
    destruct (c =? 125); [cbn; lia|]. destruct (negb _); [done|]. destruct (skip_space q) as [p4|] eqn:E3; [|done].
    apply skip_space_le in E3. apply (advanced_mono (length p4)); [lia|]. apply Hp. lia. }
  destruct (negb ((c0 =? 61) && (c1 =? 62))) eqn:En; [|exact H2]. exact I.
Qed.

(** Enough fuel for a text of so many characters. *)
Lemma format_advances fuel :
  (forall p args x, (2 * length p + 2 <= fuel)%nat -> advanced (length p) (eiformat alloc junk sscanf_lf junk_d fuel p args x)) /\
  (forall p args x n, (2 * length p + 1 <= fuel)%nat -> advanced (length p) (ptuple alloc junk sscanf_lf junk_d fuel p args x n)) /\
  (forall p args x n, (2 * length p + 1 <= fuel)%nat -> advanced (length p) (plist alloc junk sscanf_lf junk_d fuel p args x n)) /\
  (forall p args x, (2 * length p + 4 <= fuel)%nat -> advanced (length p) (pmap alloc junk sscanf_lf junk_d fuel p args x)) /\
  (forall p args x n, (2 * length p + 3 <= fuel)%nat -> advanced (length p) (pmap_loop alloc junk sscanf_lf junk_d fuel p args x n)).
Proof.
  induction fuel as [|fuel (IHe & IHt & IHl & IHm & IHp)]; [split_and!; intros; lia|].
  split_and!.
  - intros p args x Hf. apply eiformat_body_advanced; intros; [apply IHt|apply IHl|apply IHm]; lia.
  - intros p args x n Hf. apply ptuple_body_advanced; intros; [apply IHe|apply IHt]; lia.
  - intros p args x n Hf. apply plist_body_advanced; intros; [apply IHe|apply IHl]; lia.
  - intros p args x Hf. apply pmap_body_advanced. intros. apply IHp. lia.
  - intros p args x n Hf. apply pmap_turn_advanced; intros; [apply IHe|apply IHp]; lia.
Qed.
End Ends.

(** ** Terms as text *)

(** A term with what may stand for it in a text: atoms with and without quotes,
    integers, strings, directives with their argument, and tuples, lists and maps
    whose parts may have white space in front of them; in maps, behind them, too. *)
Inductive tmpl :=
  | TAtom (name : list Z)
  | TQuoted (name : list Z)
  | TInt (n : Z)
  | TStr (s : list Z)
  | TArg (c : Z) (v : va)
  | TTuple (es : elems)
  | TList (es : elems)
  | TMap (ps : pairs)
with elems :=
  | ENil
  | ECons (ws : list Z) (t : tmpl) (es : elems)
with pairs :=
  | PNil
  | PCons (ws1 : list Z) (k : tmpl) (ws2 ws3 : list Z) (v : tmpl) (ws4 : list Z) (ps : pairs).

Scheme tmpl_mut := Induction for tmpl Sort Prop
  with elems_mut := Induction for elems Sort Prop
  with pairs_mut := Induction for pairs Sort Prop.
Combined Scheme tmpl_elems_pairs_ind from tmpl_mut, elems_mut, pairs_mut.

(** The digits of a number. *)
Fixpoint digits (fuel : nat) (n : Z) : list Z :=
  match fuel with
  | O => []
  | S fuel => if n <? 10 then [48 + n] else digits fuel (n / 10) ++ [48 + n mod 10]
  end.
Definition int_text (n : Z) : list Z := if n <? 0 then 45 :: digits 20 (- n) else digits 20 n.

Fixpoint tmpl_text (t : tmpl) : list Z :=
  match t with
  | TAtom name => name
  | TQuoted name => 39 :: name ++ [39]
  | TInt n => int_text n
  | TStr s => 34 :: s ++ [34]
  | TArg c _ => [126; c]
  | TTuple ENil => [123; 125]
  | TTuple es => elems_text 123 es ++ [125]
  | TList ENil => [91; 93]
  | TList es => elems_text 91 es ++ [93]
  | TMap PNil => [35; 123; 125]
  | TMap ps => 35 :: pairs_text 123 ps ++ [125]
  end
with elems_text (sep : Z) (es : elems) : list Z :=
  match es with
  | ENil => []
  | ECons ws t es => sep :: ws ++ tmpl_text t ++ elems_text 44 es
  end
with pairs_text (sep : Z) (ps : pairs) : list Z :=
  match ps with
  | PNil => []
  | PCons ws1 k ws2 ws3 v ws4 ps =>
      sep :: ws1 ++ tmpl_text k ++ ws2 ++ 61 :: 62 :: ws3 ++ tmpl_text v ++ ws4 ++ pairs_text 44 ps
  end.

(** The argument of a directive as it is read, and the call it stands for. *)
Definition va_arg (c : Z) (v : va) : option (arg * x_op) :=
  match v with
  | va_str s =>
      if c =? 97 then Some (arg_s s, OpAtomAs s ERLANG_LATIN1 ERLANG_LATIN1)
      else if c =? 115 then Some (arg_s s, OpString s) else None
  | va_int n =>
      if c =? 99 then Some (arg_c (wraps 8 n), OpChar (wraps 8 n))
      else if c =? 105 then Some (arg_l n, OpLong n) else None
  | va_long n => if c =? 108 then Some (arg_l n, OpLong n) else None
  | va_ulong n => if c =? 117 then Some (arg_u n, OpULong n) else None
  | va_double d => if (c =? 102) || (c =? 100) then Some (arg_d d, OpDouble d) else None
  | va_pid p => if c =? 112 then Some (arg_pid p, OpPid p) else None
  end.

Fixpoint elems_count (es : elems) : Z := match es with ENil => 0 | ECons _ _ es => 1 + elems_count es end.
Fixpoint pairs_count (ps : pairs) : Z := match ps with PNil => 0 | PCons _ _ _ _ _ _ ps => 1 + pairs_count ps end.

(** The calls that write the term. *)
Fixpoint tmpl_ops (t : tmpl) : list x_op :=
  match t with
  | TAtom name | TQuoted name => [OpAtomAs name ERLANG_LATIN1 ERLANG_LATIN1]
  | TInt n => [OpLong n]
  | TStr s => [OpString s]
  | TArg c v => match va_arg c v with Some (_, op) => [op] | None => [] end
  | TTuple es => OpTupleHeader (elems_count es) :: elems_ops es
  | TList ENil => [OpEmptyList]
  | TList es => OpListHeader (elems_count es) :: elems_ops es ++ [OpEmptyList]
  | TMap ps => OpMapHeader (pairs_count ps) :: pairs_ops ps
  end
with elems_ops (es : elems) : list x_op :=
  match es with ENil => [] | ECons _ t es => tmpl_ops t ++ elems_ops es end
with pairs_ops (ps : pairs) : list x_op :=
  match ps with PNil => [] | PCons _ k _ _ v _ ps => tmpl_ops k ++ tmpl_ops v ++ pairs_ops ps end.

(** The arguments of the caller. *)
Fixpoint tmpl_va (t : tmpl) : list (Z * va) :=
  match t with
  | TArg c v => [(c, v)]
  | TTuple es | TList es => elems_va es
  | TMap ps => pairs_va ps
  | _ => []
  end
with elems_va (es : elems) : list (Z * va) :=
  match es with ENil => [] | ECons _ t es => tmpl_va t ++ elems_va es end
with pairs_va (ps : pairs) : list (Z * va) :=
  match ps with PNil => [] | PCons _ k _ _ v _ ps => tmpl_va k ++ tmpl_va v ++ pairs_va ps end.

(** The rules: a bare atom starts with a lower case letter and goes on with letters,
    digits, [_] and [@]; a quoted one and a string have no quote of their own and no
    tilde; white space is white space; an argument is of the type of its directive. *)
Definition atom_char (c : Z) : bool := isalnum c || (c =? 95) || (c =? 64).
Definition plain_char (quote c : Z) : bool := (0 <? c) && (c <? 256) && negb (c =? quote) && negb (c =? 126).

Fixpoint tmpl_wf (t : tmpl) : Prop :=
  match t with
  | TAtom name => match name with c :: _ => islower c = true | [] => False end /\ forallb atom_char name = true /\ zlen name <= 255
  | TQuoted name => forallb (plain_char 39) name = true /\ zlen name <= 255
  | TInt n => in_s 64 n
  | TStr s => forallb (plain_char 34) s = true
  | TArg c v => match va_arg c v with Some (_, op) => op_ok op | None => False end
  | TTuple es | TList es => elems_wf es
  | TMap ps => pairs_wf ps
  end
with elems_wf (es : elems) : Prop :=
  match es with ENil => True | ECons ws t es => forallb isspace ws = true /\ tmpl_wf t /\ elems_wf es end
with pairs_wf (ps : pairs) : Prop :=
  match ps with
  | PNil => True
  | PCons ws1 k ws2 ws3 v ws4 ps =>
      forallb isspace ws1 = true /\ tmpl_wf k /\ forallb isspace ws2 = true /\ forallb isspace ws3 = true /\ tmpl_wf v /\
      forallb isspace ws4 = true /\ pairs_wf ps
  end.

(** ** Parts of a text *)

Lemma skip_space_ws ws c q :
  forallb isspace ws = true -> isspace c = false -> skip_space (ws ++ c :: q) = Some (c :: q).
Proof.
  intros Hw Hc. induction ws as [|w ws IH]; cbn [app skip_space forallb] in *; [by rewrite Hc|].
  apply andb_true_iff in Hw as [-> Hw]. auto.
Qed.

(** A character that a term can begin with. *)
Definition starter (c : Z) : bool := negb (isspace c || (c =? 125) || (c =? 93) || (c =? 44) || (c =? 124)).

(** What may follow a term. *)
Definition delimited (rest : list Z) : Prop :=
  match rest with c :: _ => isspace c = true \/ c ∈ [0; 44; 125; 93; 61] | [] => False end.

Lemma delimited_stops rest :
  delimited rest -> exists c q, rest = c :: q /\ atom_char c = false /\ isdigit c = false /\ (c =? 46) = false.
Proof.
  destruct rest as [|c q]; [done|]. unfold delimited. intros [H|H]; exists c, q; (split; [done|]).
  { unfold isspace in H. unfold atom_char, isalnum, isdigit, islower. lia. }
  repeat (apply elem_of_cons in H as [->|H]; [by vm_compute|]). by apply not_elem_of_nil in H.
Qed.

Lemma patom_loop_stops name rest :
  forallb atom_char name = true -> delimited rest -> patom_loop (name ++ rest) = Some rest.
Proof.
  intros Hn Hd. destruct (delimited_stops rest Hd) as (c & q & -> & Hc & _).
  induction name as [|a name IH]; cbn [app patom_loop forallb] in *; fold (atom_char c); [by rewrite Hc|].
  apply andb_true_iff in Hn as [Ha Hn]. fold (atom_char a). rewrite Ha. auto.
Qed.

Lemma pdigit_loop_stops ds rest :
  forallb isdigit ds = true -> delimited rest -> pdigit_loop (ds ++ rest) false = Some (rest, false).
Proof.
  intros Hn Hd. destruct (delimited_stops rest Hd) as (c & q & -> & _ & Hc & Hp).
  induction ds as [|a ds IH]; cbn [app pdigit_loop forallb] in *; [by rewrite Hc, Hp|].
  apply andb_true_iff in Hn as [-> Hn]. auto.
Qed.

Lemma quoted_loop_stops quote s rest :
  quote <> 0 -> quote <> 92 -> forallb (plain_char quote) s = true -> quoted_loop quote (s ++ quote :: rest) = Some (Some rest).
Proof.
  intros H0 H92 Hs. induction s as [|a s IH]; cbn [app quoted_loop forallb] in *.
  - rewrite Z.eqb_refl. by destruct (Z.eqb_spec quote 0), (Z.eqb_spec quote 92).
  - apply andb_true_iff in Hs as [Ha Hs]. unfold plain_char in Ha. replace (a =? 0) with false by lia.
    replace (a =? quote) with false by lia. auto.
Qed.

(** *** Numbers *)

Lemma scan_digits_app ds rest acc : forallb isdigit ds = true -> scan_digits (ds ++ rest) acc = scan_digits rest (scan_digits ds acc).
Proof.
  revert acc. induction ds as [|d ds IH]; intros acc H; cbn [app scan_digits forallb] in *; [done|].
  apply andb_true_iff in H as [-> H]. auto.
Qed.

Lemma digit_char n : 0 <= n < 10 -> isdigit (48 + n) = true.
Proof. unfold isdigit. lia. Qed.

Lemma digits_ok fuel n :
  0 <= n < 10 ^ Z.of_nat fuel -> (0 < fuel)%nat ->
  forallb isdigit (digits fuel n) = true /\ scan_digits (digits fuel n) 0 = n /\ digits fuel n <> [].
Proof.
  revert n. induction fuel as [|fuel IH]; intros n Hn Hf; [lia|]. cbn [digits].
  destruct (Z.ltb_spec n 10).
  - cbn [forallb scan_digits]. rewrite digit_char by lia. split_and!; [done|lia|done].
  - assert (0 <= n / 10 < 10 ^ Z.of_nat fuel /\ (0 < fuel)%nat) as [Hd Hf'].
    { destruct fuel; [change (10 ^ Z.of_nat 1) with 10 in Hn; lia|]. split; [|lia].
      rewrite Nat2Z.inj_succ, Z.pow_succ_r in Hn by lia. Z.div_mod_to_equations. lia. }
    destruct (IH _ Hd Hf') as (Hb & Hv & Hne). pose proof (Z.mod_pos_bound n 10).
    split_and!.
    + rewrite forallb_app, Hb. cbn [forallb]. by rewrite digit_char by lia.
    + rewrite scan_digits_app, Hv by done. cbn [scan_digits]. rewrite digit_char by lia. Z.div_mod_to_equations. lia.
    + by intros [_ ?]%app_eq_nil.
Qed.

Lemma scan_digits_stops rest acc : delimited rest -> scan_digits rest acc = acc.
Proof. intros (c & q & -> & _ & Hc & _)%delimited_stops. cbn [scan_digits]. by rewrite Hc. Qed.

Lemma digits_head n : 0 <= n < 10 ^ 20 -> exists c q, digits 20 n = c :: q /\ isdigit c = true.
Proof.
  intros Hn. destruct (digits_ok 20 n Hn ltac:(lia)) as (Hb & _ & Hne). destruct (digits 20 n) as [|c q]; [done|].
  apply andb_true_iff in Hb as [Hc _]. eauto.
Qed.

Lemma int_text_scanned n rest : in_s 64 n -> delimited rest -> sscanf_ld (int_text n ++ rest) = n.
Proof.
  unfold in_s, sscanf_ld, int_text. intros Hn Hd. change (2 ^ (64 - 1)) with (2 ^ 63) in Hn.
  destruct (Z.ltb_spec n 0).
  - destruct (digits_ok 20 (- n)) as (Hb & Hv & _); [lia|lia|]. cbn [app]. change (45 =? 45) with true. cbn iota.
    rewrite scan_digits_app, Hv, scan_digits_stops by done. lia.
  - destruct (digits_ok 20 n) as (Hb & Hv & _); [lia|lia|]. destruct (digits_head n) as (c & q & E & Hc); [lia|].
    rewrite E in *. cbn [app]. unfold isdigit in Hc. replace (c =? 45) with false by lia. replace (c =? 43) with false by lia.
    rewrite app_comm_cons, scan_digits_app, Hv, scan_digits_stops by done. lia.
Qed.

(** The arguments as [read_args] stores them. *)
Definition va_args (l : list (Z * va)) : list arg := omap (fun '(c, v) => fst <$> va_arg c v) l.
Lemma va_args_app l1 l2 : va_args (l1 ++ l2) = va_args l1 ++ va_args l2.
Proof. apply omap_app. Qed.

Lemma tmpl_text_head t : tmpl_wf t -> exists c q, tmpl_text t = c :: q /\ starter c = true.
Proof.
  destruct t as [name|name|n|s|c v|es|es|ps]; cbn [tmpl_wf tmpl_text].
  - intros (H & _ & _). destruct name as [|c q]; [done|]. exists c, q. split; [done|]. unfold islower in H. unfold starter, isspace. lia.
  - by exists 39, (name ++ [39]).
  - unfold int_text, in_s. intros Hn. destruct (Z.ltb_spec n 0); [by exists 45, (digits 20 (- n))|].
    destruct (digits_head n) as (c & q & -> & Hc); [lia|]. exists c, q. split; [done|]. unfold isdigit in Hc. unfold starter, isspace. lia.
  - by exists 34, (s ++ [34]).
  - by exists 126, [c].
  - destruct es as [|ws t es]; [by exists 123, [125]|]. by eexists 123, _.
  - destruct es as [|ws t es]; [by exists 91, [93]|]. by eexists 91, _.
  - destruct ps as [|ws1 k ws2 ws3 v ws4 ps]; [by exists 35, [123; 125]|]. by eexists 35, _.
Qed.

Ltac lengths_lia :=
  repeat match goal with
  | H : context [length (_ ++ _)] |- _ => rewrite length_app in H
  | H : context [length (_ :: _)] |- _ => progress cbn [length] in H
  | |- context [length (_ ++ _)] => rewrite length_app
  | |- context [length (_ :: _)] => progress cbn [length]
  | |- context [length []] => progress cbn [length]
  end; lia.

Section Writes.
Variable alloc : Z -> bool.
Variable junk : nat -> list Z.
Hypothesis junk_length : forall n, length (junk n) = n.
Hypothesis granted : forall n, alloc n = true.
Variable sscanf_lf : list Z -> option Z.
Variable junk_d : Z.

(** [r] returned [res] with [rest] and [args] left, and [bs] were appended to [x]. *)
Definition writes (r : fres) (x : ei_x_buff) (bs : list Z) (res : Z) (rest : list Z) (args : list arg) : Prop :=
  exists x', r = FOk res rest args x' /\ x_wf x' /\ x_contents x' = x_contents x ++ bs.

Definition room (x : ei_x_buff) (bs : list Z) : Prop := x_wf x /\ x_index x + zlen bs + 2 * ei_x_extra < 2 ^ 31.

Lemma step_appends op x bs :
  op_ok op -> room x bs -> op_bytes op = Some bs ->
  exists x', x_step alloc junk op x = XOk x' /\ x_wf x' /\ x_contents x' = x_contents x ++ bs.
Proof.
  intros Ho [Hw Hb] E. pose proof (x_step_appends alloc junk junk_length op x Ho Hw) as H. rewrite E in H.
  destruct (H Hb) as [?|[_ Hf]]; [done|]. by rewrite granted in Hf.
Qed.

Lemma step_writes op x bs rest args :
  op_ok op -> room x bs -> op_bytes op = Some bs -> writes (of_x (x_step alloc junk op x) rest args) x bs 0 rest args.
Proof.
  intros Ho Hr E. destruct (step_appends op x bs Ho Hr E) as (x' & -> & H). exists x'. split; [done|exact H].
Qed.

Lemma room_app x bs1 bs2 x1 :
  room x (bs1 ++ bs2) -> x_wf x1 -> x_contents x1 = x_contents x ++ bs1 -> room x1 bs2.
Proof.
  intros [Hw Hb] Hw1 Hc. split; [done|]. pose proof (x_index_contents x Hw). pose proof (x_index_contents x1 Hw1) as Hi.
  rewrite Hc, zlen_app in Hi. rewrite zlen_app in Hb. lia.
Qed.

Lemma room_prefix x bs1 bs2 : room x (bs1 ++ bs2) -> room x bs1.
Proof. intros [Hw Hb]. split; [done|]. rewrite zlen_app in Hb. pose proof (zlen_nonneg bs2). lia. Qed.

Lemma atom_prefix b i name rest f t :
  ei_encode_atom_len_as b i (name ++ rest) (zlen name) f t = ei_encode_atom_len_as b i name (zlen name) f t.
Proof.
  unfold ei_encode_atom_len_as. rewrite !slice_prefix by zlen_lia.
  rewrite zlen_to_nat, take_app_length, firstn_all. done.
Qed.

Lemma atom_text_step name rest x :
  ei_x_encode_atom_len alloc junk x (name ++ rest) (zlen name) = x_step alloc junk (OpAtomAs name ERLANG_LATIN1 ERLANG_LATIN1) x.
Proof.
  cbn [x_step]. unfold ei_x_encode_atom_as, ei_x_encode_atom_len, ei_x_encode_atom_len_as, x_encode, x_call.
  rewrite atom_prefix. destruct (ei_encode_atom_len_as None _ _ _ _ _); [|done..]. destruct (x_fix_buff _ _ _ _) as [[|] x1]; [|done].
  by rewrite atom_prefix.
Qed.

Lemma into_new_writes build header x body hb bs n rest args :
  room x bs -> bs = hb ++ body -> 
  (forall x2, room x2 body -> writes (build x2) x2 body n rest args) ->
  (exists x1, header n x = XOk x1 /\ x_wf x1 /\ x_contents x1 = x_contents x ++ hb) ->
  writes (into_new alloc junk build header x) x bs 0 rest args.
Proof.
  intros Hr -> Hb (x1 & Eh & Hw1 & Hc1). unfold into_new.
  destruct (ei_x_new alloc junk) as [x2| |] eqn:En; [|by unfold ei_x_new, ei_malloc in En; rewrite granted in En..].
  destruct (ei_x_new_wf _ _ junk_length _ En) as [Hw2 Hc2].
  assert (room x2 body) as Hr2.
  { split; [done|]. pose proof (x_index_contents x2 Hw2) as Hi. rewrite Hc2 in Hi. destruct Hr as [Hw Hb'].
    rewrite zlen_app in Hb'. pose proof (x_index_contents x Hw). pose proof (zlen_nonneg hb). pose proof (zlen_nonneg (x_contents x)).
    change (zlen (@nil Z)) with 0 in Hi. lia. }
  destruct (Hb x2 Hr2) as (x3 & -> & Hw3 & Hc3). rewrite Eh, (append_contents alloc junk x1 x3 Hw3).
  change (ei_x_append_buf alloc junk x1 ?l (zlen ?l)) with (x_step alloc junk (OpAppendBuf l) x1).
  rewrite Hc2 in Hc3. cbn [app] in Hc3. rewrite Hc3.
  destruct (step_appends (OpAppendBuf body) x1 body) as (x4 & -> & Hw4 & Hc4); [done|exact (room_app x hb body x1 Hr Hw1 Hc1)|done|].
  exists x4. split; [done|]. split; [done|]. by rewrite Hc4, Hc1, app_assoc.
Qed.

(** *** Leaves *)

(** A body behind white space. *)
Lemma body_skips pt pl pm ws c q args x :
  forallb isspace ws = true -> isspace c = false ->
  eiformat_body alloc junk sscanf_lf junk_d pt pl pm (ws ++ c :: q) args x =
  eiformat_body alloc junk sscanf_lf junk_d pt pl pm (c :: q) args x.
Proof.
  intros Hw Hc. unfold eiformat_body. rewrite (skip_space_ws ws c q Hw Hc). cbn [skip_space]. by rewrite Hc.
Qed.

Lemma forallb_bytes f l : (forall c, f c = true -> byte_ok c) -> forallb f l = true -> bytes_ok l.
Proof.
  intros Hf. induction l as [|c l IH]; cbn [forallb]; intros H; [constructor|].
  apply andb_true_iff in H as [Hc H]. constructor; auto.
Qed.

Lemma char_name name : forallb atom_char name = true -> bytes_ok name.
Proof. apply forallb_bytes. unfold atom_char, isalnum, isdigit, islower, byte_ok. lia. Qed.

Lemma plain_name quote name : forallb (plain_char quote) name = true -> bytes_ok name.
Proof. apply forallb_bytes. unfold plain_char, byte_ok. lia. Qed.

Lemma patom_writes name rest args x bs :
  tmpl_wf (TAtom name) -> delimited rest -> room x bs -> ops_bytes (tmpl_ops (TAtom name)) = Some bs ->
  writes (patom alloc junk (name ++ rest) args x) x bs 0 rest args.
Proof.
  intros (_ & Hn & Hl) Hd Hr E. unfold patom. rewrite (patom_loop_stops name rest Hn Hd).
  replace (zlen (name ++ rest) - zlen rest) with (zlen name) by zlen_lia.
  replace (MAXATOMLEN <=? zlen name) with false by (unfold MAXATOMLEN; lia). rewrite atom_text_step.
  apply app_bytes_some in E as (a & b & Ea & [= <-] & ->). rewrite app_nil_r in *.
  apply step_writes; [by apply char_name|done|done].
Qed.

Lemma pquotedatom_writes name rest args x bs :
  tmpl_wf (TQuoted name) -> room x bs -> ops_bytes (tmpl_ops (TQuoted name)) = Some bs ->
  writes (pquotedatom alloc junk (39 :: name ++ 39 :: rest) args x) x bs 0 rest args.
Proof.
  intros (Hn & _) Hr E. unfold pquotedatom. change (drop 1 (39 :: ?l)) with l.
  rewrite (quoted_loop_stops 39 name rest) by done.
  replace (zlen (name ++ 39 :: rest) - zlen rest - 1) with (zlen name) by zlen_lia. rewrite atom_text_step.
  apply app_bytes_some in E as (a & b & Ea & [= <-] & ->). rewrite app_nil_r in *.
  apply step_writes; [by eapply plain_name|done|done].
Qed.

Lemma pstring_writes s rest args x bs :
  tmpl_wf (TStr s) -> room x bs -> ops_bytes (tmpl_ops (TStr s)) = Some bs ->
  writes (pstring alloc junk (34 :: s ++ 34 :: rest) args x) x bs 0 rest args.
Proof.
  intros Hn [Hw Hr] E. unfold pstring. change (drop 1 (34 :: ?l)) with l.
  rewrite (quoted_loop_stops 34 s rest) by done.
  replace (zlen (s ++ 34 :: rest) - zlen rest - 1) with (zlen s) by zlen_lia.
  apply app_bytes_some in E as (a & b & Ea & [= <-] & ->). rewrite app_nil_r in *. injection Ea as <-.
  pose proof (ei_encode_string_len_emits (s ++ 34 :: rest) (zlen s) ltac:(zlen_lia)) as He.
  rewrite zlen_to_nat, take_app_length in He. unfold ei_x_encode_string_len.
  destruct (x_encode_appends alloc junk junk_length _ _ x He Hw Hr) as [(x' & -> & H)|[_ Hf]]; [|by rewrite granted in Hf].
  exists x'. split; [done|exact H].
Qed.

Lemma pdigit_writes n rest args x bs :
  in_s 64 n -> delimited rest -> room x bs -> ops_bytes (tmpl_ops (TInt n)) = Some bs ->
  writes (pdigit alloc junk sscanf_lf junk_d (int_text n ++ rest) args x) x bs 0 rest args.
Proof.
  intros Hn Hd Hr E. unfold pdigit. rewrite (int_text_scanned n rest Hn Hd).
  assert (exists c q, int_text n ++ rest = c :: q /\
    pdigit_loop (if (c =? 45) || (c =? 43) then q else c :: q) false = Some (rest, false)) as (c & q & -> & ->).
  { unfold int_text, in_s in *. destruct (Z.ltb_spec n 0).
    - destruct (digits_ok 20 (- n)) as (Hb & _); [lia|lia|]. eexists 45, _. split; [done|]. by apply pdigit_loop_stops.
    - destruct (digits_ok 20 n) as (Hb & _); [lia|lia|]. destruct (digits_head n) as (c & q & Ed & Hc); [lia|]. rewrite Ed in *.
      eexists c, _. split; [done|]. unfold isdigit in Hc. replace ((c =? 45) || (c =? 43)) with false by lia.
      by apply (pdigit_loop_stops (c :: q)). }
  apply app_bytes_some in E as (a & b & Ea & [= <-] & ->). rewrite app_nil_r in *.
  by apply (step_writes (OpLong n)).
Qed.

Lemma pformat_writes c v rest args x bs :
  tmpl_wf (TArg c v) -> room x bs -> ops_bytes (tmpl_ops (TArg c v)) = Some bs ->
  writes (pformat alloc junk (126 :: c :: rest) (va_args [(c, v)] ++ args) x) x bs 0 rest args.
Proof.
  cbn [tmpl_wf tmpl_ops]. unfold va_args. cbn [omap list_omap].
  destruct (va_arg c v) as [[a op]|] eqn:Ev; [|done]. cbn [fmap option_fmap option_map fst app]. intros Ho Hr E.
  apply app_bytes_some in E as (b1 & b2 & Ea & [= <-] & ->). rewrite app_nil_r in *.
  pose proof (step_writes op x b1 rest args Ho Hr Ea) as Hs. unfold pformat. change (drop 1 (126 :: ?l)) with l. cbn iota.
  destruct v; cbn [va_arg] in Ev;
    repeat match type of Ev with
    | (if (c =? ?k) then _ else _) = _ => destruct (Z.eqb_spec c k) as [->|]
    | (if ((c =? ?k) || (c =? ?l)) then _ else _) = _ => 
        destruct (Z.eqb_spec c k) as [->|]; [|destruct (Z.eqb_spec c l) as [->|]]; cbn [orb] in Ev
    end; first [discriminate Ev|injection Ev as <- <-; exact Hs].
Qed.

Lemma default_lower c q args x :
  islower c = true -> eiformat_default alloc junk sscanf_lf junk_d c q args x = patom alloc junk (c :: q) args x.
Proof.
  intros Hc. unfold eiformat_default. rewrite Hc. unfold islower in Hc.
  replace (isdigit c) with false by (unfold isdigit; lia). replace ((c =? 45) || (c =? 43)) with false by lia. by destruct q.
Qed.

Lemma default_int n rest args x :
  in_s 64 n ->
  exists c q, int_text n ++ rest = c :: q /\ isdigit c || (c =? 45) = true /\
    eiformat_default alloc junk sscanf_lf junk_d c q args x = pdigit alloc junk sscanf_lf junk_d (int_text n ++ rest) args x.
Proof.
  intros Hn. unfold int_text, in_s in *. destruct (Z.ltb_spec n 0).
  - destruct (digits_head (- n)) as (d & r & -> & Hd); [lia|]. exists 45, (d :: r ++ rest). split_and!; [done|done|].
    unfold eiformat_default. change (isdigit 45) with false. cbn [app]. by rewrite Hd.
  - destruct (digits_head n) as (d & r & -> & Hd); [lia|]. exists d, (r ++ rest). split_and!; [done|by rewrite Hd|].
    unfold eiformat_default. by rewrite Hd.
Qed.

(** The character is none of those with a case of their own. *)
Lemma body_default pt pl pm c q args x :
  isspace c = false -> (c ∉ [126; 91; 123; 34; 39; 35]) ->
  eiformat_body alloc junk sscanf_lf junk_d pt pl pm (c :: q) args x = eiformat_default alloc junk sscanf_lf junk_d c q args x.
Proof.
  intros Hs Hc. unfold eiformat_body. cbn [skip_space]. rewrite Hs.
  rewrite !not_elem_of_cons in Hc. destruct Hc as (? & ? & ? & ? & ? & ? & _).
  by repeat match goal with |- context [c =? ?k] => replace (c =? k) with false by lia end.
Qed.

(** *** The whole text *)

Definition format_ok (t : tmpl) : Prop := forall fuel ws rest args x bs,
  tmpl_wf t -> forallb isspace ws = true -> delimited rest -> room x bs -> ops_bytes (tmpl_ops t) = Some bs ->
  (2 * length (ws ++ tmpl_text t ++ rest) + 2 <= fuel)%nat ->
  writes (eiformat alloc junk sscanf_lf junk_d fuel (ws ++ tmpl_text t ++ rest) (va_args (tmpl_va t) ++ args) x) x bs 0 rest args.

Definition tuple_ok (es : elems) : Prop := forall fuel sep rest args x bs n,
  elems_wf es -> sep = 123 \/ sep = 44 -> room x bs -> ops_bytes (elems_ops es) = Some bs ->
  let text := elems_text sep es ++ 125 :: rest in
  (2 * length text + 1 <= fuel)%nat ->
  writes (ptuple alloc junk sscanf_lf junk_d fuel text (va_args (elems_va es) ++ args) x n)
    x bs (n + elems_count es) rest args.

Definition list_ok (es : elems) : Prop := forall fuel sep rest args x bs n,
  elems_wf es -> sep = 91 \/ sep = 44 -> room x bs -> ops_bytes (elems_ops es ++ [OpEmptyList]) = Some bs ->
  let text := elems_text sep es ++ 93 :: rest in
  (2 * length text + 1 <= fuel)%nat ->
  writes (plist alloc junk sscanf_lf junk_d fuel text (va_args (elems_va es) ++ args) x n)
    x bs (n + elems_count es) rest args.

(** Behind the white space in front of the first key. *)
Definition map_ok (ps : pairs) : Prop := forall fuel rest args x bs n,
  pairs_wf ps -> room x bs -> ops_bytes (pairs_ops ps) = Some bs ->
  match ps with
  | PNil => True
  | PCons _ k ws2 ws3 v ws4 ps' =>
      let text := tmpl_text k ++ ws2 ++ 61 :: 62 :: ws3 ++ tmpl_text v ++ ws4 ++ pairs_text 44 ps' ++ 125 :: rest in
      (2 * length text + 3 <= fuel)%nat ->
      writes (pmap_loop alloc junk sscanf_lf junk_d fuel text (va_args (pairs_va ps) ++ args) x n) x bs (n + pairs_count ps) rest args
  end.

Lemma elems_text_delimited es c rest : c = 125 \/ c = 93 -> delimited (elems_text 44 es ++ c :: rest).
Proof. intros Hc. destruct es; cbn [elems_text app delimited]; rewrite !elem_of_cons; tauto. Qed.
Lemma pairs_text_delimited ps rest : delimited (pairs_text 44 ps ++ 125 :: rest).
Proof. destruct ps; cbn [pairs_text app delimited]; rewrite !elem_of_cons; tauto. Qed.
Lemma space_delimited ws rest : forallb isspace ws = true -> delimited rest -> delimited (ws ++ rest).
Proof. destruct ws as [|w ws]; [done|]. cbn [forallb app delimited]. intros [Hw _]%andb_true_iff _. tauto. Qed.

Lemma starter_spec c : starter c = true -> isspace c = false /\ c <> 125 /\ c <> 93 /\ c <> 44 /\ c <> 124.
Proof. unfold starter. intros H. split; [destruct (isspace c); [done|done]|]. destruct (isspace c); [done|]. lia. Qed.

Lemma ops_bytes_app ops1 ops2 bs :
  ops_bytes (ops1 ++ ops2) = Some bs -> exists b1 b2, ops_bytes ops1 = Some b1 /\ ops_bytes ops2 = Some b2 /\ bs = b1 ++ b2.
Proof.
  revert bs. induction ops1 as [|op ops1 IH]; intros bs; cbn [app ops_bytes].
  - intros E. by exists [], bs.
  - intros (a & b & Ea & E & ->)%app_bytes_some. destruct (IH b E) as (b1 & b2 & E1 & E2 & ->).
    exists (a ++ b1), b2. rewrite Ea, E1, app_assoc. done.
Qed.

(** Equations of the mutual definitions. *)
Lemma elems_text_cons sep ws t es : elems_text sep (ECons ws t es) = sep :: ws ++ tmpl_text t ++ elems_text 44 es.
Proof. reflexivity. Qed.
Lemma pairs_text_cons sep ws1 k ws2 ws3 v ws4 ps :
  pairs_text sep (PCons ws1 k ws2 ws3 v ws4 ps) =
  sep :: ws1 ++ tmpl_text k ++ ws2 ++ 61 :: 62 :: ws3 ++ tmpl_text v ++ ws4 ++ pairs_text 44 ps.
Proof. reflexivity. Qed.
Lemma elems_ops_cons ws t es : elems_ops (ECons ws t es) = tmpl_ops t ++ elems_ops es.
Proof. reflexivity. Qed.
Lemma pairs_ops_cons ws1 k ws2 ws3 v ws4 ps : pairs_ops (PCons ws1 k ws2 ws3 v ws4 ps) = tmpl_ops k ++ tmpl_ops v ++ pairs_ops ps.
Proof. reflexivity. Qed.
Lemma elems_va_cons ws t es : elems_va (ECons ws t es) = tmpl_va t ++ elems_va es.
Proof. reflexivity. Qed.
Lemma pairs_va_cons ws1 k ws2 ws3 v ws4 ps : pairs_va (PCons ws1 k ws2 ws3 v ws4 ps) = tmpl_va k ++ tmpl_va v ++ pairs_va ps.
Proof. reflexivity. Qed.
Lemma tuple_ops es : tmpl_ops (TTuple es) = OpTupleHeader (elems_count es) :: elems_ops es.
Proof. by destruct es. Qed.
Lemma map_ops ps : tmpl_ops (TMap ps) = OpMapHeader (pairs_count ps) :: pairs_ops ps.
Proof. by destruct ps. Qed.
Lemma list_ops ws t es :
  tmpl_ops (TList (ECons ws t es)) = OpListHeader (elems_count (ECons ws t es)) :: elems_ops (ECons ws t es) ++ [OpEmptyList].
Proof. reflexivity. Qed.

(** The call of a parser on [n] more elements after one that wrote [b1]. *)
Lemma writes_then r k x b1 b2 n rest1 rest args1 args :
  writes r x b1 0 rest1 args1 ->
  (forall x1, x_wf x1 -> x_contents x1 = x_contents x ++ b1 -> writes (k 0 rest1 args1 x1) x1 b2 n rest args) ->
  writes (fbind r k) x (b1 ++ b2) n rest args.
Proof.
  intros (x1 & -> & Hw1 & Hc1) Hk. cbn [fbind]. destruct (Hk x1 Hw1 Hc1) as (x2 & -> & Hw2 & Hc2).
  exists x2. by rewrite Hc2, Hc1, app_assoc.
Qed.

Lemma tuple_nil_ok : tuple_ok ENil.
Proof.
  intros fuel sep rest args x bs n _ _ [Hw _] [= <-] text Hf. destruct fuel as [|fuel]; [lia|].
  exists x. cbn [elems_count]. rewrite Z.add_0_r, app_nil_r. done.
Qed.

(** The white space in front of a term is skipped, and none of the separators is met. *)
Lemma skip_to_term ws t r :
  tmpl_wf t -> forallb isspace ws = true ->
  exists c q, tmpl_text t ++ r = c :: q /\ skip_space (ws ++ tmpl_text t ++ r) = Some (c :: q) /\
    isspace c = false /\ (c =? 125) = false /\ (c =? 93) = false /\ (c =? 44) = false /\ (c =? 124) = false.
Proof.
  intros Ht Hws. destruct (tmpl_text_head t Ht) as (c & q & Et & Hc). apply starter_spec in Hc as (Hsp & H).
  exists c, (q ++ r). rewrite Et. cbn [app]. split_and!; [done|by apply skip_space_ws|done|lia..].
Qed.

Lemma tuple_cons_ok ws t es : format_ok t -> tuple_ok es -> tuple_ok (ECons ws t es).
Proof.
  intros IHt IHes fuel sep rest args x bs n (Hws & Ht & Hes) Hsep Hr E text Hf. unfold text in *. clear text.
  rewrite elems_ops_cons in E. apply ops_bytes_app in E as (b1 & b2 & E1 & E2 & ->). destruct fuel as [|fuel]; [lia|].
  rewrite elems_text_cons, elems_va_cons, va_args_app, <- app_assoc in *. cbn [app elems_count] in *. rewrite <- !app_assoc, Z.add_assoc in *.
  set (r := elems_text 44 es ++ 125 :: rest) in *.
  change (ptuple alloc junk sscanf_lf junk_d (S fuel)) with
    (ptuple_body (eiformat alloc junk sscanf_lf junk_d fuel) (ptuple alloc junk sscanf_lf junk_d fuel)).
  destruct (skip_to_term ws t r Ht Hws) as (c & q & Et & Hsk & _ & H1 & _ & H2 & _).
  unfold ptuple_body. replace (sep =? 125) with false by lia. rewrite Hsk, H1, H2, <- Et.
  apply (writes_then _ _ _ _ _ _ r _ (va_args (elems_va es) ++ args)).
  - apply (IHt fuel []); [done|done|apply elems_text_delimited; tauto|by eapply room_prefix|done|lengths_lia].
  - intros x1 Hw1 Hc1. apply IHes; [done|tauto|by eapply room_app|done|fold r; lengths_lia].
Qed.

Lemma list_nil_ok : list_ok ENil.
Proof.
  intros fuel sep rest args x bs n _ _ Hr E text Hf. destruct fuel as [|fuel]; [lia|].
  apply app_bytes_some in E as (a & b & Ea & [= <-] & ->). rewrite app_nil_r in *.
  destruct (step_appends OpEmptyList x a I Hr Ea) as (x' & Es & H).
  exists x'. cbn [elems_count]. rewrite Z.add_0_r. split; [|exact H].
  change (plist_body alloc junk (eiformat alloc junk sscanf_lf junk_d fuel) (plist alloc junk sscanf_lf junk_d fuel)
    (93 :: rest) args x n = FOk n rest args x').
  unfold plist_body, list_end. cbn [skip_space]. change (ei_x_encode_empty_list alloc junk x) with (x_step alloc junk OpEmptyList x).
  by rewrite Es.
Qed.

Lemma list_cons_ok ws t es : format_ok t -> list_ok es -> list_ok (ECons ws t es).
Proof.
  intros IHt IHes fuel sep rest args x bs n (Hws & Ht & Hes) Hsep Hr E text Hf. unfold text in *. clear text.
  rewrite elems_ops_cons, <- app_assoc in E. apply ops_bytes_app in E as (b1 & b2 & E1 & E2 & ->). destruct fuel as [|fuel]; [lia|].
  rewrite elems_text_cons, elems_va_cons, va_args_app, <- app_assoc in *. cbn [app elems_count] in *. rewrite <- !app_assoc, Z.add_assoc in *.
  set (r := elems_text 44 es ++ 93 :: rest) in *.
  change (plist alloc junk sscanf_lf junk_d (S fuel)) with
    (plist_body alloc junk (eiformat alloc junk sscanf_lf junk_d fuel) (plist alloc junk sscanf_lf junk_d fuel)).
  destruct (skip_to_term ws t r Ht Hws) as (c & q & Et & Hsk & _ & _ & H1 & H2 & H3).
  unfold plist_body. replace (sep =? 93) with false by lia. rewrite Hsk, H1, H2, H3, <- Et. cbn [orb].
  apply (writes_then _ _ _ _ _ _ r _ (va_args (elems_va es) ++ args)).
  - apply (IHt fuel []); [done|done|apply elems_text_delimited; tauto|by eapply room_prefix|done|lengths_lia].
  - intros x1 Hw1 Hc1. replace (sep =? 124) with false by lia. apply IHes; [done|tauto|by eapply room_app|done|fold r; lengths_lia].
Qed.

Lemma map_cons_ok ws1 k ws2 ws3 v ws4 ps : format_ok k -> format_ok v -> map_ok ps -> map_ok (PCons ws1 k ws2 ws3 v ws4 ps).
Proof.
  intros IHk IHv IHps fuel rest args x bs n (Hws1 & Hk & Hws2 & Hws3 & Hv & Hws4 & Hps) Hr E text Hf. unfold text in *. clear text.
  rewrite pairs_ops_cons in E. apply ops_bytes_app in E as (b1 & b23 & E1 & E & ->).
  apply ops_bytes_app in E as (b2 & b3 & E2 & E3 & ->). destruct fuel as [|fuel]; [lia|].
  rewrite pairs_va_cons, !va_args_app, <- !app_assoc. cbn [pairs_count]. rewrite Z.add_assoc.
  set (r := pairs_text 44 ps ++ 125 :: rest) in *. set (r1 := 61 :: 62 :: ws3 ++ tmpl_text v ++ ws4 ++ r) in *.
  change (pmap_loop alloc junk sscanf_lf junk_d (S fuel)) with
    (pmap_turn (eiformat alloc junk sscanf_lf junk_d fuel) (pmap_loop alloc junk sscanf_lf junk_d fuel)).
  unfold pmap_turn. apply (writes_then _ _ _ _ _ _ (ws2 ++ r1) _ (va_args (tmpl_va v) ++ va_args (pairs_va ps) ++ args)).
  { apply (IHk fuel []); [done|done| |by eapply room_prefix|done|lengths_lia].
    apply space_delimited; [done|]. cbn. rewrite !elem_of_cons. tauto. }
  intros x1 Hw1 Hc1. pose proof (room_app _ _ _ _ Hr Hw1 Hc1) as Hr1.
  unfold r1 at 1. rewrite skip_space_ws by done. change (negb ((61 =? 61) && (62 =? 62))) with false. cbn iota.
  apply (writes_then _ _ _ _ _ _ (ws4 ++ r) _ (va_args (pairs_va ps) ++ args)).
  { apply IHv; [done|done|apply space_delimited; [done|apply pairs_text_delimited]|by eapply room_prefix|done|unfold r1 in Hf; lengths_lia]. }
  intros x2 Hw2 Hc2. pose proof (room_app _ _ _ _ Hr1 Hw2 Hc2) as Hr2. destruct ps as [|ws1' k' ws2' ws3' v' ws4' ps'].
  - injection E3 as <-. exists x2. cbn [pairs_count]. rewrite app_nil_r, Z.add_0_r. unfold r. cbn [pairs_text app].
    rewrite skip_space_ws by done. done.
  - destruct Hps as (Hws1' & Hk' & Hps').
    set (q0 := ws2' ++ 61 :: 62 :: ws3' ++ tmpl_text v' ++ ws4' ++ pairs_text 44 ps' ++ 125 :: rest).
    assert (r = 44 :: ws1' ++ tmpl_text k' ++ q0) as Er.
    { unfold r, q0. rewrite pairs_text_cons. cbn [app]. repeat (rewrite <- !app_assoc; cbn [app]). done. }
    rewrite Er. rewrite skip_space_ws by done. change (44 =? 125) with false.
    change (negb (44 =? 44)) with false. cbn iota.
    destruct (skip_to_term ws1' k' q0 Hk' Hws1') as (c & q' & Et & Hsk & _). rewrite Hsk, <- Et.
    apply (IHps fuel rest args x2 b3 (n + 1)); [split; [done|by split]|done|done|].
    fold q0. unfold r1 in Hf. rewrite Er in Hf. lengths_lia.
Qed.

Lemma format_body fuel ws t rest args x :
  tmpl_wf t -> forallb isspace ws = true ->
  eiformat alloc junk sscanf_lf junk_d (S fuel) (ws ++ tmpl_text t ++ rest) args x =
  eiformat_body alloc junk sscanf_lf junk_d (ptuple alloc junk sscanf_lf junk_d fuel) (plist alloc junk sscanf_lf junk_d fuel)
    (pmap alloc junk sscanf_lf junk_d fuel) (tmpl_text t ++ rest) args x.
Proof.
  intros Ht Hws. destruct (skip_to_term ws t rest Ht Hws) as (c & q & Et & _ & Hsp & _). rewrite Et. by apply body_skips.
Qed.

(** A body whose text begins with the character of one of the cases. *)
Ltac body_case := unfold eiformat_body; cbn [skip_space app];
  match goal with |- context [isspace ?c] => change (isspace c) with false end; cbn iota;
  repeat match goal with
  | |- context [Z.eqb ?a ?b] => let r := eval vm_compute in (Z.eqb a b) in change (Z.eqb a b) with r
  end; cbn iota.

Lemma leaf_ok t :
  match t with TTuple _ | TList _ | TMap _ => False | _ => True end -> format_ok t.
Proof.
  intros Hl fuel ws rest args x bs Ht Hws Hd Hr E Hf. destruct fuel as [|fuel]; [lia|]. rewrite format_body by done.
  destruct t as [name|name|n|s|c v|es|es|ps]; [..|done|done|done].
  - destruct Ht as (Hc & Hn & Hlen). destruct name as [|c name]; [done|]. cbn [tmpl_text app].
    rewrite body_default; [|unfold islower in Hc; unfold isspace; lia|unfold islower in Hc; rewrite !not_elem_of_cons; split_and!; [lia..|apply not_elem_of_nil]].
    rewrite default_lower by done. by apply (patom_writes (c :: name)).
  - cbn [tmpl_text app]. rewrite <- app_assoc. body_case. by apply pquotedatom_writes.
  - cbn [tmpl_text]. destruct (default_int n rest (va_args (tmpl_va (TInt n)) ++ args) x Ht) as (c & q & Et & Hc & Ed). rewrite Et, body_default, Ed.
    + by apply pdigit_writes.
    + unfold isdigit in Hc. unfold isspace. lia.
    + unfold isdigit in Hc. rewrite !not_elem_of_cons. split_and!; [lia..|apply not_elem_of_nil].
  - cbn [tmpl_text app]. rewrite <- app_assoc. body_case. by apply pstring_writes.
  - cbn [tmpl_text app]. body_case. by apply pformat_writes.
Qed.

(** The header of a container, and its elements from a new buffer. *)
Lemma header_appends op x hb body :
  op_ok op -> room x (hb ++ body) -> op_bytes op = Some hb ->
  exists x1, x_step alloc junk op x = XOk x1 /\ x_wf x1 /\ x_contents x1 = x_contents x ++ hb.
Proof. intros Ho Hr E. apply step_appends; [done|by eapply room_prefix|done]. Qed.

Lemma tuple_format_ok es : tuple_ok es -> format_ok (TTuple es).
Proof.
  intros IH fuel ws rest args x bs Ht Hws Hd Hr E Hf. destruct fuel as [|fuel]; [lia|]. rewrite format_body by done.
  rewrite tuple_ops in E. apply app_bytes_some in E as (hb & body & Eh & Eb & ->).
  change (va_args (tmpl_va (TTuple es))) with (va_args (elems_va es)).
  pose proof (fun x2 Hr2 => IH fuel 123 rest args x2 body 0 Ht (or_introl eq_refl) Hr2 Eb) as Hb.
  destruct es as [|w t es].
  - cbn [tmpl_text app]. body_case. eapply into_new_writes; [exact Hr|done| |by apply (header_appends (OpTupleHeader 0) x hb body)].
    intros x2 Hr2. exists x2. injection Eb as <-. rewrite app_nil_r. destruct fuel as [|fuel]; [lengths_lia|]. split; [reflexivity|]. split; [apply Hr2|done].
  - cbn zeta in Hb. change (tmpl_text (TTuple (ECons w t es))) with (elems_text 123 (ECons w t es) ++ [125]) in *.
    rewrite <- app_assoc in *. cbn [app] in *. rewrite elems_text_cons in *. body_case.
    eapply into_new_writes; [exact Hr|done| |by apply (header_appends (OpTupleHeader (elems_count (ECons w t es))) x hb body)].
    intros x2 Hr2. apply Hb; [done|lengths_lia].
Qed.

Lemma list_format_ok es : list_ok es -> format_ok (TList es).
Proof.
  intros IH fuel ws rest args x bs Ht Hws Hd Hr E Hf. destruct fuel as [|fuel]; [lia|]. rewrite format_body by done.
  change (va_args (tmpl_va (TList es))) with (va_args (elems_va es)).
  destruct es as [|w t es].
  - cbn [tmpl_text app]. body_case. apply (into_new_writes _ _ x bs [] bs 0); [exact Hr|done| |].
    + intros x2 Hr2. destruct fuel as [|fuel]; [lengths_lia|].
      change (writes (plist alloc junk sscanf_lf junk_d (S fuel) (93 :: rest) args x2 0) x2 bs 0 rest args).
      apply (list_nil_ok (S fuel) 91 rest args x2 bs 0); [done|tauto|done|done|cbn in *; lengths_lia].
    + exists x. rewrite app_nil_r. split; [done|]. split; [apply Hr|done].
  - rewrite list_ops in E. apply app_bytes_some in E as (hb & body & Eh & Eb & ->).
    pose proof (fun x2 Hr2 => IH fuel 91 rest args x2 body 0 Ht (or_introl eq_refl) Hr2 Eb) as Hb.
    cbn zeta in Hb. change (tmpl_text (TList (ECons w t es))) with (elems_text 91 (ECons w t es) ++ [93]) in *.
    rewrite <- app_assoc in *. cbn [app] in *. rewrite elems_text_cons in *. body_case.
    assert (0 < elems_count (ECons w t es)) as Hn.
    { assert (forall es, 0 <= elems_count es) as H by (intros l; induction l; cbn [elems_count]; lia).
      cbn [elems_count]. specialize (H es). lia. }
    eapply into_new_writes; [exact Hr|done|intros x2 Hr2; apply Hb; [done|lengths_lia]|].
    unfold list_header. rewrite Z.add_0_l. replace (0 <? elems_count (ECons w t es)) with true by lia.
    by apply (header_appends (OpListHeader (elems_count (ECons w t es))) x hb body).
Qed.

Lemma map_format_ok ps : map_ok ps -> format_ok (TMap ps).
Proof.
  intros IH fuel ws rest args x bs Ht Hws Hd Hr E Hf. destruct fuel as [|fuel]; [lia|]. rewrite format_body by done.
  rewrite map_ops in E. apply app_bytes_some in E as (hb & body & Eh & Eb & ->).
  change (va_args (tmpl_va (TMap ps))) with (va_args (pairs_va ps)).
  pose proof (fun fuel x2 Hr2 => IH fuel rest args x2 body 0 Ht Hr2 Eb) as Hb.
  destruct ps as [|ws1 k ws2 ws3 v ws4 ps].
  - cbn [tmpl_text app]. body_case. eapply into_new_writes; [exact Hr|done| |by apply (header_appends (OpMapHeader 0) x hb body)].
    intros x2 Hr2. exists x2. injection Eb as <-. rewrite app_nil_r. destruct fuel as [|fuel]; [lengths_lia|]. split; [reflexivity|]. split; [apply Hr2|done].
  - cbn zeta in Hb. change (tmpl_text (TMap (PCons ws1 k ws2 ws3 v ws4 ps))) with (35 :: pairs_text 123 (PCons ws1 k ws2 ws3 v ws4 ps) ++ [125]) in *.
    cbn [app] in *. rewrite <- app_assoc in *. cbn [app] in *. rewrite pairs_text_cons in *. body_case.
    repeat (rewrite <- app_assoc in *; cbn [app] in * ). destruct fuel as [|fuel]; [lengths_lia|].
    eapply into_new_writes; [exact Hr|done| |by apply (header_appends (OpMapHeader (pairs_count (PCons ws1 k ws2 ws3 v ws4 ps))) x hb body)].
    intros x2 Hr2.
    change (pmap alloc junk sscanf_lf junk_d (S fuel)) with (pmap_body (pmap_loop alloc junk sscanf_lf junk_d fuel)).
    unfold pmap_body. destruct Ht as (Hws1 & Hk & _).
    destruct (skip_to_term ws1 k (ws2 ++ 61 :: 62 :: ws3 ++ tmpl_text v ++ ws4 ++ pairs_text 44 ps ++ 125 :: rest) Hk Hws1)
      as (c & q & Et & -> & _ & H125 & _). rewrite H125, <- Et. apply Hb; [done|]. lengths_lia.
Qed.

Lemma all_formats_ok : (forall t, format_ok t) /\ (forall es, tuple_ok es /\ list_ok es) /\ (forall ps, map_ok ps).
Proof.
  apply tmpl_elems_pairs_ind; try (intros; by apply leaf_ok).
  - intros es [H _]. by apply tuple_format_ok.
  - intros es [_ H]. by apply list_format_ok.
  - intros ps H. by apply map_format_ok.
  - split; [apply tuple_nil_ok|apply list_nil_ok].
  - intros ws t Ht es [H1 H2]. split; [by apply tuple_cons_ok|by apply list_cons_ok].
  - intros fuel rest args x bs n _ _ _. exact I.
  - intros ws1 k Hk ws2 ws3 v Hv ws4 ps Hps. by apply map_cons_ok.
Qed.
End Writes.

(** ** The arguments of a text *)

(** Reading the arguments of [l], then of what follows. *)
Definition reads_args (l : list Z) (vas : list (Z * va)) : Prop := forall p ap,
  read_args_loop (l ++ p) (map snd vas ++ ap) = option_map (option_map (app (va_args vas))) (read_args_loop p ap).

Definition no_tilde (l : list Z) : Prop := forallb (fun c => negb (c =? 126)) l = true.

Lemma reads_plain l : no_tilde l -> reads_args l [].
Proof.
  intros H p ap. change (map snd (@nil (Z * va)) ++ ap) with ap.
  assert (option_map (option_map (app (va_args []))) (read_args_loop p ap) = read_args_loop p ap) as ->
    by (by destruct (read_args_loop p ap) as [[?|]|]).
  unfold no_tilde in H. induction l as [|c l IH]; [done|]. cbn [app read_args_loop forallb] in *.
  apply andb_true_iff in H as [-> H]. auto.
Qed.

Lemma reads_app l1 l2 v1 v2 : reads_args l1 v1 -> reads_args l2 v2 -> reads_args (l1 ++ l2) (v1 ++ v2).
Proof.
  intros H1 H2 p ap. rewrite <- app_assoc, map_app, <- app_assoc, H1, H2, va_args_app.
  destruct (read_args_loop p ap) as [[l|]|]; cbn [option_map]; [|done..]. by rewrite app_assoc.
Qed.

Lemma reads_plain_then l1 l2 v : no_tilde l1 -> reads_args l2 v -> reads_args (l1 ++ l2) v.
Proof. intros H1 H2. by apply (reads_app l1 l2 [] v); [apply reads_plain|]. Qed.
Lemma reads_then_plain l1 l2 v : reads_args l1 v -> no_tilde l2 -> reads_args (l1 ++ l2) v.
Proof. intros H1 H2. rewrite <- (app_nil_r v). by apply reads_app, reads_plain. Qed.

Lemma reads_directive c v : tmpl_wf (TArg c v) -> reads_args [126; c] [(c, v)].
Proof.
  cbn [tmpl_wf]. destruct (va_arg c v) as [[a op]|] eqn:Ev; [|done]. intros _ p ap. unfold va_args. cbn [omap list_omap].
  rewrite Ev. cbn [fmap option_fmap option_map fst app map snd read_args_loop]. change (negb (126 =? 126)) with false. cbn iota.
  destruct v; cbn [va_arg] in Ev;
    repeat match type of Ev with
    | (if (c =? ?k) then _ else _) = _ => destruct (Z.eqb_spec c k) as [->|]
    | (if ((c =? ?k) || (c =? ?l)) then _ else _) = _ =>
        destruct (Z.eqb_spec c k) as [->|]; [|destruct (Z.eqb_spec c l) as [->|]]; cbn [orb] in Ev
    end; first [discriminate Ev|injection Ev as <- <-; by destruct (read_args_loop p ap) as [[?|]|]].
Qed.

Lemma no_tilde_forallb f l : (forall c, f c = true -> c <> 126) -> forallb f l = true -> no_tilde l.
Proof.
  intros Hf. unfold no_tilde. induction l as [|c l IH]; cbn [forallb]; [done|]. intros [Hc H]%andb_true_iff.
  rewrite IH by done. apply Hf in Hc. lia.
Qed.
Lemma no_tilde_app l1 l2 : no_tilde l1 -> no_tilde l2 -> no_tilde (l1 ++ l2).
Proof. unfold no_tilde. rewrite forallb_app. by intros -> ->. Qed.
Lemma no_tilde_space ws : forallb isspace ws = true -> no_tilde ws.
Proof. apply no_tilde_forallb. unfold isspace. lia. Qed.
Lemma no_tilde_int n : in_s 64 n -> no_tilde (int_text n).
Proof.
  unfold in_s, int_text. intros Hn. assert (forall n, 0 <= n < 10 ^ 20 -> no_tilde (digits 20 n)) as H.
  { intros k Hk. destruct (digits_ok 20 k Hk ltac:(lia)) as (Hb & _). revert Hb. apply no_tilde_forallb. unfold isdigit. lia. }
  destruct (Z.ltb_spec n 0); [apply (no_tilde_app [45]); [done|]; apply H; lia|apply H; lia].
Qed.

Lemma text_reads_args :
  (forall t, tmpl_wf t -> reads_args (tmpl_text t) (tmpl_va t)) /\
  (forall es sep, elems_wf es -> sep <> 126 -> reads_args (elems_text sep es) (elems_va es)) /\
  (forall ps sep, pairs_wf ps -> sep <> 126 -> reads_args (pairs_text sep ps) (pairs_va ps)).
Proof.
  apply tmpl_elems_pairs_ind.
  - intros name (_ & H & _). apply reads_plain. revert H. apply no_tilde_forallb. unfold atom_char, isalnum, isdigit, islower. lia.
  - intros name (H & _). apply reads_plain, (no_tilde_app [39]), no_tilde_app; [done| |done]. revert H. apply no_tilde_forallb. unfold plain_char. lia.
  - intros n H. apply reads_plain. by apply no_tilde_int.
  - intros s H. apply reads_plain, (no_tilde_app [34]), no_tilde_app; [done| |done]. revert H. apply no_tilde_forallb. unfold plain_char. lia.
  - intros c v H. by apply reads_directive.
  - intros es IH H. destruct es as [|w t es]; [by apply reads_plain|]. apply (reads_then_plain (elems_text 123 _)); [|done]. by apply IH.
  - intros es IH H. destruct es as [|w t es]; [by apply reads_plain|]. apply (reads_then_plain (elems_text 91 _)); [|done]. by apply IH.
  - intros ps IH H. destruct ps as [|w1 k w2 w3 v w4 ps]; [by apply reads_plain|].
    apply (reads_plain_then [35] (pairs_text 123 (PCons w1 k w2 w3 v w4 ps) ++ [125])); [done|]. apply reads_then_plain; [by apply IH|done].
  - intros sep _ _. by apply reads_plain.
  - intros ws t IHt es IHes sep (Hws & Ht & Hes) Hs. rewrite elems_text_cons, elems_va_cons. apply (reads_plain_then [sep]); [unfold no_tilde; cbn [forallb]; lia|].
    apply reads_plain_then; [by apply no_tilde_space|]. apply reads_app; [by apply IHt|by apply IHes].
  - intros sep _ _. by apply reads_plain.
  - intros ws1 k IHk ws2 ws3 v IHv ws4 ps IHps sep (Hws1 & Hk & Hws2 & Hws3 & Hv & Hws4 & Hps) Hs. rewrite pairs_text_cons, pairs_va_cons.
    apply (reads_plain_then [sep]); [unfold no_tilde; cbn [forallb]; lia|]. apply reads_plain_then; [by apply no_tilde_space|].
    apply reads_app; [by apply IHk|]. apply reads_plain_then; [by apply no_tilde_space|].
    apply (reads_plain_then [61; 62]); [done|]. apply reads_plain_then; [by apply no_tilde_space|].
    apply reads_app; [by apply IHv|]. apply reads_plain_then; [by apply no_tilde_space|by apply IHps].
Qed.

Lemma no_directives l ap : arg_count l = 0 -> read_args_loop l ap = Some (Some []).
Proof.
  unfold arg_count. induction l as [|c l IH]; [done|]. cbn [List.filter read_args_loop].
  destruct (c =? 126); [intros H; pose proof (zlen_nonneg (List.filter (fun c => c =? 126) l)); rewrite zlen_cons in H; lia|]. exact IH.
Qed.

Lemma tmpl_args_read alloc t :
  (forall n, alloc n = true) -> tmpl_wf t -> read_args alloc (tmpl_text t) (map snd (tmpl_va t)) = Some (Some (va_args (tmpl_va t))).
Proof.
  intros Ha Ht. destruct text_reads_args as [H _]. specialize (H t Ht [] []). rewrite !app_nil_r in H.
  cbn [read_args_loop option_map] in H. rewrite app_nil_r in H. unfold read_args. rewrite Ha. cbn [negb].
  destruct (Z.eqb_spec (arg_count (tmpl_text t)) 0) as [E|]; [|exact H]. by rewrite (no_directives _ _ E) in H.
Qed.

(** Without the version. *)
Lemma format_wo_ver_writes alloc junk scan d t x bs fuel :
  (forall n, length (junk n) = n) -> (forall n, alloc n = true) ->
  tmpl_wf t -> ops_bytes (tmpl_ops t) = Some bs -> room x bs -> (2 * length (tmpl_text t) + 4 <= fuel)%nat ->
  exists x', ei_x_format_wo_ver alloc junk scan d fuel x (tmpl_text t) (map snd (tmpl_va t)) = FOk 0 [0] [] x' /\
    x_wf x' /\ x_contents x' = x_contents x ++ bs.
Proof.
  intros Hj Ha Ht E Hr Hf. unfold ei_x_format_wo_ver. rewrite tmpl_args_read by done.
  destruct (proj1 (all_formats_ok alloc junk Hj Ha scan d) t fuel [] [0] [] x bs) as (x2 & E2 & H);
    [done|done|cbn; rewrite !elem_of_cons; tauto|done|done|lengths_lia|].
  rewrite app_nil_r in E2. exists x2. split; [exact E2|exact H].
Qed.

(** ** Staying inside of the text *)

(** A character of a text without directives; [brackets] tells if it may have tuples,
    lists and maps. *)
Definition text_char (brackets : bool) (c : Z) : Prop :=
  0 < c < 256 /\ c <> 126 /\ (brackets = false -> c <> 91 /\ c <> 123).

Section Inside.
Variable alloc : Z -> bool.
Variable junk : nat -> list Z.
Hypothesis junk_length : forall n, length (junk n) = n.
Variable sscanf_lf : list Z -> option Z.
Variable junk_d : Z.
Variable brackets : bool.
(** What is behind the text in memory, from the NUL on. *)
Variable behind : list Z.
Hypothesis behind_nul : exists r, behind = 0 :: r.
Hypothesis behind_bytes : bytes_ok behind.

Definition inside (p : list Z) : Prop := exists q, Forall (text_char brackets) q /\ p = q ++ behind.

(** There is room for 20 bytes for every character that is left. *)
Definition fits (x : ei_x_buff) (n : Z) : Prop := x_wf x /\ x_index x + 20 * n + 2 * ei_x_extra < 2 ^ 31.

(** The function returned, or failed: what is left is inside of the text, and for every
    character read at most 20 bytes were written, [s] less in all. *)
Definition kept (x : ei_x_buff) (n s : Z) (r : fres) : Prop :=
  match r with
  | FOk _ p _ x' => inside p /\ x_wf x' /\ x_index x <= x_index x' /\ x_index x' + 20 * zlen p + s <= x_index x + 20 * n
  | FErr _ => True
  | FOob | FFuel => False
  end.

Lemma kept_from x n s x' n' r :
  x_index x <= x_index x' -> x_index x' + 20 * n' <= x_index x + 20 * n -> kept x' n' s r -> kept x n s r.
Proof. destruct r; cbn; [|done..]. intros H1 H2 (? & ? & ?). split; [done|]. split; [done|lia]. Qed.

Lemma fits_from x n x' n' : fits x n -> x_wf x' -> x_index x' + 20 * n' <= x_index x + 20 * n -> fits x' n'.
Proof. intros [_ H] Hw Hi. split; [done|lia]. Qed.

(** What a call leaves is what the next one starts with. *)
Lemma kept_bind x n s s' r k :
  kept x n s r -> 0 <= s -> fits x n ->
  (forall res p args x', inside p -> fits x' (zlen p) -> 20 * zlen p + s <= 20 * n ->
     kept x' (zlen p) s' (k res p args x')) ->
  kept x n s' (fbind r k).
Proof.
  intros Hr Hs Hf Hk. destruct r as [res p args x'| | |]; cbn [fbind kept] in *; [|done..]. destruct Hr as (Hp & Hw & Hm & Hi).
  eapply kept_from; [exact Hm| |apply Hk; [done| |lia]]; [lia|]. eapply fits_from; [exact Hf|done|lia].
Qed.

Lemma inside_cons c p : inside (c :: p) -> (c = 0 /\ c :: p = behind) \/ (text_char brackets c /\ inside p).
Proof.
  intros ([|d q] & Hq & E).
  - left. cbn [app] in E. destruct behind_nul as [r Er]. rewrite <- E in Er. by injection Er as -> _.
  - right. injection E as -> ->. apply Forall_cons_1 in Hq as [Hd Hq]. split; [done|]. by exists q.
Qed.

Lemma inside_tail c p : inside (c :: p) -> c <> 0 -> text_char brackets c /\ inside p.
Proof. by intros [[-> _]|H]%inside_cons. Qed.

Lemma inside_bytes p : inside p -> bytes_ok p.
Proof.
  intros (q & Hq & ->). apply Forall_app. split; [|done]. eapply Forall_impl; [|exact Hq]. unfold text_char, byte_ok. lia.
Qed.

Lemma skip_space_inside p : inside p -> exists c q, skip_space p = Some (c :: q) /\ inside (c :: q) /\ zlen (c :: q) <= zlen p.
Proof.
  intros (q & Hq & ->). induction Hq as [|c q Hc Hq IH].
  - destruct behind_nul as [r Er]. rewrite Er. exists 0, r. split; [done|]. split; [|done]. exists []. split; [constructor|by rewrite Er].
  - cbn [app skip_space]. destruct (isspace c).
    + destruct IH as (d & p & E & Hi & Hl). exists d, p. split; [done|]. split; [done|]. rewrite (zlen_cons c). lia.
    + exists c, (q ++ behind). split; [done|]. split; [|done]. exists (c :: q). by split; [constructor|].
Qed.

Lemma patom_loop_inside p : inside p -> exists q, patom_loop p = Some q /\ inside q.
Proof.
  intros (q & Hq & ->). induction Hq as [|c q Hc Hq (p & E & Hi)].
  - destruct behind_nul as [r Er]. rewrite Er. exists (0 :: r). split; [done|]. exists []. split; [constructor|by rewrite Er].
  - cbn [app patom_loop]. destruct (_ || _); [by exists p|]. exists (c :: q ++ behind). split; [done|]. exists (c :: q). by split; [constructor|].
Qed.

Lemma pdigit_loop_inside p d : inside p -> exists q e, pdigit_loop p d = Some (q, e) /\ inside q.
Proof.
  intros (q & Hq & ->). revert d. induction Hq as [|c q Hc Hq IH]; intros d.
  - destruct behind_nul as [r Er]. rewrite Er. exists (0 :: r), d. split; [by destruct d|]. exists []. split; [constructor|by rewrite Er].
  - cbn [app pdigit_loop]. destruct (isdigit c); [apply IH|]. destruct (_ && _); [apply IH|].
    exists (c :: q ++ behind), d. split; [done|]. exists (c :: q). by split; [constructor|].
Qed.

Lemma quoted_loop_inside quote p :
  quote <> 0 -> inside p -> quoted_loop quote p = Some None \/ exists q, quoted_loop quote p = Some (Some q) /\ inside q /\ zlen q + 1 <= zlen p.
Proof.
  intros Hn (q & Hq & ->). induction Hq as [|c q Hc Hq IH].
  - destruct behind_nul as [r Er]. rewrite Er. by left.
  - assert (quoted_loop quote (q ++ behind) = Some None \/ exists p, quoted_loop quote (q ++ behind) = Some (Some p) /\ inside p /\
      zlen p + 1 <= zlen ((c :: q) ++ behind)) as IH'.
    { destruct IH as [IH|(p & E & Hi & Hl)]; [by left|]. right. exists p. split; [done|]. split; [done|]. cbn [app]. rewrite zlen_cons. lia. }
    cbn [app quoted_loop]. destruct (c =? 0); [by left|]. destruct (c =? quote); [|exact IH']. destruct (c =? 92); [exact IH'|].
    right. exists (q ++ behind). split; [done|]. split; [by exists q|]. rewrite zlen_cons. lia.
Qed.

(** *** The parts *)

Lemma of_x_kept r o x n s p args :
  appends alloc x o r -> x_wf x -> inside p ->
  match o with Some bs => zlen bs + 20 * zlen p + s <= 20 * n | None => True end -> kept x n s (of_x r p args).
Proof.
  intros Ha Hw Hp Hl. destruct o as [bs|]; cbn [appends] in Ha; [|by subst r]. destruct Ha as [(x' & -> & Hw' & Hc)|[-> _]]; [|done].
  split; [done|]. split; [done|]. pose proof (x_index_contents x Hw). pose proof (x_index_contents x' Hw') as H'.
  rewrite Hc, zlen_app in H'. pose proof (zlen_nonneg bs). lia.
Qed.

(** A call of an encoder that writes [k] bytes at most. *)
Lemma encode_kept f o x n s p args :
  Emits f o -> fits x n -> inside p -> 0 <= s ->
  match o with Some bs => zlen bs + 20 * zlen p + s <= 20 * n | None => True end ->
  kept x n s (of_x (x_encode alloc junk f x) p args).
Proof.
  intros He [Hw Hr] Hp Hs Hl. apply (of_x_kept _ o); [|done..]. apply emits_appends; [done|done|done|].
  destruct o as [bs|]; [|done]. pose proof (zlen_nonneg p). lia.
Qed.

Lemma zlen_latin1 src k d o f : latin1_to_utf8_loop src k d = Some (o, f) -> zlen o <= 2 * zlen src.
Proof.
  revert k o f. induction src as [|c src IH]; intros k o f; cbn [latin1_to_utf8_loop]; [intros [= <- _]; done|].
  destruct (d <=? k); [done|]. rewrite zlen_cons. destruct (Z.land c 0x80 =? 0).
  - destruct (latin1_to_utf8_loop src (k + 1) d) as [[o' f']|] eqn:E; [|done]. intros [= <- _]. apply IH in E. rewrite zlen_cons. lia.
  - destruct (latin1_to_utf8_loop src (k + 2) d) as [[o' f']|] eqn:E; [|done]. intros [= <- _]. apply IH in E. rewrite !zlen_cons. lia.
Qed.

Lemma zlen_atom_bytes src bs : bytes_ok src -> atom_bytes src ERLANG_LATIN1 = Some bs -> zlen bs <= 3 + 2 * zlen src.
Proof.
  intros Hs. unfold atom_bytes. destruct (_ && _); [done|]. change (ERLANG_LATIN1 =? ERLANG_LATIN1) with true. cbn iota.
  rewrite latin1_fast_track by done. destruct (latin1_to_utf8_loop src 0 _) as [[o f]|] eqn:E; [|done]. intros [= <-].
  apply zlen_latin1 in E. pose proof (zlen_atom_ext (128 <=? zlen src) o). lia.
Qed.

Lemma atom_len_kept x n s start len p args :
  bytes_ok start -> 0 <= len <= zlen start -> fits x n -> inside p -> 0 <= s -> 3 + 2 * len + 20 * zlen p + s <= 20 * n ->
  kept x n s (of_x (ei_x_encode_atom_len alloc junk x start len) p args).
Proof.
  intros Hs Hl Hf Hp H0 Hc. apply (encode_kept _ _ _ _ _ _ _ (ei_encode_atom_len_as_emits start len ERLANG_LATIN1 ERLANG_LATIN1 Hs Hl)); [done..|].
  destruct (atom_bytes _ _) as [bs|] eqn:E; [|done]. apply zlen_atom_bytes in E; [|by apply Forall_take]. rewrite zlen_take in E by done. lia.
Qed.

Lemma patom_kept c q args x :
  isalnum c = true -> inside (c :: q) -> fits x (zlen (c :: q)) -> kept x (zlen (c :: q)) 6 (patom alloc junk (c :: q) args x).
Proof.
  intros Hc Hi Hf. assert (c <> 0) as H0 by (intros ->; done). destruct (inside_tail c q Hi H0) as [_ Hq].
  unfold patom. cbn [patom_loop]. rewrite Hc. cbn [orb]. destruct (patom_loop_inside q Hq) as (p & E & Hp). rewrite E.
  apply patom_loop_le in E. set (len := zlen (c :: q) - zlen p). assert (1 <= len <= zlen (c :: q)) as Hl by (unfold len, zlen; cbn [length]; lia).
  apply atom_len_kept; [by apply inside_bytes|destruct (MAXATOMLEN <=? len) eqn:?; unfold MAXATOMLEN in *; lia|done|done|done|].
  destruct (Z.leb_spec MAXATOMLEN len); unfold MAXATOMLEN in *; unfold len in *; lia.
Qed.

Lemma pdigit_kept c q args x :
  isdigit c || (c =? 45) || (c =? 43) = true -> inside (c :: q) -> fits x (zlen (c :: q)) ->
  kept x (zlen (c :: q)) 6 (pdigit alloc junk sscanf_lf junk_d (c :: q) args x).
Proof.
  intros Hc Hi Hf. assert (c <> 0) as H0 by (intros ->; done). destruct (inside_tail c q Hi H0) as [_ Hq].
  unfold pdigit. assert (pdigit_loop (if (c =? 45) || (c =? 43) then q else c :: q) false = pdigit_loop q false) as ->.
  { destruct ((c =? 45) || (c =? 43)) eqn:Es; [done|]. cbn [pdigit_loop]. rewrite <- orb_assoc, Es, orb_false_r in Hc. by rewrite Hc. }
  destruct (pdigit_loop_inside q false Hq) as (p & e & E & Hp). rewrite E. apply pdigit_loop_le in E.
  assert (20 * zlen p + 20 <= 20 * zlen (c :: q)) as Hl by (unfold zlen; cbn [length]; lia). destruct Hf as [Hw Hr].
  assert (forall op, op_ok op -> match op_bytes op with Some bs => zlen bs <= 11 | None => True end ->
    kept x (zlen (c :: q)) 6 (of_x (x_step alloc junk op x) p args)) as Hop.
  { intros op Hok Hb. apply (of_x_kept _ (op_bytes op)); [|done|done|destruct (op_bytes op); [lia|done]].
    apply x_step_appends; [done|done|done|]. destruct (op_bytes op); [|done]. pose proof (zlen_nonneg p). lia. }
  destruct e.
  - apply (Hop (OpDouble (default junk_d (sscanf_lf (c :: q)))) I). cbn [op_bytes]. destruct (isfinite _); [by vm_compute|done].
  - apply (Hop (OpLong (sscanf_ld (c :: q))) I). apply zlen_longlong_bytes.
Qed.

Lemma pstring_kept q args x :
  inside q -> fits x (zlen (34 :: q)) -> kept x (zlen (34 :: q)) 6 (pstring alloc junk (34 :: q) args x).
Proof.
  intros Hq Hf. unfold pstring. change (drop 1 (34 :: q)) with q. destruct (quoted_loop_inside 34 q ltac:(lia) Hq) as [->|(p & -> & Hp & Hl)]; [done|].
  pose proof (zlen_nonneg p). assert (0 <= zlen q - zlen p - 1 <= zlen q) as Hlen by lia.
  apply (encode_kept _ _ _ _ _ _ _ (ei_encode_string_len_emits q _ Hlen)); [done|done|done|]. rewrite zlen_cons. unfold string_bytes.
  pose proof (zlen_chars_bytes (take (Z.to_nat (zlen q - zlen p - 1)) q)) as Hc. rewrite !zlen_take in * by lia.
  destruct (_ =? 0); [change (zlen [ERL_NIL_EXT]) with 1; lia|]. destruct (_ <=? _).
  - rewrite zlen_cons, zlen_app, zlen_take by lia. change (zlen (be_bytes 2 _)) with 2. lia.
  - rewrite zlen_cons, !zlen_app, Hc. change (zlen (be_bytes 4 _)) with 4. change (zlen [ERL_NIL_EXT]) with 1. lia.
Qed.

Lemma pquotedatom_kept q args x :
  inside q -> fits x (zlen (39 :: q)) -> kept x (zlen (39 :: q)) 6 (pquotedatom alloc junk (39 :: q) args x).
Proof.
  intros Hq Hf. unfold pquotedatom. change (drop 1 (39 :: q)) with q. destruct (quoted_loop_inside 39 q ltac:(lia) Hq) as [->|(p & -> & Hp & Hl)]; [done|].
  pose proof (zlen_nonneg p). rewrite zlen_cons in *. apply atom_len_kept; [by apply inside_bytes|lia|done|done|done|lia].
Qed.

Lemma eiformat_default_kept c q args x :
  inside (c :: q) -> fits x (zlen (c :: q)) -> kept x (zlen (c :: q)) 6 (eiformat_default alloc junk sscanf_lf junk_d c q args x).
Proof.
  intros Hi Hf. unfold eiformat_default. destruct (isdigit c) eqn:Ed; [apply pdigit_kept; [by rewrite Ed|done..]|].
  assert (kept x (zlen (c :: q)) 6 (if islower c then patom alloc junk (c :: q) args x else FErr x)) as Ha.
  { destruct (islower c) eqn:El; [|done]. apply patom_kept; [|done..]. unfold isalnum. by rewrite El, orb_true_r. }
  destruct q as [|c1 r].
  - destruct ((c =? 45) || (c =? 43)) eqn:Es; [|exact Ha]. destruct (inside_tail c [] Hi) as [_ (z & _ & Hz)]; [lia|].
    destruct behind_nul as [r Er]. rewrite Er in Hz. by destruct z.
  - destruct ((c =? 45) || (c =? 43)) eqn:Es; [|exact Ha]. cbn [andb]. destruct (isdigit c1); [|exact Ha].
    apply pdigit_kept; [by rewrite <- orb_assoc, Es, orb_true_r|done..].
Qed.

(** A header of at most five bytes in front of what a new buffer got. *)
Lemma into_new_kept build header x n :
  fits x n -> (forall x2, fits x2 n -> kept x2 n 11 (build x2)) ->
  (forall res, exists o, appends alloc x o (header res x) /\ match o with Some bs => zlen bs <= 5 | None => True end) ->
  kept x n 6 (into_new alloc junk build header x).
Proof.
  intros Hf Hb Hh. unfold into_new. destruct (ei_x_new alloc junk) as [x2| |] eqn:En; [|done|by unfold ei_x_new in En; destruct (ei_malloc _ _ _)].
  destruct (ei_x_new_wf _ _ junk_length _ En) as [Hw2 Hc2]. pose proof (x_index_contents x2 Hw2) as Hi2. rewrite Hc2 in Hi2. change (zlen []) with 0 in Hi2.
  destruct Hf as [Hw Hr]. assert (0 <= x_index x) by (destruct Hw as (? & _ & _ & ?); lia).
  specialize (Hb x2 ltac:(split; [done|lia])). destruct (build x2) as [res p args x3| | |]; cbn [kept] in Hb; [|done..].
  destruct Hb as (Hp & Hw3 & Hm3 & Hi3). destruct (Hh res) as (o & Ha & Ho).
  destruct o as [hb|]; cbn [appends] in Ha; [|by rewrite Ha]. destruct Ha as [(x1 & -> & Hw1 & Hc1)|[-> _]]; [|done].
  rewrite (append_contents _ _ x1 x3 Hw3).
  change (ei_x_append_buf alloc junk x1 ?l (zlen ?l)) with (x_step alloc junk (OpAppendBuf l) x1). pose proof (x_index_contents x3 Hw3) as Hz3. pose proof (x_index_contents x1 Hw1) as Hz1.
  pose proof (x_index_contents x Hw) as Hz. rewrite Hc1, zlen_app in Hz1. pose proof (zlen_nonneg p).
  assert (appends alloc x1 (Some (x_contents x3)) (x_step alloc junk (OpAppendBuf (x_contents x3)) x1)) as Happ.
  { apply (x_step_appends alloc junk junk_length (OpAppendBuf (x_contents x3)) x1 I Hw1). cbn [op_bytes]. lia. }
  destruct Happ as [(x4 & -> & Hw4 & Hc4)|[-> _]]; [|done]. split; [done|]. split; [done|].
  pose proof (x_index_contents x4 Hw4) as Hz4. rewrite Hc4, Hc1, !zlen_app in Hz4. pose proof (zlen_nonneg hb). lia.
Qed.

Lemma short_appends op x n :
  op_ok op -> fits x n -> 1 <= n -> match op_bytes op with Some bs => zlen bs <= 5 | None => True end ->
  exists o, appends alloc x o (x_step alloc junk op x) /\ match o with Some bs => zlen bs <= 5 | None => True end.
Proof.
  intros Hok [Hw Hr] Hn Hl. exists (op_bytes op). split; [|done]. apply x_step_appends; [done..|]. destruct (op_bytes op); [lia|done].
Qed.

(** [eiformat], given what it calls. *)
Lemma eiformat_body_kept ptuple plist pmap p args x :
  inside p -> fits x (zlen p) ->
  (brackets = true -> forall q y, inside q -> (length q <= length p)%nat -> fits y (zlen q) -> kept y (zlen q) 11 (ptuple q args y 0)) ->
  (brackets = true -> forall q y, inside q -> (length q <= length p)%nat -> fits y (zlen q) -> kept y (zlen q) 11 (plist q args y 0)) ->
  (brackets = true -> forall q y, inside q -> (length q + 2 <= length p)%nat -> fits y (zlen q) -> kept y (zlen q) 11 (pmap q args y)) ->
  kept x (zlen p) 6 (eiformat_body alloc junk sscanf_lf junk_d ptuple plist pmap p args x).
Proof.
  intros Hp Hf Ht Hl Hm. unfold eiformat_body. destruct (skip_space_inside p Hp) as (c & q & -> & Hi & Hz).
  pose proof (zlen_nonneg q) as Hq0. pose proof (zlen_cons c q) as Hcq.
  assert (fits x (zlen (c :: q))) as Hf' by (destruct Hf; split; [done|lia]). apply (kept_from x (zlen p) 6 x (zlen (c :: q))); [lia|lia|].
  assert (c = 91 \/ c = 123 -> brackets = true) as Hbr.
  { intros Hc. destruct (inside_tail c q Hi) as [(_ & _ & Hb) _]; [lia|]. destruct brackets; [done|]. destruct (Hb eq_refl). lia. }
  destruct (Z.eqb_spec c 126) as [->|H1]; [destruct (inside_tail 126 q Hi) as [(_ & ? & _) _]; lia|].
  destruct (Z.eqb_spec c 91) as [->|H2].
  { apply into_new_kept; [done|intros; apply Hl; [auto|done|unfold zlen in Hz; lia|done]|]. intros res. unfold list_header. destruct (0 <? res).
    - apply (short_appends (OpListHeader res) x _ I Hf' ltac:(lia)). cbn [op_bytes]. unfold list_header_bytes. repeat destruct (_ <? _); try destruct (_ <=? _); by vm_compute.
    - exists (Some []). split; [|by vm_compute]. left. exists x. rewrite app_nil_r. by destruct Hf'. }
  destruct (Z.eqb_spec c 123) as [->|H3].
  { apply into_new_kept; [done|intros; apply Ht; [auto|done|unfold zlen in Hz; lia|done]|]. intros res.
    apply (short_appends (OpTupleHeader res) x _ I Hf' ltac:(lia)). cbn [op_bytes]. unfold tuple_header_bytes. repeat destruct (_ <? _); try destruct (_ <=? _); by vm_compute. }
  destruct (Z.eqb_spec c 34) as [->|H4]; [apply pstring_kept; [by apply (inside_tail 34)|done]|].
  destruct (Z.eqb_spec c 39) as [->|H5]; [apply pquotedatom_kept; [by apply (inside_tail 39)|done]|].
  pose proof (eiformat_default_kept c q args x Hi Hf') as Ho.
  destruct (Z.eqb_spec c 35) as [->|H6]; [|exact Ho]. destruct (inside_tail 35 q Hi) as [_ Hq]; [lia|]. destruct q as [|c1 r].
  { destruct Hq as (z & _ & Hz'). destruct behind_nul as [? Er]. rewrite Er in Hz'. by destruct z. }
  destruct (Z.eqb_spec c1 123) as [->|H7]; [|exact Ho]. destruct (inside_tail 123 r Hq) as [(_ & _ & Hb) Hr]; [lia|].
  assert (brackets = true) as Hb' by (destruct brackets; [done|]; destruct (Hb eq_refl); lia).
  rewrite !zlen_cons in *. apply into_new_kept; [done| |].
  - intros y Hy. pose proof (zlen_nonneg r). eapply (kept_from y _ 11 y (zlen r)); [lia|lia|]. apply Hm; [done|done|unfold zlen in Hz; lia|]. destruct Hy. split; [done|lia].
  - intros res. apply (short_appends (OpMapHeader res) x _ I Hf' ltac:(lia)). cbn [op_bytes]. unfold map_header_bytes. repeat destruct (_ <? _); try destruct (_ <=? _); by vm_compute.
Qed.
End Inside.

(** *** The functions that call each other

    A tuple or a list that is not closed is read one character behind the NUL; with
    another NUL there, everything stays inside. *)
Section TwoNuls.
Variable alloc : Z -> bool.
Variable junk : nat -> list Z.
Hypothesis junk_length : forall n, length (junk n) = n.
Variable sscanf_lf : list Z -> option Z.
Variable junk_d : Z.

Definition nuls : list Z := [0; 0].
#[local] Notation within := (inside true nuls).
#[local] Notation stays := (kept true nuls).

Lemma nuls_nul : exists r, nuls = 0 :: r.
Proof. by exists [0]. Qed.

Lemma within_cons c p : within (c :: p) -> (c = 0 /\ p = [0]) \/ within p.
Proof. intros [[-> E]|[_ H]]%(inside_cons true nuls nuls_nul); [left|by right]. by injection E as ->. Qed.

Lemma within_tail c p : within (c :: p) -> c <> 0 -> within p.
Proof. by intros [[-> _]|H]%within_cons. Qed.

(** Nothing is written for characters that are passed over. *)
Lemma stays_skip x n s k p r :
  fits x n -> zlen p + k <= n -> 0 <= k -> within p -> (fits x (zlen p) -> stays x (zlen p) s r) -> stays x n s r.
Proof.
  intros Hf Hl Hk Hp Hr. assert (fits x (zlen p)) as Hf' by (destruct Hf; split; [done|lia]).
  eapply (kept_from true nuls x n s x (zlen p)); [lia|lia|by apply Hr].
Qed.

Lemma stays_done x n s size p args : fits x n -> 20 * zlen p + s <= 20 * n -> within p -> stays x n s (FOk size p args x).
Proof. intros [Hw _] Hl Hp. split; [done|]. split; [done|lia]. Qed.

Lemma skip_space_within p :
  within p -> exists c q, skip_space p = Some (c :: q) /\ within (c :: q) /\ zlen q + 1 <= zlen p /\ (length q + 1 <= length p)%nat.
Proof.
  intros (c & q & E & Hi & Hl)%(skip_space_inside true nuls nuls_nul). exists c, q. rewrite zlen_cons in Hl. unfold zlen in *.
  split_and!; [done|done|lia|lia].
Qed.

Lemma ptuple_body_stays eiformat ptuple p args x n :
  within p -> fits x (zlen p) -> (forall args x, eiformat [0] args x = FErr x) ->
  (forall q args x, within q -> (length q + 1 <= length p)%nat -> fits x (zlen q) -> stays x (zlen q) 6 (eiformat q args x)) ->
  (forall q args x n, within q -> (length q + 2 <= length p)%nat -> fits x (zlen q) -> stays x (zlen q) 11 (ptuple q args x n)) ->
  stays x (zlen p) 11 (ptuple_body eiformat ptuple p args x n).
Proof.
  intros Hp Hf H0 He Ht. unfold ptuple_body. destruct p as [|after q]; [by destruct Hp as ([|? ?] & _ & [=])|].
  destruct (within_cons after q Hp) as [[-> ->]|Hq]; [cbn; by rewrite H0|]. pose proof (zlen_cons after q) as Hz.
  destruct (after =? 125); [apply stays_done; [done|lia|done]|].
  destruct (skip_space_within q Hq) as (c & r & -> & Hi & Hl & Hl'). cbn [length] in *.
  destruct (Z.eqb_spec c 125) as [->|_].
  { destruct (after =? 44); [done|]. apply stays_done; [done|lia|by apply (within_tail 125)]. }
  destruct (Z.eqb_spec c 44) as [->|_].
  { destruct (_ || _); [done|]. apply within_tail in Hi; [|done]. apply (stays_skip x _ 11 2 r); [done|lia|lia|done|]. apply Ht; [done|lia]. }
  apply (stays_skip x _ 11 1 (c :: r)); [done|rewrite zlen_cons; lia|lia|done|]. intros Hf1.
  eapply (kept_bind true nuls x (zlen (c :: r)) 6 11); [by apply He; [|cbn [length]; lia|]|lia|done|].
  intros res p' args' x' Hp' Hf' Hc. apply Ht; [done|unfold zlen in Hc; cbn [length] in Hc; lia|done].
Qed.

Lemma list_end_stays x n : fits x n -> 1 <= n ->
  match list_end alloc junk x with Some x' => x_wf x' /\ x_index x <= x_index x' <= x_index x + 1 | None => False end.
Proof.
  intros [Hw Hr] Hn. unfold list_end. pose proof (x_step_appends alloc junk junk_length OpEmptyList x I Hw) as Ha. cbn [op_bytes x_step appends] in Ha.
  destruct Ha as [(x' & -> & Hw' & Hc)|[-> _]]; [change (zlen [ERL_NIL_EXT]) with 1; lia| |split; [done|lia]]. split; [done|].
  pose proof (x_index_contents x Hw). pose proof (x_index_contents x' Hw') as H'. rewrite Hc, zlen_app in H'. change (zlen [ERL_NIL_EXT]) with 1 in H'. lia.
Qed.

Lemma list_closed x n size p args :
  fits x n -> zlen p + 1 <= n -> within p -> stays x n 11 (match list_end alloc junk x with Some x => FOk size p args x | None => FOob end).
Proof.
  intros Hf Hl Hp. pose proof (zlen_nonneg p). pose proof (list_end_stays x n Hf ltac:(lia)) as He.
  destruct (list_end alloc junk x) as [x'|]; [|done]. destruct He. split; [done|]. split; [done|lia].
Qed.

Lemma plist_body_stays eiformat plist p args x n :
  within p -> fits x (zlen p) -> (forall args x, eiformat [0] args x = FErr x) ->
  (forall q args x, within q -> (length q + 1 <= length p)%nat -> fits x (zlen q) -> stays x (zlen q) 6 (eiformat q args x)) ->
  (forall q args x n, within q -> (length q + 2 <= length p)%nat -> fits x (zlen q) -> stays x (zlen q) 11 (plist q args x n)) ->
  stays x (zlen p) 11 (plist_body alloc junk eiformat plist p args x n).
Proof.
  intros Hp Hf H0 He Ht. unfold plist_body. destruct p as [|after q]; [by destruct Hp as ([|? ?] & _ & [=])|].
  destruct (within_cons after q Hp) as [[-> ->]|Hq]; [cbn; by rewrite H0|]. pose proof (zlen_cons after q) as Hz.
  destruct (Z.eqb_spec after 93) as [->|Ha]; [apply list_closed; [done|lia|done]|].
  destruct (skip_space_within q Hq) as (c & r & -> & Hi & Hl & Hl'). cbn [length] in *.
  destruct (Z.eqb_spec c 93) as [->|_].
  { apply within_tail in Hi; [|done]. destruct (after =? 44); [done|].
    destruct (negb (after =? 124)); [apply list_closed; [done|lia|done]|apply stays_done; [done|lia|done]]. }
  destruct ((c =? 124) || (c =? 44)) eqn:Ec.
  { destruct ((after =? 124) || (after =? 44)); [done|]. apply within_tail in Hi; [|intros ->; done].
    apply (stays_skip x _ 11 2 r); [done|lia|lia|done|]. apply Ht; [done|lia]. }
  assert (fits x (zlen (c :: r))) as Hf1 by (destruct Hf; split; [done|rewrite zlen_cons; lia]).
  assert (20 * zlen (c :: r) + 20 <= 20 * zlen (after :: q)) as Hcr by (rewrite zlen_cons; lia).
  specialize (He (c :: r) args x Hi ltac:(cbn [length]; lia) Hf1).
  destruct (eiformat (c :: r) args x) as [res p' args' x'| | |]; cbn [fbind] in *; [|done..].
  destruct He as (Hp' & Hw' & Hm' & Hi'). assert (fits x' (zlen p')) as Hf' by (eapply fits_from; [exact Hf|done|lia]).
  destruct (after =? 124).
  - destruct (skip_space_within p' Hp') as (c1 & p1 & -> & Hi1 & Hl1 & _). destruct (negb (c1 =? 93)); [done|].
    split; [done|]. split; [done|]. rewrite zlen_cons. lia.
  - eapply (kept_from true nuls x _ 11 x' (zlen p')); [lia|lia|]. apply Ht; [done| |done]. unfold zlen in *. cbn [length] in *. lia.
Qed.

Lemma pmap_body_stays pmap_loop p args x :
  within p -> fits x (zlen p) ->
  (forall q, within q -> (length q <= length p)%nat -> fits x (zlen q) -> stays x (zlen q) 11 (pmap_loop q args x 0)) ->
  stays x (zlen p) 11 (pmap_body pmap_loop p args x).
Proof.
  intros Hp Hf Hm. unfold pmap_body. destruct (skip_space_within p Hp) as (c & r & -> & Hi & Hl & Hl').
  destruct (Z.eqb_spec c 125) as [->|_]; [apply stays_done; [done|lia|by apply (within_tail 125)]|].
  apply (stays_skip x _ 11 0 (c :: r)); [done|rewrite zlen_cons; lia|lia|done|]. apply Hm; [done|cbn [length]; lia].
Qed.

Lemma pmap_turn_stays eiformat pmap_loop p args x n :
  within p -> fits x (zlen p) ->
  (forall q args x, within q -> (length q <= length p)%nat -> fits x (zlen q) -> stays x (zlen q) 6 (eiformat q args x)) ->
  (forall q args x n, within q -> (length q + 1 <= length p)%nat -> fits x (zlen q) -> stays x (zlen q) 11 (pmap_loop q args x n)) ->
  stays x (zlen p) 11 (pmap_turn eiformat pmap_loop p args x n).
Proof.
  intros Hp Hf He Hm. unfold pmap_turn. eapply (kept_bind true nuls x (zlen p) 6 11); [by apply He|lia|done|].
  intros _ p1 args1 x1 Hp1 Hf1 Hc1. destruct (skip_space_within p1 Hp1) as (c0 & q1 & -> & Hi1 & Hl1 & Hn1).
  destruct q1 as [|c1 p2]; [by destruct Hi1 as ([|? [|? ?]] & _ & [=])|]. rewrite zlen_cons in Hl1. cbn [length] in Hn1.
  destruct (Z.eqb_spec c0 61) as [->|]; [|done]. destruct (Z.eqb_spec c1 62) as [->|]; [|done]. cbn [andb negb].
  apply within_tail in Hi1; [|done]. apply within_tail in Hi1; [|done]. pose proof (zlen_nonneg p2).
  apply (stays_skip x1 _ 11 2 p2); [done|lia|lia|done|]. intros Hf2.
  eapply (kept_bind true nuls x1 (zlen p2) 6 11); [by apply He; [|unfold zlen in *; lia|]|lia|done|].
  intros _ p3 args2 x2 Hp3 Hf3 Hc3. destruct (skip_space_within p3 Hp3) as (c & q & -> & Hi3 & Hl3 & Hn3).
  destruct (Z.eqb_spec c 125) as [->|_]; [apply stays_done; [done|lia|by apply (within_tail 125)]|].
  destruct (Z.eqb_spec c 44) as [->|]; [|done]. cbn [negb]. apply within_tail in Hi3; [|done].
  destruct (skip_space_within q Hi3) as (c2 & q2 & -> & Hi4 & Hl4 & Hn4).
  apply (stays_skip x2 _ 11 0 (c2 :: q2)); [done|rewrite zlen_cons; lia|lia|done|].
  apply Hm; [done|]. unfold zlen in *. cbn [length]. lia.
Qed.

Lemma format_stays fuel :
  (forall p args x, within p -> fits x (zlen p) -> (2 * length p + 2 <= fuel)%nat -> stays x (zlen p) 6 (eiformat alloc junk sscanf_lf junk_d fuel p args x)) /\
  (forall p args x n, within p -> fits x (zlen p) -> (2 * length p + 1 <= fuel)%nat -> stays x (zlen p) 11 (ptuple alloc junk sscanf_lf junk_d fuel p args x n)) /\
  (forall p args x n, within p -> fits x (zlen p) -> (2 * length p + 1 <= fuel)%nat -> stays x (zlen p) 11 (plist alloc junk sscanf_lf junk_d fuel p args x n)) /\
  (forall p args x, within p -> fits x (zlen p) -> (2 * length p + 4 <= fuel)%nat -> stays x (zlen p) 11 (pmap alloc junk sscanf_lf junk_d fuel p args x)) /\
  (forall p args x n, within p -> fits x (zlen p) -> (2 * length p + 3 <= fuel)%nat -> stays x (zlen p) 11 (pmap_loop alloc junk sscanf_lf junk_d fuel p args x n)).
Proof.
  assert (bytes_ok nuls) as Hb by (repeat constructor; by vm_compute).
  induction fuel as [|fuel (IHe & IHt & IHl & IHm & IHp)]; [split_and!; intros; lia|].
  assert (forall p, within p -> (2 <= length p)%nat) as H2 by (intros p (q & _ & ->); rewrite length_app; cbn; lia).
  split_and!.
  - intros p args x Hp Hx Hf. apply (eiformat_body_kept alloc junk junk_length sscanf_lf junk_d true nuls nuls_nul Hb); [done|done|..];
      intros; [apply IHt|apply IHl|apply IHm]; (done || lia).
  - intros p args x n Hp Hx Hf. apply ptuple_body_stays; [done|done| |intros; apply IHe; (done || lia)|intros; apply IHt; (done || lia)].
    intros. pose proof (H2 p Hp). destruct fuel; [lia|done].
  - intros p args x n Hp Hx Hf. apply plist_body_stays; [done|done| |intros; apply IHe; (done || lia)|intros; apply IHl; (done || lia)].
    intros. pose proof (H2 p Hp). destruct fuel; [lia|done].
  - intros p args x Hp Hx Hf. apply pmap_body_stays; [done|done|]. intros. apply IHp; (done || lia).
  - intros p args x n Hp Hx Hf. apply pmap_turn_stays; [done|done|intros; apply IHe; (done || lia)|intros; apply IHp; (done || lia)].
Qed.
End TwoNuls.

(** A value or an error. *)
Definition returns (r : fres) : Prop := match r with FOk _ _ _ _ | FErr _ => True | FOob | FFuel => False end.

Lemma kept_returns brackets behind x n s r : kept brackets behind x n s r -> returns r.
Proof. by destruct r. Qed.

(** Without directives there are no arguments. *)
Lemma no_args alloc fmt ap : Forall (fun c => c <> 126) fmt -> read_args alloc fmt ap = Some (Some []).
Proof.
  intros H. unfold read_args, arg_count. assert (List.filter (fun c => c =? 126) fmt = []) as ->; [|done].
  induction H as [|c fmt Hc _ IH]; [done|]. cbn [List.filter]. by destruct (Z.eqb_spec c 126).
Qed.

Lemma text_no_tilde brackets fmt : Forall (text_char brackets) fmt -> Forall (fun c => c <> 126) fmt.
Proof. intros H. eapply Forall_impl; [|exact H]. by intros c (_ & Hc & _). Qed.

(** The version, in front of a text. *)
Lemma format_version alloc junk scan d fuel x fmt ap n :
  (forall n, length (junk n) = n) -> fits x (n + 1) -> 0 <= n ->
  (forall x', fits x' n -> returns (ei_x_format_wo_ver alloc junk scan d fuel x' fmt ap)) ->
  returns (ei_x_format alloc junk scan d fuel x fmt ap).
Proof.
  intros Hj [Hw Hr] Hn H. unfold ei_x_format. change (ei_x_encode_version alloc junk x) with (x_step alloc junk OpVersion x).
  pose proof (x_step_appends alloc junk Hj OpVersion x I Hw) as Ha. cbn [op_bytes appends] in Ha. change (zlen [ERL_VERSION_MAGIC]) with 1 in Ha.
  destruct Ha as [(x' & -> & Hw' & Hc)|[-> _]]; [lia| |done]. apply H. split; [done|].
  pose proof (x_index_contents x Hw). pose proof (x_index_contents x' Hw') as H'. rewrite Hc, zlen_app in H'. change (zlen [ERL_VERSION_MAGIC]) with 1 in H'. lia.
Qed.

(** ** Properties *)

(** C18: [ei_x_format] on a text that follows the rules, with arguments of the
    types of its directives, appends the version and the external format of the
    term that the text stands for: of an atom with or without quotes, an integer,
    a string, a value, or a tuple, list or map of such terms to any depth, with
    white space in front of any part. *)
Theorem format_builds_term alloc junk scan d t x bs fuel :
  (forall n, length (junk n) = n) -> (forall n, alloc n = true) ->
  tmpl_wf t -> ops_bytes (tmpl_ops t) = Some bs -> x_wf x -> x_index x + zlen bs + 1 + 2 * ei_x_extra < 2 ^ 31 ->
  (2 * length (tmpl_text t) + 4 <= fuel)%nat ->
  exists x', ei_x_format alloc junk scan d fuel x (tmpl_text t) (map snd (tmpl_va t)) = FOk 0 [0] [] x' /\
    x_wf x' /\ x_contents x' = x_contents x ++ ERL_VERSION_MAGIC :: bs.
Proof.
  intros Hj Ha Ht E Hw Hb Hf. assert (room x ([ERL_VERSION_MAGIC] ++ bs)) as Hr by (split; [done|zlen_lia]).
  destruct (step_appends alloc junk Hj Ha OpVersion x [ERL_VERSION_MAGIC] I) as (x1 & Es & Hw1 & Hc1); [by eapply room_prefix|done|].
  unfold ei_x_format. change (ei_x_encode_version alloc junk x) with (x_step alloc junk OpVersion x). rewrite Es.
  destruct (format_wo_ver_writes alloc junk scan d t x1 bs fuel) as (x2 & E2 & Hw2 & Hc2); [done|done|done|done|by eapply room_app|done|].
  exists x2. split; [exact E2|]. split; [done|]. by rewrite Hc2, Hc1, <- app_assoc.
Qed.

(** C20: [ei_x_format] ends on every text and with all arguments: its functions call
    each other at most twice for every character.  It returns a value or an error on
    every text without directives and without the brackets of tuples, lists and maps,
    when the buffer may grow by 20 bytes for every character; and on one with brackets,
    closed or not, when behind the NUL of the text there is another one.  (A tuple or
    a list that is not closed is read one character behind the first NUL; with
    arguments that are not those of the directives, or a text like that, the
    accesses outside are not excluded, only that they go on for ever.) *)
Theorem format_terminates alloc junk scan d x fmt fuel :
  (2 * length fmt + 4 <= fuel)%nat ->
  (forall ap, ei_x_format alloc junk scan d fuel x fmt ap <> FFuel) /\
  ((forall n, length (junk n) = n) -> x_wf x -> x_index x + 20 * (zlen fmt + 3) + 2 * ei_x_extra < 2 ^ 31 ->
   (Forall (text_char false) fmt -> forall ap, returns (ei_x_format alloc junk scan d fuel x fmt ap)) /\
   (Forall (text_char true) fmt -> forall ap, returns (ei_x_format alloc junk scan d (S (S fuel)) x (fmt ++ [0]) ap))).
Proof.
  intros Hf. split.
  - intros ap. unfold ei_x_format. destruct (ei_x_encode_version alloc junk x) as [x1| |]; [|done..].
    unfold ei_x_format_wo_ver. destruct (read_args alloc fmt ap) as [[args|]|]; [|done..].
    destruct (format_advances alloc junk scan d fuel) as (H & _). specialize (H (fmt ++ [0]) args x1 ltac:(lengths_lia)).
    by destruct (eiformat _ _ _ _ _ _ _ _).
  - intros Hj Hw Hr. pose proof (zlen_nonneg fmt). split; intros Ht ap.
    + apply (format_version _ _ _ _ _ _ _ _ (zlen (fmt ++ [0])) Hj); [split; [done|zlen_lia]|zlen_lia|]. intros x' Hx.
      unfold ei_x_format_wo_ver. rewrite no_args by (by eapply text_no_tilde). destruct fuel as [|fuel]; [lia|]. eapply kept_returns.
      apply (eiformat_body_kept alloc junk Hj scan d false [0]); [by exists []|by repeat constructor|by exists fmt|done|done..].
    + apply (format_version _ _ _ _ _ _ _ _ (zlen (fmt ++ nuls)) Hj); [split; [done|unfold nuls; zlen_lia]|zlen_lia|]. intros x' Hx.
      unfold ei_x_format_wo_ver. rewrite no_args by (apply Forall_app; split; [by eapply text_no_tilde|by repeat constructor]).
      eapply kept_returns. rewrite <- app_assoc. apply (format_stays alloc junk Hj scan d); [by exists fmt|done|lengths_lia].
Qed.

(** ** Samples *)

Definition x_0 : ei_x_buff := {| x_buff := Some (replicate 100 0); x_buffsz := 100; x_index := 0 |}.
Lemma x_0_wf : x_wf x_0.
Proof. exists (replicate 100 0). split; [done|]. split; [done|cbn; lia]. Qed.
Definition fill (n : nat) : list Z := replicate n 0.

(** ["{ok, [~i, 'A b'], #{k => -7}}"] *)
Definition sample : tmpl :=
  TTuple (ECons [] (TAtom [111; 107])
         (ECons [32] (TList (ECons [] (TArg 105 (va_int 300)) (ECons [32] (TQuoted [65; 32; 98]) ENil)))
         (ECons [32] (TMap (PCons [] (TAtom [107]) [32] [32] (TInt (-7)) [] PNil)) ENil))).

Lemma format_builds_term_witness :
  exists x', ei_x_format (fun _ => true) fill (fun _ => None) 0 100 x_0 (tmpl_text sample) [va_int 300] = FOk 0 [0] [] x' /\
    x_wf x' /\ x_contents x' = [] ++ ERL_VERSION_MAGIC ::
      [104; 3; 119; 2; 111; 107; 108; 0; 0; 0; 2; 98; 0; 0; 1; 44; 119; 3; 65; 32; 98; 106;
       116; 0; 0; 0; 1; 119; 1; 107; 98; 255; 255; 255; 249].
Proof.
  apply (format_builds_term (fun _ => true) fill (fun _ => None) 0 sample x_0).
  - intros n. apply length_replicate.
  - done.
  - repeat split; by vm_compute.
  - vm_compute. reflexivity.
  - exact x_0_wf.
  - by vm_compute.
  - by vm_compute; lia.
Defined.

(** Eight lists that are not closed, and an atom and what is not understood. *)
Lemma format_terminates_witness :
  ei_x_format (fun _ => true) fill (fun _ => None) 0 20 x_0 (replicate 8 91) [] <> FFuel /\
  returns (ei_x_format (fun _ => true) fill (fun _ => None) 0 22 x_0 (replicate 8 91 ++ [0]) []) /\
  returns (ei_x_format (fun _ => true) fill (fun _ => None) 0 20 x_0 (str " abc }"%string) []).
Proof.
  assert (forall n, length (fill n) = n) as Hj by (intros n; apply length_replicate).
  destruct (format_terminates (fun _ => true) fill (fun _ => None) 0 x_0 (replicate 8 91) 20 ltac:(cbn; lia)) as [H1 H2].
  destruct (format_terminates (fun _ => true) fill (fun _ => None) 0 x_0 (str " abc }"%string) 20 ltac:(vm_compute; lia)) as [_ H3].
  split; [apply H1|]. split.
  - destruct (H2 Hj x_0_wf ltac:(by vm_compute)) as [_ H]. apply H. apply Forall_replicate. unfold text_char. lia.
  - destruct (H3 Hj x_0_wf ltac:(by vm_compute)) as [H _]. apply H. repeat constructor; by vm_compute.
Defined.

(** ** Texts that are not understood *)

(** The result of a text without directives. *)
Definition formatted (s : String.string) : fres :=
  ei_x_format_wo_ver (fun _ => true) fill (fun _ => None) 0 100 x_0 (str s) [].
Definition holds_bytes (r : fres) (bs : list Z) : Prop :=
  match r with FOk res _ _ x => res = 0 /\ x_contents x = bs | _ => False end.

(** A list with a tail is written without its header: two atoms side by side.  With
    an empty tail the list has none. *)
Theorem improper_list_headless :
  holds_bytes (formatted "[a|b]"%string) (atom_ext false [97] ++ atom_ext false [98]) /\
  holds_bytes (formatted "[a|]"%string) (ERL_LIST_EXT :: be_bytes 4 1 ++ atom_ext false [97]).
Proof. by vm_compute. Qed.

(** White space in front of a comma: the character behind the comma is taken for
    the separator. *)
Theorem space_before_comma :
  holds_bytes (formatted "{a ,b}"%string) (ERL_SMALL_TUPLE_EXT :: [1] ++ atom_ext false [97]) /\
  holds_bytes (formatted "[a ,bc]"%string)
    (ERL_LIST_EXT :: be_bytes 4 2 ++ atom_ext false [97] ++ atom_ext false [99] ++ [ERL_NIL_EXT]).
Proof. by vm_compute. Qed.

(** A tuple or list that is not closed is read past the end of the text. *)
Theorem unclosed_overread : formatted "{a"%string = FOob /\ formatted "[a"%string = FOob.
Proof. by vm_compute. Qed.

(** A tilde in a string takes an argument from the directives behind it. *)
Theorem tilde_in_quotes :
  ei_x_format_wo_ver (fun _ => true) fill (fun _ => None) 0 100 x_0 (str "{'~i',~a}"%string) [va_int 1; va_str [97]] = FOob.
Proof. by vm_compute. Qed.
