(* ===== verification/EiPrint.v ===== *)
(** * Printing terms: [ei_printterm.c]

    [print_term] writes a term of the external format as text, to a file or to a
    self-expanding buffer.  What it prints of the terms that [ei_x_format] can write
    is a text that [ei_x_format] reads as the same term. *)
From S2P Require Import Prelude PutGet EiTypes EiInt EiAtom EiData EiBinary EiBig EiNode EiTerm EiX EpmdStr EiFormat.
From Stdlib Require String.
Import String.StringSyntax.
Delimit Scope string_scope with string.

Definition BINPRINTSIZE : Z := 30.
Definition BUFSIZ : Z := 8192.

(** ** Text *)

(** [%x] of an [int]. *)
Definition hex_digit (n : Z) : Z := if n <? 10 then 48 + n else 87 + n.
Fixpoint hex_loop (fuel : nat) (n : Z) (acc : list Z) : list Z :=
  match fuel with
  | O => acc
  | S fuel => let acc := hex_digit (n mod 16) :: acc in if n / 16 =? 0 then acc else hex_loop fuel (n / 16) acc
  end.
Definition hex (n : Z) : list Z := hex_loop 8 (wrapu 32 n) [].

(** [%d] of an [unsigned int], which is taken for an [int]. *)
Definition signed_text (n : Z) : list Z := int_text (wraps 32 n).

(** [ei_big_to_str]: the value of at most four digits, or digits in base 16. *)
Fixpoint digits_value (l : list Z) : Z :=
  match l with [] => 0 | d :: l => Z.lor d (Z.shiftl (digits_value l) 16) end.

Definition big_hex (val : Z) : list Z :=
  map (fun j => let c := Z.land (Z.shiftr val (j * 4)) 0xf in if c <? 10 then c + 48 else c + 55) [3; 2; 1; 0].
Fixpoint strip_zeros (l : list Z) : list Z :=
  match l with [] => [] | c :: l' => if c =? 48 then strip_zeros l' else l end.

(** [None]: no memory; [Some None]: a digit that is not there. *)
Definition ei_big_to_str (granted : bool) (b : erlang_big) : option (option (list Z)) :=
  let no_digits := wrapu 32 (big_arity b + 1) / 2 in
  if negb granted then None
  else if zlen (big_digits b) <? no_digits then Some None
  else
    let sp := take (Z.to_nat no_digits) (big_digits b) in
    let sign := if negb (big_is_neg b =? 0) then [45] else [] in
    if no_digits <=? 4 then Some (Some (sign ++ int_text (digits_value sp)))
    else
      let s := strip_zeros (concat (map big_hex (reverse sp))) in
      Some (Some (sign ++ str "16#"%string ++ (if zlen s =? 0 then [48] else s))).

(** ** Where the text goes *)

Inductive sink := SFile (out : list Z) | SBuf (x : ei_x_buff).

(** The value returned (it is not negative), [*index] and the sink; -1; an access
    outside of a buffer or through NULL; the recursion was cut off. *)
Inductive pres :=
  | POk (ch_written index : Z) (s : sink)
  | PErr (s : sink)
  | POob
  | PFuel.

Section Print.
Variable alloc : Z -> bool.
Variable junk : nat -> list Z.
Variable sscanf_lf : list Z -> option Z.
(** [%f] *)
Variable fmt_f : Z -> list Z.
(** What uninitialized structs hold. *)
Variable junk_ref : erlang_ref.
Variable junk_fun : list Z * Z.
(** Whether [ei_decode_fun] gets memory. *)
Variable fun_alloc : bool.

(** [xputs], and [xputc] for one character; the result of [ei_x_append_buf] is not
    looked at. *)
Definition xputs (l : list Z) (s : sink) : option sink :=
  match s with
  | SFile out => Some (SFile (out ++ l))
  | SBuf x => match ei_x_append_buf alloc junk x l (zlen l) with XOk x | XErr x => Some (SBuf x) | XOob => None end
  end.

(** A buffer gets at most the 1999 characters that [tmpbuf] has room for. *)
Definition xprintf (l : list Z) (s : sink) : option sink :=
  match s with SFile _ => xputs l s | SBuf _ => xputs (take 1999 l) s end.

(** Put some text, then go on. *)
Definition puts (l : list Z) (ch : Z) (s : sink) (k : Z -> sink -> pres) : pres :=
  match xputs l s with Some s => k (ch + zlen l) s | None => POob end.
Definition printf (l : list Z) (ch : Z) (s : sink) (k : Z -> sink -> pres) : pres :=
  match xprintf l s with Some s => k (ch + zlen l) s | None => POob end.
(** A decoder, with [goto err] when it fails. *)
Definition decode {A} (d : dres A) (s : sink) (k : A -> Z -> pres) : pres :=
  match d with DOk a i => k a i | DErr _ => PErr s | DOob => POob | DFuel => PFuel end.
Definition then_print (r : pres) (k : Z -> Z -> sink -> pres) : pres :=
  match r with POk n i s => k n i s | _ => r end.

Definition escape (c : Z) : list Z :=
  if c =? 10 then str "\n"%string else if c =? 13 then str "\r"%string else if c =? 9 then str "\t"%string
  else if c =? 11 then str "\v"%string else if c =? 8 then str "\b"%string else if c =? 12 then str "\f"%string
  else str "\x"%string ++ hex c.

(** The loop over the characters, which are signed. *)
Fixpoint print_chars (l : list Z) (ch : Z) (s : sink) (k : Z -> sink -> pres) : pres :=
  match l with
  | [] => k ch s
  | b :: l =>
      let c := wraps 8 b in
      puts (if 32 <=? c then [b] else escape c) ch s (fun ch s => print_chars l ch s k)
  end.

Definition print_string (l : list Z) (ch : Z) (s : sink) (k : Z -> sink -> pres) : pres :=
  puts [34] ch s (fun ch s => print_chars l ch s (fun ch s => puts [34] ch s k)).

(** Bytes with commas in between, after [delim]. *)
Fixpoint print_bytes (delim : list Z) (l : list Z) (ch : Z) (s : sink) (k : list Z -> Z -> sink -> pres) : pres :=
  match l with
  | [] => k delim ch s
  | b :: l => printf (delim ++ int_text b) ch s (fun ch s => print_bytes [44] l ch s k)
  end.

(** The numbers of a reference, with points in between. *)
Fixpoint print_ids (l : list Z) (ch : Z) (s : sink) (k : Z -> sink -> pres) : pres :=
  match l with
  | [] => k ch s
  | [n] => printf (signed_text n) ch s k
  | n :: l => printf (signed_text n) ch s (fun ch s => puts [46] ch s (fun ch s => print_ids l ch s k))
  end.

(** [n] terms with [", "] in between. *)
Fixpoint print_terms (print : Z -> sink -> pres) (n : nat) (ch index : Z) (s : sink) (k : Z -> Z -> sink -> pres) : pres :=
  match n with
  | O => k ch index s
  | S n =>
      then_print (print index s) (fun r index s =>
        match n with
        | O => k (ch + r) index s
        | _ => puts (str ", "%string) (ch + r) s (fun ch s => print_terms print n ch index s k)
        end)
  end.

(** The same for pairs of a key and a value. *)
Fixpoint print_pairs (print : Z -> sink -> pres) (n : nat) (ch index : Z) (s : sink) (k : Z -> Z -> sink -> pres) : pres :=
  match n with
  | O => k ch index s
  | S n =>
      then_print (print index s) (fun r index s =>
        printf (str " => "%string) (ch + r) s (fun ch s =>
          then_print (print index s) (fun r index s =>
            match n with
            | O => k (ch + r) index s
            | _ => puts (str ", "%string) (ch + r) s (fun ch s => print_pairs print n ch index s k)
            end)))
  end.

Definition doquote (a : list Z) : bool :=
  negb (match a with c :: _ => islower c | [] => false end) || negb (forallb atom_char a).

(** [case ERL_BIT_BINARY_EXT] *)
Definition print_bits (m : mem) (pos bits index : Z) (ch : Z) (s : sink) : pres :=
  let trunc := BINPRINTSIZE <? wrapu 64 (bits + 7) / 8 in
  let n := if trunc then BINPRINTSIZE else bits / 8 in
  match slice m pos n with
  | None => POob
  | Some l =>
      print_bytes [] l ch s (fun delim ch s =>
        let close ch s := puts [62] ch s (fun ch s => POk ch index s) in
        if trunc then printf (str ",..."%string) ch s close
        else
          let bits := bits mod 8 in
          if bits =? 0 then close ch s
          else
            match mem_get m (pos + n) with
            | None => POob
            | Some b => printf (delim ++ int_text (Z.shiftr b (8 - bits)) ++ [58] ++ int_text bits) ch s close
            end)
  end.

(** [skip_fuel] is for [ei_skip_term] in [ei_decode_fun]. *)
Fixpoint print_term (fuel skip_fuel : nat) (m : mem) (index : Z) (s : sink) : pres :=
  match fuel with
  | O => PFuel
  | S fuel =>
      let print := print_term fuel skip_fuel m in
      decode (ei_get_type m index) s (fun '(ty, n) _ =>
        if (ty =? ERL_ATOM_EXT) || (ty =? ERL_ATOM_UTF8_EXT) || (ty =? ERL_SMALL_ATOM_EXT) || (ty =? ERL_SMALL_ATOM_UTF8_EXT) then
          decode (ei_decode_atom m index) s (fun a index =>
            let a := c_str (at_name a) in
            if doquote a then
              puts [39] 0 s (fun ch s => puts a ch s (fun ch s => puts [39] ch s (fun ch s => POk ch index s)))
            else puts a 0 s (fun ch s => POk ch index s))
        else if (ty =? ERL_PID_EXT) || (ty =? ERL_NEW_PID_EXT) then
          decode (ei_decode_pid true m index) s (fun p index =>
            match p with
            | None => POob
            | Some p =>
                printf ([60] ++ c_str (pid_node p) ++ [46] ++ signed_text (pid_num p) ++ [46] ++ signed_text (pid_serial p) ++ [62])
                  0 s (fun ch s => POk ch index s)
            end)
        else if (ty =? ERL_PORT_EXT) || (ty =? ERL_NEW_PORT_EXT) then
          decode (ei_decode_port true m index) s (fun p index =>
            match p with
            | None => POob
            | Some p =>
                printf (str "#Port<"%string ++ signed_text (port_id p) ++ [46] ++ signed_text (port_creation p) ++ [62])
                  0 s (fun ch s => POk ch index s)
            end)
        else if (ty =? ERL_NEW_REFERENCE_EXT) || (ty =? ERL_NEWER_REFERENCE_EXT) || (ty =? ERL_REFERENCE_EXT) then
          decode (ei_decode_ref (Some junk_ref) m index) s (fun r index =>
            match r with
            | None => POob
            | Some r =>
                printf (str "#Ref<"%string) 0 s (fun ch s =>
                  if zlen (ref_n r) <? ref_len r then POob
                  else print_ids (take (Z.to_nat (ref_len r)) (ref_n r)) ch s (fun ch s =>
                    puts [62] ch s (fun ch s => POk ch index s)))
            end)
        else if ty =? ERL_NIL_EXT then
          decode (ei_decode_list_header true m index) s (fun _ index => printf (str "[]"%string) 0 s (fun ch s => POk ch index s))
        else if ty =? ERL_LIST_EXT then
          decode (ei_decode_list_header true m index) s (fun n tindex =>
            puts [91] 0 s (fun ch s =>
              print_terms print (Z.to_nat n) ch tindex s (fun ch tindex s =>
                decode (ei_get_type m tindex) s (fun '(ty, _) _ =>
                  if negb (ty =? ERL_NIL_EXT) then
                    puts (str " | "%string) ch s (fun ch s =>
                      then_print (print tindex s) (fun r tindex s => puts [93] (ch + r) s (fun ch s => POk ch tindex s)))
                  else
                    decode (ei_decode_list_header true m tindex) s (fun _ tindex => puts [93] ch s (fun ch s => POk ch tindex s))))))
        else if ty =? ERL_STRING_EXT then
          if negb (alloc (n + 1)) then PErr s
          else decode (ei_decode_string true m index) s (fun p index => print_string p 0 s (fun ch s => POk ch index s))
        else if (ty =? ERL_SMALL_TUPLE_EXT) || (ty =? ERL_LARGE_TUPLE_EXT) then
          decode (ei_decode_tuple_header true m index) s (fun n tindex =>
            puts [123] 0 s (fun ch s =>
              print_terms print (Z.to_nat n) ch tindex s (fun ch tindex s => puts [125] ch s (fun ch s => POk ch tindex s))))
        else if ty =? ERL_BINARY_EXT then
          if (n <? 0) || negb (alloc n) then PErr s
          else
            decode (ei_decode_binary true m index) s (fun '(p, l) index =>
              printf (str "#Bin<"%string) 0 s (fun ch s =>
                print_bytes [] (take (Z.to_nat (if BINPRINTSIZE <? l then BINPRINTSIZE else l)) p) ch s (fun _ ch s =>
                  let close ch s := puts [62] ch s (fun ch s => POk ch index s) in
                  if BINPRINTSIZE <? l then printf (str ",..."%string) ch s close else close ch s)))
        else if ty =? ERL_BIT_BINARY_EXT then
          decode (ei_decode_bitstring m index) s (fun '(pos, bits) index =>
            printf (str "#Bits<"%string) 0 s (fun ch s => print_bits m pos bits index ch s))
        else if (ty =? ERL_SMALL_INTEGER_EXT) || (ty =? ERL_INTEGER_EXT) then
          decode (ei_decode_long m index) s (fun l index => printf (int_text l) 0 s (fun ch s => POk ch index s))
        else if (ty =? ERL_SMALL_BIG_EXT) || (ty =? ERL_LARGE_BIG_EXT) then
          match ei_alloc_big (alloc 16) (alloc (2 * digit_count n)) n with
          | None => PErr s
          | Some b =>
              decode (ei_decode_big (Some (big_arity b)) m index) s (fun b index =>
                match b with
                | None => POob
                | Some b =>
                    match ei_big_to_str (alloc 22) b with
                    | None => PErr s
                    | Some None => POob
                    | Some (Some ds) => puts ds 0 s (fun ch s => POk ch index s)
                    end
                end)
          end
        else if (ty =? ERL_FLOAT_EXT) || (ty =? NEW_FLOAT_EXT) then
          decode (ei_decode_double sscanf_lf m index) s (fun d index => printf (fmt_f d) 0 s (fun ch s => POk ch index s))
        else if ty =? ERL_MAP_EXT then
          decode (ei_decode_map_header true m index) s (fun n tindex =>
            printf (str "#{"%string) 0 s (fun ch s =>
              print_pairs print (Z.to_nat n) ch tindex s (fun ch tindex s => puts [125] ch s (fun ch s => POk ch tindex s))))
        else if (ty =? ERL_FUN_EXT) || (ty =? ERL_NEW_FUN_EXT) || (ty =? ERL_EXPORT_EXT) then
          decode (ei_decode_fun (ei_skip_term sscanf_lf skip_fuel) (Some junk_fun) fun_alloc m index) s (fun f tindex =>
            match f with
            | None => POob
            | Some f =>
                match fun_body f with
                | EI_FUN_EXPORT (Some func) _ =>
                    printf (str "fun "%string ++ c_str (fun_module f) ++ [58] ++ c_str func ++ [47] ++ int_text (fun_arity f))
                      0 s (fun ch s => POk ch tindex s)
                | EI_FUN_EXPORT None _ => POob
                | EI_FUN_CLOSURE _ fi _ uniq _ _ _ _ =>
                    printf (str "#Fun{"%string ++ c_str (fun_module f) ++ [46] ++ int_text fi ++ [46] ++ int_text (wrapu 64 uniq) ++ [125])
                      0 s (fun ch s => POk ch tindex s)
                end
            end)
        else PErr s)
  end.

Definition ei_print_term (fuel skip_fuel : nat) (fp : list Z) (m : mem) (index : Z) : pres :=
  print_term fuel skip_fuel m index (SFile fp).

(** [s]: the buffer of the caller, of [BUFSIZ] bytes, or NULL.  The value returned and
    [*index], or -1; and the buffer. *)
Definition ei_s_print_term (fuel skip_fuel : nat) (buf : option mem) (m : mem) (index : Z) : option (option (Z * Z) * ei_x_buff) :=
  let x := match buf with
           | Some b => {| x_buff := Some b; x_buffsz := BUFSIZ; x_index := 0 |}
           | None => match ei_x_new alloc junk with XOk x | XErr x => x | XOob => {| x_buff := None; x_buffsz := 0; x_index := 0 |} end
           end in
  let finish (r : option (Z * Z)) (s : sink) :=
    match s with
    | SBuf x => match ei_x_append_buf alloc junk x [0] 1 with XOk x | XErr x => Some (r, x) | XOob => None end
    | SFile _ => None
    end in
  match print_term fuel skip_fuel m index (SBuf x) with
  | POk ch index s => finish (Some (ch, index)) s
  | PErr s => finish None s
  | _ => None
  end.
End Print.

(** ** What is printed of a term *)

(** The text so far, and room for [n] characters more in a sink that is a buffer, or
    not. *)
Definition sink_text (s : sink) : list Z := match s with SFile out => out | SBuf x => x_contents x end.
Definition sink_room (buffered : bool) (s : sink) (n : Z) : Prop :=
  match s with
  | SFile _ => buffered = false
  | SBuf x => buffered = true /\ x_wf x /\ x_index x + n + 2 * ei_x_extra < 2 ^ 31
  end.

(** The terms whose text [ei_x_format] reads: with the spaces that are printed, without
    directives, with atoms in quotes only where they need them, integers of at most 28
    bits, and strings of printable ASCII characters.  That names and strings have no
    quotes of their kind and no tilde is part of [tmpl_wf]. *)
Fixpoint canonical (t : tmpl) : Prop :=
  match t with
  | TAtom name => True
  | TQuoted name => doquote name = true
  | TInt n => ERL_MIN <= n <= ERL_MAX
  | TStr s => 0 < zlen s <= 0xffff /\ forallb (fun c => (32 <=? c) && (c <? 128)) s = true
  | TArg _ _ => False
  | TTuple es | TList es => elems_count es < 2 ^ 31 /\ elems_canonical [] es
  | TMap ps => pairs_count ps < 2 ^ 31 /\ pairs_canonical [] ps
  end
with elems_canonical (space : list Z) (es : elems) : Prop :=
  match es with ENil => True | ECons ws t es => ws = space /\ canonical t /\ elems_canonical [32] es end
with pairs_canonical (space : list Z) (ps : pairs) : Prop :=
  match ps with
  | PNil => True
  | PCons ws1 k ws2 ws3 v ws4 ps =>
      ws1 = space /\ ws2 = [32] /\ ws3 = [32] /\ ws4 = [] /\ canonical k /\ canonical v /\ pairs_canonical [32] ps
  end.

(** The depth of a term. *)
Fixpoint tmpl_depth (t : tmpl) : nat :=
  match t with
  | TTuple es | TList es => S (elems_depth es)
  | TMap ps => S (pairs_depth ps)
  | _ => 1%nat
  end
with elems_depth (es : elems) : nat :=
  match es with ENil => 0%nat | ECons _ t es => Nat.max (tmpl_depth t) (elems_depth es) end
with pairs_depth (ps : pairs) : nat :=
  match ps with PNil => 0%nat | PCons _ k _ _ v _ ps => Nat.max (tmpl_depth k) (Nat.max (tmpl_depth v) (pairs_depth ps)) end.

(** [ei_get_type] of bytes. *)
Definition type_of (bs : list Z) (ty : Z) : Prop := forall m s, holds m s bs -> exists len, ei_get_type m s = DOk (ty, len) s.

(** Reads the tag of the bytes that [Hh] says are there. *)
Ltac type_tag := intros ? ? Hh; unfold ei_get_type; read_tag Hh; eauto.

Lemma type_atom long name : zlen name < 65536 -> type_of (atom_ext long name) ERL_ATOM_EXT.
Proof.
  intros Hl m s Hh. unfold ei_get_type, atom_ext in *. pose proof (zlen_nonneg name). destruct long; cbn [app] in Hh; read_tag Hh.
  - apply get16be_holds in Hh as [-> _]; [eauto|unfold in_u; lia].
  - apply get8_holds in Hh as [-> _]; [eauto|apply land_255_ok].
Qed.

Lemma type_int n : ERL_MIN <= n <= ERL_MAX ->
  exists ty, (ty = ERL_SMALL_INTEGER_EXT \/ ty = ERL_INTEGER_EXT) /\ type_of (longlong_bytes n) ty.
Proof.
  intros Hn. unfold longlong_bytes. replace ((n <=? ERL_MAX) && (ERL_MIN <=? n)) with true by lia.
  destruct (_ && _); [exists ERL_SMALL_INTEGER_EXT|exists ERL_INTEGER_EXT]; (split; [tauto|type_tag]).
Qed.

Lemma type_string p : 0 < zlen p <= 0xffff -> type_of (string_bytes p) ERL_STRING_EXT.
Proof.
  intros Hl. unfold string_bytes. replace (zlen p =? 0) with false by lia. replace (zlen p <=? 0xffff) with true by lia.
  type_tag. apply get16be_holds in Hh as [-> _]; [eauto|unfold in_u; lia].
Qed.

Lemma type_tuple n hb : n < 2 ^ 31 -> tuple_header_bytes n = Some hb ->
  exists ty, (ty = ERL_SMALL_TUPLE_EXT \/ ty = ERL_LARGE_TUPLE_EXT) /\ type_of hb ty.
Proof.
  intros Hn. unfold tuple_header_bytes. destruct (n <? 0); [done|]. destruct (n <=? 0xff); intros E; apply (inj Some) in E as <-.
  - exists ERL_SMALL_TUPLE_EXT. split; [tauto|]. type_tag. apply get8_holds in Hh as [-> _]; [eauto|apply land_255_ok].
  - exists ERL_LARGE_TUPLE_EXT. split; [tauto|]. type_tag. cbn [app] in Hh. rewrite <- (app_nil_r (be_bytes 4 n)) in Hh.
    apply get32be_holds in Hh as [-> _]. eauto.
Qed.

Lemma type_list n : type_of (ERL_LIST_EXT :: be_bytes 4 n) ERL_LIST_EXT.
Proof. type_tag. rewrite <- (app_nil_r (be_bytes 4 n)) in Hh. apply get32be_holds in Hh as [-> _]. eauto. Qed.
Lemma type_nil : type_of [ERL_NIL_EXT] ERL_NIL_EXT.
Proof. type_tag. Qed.
Lemma type_map n : type_of (ERL_MAP_EXT :: be_bytes 4 n) ERL_MAP_EXT.
Proof. type_tag. rewrite <- (app_nil_r (be_bytes 4 n)) in Hh. apply get32be_holds in Hh as [-> _]. eauto. Qed.

Section Printed.
Variable alloc : Z -> bool.
Variable junk : nat -> list Z.
Hypothesis junk_length : forall n, length (junk n) = n.
Hypothesis granted : forall n, alloc n = true.
Variable scan : list Z -> option Z.
Variable fmt_f : Z -> list Z.
Variable junk_ref : erlang_ref.
Variable junk_fun : list Z * Z.
Variable fun_alloc : bool.
Variable buffered : bool.

Lemma xputs_ok l s n :
  sink_room buffered s (zlen l + n) -> 0 <= n ->
  exists s', xputs alloc junk l s = Some s' /\ sink_text s' = sink_text s ++ l /\ sink_room buffered s' n.
Proof.
  intros Hr Hn. destruct s as [out|x]; [by exists (SFile (out ++ l))|]. destruct Hr as (Hbuf & Hw & Hb). cbn [xputs].
  destruct (append_buf_appends alloc junk junk_length l x Hw) as [(x' & -> & Hw' & Hc)|[_ Hf]]; [lia| |by rewrite granted in Hf].
  exists (SBuf x'). split; [done|]. split; [exact Hc|]. split; [done|]. split; [done|].
  pose proof (x_index_contents x Hw). pose proof (x_index_contents x' Hw') as Hi. rewrite Hc, zlen_app in Hi. lia.
Qed.

Lemma puts_ok l ch s n k :
  sink_room buffered s (zlen l + n) -> 0 <= n ->
  exists s', puts alloc junk l ch s k = k (ch + zlen l) s' /\ sink_text s' = sink_text s ++ l /\ sink_room buffered s' n.
Proof. intros Hr Hn. destruct (xputs_ok l s n Hr Hn) as (s' & E & H). exists s'. unfold puts. by rewrite E. Qed.

Lemma printf_ok l ch s n k :
  sink_room buffered s (zlen l + n) -> 0 <= n -> zlen l <= 1999 ->
  exists s', printf alloc junk l ch s k = k (ch + zlen l) s' /\ sink_text s' = sink_text s ++ l /\ sink_room buffered s' n.
Proof.
  intros Hr Hn Hl. destruct (xputs_ok l s n Hr Hn) as (s' & E & H). exists s'. unfold printf, xprintf.
  rewrite take_ge by (unfold zlen in Hl; lia). destruct s; by rewrite E.
Qed.

Lemma print_chars_ok l ch s n k :
  forallb (fun c => (32 <=? c) && (c <? 128)) l = true -> sink_room buffered s (zlen l + n) -> 0 <= n ->
  exists s', print_chars alloc junk l ch s k = k (ch + zlen l) s' /\ sink_text s' = sink_text s ++ l /\ sink_room buffered s' n.
Proof.
  revert ch s. induction l as [|c l IH]; intros ch s Hl Hr Hn.
  - exists s. cbn [print_chars]. rewrite app_nil_r. change (zlen []) with 0 in *. rewrite Z.add_0_r. done.
  - cbn [forallb print_chars] in *. apply andb_true_iff in Hl as [Hc Hl]. rewrite zlen_cons in *.
    rewrite wraps_small by (unfold in_s; lia). replace (32 <=? c) with true by lia.
    destruct (puts_ok [c] ch s (zlen l + n) (fun ch s => print_chars alloc junk l ch s k)) as (s1 & -> & Ht1 & Hr1);
      [by rewrite zlen_cons, Z.add_assoc|pose proof (zlen_nonneg l); lia|].
    destruct (IH (ch + zlen [c]) s1 Hl Hr1 Hn) as (s2 & -> & Ht2 & Hr2). exists s2. rewrite Ht2, Ht1, <- app_assoc.
    split; [|done]. f_equal. change (zlen [c]) with 1. lia.
Qed.

(** [k] is called after [l] was printed. *)
Definition prints (r : pres) (l : list Z) (ch index : Z) (s : sink) (n : Z) (k : Z -> Z -> sink -> pres) : Prop :=
  exists s', r = k (ch + zlen l) index s' /\ sink_text s' = sink_text s ++ l /\ sink_room buffered s' n.

Definition print_ok (t : tmpl) : Prop := forall fuel skip_fuel m index s bs n,
  tmpl_wf t -> canonical t -> ops_bytes (tmpl_ops t) = Some bs -> holds m index bs -> zlen bs < 2 ^ 31 ->
  (tmpl_depth t <= fuel)%nat -> sink_room buffered s (zlen (tmpl_text t) + n) -> 0 <= n ->
  prints (print_term alloc junk scan fmt_f junk_ref junk_fun fun_alloc fuel skip_fuel m index s)
    (tmpl_text t) 0 (index + zlen bs) s n POk.

Lemma room_weaken s a b : sink_room buffered s a -> b <= a -> sink_room buffered s b.
Proof. destruct s; [done|]. intros (Hk & Hw & H) Hb. split; [done|]. split; [done|lia]. Qed.

Lemma prints_done ch index s n k : sink_room buffered s n -> prints (k ch index s) [] ch index s n k.
Proof. intros Hr. exists s. rewrite app_nil_r. change (zlen []) with 0. rewrite Z.add_0_r. done. Qed.

Lemma prints_app l1 l2 ch index s n k r s1 :
  sink_text s1 = sink_text s ++ l1 -> prints r l2 (ch + zlen l1) index s1 n k -> prints r (l1 ++ l2) ch index s n k.
Proof.
  intros Ht (s2 & -> & Ht2 & Hr2). exists s2. rewrite Ht2, Ht, zlen_app, <- app_assoc, Z.add_assoc. done.
Qed.

Lemma puts_then l1 l2 ch index s n K k :
  sink_room buffered s (zlen (l1 ++ l2) + n) -> 0 <= n ->
  (forall s1, sink_room buffered s1 (zlen l2 + n) -> prints (K (ch + zlen l1) s1) l2 (ch + zlen l1) index s1 n k) ->
  prints (puts alloc junk l1 ch s K) (l1 ++ l2) ch index s n k.
Proof.
  intros Hr Hn HK. pose proof (zlen_nonneg l2).
  destruct (puts_ok l1 ch s (zlen l2 + n) K) as (s1 & -> & Ht & Hr1); [rewrite zlen_app in Hr; by rewrite Z.add_assoc|lia|].
  eapply prints_app; [exact Ht|]. by apply HK.
Qed.

Lemma printf_then l1 l2 ch index s n K k :
  sink_room buffered s (zlen (l1 ++ l2) + n) -> 0 <= n -> zlen l1 <= 1999 ->
  (forall s1, sink_room buffered s1 (zlen l2 + n) -> prints (K (ch + zlen l1) s1) l2 (ch + zlen l1) index s1 n k) ->
  prints (printf alloc junk l1 ch s K) (l1 ++ l2) ch index s n k.
Proof.
  intros Hr Hn Hl HK. pose proof (zlen_nonneg l2).
  destruct (printf_ok l1 ch s (zlen l2 + n) K) as (s1 & -> & Ht & Hr1); [rewrite zlen_app in Hr; by rewrite Z.add_assoc|lia|done|].
  eapply prints_app; [exact Ht|]. by apply HK.
Qed.

(** The last text of a term. *)
Lemma puts_last l ch index s n :
  sink_room buffered s (zlen l + n) -> 0 <= n -> prints (puts alloc junk l ch s (fun ch s => POk ch index s)) l ch index s n POk.
Proof.
  intros Hr Hn. rewrite <- (app_nil_r l) at 2. apply puts_then; [by rewrite app_nil_r|done|]. intros s1 Hr1.
  apply (prints_done _ _ _ _ POk). done.
Qed.
Lemma printf_last l ch index s n :
  sink_room buffered s (zlen l + n) -> 0 <= n -> zlen l <= 1999 ->
  prints (printf alloc junk l ch s (fun ch s => POk ch index s)) l ch index s n POk.
Proof.
  intros Hr Hn Hl. rewrite <- (app_nil_r l) at 2. apply printf_then; [by rewrite app_nil_r|done|done|]. intros s1 Hr1.
  apply (prints_done _ _ _ _ POk). done.
Qed.


Lemma forallb_weaken (f g : Z -> bool) l : (forall c, f c = true -> g c = true) -> forallb f l = true -> forallb g l = true.
Proof.
  intros Hfg. induction l as [|c l IH]; cbn [forallb]; [done|]. intros [Hc H]%andb_true_iff. by rewrite Hfg, IH.
Qed.

(** The bytes of an atom, and how they are read. *)
Lemma atom_op_decodes name bs :
  bytes_ok name -> zlen name <= 255 -> ops_bytes [OpAtomAs name ERLANG_LATIN1 ERLANG_LATIN1] = Some bs ->
  type_of bs ERL_ATOM_EXT /\ exists f, Decodes ei_decode_atom bs (latin1_atom_out name f).
Proof.
  intros Hok Hl E. apply app_bytes_some in E as (a & b & Ea & [= <-] & ->). rewrite app_nil_r. cbn [op_bytes] in Ea.
  unfold atom_bytes in Ea. revert Ea. closed_tests. replace (MAXATOMLEN <=? zlen name) with false by (unfold MAXATOMLEN; lia).
  cbn [andb]. destruct (latin1_to_utf8 name (MAXATOMLEN_UTF8 - 1)) as [[o f]|] eqn:El; [|done]. intros Ea. apply (inj Some) in Ea as <-.
  split; [|exists f; by apply latin1_atom_decodes]. apply type_atom.
  rewrite latin1_fast_track in El by exact Hok.
  pose proof (latin1_loop_length name 0 (MAXATOMLEN_UTF8 - 1) o f ltac:(unfold MAXATOMLEN_UTF8; lia) El) as [_ Hlen]. lia.
Qed.

Lemma decode_ok {A} (d : mem -> Z -> dres A) bs a m index s k :
  Decodes d bs a -> holds m index bs -> decode (d m index) s k = k a (index + zlen bs).
Proof. intros Hd Hh. by rewrite (Hd m index Hh). Qed.

Lemma bare_atom name : match name with c :: _ => islower c = true | [] => False end -> forallb atom_char name = true -> doquote name = false.
Proof. unfold doquote. destruct name as [|c name]; [done|]. by intros -> ->. Qed.

Lemma print_atom_ok t name :
  t = TAtom name \/ t = TQuoted name -> print_ok t.
Proof.
  intros Ht fuel skip_fuel m index s bs n Hw Hc E Hh Hl Hf Hr Hn. destruct fuel as [|fuel]; [destruct Ht; subst; cbn in Hf; lia|].
  assert (bytes_ok name /\ zlen name <= 255 /\ forallb (fun c => negb (c =? 0)) name = true /\ tmpl_ops t = [OpAtomAs name ERLANG_LATIN1 ERLANG_LATIN1]) as (Hok & Hlen & Hz & Eo).
  { destruct Ht as [-> | ->].
    - destruct Hw as (_ & Ha & Hlen). split_and!; [by apply char_name|done| |done]. revert Ha. apply forallb_weaken.
      unfold atom_char, isalnum, isdigit, islower. lia.
    - destruct Hw as (Ha & Hlen). split_and!; [by eapply plain_name|done| |done]. revert Ha. apply forallb_weaken. unfold plain_char. lia. }
  rewrite Eo in E. destruct (atom_op_decodes name bs Hok Hlen E) as (Hty & f & Hd). cbn [print_term].
  destruct (Hty m index Hh) as [len ->]. cbn [decode]. closed_tests.
  rewrite (decode_ok _ _ _ _ _ _ _ Hd Hh). cbn [latin1_atom_out at_name]. rewrite c_str_id by done.
  destruct Ht as [-> | ->]; cbn [tmpl_text] in *.
  - destruct Hw as (H1 & H2 & _). rewrite (bare_atom name H1 H2). by apply puts_last.
  - cbn [canonical] in Hc. rewrite Hc. change (39 :: name ++ [39]) with ([39] ++ name ++ [39]) in *.
    apply puts_then; [done|done|]. intros s1 Hr1. apply puts_then; [done|done|]. intros s2 Hr2. by apply puts_last.
Qed.

Lemma zlen_digits fuel n : zlen (digits fuel n) <= Z.of_nat fuel.
Proof.
  revert n. induction fuel as [|fuel IH]; intros n; cbn [digits]; [done|]. destruct (n <? 10); [zlen_lia|].
  rewrite zlen_app. specialize (IH (n / 10)). zlen_lia.
Qed.
Lemma zlen_int_text n : zlen (int_text n) <= 21.
Proof.
  unfold int_text. pose proof (zlen_digits 20 (- n)). pose proof (zlen_digits 20 n). destruct (n <? 0); zlen_lia.
Qed.

Lemma print_int_ok i : print_ok (TInt i).
Proof.
  intros fuel skip_fuel m index s bs n Hw Hc E Hh Hl Hf Hr Hn. destruct fuel as [|fuel]; [cbn in Hf; lia|].
  apply app_bytes_some in E as (a & b & Ea & [= <-] & ->). rewrite app_nil_r in *. apply (inj Some) in Ea as <-.
  destruct (type_int i Hc) as (ty & Hty & Ht). cbn [print_term]. destruct (Ht m index Hh) as [len ->]. cbn [decode].
  pose proof (ei_decode_long_decodes i Hw) as Hd. pose proof (zlen_int_text i) as Hz.
  cbn [tmpl_text] in *.
  destruct Hty as [-> | ->]; closed_tests; rewrite (decode_ok _ _ _ _ _ _ _ Hd Hh); (apply printf_last; [done|done|exact (Z.le_trans _ 21 1999 Hz ltac:(lia))]).
Qed.

Lemma print_str_ok l : print_ok (TStr l).
Proof.
  intros fuel skip_fuel m index s bs n Hw [Hl Hp] E Hh _ Hf Hr Hn. destruct fuel as [|fuel]; [cbn in Hf; lia|].
  apply app_bytes_some in E as (a & b & Ea & [= <-] & ->). rewrite app_nil_r in *. apply (inj Some) in Ea as <-.
  cbn [print_term]. destruct (type_string l Hl m index Hh) as [len ->]. cbn [decode]. closed_tests. rewrite granted. cbn [negb].
  assert (bytes_ok l) as Hok by (by eapply plain_name).
  rewrite (decode_ok _ _ _ _ _ _ _ (ei_decode_string_decodes true l Hok ltac:(lia)) Hh).
  cbn [tmpl_text] in *. change (34 :: l ++ [34]) with ([34] ++ l ++ [34]) in *.
  apply puts_then; [done|done|]. intros s1 Hr1.
  destruct (print_chars_ok l (0 + zlen [34]) s1 (zlen [34] + n) (fun ch s => puts alloc junk [34] ch s (fun ch s => POk ch (index + zlen (string_bytes l)) s)))
    as (s2 & -> & Ht2 & Hr2); [done|rewrite zlen_app in Hr1; by rewrite Z.add_assoc|change (zlen [34]) with 1; lia|].
  eapply prints_app; [exact Ht2|]. by apply puts_last.
Qed.

(** Go on where [r] calls [k1]. *)
Lemma prints_then r l1 l2 ch i1 i2 s n k1 k2 :
  prints r l1 ch i1 s (zlen l2 + n) k1 ->
  (forall s1, sink_room buffered s1 (zlen l2 + n) -> prints (k1 (ch + zlen l1) i1 s1) l2 (ch + zlen l1) i2 s1 n k2) ->
  prints r (l1 ++ l2) ch i2 s n k2.
Proof. intros (s1 & -> & Ht & Hr) Hk. eapply prints_app; [exact Ht|]. by apply Hk. Qed.

(** Behind the call for an element. *)
Lemma print_call r l1 l2 ch i1 i2 s n K k2 :
  prints r l1 0 i1 s (zlen l2 + n) POk ->
  (forall s1, sink_room buffered s1 (zlen l2 + n) -> prints (K (zlen l1) i1 s1) l2 (ch + zlen l1) i2 s1 n k2) ->
  prints (then_print r K) (l1 ++ l2) ch i2 s n k2.
Proof.
  intros (s1 & -> & Ht & Hr) HK. cbn [then_print]. rewrite Z.add_0_l. eapply prints_app; [exact Ht|]. by apply HK.
Qed.

Definition elems_print_ok (es : elems) : Prop := forall t fuel skip_fuel m ch index s bs n k,
  print_ok t -> tmpl_wf t -> canonical t -> elems_wf es -> elems_canonical [32] es ->
  ops_bytes (tmpl_ops t ++ elems_ops es) = Some bs -> holds m index bs -> zlen bs < 2 ^ 31 ->
  (Nat.max (tmpl_depth t) (elems_depth es) <= fuel)%nat ->
  sink_room buffered s (zlen (tmpl_text t ++ elems_text 44 es) + n) -> 0 <= n ->
  prints (print_terms alloc junk (print_term alloc junk scan fmt_f junk_ref junk_fun fun_alloc fuel skip_fuel m) (S (Z.to_nat (elems_count es))) ch index s k)
    (tmpl_text t ++ elems_text 44 es) ch (index + zlen bs) s n k.

Lemma elems_count_nonneg es : 0 <= elems_count es.
Proof. induction es; cbn [elems_count]; lia. Qed.
Lemma pairs_count_nonneg ps : 0 <= pairs_count ps.
Proof. induction ps; cbn [pairs_count]; lia. Qed.

Lemma elems_print_nil : elems_print_ok ENil.
Proof.
  intros t fuel sf m ch index s bs n k Ht Hw Hc _ _ E Hh Hl Hf Hr Hn. cbn [elems_ops elems_text elems_count] in *.
  rewrite !app_nil_r in *. cbn [print_terms Z.to_nat]. rewrite <- (app_nil_r (tmpl_text t)). apply (print_call _ _ _ _ (index + zlen bs)).
  - apply Ht; try done. cbn [elems_depth] in Hf. lia.
  - intros s1 Hr1. apply prints_done. done.
Qed.

Lemma elems_print_cons ws t2 es : print_ok t2 -> elems_print_ok es -> elems_print_ok (ECons ws t2 es).
Proof.
  intros IH2 IHes t fuel sf m ch index s bs n k Ht Hw Hc (_ & Hw2 & Hwes) (-> & Hc2 & Hces) E Hh Hl Hf Hr Hn.
  apply ops_bytes_app in E as (b1 & b2 & E1 & E2 & ->). apply holds_app in Hh as [Hh1 Hh2].
  rewrite elems_ops_cons in E2. rewrite elems_text_cons in *. cbn [app] in Hr |- *. cbn [elems_count].
  set (rest := tmpl_text t2 ++ elems_text 44 es) in *. change (44 :: 32 :: rest) with (str ", "%string ++ rest) in *.
  pose proof (elems_count_nonneg es). replace (Z.to_nat (1 + elems_count es)) with (S (Z.to_nat (elems_count es))) by lia.
  change (elems_depth (ECons [32] t2 es)) with (Nat.max (tmpl_depth t2) (elems_depth es)) in Hf.
  rewrite (zlen_app b1 b2), Z.add_assoc in *. cbn [print_terms].
  pose proof (zlen_nonneg b1). pose proof (zlen_nonneg b2). pose proof (zlen_nonneg (str ", "%string ++ rest)).
  apply (print_call _ _ _ _ (index + zlen b1)).
  - apply Ht; [done|done|done|done|lia|lia| |lia].
    eapply room_weaken; [exact Hr|]. rewrite (zlen_app (tmpl_text t)). lia.
  - intros s1 Hr1. apply puts_then; [done|done|]. intros s2 Hr2.
    apply IHes; [done|done|done|done|done|done|done|lia|lia|done|done].
Qed.

Definition pairs_print_ok (ps : pairs) : Prop := forall kt vt fuel skip_fuel m ch index s bs n k,
  print_ok kt -> tmpl_wf kt -> canonical kt -> print_ok vt -> tmpl_wf vt -> canonical vt -> pairs_wf ps -> pairs_canonical [32] ps ->
  ops_bytes (tmpl_ops kt ++ tmpl_ops vt ++ pairs_ops ps) = Some bs -> holds m index bs -> zlen bs < 2 ^ 31 ->
  (Nat.max (tmpl_depth kt) (Nat.max (tmpl_depth vt) (pairs_depth ps)) <= fuel)%nat ->
  let text := tmpl_text kt ++ str " => "%string ++ tmpl_text vt ++ pairs_text 44 ps in
  sink_room buffered s (zlen text + n) -> 0 <= n ->
  prints (print_pairs alloc junk (print_term alloc junk scan fmt_f junk_ref junk_fun fun_alloc fuel skip_fuel m)
            (S (Z.to_nat (pairs_count ps))) ch index s k) text ch (index + zlen bs) s n k.

(** One pair, in front of what is printed next. *)
Lemma pair_printed kt vt fuel skip_fuel m ch index s b1 b2 i2 n rest K k :
  print_ok kt -> tmpl_wf kt -> canonical kt -> print_ok vt -> tmpl_wf vt -> canonical vt ->
  ops_bytes (tmpl_ops kt) = Some b1 -> ops_bytes (tmpl_ops vt) = Some b2 -> holds m index (b1 ++ b2) ->
  zlen b1 + zlen b2 < 2 ^ 31 -> (tmpl_depth kt <= fuel)%nat -> (tmpl_depth vt <= fuel)%nat ->
  sink_room buffered s (zlen (tmpl_text kt ++ str " => "%string ++ tmpl_text vt ++ rest) + n) -> 0 <= n ->
  (forall ch s1, sink_room buffered s1 (zlen rest + n) -> prints (K (ch - zlen (tmpl_text vt)) (zlen (tmpl_text vt)) (index + zlen b1 + zlen b2) s1) rest ch i2 s1 n k) ->
  prints (then_print (print_term alloc junk scan fmt_f junk_ref junk_fun fun_alloc fuel skip_fuel m index s) (fun r index s =>
    printf alloc junk (str " => "%string) (ch + r) s (fun ch s =>
      then_print (print_term alloc junk scan fmt_f junk_ref junk_fun fun_alloc fuel skip_fuel m index s) (fun r index s => K ch r index s))))
    (tmpl_text kt ++ str " => "%string ++ tmpl_text vt ++ rest) ch i2 s n k.
Proof.
  intros Hk Hwk Hck Hv Hwv Hcv E1 E2 Hh Hl Hf1 Hf2 Hr Hn HK. apply holds_app in Hh as [Hh1 Hh2].
  pose proof (zlen_nonneg b1). pose proof (zlen_nonneg b2). pose proof (zlen_nonneg rest).
  apply (print_call _ _ _ _ (index + zlen b1)).
  - apply Hk; [done|done|done|done|lia|done| |rewrite zlen_app; zlen_lia].
    eapply room_weaken; [exact Hr|]. rewrite (zlen_app (tmpl_text kt)). lia.
  - intros s1 Hr1. apply printf_then; [done|done|by vm_compute|]. intros s2 Hr2.
    apply (print_call _ _ _ _ (index + zlen b1 + zlen b2)).
    + apply Hv; [done|done|done|done|lia|done| |lia]. eapply room_weaken; [exact Hr2|]. rewrite (zlen_app (tmpl_text vt)). lia.
    + intros s3 Hr3. set (c := ch + _ + _). replace c with (c + zlen (tmpl_text vt) - zlen (tmpl_text vt)) at 1 by lia. by apply HK.
Qed.

Lemma pairs_print_nil : pairs_print_ok PNil.
Proof.
  intros kt vt fuel sf m ch index s bs n k Hk Hwk Hck Hv Hwv Hcv _ _ E Hh Hl Hf text Hr Hn. subst text.
  apply ops_bytes_app in E as (b1 & b2' & E1 & E & ->). cbn [pairs_ops pairs_text pairs_count pairs_depth] in *. rewrite app_nil_r in E.
  cbn [print_pairs Z.to_nat]. rewrite (zlen_app b1) in *.
  eapply (pair_printed kt vt _ _ _ _ _ _ b1 b2' _ _ [] (fun ch r index s => k (ch + r) index s));
    [done|done|done|done|done|done|done|done|done|done|lia|lia|done|done|].
  intros c s1 Hr1. replace (c - zlen (tmpl_text vt) + zlen (tmpl_text vt)) with c by lia. rewrite Z.add_assoc. by apply prints_done.
Qed.

Lemma pairs_print_cons ws1 k2 ws2 ws3 v2 ws4 ps :
  print_ok k2 -> print_ok v2 -> pairs_print_ok ps -> pairs_print_ok (PCons ws1 k2 ws2 ws3 v2 ws4 ps).
Proof.
  intros IHk IHv IHps kt vt fuel sf m ch index s bs n k Hk Hwk Hck Hv Hwv Hcv (_ & Hwk2 & _ & _ & Hwv2 & _ & Hwps)
    (-> & -> & -> & -> & Hck2 & Hcv2 & Hcps) E Hh Hl Hf text Hr Hn. subst text.
  apply ops_bytes_app in E as (b1 & b' & E1 & E & ->). apply ops_bytes_app in E as (b2 & b3 & E2 & E3 & ->).
  rewrite app_assoc in Hh. apply holds_app in Hh as [Hh1 Hh3]. rewrite pairs_ops_cons in E3. rewrite pairs_text_cons in *.
  cbn [app pairs_count] in *. set (rest := tmpl_text k2 ++ str " => "%string ++ tmpl_text v2 ++ pairs_text 44 ps) in *.
  change (44 :: 32 :: tmpl_text k2 ++ 32 :: 61 :: 62 :: 32 :: tmpl_text v2 ++ pairs_text 44 ps) with (str ", "%string ++ rest) in *.
  pose proof (pairs_count_nonneg ps). replace (Z.to_nat (1 + pairs_count ps)) with (S (Z.to_nat (pairs_count ps))) by lia.
  change (pairs_depth (PCons [32] k2 [32] [32] v2 [] ps)) with (Nat.max (tmpl_depth k2) (Nat.max (tmpl_depth v2) (pairs_depth ps))) in Hf.
  rewrite (zlen_app b1), (zlen_app b2) in *.
  pose proof (zlen_nonneg b1). pose proof (zlen_nonneg b2). pose proof (zlen_nonneg b3). cbn [print_pairs].
  eapply (pair_printed kt vt _ _ _ _ _ _ b1 b2 _ _ (str ", "%string ++ rest)
    (fun ch r index s => puts alloc junk (str ", "%string) (ch + r) s (fun ch s => print_pairs alloc junk
       (print_term alloc junk scan fmt_f junk_ref junk_fun fun_alloc fuel sf m) (S (Z.to_nat (pairs_count ps))) ch index s k)));
    [done|done|done|done|done|done|done|done|done|lia|lia|lia|done|done|].
  intros c s1 Hr1. replace (c - zlen (tmpl_text vt) + zlen (tmpl_text vt)) with c by lia.
  apply puts_then; [done|done|]. intros s2 Hr2. rewrite !Z.add_assoc in *.
  apply IHps; [done|done|done|done|done|done|done|done|done|done|lia|lia|done|done].
Qed.

Lemma ops_bytes_cons op ops bs :
  ops_bytes (op :: ops) = Some bs -> exists b1 b2, op_bytes op = Some b1 /\ ops_bytes ops = Some b2 /\ bs = b1 ++ b2.
Proof. intros E. by apply app_bytes_some in E. Qed.

(** What stands between the brackets. *)
Definition inner_text (es : elems) : list Z := match es with ENil => [] | ECons ws t es => ws ++ tmpl_text t ++ elems_text 44 es end.
Definition inner_pairs (ps : pairs) : list Z := drop 1 (pairs_text 123 ps).

Lemma tuple_text es : tmpl_text (TTuple es) = [123] ++ inner_text es ++ [125].
Proof. destruct es; [done|]. reflexivity. Qed.
Lemma list_text es : tmpl_text (TList es) = [91] ++ inner_text es ++ [93].
Proof. destruct es; [done|]. reflexivity. Qed.
Lemma map_text ps : tmpl_text (TMap ps) = str "#{"%string ++ inner_pairs ps ++ [125].
Proof. destruct ps; [done|]. reflexivity. Qed.

(** The elements of a container. *)
Definition inner_ok (es : elems) : Prop := match es with ENil => True | ECons _ t es => print_ok t /\ elems_print_ok es end.
Definition inner_pairs_ok (ps : pairs) : Prop :=
  match ps with PNil => True | PCons _ k _ _ v _ ps => print_ok k /\ print_ok v /\ pairs_print_ok ps end.

Lemma inner_printed es fuel sf m ch index s body n k :
  inner_ok es -> elems_wf es -> elems_canonical [] es -> ops_bytes (elems_ops es) = Some body -> holds m index body ->
  zlen body < 2 ^ 31 -> (elems_depth es <= fuel)%nat -> sink_room buffered s (zlen (inner_text es) + n) -> 0 <= n ->
  prints (print_terms alloc junk (print_term alloc junk scan fmt_f junk_ref junk_fun fun_alloc fuel sf m)
            (Z.to_nat (elems_count es)) ch index s k) (inner_text es) ch (index + zlen body) s n k.
Proof.
  intros IH Hw Hc E Hh Hl Hf Hr Hn. destruct es as [|ws t es].
  - injection E as <-. change (zlen []) with 0. rewrite Z.add_0_r. by apply prints_done.
  - destruct IH as [IHt IHes], Hw as (_ & Hwt & Hwes), Hc as (-> & Hct & Hces). cbn [elems_count inner_text app] in *.
    pose proof (elems_count_nonneg es). replace (Z.to_nat (1 + elems_count es)) with (S (Z.to_nat (elems_count es))) by lia.
    rewrite elems_ops_cons in E. by apply IHes.
Qed.

Lemma inner_pairs_printed ps fuel sf m ch index s body n k :
  inner_pairs_ok ps -> pairs_wf ps -> pairs_canonical [] ps -> ops_bytes (pairs_ops ps) = Some body -> holds m index body ->
  zlen body < 2 ^ 31 -> (pairs_depth ps <= fuel)%nat -> sink_room buffered s (zlen (inner_pairs ps) + n) -> 0 <= n ->
  prints (print_pairs alloc junk (print_term alloc junk scan fmt_f junk_ref junk_fun fun_alloc fuel sf m)
            (Z.to_nat (pairs_count ps)) ch index s k) (inner_pairs ps) ch (index + zlen body) s n k.
Proof.
  intros IH Hw Hc E Hh Hl Hf Hr Hn. destruct ps as [|ws1 kt ws2 ws3 vt ws4 ps].
  - injection E as <-. change (zlen []) with 0. rewrite Z.add_0_r. by apply prints_done.
  - destruct IH as (IHk & IHv & IHps), Hw as (_ & Hwk & _ & _ & Hwv & _ & Hwps), Hc as (-> & -> & -> & -> & Hck & Hcv & Hcps).
    unfold inner_pairs in *. rewrite pairs_text_cons in *.
    change (drop 1 (123 :: [] ++ tmpl_text kt ++ [32] ++ 61 :: 62 :: [32] ++ tmpl_text vt ++ [] ++ pairs_text 44 ps))
      with (tmpl_text kt ++ str " => "%string ++ tmpl_text vt ++ pairs_text 44 ps) in *.
    cbn [pairs_count]. pose proof (pairs_count_nonneg ps).
    replace (Z.to_nat (1 + pairs_count ps)) with (S (Z.to_nat (pairs_count ps))) by lia.
    rewrite pairs_ops_cons in E. by apply IHps.
Qed.

Lemma print_tuple_ok es : inner_ok es -> print_ok (TTuple es).
Proof.
  intros IH fuel sf m index s bs n Hw [Hcount Hc] E Hh Hl Hf Hr Hn. destruct fuel as [|fuel]; [cbn in Hf; lia|].
  rewrite tuple_ops in E. apply ops_bytes_cons in E as (hb & body & Eh & Eb & ->). cbn [op_bytes] in Eh.
  apply holds_app in Hh as [Hh1 Hh2]. destruct (type_tuple _ _ Hcount Eh) as (ty & Hty & Ht).
  pose proof (ei_decode_tuple_header_decodes true _ _ Hcount Eh) as Hd. cbn [print_term].
  destruct (Ht m index Hh1) as [len ->]. cbn [decode]. rewrite (zlen_app hb), Z.add_assoc in *.
  pose proof (zlen_nonneg hb). pose proof (zlen_nonneg body). rewrite tuple_text in *.
  change (tmpl_depth (TTuple es)) with (S (elems_depth es)) in Hf.
  assert (forall s1, sink_room buffered s1 (zlen (inner_text es ++ [125]) + n) -> sink_room buffered s1 (zlen (inner_text es) + (zlen [125] + n))) as Hroom.
  { intros s1. rewrite zlen_app, Z.add_assoc. done. }
  destruct Hty as [-> | ->]; closed_tests; rewrite (decode_ok _ _ _ _ _ _ _ Hd Hh1); (apply puts_then; [done|done|]; intros s1 Hr1;
    eapply prints_then; [apply inner_printed; try done; [lia|lia|by apply Hroom|change (zlen [125]) with 1; lia]|
    intros s2 Hr2; by apply puts_last]).
Qed.

Lemma print_list_ok es : inner_ok es -> print_ok (TList es).
Proof.
  intros IH fuel sf m index s bs n Hw [Hcount Hc] E Hh Hl Hf Hr Hn. destruct fuel as [|fuel]; [cbn in Hf; lia|].
  change (tmpl_depth (TList es)) with (S (elems_depth es)) in Hf. cbn [print_term]. destruct es as [|ws t es].
  - apply ops_bytes_cons in E as (b1 & b2 & E1 & [= <-] & ->). apply (inj Some) in E1 as <-. rewrite app_nil_r in *.
    destruct (type_nil m index Hh) as [len ->]. cbn [decode]. closed_tests.
    rewrite (decode_ok _ _ _ _ _ _ _ (ei_decode_list_header_decodes true 0 _ ltac:(lia) eq_refl) Hh). by apply printf_last.
  - rewrite list_ops in E. apply ops_bytes_cons in E as (hb & body & Eh & E & ->).
    apply ops_bytes_app in E as (eb & nb & Eb & En & ->). apply ops_bytes_cons in En as (b1 & b2 & E1 & [= <-] & ->).
    apply (inj Some) in E1 as <-. rewrite app_nil_r in *. cbn [op_bytes] in Eh.
    apply holds_app in Hh as [Hh1 Hh2]. apply holds_app in Hh2 as [Hh2 Hh3].
    pose proof (ei_decode_list_header_decodes true _ _ Hcount Eh) as Hd.
    assert (0 < elems_count (ECons ws t es)) as Hpos by (pose proof (elems_count_nonneg es); cbn [elems_count]; lia).
    assert (type_of hb ERL_LIST_EXT) as Ht.
    { unfold list_header_bytes in Eh. replace (elems_count _ <? 0) with false in Eh by lia. replace (0 <? elems_count _) with true in Eh by lia.
      apply (inj Some) in Eh as <-. apply type_list. }
    destruct (Ht m index Hh1) as [len ->]. cbn [decode]. closed_tests. rewrite (decode_ok _ _ _ _ _ _ _ Hd Hh1).
    rewrite (zlen_app hb), (zlen_app eb) in *. change (zlen [ERL_NIL_EXT]) with 1 in *. pose proof (zlen_nonneg hb). pose proof (zlen_nonneg eb).
    rewrite list_text in *. apply puts_then; [done|done|]. intros s1 Hr1.
    eapply prints_then.
    + apply inner_printed; try done; [lia|lia| |change (zlen [93]) with 1; lia].
      eapply room_weaken; [exact Hr1|]. rewrite (zlen_app (inner_text _)). lia.
    + intros s2 Hr2. cbn beta. destruct (type_nil m _ Hh3) as [len3 ->]. cbn [decode]. closed_tests.
      rewrite (decode_ok _ _ _ _ _ _ _ (ei_decode_list_header_decodes true 0 _ ltac:(lia) eq_refl) Hh3).
      change (zlen [ERL_NIL_EXT]) with 1. rewrite !Z.add_assoc. by apply puts_last.
Qed.

Lemma print_map_ok ps : inner_pairs_ok ps -> print_ok (TMap ps).
Proof.
  intros IH fuel sf m index s bs n Hw [Hcount Hc] E Hh Hl Hf Hr Hn. destruct fuel as [|fuel]; [cbn in Hf; lia|].
  rewrite map_ops in E. apply ops_bytes_cons in E as (hb & body & Eh & Eb & ->). cbn [op_bytes] in Eh.
  apply holds_app in Hh as [Hh1 Hh2]. pose proof (ei_decode_map_header_decodes true _ _ Hcount Eh) as Hd.
  assert (type_of hb ERL_MAP_EXT) as Ht.
  { unfold map_header_bytes in Eh. destruct (_ <? 0); [done|]. apply (inj Some) in Eh as <-. apply type_map. }
  change (tmpl_depth (TMap ps)) with (S (pairs_depth ps)) in Hf. cbn [print_term].
  destruct (Ht m index Hh1) as [len ->]. cbn [decode]. closed_tests. rewrite (decode_ok _ _ _ _ _ _ _ Hd Hh1).
  rewrite (zlen_app hb), Z.add_assoc in *. pose proof (zlen_nonneg hb). pose proof (zlen_nonneg body). rewrite map_text in *.
  apply printf_then; [done|done|by vm_compute|]. intros s1 Hr1. eapply prints_then.
  - apply inner_pairs_printed; try done; [lia|lia| |change (zlen [125]) with 1; lia].
    eapply room_weaken; [exact Hr1|]. rewrite (zlen_app (inner_pairs _)). lia.
  - intros s2 Hr2. by apply puts_last.
Qed.

Lemma all_printed : (forall t, print_ok t) /\ (forall es, inner_ok es /\ elems_print_ok es) /\ (forall ps, inner_pairs_ok ps /\ pairs_print_ok ps).
Proof.
  apply tmpl_elems_pairs_ind.
  - intros name. by apply (print_atom_ok _ name); left.
  - intros name. by apply (print_atom_ok _ name); right.
  - apply print_int_ok.
  - apply print_str_ok.
  - by intros c v fuel sf m index s bs n _ [].
  - intros es [H _]. by apply print_tuple_ok.
  - intros es [H _]. by apply print_list_ok.
  - intros ps [H _]. by apply print_map_ok.
  - split; [done|apply elems_print_nil].
  - intros ws t Ht es [_ Hes]. split; [by split|by apply elems_print_cons].
  - split; [done|apply pairs_print_nil].
  - intros ws1 k Hk ws2 ws3 v Hv ws4 ps [_ Hps]. split; [by split|by apply pairs_print_cons].
Qed.
End Printed.

(** ** Properties *)

Lemma canonical_no_va :
  (forall t, canonical t -> tmpl_va t = []) /\
  (forall es space, elems_canonical space es -> elems_va es = []) /\
  (forall ps space, pairs_canonical space ps -> pairs_va ps = []).
Proof.
  apply tmpl_elems_pairs_ind; try done.
  - intros es IH [_ H]. exact (IH _ H).
  - intros es IH [_ H]. exact (IH _ H).
  - intros ps IH [_ H]. exact (IH _ H).
  - intros ws t Ht es Hes space (_ & H1 & H2). rewrite elems_va_cons, (Ht H1), (Hes _ H2). done.
  - intros ws1 k Hk ws2 ws3 v Hv ws4 ps Hps space (_ & _ & _ & _ & H1 & H2 & H3). rewrite pairs_va_cons, (Hk H1), (Hv H2), (Hps _ H3). done.
Qed.

(** C19: What [ei_s_print_term] prints of an encoded term, into a string that it
    allocates itself, is read back by [ei_x_format_wo_ver] as the same bytes: for
    every term of atoms of Latin-1 characters other than the single quote and the
    tilde, integers of 28 bits, strings of 1 to 65535 printable ASCII characters other
    than the double quote and the tilde, tuples, proper lists and maps, to any depth.
    The value returned is the length of the string, and [*index] is moved behind the
    term.  (Nothing is escaped when it is printed: with these characters the text is
    read as another term, or not at all.) *)
Theorem print_format_roundtrip alloc junk scan fmt_f junk_ref junk_fun fun_alloc d t bs m index x fuel skip_fuel fuel2 :
  (forall n, length (junk n) = n) -> (forall n, alloc n = true) ->
  tmpl_wf t -> canonical t -> ops_bytes (tmpl_ops t) = Some bs -> holds m index bs -> zlen bs < 2 ^ 31 ->
  zlen (tmpl_text t) + 1 + 2 * ei_x_extra < 2 ^ 31 -> (tmpl_depth t <= fuel)%nat ->
  x_wf x -> x_index x + zlen bs + 2 * ei_x_extra < 2 ^ 31 -> (2 * length (tmpl_text t) + 4 <= fuel2)%nat ->
  exists text y x',
    ei_s_print_term alloc junk scan fmt_f junk_ref junk_fun fun_alloc fuel skip_fuel None m index =
      Some (Some (zlen text, index + zlen bs), y) /\
    x_contents y = text ++ [0] /\
    ei_x_format_wo_ver alloc junk scan d fuel2 x text [] = FOk 0 [0] [] x' /\ x_contents x' = x_contents x ++ bs.
Proof.
  intros Hj Ha Ht Hc E Hh Hl Htext Hf Hw Hx Hf2.
  destruct (format_wo_ver_writes alloc junk scan d t x bs fuel2 Hj Ha Ht E (conj Hw Hx) Hf2) as (x' & Ef & _ & Hc').
  rewrite (proj1 canonical_no_va t Hc) in Ef. exists (tmpl_text t).
  unfold ei_s_print_term. destruct (ei_x_new alloc junk) as [x0| |] eqn:En; [|by unfold ei_x_new, ei_malloc in En; rewrite Ha in En..].
  destruct (ei_x_new_wf _ _ Hj _ En) as [Hw0 Hc0]. pose proof (x_index_contents x0 Hw0) as Hi0. rewrite Hc0 in Hi0. change (zlen (@nil Z)) with 0 in Hi0.
  destruct (proj1 (all_printed alloc junk Hj Ha scan fmt_f junk_ref junk_fun fun_alloc true) t fuel skip_fuel m index (SBuf x0) bs 1)
    as ([out|x1] & -> & Hs & Hr); [done|done|done|done|done|done|split; [done|split; [done|lia]]|lia|done|].
  destruct Hr as (_ & Hw1 & Hb1). cbn [sink_text] in Hs. rewrite Hc0 in Hs.
  destruct (append_buf_appends alloc junk Hj [0] x1 Hw1) as [(y & Ey & _ & Hcy)|[_ Hno]]; [exact Hb1| |by rewrite Ha in Hno].
  change (zlen [0]) with 1 in Ey. exists y, x'. rewrite Ey. split; [done|]. split; [by rewrite Hcy, Hs|]. split; [exact Ef|exact Hc'].
Qed.

(** ** Samples *)

Definition no_f : Z -> list Z := fun _ => [].
Definition ref_0 : erlang_ref := {| ref_node := []; ref_len := 0; ref_n := []; ref_creation := 0 |}.

(** [{ok, [300, 'A b'], #{k => -7}}] *)
Definition sample_term : tmpl :=
  TTuple (ECons [] (TAtom [111; 107])
         (ECons [32] (TList (ECons [] (TInt 300) (ECons [32] (TQuoted [65; 32; 98]) ENil)))
         (ECons [32] (TMap (PCons [] (TAtom [107]) [32] [32] (TInt (-7)) [] PNil)) ENil))).
Definition sample_bytes : list Z :=
  [104; 3; 119; 2; 111; 107; 108; 0; 0; 0; 2; 98; 0; 0; 1; 44; 119; 3; 65; 32; 98; 106;
   116; 0; 0; 0; 1; 119; 1; 107; 98; 255; 255; 255; 249].

Lemma print_format_roundtrip_witness :
  exists text y x',
    ei_s_print_term (fun _ => true) fill (fun _ => None) no_f ref_0 ([], 0) true 5 0 None sample_bytes 0 = Some (Some (zlen text, 35), y) /\
    x_contents y = text ++ [0] /\
    ei_x_format_wo_ver (fun _ => true) fill (fun _ => None) 0 100 x_0 text [] = FOk 0 [0] [] x' /\ x_contents x' = [] ++ sample_bytes.
Proof.
  apply (print_format_roundtrip (fun _ => true) fill (fun _ => None) no_f ref_0 ([], 0) true 0 sample_term sample_bytes sample_bytes 0 x_0 5 0 100).
  - intros n. apply length_replicate.
  - done.
  - repeat split; by vm_compute.
  - repeat split; by vm_compute.
  - by vm_compute.
  - exists [], []. by vm_compute.
  - by vm_compute.
  - by vm_compute.
  - by vm_compute; lia.
  - exact x_0_wf.
  - by vm_compute.
  - by vm_compute; lia.
Defined.

(** ** Text that is not read back *)

Definition printed (m : mem) : pres :=
  ei_print_term (fun _ => true) fill (fun _ => None) no_f ref_0 ([], 0) true 5 0 [] m 0.

(** The characters of a string are signed: of one above 127, all 32 bits are printed. *)
Theorem high_char_printed : printed [ERL_STRING_EXT; 0; 1; 233] = POk 12 4 (SFile ([34] ++ str "\xffffffe9"%string ++ [34])).
Proof. by vm_compute. Qed.

(** A list with a tail is printed with spaces around the bar, and read as a list
    without one. *)
Theorem improper_list_reread :
  printed (ERL_LIST_EXT :: be_bytes 4 1 ++ atom_ext false [97] ++ atom_ext false [98]) = POk 7 11 (SFile (str "[a | b]"%string)) /\
  holds_bytes (formatted "[a | b]"%string)
    (ERL_LIST_EXT :: be_bytes 4 2 ++ atom_ext false [97] ++ atom_ext false [98] ++ [ERL_NIL_EXT]).
Proof. by vm_compute. Qed.

(** The bytes that a text without directives gives. *)
Definition formatted_bytes (text bs : list Z) : Prop :=
  holds_bytes (ei_x_format_wo_ver (fun _ => true) fill (fun _ => None) 0 100 x_0 text []) bs.

(** Quotes and tildes are printed as they are: a string with a quote is read as the part
    in front of it, an atom too, and a tilde as a directive. *)
Theorem quotes_not_escaped :
  printed (ERL_STRING_EXT :: [0; 3] ++ [97; 34; 98]) = POk 5 6 (SFile ([34] ++ [97; 34; 98] ++ [34])) /\
  formatted_bytes [34; 97; 34; 98; 34] (ERL_STRING_EXT :: [0; 1; 97]) /\
  printed (atom_ext false [97; 39; 98]) = POk 5 5 (SFile ([39] ++ [97; 39; 98] ++ [39])) /\
  formatted_bytes [39; 97; 39; 98; 39] (atom_ext false [97]) /\
  printed (ERL_STRING_EXT :: [0; 2] ++ [97; 126]) = POk 4 5 (SFile [34; 97; 126; 34]) /\
  exists x, ei_x_format_wo_ver (fun _ => true) fill (fun _ => None) 0 100 x_0 [34; 97; 126; 34] [] = FErr x.
Proof. split_and!; try by vm_compute. by eexists; vm_compute. Qed.
