(* ===== verification/EiMsg.v ===== *)
(** * Distribution messages: [send.c], [send_reg.c], [send_exit.c], [eirecv.c]
    and [ei_trace.c]

    The packets that carry messages between nodes once they are connected: a
    length, a pass-through marker, a control tuple and the message.  The
    senders, the receiver with its header buffer and the buffer of the caller,
    and that what one node sends the other one receives. *)
From S2P Require Import Prelude PutGet EiTypes EiInt EiAtom EiData EiNode EiTerm EiX EiPort EpmdStr.

Definition ERL_ERROR : Z := -1.
Definition ERL_TICK : Z := 0.
Definition ERL_LINK : Z := 1.
Definition ERL_SEND : Z := 2.
Definition ERL_EXIT : Z := 3.
Definition ERL_UNLINK : Z := 4.
Definition ERL_REG_SEND : Z := 6.
Definition ERL_GROUP_LEADER : Z := 7.
Definition ERL_EXIT2 : Z := 8.
Definition ERL_SEND_TT : Z := 12.
Definition ERL_EXIT_TT : Z := 13.
Definition ERL_REG_SEND_TT : Z := 16.
Definition ERL_EXIT2_TT : Z := 18.
Definition ERL_UNLINK_ID : Z := 35.
Definition ERL_UNLINK_ID_ACK : Z := 36.
Definition EIRECVBUF : Z := 2048.
Definition EISMALLBUF : Z := 2048.

Record erlang_msg := {
  msgtype : Z; msg_from : erlang_pid; msg_to : erlang_pid;
  msg_toname : list Z; msg_cookie : list Z; msg_token : erlang_trace }.

(** ** Outcomes

    [RErr]: the function returned [ERL_ERROR]; what it left in its output
    parameters is not described.  [ROob]: an access outside of a buffer.
    [RWait]: a transfer has not ended.  [RFuel]: the recursion of
    [ei_skip_term] was cut off. *)
Inductive rres (A : Type) := ROk (a : A) | RErr | ROob | RWait | RFuel.
Arguments ROk {A} _.
Arguments RErr {A}.
Arguments ROob {A}.
Arguments RWait {A}.
Arguments RFuel {A}.

Definition rbind {A B} (e : rres A) (k : A -> rres B) : rres B :=
  match e with ROk a => k a | RErr => RErr | ROob => ROob | RWait => RWait | RFuel => RFuel end.

Notation "x <~ e ;; k" := (rbind e (fun x => k)) (at level 100, e at next level, right associativity) : ei_scope.
Notation "'let~' ( x , y ) ':=' e 'in' k" := (rbind e (fun '(x, y) => k))
  (at level 10, x name, y name, e at level 100, k at level 200) : ei_scope.

Definition ofopt {A} (o : option A) : rres A := match o with Some a => ROk a | None => ROob end.

(** ** Trace tokens: [ei_trace] *)

Record trace_state := { save_token : erlang_trace; tracing : bool; tr_clock : Z }.

(** [ei_trace(-1, NULL)] *)
Definition ei_trace_off (t : trace_state) : trace_state :=
  {| save_token := save_token t; tracing := false; tr_clock := tr_clock t |}.

(** [ei_trace(0, NULL)]: the token to send, if any. *)
Definition ei_trace_query (t : trace_state) : option erlang_trace * trace_state :=
  if tracing t then
    let s := save_token t in
    let s := {| tr_serial := wraps 64 (tr_serial s + 1); tr_prev := tr_serial s; tr_from := tr_from s;
                tr_label := tr_label s; tr_flags := tr_flags s |} in
    (Some s, {| save_token := s; tracing := true; tr_clock := wraps 32 (tr_clock t + 1) |})
  else (None, t).

(** [ei_trace(1, token)] *)
Definition ei_trace_on (t : trace_state) (token : erlang_trace) : trace_state :=
  if tr_clock t <? tr_serial token then
    let c := wraps 32 (tr_serial token) in
    {| save_token := {| tr_serial := tr_serial token; tr_prev := c; tr_from := tr_from token;
                        tr_label := tr_label token; tr_flags := tr_flags token |};
       tracing := true; tr_clock := c |}
  else {| save_token := token; tracing := true; tr_clock := tr_clock t |}.

(** ** Sending *)

(** What the library knows of a connection, and whether its callbacks have
    [writev]; [fi_alloc]: the memory [writev] needs after a short write is
    granted. *)
Record fd_info := { fi_version : Z; fi_cookie : list Z; fi_writev : bool; fi_alloc : bool }.

(** A sequence of encoders, each of which is followed by [return ERL_ERROR] when
    it fails. *)
Fixpoint encode_seq (fs : list (option mem -> Z -> eres)) (buf : option mem) (index : Z) : eres :=
  match fs with
  | [] => EOk buf index
  | f :: fs => call! (buf, index) := f buf index fails j => EErr j in encode_seq fs buf index
  end.

(** The control message from index 5 of the buffer on, then its length and the
    marker in front of it; gives the bytes to send.  [msglen] bytes follow. *)
Definition control_packet (header : mem) (fs : list (option mem -> Z -> eres)) (msglen : Z) : rres (list Z) :=
  match encode_seq fs (Some header) 5 with
  | EOk (Some h) index =>
      let~ (h, s) := ofopt (put32be h 0 (index + msglen - 4)) in
      let~ (h, s) := ofopt (put8 h s ERL_PASS_THROUGH) in
      ofopt (slice h 0 index)
  | EErr _ => RErr
  | _ => ROob
  end.

Definition write_all (ws : list cwrite) (bs : list Z) : rres (list Z * list cwrite) :=
  match ei_write_fill ws bs with
  | None => RWait
  | Some (e, sent, ws) => if negb (e =? 0) || negb (zlen sent =? zlen bs) then RErr else ROk (sent, ws)
  end.

Definition writev_all (alloc : bool) (ws : list cwrite) (hdr msg : list Z) : rres (list Z * list cwrite) :=
  match ei_writev_fill alloc ws [hdr; msg] with
  | None => RWait
  | Some (e, sent, ws) =>
      if negb (e =? 0) || negb (zlen sent =? zlen hdr + zlen msg) then RErr else ROk (sent, ws)
  end.

(** Header and message, in one or in two writes. *)
Definition transmit (fd : fd_info) (ws : list cwrite) (hdr msg : list Z) : rres (list Z * list cwrite) :=
  if fi_writev fd then writev_all (fi_alloc fd) ws hdr msg
  else
    let~ (s1, ws) := write_all ws hdr in
    let~ (s2, ws) := write_all ws msg in
    ROk (s1 ++ s2, ws).

Definition send_token (fd : fd_info) (tr : trace_state) : option erlang_trace * trace_state :=
  if 0 <? fi_version fd then ei_trace_query tr else (None, tr).

Definition token_field (token : option erlang_trace) : list (option mem -> Z -> eres) :=
  match token with Some t => [fun b i => ei_encode_trace b i t] | None => [] end.

(** [if (token) ... else ...]: arity and type of the control message. *)
Definition control_head (token : option erlang_trace) (arity type type_tt : Z) : list (option mem -> Z -> eres) :=
  [ei_encode_version;
   (fun b i => ei_encode_tuple_header b i (if token is Some _ then arity + 1 else arity));
   (fun b i => ei_encode_long b i (if token is Some _ then type_tt else type))].

(** [header] is the uninitialized local array; the bytes sent are in the result. *)
Definition ei_send_encoded_tmo (fd : fd_info) (header : mem) (tr : trace_state) (ws : list cwrite)
    (to : erlang_pid) (msg : list Z) : rres (list Z * trace_state * list cwrite) :=
  let '(token, tr) := send_token fd tr in
  hdr <~ control_packet header (control_head token 3 ERL_SEND ERL_SEND_TT ++
           [(fun b i => ei_encode_atom b i (fi_cookie fd)); (fun b i => ei_encode_pid b i to)] ++
           token_field token) (zlen msg) ;;
  let~ (sent, ws) := transmit fd ws hdr msg in
  ROk (sent, tr, ws).

Definition ei_send_reg_encoded_tmo (fd : fd_info) (header : mem) (tr : trace_state) (ws : list cwrite)
    (from : erlang_pid) (to msg : list Z) : rres (list Z * trace_state * list cwrite) :=
  let '(token, tr) := send_token fd tr in
  hdr <~ control_packet header (control_head token 4 ERL_REG_SEND ERL_REG_SEND_TT ++
           [(fun b i => ei_encode_pid b i from); (fun b i => ei_encode_atom b i (fi_cookie fd));
            (fun b i => ei_encode_atom b i to)] ++
           token_field token) (zlen msg) ;;
  let~ (sent, ws) := transmit fd ws hdr msg in
  ROk (sent, tr, ws).

(** The buffer is a local array, or from [malloc] when the reason is long. *)
Definition ei_send_exit_tmo (alloc : Z -> bool) (junk : nat -> list Z) (fd : fd_info) (tr : trace_state)
    (ws : list cwrite) (from to : erlang_pid) (reason : list Z) : rres (list Z * trace_state * list cwrite) :=
  let len := wraps 32 (zlen reason + 1080) in
  match (if EISMALLBUF <? len then ei_malloc alloc junk len else Some (junk (Z.to_nat EISMALLBUF))) with
  | None => RErr
  | Some msgbuf =>
      let '(token, tr) := send_token fd tr in
      pkt <~ control_packet msgbuf (control_head token 4 ERL_EXIT ERL_EXIT_TT ++
               [(fun b i => ei_encode_pid b i from); (fun b i => ei_encode_pid b i to)] ++
               token_field token ++ [(fun b i => ei_encode_string b i reason)]) 0 ;;
      let~ (sent, ws) := write_all ws pkt in
      ROk (sent, tr, ws)
  end.

(** ** Receiving *)

Definition set_msgtype (t : Z) (m : erlang_msg) : erlang_msg :=
  {| msgtype := t; msg_from := msg_from m; msg_to := msg_to m; msg_toname := msg_toname m;
     msg_cookie := msg_cookie m; msg_token := msg_token m |}.
Definition set_from (p : erlang_pid) (m : erlang_msg) : erlang_msg :=
  {| msgtype := msgtype m; msg_from := p; msg_to := msg_to m; msg_toname := msg_toname m;
     msg_cookie := msg_cookie m; msg_token := msg_token m |}.
Definition set_to (p : erlang_pid) (m : erlang_msg) : erlang_msg :=
  {| msgtype := msgtype m; msg_from := msg_from m; msg_to := p; msg_toname := msg_toname m;
     msg_cookie := msg_cookie m; msg_token := msg_token m |}.
Definition set_toname (a : list Z) (m : erlang_msg) : erlang_msg :=
  {| msgtype := msgtype m; msg_from := msg_from m; msg_to := msg_to m; msg_toname := a;
     msg_cookie := msg_cookie m; msg_token := msg_token m |}.
Definition set_cookie (a : list Z) (m : erlang_msg) : erlang_msg :=
  {| msgtype := msgtype m; msg_from := msg_from m; msg_to := msg_to m; msg_toname := msg_toname m;
     msg_cookie := a; msg_token := msg_token m |}.
Definition set_token (t : erlang_trace) (m : erlang_msg) : erlang_msg :=
  {| msgtype := msgtype m; msg_from := msg_from m; msg_to := msg_to m; msg_toname := msg_toname m;
     msg_cookie := msg_cookie m; msg_token := t |}.

(** A decoder with -1 turned into [EBADMSG] and [ERL_ERROR]. *)
Definition ofdres {A} (d : dres A) : rres (A * Z) :=
  match d with DOk a i => ROk (a, i) | DErr _ => RErr | DOob => ROob | DFuel => RFuel end.

(** [ei_decode_pid(header, &index, &msg->from)] and the like. *)
Definition field : Type := erlang_msg -> Z -> rres (erlang_msg * Z).
Definition get_pid (header : mem) (set : erlang_pid -> erlang_msg -> erlang_msg) : field := fun msg index =>
  let~ (p, index) := ofdres (ei_decode_pid true header index) in
  match p with Some p => ROk (set p msg, index) | None => RErr end.
Definition get_name (header : mem) (set : list Z -> erlang_msg -> erlang_msg) : field := fun msg index =>
  let~ (a, index) := ofdres (ei_decode_atom_as header index MAXATOMLEN_UTF8 ERLANG_UTF8) in
  ROk (set (at_name a) msg, index).
Definition get_token (header : mem) : field := fun msg index =>
  let~ (t, index) := ofdres (ei_decode_trace true header index) in
  match t with Some t => ROk (set_token t msg, index) | None => RErr end.

Fixpoint get_fields (fs : list field) : field := fun msg index =>
  match fs with
  | [] => ROk (msg, index)
  | f :: fs => let~ (msg, index) := f msg index in get_fields fs msg index
  end.

Definition is_tt (t : Z) : bool :=
  (t =? ERL_SEND_TT) || (t =? ERL_REG_SEND_TT) || (t =? ERL_EXIT_TT) || (t =? ERL_EXIT2_TT).

(** The fields of each control message; nothing is decoded of an unknown one. *)
Definition control_fields (header : mem) (t : Z) : list field :=
  let from := get_pid header set_from in
  let to := get_pid header set_to in
  let cookie := get_name header set_cookie in
  let toname := get_name header set_toname in
  (if (t =? ERL_SEND) || (t =? ERL_SEND_TT) then [cookie; to]
   else if (t =? ERL_REG_SEND) || (t =? ERL_REG_SEND_TT) then [from; cookie; toname]
   else if (t =? ERL_LINK) || (t =? ERL_UNLINK) || (t =? ERL_GROUP_LEADER) || (t =? ERL_EXIT) || (t =? ERL_EXIT2)
           || (t =? ERL_EXIT_TT) || (t =? ERL_EXIT2_TT) then [from; to]
   else []) ++
  (if is_tt t then [get_token header] else []).

(** A read of [want] bytes to [m + off]: the error, the buffer, the number of
    bytes read, and the socket.  A negative number is a huge [size_t]. *)
Definition read_into (rs : list cread) (m : mem) (off want : Z) : rres (Z * mem * Z * list cread) :=
  if (off <? 0) || (want <? 0) || (zlen m <? off + want) then ROob
  else
    match ei_read_fill rs want with
    | None => RWait
    | Some (e, bs, rs) => m <~ ofopt (store m off bs) ;; ROk (e, m, zlen bs, rs)
    end.

(** The same, with [EIO] for a short read and [ERL_ERROR] for an error. *)
Definition read_exact (rs : list cread) (m : mem) (off want : Z) : rres (mem * list cread) :=
  r <~ read_into rs m off want ;;
  let '(e, m, rlen, rs) := r in
  if negb (e =? 0) || negb (rlen =? want) then RErr else ROk (m, rs).

(** [while (remain > 0)]: the rest of a packet that does not fit is dropped. *)
Fixpoint flush (fuel : nat) (rs : list cread) (header : mem) (remain : Z) : rres (list cread) :=
  if remain <=? 0 then ROk rs
  else
    match fuel with
    | O => RFuel
    | S fuel =>
        r <~ read_into rs header 0 (if EIRECVBUF <? remain then EIRECVBUF else remain) ;;
        let '(e, header, rlen, rs) := r in
        if negb (e =? 0) then RErr
        else if rlen =? 0 then ROk rs
        else flush fuel rs header (remain - rlen)
    end.

(** The caller's buffer ([*mbufp], with [*bufsz] the size it is said to have),
    [*msg], [*msglenp], the trace state and the socket. *)
Record recv_state := {
  rv_mbuf : mem; rv_bufsz : Z; rv_msg : erlang_msg; rv_msglen : Z; rv_trace : trace_state;
  rv_reads : list cread; rv_writes : list cwrite; rv_sent : list Z }.

Section Recv.
Variable sscanf_lf : list Z -> option Z.
Variable fuel : nat.
Variable alloc : Z -> bool.
Variable junk : nat -> list Z.

Definition send_unlink_id_ack (ws : list cwrite) (id_ext : list Z) (from to : erlang_pid) : rres (list Z * list cwrite) :=
  pkt <~ control_packet (junk (Z.to_nat EIRECVBUF))
    [ei_encode_version; (fun b i => ei_encode_tuple_header b i 4); (fun b i => ei_encode_long b i ERL_UNLINK_ID_ACK);
     (fun b i => match b with Some m => emit m i id_ext | None => EOk None (i + zlen id_ext) end);
     (fun b i => ei_encode_pid b i from); (fun b i => ei_encode_pid b i to)] 0 ;;
  write_all ws pkt.

(** The control message in [header]: [*msg], the index behind it, what was sent
    in answer. *)
Definition recv_control (header : mem) (msg : erlang_msg) (ws : list cwrite)
  : rres (erlang_msg * Z * (list Z * list cwrite)) :=
  let~ (tag, _s) := ofopt (get8 header 0) in
  if negb (tag =? ERL_PASS_THROUGH) then RErr else
  let~ (version, index) := ofdres (ei_decode_version header 1) in
  if negb (version =? ERL_VERSION_MAGIC) then RErr else
  let~ (arity, index) := ofdres (ei_decode_tuple_header true header index) in
  let~ (t, index) := ofdres (ei_decode_long header index) in
  if t =? ERL_UNLINK_ID then
    let msg := set_msgtype ERL_UNLINK msg in
    let id := index in
    let~ (_u, index) := ofdres (ei_skip_term sscanf_lf fuel header index) in
    id_ext <~ ofopt (slice header id (index - id)) ;;
    let~ (msg, index) := get_fields [get_pid header set_from; get_pid header set_to] msg index in
    ack <~ send_unlink_id_ack ws id_ext (msg_to msg) (msg_from msg) ;;
    ROk (msg, index, ack)
  else if t =? ERL_UNLINK_ID_ACK then RErr
  else
    let~ (msg, index) := get_fields (control_fields header t) (set_msgtype t msg) index in
    ROk (msg, index, ([], ws)).

(** [*mbufp] and [*bufsz] with room for the message. *)
Definition grow (mbuf : mem) (bufsz msglen : Z) : rres (mem * Z) :=
  if bufsz <? msglen then
    match ei_realloc alloc junk (Some mbuf) msglen with
    | None => RErr
    | Some mbuf => ROk (mbuf, msglen)
    end
  else ROk (mbuf, bufsz).

Definition ei_recv_internal (staticbufp : bool) (st : recv_state) : rres (Z * recv_state) :=
  let~ (header, rs) := read_exact (rv_reads st) (junk (Z.to_nat EIRECVBUF)) 0 4 in
  let~ (len, _s) := ofopt (get32be header 0) in
  if len =? 0 then
    match ei_write_fill (rv_writes st) [0; 0; 0; 0] with
    | None => RWait
    | Some (_, sent, ws) =>
        ROk (ERL_TICK, {| rv_mbuf := rv_mbuf st; rv_bufsz := rv_bufsz st; rv_msg := rv_msg st; rv_msglen := 0;
                          rv_trace := rv_trace st; rv_reads := rs; rv_writes := ws; rv_sent := rv_sent st ++ sent |})
    end
  else
    let tr := ei_trace_off (rv_trace st) in
    let bytesread := if EIRECVBUF <? len then EIRECVBUF else len in
    let~ (header, rs) := read_exact rs header 0 bytesread in
    c <~ recv_control header (rv_msg st) (rv_writes st) ;;
    let '(msg, index, (ack, ws)) := c in
    let tr := if is_tt (msgtype msg) then ei_trace_on tr (msg_token msg) else tr in
    let msglen := len - index in
    let remain := len - bytesread in
    if (rv_bufsz st <? msglen) && staticbufp then
      _rs <~ flush (Z.to_nat remain) rs header remain ;; RErr
    else
      let~ (mbuf, bufsz) := grow (rv_mbuf st) (rv_bufsz st) msglen in
      head <~ ofopt (slice header index (bytesread - index)) ;;
      mbuf <~ ofopt (store mbuf 0 head) ;;
      let~ (mbuf, rs) := (if 0 <? remain then read_exact rs mbuf (bytesread - index) remain else ROk (mbuf, rs)) in
      let msg := if 10 <? msgtype msg then set_msgtype (msgtype msg - 10) msg else msg in
      ROk (msgtype msg,
           {| rv_mbuf := mbuf; rv_bufsz := bufsz; rv_msg := msg; rv_msglen := msglen; rv_trace := tr;
              rv_reads := rs; rv_writes := ws; rv_sent := rv_sent st ++ ack |}).
End Recv.

(** ** The formats of the fields *)

(** A name that [ei_encode_atom] is given in Latin-1 travels in UTF-8, cut to
    255 characters. *)
Definition name_bytes (a : list Z) : list Z := atom_ext (128 <=? zlen (take 255 a)) (utf8_text (take 255 a)).

Lemma latin1_pair c :
  byte_ok c -> 128 <= c ->
  Z.lor 0xC0 (Z.shiftr c 6) = 0xC0 + c / 64 /\ Z.lor 0x80 (Z.land c 0x3F) = 0x80 + c mod 64.
Proof.
  intros Hc H. assert (forall c, byte_ok c -> (c <? 128) || ((Z.lor 0xC0 (Z.shiftr c 6) =? 0xC0 + c / 64) &&
    (Z.lor 0x80 (Z.land c 0x3F) =? 0x80 + c mod 64)) = true) as Hall by (apply byte_forall; vm_compute; reflexivity).
  specialize (Hall c Hc). apply orb_true_iff in Hall as [Hx%Z.ltb_lt|[Hx%Z.eqb_eq Hy%Z.eqb_eq]%andb_true_iff]; [lia|done].
Qed.

Lemma latin1_loop_text src k destlen o f :
  bytes_ok src -> latin1_to_utf8_loop src k destlen = Some (o, f) -> o = utf8_text src.
Proof.
  intros Hok. revert k o f. induction Hok as [|c src Hc _ IH]; intros k o f E; [by injection E as <- <-|].
  cbn [latin1_to_utf8_loop] in E. destruct (destlen <=? k); [done|].
  change (utf8_text (c :: src)) with (utf8_encode c ++ utf8_text src). unfold utf8_encode.
  rewrite mask_80 in E by done. unfold byte_ok in Hc. destruct (Z.ltb_spec c 0x80).
  - destruct (latin1_to_utf8_loop src (k + 1) destlen) as [[o1 f1]|] eqn:E1; [|done]. injection E as <- <-.
    by rewrite (IH _ _ _ E1).
  - destruct (latin1_to_utf8_loop src (k + 2) destlen) as [[o1 f1]|] eqn:E1; [|done]. injection E as <- <-.
    destruct (latin1_pair c) as [-> ->]; [done|done|]. rewrite (IH _ _ _ E1). by replace (c <? 2048) with true by lia.
Qed.

Lemma latin1_text src :
  bytes_ok src -> zlen src <= 255 ->
  exists f, latin1_to_utf8 src (MAXATOMLEN_UTF8 - 1) = Some (utf8_text src, f) /\ zlen src <= zlen (utf8_text src) <= 2 * zlen src.
Proof.
  intros Hok Hl. rewrite latin1_fast_track by done.
  destruct (latin1_loop_fits src 0 (MAXATOMLEN_UTF8 - 1)) as (o & f & E); [unfold MAXATOMLEN_UTF8; lia|].
  pose proof (latin1_loop_length src 0 (MAXATOMLEN_UTF8 - 1) o f ltac:(unfold MAXATOMLEN_UTF8; lia) E) as [_ Hlen].
  pose proof (latin1_loop_text _ _ _ _ _ Hok E) as ->. eauto.
Qed.

Lemma take_255 (a : list Z) : zlen (take 255 a) <= 255.
Proof. unfold zlen. rewrite length_take. lia. Qed.

Lemma name_emits a : bytes_ok a -> Emits (fun b i => ei_encode_atom b i a) (Some (name_bytes a)).
Proof.
  intros Hok. pose proof (ei_encode_atom_emits a Hok) as He. pose proof (take_255 a).
  destruct (latin1_text (take 255 a)) as (f & E & _); [by apply Forall_take|done|].
  unfold atom_bytes in He. revert He. closed_tests. rewrite E.
  replace (MAXATOMLEN <=? zlen (take 255 a)) with false by (unfold MAXATOMLEN; lia). done.
Qed.

Lemma name_decodes a :
  bytes_ok a ->
  Decodes (fun m i => ei_decode_atom_as m i MAXATOMLEN_UTF8 ERLANG_UTF8) (name_bytes a)
    (utf8_atom_out (utf8_text (take 255 a))).
Proof.
  intros Hok. pose proof (take_255 a). destruct (latin1_text (take 255 a)) as (f & _ & Hl); [by apply Forall_take|done|].
  apply ei_decode_atom_as_utf8; [|unfold MAXATOMLEN_UTF8; lia|vm_compute; congruence|done].
  destruct (Z.leb_spec 128 (zlen (take 255 a))); lia.
Qed.

(** [f] reads the bytes [fst x] and does [snd x] to the message. *)
Definition reads_field (header : mem) (f : field) (x : list Z * (erlang_msg -> erlang_msg)) : Prop :=
  forall msg i, holds header i (fst x) -> f msg i = ROk (snd x msg, i + zlen (fst x)).

Lemma get_pid_reads header set p bs :
  pid_wf p -> pid_bytes p = Some bs -> reads_field header (get_pid header set) (bs, set p).
Proof.
  intros Hw Hb msg i Hh. unfold get_pid. by rewrite (ei_decode_pid_decodes true p bs Hw Hb header i Hh).
Qed.

Lemma get_name_reads header set a :
  bytes_ok a -> reads_field header (get_name header set) (name_bytes a, set (utf8_text (take 255 a))).
Proof. intros Hok msg i Hh. unfold get_name. by rewrite (name_decodes a Hok header i Hh). Qed.

Lemma get_token_reads header t bs :
  trace_wf t -> trace_bytes t = Some bs -> reads_field header (get_token header) (bs, set_token t).
Proof.
  intros Hw Hb msg i Hh. unfold get_token. by rewrite (ei_decode_trace_decodes true t bs Hw Hb header i Hh).
Qed.

Definition fields_bytes (xs : list (list Z * (erlang_msg -> erlang_msg))) : list Z := concat (map fst xs).
Definition fields_effect (xs : list (list Z * (erlang_msg -> erlang_msg))) (msg : erlang_msg) : erlang_msg :=
  fold_left (fun m x => snd x m) xs msg.

Lemma fields_bytes_app xs ys : fields_bytes (xs ++ ys) = fields_bytes xs ++ fields_bytes ys.
Proof. unfold fields_bytes. by rewrite map_app, concat_app. Qed.

Lemma get_fields_reads header fs xs msg i :
  Forall2 (reads_field header) fs xs -> holds header i (fields_bytes xs) ->
  get_fields fs msg i = ROk (fields_effect xs msg, i + zlen (fields_bytes xs)).
Proof.
  intros H. revert msg i. induction H as [|f x fs xs Hf _ IH]; intros msg i Hh.
  - cbn. unfold fields_bytes. cbn. by rewrite zlen_nil, Z.add_0_r.
  - unfold fields_bytes in *. cbn [map concat get_fields] in *. apply holds_app in Hh as [H1 H2].
    rewrite (Hf _ _ H1). cbn [rbind]. rewrite (IH _ _ H2), zlen_app, Z.add_assoc. done.
Qed.

(** ** The packets *)

Fixpoint seq_bytes (os : list (option (list Z))) : option (list Z) :=
  match os with
  | [] => Some []
  | [o] => o
  | o :: os => app_bytes o (seq_bytes os)
  end.

Lemma encode_seq_emits f fs o os :
  Emits f o -> Forall2 Emits fs os -> Emits (encode_seq (f :: fs)) (seq_bytes (o :: os)).
Proof.
  intros Hf H. revert f o Hf. induction H as [|g o' fs os Hg H IH]; intros f o Hf.
  - exact (emits_last f o (fun _ j => j) Hf).
  - change (seq_bytes (o :: o' :: os)) with (app_bytes o (seq_bytes (o' :: os))).
    exact (emits_seq f o (fun _ => encode_seq (g :: fs)) (seq_bytes (o' :: os)) (fun _ j => j) Hf (fun _ => IH g o' Hg)).
Qed.

(** The packet in front of a message of [n] bytes. *)
Definition packet_header (ctl : list Z) (n : Z) : list Z := be_bytes 4 (1 + zlen ctl + n) ++ [ERL_PASS_THROUGH] ++ ctl.

Lemma control_packet_ok header fs ctl n :
  Emits (encode_seq fs) (Some ctl) ->
  control_packet header fs n
  = if 5 + zlen ctl <=? zlen header then ROk (packet_header ctl n) else ROob.
Proof.
  intros [_ Hb]. unfold control_packet. cbn in Hb. rewrite Hb. unfold emit.
  set (l1 := be_bytes 4 (5 + zlen ctl + n - 4) ++ [ERL_PASS_THROUGH]).
  destruct (Z.leb_spec (5 + zlen ctl) (zlen header)) as [Hl|Hl].
  - destruct (store_some header 5 ctl) as [h Hh]; [lia|done|]. unfold put_bytes. rewrite Hh.
    pose proof (store_back header 0 l1 ctl) as Hsb. cbn [Z.ltb Z.compare] in Hsb.
    change (0 + zlen l1) with 5 in Hsb. rewrite Hh in Hsb.
    rewrite put32be_bytes. unfold put_bytes.
    destruct (store_some header 0 (l1 ++ ctl)) as [h2 Hh2]; [lia|unfold l1; zlen_lia|]. rewrite Hh2 in Hsb.
    unfold l1 in Hsb. rewrite <- store_seq in Hsb. change (0 + zlen (be_bytes 4 _)) with 4 in Hsb.
    destruct (store h 0 (be_bytes 4 (5 + zlen ctl + n - 4))) as [h1|]; [|done]. cbn [ofopt rbind].
    rewrite put8_bytes. unfold put_bytes. change (Z.land ERL_PASS_THROUGH 255) with ERL_PASS_THROUGH.
    change (0 + zlen (be_bytes 4 _)) with 4. rewrite Hsb. cbn [ofopt rbind]. apply store_holds in Hh2.
    rewrite (holds_slice _ _ _ (5 + zlen ctl) Hh2) by (unfold l1; zlen_lia). cbn [ofopt]. f_equal.
    unfold l1, packet_header. rewrite <- app_assoc. do 2 f_equal. lia.
  - unfold put_bytes. replace (store header 5 ctl) with (@None mem) by (symmetry; apply store_None; lia). done.
Qed.

(** ** Receiving a packet *)

Lemma read_exact_ok rs m off bs rs' n :
  delivers rs bs rs' -> zlen bs = n -> 0 <= off -> off + n <= zlen m ->
  exists m', read_exact rs m off n = ROk (m', rs') /\ store m off bs = Some m'.
Proof.
  unfold delivers. intros Hd <- Ho Hl. unfold read_exact, read_into.
  pose proof (zlen_nonneg bs). replace ((off <? 0) || (zlen bs <? 0) || (zlen m <? off + zlen bs)) with false by lia.
  rewrite Hd. destruct (store_some m off bs Ho Hl) as [m' E]. rewrite E. cbn [ofopt rbind].
  rewrite !Z.eqb_refl. exists m'. done.
Qed.

(** The control message of type [t]. *)
Definition control_bytes (arity t : Z) (xs : list (list Z * (erlang_msg -> erlang_msg))) : list Z :=
  [ERL_VERSION_MAGIC; ERL_SMALL_TUPLE_EXT; arity] ++ longlong_bytes t ++ fields_bytes xs.

(** The types the senders use. *)
Definition sent_type (t : Z) : Prop :=
  t = ERL_SEND \/ t = ERL_SEND_TT \/ t = ERL_REG_SEND \/ t = ERL_REG_SEND_TT \/ t = ERL_EXIT \/ t = ERL_EXIT_TT.

Lemma recv_control_ok scan fuel junk header msg ws arity t xs :
  holds header 0 (ERL_PASS_THROUGH :: control_bytes arity t xs) -> 0 <= arity < 256 -> sent_type t ->
  Forall2 (reads_field header) (control_fields header t) xs ->
  recv_control scan fuel junk header msg ws
  = ROk (fields_effect xs (set_msgtype t msg), 1 + zlen (control_bytes arity t xs), ([], ws)).
Proof.
  intros Hh Ha Ht Hf. unfold recv_control.
  destruct (get8_holds header 0 ERL_PASS_THROUGH _ ltac:(by vm_compute) Hh) as [-> Hh1]. cbn [ofopt rbind]. closed_tests.
  change (0 + 1) with 1 in Hh1. unfold control_bytes in Hh1. cbn [app] in Hh1.
  unfold ei_decode_version. destruct (get8_holds header 1 ERL_VERSION_MAGIC _ ltac:(by vm_compute) Hh1) as [-> Hh2]. closed_tests. cbn [ofdres rbind]. closed_tests.
  change (1 + 1) with 2 in *.
  assert (tuple_header_bytes arity = Some [ERL_SMALL_TUPLE_EXT; arity]) as Htb.
  { unfold tuple_header_bytes. replace (arity <? 0) with false by lia. replace (arity <=? 0xff) with true by lia.
    by rewrite land_255_small by (unfold byte_ok; lia). }
  change (ERL_SMALL_TUPLE_EXT :: arity :: ?l) with ([ERL_SMALL_TUPLE_EXT; arity] ++ l) in Hh2.
  destruct (decodes_app _ _ _ _ _ _ (ei_decode_tuple_header_decodes true arity _ ltac:(lia) Htb) Hh2) as [-> Hh3].
  cbn [ofdres rbind]. change (2 + zlen [ERL_SMALL_TUPLE_EXT; arity]) with 4 in *.
  assert (in_s 64 t) as Hs by (unfold sent_type, in_s in *; vm_compute in Ht; lia).
  destruct (decodes_app _ _ _ _ _ _ (ei_decode_long_decodes t Hs) Hh3) as [-> Hh4]. cbn [ofdres rbind].
  assert ((t =? ERL_UNLINK_ID) = false /\ (t =? ERL_UNLINK_ID_ACK) = false) as [-> ->]
    by (unfold sent_type in Ht; vm_compute in Ht; split; apply Z.eqb_neq; intros ->; vm_compute in Ht; lia).
  rewrite (get_fields_reads _ _ _ _ _ Hf Hh4). cbn [rbind]. do 3 f_equal. unfold control_bytes. zlen_lia.
Qed.

(** The reads of the receiver get the packet [pkt], however each of them is
    split by the network. *)
Definition packet_arrives (rs : list cread) (pkt : list Z) (rs' : list cread) : Prop :=
  exists rs1 rs2, delivers rs (take 4 pkt) rs1 /\
    delivers rs1 (take (Z.to_nat EIRECVBUF) (drop 4 pkt)) rs2 /\
    if zlen pkt <=? 4 + EIRECVBUF then rs' = rs2
    else delivers rs2 (drop (Z.to_nat EIRECVBUF) (drop 4 pkt)) rs'.

(** What the receiver makes of a message type. *)
Definition untraced (t : Z) : Z := if 10 <? t then t - 10 else t.
Definition untrace (m : erlang_msg) : erlang_msg := set_msgtype (untraced (msgtype m)) m.
Lemma untrace_eq m : (if 10 <? msgtype m then set_msgtype (msgtype m - 10) m else m) = untrace m.
Proof. unfold untrace, untraced. by destruct (10 <? msgtype m), m. Qed.
Definition traced (tr : trace_state) (m : erlang_msg) : trace_state :=
  if is_tt (msgtype m) then ei_trace_on (ei_trace_off tr) (msg_token m) else ei_trace_off tr.

Section RecvOk.
Variable scan : list Z -> option Z.
Variable fuel : nat.
Variable alloc : Z -> bool.
Variable junk : nat -> list Z.
Hypothesis junk_length : forall n, length (junk n) = n.

(** The buffer is large enough, or can be enlarged. *)
Definition roomy (static : bool) (st : recv_state) (n : Z) : Prop :=
  zlen (rv_mbuf st) = rv_bufsz st /\
  (n <= rv_bufsz st \/ static = false /\ alloc n = true).

Lemma grow_ok static st n :
  roomy static st n -> 0 <= n ->
  (rv_bufsz st <? n) && static = false /\
  exists mbuf bufsz, grow alloc junk (rv_mbuf st) (rv_bufsz st) n = ROk (mbuf, bufsz) /\ zlen mbuf = bufsz /\ n <= bufsz.
Proof.
  intros [Hz Hn] H0. unfold grow. destruct (Z.ltb_spec (rv_bufsz st) n) as [Hl|Hl].
  - destruct Hn as [?|[-> Ha]]; [lia|]. split; [done|]. unfold ei_realloc. replace (0 <=? n) with true by lia.
    rewrite Ha. cbn [andb]. eexists _, _. split; [done|]. split; [|lia].
    rewrite zlen_app. unfold zlen in *. rewrite junk_length, length_take. lia.
  - split; [done|]. eexists _, _. split; [done|]. lia.
Qed.

(** The header buffer holds the control message and the beginning of the
    payload. *)
Lemma header_split header ctl payload k :
  holds header 0 (take (Z.to_nat k) ([ERL_PASS_THROUGH] ++ ctl ++ payload)) -> 1 + zlen ctl <= k ->
  holds header 0 (ERL_PASS_THROUGH :: ctl) /\
  holds header (1 + zlen ctl) (take (Z.to_nat (k - (1 + zlen ctl))) payload).
Proof.
  intros Hh Hk. rewrite app_assoc, take_app_ge in Hh by (cbn; unfold zlen in Hk; lia).
  apply holds_app in Hh as [H1 H2]. split; [exact H1|].
  replace (1 + zlen ctl) with (0 + zlen ([ERL_PASS_THROUGH] ++ ctl)) by zlen_lia.
  replace (Z.to_nat (k - (0 + zlen ([ERL_PASS_THROUGH] ++ ctl)))) with (Z.to_nat k - length ([ERL_PASS_THROUGH] ++ ctl))%nat
    by (unfold zlen; lia). exact H2.
Qed.

(** The beginning of the payload is moved, the rest is read behind it. *)
Lemma payload_joined rs mbuf payload k rs' :
  0 <= k <= zlen payload -> zlen payload <= zlen mbuf ->
  (if zlen payload <=? k then rs' = rs else delivers rs (drop (Z.to_nat k) payload) rs') ->
  exists m1 m2, store mbuf 0 (take (Z.to_nat k) payload) = Some m1 /\
    (if 0 <? zlen payload - k then read_exact rs m1 k (zlen payload - k) else ROk (m1, rs)) = ROk (m2, rs') /\
    holds m2 0 payload /\ zlen m2 = zlen mbuf.
Proof.
  intros Hk Hm Hd.
  assert (zlen (take (Z.to_nat k) payload) = k) as Hzk by (unfold zlen in *; rewrite length_take; lia).
  destruct (store_some mbuf 0 (take (Z.to_nat k) payload)) as [m1 E1]; [lia|lia|]. exists m1.
  pose proof (store_length _ _ _ _ E1) as Hl. destruct (Z.leb_spec (zlen payload) k) as [Hle|Hgt].
  - subst rs'. exists m1. replace (0 <? zlen payload - k) with false by lia. split; [done|]. split; [done|].
    apply store_holds in E1. rewrite take_ge in E1 by (unfold zlen in *; lia). unfold zlen. by rewrite Hl.
  - replace (0 <? zlen payload - k) with true by lia.
    assert (zlen (drop (Z.to_nat k) payload) = zlen payload - k) as Hzd by (unfold zlen in *; rewrite length_drop; lia).
    destruct (read_exact_ok rs m1 k _ rs' _ Hd Hzd) as (m2 & E2 & Hs2); [lia|unfold zlen in *; lia|].
    exists m2. split; [done|]. split; [done|]. pose proof (store_length _ _ _ _ Hs2) as Hl2.
    split; [|unfold zlen in *; lia]. rewrite <- (take_drop (Z.to_nat k) payload). eapply store_holds.
    rewrite <- store_seq, E1, Hzk. exact Hs2.
Qed.

Lemma recv_internal_ok static st arity t xs payload rs' :
  let ctl := control_bytes arity t xs in
  let pkt := packet_header ctl (zlen payload) ++ payload in
  packet_arrives (rv_reads st) pkt rs' -> roomy static st (zlen payload) ->
  0 <= arity < 256 -> sent_type t -> (forall header, Forall2 (reads_field header) (control_fields header t) xs) ->
  1 + zlen ctl <= EIRECVBUF -> zlen pkt < 2 ^ 31 ->
  let msg := fields_effect xs (set_msgtype t (rv_msg st)) in
  exists st', ei_recv_internal scan fuel alloc junk static st = ROk (untraced (msgtype msg), st') /\
    rv_msg st' = untrace msg /\ rv_msglen st' = zlen payload /\ holds (rv_mbuf st') 0 payload /\
    zlen (rv_mbuf st') = rv_bufsz st' /\ rv_trace st' = traced (rv_trace st) msg /\
    rv_reads st' = rs' /\ rv_writes st' = rv_writes st /\ rv_sent st' = rv_sent st.
Proof.
  intros ctl pkt (rs1 & rs2 & H1 & H2 & H3) Hroom Ha Ht Hf Hc Hp msg.
  set (body := [ERL_PASS_THROUGH] ++ ctl ++ payload). pose proof (eq_refl : EIRECVBUF = 2048) as HR.
  assert (pkt = be_bytes 4 (zlen body) ++ body) as Epkt.
  { unfold pkt, packet_header, body. rewrite <- !app_assoc. do 2 f_equal. zlen_lia. }
  assert (take 4 pkt = be_bytes 4 (zlen body) /\ drop 4 pkt = body) as [E4 Eb].
  { rewrite Epkt. split; [by rewrite take_app_length' by done|by rewrite drop_app_length' by done]. }
  rewrite E4 in H1. rewrite Eb in H2, H3.
  assert (1 <= zlen body < 2 ^ 31) as Hb by (rewrite Epkt in Hp; unfold body in *; zlen_lia).
  assert (zlen pkt = 4 + zlen body) as Hzp by (rewrite Epkt; zlen_lia). rewrite Hzp in H3.
  unfold ei_recv_internal.
  assert (zlen (junk (Z.to_nat EIRECVBUF)) = EIRECVBUF) as Hj by (unfold zlen; rewrite junk_length; done).
  destruct (read_exact_ok _ (junk (Z.to_nat EIRECVBUF)) 0 _ _ 4 H1) as (h1 & -> & Hs1); [done|lia|rewrite Hj; vm_compute; congruence|].
  cbn [rbind]. pose proof (store_length _ _ _ _ Hs1) as Hl1. apply store_holds in Hs1.
  rewrite <- (app_nil_r (be_bytes 4 _)) in Hs1.
  destruct (get32be_holds _ _ _ _ Hs1) as [-> _]. cbn [ofopt rbind]. rewrite wraps_small by (unfold in_s; lia).
  replace (zlen body =? 0) with false by lia.
  set (bytesread := if EIRECVBUF <? zlen body then EIRECVBUF else zlen body).
  assert (bytesread = Z.min EIRECVBUF (zlen body)) as Hbr by (unfold bytesread; destruct (Z.ltb_spec EIRECVBUF (zlen body)); lia).
  assert (zlen (take (Z.to_nat EIRECVBUF) body) = bytesread) as Hz2.
  { rewrite Hbr. unfold zlen. rewrite length_take. lia. }
  destruct (read_exact_ok _ h1 0 _ _ bytesread H2) as (h2 & -> & Hs2); [done|lia|unfold zlen in *; lia|].
  cbn [rbind]. apply store_holds in Hs2.
  assert (1 + zlen ctl <= bytesread) as Hcb by (rewrite Hbr; unfold body in *; zlen_lia).
  assert (take (Z.to_nat EIRECVBUF) body = take (Z.to_nat bytesread) body) as Etk.
  { rewrite Hbr. destruct (Z.min_spec EIRECVBUF (zlen body)) as [[_ ->]|[? ->]]; [done|].
    rewrite !take_ge by (unfold zlen in *; lia). done. }
  rewrite Etk in Hs2. destruct (header_split h2 ctl payload bytesread Hs2 Hcb) as [Hh Hpl].
  rewrite (recv_control_ok scan fuel junk h2 _ _ arity t xs Hh Ha Ht (Hf h2)). cbn [rbind]. fold ctl msg.
  assert (zlen body - (1 + zlen ctl) = zlen payload) as -> by (unfold body; zlen_lia).
  destruct (grow_ok static st (zlen payload) Hroom ltac:(zlen_lia)) as (-> & mbuf & bufsz & -> & Hm1 & Hm2). cbn [rbind].
  set (k := bytesread - (1 + zlen ctl)) in *.
  assert (zlen body = 1 + zlen ctl + zlen payload) as Hzb by (unfold body; zlen_lia).
  assert (0 <= k <= zlen payload) as Hk by lia.
  assert (zlen (take (Z.to_nat k) payload) = k) as Hzk by (unfold zlen in *; rewrite length_take; lia).
  rewrite (holds_slice _ _ _ k Hpl Hzk). cbn [ofopt rbind].
  destruct (payload_joined rs2 mbuf payload k rs' Hk) as (m1 & m2 & -> & Ej & Hh2 & Hz); [lia| |].
  { destruct (Z.leb_spec (4 + zlen body) (4 + EIRECVBUF)), (Z.leb_spec (zlen payload) k); [done|lia|lia|].
    unfold body in H3. rewrite app_assoc, drop_app_ge in H3 by (rewrite length_app; cbn [length]; unfold zlen in Hc; lia).
    replace (Z.to_nat k) with (Z.to_nat EIRECVBUF - length ([ERL_PASS_THROUGH] ++ ctl))%nat; [exact H3|].
    unfold k. cbn [length app]. unfold zlen in *. lia. }
  cbn [ofopt rbind]. replace (zlen body - bytesread) with (zlen payload - k) by lia. rewrite Ej. cbn [rbind].
  rewrite untrace_eq, app_nil_r. eexists. split; [reflexivity|]. cbn [rv_msg rv_msglen rv_mbuf rv_bufsz rv_trace rv_reads rv_writes rv_sent].
  split_and!; try done; lia.
Qed.
End RecvOk.

(** ** Sending *)

(** The node name fits its atom and has no more than 255 bytes. *)
Definition wire_pid (p : erlang_pid) : Prop :=
  pid_wf p /\ verify_utf8_atom (pid_node p) = true /\ zlen (pid_node p) <= 255.
Definition wire_name (a : list Z) : Prop := bytes_ok a /\ zlen (utf8_text (take 255 a)) <= 255.
Definition wire_token (t : option erlang_trace) : Prop :=
  match t with Some t => trace_wf t /\ wire_pid (tr_from t) | None => True end.

Lemma wire_pid_bytes p : wire_pid p -> exists bs, pid_bytes p = Some bs /\ zlen bs <= 271.
Proof.
  intros (_ & Hv & Hl). unfold pid_bytes, tagged_bytes. rewrite atom_bytes_verified, Hv. eexists. split; [done|].
  pose proof (zlen_atom_ext (256 <=? zlen (pid_node p)) (pid_node p)). zlen_lia.
Qed.

Lemma wire_name_bytes a : wire_name a -> zlen (name_bytes a) <= 258.
Proof. intros [_ Hl]. unfold name_bytes. pose proof (zlen_atom_ext (128 <=? zlen (take 255 a)) (utf8_text (take 255 a))). lia. Qed.

Lemma wire_token_bytes t :
  wire_token (Some t) -> exists bs, trace_bytes t = Some bs /\ zlen bs <= 317.
Proof.
  intros [_ Hp]. destruct (wire_pid_bytes _ Hp) as (pb & E & Hl). unfold trace_bytes. rewrite E. cbn [app_bytes].
  eexists. split; [done|]. pose proof (zlen_longlong_bytes (tr_flags t)). pose proof (zlen_longlong_bytes (tr_label t)).
  pose proof (zlen_longlong_bytes (tr_serial t)). pose proof (zlen_longlong_bytes (tr_prev t)). zlen_lia.
Qed.

(** The token at the end of a control message. *)
Definition token_part (token : option erlang_trace) (tf : list (list Z * (erlang_msg -> erlang_msg))) : Prop :=
  match token with
  | Some t => exists bs, trace_bytes t = Some bs /\ tf = [(bs, set_token t)]
  | None => tf = []
  end.

Lemma token_part_some token :
  wire_token token -> exists tf, token_part token tf /\ zlen (fields_bytes tf) <= 317.
Proof.
  destruct token as [t|]; intros H; [|by exists []].
  destruct (wire_token_bytes t H) as (bs & E & Hl). exists [(bs, set_token t)]. split; [by exists bs|].
  unfold fields_bytes. cbn. by rewrite app_nil_r.
Qed.

Lemma zlen_string_short p : zlen p <= 0xffff -> zlen (string_bytes p) <= 3 + zlen p.
Proof.
  intros H. unfold string_bytes. replace (zlen p <=? 0xffff) with true by lia. destruct (zlen p =? 0); zlen_lia.
Qed.

(** A field of a control message: its encoder, and its bytes with their effect. *)
Definition sent_field (f : option mem -> Z -> eres) (x : list Z * (erlang_msg -> erlang_msg)) : Prop :=
  Emits f (Some (fst x)).

Lemma pid_emitted p bs set : pid_wf p -> pid_bytes p = Some bs -> sent_field (fun b i => ei_encode_pid b i p) (bs, set).
Proof. intros Hw E. unfold sent_field. cbn [fst]. rewrite <- E. by apply ei_encode_pid_emits, Hw. Qed.

Lemma pid_sent p bs set : wire_pid p -> pid_bytes p = Some bs -> sent_field (fun b i => ei_encode_pid b i p) (bs, set).
Proof. intros [Hw _]. by apply pid_emitted. Qed.

Lemma seq_bytes_some f x fs xs :
  Forall2 sent_field (f :: fs) (x :: xs) -> Emits (encode_seq (f :: fs)) (Some (fields_bytes (x :: xs))).
Proof.
  intros H. inversion H as [|? ? ? ? Hf Hr]; subst.
  assert (forall o, seq_bytes (Some o :: map (fun x => Some (fst x)) xs) = Some (o ++ fields_bytes xs)) as E.
  { clear. induction xs as [|y xs IH]; intros o; [cbn; by rewrite app_nil_r|].
    change (seq_bytes (Some o :: map (fun x => Some (fst x)) (y :: xs)))
      with (app_bytes (Some o) (seq_bytes (Some (fst y) :: map (fun x => Some (fst x)) xs))). by rewrite IH. }
  pose proof (encode_seq_emits f fs (Some (fst x)) (map (fun x => Some (fst x)) xs) Hf) as He. rewrite E in He. apply He.
  clear -Hr. induction Hr; cbn; constructor; done.
Qed.

Lemma control_emits token arity ty ty_tt fs xs :
  0 <= arity < 255 -> Forall2 sent_field fs xs ->
  Emits (encode_seq (control_head token arity ty ty_tt ++ fs))
    (Some (control_bytes (if token is Some _ then arity + 1 else arity) (if token is Some _ then ty_tt else ty) xs)).
Proof.
  intros Ha Hf. unfold control_head. cbn [app]. set (a := if token is Some _ then arity + 1 else arity).
  set (t := if token is Some _ then ty_tt else ty). assert (0 <= a < 256) by (unfold a; destruct token; lia).
  pose proof (seq_bytes_some ei_encode_version ([ERL_VERSION_MAGIC], id)
    ((fun b i => ei_encode_tuple_header b i a) :: (fun b i => ei_encode_long b i t) :: fs)
    (([ERL_SMALL_TUPLE_EXT; a], id) :: (longlong_bytes t, id) :: xs)) as He.
  apply He. constructor; [exact ei_encode_version_emits|]. constructor; [|constructor; [apply ei_encode_long_emits|done]].
  unfold sent_field. cbn [fst]. pose proof (ei_encode_tuple_header_emits a) as Hh. unfold tuple_header_bytes in Hh.
  replace (a <? 0) with false in Hh by lia. replace (a <=? 0xff) with true in Hh by lia.
  by rewrite land_255_small in Hh by (unfold byte_ok; lia).
Qed.

Lemma token_field_sent token tf :
  wire_token token -> token_part token tf -> Forall2 sent_field (token_field token) tf.
Proof.
  destruct token as [t|]; cbn; [|by intros _ ->]. intros [Hw _] (bs & E & ->). constructor; [|constructor].
  unfold sent_field. cbn [fst]. rewrite <- E. by apply ei_encode_trace_emits, Hw.
Qed.

Lemma write_all_sent ws bs sent ws' : write_all ws bs = ROk (sent, ws') -> sent = bs.
Proof.
  unfold write_all. destruct (ei_write_fill ws bs) as [[[e l] w]|] eqn:E; [|done].
  destruct (Z.eqb_spec e 0) as [->|]; [|done]. destruct (_ || _); [done|]. intros [= -> _]. by apply ei_write_fill_all in E.
Qed.

Lemma transmit_sent fd ws hdr msg sent ws' :
  transmit fd ws hdr msg = ROk (sent, ws') -> sent = hdr ++ msg.
Proof.
  unfold transmit. destruct (fi_writev fd).
  - unfold writev_all. destruct (ei_writev_fill _ _ _) as [[[e l] w]|] eqn:E; [|done].
    destruct (Z.eqb_spec e 0) as [->|]; [|done]. destruct (_ || _); [done|]. intros [= -> _].
    apply ei_writev_fill_all in E. cbn in E. by rewrite app_nil_r in E.
  - destruct (write_all ws hdr) as [[s1 w1]| | | |] eqn:E1; try done. cbn [rbind].
    destruct (write_all w1 msg) as [[s2 w2]| | | |] eqn:E2; try done. cbn [rbind]. intros [= <- _].
    by rewrite (write_all_sent _ _ _ _ E1), (write_all_sent _ _ _ _ E2).
Qed.

(** ** From one node to the other *)

Section Exchange.
Variable scan : list Z -> option Z.
Variable fuel : nat.
Variable alloc : Z -> bool.
Variable junk : nat -> list Z.
Hypothesis junk_length : forall n, length (junk n) = n.

(** [ei_recv_internal] returns the type of [msg], with [msg] in [*msg], [payload]
    in the buffer and the trace state [tr]. *)
Definition receives (static : bool) (st : recv_state) (payload : list Z) (msg : erlang_msg) (tr : trace_state)
    (rs' : list cread) : Prop :=
  exists st', ei_recv_internal scan fuel alloc junk static st = ROk (msgtype msg, st') /\
    rv_msg st' = msg /\ rv_msglen st' = zlen payload /\ holds (rv_mbuf st') 0 payload /\
    zlen (rv_mbuf st') = rv_bufsz st' /\ rv_trace st' = tr /\
    rv_reads st' = rs' /\ rv_writes st' = rv_writes st /\ rv_sent st' = rv_sent st.

Definition with_token (token : option erlang_trace) (m : erlang_msg) : erlang_msg :=
  match token with Some t => set_token t m | None => m end.
Definition trace_after (tr : trace_state) (token : option erlang_trace) : trace_state :=
  match token with Some t => ei_trace_on (ei_trace_off tr) t | None => ei_trace_off tr end.

(** [es] encode the beginning of the payload behind the control message. *)
Lemma packet_exchanged token arity ty ty_tt fs xs es eb rest header :
  0 <= arity < 255 -> sent_type ty -> sent_type ty_tt -> wire_token token ->
  Forall2 sent_field fs xs -> Forall2 sent_field es eb ->
  (forall h, Forall2 (reads_field h) (control_fields h ty) xs) ->
  (forall h, control_fields h ty_tt = control_fields h ty ++ [get_token h]) ->
  let payload := fields_bytes eb ++ rest in
  zlen (fields_bytes xs) + 340 + zlen (fields_bytes eb) <= zlen header ->
  zlen (fields_bytes xs) + 340 <= 1200 -> 1200 + zlen payload < 2 ^ 31 ->
  let t := if token is Some _ then ty_tt else ty in
  exists hdr,
    control_packet header (control_head token arity ty ty_tt ++ fs ++ token_field token ++ es) (zlen rest) = ROk hdr /\
    forall static st rs', packet_arrives (rv_reads st) (hdr ++ rest) rs' -> roomy alloc static st (zlen payload) ->
    let msg := with_token token (fields_effect xs (set_msgtype t (rv_msg st))) in
    receives static st payload (untrace msg) (traced (rv_trace st) msg) rs'.
Proof.
  intros Ha Ht1 Ht2 Hw Hf He Hr Htt payload Hl HR Hp t. destruct (token_part_some token Hw) as (tf & Htf & Hlt).
  pose proof (control_emits token arity ty ty_tt _ _ Ha
    (Forall2_app Hf (Forall2_app (token_field_sent token tf Hw Htf) He))) as Hem. fold t in Hem.
  set (a := if token is Some _ then arity + 1 else arity) in *. set (ctl := control_bytes a t (xs ++ tf)).
  assert (control_bytes a t (xs ++ tf ++ eb) = ctl ++ fields_bytes eb) as Ectl.
  { unfold ctl, control_bytes. rewrite app_assoc, !fields_bytes_app, <- !app_assoc. done. }
  assert (zlen ctl <= 14 + zlen (fields_bytes xs) + 317) as Hz.
  { unfold ctl, control_bytes. rewrite fields_bytes_app. pose proof (zlen_longlong_bytes t). zlen_lia. }
  rewrite Ectl in Hem. exists (packet_header (ctl ++ fields_bytes eb) (zlen rest)).
  rewrite (control_packet_ok header _ _ _ Hem), zlen_app. split; [by replace (_ <=? _) with true by lia|].
  assert (packet_header (ctl ++ fields_bytes eb) (zlen rest) ++ rest = packet_header ctl (zlen payload) ++ payload) as ->.
  { unfold packet_header, payload. rewrite <- !app_assoc. do 2 f_equal. zlen_lia. }
  intros static st rs' Hpk Hroom msg.
  assert (fields_effect (xs ++ tf) (set_msgtype t (rv_msg st)) = msg) as Hm.
  { unfold fields_effect, msg, with_token. rewrite fold_left_app. destruct token as [tk|]; cbn in Htf; [|by subst tf].
    by destruct Htf as (bs & _ & ->). }
  destruct (recv_internal_ok scan fuel alloc junk junk_length static st a t (xs ++ tf) payload rs' Hpk Hroom) as (st' & E & H).
  - unfold a. destruct token; lia.
  - unfold t. by destruct token.
  - intros h. unfold t. destruct token as [tk|]; cbn in Htf; [|subst tf; rewrite app_nil_r; apply Hr].
    rewrite Htt. destruct Htf as (bs & Eb & ->). apply Forall2_app; [apply Hr|].
    constructor; [|constructor]. apply get_token_reads; [apply Hw|done].
  - fold ctl. change EIRECVBUF with 2048. lia.
  - fold ctl. unfold packet_header. zlen_lia.
  - rewrite Hm in E, H. exists st'. split; [exact E|]. exact H.
Qed.

(** Shared by the property below and by the answers to remote calls. *)
Lemma send_exchanged fd header tr to payload token tr' :
  send_token fd tr = (token, tr') -> wire_name (fi_cookie fd) -> wire_pid to -> wire_token token ->
  zlen header = 1200 -> zlen payload < 2 ^ 31 - 1200 ->
  exists hdr,
    (forall ws, ei_send_encoded_tmo fd header tr ws to payload
                = (let~ (sent, ws) := transmit fd ws hdr payload in ROk (sent, tr', ws))) /\
    (forall ws sent ws', transmit fd ws hdr payload = ROk (sent, ws') -> sent = hdr ++ payload) /\
    forall static st rs', packet_arrives (rv_reads st) (hdr ++ payload) rs' -> roomy alloc static st (zlen payload) ->
    receives static st payload
      (with_token token {| msgtype := ERL_SEND; msg_from := msg_from (rv_msg st); msg_to := to;
         msg_toname := msg_toname (rv_msg st); msg_cookie := utf8_text (take 255 (fi_cookie fd));
         msg_token := msg_token (rv_msg st) |}) (trace_after (rv_trace st) token) rs'.
Proof.
  intros Etok Hc Hto Htok Hh Hp. destruct (wire_pid_bytes to Hto) as (pb & Epb & Hpl). pose proof (wire_name_bytes _ Hc).
  destruct (packet_exchanged token 3 ERL_SEND ERL_SEND_TT
    [(fun b i => ei_encode_atom b i (fi_cookie fd)); (fun b i => ei_encode_pid b i to)]
    [(name_bytes (fi_cookie fd), set_cookie (utf8_text (take 255 (fi_cookie fd)))); (pb, set_to to)] [] [] payload header)
    as (hdr & E & Hrecv); [lia| | |done| | | |done| | | |].
  - unfold sent_type; tauto.
  - unfold sent_type; tauto.
  - constructor; [by apply name_emits, Hc|]. constructor; [by apply pid_sent|constructor].
  - constructor.
  - intros h. constructor; [by apply get_name_reads, Hc|constructor; [|constructor]]. apply get_pid_reads; [apply Hto|done].
  - unfold fields_bytes. cbn [map concat fst]. zlen_lia.
  - unfold fields_bytes. cbn [map concat fst]. zlen_lia.
  - change (zlen (fields_bytes [] ++ payload)) with (zlen payload). lia.
  - exists hdr. split; [|split; [intros *; apply transmit_sent|]].
    + intros ws. unfold ei_send_encoded_tmo. rewrite Etok. rewrite app_nil_r in E. by rewrite E.
    + intros static st rs' Ha Hr. specialize (Hrecv static st rs' Ha Hr). by destruct token.
Qed.

(** C8: What [ei_send_encoded_tmo] writes for a message to a pid is a header
    followed by the message, whole, in the one or two writes the socket has;
    [ei_recv_internal] of the other node, given these bytes in any pieces and a
    buffer that is large enough or may be enlarged, returns [ERL_SEND] with the
    pid, the cookie (in UTF-8), the trace token when there is one, and the
    message; names of at most 255 bytes fit the 1200 bytes of the header. *)
Theorem send_then_recv fd header tr to payload token tr' :
  send_token fd tr = (token, tr') -> wire_name (fi_cookie fd) -> wire_pid to -> wire_token token ->
  zlen header = 1200 -> zlen payload < 2 ^ 31 - 1200 ->
  exists hdr,
    (forall ws, ei_send_encoded_tmo fd header tr ws to payload
                = (let~ (sent, ws) := transmit fd ws hdr payload in ROk (sent, tr', ws))) /\
    (forall ws sent ws', transmit fd ws hdr payload = ROk (sent, ws') -> sent = hdr ++ payload) /\
    forall static st rs', packet_arrives (rv_reads st) (hdr ++ payload) rs' -> roomy alloc static st (zlen payload) ->
    receives static st payload
      (with_token token {| msgtype := ERL_SEND; msg_from := msg_from (rv_msg st); msg_to := to;
         msg_toname := msg_toname (rv_msg st); msg_cookie := utf8_text (take 255 (fi_cookie fd));
         msg_token := msg_token (rv_msg st) |}) (trace_after (rv_trace st) token) rs'.
Proof. apply send_exchanged. Qed.

(** Shared by the property below and by remote calls. *)
Lemma reg_exchanged fd header tr from to payload token tr' :
  send_token fd tr = (token, tr') -> wire_name (fi_cookie fd) -> wire_pid from -> wire_name to -> wire_token token ->
  zlen header = 1400 -> zlen payload < 2 ^ 31 - 1400 ->
  exists hdr,
    (forall ws, ei_send_reg_encoded_tmo fd header tr ws from to payload
                = (let~ (sent, ws) := transmit fd ws hdr payload in ROk (sent, tr', ws))) /\
    (forall ws sent ws', transmit fd ws hdr payload = ROk (sent, ws') -> sent = hdr ++ payload) /\
    forall static st rs', packet_arrives (rv_reads st) (hdr ++ payload) rs' -> roomy alloc static st (zlen payload) ->
    receives static st payload
      (with_token token {| msgtype := ERL_REG_SEND; msg_from := from; msg_to := msg_to (rv_msg st);
         msg_toname := utf8_text (take 255 to); msg_cookie := utf8_text (take 255 (fi_cookie fd));
         msg_token := msg_token (rv_msg st) |}) (trace_after (rv_trace st) token) rs'.
Proof.
  intros Etok Hc Hfrom Hto Htok Hh Hp. destruct (wire_pid_bytes from Hfrom) as (pb & Epb & Hpl).
  pose proof (wire_name_bytes _ Hc). pose proof (wire_name_bytes _ Hto).
  destruct (packet_exchanged token 4 ERL_REG_SEND ERL_REG_SEND_TT
    [(fun b i => ei_encode_pid b i from); (fun b i => ei_encode_atom b i (fi_cookie fd)); (fun b i => ei_encode_atom b i to)]
    [(pb, set_from from); (name_bytes (fi_cookie fd), set_cookie (utf8_text (take 255 (fi_cookie fd))));
     (name_bytes to, set_toname (utf8_text (take 255 to)))] [] [] payload header)
    as (hdr & E & Hrecv); [lia| | |done| | | |done| | | |].
  - unfold sent_type; tauto.
  - unfold sent_type; tauto.
  - constructor; [by apply pid_sent|]. constructor; [by apply name_emits, Hc|]. constructor; [by apply name_emits, Hto|constructor].
  - constructor.
  - intros h. constructor; [apply get_pid_reads; [apply Hfrom|done]|]. constructor; [by apply get_name_reads, Hc|].
    constructor; [by apply get_name_reads, Hto|constructor].
  - unfold fields_bytes. cbn [map concat fst]. zlen_lia.
  - unfold fields_bytes. cbn [map concat fst]. zlen_lia.
  - change (zlen (fields_bytes [] ++ payload)) with (zlen payload). lia.
  - exists hdr. split; [|split; [intros *; apply transmit_sent|]].
    + intros ws. unfold ei_send_reg_encoded_tmo. rewrite Etok. rewrite app_nil_r in E. by rewrite E.
    + intros static st rs' Ha Hr. specialize (Hrecv static st rs' Ha Hr). by destruct token.
Qed.

(** [ei_send_reg_encoded_tmo] to a registered name and [ei_recv_internal]
    agree in the same way: the receiver returns [ERL_REG_SEND] with the sender's
    pid, the cookie, the name and the message. *)
Theorem reg_send_then_recv fd header tr from to payload token tr' :
  send_token fd tr = (token, tr') -> wire_name (fi_cookie fd) -> wire_pid from -> wire_name to -> wire_token token ->
  zlen header = 1400 -> zlen payload < 2 ^ 31 - 1400 ->
  exists hdr,
    (forall ws, ei_send_reg_encoded_tmo fd header tr ws from to payload
                = (let~ (sent, ws) := transmit fd ws hdr payload in ROk (sent, tr', ws))) /\
    (forall ws sent ws', transmit fd ws hdr payload = ROk (sent, ws') -> sent = hdr ++ payload) /\
    forall static st rs', packet_arrives (rv_reads st) (hdr ++ payload) rs' -> roomy alloc static st (zlen payload) ->
    receives static st payload
      (with_token token {| msgtype := ERL_REG_SEND; msg_from := from; msg_to := msg_to (rv_msg st);
         msg_toname := utf8_text (take 255 to); msg_cookie := utf8_text (take 255 (fi_cookie fd));
         msg_token := msg_token (rv_msg st) |}) (trace_after (rv_trace st) token) rs'.
Proof. apply reg_exchanged. Qed.

(** An exit signal sent with [ei_send_exit_tmo] is received as [ERL_EXIT]
    with both pids; the buffer of the receiver holds the encoded reason.  A reason
    of at most 65535 bytes fits the buffer the sender computes for it. *)
Theorem exit_then_recv alloc' junk' fd tr from to reason token tr' :
  send_token fd tr = (token, tr') -> wire_pid from -> wire_pid to -> wire_token token -> zlen reason <= 0xffff ->
  (forall n, length (junk' n) = n) -> (forall n, alloc' n = true) ->
  exists pkt,
    (forall ws, ei_send_exit_tmo alloc' junk' fd tr ws from to reason
                = (let~ (sent, ws) := write_all ws pkt in ROk (sent, tr', ws))) /\
    (forall ws sent ws', write_all ws pkt = ROk (sent, ws') -> sent = pkt) /\
    forall static st rs', packet_arrives (rv_reads st) pkt rs' -> roomy alloc static st (zlen (string_bytes reason)) ->
    receives static st (string_bytes reason)
      (with_token token {| msgtype := ERL_EXIT; msg_from := from; msg_to := to; msg_toname := msg_toname (rv_msg st);
         msg_cookie := msg_cookie (rv_msg st); msg_token := msg_token (rv_msg st) |}) (trace_after (rv_trace st) token) rs'.
Proof.
  intros Etok Hfrom Hto Htok Hl Hj Ha. destruct (wire_pid_bytes from Hfrom) as (fb & Efb & Hfl).
  destruct (wire_pid_bytes to Hto) as (pb & Epb & Hpl).
  set (buf := if EISMALLBUF <? zlen reason + 1080 then junk' (Z.to_nat (zlen reason + 1080)) else junk' (Z.to_nat EISMALLBUF)).
  assert (zlen reason + 1080 <= zlen buf) as Hb.
  { pose proof (zlen_nonneg reason). change EISMALLBUF with 2048 in buf. subst buf.
    destruct (Z.ltb_spec 2048 (zlen reason + 1080)); unfold zlen in *; rewrite Hj; lia. }
  pose proof (zlen_string_short reason Hl) as Hs.
  destruct (packet_exchanged token 4 ERL_EXIT ERL_EXIT_TT
    [(fun b i => ei_encode_pid b i from); (fun b i => ei_encode_pid b i to)] [(fb, set_from from); (pb, set_to to)]
    [fun b i => ei_encode_string b i reason] [(string_bytes reason, id)] [] buf)
    as (pkt & E & Hrecv); [lia| | |done| | | |done| | | |].
  - unfold sent_type; tauto.
  - unfold sent_type; tauto.
  - constructor; [by apply pid_sent|]. constructor; [by apply pid_sent|constructor].
  - constructor; [|constructor]. unfold sent_field. cbn [fst]. pose proof (ei_encode_string_emits reason) as He.
    by replace (INT_MAX <=? zlen reason) with false in He by (unfold INT_MAX; lia).
  - intros h. constructor; [apply get_pid_reads; [apply Hfrom|done]|]. constructor; [|constructor].
    apply get_pid_reads; [apply Hto|done].
  - unfold fields_bytes. cbn [map concat fst]. zlen_lia.
  - unfold fields_bytes. cbn [map concat fst]. zlen_lia.
  - unfold fields_bytes. cbn [map concat fst]. zlen_lia.
  - exists pkt. split; [|split; [intros *; apply write_all_sent|]].
    + intros ws. unfold ei_send_exit_tmo. rewrite wraps_small by (unfold in_s; pose proof (zlen_nonneg reason); lia).
      assert ((if EISMALLBUF <? zlen reason + 1080 then ei_malloc alloc' junk' (zlen reason + 1080)
               else Some (junk' (Z.to_nat EISMALLBUF))) = Some buf) as ->.
      { unfold buf, ei_malloc. pose proof (zlen_nonneg reason). replace (0 <=? zlen reason + 1080) with true by lia. rewrite Ha.
        by destruct (EISMALLBUF <? zlen reason + 1080). }
      rewrite Etok. change (zlen []) with 0 in E. by rewrite E.
    + intros static st rs' Hpk Hr. unfold fields_bytes in Hrecv. cbn [map concat fst] in Hrecv. rewrite !app_nil_r in Hrecv.
      specialize (Hrecv static st rs' Hpk Hr). by destruct token.
Qed.
End Exchange.

(** ** Samples *)

Definition no_scan : list Z -> option Z := fun _ => None.
Definition zeros (n : nat) : list Z := replicate n 0.
Lemma zeros_length n : length (zeros n) = n.
Proof. apply length_replicate. Qed.

Definition pid_a : erlang_pid := {| pid_node := [97; 64; 98]; pid_num := 7; pid_serial := 1; pid_creation := 3 |}.
Definition pid_b : erlang_pid := {| pid_node := [99; 64; 100]; pid_num := 8; pid_serial := 0; pid_creation := 4 |}.
Lemma pid_a_wire : wire_pid pid_a.
Proof. unfold wire_pid, pid_wf, byte_ok, in_u, zlen; cbn. split_and!; [repeat constructor; lia|lia..|done|lia]. Qed.
Lemma pid_b_wire : wire_pid pid_b.
Proof. unfold wire_pid, pid_wf, byte_ok, in_u, zlen; cbn. split_and!; [repeat constructor; lia|lia..|done|lia]. Qed.

(** A connection whose cookie is "k" and an umlaut. *)
Definition fd_a (writev : bool) : fd_info := {| fi_version := 5; fi_cookie := [107; 0xE4]; fi_writev := writev; fi_alloc := true |}.
Lemma cookie_wire : wire_name [107; 0xE4].
Proof. split; [repeat constructor; lia|by vm_compute]. Qed.

Definition token_a : erlang_trace :=
  {| tr_serial := 5; tr_prev := 4; tr_from := pid_a; tr_label := 9; tr_flags := 1 |}.
Definition trace_a : trace_state := {| save_token := token_a; tracing := true; tr_clock := 5 |}.
Definition trace_0 : trace_state := {| save_token := token_a; tracing := false; tr_clock := 0 |}.
Definition token_b : erlang_trace :=
  {| tr_serial := 6; tr_prev := 5; tr_from := pid_a; tr_label := 9; tr_flags := 1 |}.

Definition msg_0 : erlang_msg :=
  {| msgtype := 0; msg_from := pid_b; msg_to := pid_b; msg_toname := []; msg_cookie := []; msg_token := token_a |}.
(** A receiver with a buffer of two bytes, to which the packet comes in three pieces. *)
Definition node_b (pkt : list Z) : recv_state :=
  {| rv_mbuf := [0; 0]; rv_bufsz := 2; rv_msg := msg_0; rv_msglen := 0; rv_trace := trace_0;
     rv_reads := [CRead (take 4 pkt); CRead (take 6 (drop 4 pkt)); CRead (drop 10 pkt)]; rv_writes := []; rv_sent := [] |}.

Lemma node_b_arrives pkt : 10 < zlen pkt <= 2048 -> packet_arrives (rv_reads (node_b pkt)) pkt [].
Proof.
  intros Hl. unfold packet_arrives, delivers. change EIRECVBUF with 2048.
  assert (forall (l : list Z) n, (n < length l)%nat -> drop n l <> []) as Hd.
  { intros l n Hn E%(f_equal length). rewrite length_drop in E. cbn in E. lia. }
  assert (take (Z.to_nat 2048) (drop 4 pkt) = concat [take 6 (drop 4 pkt); drop 10 pkt]) as ->.
  { rewrite take_ge by (unfold zlen in Hl; rewrite length_drop; lia). cbn [concat]. rewrite app_nil_r.
    change 10%nat with (4 + 6)%nat. by rewrite <- drop_drop, take_drop. }
  exists (drop 1 (rv_reads (node_b pkt))), []. replace (zlen pkt <=? 4 + 2048) with true by lia. split_and!; [| |done].
  - assert (take 4 pkt = concat [take 4 pkt]) as E by (cbn; by rewrite app_nil_r). rewrite E at 1 2.
    apply (ei_read_fill_chunks [take 4 pkt]); [done|]. repeat constructor. destruct pkt; [change (zlen []) with 0 in Hl; lia|done].
  - apply (ei_read_fill_chunks [take 6 (drop 4 pkt); drop 10 pkt] []); [done|]. unfold zlen in Hl. repeat constructor.
    + destruct (drop 4 pkt) eqn:E; [|done]. apply Hd in E; [done|lia].
    + apply Hd. lia.
Qed.

(** The bytes a call of a sender gives tell the header it built. *)
Lemma header_known {A} (r : list cwrite -> rres (list Z * A * list cwrite)) (send : list cwrite -> rres (list Z * list cwrite))
    (ws : list cwrite) (tr : A) pkt sent tr' ws' :
  (forall ws, r ws = (let~ (sent, ws) := send ws in ROk (sent, tr, ws))) ->
  (forall ws sent ws', send ws = ROk (sent, ws') -> sent = pkt) ->
  r ws = ROk (sent, tr', ws') -> pkt = sent.
Proof.
  intros E Hs. rewrite E. destruct (send ws) as [[s w]| | | |] eqn:Es; try done. cbn [rbind]. intros [= <- _ _].
  symmetry. by eapply Hs.
Qed.

(** [Hr], with the packet known from [Ep], at [node_b]. *)
Ltac node_b_receives Hr Ep :=
  rewrite Ep in Hr;
  match type of Ep with
  | _ = ?l => exact (Hr false (node_b l) [] (node_b_arrives l ltac:(by vm_compute)) (conj eq_refl (or_intror (conj eq_refl eq_refl))))
  end.

Lemma send_then_recv_witness :
  exists pkt, ei_send_encoded_tmo (fd_a true) (zeros 1200) trace_a [CWrote 50; CWrote 14] pid_b [131; 97; 1] =
    ROk (pkt, {| save_token := token_b; tracing := true; tr_clock := 6 |}, []) /\
  receives no_scan 0 (fun _ => true) zeros false (node_b pkt) [131; 97; 1]
    {| msgtype := ERL_SEND; msg_from := pid_b; msg_to := pid_b; msg_toname := []; msg_cookie := [107; 0xC3; 0xA4];
       msg_token := token_b |}
    {| save_token := {| tr_serial := 6; tr_prev := 6; tr_from := pid_a; tr_label := 9; tr_flags := 1 |};
       tracing := true; tr_clock := 6 |} [].
Proof.
  destruct (send_then_recv no_scan 0 (fun _ => true) zeros zeros_length (fd_a true) (zeros 1200) trace_a pid_b [131; 97; 1]
    (Some token_b) {| save_token := token_b; tracing := true; tr_clock := 6 |}) as (hdr & E & Hs & Hr).
  - reflexivity.
  - exact cookie_wire.
  - exact pid_b_wire.
  - split; [|exact pid_a_wire]. split; [apply pid_a_wire|]. by vm_compute.
  - reflexivity.
  - by vm_compute.
  - eexists. split; [vm_compute; reflexivity|].
    pose proof (header_known _ _ [CWrote 50; CWrote 14] _ (hdr ++ [131; 97; 1]) _ _ _ E Hs ltac:(vm_compute; reflexivity)) as Ep.
    node_b_receives Hr Ep.
Defined.

Lemma reg_send_then_recv_witness :
  exists pkt, ei_send_reg_encoded_tmo (fd_a false) (zeros 1400) trace_0 [CWrote 38; CWrote 3] pid_a [114; 101; 120] [131; 97; 1] =
    ROk (pkt, trace_0, []) /\
  receives no_scan 0 (fun _ => true) zeros false (node_b pkt) [131; 97; 1]
    {| msgtype := ERL_REG_SEND; msg_from := pid_a; msg_to := pid_b; msg_toname := [114; 101; 120];
       msg_cookie := [107; 0xC3; 0xA4]; msg_token := token_a |} trace_0 [].
Proof.
  destruct (reg_send_then_recv no_scan 0 (fun _ => true) zeros zeros_length (fd_a false) (zeros 1400) trace_0 pid_a
    [114; 101; 120] [131; 97; 1] None trace_0) as (hdr & E & Hs & Hr).
  - reflexivity.
  - exact cookie_wire.
  - exact pid_a_wire.
  - split; [repeat constructor; lia|by vm_compute].
  - done.
  - reflexivity.
  - by vm_compute.
  - eexists. split; [vm_compute; reflexivity|].
    pose proof (header_known _ _ [CWrote 38; CWrote 3] _ (hdr ++ [131; 97; 1]) _ _ _ E Hs ltac:(vm_compute; reflexivity)) as Ep.
    node_b_receives Hr Ep.
Defined.

Lemma exit_then_recv_witness :
  exists pkt, ei_send_exit_tmo (fun _ => true) zeros (fd_a false) trace_0 [CWrote 52] pid_a pid_b [98; 121; 101] =
    ROk (pkt, trace_0, []) /\
  receives no_scan 0 (fun _ => true) zeros false (node_b pkt) [107; 0; 3; 98; 121; 101]
    {| msgtype := ERL_EXIT; msg_from := pid_a; msg_to := pid_b; msg_toname := []; msg_cookie := []; msg_token := token_a |}
    trace_0 [].
Proof.
  destruct (exit_then_recv no_scan 0 (fun _ => true) zeros zeros_length (fun _ => true) zeros (fd_a false) trace_0 pid_a pid_b
    [98; 121; 101] None trace_0) as (pkt & E & Hs & Hr).
  - reflexivity.
  - exact pid_a_wire.
  - exact pid_b_wire.
  - done.
  - by vm_compute.
  - exact zeros_length.
  - done.
  - eexists. split; [vm_compute; reflexivity|].
    pose proof (header_known _ _ [CWrote 52] _ pkt _ _ _ E Hs ltac:(vm_compute; reflexivity)) as Ep.
    node_b_receives Hr Ep.
Defined.

(** ** Limits of the buffers *)

(** The packet length is signed: with the highest bit set, a read of a negative
    number of bytes into the header buffer is started. *)
Theorem recv_negative_length scan fuel alloc junk static st n rs' :
  (forall k, length (junk k) = k) -> 2 ^ 31 <= n < 2 ^ 32 -> delivers (rv_reads st) (be_bytes 4 n) rs' ->
  ei_recv_internal scan fuel alloc junk static st = ROob.
Proof.
  intros Hj Hn Hd. unfold ei_recv_internal.
  destruct (read_exact_ok _ (junk (Z.to_nat EIRECVBUF)) 0 _ _ 4 Hd) as (h & -> & Hs);
    [done|lia|unfold zlen; rewrite Hj; vm_compute; congruence|].
  cbn [rbind]. apply store_holds in Hs. rewrite <- (app_nil_r (be_bytes 4 _)) in Hs.
  destruct (get32be_holds _ _ _ _ Hs) as [-> _]. cbn [ofopt rbind].
  assert (wraps 32 n = n - 2 ^ 32) as -> by (unfold wraps; Z.div_mod_to_equations; lia).
  set (k := n - 2 ^ 32) in *. assert (k < 0) by lia. replace (k =? 0) with false by lia.
  change EIRECVBUF with 2048. replace (2048 <? k) with false by lia. unfold read_exact, read_into.
  replace (k <? 0) with true by lia. by rewrite orb_true_r.
Qed.

(** A node name of 255 four-byte characters is a valid one, and does not fit. *)
Theorem send_header_overflow tr ws payload header :
  zlen header = 1200 -> tracing tr = false ->
  let to := {| pid_node := concat (replicate 255 [0xF0; 0x90; 0x80; 0x80]); pid_num := 1; pid_serial := 0; pid_creation := 1 |} in
  let fd := {| fi_version := 5; fi_cookie := replicate 255 107; fi_writev := true; fi_alloc := true |} in
  pid_wf to /\ verify_utf8_atom (pid_node to) = true /\
  ei_send_encoded_tmo fd header tr ws to payload = ROob.
Proof.
  intros Hh Ht to fd.
  assert (pid_wf to) as Hw.
  { split; [|unfold in_u; cbn; lia]. apply Forall_concat, Forall_replicate. repeat constructor; lia. }
  split; [done|]. split; [by vm_compute|]. unfold ei_send_encoded_tmo, send_token, ei_trace_query. rewrite Ht. cbn [fi_version fd Z.ltb Z.compare].
  pose proof (control_emits None 3 ERL_SEND ERL_SEND_TT
    [(fun b i => ei_encode_atom b i (fi_cookie fd)); (fun b i => ei_encode_pid b i to)]
    [(name_bytes (fi_cookie fd), id); (default [] (pid_bytes to), id)] ltac:(lia)) as He.
  unfold token_field. rewrite app_nil_r. rewrite (control_packet_ok header _ _ (zlen payload) (He ltac:(constructor; [
    apply name_emits, Forall_replicate; unfold byte_ok; lia|constructor; [apply (pid_emitted _ _ _ Hw); by vm_compute|constructor]]))), Hh.
  by replace (5 + zlen _ <=? 1200) with false by (vm_compute; reflexivity).
Qed.

(** A longer reason is encoded as a list, with two bytes for each character; the
    buffer has one. *)
Theorem exit_reason_overflow alloc junk fd tr ws from to reason :
  (forall n, length (junk n) = n) -> (forall n, alloc n = true) -> tracing tr = false ->
  wire_pid from -> wire_pid to -> 0xffff < zlen reason < 2 ^ 31 - 1080 ->
  ei_send_exit_tmo alloc junk fd tr ws from to reason = ROob.
Proof.
  intros Hj Ha Ht Hf Hto Hl. unfold ei_send_exit_tmo, ei_malloc, send_token, ei_trace_query.
  rewrite wraps_small by (unfold in_s; lia). change EISMALLBUF with 2048.
  replace (2048 <? zlen reason + 1080) with true by lia. rewrite Ha. replace (0 <=? zlen reason + 1080) with true by lia.
  cbn [andb]. rewrite Ht. destruct (wire_pid_bytes from Hf) as (fb & Ef & _), (wire_pid_bytes to Hto) as (tb & Et & _).
  pose proof (control_emits None 4 ERL_EXIT ERL_EXIT_TT
    [(fun b i => ei_encode_pid b i from); (fun b i => ei_encode_pid b i to); (fun b i => ei_encode_string b i reason)]
    [(fb, id); (tb, id); (string_bytes reason, id)] ltac:(lia)) as He.
  assert (Emits (fun b i => ei_encode_string b i reason) (Some (string_bytes reason))) as Hs.
  { pose proof (ei_encode_string_emits reason) as Hs. by replace (INT_MAX <=? zlen reason) with false in Hs by (unfold INT_MAX; lia). }
  assert (zlen (string_bytes reason) = 6 + 2 * zlen reason) as Hz.
  { unfold string_bytes. replace (zlen reason =? 0) with false by lia. replace (zlen reason <=? 0xffff) with false by lia.
    rewrite zlen_cons, !zlen_app, zlen_chars_bytes. zlen_lia. }
  destruct (0 <? fi_version fd); unfold token_field; rewrite app_nil_l;
    (rewrite (control_packet_ok _ _ _ 0 (He ltac:(constructor; [by apply pid_sent|constructor; [by apply pid_sent|constructor; [exact Hs|constructor]]])));
     replace (_ <=? _) with false; [done|]; unfold control_bytes, fields_bytes; cbn [map concat fst]; symmetry; apply Z.leb_gt;
     assert (zlen (junk (Z.to_nat (zlen reason + 1080))) = zlen reason + 1080) as -> by (unfold zlen at 1; rewrite Hj; lia);
     rewrite !zlen_app, Hz; zlen_lia).
Qed.
