(* ===== verification/EiConnect.v ===== *)
(** * Setting up a connection: the handshake of [connect/ei_connect.c]

    Two nodes exchange their names, capabilities and challenges, and each of them
    shows with a digest that it knows the cookie.  The messages are built in and
    parsed from buffers of [DEFBUF_SIZ] bytes or from [malloc]; the functions are
    those of the source.  [connect_handshake] and [accept_handshake] are what
    [ei_connect_helper] and [ei_accept_tmo] do on a connected socket. *)
From S2P Require Import Prelude PutGet Md5 EiTypes EiX EiPort EpmdStr EiMsg.
From Stdlib Require String.
Import String.StringSyntax.
Delimit Scope string_scope with string.

Definition DEFBUF_SIZ : Z := 100.
Definition MAXNODELEN : Z := MAXATOMLEN.
Definition EI_MAXALIVELEN : Z := MAXATOMLEN - 2.
Definition EI_DIST_5 : Z := 5.
Definition EI_DIST_6 : Z := 6.

Definition DFLAG_EXTENDED_REFERENCES : Z := 4.
Definition DFLAG_DIST_MONITOR : Z := 8.
Definition DFLAG_FUN_TAGS : Z := 0x10.
Definition DFLAG_NEW_FUN_TAGS : Z := 0x80.
Definition DFLAG_EXTENDED_PIDS_PORTS : Z := 0x100.
Definition DFLAG_EXPORT_PTR_TAG : Z := 0x200.
Definition DFLAG_BIT_BINARIES : Z := 0x400.
Definition DFLAG_NEW_FLOATS : Z := 0x800.
Definition DFLAG_SMALL_ATOM_TAGS : Z := 0x4000.
Definition DFLAG_UTF8_ATOMS : Z := 0x10000.
Definition DFLAG_MAP_TAG : Z := 0x20000.
Definition DFLAG_BIG_CREATION : Z := 0x40000.
Definition DFLAG_HANDSHAKE_23 : Z := 0x1000000.
Definition DFLAG_UNLINK_ID : Z := 0x2000000.
Definition DFLAG_MANDATORY_25_DIGEST : Z := 0x4000000.
Definition DFLAG_NAME_ME : Z := Z.shiftl 0x2 32.
Definition DFLAG_V4_NC : Z := Z.shiftl 0x4 32.
Definition lors (l : list Z) : Z := fold_left Z.lor l 0.
Definition DFLAG_DIST_MANDATORY_25 : Z :=
  lors [DFLAG_EXTENDED_REFERENCES; DFLAG_FUN_TAGS; DFLAG_EXTENDED_PIDS_PORTS; DFLAG_UTF8_ATOMS; DFLAG_NEW_FUN_TAGS;
        DFLAG_BIG_CREATION; DFLAG_NEW_FLOATS; DFLAG_MAP_TAG; DFLAG_EXPORT_PTR_TAG; DFLAG_BIT_BINARIES; DFLAG_HANDSHAKE_23].
Definition DFLAG_DIST_MANDATORY_26 : Z := Z.lor DFLAG_V4_NC DFLAG_UNLINK_ID.
Definition DFLAG_DIST_MANDATORY : Z := Z.lor DFLAG_DIST_MANDATORY_25 DFLAG_DIST_MANDATORY_26.

(** The fields the handshake uses; the names and the cookie are C strings. *)
Record ei_cnode := {
  thishostname : list Z; thisnodename : list Z; thisalivename : list Z; ei_connect_cookie : list Z;
  ec_creation : Z; ec_self : erlang_pid; ec_pidsn : Z }.

(** ** Challenges and digests *)

Definition md_32 (s : list Z) : option Z :=
  st ← erts_md5_update erts_md5_init s;
  digest ← erts_md5_finish st;
  x0 ← get_little_int32 digest 0; x1 ← get_little_int32 digest 4;
  x2 ← get_little_int32 digest 8; x3 ← get_little_int32 digest 12;
  Some (Z.lxor (Z.lxor (Z.lxor x0 x1) x2) x3).

(** [s]: the bytes of the time, the process and the machine. *)
Definition gen_challenge (s : list Z) : option Z := md_32 s.

Definition gen_digest (challenge : Z) (cookie : list Z) : option (list Z) :=
  st ← erts_md5_update erts_md5_init cookie;
  st ← erts_md5_update st (dec challenge);
  erts_md5_finish st.

(** ** Packets *)

Section Handshake.
Variable alloc : Z -> bool.
Variable junk : nat -> list Z.

(** The length field, in [pkt_sz] bytes. *)
Definition put_size (buf : mem) (pkt_sz siz : Z) : rres (mem * Z) :=
  if pkt_sz =? 2 then ofopt (put16be buf 0 (siz - 2))
  else if pkt_sz =? 4 then ofopt (put32be buf 0 (siz - 4))
  else RErr.

(** [put8], [put16be], ..., [memcpy] in their order. *)
Fixpoint put_seq (fs : list (mem -> Z -> option (mem * Z))) (buf : mem) (s : Z) : option (mem * Z) :=
  match fs with
  | [] => Some (buf, s)
  | f :: fs => '(buf, s) ← f buf s; put_seq fs buf s
  end.

(** A packet of [siz] bytes in a local buffer, or in one from [malloc]. *)
Definition hs_packet (pkt_sz siz : Z) (fs : list (mem -> Z -> option (mem * Z))) : rres (list Z) :=
  match (if DEFBUF_SIZ <? siz then ei_malloc alloc junk siz else Some (junk (Z.to_nat DEFBUF_SIZ))) with
  | None => RErr
  | Some buf =>
      let~ (buf, s) := put_size buf pkt_sz siz in
      let~ (buf, s) := ofopt (put_seq fs buf s) in
      ofopt (slice buf 0 siz)
  end.

(** The number of bytes of the packet, the buffer with its size and whether it is
    the caller's own, and the socket. *)
Definition read_hs_package (rs : list cread) (pkt_sz : Z) (buf : mem) (buflen : Z) (is_static : bool)
  : rres (Z * (mem * Z * bool) * list cread) :=
  let~ (nbuf, rs) := read_exact rs (junk 4) 0 pkt_sz in
  let~ (len, _s) := (if pkt_sz =? 2 then ofopt (get16be nbuf 0)
                     else if pkt_sz =? 4 then ofopt (get32be nbuf 0) else RErr) in
  b <~ (if buflen <? len then
          match (if is_static then ei_malloc alloc junk len else ei_realloc alloc junk (Some buf) len) with
          | None => RErr
          | Some tmp => ROk (tmp, len, false)
          end
        else ROk (buf, buflen, is_static)) ;;
  let '(buf, buflen, is_static) := b in
  let~ (buf, rs) := read_exact rs buf 0 len in
  ROk (len, (buf, buflen, is_static), rs).

(** With [dbuf] as the buffer, as every caller does. *)
Definition read_package (rs : list cread) (pkt_sz : Z) : rres (Z * (mem * Z * bool) * list cread) :=
  read_hs_package rs pkt_sz (junk (Z.to_nat DEFBUF_SIZ)) DEFBUF_SIZ true.

(** [memcpy(namebuf, s, len); namebuf[len] = '\0';] with the bytes [name], where [namebuf]
    is an array of [MAXNODELEN+1] bytes, like [tmp_nodename], [conp->nodename] and
    [ec->thisnodename]: the string in it. *)
Definition store_name (name : list Z) : option (list Z) :=
  '(namebuf, len) ← put_bytes (junk (Z.to_nat (MAXNODELEN + 1))) 0 name;
  namebuf ← store namebuf len [0];
  Some (cstr namebuf).

(** ** Messages *)

Definition send_status (ws : list cwrite) (pkt_sz : Z) (status : list Z) : rres (list Z * list cwrite) :=
  let siz := zlen status + 1 + pkt_sz in
  pkt <~ hs_packet pkt_sz siz [(fun b s => put8 b s 115); (fun b s => put_bytes b s status)] ;;
  write_all ws pkt.

(** A buffer that was moved forward cannot be freed; neither [thisalivename] nor
    its terminating NUL may leave the array. *)
Definition recv_status (rs : list cread) (ec : ei_cnode) (pkt_sz : Z) : rres (ei_cnode * list cread) :=
  p <~ read_package rs pkt_sz ;;
  let '(rlen, (buf, _, is_static), rs) := p in
  if rlen <=? 0 then RErr
  else if negb (bool_decide (thisnodename ec = [])) then
    if 3 <=? rlen then
      b <~ ofopt (slice buf 0 3) ;;
      if bool_decide (b = [115; 111; 107]) then ROk (ec, rs) else RErr
    else RErr
  else if 7 <=? rlen then
    b <~ ofopt (slice buf 0 7) ;;
    if negb (bool_decide (b = str "snamed:"%string)) then RErr
    else
      let~ (namelen, s) := ofopt (get16be buf 7) in
      if (MAXNODELEN <? namelen) || (rlen - 7 - 2 <? namelen + 4) then (if is_static then RErr else ROob)
      else
        name <~ ofopt (slice buf s namelen) ;;
        name <~ ofopt (store_name name) ;;
        let~ (creation, _s) := ofopt (get32be buf (s + namelen)) in
        match list_find (fun c => c = 64) name with
        | None => RErr
        | Some (alen, _) =>
            if EI_MAXALIVELEN <? Z.of_nat alen then ROob
            else
              let creation := wrapu 32 creation in
              ROk ({| thishostname := thishostname ec; thisnodename := name; thisalivename := take alen name;
                      ei_connect_cookie := ei_connect_cookie ec; ec_creation := creation;
                      ec_self := {| pid_node := name; pid_num := 0; pid_serial := 0; pid_creation := creation |};
                      ec_pidsn := ec_pidsn ec |}, rs)
        end
  else RErr.

Definition preferred_flags : Z :=
  lors [DFLAG_MANDATORY_25_DIGEST; DFLAG_DIST_MANDATORY; DFLAG_DIST_MONITOR; DFLAG_SMALL_ATOM_TAGS].

Definition send_name (ws : list cwrite) (ec : ei_cnode) (pkt_sz : Z) : rres (list Z * list cwrite) :=
  let '(name, flags) :=
    if bool_decide (thisnodename ec = []) then (thishostname ec, Z.lor preferred_flags DFLAG_NAME_ME)
    else (thisnodename ec, preferred_flags) in
  let siz := pkt_sz + 1 + 8 + 4 + 2 + zlen name in
  pkt <~ hs_packet pkt_sz siz
    [(fun b s => put8 b s 78); (fun b s => put64be b s flags); (fun b s => put32be b s (ec_creation ec));
     (fun b s => put16be b s (zlen name)); (fun b s => put_bytes b s name)] ;;
  write_all ws pkt.

Definition send_challenge (ws : list cwrite) (ec : ei_cnode) (pkt_sz challenge : Z) : rres (list Z * list cwrite) :=
  let name := thisnodename ec in
  let siz := pkt_sz + 1 + 8 + 4 + 4 + 2 + zlen name in
  pkt <~ hs_packet pkt_sz siz
    [(fun b s => put8 b s 78); (fun b s => put64be b s preferred_flags); (fun b s => put32be b s challenge);
     (fun b s => put32be b s (ec_creation ec)); (fun b s => put16be b s (zlen name)); (fun b s => put_bytes b s name)] ;;
  write_all ws pkt.

Definition send_challenge_reply (ws : list cwrite) (pkt_sz : Z) (digest : list Z) (challenge : Z) : rres (list Z * list cwrite) :=
  pkt <~ hs_packet pkt_sz (pkt_sz + 1 + 4 + 16)
    [(fun b s => put8 b s 114); (fun b s => put32be b s challenge); (fun b s => put_bytes b s digest)] ;;
  write_all ws pkt.

Definition send_challenge_ack (ws : list cwrite) (pkt_sz : Z) (digest : list Z) : rres (list Z * list cwrite) :=
  pkt <~ hs_packet pkt_sz (pkt_sz + 1 + 16) [(fun b s => put8 b s 97); (fun b s => put_bytes b s digest)] ;;
  write_all ws pkt.

(** [DFLAG_MANDATORY_25_DIGEST] stands for all of [DFLAG_DIST_MANDATORY_25]. *)
Definition expand_digest (flags : Z) : Z :=
  if negb (Z.land flags DFLAG_MANDATORY_25_DIGEST =? 0) then Z.lor flags DFLAG_DIST_MANDATORY_25 else flags.

(** The challenge, the flags and the name of the other node. *)
Definition recv_challenge (rs : list cread) (pkt_sz : Z) : rres (Z * Z * list Z * list cread) :=
  p <~ read_package rs pkt_sz ;;
  let '(rlen, (buf, _, _), rs) := p in
  if rlen <=? 0 then RErr else
  let~ (tag, s) := ofopt (get8 buf 0) in
  if negb (tag =? 78) then RErr
  else if rlen <? 1 + 8 + 4 + 4 + 2 then RErr
  else
    let~ (flags, s) := ofopt (get64be buf s) in
    let~ (challenge, s) := ofopt (get32be buf s) in
    let s := s + 4 in
    let~ (nodename_len, s) := ofopt (get16be buf s) in
    if rlen - s <? nodename_len then RErr
    else if MAXNODELEN <? nodename_len then RErr
    else
      let flags := expand_digest flags in
      if negb (Z.land flags DFLAG_DIST_MANDATORY =? DFLAG_DIST_MANDATORY) then RErr
      else
        name <~ ofopt (slice buf s nodename_len) ;;
        name <~ ofopt (store_name name) ;;
        ROk (wrapu 32 challenge, flags, name, rs).

(** The complement of a peer that sent its name in the old format. *)
Definition recv_complement (rs : list cread) (pkt_sz flags : Z) : rres (Z * list cread) :=
  p <~ read_package rs pkt_sz ;;
  let '(rlen, (buf, _, _), rs) := p in
  if negb (rlen =? 21) then RErr else
  let~ (tag, s) := ofopt (get8 buf 0) in
  if negb (tag =? 99) then RErr
  else
    let~ (high, s) := ofopt (get32be buf s) in
    let flags := Z.lor flags (wrapu 64 (Z.shiftl (wrapu 64 high) 32)) in
    if negb (Z.land (wrapu 64 (Z.lnot flags)) (Z.lor DFLAG_DIST_MANDATORY DFLAG_HANDSHAKE_23) =? 0) then RErr
    else ROk (flags, rs).

(** The digest of 16 bytes at [s] is the one of [our_challenge]. *)
Definition check_digest (buf : mem) (s our_challenge : Z) (cookie : list Z) : rres unit :=
  her_digest <~ ofopt (slice buf s 16) ;;
  expected_digest <~ ofopt (gen_digest our_challenge cookie) ;;
  if bool_decide (her_digest = expected_digest) then ROk tt else RErr.

Definition recv_challenge_reply (rs : list cread) (pkt_sz our_challenge : Z) (cookie : list Z) : rres (Z * list cread) :=
  p <~ read_package rs pkt_sz ;;
  let '(rlen, (buf, _, _), rs) := p in
  if negb (rlen =? 21) then RErr else
  let~ (tag, s) := ofopt (get8 buf 0) in
  if negb (tag =? 114) then RErr
  else
    let~ (her_challenge, s) := ofopt (get32be buf s) in
    _u <~ check_digest buf s our_challenge cookie ;;
    ROk (wrapu 32 her_challenge, rs).

Definition recv_challenge_ack (rs : list cread) (pkt_sz our_challenge : Z) (cookie : list Z) : rres (list cread) :=
  p <~ read_package rs pkt_sz ;;
  let '(rlen, (buf, _, _), rs) := p in
  if negb (rlen =? 17) then RErr else
  let~ (tag, s) := ofopt (get8 buf 0) in
  if negb (tag =? 97) then RErr
  else
    _u <~ check_digest buf s our_challenge cookie ;;
    ROk rs.

(** The format of the message, the flags and the name of the other node. *)
Definition recv_name (rs : list cread) (pkt_sz : Z) : rres (Z * Z * list Z * list cread) :=
  p <~ read_package rs pkt_sz ;;
  let '(rlen, (buf, _, _), rs) := p in
  if rlen <=? 0 then RErr else
  let~ (tag, s) := ofopt (get8 buf 0) in
  if negb (tag =? 110) && negb (tag =? 78) then RErr
  else
    h <~ (if tag =? 110 then
            if rlen <? 1 + 2 + 4 then RErr
            else
              let~ (version, s) := ofopt (get16be buf s) in
              if version <? EI_DIST_5 then RErr
              else
                let~ (flags, s) := ofopt (get32be buf s) in
                ROk (wrapu 64 flags, Z.shiftl 1 32 - 1, rlen - (1 + 2 + 4), s)
          else
            if rlen <? 1 + 8 + 4 + 2 then RErr
            else
              let~ (flags, s) := ofopt (get64be buf s) in
              let s := s + 4 in
              let~ (namelen, s) := ofopt (get16be buf s) in
              ROk (flags, wrapu 64 (Z.lnot 0), namelen, s)) ;;
    let '(flags, flag_mask, namelen, s) := h in
    let flags := expand_digest flags in
    if negb (Z.land (Z.land (wrapu 64 (Z.lnot flags)) flag_mask) (Z.lor DFLAG_DIST_MANDATORY DFLAG_HANDSHAKE_23) =? 0) then RErr
    else if (MAXNODELEN <? namelen) || (rlen <? s + namelen) then RErr
    else
      name <~ ofopt (slice buf s namelen) ;;
      name <~ ofopt (store_name name) ;;
      ROk (tag, flags, name, rs).

(** ** The two sides *)

(** [ei_connect_helper] from [send_name] on: the node (a dynamic name is set by
    the answer), what was sent, and the socket. *)
Definition connect_handshake (ec : ei_cnode) (pkt_sz our_challenge : Z) (rs : list cread) (ws : list cwrite)
  : rres (ei_cnode * list Z * list cread * list cwrite) :=
  let~ (sent1, ws) := send_name ws ec pkt_sz in
  let~ (ec, rs) := recv_status rs ec pkt_sz in
  c <~ recv_challenge rs pkt_sz ;;
  let '(her_challenge, _, _, rs) := c in
  our_digest <~ ofopt (gen_digest her_challenge (ei_connect_cookie ec)) ;;
  let~ (sent2, ws) := send_challenge_reply ws pkt_sz our_digest our_challenge in
  rs <~ recv_challenge_ack rs pkt_sz our_challenge (ei_connect_cookie ec) ;;
  ROk (ec, sent1 ++ sent2, rs, ws).

(** [ei_accept_tmo] from [recv_name] on: the name of the other node, its flags,
    what was sent, and the socket. *)
Definition accept_handshake (ec : ei_cnode) (pkt_sz our_challenge : Z) (rs : list cread) (ws : list cwrite)
  : rres (list Z * Z * list Z * list cread * list cwrite) :=
  n <~ recv_name rs pkt_sz ;;
  let '(send_name_tag, her_flags, her_name, rs) := n in
  let~ (sent1, ws) := send_status ws pkt_sz (str "ok"%string) in
  let~ (sent2, ws) := send_challenge ws ec pkt_sz our_challenge in
  let~ (her_flags, rs) := (if send_name_tag =? 110 then recv_complement rs pkt_sz her_flags else ROk (her_flags, rs)) in
  let~ (her_challenge, rs) := recv_challenge_reply rs pkt_sz our_challenge (ei_connect_cookie ec) in
  our_digest <~ ofopt (gen_digest her_challenge (ei_connect_cookie ec)) ;;
  let~ (sent3, ws) := send_challenge_ack ws pkt_sz our_digest in
  ROk (her_name, her_flags, sent1 ++ sent2 ++ sent3, rs, ws).
End Handshake.

(** ** Digests *)

Lemma dec_loop_ok fuel n acc : bytes_ok acc -> bytes_ok (dec_loop fuel n acc).
Proof.
  revert n acc. induction fuel as [|fuel IH]; intros n acc Ha; cbn [dec_loop]; [done|].
  assert (bytes_ok ((48 + n mod 10) :: acc)) as H.
  { constructor; [|done]. unfold byte_ok. pose proof (Z.mod_pos_bound n 10). lia. }
  destruct (_ =? 0); [done|by apply IH].
Qed.

Lemma dec_ok n : bytes_ok (dec n).
Proof.
  unfold dec. destruct (n <? 0); [constructor; [unfold byte_ok; lia|]|]; by apply dec_loop_ok.
Qed.

Lemma gen_digest_rfc challenge cookie :
  bytes_ok cookie -> gen_digest challenge cookie = Some (rfc_md5 (cookie ++ dec challenge)).
Proof.
  intros Hc. unfold gen_digest. destruct (update_rep _ [] cookie md5_init_rep Hc) as (st & -> & Hr). cbn [mbind option_bind].
  destruct (update_rep _ _ (dec challenge) Hr (dec_ok challenge)) as (st2 & -> & Hr2). cbn [mbind option_bind].
  apply finish_rep; [done|]. apply Forall_app. split; [done|apply dec_ok].
Qed.

Lemma zlen_rfc_md5 m : zlen (rfc_md5 m) = 16.
Proof. unfold rfc_md5, regs_bytes. destruct (rfc_hash _ _) as [[[a b] c] d]. zlen_lia. Qed.

(** ** Packets *)

(** The length field of a packet of [n] bytes. *)
Definition size_field (pkt_sz n : Z) : list Z := if pkt_sz =? 2 then be_bytes 2 n else be_bytes 4 n.
Definition hs_frame (pkt_sz : Z) (body : list Z) : list Z := size_field pkt_sz (zlen body) ++ body.
Definition hs_size (pkt_sz : Z) : Prop := pkt_sz = 2 \/ pkt_sz = 4.

Lemma zlen_size_field pkt_sz n : hs_size pkt_sz -> zlen (size_field pkt_sz n) = pkt_sz.
Proof. intros [->| ->]; unfold size_field; apply zlen_be_bytes. Qed.

Definition writes_bytes (f : mem -> Z -> option (mem * Z)) (bs : list Z) : Prop := forall b s, f b s = put_bytes b s bs.

Lemma put_seq_bytes fs bss b s : Forall2 writes_bytes fs bss -> fs <> [] -> put_seq fs b s = put_bytes b s (concat bss).
Proof.
  intros H Hn. revert b s. induction H as [|f bs fs bss Hf Hr IH]; intros b s; [done|]. cbn [put_seq concat].
  rewrite Hf. unfold put_bytes at 1. destruct Hr as [|g bs2 fs bss Hg Hr].
  - cbn [concat put_seq]. rewrite app_nil_r. unfold put_bytes. by destruct (store b s bs).
  - unfold put_bytes. rewrite <- store_seq. destruct (store b s bs) as [b1|]; [|done]. cbn [mbind option_bind].
    rewrite IH by done. unfold put_bytes. rewrite (zlen_app bs), Z.add_assoc. done.
Qed.

(** The messages. *)
Definition wire_identity (ec : ei_cnode) : list Z * Z :=
  if bool_decide (thisnodename ec = []) then (thishostname ec, Z.lor preferred_flags DFLAG_NAME_ME)
  else (thisnodename ec, preferred_flags).
Definition status_msg (status : list Z) : list Z := 115 :: status.
Definition name_msg (ec : ei_cnode) : list Z :=
  let '(name, flags) := wire_identity ec in
  [78] ++ be_bytes 8 flags ++ be_bytes 4 (ec_creation ec) ++ be_bytes 2 (zlen name) ++ name.
Definition challenge_msg (ec : ei_cnode) (challenge : Z) : list Z :=
  [78] ++ be_bytes 8 preferred_flags ++ be_bytes 4 challenge ++ be_bytes 4 (ec_creation ec) ++
  be_bytes 2 (zlen (thisnodename ec)) ++ thisnodename ec.
Definition reply_msg (digest : list Z) (challenge : Z) : list Z := [114] ++ be_bytes 4 challenge ++ digest.
Definition ack_msg (digest : list Z) : list Z := 97 :: digest.

(** ** Safety *)

(** Neither an access outside of a buffer nor a cut-off recursion. *)
Definition safe {A} (r : rres A) : Prop := r <> ROob /\ r <> RFuel.

Lemma safe_bind {A B} (e : rres A) (k : A -> rres B) : safe e -> (forall a, e = ROk a -> safe (k a)) -> safe (rbind e k).
Proof. intros [H1 H2] Hk. destruct e; cbn; [by apply Hk|split; congruence..]. Qed.

Lemma rbind_assoc {A B C} (e : rres A) (k1 : A -> rres B) (k2 : B -> rres C) :
  rbind (rbind e k1) k2 = rbind e (fun a => rbind (k1 a) k2).
Proof. by destruct e. Qed.

Lemma safe_ok {A} (a : A) : safe (ROk a).
Proof. by split. Qed.
Lemma safe_err {A} : safe (@RErr A).
Proof. by split. Qed.
Create HintDb hs_safe.
#[export] Hint Resolve safe_ok safe_err : hs_safe.

Lemma write_all_safe ws bs : safe (write_all ws bs).
Proof. unfold write_all. destruct (ei_write_fill ws bs) as [[[e l] w]|]; [|by split]. destruct (_ || _); auto with hs_safe. Qed.

Section Packets.
Variable alloc : Z -> bool.
Variable junk : nat -> list Z.
Hypothesis junk_length : forall n, length (junk n) = n.

Lemma hs_packet_cases pkt_sz siz fs bss :
  hs_size pkt_sz -> Forall2 writes_bytes fs bss -> fs <> [] -> siz = pkt_sz + zlen (concat bss) ->
  hs_packet alloc junk pkt_sz siz fs = if (DEFBUF_SIZ <? siz) && negb (alloc siz) then RErr else ROk (hs_frame pkt_sz (concat bss)).
Proof.
  intros Hp Hf Hn ->. unfold hs_packet. set (body := concat bss). pose proof (zlen_nonneg body) as Hz.
  assert ((exists buf, (if DEFBUF_SIZ <? pkt_sz + zlen body then ei_malloc alloc junk (pkt_sz + zlen body)
    else Some (junk (Z.to_nat DEFBUF_SIZ))) = Some buf /\ pkt_sz + zlen body <= zlen buf) \/
    DEFBUF_SIZ < pkt_sz + zlen body /\ alloc (pkt_sz + zlen body) = false) as [(buf & Eb & Hl)|[Hd Ea]].
  { unfold ei_malloc. change DEFBUF_SIZ with 100.
    assert (0 <= pkt_sz) by (destruct Hp; lia). replace (0 <=? pkt_sz + zlen body) with true by lia.
    destruct (Z.ltb_spec 100 (pkt_sz + zlen body)), (alloc (pkt_sz + zlen body));
      [left|right; split; [lia|done]|left..]; eexists; (split; [reflexivity|]); unfold zlen at 2; rewrite junk_length; lia. }
  2: { unfold ei_malloc. rewrite Ea, andb_false_r. by replace (DEFBUF_SIZ <? pkt_sz + zlen body) with true by lia. }
  rewrite Eb. replace ((DEFBUF_SIZ <? pkt_sz + zlen body) && negb (alloc (pkt_sz + zlen body))) with false.
  2: { revert Eb. unfold ei_malloc. by destruct (DEFBUF_SIZ <? _), (alloc _); rewrite ?andb_false_r. }
  assert (put_size buf pkt_sz (pkt_sz + zlen body) = ofopt (put_bytes buf 0 (size_field pkt_sz (zlen body)))) as ->.
  { unfold put_size, size_field. destruct Hp as [->| ->]; closed_tests; rewrite ?put16be_bytes, ?put32be_bytes;
      do 3 f_equal; lia. }
  unfold put_bytes at 1.
  pose proof (zlen_size_field pkt_sz (zlen body) Hp) as Hs.
  destruct (store_some buf 0 (size_field pkt_sz (zlen body) ++ body)) as [m Hm]; [lia|zlen_lia|].
  pose proof Hm as Hm2. rewrite <- store_seq in Hm2. destruct (store buf 0 (size_field pkt_sz (zlen body))) as [b1|]; [|done].
  cbn [ofopt rbind]. rewrite (put_seq_bytes fs bss) by done. unfold put_bytes. fold body. rewrite Hm2. cbn [ofopt rbind].
  apply store_holds in Hm. by rewrite (holds_slice _ _ _ (pkt_sz + zlen body) Hm) by zlen_lia.
Qed.
(** A function that builds a packet and writes it: [RErr] only when [malloc] or
    the socket refuses. *)
Definition sends (pkt_sz : Z) (send : list cwrite -> rres (list Z * list cwrite)) (body : list Z) : Prop :=
  forall ws, send ws = if (DEFBUF_SIZ <? pkt_sz + zlen body) && negb (alloc (pkt_sz + zlen body)) then RErr
                       else write_all ws (hs_frame pkt_sz body).

Lemma packet_sent pkt_sz siz fs bss body :
  hs_size pkt_sz -> Forall2 writes_bytes fs bss -> fs <> [] -> body = concat bss -> siz = pkt_sz + zlen body ->
  sends pkt_sz (fun ws => pkt <~ hs_packet alloc junk pkt_sz siz fs ;; write_all ws pkt) body.
Proof.
  intros Hp Hf Hn -> -> ws. rewrite (hs_packet_cases _ _ _ _ Hp Hf Hn eq_refl). by destruct (_ && _).
Qed.

Ltac packet_of bss := eapply (packet_sent _ _ _ bss);
  [done|repeat (constructor; [intros ? ?; by autorewrite with puts|]); constructor|done|cbn [concat]; by rewrite app_nil_r|zlen_lia].

Lemma send_status_sends pkt_sz status :
  hs_size pkt_sz -> sends pkt_sz (fun ws => send_status alloc junk ws pkt_sz status) (status_msg status).
Proof. intros Hp. unfold status_msg. packet_of [[115]; status]. Qed.

Lemma send_name_sends pkt_sz ec :
  hs_size pkt_sz -> sends pkt_sz (fun ws => send_name alloc junk ws ec pkt_sz) (name_msg ec).
Proof.
  intros Hp. unfold send_name, name_msg. fold (wire_identity ec). destruct (wire_identity ec) as [name flags].
  packet_of [[78]; be_bytes 8 flags; be_bytes 4 (ec_creation ec); be_bytes 2 (zlen name); name].
Qed.

Lemma send_challenge_sends pkt_sz ec c :
  hs_size pkt_sz -> sends pkt_sz (fun ws => send_challenge alloc junk ws ec pkt_sz c) (challenge_msg ec c).
Proof.
  intros Hp. unfold challenge_msg.
  packet_of [[78]; be_bytes 8 preferred_flags; be_bytes 4 c; be_bytes 4 (ec_creation ec); be_bytes 2 (zlen (thisnodename ec));
    thisnodename ec].
Qed.

Lemma send_challenge_reply_sends pkt_sz digest c :
  hs_size pkt_sz -> zlen digest = 16 ->
  sends pkt_sz (fun ws => send_challenge_reply alloc junk ws pkt_sz digest c) (reply_msg digest c).
Proof. intros Hp Hd. unfold reply_msg. packet_of [[114]; be_bytes 4 c; digest]. Qed.

Lemma send_challenge_ack_sends pkt_sz digest :
  hs_size pkt_sz -> zlen digest = 16 ->
  sends pkt_sz (fun ws => send_challenge_ack alloc junk ws pkt_sz digest) (ack_msg digest).
Proof. intros Hp Hd. unfold ack_msg. packet_of [[97]; digest]. Qed.

Lemma sends_safe pkt_sz send body ws : sends pkt_sz send body -> safe (send ws).
Proof. intros H. rewrite H. destruct (_ && _); [apply safe_err|apply write_all_safe]. Qed.

Hypothesis alloc_grants : forall n, alloc n = true.

(** The two reads of a packet get its length and its [body]. *)
Definition hs_arrives (rs : list cread) (pkt_sz : Z) (body : list Z) (rs' : list cread) : Prop :=
  exists rs1, delivers rs (size_field pkt_sz (zlen body)) rs1 /\ delivers rs1 body rs'.

Lemma read_package_ok rs pkt_sz body rs' :
  hs_size pkt_sz -> hs_arrives rs pkt_sz body rs' -> zlen body < 65536 ->
  exists buf bl is_static, read_package alloc junk rs pkt_sz = ROk (zlen body, (buf, bl, is_static), rs') /\ holds buf 0 body.
Proof.
  intros Hp (rs1 & H1 & H2) Hl. unfold read_package, read_hs_package. pose proof (zlen_nonneg body) as Hz.
  destruct (read_exact_ok _ (junk 4) 0 _ _ pkt_sz H1) as (nb & -> & Hs); [by apply zlen_size_field|lia|
    unfold zlen; rewrite junk_length; destruct Hp; lia|]. cbn [rbind].
  apply store_holds in Hs. rewrite <- (app_nil_r (size_field _ _)) in Hs.
  assert ((if pkt_sz =? 2 then ofopt (get16be nb 0) else if pkt_sz =? 4 then ofopt (get32be nb 0) else RErr)
    = ROk (zlen body, pkt_sz)) as ->.
  { unfold size_field in Hs. destruct Hp as [->| ->]; closed_tests.
    - by destruct (get16be_holds nb 0 (zlen body) [] ltac:(unfold in_u; lia) Hs) as [-> _].
    - destruct (get32be_holds nb 0 (zlen body) [] Hs) as [-> _]. by rewrite wraps_small by (unfold in_s; lia). }
  cbn [rbind]. change DEFBUF_SIZ with 100.
  assert (exists buf bl st, (if 100 <? zlen body then
      match ei_malloc alloc junk (zlen body) with None => RErr | Some tmp => ROk (tmp, zlen body, false) end
    else ROk (junk (Z.to_nat 100), 100, true)) = ROk (buf, bl, st) /\ zlen body <= zlen buf) as (buf & bl & st & -> & Hb).
  { unfold ei_malloc. rewrite alloc_grants. replace (0 <=? zlen body) with true by lia. cbn [andb].
    destruct (Z.ltb_spec 100 (zlen body)); eexists _, _, _; (split; [reflexivity|]); unfold zlen at 2; rewrite junk_length; lia. }
  cbn [rbind]. destruct (read_exact_ok _ buf 0 _ _ (zlen body) H2) as (b2 & -> & Hs2); [done|lia|lia|].
  cbn [rbind]. exists b2, bl, st. split; [done|]. by apply store_holds in Hs2.
Qed.
End Packets.

(** ** Any input *)

Lemma read_exact_inv rs m off n m' rs' :
  read_exact rs m off n = ROk (m', rs') ->
  exists bs, delivers rs bs rs' /\ zlen bs = n /\ store m off bs = Some m' /\ zlen m' = zlen m /\ off + n <= zlen m.
Proof.
  unfold read_exact, read_into. destruct ((off <? 0) || (n <? 0) || (zlen m <? off + n)) eqn:Hb; [done|].
  destruct (ei_read_fill rs n) as [[[e bs] rs1]|] eqn:E; [|done]. destruct (store m off bs) as [m1|] eqn:Es; [|done].
  cbn [ofopt rbind]. destruct (Z.eqb_spec e 0) as [->|]; [|done]. destruct (Z.eqb_spec (zlen bs) n) as [<-|]; [|done].
  intros [= <- <-]. exists bs. unfold delivers. rewrite E. split_and!; try done; [|lia].
  unfold zlen. f_equal. by eapply store_length.
Qed.

Lemma read_exact_safe rs m off n : 0 <= off -> 0 <= n -> off + n <= zlen m -> safe (read_exact rs m off n).
Proof.
  intros Ho Hn Hl. unfold read_exact, read_into. replace ((off <? 0) || (n <? 0) || (zlen m <? off + n)) with false by lia.
  destruct (ei_read_fill rs n) as [[[e bs] rs1]|] eqn:E; [|done].
  destruct (store_some m off bs) as [m1 ->]; [lia|apply ei_read_fill_length in E; [lia|done]|]. cbn [ofopt rbind].
  destruct (_ || _); auto with hs_safe.
Qed.

Lemma mem_get_in_range m s : 0 <= s < zlen m -> exists b, mem_get m s = Some b.
Proof.
  intros H. unfold mem_get. replace (s <? 0) with false by lia.
  destruct (lookup_lt_is_Some_2 m (Z.to_nat s)) as [b Hb]; [unfold zlen in H; lia|]. eauto.
Qed.

Lemma slice_in_range m s n : 0 <= s -> 0 <= n -> s + n <= zlen m -> exists l, slice m s n = Some l /\ zlen l = n.
Proof. intros. unfold slice. replace ((0 <=? s) && (0 <=? n) && (s + n <=? zlen m)) with true by lia. eexists. split; [done|]. unfold zlen in *. rewrite length_take, length_drop. lia. Qed.

Ltac bytes_in_range :=
  repeat match goal with
  | |- context [mem_get ?m ?s] =>
      let b := fresh "b" in let E := fresh in destruct (mem_get_in_range m s) as [b E]; [lia|rewrite E; clear E]
  end.

Lemma get8_in m s : 0 <= s -> s + 1 <= zlen m -> exists v, get8 m s = Some (v, s + 1).
Proof. intros. unfold get8. bytes_in_range. eauto. Qed.

Lemma get16be_in m s : 0 <= s -> s + 2 <= zlen m -> exists v, get16be m s = Some (v, s + 2) /\ 0 <= v < 65536.
Proof.
  intros. unfold get16be. bytes_in_range.
  eexists. split; [done|]. change 65535 with (Z.ones 16). rewrite Z.land_ones by lia. apply Z.mod_pos_bound. lia.
Qed.

Lemma get32be_in m s : 0 <= s -> s + 4 <= zlen m -> exists v, get32be m s = Some (v, s + 4).
Proof. intros. unfold get32be. bytes_in_range. eauto. Qed.

Lemma get64be_in m s : 0 <= s -> s + 8 <= zlen m -> exists v, get64be m s = Some (v, s + 8).
Proof. intros. unfold get64be. bytes_in_range. eauto. Qed.

Section Receiving.
Variable alloc : Z -> bool.
Variable junk : nat -> list Z.
Hypothesis junk_length : forall n, length (junk n) = n.

Lemma zlen_malloc n m : ei_malloc alloc junk n = Some m -> zlen m = n.
Proof.
  unfold ei_malloc. destruct (Z.leb_spec 0 n); [|done]. destruct (alloc n); [|done]. intros [= <-]. unfold zlen. rewrite junk_length. lia.
Qed.

(** What a packet that was read is, and where it came from. *)
Lemma read_package_inv rs pkt_sz rlen buf bl st rs' :
  read_package alloc junk rs pkt_sz = ROk (rlen, (buf, bl, st), rs') ->
  exists hd body rs1, delivers rs hd rs1 /\ delivers rs1 body rs' /\ zlen body = rlen /\ holds buf 0 body /\
    rlen <= zlen buf /\ 100 <= zlen buf.
Proof.
  unfold read_package, read_hs_package. change DEFBUF_SIZ with 100.
  destruct (read_exact rs (junk 4) 0 pkt_sz) as [[nb rs1]| | | |] eqn:E1; try done. cbn [rbind].
  apply read_exact_inv in E1 as (hd & Hd & _). set (g := if pkt_sz =? 2 then _ else _). destruct g as [[len s]| | | |]; try done.
  cbn [rbind]. set (r := if 100 <? len then _ else _).
  destruct r as [[[b1 bl1] st1]| | | |] eqn:Er; try done. cbn [rbind].
  assert (100 <= zlen b1) as Hb.
  { unfold r in Er. destruct (Z.ltb_spec 100 len).
    - destruct (ei_malloc alloc junk len) as [tmp|] eqn:Em; [|done]. injection Er as -> _ _. apply zlen_malloc in Em. lia.
    - injection Er as <- _ _. unfold zlen. rewrite junk_length. lia. }
  destruct (read_exact rs1 b1 0 len) as [[b2 rs2]| | | |] eqn:E2; try done. cbn [rbind]. intros [= <- <- <- <- <-].
  apply read_exact_inv in E2 as (body & Hbody & Hl & Hs & Hz & Hle). exists hd, body, rs1.
  apply store_holds in Hs. split_and!; try done; lia.
Qed.

Lemma read_package_safe rs : safe (read_package alloc junk rs 2).
Proof.
  unfold read_package, read_hs_package. change DEFBUF_SIZ with 100. closed_tests.
  apply safe_bind; [apply read_exact_safe; unfold zlen; rewrite ?junk_length; lia|]. intros [nb rs1] E1.
  apply read_exact_inv in E1 as (_ & _ & _ & _ & Hz & _). assert (zlen nb = 4) as H4 by (rewrite Hz; unfold zlen; by rewrite junk_length).
  destruct (get16be_in nb 0) as (len & -> & Hlen); [lia|lia|]. cbn [ofopt rbind].
  apply safe_bind; [destruct (100 <? len); [destruct (ei_malloc alloc junk len)|]; auto with hs_safe|].
  intros [[b1 bl1] st1] E2.
  assert (len <= zlen b1).
  { destruct (Z.ltb_spec 100 len).
    - destruct (ei_malloc alloc junk len) as [tmp|] eqn:Em; [|done]. injection E2 as -> _ _. apply zlen_malloc in Em. lia.
    - injection E2 as <- _ _. unfold zlen. rewrite junk_length. lia. }
  apply safe_bind; [apply read_exact_safe; lia|]. intros [b2 rs2] _. auto with hs_safe.
Qed.

(** A name that fits, and the string in the array is the one in front of its NUL. *)
Lemma store_name_ok name : zlen name <= MAXNODELEN -> store_name junk name = Some (cstr (name ++ [0])).
Proof.
  intros Hl. change MAXNODELEN with 256 in Hl. pose proof (zlen_nonneg name). unfold store_name, put_bytes. set (m := junk _).
  assert (zlen m = 257) as Hz by (unfold m, zlen; by rewrite junk_length). set (rest := drop (length name) m).
  assert (store m 0 name = Some (name ++ rest)) as -> by (unfold store; rewrite Hz; by replace ((0 <=? 0) && (0 + zlen name <=? 257)) with true by lia).
  cbn [mbind option_bind]. rewrite Z.add_0_l.
  assert (zlen (name ++ rest) = 257) as Hr by (unfold zlen in *; rewrite length_app; unfold rest; rewrite length_drop; lia).
  unfold store. rewrite Hr. change (zlen [0]) with 1. replace ((0 <=? zlen name) && (zlen name + 1 <=? 257)) with true by lia. cbn [mbind option_bind]. f_equal.
  unfold zlen. rewrite Nat2Z.id, take_app_length. generalize (drop (length name + length [0]) (name ++ rest)). clear. intros post. induction name as [|c name IH]; [done|]. cbn [app cstr]. destruct (c =? 0); [done|]. by f_equal.
Qed.

(** ** No message leads outside of the buffers *)

Ltac safe_case :=
  match goal with
  | |- safe (ROk _) => apply safe_ok
  | |- safe RErr => apply safe_err
  | |- safe (write_all _ _) => apply write_all_safe
  | |- safe (rbind (rbind _ _) _) => rewrite rbind_assoc
  | |- safe (rbind (ROk _) _) => cbn [rbind]
  | |- safe (rbind RErr _) => apply safe_err
  | |- safe (rbind (if ?c then _ else _) _) => destruct c eqn:?
  | |- safe (rbind (ofopt (get8 ?b ?s)) _) => destruct (get8_in b s) as (? & ->); [lia|lia|cbn [ofopt rbind]]
  | |- safe (rbind (ofopt (get16be ?b ?s)) _) => destruct (get16be_in b s) as (? & -> & ?); [lia|lia|cbn [ofopt rbind]]
  | |- safe (rbind (ofopt (get32be ?b ?s)) _) => destruct (get32be_in b s) as (? & ->); [lia|lia|cbn [ofopt rbind]]
  | |- safe (rbind (ofopt (get64be ?b ?s)) _) => destruct (get64be_in b s) as (? & ->); [lia|lia|cbn [ofopt rbind]]
  | |- safe (rbind (ofopt (slice ?b ?s ?n)) _) =>
      destruct (slice_in_range b s n) as (? & -> & ?); [lia|lia|lia|cbn [ofopt rbind]]
  | |- safe (rbind (ofopt (store_name junk ?n)) _) => rewrite (store_name_ok n) by lia; cbn [ofopt rbind]
  | |- safe (rbind (read_package _ _ ?rs 2) _) =>
      apply safe_bind; [apply read_package_safe|intros [[? [[? ?] ?]] ?] (? & ? & ? & _ & _ & ? & _ & ? & ?)%read_package_inv]
  | |- safe (if ?c then _ else _) => destruct c eqn:?
  | |- safe (let _ := _ in _) => cbn zeta
  end.

Lemma check_digest_safe buf s c cookie :
  bytes_ok cookie -> 0 <= s -> s + 16 <= zlen buf -> safe (check_digest buf s c cookie).
Proof. intros Hc Hs Hl. unfold check_digest. safe_case. rewrite gen_digest_rfc by done. cbn [ofopt rbind]. repeat safe_case. Qed.

Lemma recv_challenge_safe rs : safe (recv_challenge alloc junk rs 2).
Proof. unfold recv_challenge. repeat safe_case. Qed.

Lemma recv_complement_safe rs flags : safe (recv_complement alloc junk rs 2 flags).
Proof. unfold recv_complement. repeat safe_case. Qed.

Lemma recv_challenge_reply_safe rs c cookie : bytes_ok cookie -> safe (recv_challenge_reply alloc junk rs 2 c cookie).
Proof.
  intros Hc. unfold recv_challenge_reply. repeat safe_case.
  apply safe_bind; [apply check_digest_safe; [done|lia|lia]|intros; repeat safe_case].
Qed.

Lemma recv_challenge_ack_safe rs c cookie : bytes_ok cookie -> safe (recv_challenge_ack alloc junk rs 2 c cookie).
Proof.
  intros Hc. unfold recv_challenge_ack. repeat safe_case.
  apply safe_bind; [apply check_digest_safe; [done|lia|lia]|intros; repeat safe_case].
Qed.

Lemma recv_name_safe rs : safe (recv_name alloc junk rs 2).
Proof. unfold recv_name. repeat safe_case. Qed.

(** A node that has its name already; the answer to one that has none is
    another matter, see [recv_status_overflow]. *)
Lemma recv_status_safe rs ec : thisnodename ec <> [] -> safe (recv_status alloc junk rs ec 2).
Proof.
  intros Hn. unfold recv_status. rewrite (bool_decide_eq_false_2 _ Hn). cbn [negb]. repeat safe_case.
Qed.

Lemma recv_status_keeps rs ec ec' rs' pkt_sz :
  thisnodename ec <> [] -> recv_status alloc junk rs ec pkt_sz = ROk (ec', rs') -> ec' = ec.
Proof.
  intros Hn. unfold recv_status. rewrite (bool_decide_eq_false_2 _ Hn). cbn [negb].
  destruct (read_package _ _ _ _) as [[[rlen [[buf bl] st]] rs1]| | | |]; try done. cbn [rbind].
  destruct (rlen <=? 0); [done|]. destruct (3 <=? rlen); [|done]. destruct (slice buf 0 3); [|done]. cbn [ofopt rbind].
  destruct (bool_decide _); [|done]. by intros [= <- _].
Qed.

(** C6: Whatever bytes arrive, neither side of the handshake of a named node
    accesses memory outside of its buffers, or of the arrays of [MAXNODELEN+1] bytes
    into which the names of its peers are copied, with the packet headers of two bytes
    that the library's own sockets use. *)
Theorem handshake_safe ec our_challenge rs ws :
  thisnodename ec <> [] -> bytes_ok (ei_connect_cookie ec) ->
  safe (connect_handshake alloc junk ec 2 our_challenge rs ws) /\ safe (accept_handshake alloc junk ec 2 our_challenge rs ws).
Proof.
  intros Hn Hc. assert (hs_size 2) as H2 by (by left). split.
  - unfold connect_handshake. apply safe_bind; [exact (sends_safe _ _ _ _ _ (send_name_sends alloc junk junk_length 2 ec H2))|].
    intros [s1 ws1] _. apply safe_bind; [by apply recv_status_safe|]. intros [ec' rs1] ->%recv_status_keeps; [|done].
    apply safe_bind; [apply recv_challenge_safe|]. intros [[[hc fl] nm] rs2] _. rewrite gen_digest_rfc by done. cbn [ofopt rbind].
    apply safe_bind; [exact (sends_safe _ _ _ _ _ (send_challenge_reply_sends alloc junk junk_length 2 _ _ H2 (zlen_rfc_md5 _)))|]. intros [s2 ws2] _.
    apply safe_bind; [by apply recv_challenge_ack_safe|]. auto with hs_safe.
  - unfold accept_handshake. apply safe_bind; [apply recv_name_safe|]. intros [[[tag fl] nm] rs1] _.
    apply safe_bind; [exact (sends_safe _ _ _ _ _ (send_status_sends alloc junk junk_length 2 _ H2))|]. intros [s1 ws1] _.
    apply safe_bind; [exact (sends_safe _ _ _ _ _ (send_challenge_sends alloc junk junk_length 2 ec _ H2))|]. intros [s2 ws2] _.
    apply safe_bind; [destruct (tag =? 110); [apply recv_complement_safe|auto with hs_safe]|]. intros [fl2 rs2] _.
    apply safe_bind; [by apply recv_challenge_reply_safe|]. intros [hc rs3] _. rewrite gen_digest_rfc by done. cbn [ofopt rbind].
    apply safe_bind; [exact (sends_safe _ _ _ _ _ (send_challenge_ack_sends alloc junk junk_length 2 _ H2 (zlen_rfc_md5 _)))|]. intros [s3 ws3] _. auto with hs_safe.
Qed.

(** ** What an accepted message was *)

Definition post {A} (r : rres A) (Q : A -> Prop) : Prop := forall a, r = ROk a -> Q a.

Lemma post_bind {A B} (e : rres A) (k : A -> rres B) Q : post e (fun a => post (k a) Q) -> post (rbind e k) Q.
Proof. intros H b. destruct e; [|done..]. cbn. by apply H. Qed.

Lemma post_mono {A} (r : rres A) (P Q : A -> Prop) : post r P -> (forall a, P a -> Q a) -> post r Q.
Proof. intros H HPQ a E. by apply HPQ, H. Qed.

Ltac post_case :=
  match goal with
  | |- post (ROk _) _ => let E := fresh in intros ? E; injection E as <-; lazy beta iota
  | |- post RErr _ => done
  | |- post ROob _ => done
  | |- post (rbind (rbind _ _) _) _ => rewrite rbind_assoc
  | |- post (rbind (ROk _) _) _ => cbn [rbind]
  | |- post (rbind RErr _) _ => done
  | |- post (rbind (read_package _ _ _ _) _) _ =>
      apply post_bind; intros [[? [[? ?] ?]] ?] (? & ? & ? & ? & ? & ? & ? & ? & ?)%read_package_inv
  | |- post (rbind (let '(_, _) := ?p in _) _) _ => destruct p
  | |- post (rbind (ofopt (get8 ?b ?s)) _) _ => destruct (get8_in b s) as (? & ->); [lia|lia|cbn [ofopt rbind]]
  | |- post (rbind (ofopt (get32be ?b ?s)) _) _ => destruct (get32be_in b s) as (? & ->); [lia|lia|cbn [ofopt rbind]]
  | |- post (rbind (ofopt ?o) _) _ => destruct o eqn:?; [cbn [ofopt rbind]|done]
  | |- post (rbind (if ?c then _ else _) _) _ => destruct c eqn:?
  | |- post (let '(_, _) := ?p in _) _ => destruct p
  | |- post (if ?c then _ else _) _ => destruct c eqn:?
  | |- post (match ?o with Some _ => _ | None => _ end) _ => destruct o eqn:?
  end.

Lemma delivers_suffix rs bs rs' : delivers rs bs rs' -> rs' `suffix_of` rs.
Proof. apply ei_read_fill_suffix. Qed.

Lemma package_suffix rs hd rs1 body rs' : delivers rs hd rs1 -> delivers rs1 body rs' -> rs' `suffix_of` rs.
Proof. intros H1%delivers_suffix H2%delivers_suffix. by etrans. Qed.

Lemma recv_status_post rs ec pkt_sz :
  post (recv_status alloc junk rs ec pkt_sz) (fun '(ec', rs') => rs' `suffix_of` rs /\ ei_connect_cookie ec' = ei_connect_cookie ec).
Proof. unfold recv_status. repeat post_case. all: (split; [by eapply package_suffix|done]). Qed.

Lemma recv_challenge_post rs pkt_sz : post (recv_challenge alloc junk rs pkt_sz) (fun '(_, _, _, rs') => rs' `suffix_of` rs).
Proof. unfold recv_challenge. repeat post_case. by eapply package_suffix. Qed.

Lemma recv_complement_post rs pkt_sz fl : post (recv_complement alloc junk rs pkt_sz fl) (fun '(_, rs') => rs' `suffix_of` rs).
Proof. unfold recv_complement. repeat post_case. by eapply package_suffix. Qed.

Lemma recv_name_post rs pkt_sz : post (recv_name alloc junk rs pkt_sz) (fun '(_, _, _, rs') => rs' `suffix_of` rs).
Proof. unfold recv_name. repeat post_case; by eapply package_suffix. Qed.

Lemma slice_of_held buf body s n : holds buf 0 body -> 0 <= s -> 0 <= n -> s + n = zlen body -> slice buf s n = Some (drop (Z.to_nat s) body).
Proof.
  intros Hh Hs Hn Hl. rewrite <- (take_drop (Z.to_nat s) body) in Hh. apply holds_app in Hh as [_ Hh].
  assert (0 + zlen (take (Z.to_nat s) body) = s) as E by (unfold zlen in *; rewrite length_take; lia). rewrite E in Hh.
  apply (holds_slice _ _ _ _ Hh). unfold zlen in *. rewrite length_drop. lia.
Qed.

Lemma check_digest_post buf body s c cookie :
  bytes_ok cookie -> holds buf 0 body -> 0 <= s -> s + 16 = zlen body ->
  post (check_digest buf s c cookie) (fun _ => drop (Z.to_nat s) body = rfc_md5 (cookie ++ dec c)).
Proof.
  intros Hc Hh Hs Hl. unfold check_digest. rewrite (slice_of_held buf body s 16 Hh Hs ltac:(lia) Hl), gen_digest_rfc by done.
  cbn [ofopt rbind]. destruct (bool_decide _) eqn:E; [|done]. intros _ _. by apply bool_decide_eq_true in E.
Qed.

(** [rs'] is what follows, in [rs], a packet of [n] bytes that ends with [digest]. *)
Definition digest_read (rs : list cread) (n : Z) (digest : list Z) (rs' : list cread) : Prop :=
  exists rs1 msg, rs1 `suffix_of` rs /\ delivers rs1 msg rs' /\ zlen msg = n /\ drop (Z.to_nat (n - 16)) msg = digest.

Lemma recv_challenge_reply_post rs pkt_sz c cookie :
  bytes_ok cookie ->
  post (recv_challenge_reply alloc junk rs pkt_sz c cookie) (fun '(_, rs') => digest_read rs 21 (rfc_md5 (cookie ++ dec c)) rs').
Proof.
  intros Hc. unfold recv_challenge_reply. repeat post_case. apply post_bind.
  eapply post_mono; [eapply check_digest_post; [done|done|lia|lia]|]. intros ? Hd. post_case.
  eexists _, _. split; [by eapply delivers_suffix|]. split; [done|]. split; [lia|done].
Qed.

Lemma recv_challenge_ack_post rs pkt_sz c cookie :
  bytes_ok cookie ->
  post (recv_challenge_ack alloc junk rs pkt_sz c cookie) (fun rs' => digest_read rs 17 (rfc_md5 (cookie ++ dec c)) rs').
Proof.
  intros Hc. unfold recv_challenge_ack. repeat post_case. apply post_bind.
  eapply post_mono; [eapply check_digest_post; [done|done|lia|lia]|]. intros ? Hd. post_case.
  eexists _, _. split; [by eapply delivers_suffix|]. split; [done|]. split; [lia|done].
Qed.

Lemma digest_read_suffix rs rs1 n d rs' : rs1 `suffix_of` rs -> digest_read rs1 n d rs' -> digest_read rs n d rs'.
Proof. intros Hs (rs2 & msg & H1 & H2). exists rs2, msg. split; [by etrans|done]. Qed.

(** C5: a handshake that succeeds has authenticated the other node: the last
    packet that was read from the peer, a reply of 21 bytes on the accepting side
    and an acknowledgement of 17 bytes on the connecting side, ends with the MD5
    digest of this node's cookie followed by the digits of the challenge that this
    node sent. *)
Theorem handshake_authenticates ec pkt_sz our_challenge rs ws :
  bytes_ok (ei_connect_cookie ec) ->
  let expected := rfc_md5 (ei_connect_cookie ec ++ dec our_challenge) in
  (forall ec' sent rs' ws', connect_handshake alloc junk ec pkt_sz our_challenge rs ws = ROk (ec', sent, rs', ws') ->
     digest_read rs 17 expected rs') /\
  (forall name flags sent rs' ws', accept_handshake alloc junk ec pkt_sz our_challenge rs ws = ROk (name, flags, sent, rs', ws') ->
     digest_read rs 21 expected rs').
Proof.
  intros Hc expected. split.
  - cut (post (connect_handshake alloc junk ec pkt_sz our_challenge rs ws) (fun '(_, _, rs', _) => digest_read rs 17 expected rs')).
    { intros H ec' sent rs' ws' E. exact (H _ E). }
    unfold connect_handshake. apply post_bind. intros [s1 ws1] _.
    apply post_bind. eapply post_mono; [apply recv_status_post|]. intros [ec1 rs1] [H1 Hk].
    apply post_bind. eapply post_mono; [apply recv_challenge_post|]. intros [[[hc fl] nm] rs2] H2.
    apply post_bind. intros d _. apply post_bind. intros [s2 ws2] _. rewrite Hk.
    apply post_bind. eapply post_mono; [by apply recv_challenge_ack_post|]. intros rs3 H3. post_case.
    eapply digest_read_suffix, H3. by etrans.
  - cut (post (accept_handshake alloc junk ec pkt_sz our_challenge rs ws) (fun '(_, _, _, rs', _) => digest_read rs 21 expected rs')).
    { intros H name flags sent rs' ws' E. exact (H _ E). }
    unfold accept_handshake. apply post_bind. eapply post_mono; [apply recv_name_post|]. intros [[[tag fl] nm] rs1] H1.
    apply post_bind. intros [s1 ws1] _. apply post_bind. intros [s2 ws2] _.
    apply post_bind. apply (post_mono _ (fun '(_, rs2) => rs2 `suffix_of` rs1)).
    { destruct (tag =? 110); [apply recv_complement_post|]. by post_case. }
    intros [fl2 rs2] H2. apply post_bind. eapply post_mono; [by apply recv_challenge_reply_post|]. intros [hc rs3] H3.
    apply post_bind. intros d _. apply post_bind. intros [s3 ws3] _. post_case.
    eapply digest_read_suffix, H3. by etrans.
Qed.
End Receiving.

(** ** Two nodes *)

Record node_wf (ec : ei_cnode) : Prop := {
  wf_named : thisnodename ec <> [];
  wf_nul : nul_free (thisnodename ec);
  wf_bytes : bytes_ok (thisnodename ec);
  wf_len : zlen (thisnodename ec) <= MAXNODELEN;
  wf_cookie : bytes_ok (ei_connect_cookie ec) }.

(** The flags as the other node keeps them. *)
Definition wire_flags : Z := expand_digest preferred_flags.

Lemma named_identity ec : node_wf ec -> wire_identity ec = (thisnodename ec, preferred_flags).
Proof. intros Hw. unfold wire_identity. by rewrite (bool_decide_eq_false_2 _ (wf_named _ Hw)). Qed.

Section Agreement.
Variable alloc : Z -> bool.
Variable junk : nat -> list Z.
Hypothesis junk_length : forall n, length (junk n) = n.
Hypothesis alloc_grants : forall n, alloc n = true.

(** Reads the packet of an arrival, of [n] bytes. *)
Ltac read_message Ha Hp n :=
  match type of Ha with hs_arrives ?rs ?pkt_sz ?body ?rs' =>
    let Hz := fresh "Hz" in
    assert (zlen body = n) as Hz by (zlen_lia || reflexivity);
    destruct (read_package_ok alloc junk junk_length alloc_grants rs pkt_sz body rs' Hp Ha) as (buf & bl & st & -> & Hh);
    [lia|rewrite Hz; cbn [rbind]; clear Hz]
  end.

Lemma recv_name_ok rs rs' pkt_sz ec :
  hs_size pkt_sz -> node_wf ec -> hs_arrives rs pkt_sz (name_msg ec) rs' ->
  recv_name alloc junk rs pkt_sz = ROk (78, wire_flags, thisnodename ec, rs').
Proof.
  intros Hp Hw Ha. unfold recv_name. unfold name_msg in Ha. rewrite (named_identity ec Hw) in Ha.
  set (name := thisnodename ec) in *. pose proof (wf_len _ Hw) as Hl. fold name in Hl. change MAXNODELEN with 256 in *.
  pose proof (zlen_nonneg name). read_message Ha Hp (15 + zlen name).
  replace (15 + zlen name <=? 0) with false by lia. replace (15 + zlen name <? 1 + 8 + 4 + 2) with false by lia.
  destruct (get8_holds buf 0 78 _ ltac:(by vm_compute) Hh) as [-> Hh1]. cbn [ofopt rbind]. closed_tests.
  destruct (get64be_holds _ _ _ _ Hh1) as [-> Hh2]. cbn [ofopt rbind].
  apply holds_app in Hh2 as [_ Hh2]. rewrite zlen_be_bytes in Hh2. change (0 + 1 + 8 + Z.of_nat 4) with (0 + 1 + 8 + 4) in Hh2.
  destruct (get16be_holds buf _ (zlen name) _ ltac:(unfold in_u; lia) Hh2) as [-> Hh3]. cbn [ofopt rbind].
  closed_tests. replace ((256 <? zlen name) || (15 + zlen name <? 0 + 1 + 8 + 4 + 2 + zlen name)) with false by lia.
  rewrite (holds_slice _ _ _ _ Hh3 eq_refl). cbn [ofopt rbind]. rewrite store_name_ok by done. cbn [ofopt rbind]. rewrite cstr_spec by apply (wf_nul _ Hw). done.
Qed.

Lemma recv_challenge_ok rs rs' pkt_sz ec challenge :
  hs_size pkt_sz -> node_wf ec -> in_u 32 challenge -> hs_arrives rs pkt_sz (challenge_msg ec challenge) rs' ->
  recv_challenge alloc junk rs pkt_sz = ROk (challenge, wire_flags, thisnodename ec, rs').
Proof.
  intros Hp Hw Hc Ha. unfold recv_challenge. unfold challenge_msg in Ha.
  set (name := thisnodename ec) in *. pose proof (wf_len _ Hw) as Hl. fold name in Hl. change MAXNODELEN with 256 in *.
  pose proof (zlen_nonneg name). read_message Ha Hp (19 + zlen name).
  replace (19 + zlen name <=? 0) with false by lia. replace (19 + zlen name <? 1 + 8 + 4 + 4 + 2) with false by lia.
  destruct (get8_holds buf 0 78 _ ltac:(by vm_compute) Hh) as [-> Hh1]. cbn [ofopt rbind]. closed_tests.
  destruct (get64be_holds _ _ _ _ Hh1) as [-> Hh2]. cbn [ofopt rbind].
  destruct (get32be_holds _ _ _ _ Hh2) as [-> Hh3]. cbn [ofopt rbind].
  apply holds_app in Hh3 as [_ Hh3]. rewrite zlen_be_bytes in Hh3. change (0 + 1 + 8 + 4 + Z.of_nat 4) with (0 + 1 + 8 + 4 + 4) in Hh3.
  destruct (get16be_holds buf _ (zlen name) _ ltac:(unfold in_u; lia) Hh3) as [-> Hh4]. cbn [ofopt rbind].
  replace (19 + zlen name - (0 + 1 + 8 + 4 + 4 + 2) <? zlen name) with false by lia. replace (256 <? zlen name) with false by lia.
  closed_tests. rewrite (holds_slice _ _ _ _ Hh4 eq_refl). cbn [ofopt rbind]. rewrite store_name_ok by done. cbn [ofopt rbind].
  rewrite cstr_spec by apply (wf_nul _ Hw). by rewrite wrapu_wraps_small by (done || lia).
Qed.

Lemma recv_status_ok rs rs' pkt_sz ec :
  hs_size pkt_sz -> thisnodename ec <> [] -> hs_arrives rs pkt_sz (status_msg (str "ok"%string)) rs' ->
  recv_status alloc junk rs ec pkt_sz = ROk (ec, rs').
Proof.
  intros Hp Hn Ha. unfold recv_status. unfold status_msg in Ha. read_message Ha Hp 3.
  rewrite (bool_decide_eq_false_2 _ Hn). closed_tests. by rewrite (holds_slice _ _ _ 3 Hh).
Qed.

Lemma check_digest_eq buf s digest c cookie :
  bytes_ok cookie -> zlen digest = 16 -> holds buf s digest ->
  check_digest buf s c cookie = if bool_decide (digest = rfc_md5 (cookie ++ dec c)) then ROk tt else RErr.
Proof. intros Hc Hd Hh. unfold check_digest. by rewrite (holds_slice _ _ _ _ Hh Hd), gen_digest_rfc by done. Qed.

Lemma recv_challenge_reply_eq rs rs' pkt_sz our_challenge cookie digest challenge :
  hs_size pkt_sz -> bytes_ok cookie -> zlen digest = 16 -> in_u 32 challenge ->
  hs_arrives rs pkt_sz (reply_msg digest challenge) rs' ->
  recv_challenge_reply alloc junk rs pkt_sz our_challenge cookie
  = if bool_decide (digest = rfc_md5 (cookie ++ dec our_challenge)) then ROk (challenge, rs') else RErr.
Proof.
  intros Hp Hc Hd Hu Ha. unfold recv_challenge_reply. unfold reply_msg in Ha. read_message Ha Hp 21. closed_tests.
  destruct (get8_holds buf 0 114 _ ltac:(by vm_compute) Hh) as [-> Hh1]. cbn [ofopt rbind]. closed_tests.
  destruct (get32be_holds _ _ _ _ Hh1) as [-> Hh2]. cbn [ofopt rbind]. rewrite (check_digest_eq _ _ digest) by done.
  destruct (bool_decide _); [|done]. cbn [rbind]. by rewrite wrapu_wraps_small by (done || lia).
Qed.

Lemma recv_challenge_ack_eq rs rs' pkt_sz our_challenge cookie digest :
  hs_size pkt_sz -> bytes_ok cookie -> zlen digest = 16 -> hs_arrives rs pkt_sz (ack_msg digest) rs' ->
  recv_challenge_ack alloc junk rs pkt_sz our_challenge cookie
  = if bool_decide (digest = rfc_md5 (cookie ++ dec our_challenge)) then ROk rs' else RErr.
Proof.
  intros Hp Hc Hd Ha. unfold recv_challenge_ack. unfold ack_msg in Ha. read_message Ha Hp 17. closed_tests.
  destruct (get8_holds buf 0 97 _ ltac:(by vm_compute) Hh) as [-> Hh1]. cbn [ofopt rbind]. closed_tests.
  rewrite (check_digest_eq _ _ digest) by done. by destruct (bool_decide _).
Qed.

(** The socket takes all of [bs]. *)
Definition accepts_all (ws : list cwrite) (bs : list Z) (ws' : list cwrite) : Prop := write_all ws bs = ROk (bs, ws').

Lemma sends_ok pkt_sz send body ws ws' :
  sends alloc pkt_sz send body -> accepts_all ws (hs_frame pkt_sz body) ws' -> send ws = ROk (hs_frame pkt_sz body, ws').
Proof. intros H Ha. rewrite H, alloc_grants, andb_false_r. exact Ha. Qed.

Definition digest_for (cookie : list Z) (challenge : Z) : list Z := rfc_md5 (cookie ++ dec challenge).

(** The connecting side, with an acknowledgement that carries [digest]. *)
Lemma connect_handshake_eq c s pkt_sz cc sc digest rs rs1 rs2 rs3 ws ws1 ws2 :
  hs_size pkt_sz -> node_wf c -> node_wf s -> in_u 32 sc -> zlen digest = 16 ->
  let reply := reply_msg (digest_for (ei_connect_cookie c) sc) cc in
  hs_arrives rs pkt_sz (status_msg (str "ok"%string)) rs1 -> hs_arrives rs1 pkt_sz (challenge_msg s sc) rs2 ->
  hs_arrives rs2 pkt_sz (ack_msg digest) rs3 ->
  accepts_all ws (hs_frame pkt_sz (name_msg c)) ws1 -> accepts_all ws1 (hs_frame pkt_sz reply) ws2 ->
  connect_handshake alloc junk c pkt_sz cc rs ws
  = if bool_decide (digest = digest_for (ei_connect_cookie c) cc)
    then ROk (c, hs_frame pkt_sz (name_msg c) ++ hs_frame pkt_sz reply, rs3, ws2) else RErr.
Proof.
  intros Hp Hc Hs Hsc Hd reply H1 H2 H3 W1 W2. unfold connect_handshake.
  rewrite (sends_ok _ _ _ _ _ (send_name_sends alloc junk junk_length pkt_sz c Hp) W1). cbn [rbind].
  rewrite (recv_status_ok _ _ _ _ Hp (wf_named _ Hc) H1). cbn [rbind].
  rewrite (recv_challenge_ok _ _ _ _ _ Hp Hs Hsc H2). cbn [rbind]. rewrite gen_digest_rfc by apply (wf_cookie _ Hc). cbn [ofopt rbind].
  rewrite (sends_ok _ _ _ _ _ (send_challenge_reply_sends alloc junk junk_length pkt_sz _ cc Hp (zlen_rfc_md5 _)) W2). cbn [rbind].
  rewrite (recv_challenge_ack_eq _ _ _ _ _ _ Hp (wf_cookie _ Hc) Hd H3). unfold digest_for. by destruct (bool_decide _).
Qed.

(** The accepting side, with a reply that carries [digest]. *)
Lemma accept_handshake_eq c s pkt_sz cc sc digest rs rs1 rs2 ws ws1 ws2 :
  hs_size pkt_sz -> node_wf c -> node_wf s -> in_u 32 cc -> zlen digest = 16 ->
  hs_arrives rs pkt_sz (name_msg c) rs1 -> hs_arrives rs1 pkt_sz (reply_msg digest cc) rs2 ->
  accepts_all ws (hs_frame pkt_sz (status_msg (str "ok"%string))) ws1 ->
  accepts_all ws1 (hs_frame pkt_sz (challenge_msg s sc)) ws2 ->
  accept_handshake alloc junk s pkt_sz sc rs ws
  = if bool_decide (digest = digest_for (ei_connect_cookie s) sc)
    then let~ (sent3, ws) := send_challenge_ack alloc junk ws2 pkt_sz (digest_for (ei_connect_cookie s) cc) in
         ROk (thisnodename c, wire_flags, hs_frame pkt_sz (status_msg (str "ok"%string)) ++
              hs_frame pkt_sz (challenge_msg s sc) ++ sent3, rs2, ws)
    else RErr.
Proof.
  intros Hp Hc Hs Hcc Hd H1 H2 W1 W2. unfold accept_handshake.
  rewrite (recv_name_ok _ _ _ _ Hp Hc H1). cbn [rbind]. closed_tests.
  rewrite (sends_ok _ _ _ _ _ (send_status_sends alloc junk junk_length pkt_sz _ Hp) W1). cbn [rbind].
  rewrite (sends_ok _ _ _ _ _ (send_challenge_sends alloc junk junk_length pkt_sz s sc Hp) W2). cbn [rbind].
  rewrite (recv_challenge_reply_eq _ _ _ _ _ _ _ Hp (wf_cookie _ Hs) Hd Hcc H2). unfold digest_for.
  destruct (bool_decide _); [|done]. cbn [rbind]. by rewrite gen_digest_rfc by apply (wf_cookie _ Hs).
Qed.

(** C4: two nodes with the same cookie complete the handshake: on what the
    accepting node sends, in any pieces, the connecting node succeeds, and on what
    the connecting node sends the accepting node succeeds and knows its name and
    its capabilities. *)
Theorem handshake_agrees c s pkt_sz cc sc :
  hs_size pkt_sz -> node_wf c -> node_wf s -> in_u 32 cc -> in_u 32 sc -> ei_connect_cookie c = ei_connect_cookie s ->
  let name := name_msg c in
  let status := status_msg (str "ok"%string) in
  let challenge := challenge_msg s sc in
  let reply := reply_msg (digest_for (ei_connect_cookie c) sc) cc in
  let ack := ack_msg (digest_for (ei_connect_cookie s) cc) in
    (forall rs rs1 rs2 rs3 ws ws1 ws2,
      hs_arrives rs pkt_sz status rs1 -> hs_arrives rs1 pkt_sz challenge rs2 -> hs_arrives rs2 pkt_sz ack rs3 ->
      accepts_all ws (hs_frame pkt_sz name) ws1 -> accepts_all ws1 (hs_frame pkt_sz reply) ws2 ->
      connect_handshake alloc junk c pkt_sz cc rs ws
      = ROk (c, hs_frame pkt_sz name ++ hs_frame pkt_sz reply, rs3, ws2)) /\
    (forall rs rs1 rs2 ws ws1 ws2 ws3,
      hs_arrives rs pkt_sz name rs1 -> hs_arrives rs1 pkt_sz reply rs2 ->
      accepts_all ws (hs_frame pkt_sz status) ws1 -> accepts_all ws1 (hs_frame pkt_sz challenge) ws2 ->
      accepts_all ws2 (hs_frame pkt_sz ack) ws3 ->
      accept_handshake alloc junk s pkt_sz sc rs ws
      = ROk (thisnodename c, wire_flags, hs_frame pkt_sz status ++ hs_frame pkt_sz challenge ++ hs_frame pkt_sz ack, rs2, ws3)).
Proof.
  intros Hp Hc Hs Hcc Hsc Hk name status challenge reply ack. split.
  - intros rs rs1 rs2 rs3 ws ws1 ws2 H1 H2 H3 W1 W2.
    rewrite (connect_handshake_eq c s pkt_sz cc sc _ _ _ _ _ _ _ _ Hp Hc Hs Hsc (zlen_rfc_md5 _) H1 H2 H3 W1 W2).
    by rewrite bool_decide_eq_true_2 by (by rewrite Hk).
  - intros rs rs1 rs2 ws ws1 ws2 ws3 H1 H2 W1 W2 W3.
    rewrite (accept_handshake_eq c s pkt_sz cc sc _ _ _ _ _ _ _ Hp Hc Hs Hcc (zlen_rfc_md5 _) H1 H2 W1 W2).
    rewrite bool_decide_eq_true_2 by (by rewrite Hk).
    by rewrite (sends_ok _ _ _ _ _ (send_challenge_ack_sends alloc junk junk_length pkt_sz (digest_for (ei_connect_cookie s) cc)
      Hp (zlen_rfc_md5 _)) W3).
Qed.

(** A node whose cookie gives another digest for the challenge is refused
    by the accepting node. *)
Theorem wrong_cookie_refused c s pkt_sz cc sc rs rs1 rs2 ws ws1 ws2 :
  hs_size pkt_sz -> node_wf c -> node_wf s -> in_u 32 cc ->
  digest_for (ei_connect_cookie c) sc <> digest_for (ei_connect_cookie s) sc ->
  hs_arrives rs pkt_sz (name_msg c) rs1 ->
  hs_arrives rs1 pkt_sz (reply_msg (digest_for (ei_connect_cookie c) sc) cc) rs2 ->
  accepts_all ws (hs_frame pkt_sz (status_msg (str "ok"%string))) ws1 ->
  accepts_all ws1 (hs_frame pkt_sz (challenge_msg s sc)) ws2 ->
  accept_handshake alloc junk s pkt_sz sc rs ws = RErr.
Proof.
  intros Hp Hc Hs Hcc Hne H1 H2 W1 W2.
  rewrite (accept_handshake_eq c s pkt_sz cc sc _ _ _ _ _ _ _ Hp Hc Hs Hcc (zlen_rfc_md5 _) H1 H2 W1 W2).
  by rewrite bool_decide_eq_false_2.
Qed.
End Agreement.

(** ** Samples *)

Definition node_c : ei_cnode :=
  {| thishostname := str "h"%string; thisnodename := str "c@h"%string; thisalivename := str "c"%string;
     ei_connect_cookie := str "monster"%string; ec_creation := 3; ec_self := pid_a; ec_pidsn := 0 |}.
Definition node_s : ei_cnode :=
  {| thishostname := str "h"%string; thisnodename := str "srv@h"%string; thisalivename := str "srv"%string;
     ei_connect_cookie := str "monster"%string; ec_creation := 5; ec_self := pid_a; ec_pidsn := 0 |}.
(** A node with another cookie. *)
Definition node_x : ei_cnode :=
  {| thishostname := str "h"%string; thisnodename := str "x@h"%string; thisalivename := str "x"%string;
     ei_connect_cookie := str "cookie"%string; ec_creation := 3; ec_self := pid_a; ec_pidsn := 0 |}.

Ltac all_bytes := cbv [str]; cbn; repeat (apply Forall_cons_2; [unfold byte_ok; lia|]); apply Forall_nil_2.
Ltac sample_wf := split; [done|all_bytes|all_bytes|by vm_compute|all_bytes].
Lemma node_c_wf : node_wf node_c.
Proof. sample_wf. Qed.
Lemma node_s_wf : node_wf node_s.
Proof. sample_wf. Qed.
Lemma node_x_wf : node_wf node_x.
Proof. sample_wf. Qed.

(** A packet in three pieces. *)
Definition pieces (body : list Z) : list cread := [CRead (size_field 2 (zlen body)); CRead (take 1 body); CRead (drop 1 body)].
Definition taken (body : list Z) : cwrite := CWrote (zlen (hs_frame 2 body)).

Lemma pieces_arrive body rs : 1 < zlen body -> hs_arrives (pieces body ++ rs) 2 body rs.
Proof.
  intros Hl. exists (CRead (take 1 body) :: CRead (drop 1 body) :: rs). split.
  - pose proof (ei_read_fill_chunks [size_field 2 (zlen body)] (CRead (take 1 body) :: CRead (drop 1 body) :: rs)) as H.
    cbn [concat] in H. rewrite app_nil_r in H. apply H; [done|]. constructor; [|constructor].
    intros E%(f_equal zlen). by rewrite zlen_size_field in E by (by left).
  - pose proof (ei_read_fill_chunks [take 1 body; drop 1 body] rs) as H. cbn [concat] in H. rewrite app_nil_r, take_drop in H.
    apply H; [done|]. destruct body as [|a [|b body]]; [by vm_compute in Hl..|]. repeat constructor; done.
Qed.

Lemma taken_accepts body ws : accepts_all (taken body :: ws) (hs_frame 2 body) ws.
Proof.
  unfold accepts_all, write_all, taken. cbn [ei_write_fill]. pose proof (zlen_nonneg (hs_frame 2 body)).
  set (n := zlen (hs_frame 2 body)) in *. replace ((n <? 0) || (n <? n)) with false by lia. replace (n <? n) with false by lia.
  by rewrite !Z.eqb_refl.
Qed.

Lemma handshake_agrees_witness :
  let name := name_msg node_c in
  let status := status_msg (str "ok"%string) in
  let challenge := challenge_msg node_s 77 in
  let reply := reply_msg (digest_for (ei_connect_cookie node_c) 77) 99 in
  let ack := ack_msg (digest_for (ei_connect_cookie node_s) 99) in
  connect_handshake (fun _ => true) zeros node_c 2 99 (pieces status ++ pieces challenge ++ pieces ack ++ []) [taken name; taken reply]
  = ROk (node_c, hs_frame 2 name ++ hs_frame 2 reply, [], []) /\
  accept_handshake (fun _ => true) zeros node_s 2 77 (pieces name ++ pieces reply ++ []) [taken status; taken challenge; taken ack]
  = ROk (thisnodename node_c, wire_flags, hs_frame 2 status ++ hs_frame 2 challenge ++ hs_frame 2 ack, [], []).
Proof.
  intros name status challenge reply ack.
  destruct (handshake_agrees (fun _ => true) zeros zeros_length (fun _ => eq_refl) node_c node_s 2 99 77
    (or_introl eq_refl) node_c_wf node_s_wf ltac:(unfold in_u; lia) ltac:(unfold in_u; lia) eq_refl) as [Hc Hs]. split.
  - exact (Hc _ _ _ _ _ _ _ (pieces_arrive status _ ltac:(by vm_compute)) (pieces_arrive challenge _ ltac:(by vm_compute))
      (pieces_arrive ack [] ltac:(by vm_compute)) (taken_accepts name _) (taken_accepts reply [])).
  - exact (Hs _ _ _ _ _ _ _ (pieces_arrive name _ ltac:(by vm_compute)) (pieces_arrive reply [] ltac:(by vm_compute))
      (taken_accepts status _) (taken_accepts challenge _) (taken_accepts ack [])).
Defined.

Lemma wrong_cookie_refused_witness :
  let reply := reply_msg (digest_for (ei_connect_cookie node_x) 77) 99 in
  accept_handshake (fun _ => true) zeros node_s 2 77 (pieces (name_msg node_x) ++ pieces reply ++ [])
    [taken (status_msg (str "ok"%string)); taken (challenge_msg node_s 77)] = RErr.
Proof.
  intros reply. apply (wrong_cookie_refused (fun _ => true) zeros zeros_length (fun _ => eq_refl) node_x node_s 2 99 77
    _ _ _ _ _ _ (or_introl eq_refl) node_x_wf node_s_wf ltac:(unfold in_u; lia) ltac:(vm_compute; congruence)
    (pieces_arrive (name_msg node_x) _ ltac:(by vm_compute)) (pieces_arrive reply [] ltac:(by vm_compute))
    (taken_accepts _ _) (taken_accepts _ [])).
Defined.

Lemma handshake_safe_witness :
  safe (connect_handshake (fun _ => false) zeros node_c 2 99 [CRead [255; 255]; CRead [1]] [CWrote 20]) /\
  safe (accept_handshake (fun _ => false) zeros node_c 2 99 [CRead [0; 8]; CRead [78; 1; 2; 3; 4; 5; 6; 7]] []).
Proof.
  split; apply (handshake_safe (fun _ => false) zeros zeros_length node_c 99); [done|apply node_c_wf|done|apply node_c_wf].
Defined.

Lemma handshake_authenticates_witness :
  let reply := reply_msg (digest_for (ei_connect_cookie node_c) 77) 99 in
  let rs := pieces (name_msg node_c) ++ pieces reply in
  digest_read rs 21 (digest_for (ei_connect_cookie node_s) 77) [].
Proof.
  intros reply rs.
  refine (proj2 (handshake_authenticates (fun _ => true) zeros zeros_length node_s 2 77 rs
    [taken (status_msg (str "ok"%string)); taken (challenge_msg node_s 77); CWrote 19] (wf_cookie _ node_s_wf)) _ _ _ _ _ _).
  vm_compute. reflexivity.
Defined.

(** ** Answers that are not handled *)

(** A node without a name of its own, which asks the peer for one. *)
Definition node_d : ei_cnode :=
  {| thishostname := str "h"%string; thisnodename := []; thisalivename := []; ei_connect_cookie := str "monster"%string;
     ec_creation := 0; ec_self := pid_a; ec_pidsn := 0 |}.

Definition named_msg (namelen : Z) (rest : list Z) : list Z := str "snamed:"%string ++ be_bytes 2 namelen ++ rest.

(** A name of 256 bytes is accepted; with its [@] at the end, the alive name and
    its NUL need 256 bytes of the 255 that [thisalivename] has.  The byte behind
    the array is the first one of the cookie. *)
Theorem recv_status_overflow :
  recv_status (fun _ => true) zeros (pieces (named_msg 256 (replicate 255 97 ++ [64] ++ be_bytes 4 1))) node_d 2 = ROob.
Proof. vm_compute. reflexivity. Qed.

(** A name that does not fit its packet: the buffer, which was allocated, is
    freed at the position behind the tag. *)
Theorem recv_status_bad_free :
  recv_status (fun _ => true) zeros (pieces (named_msg 300 (replicate 100 97))) node_d 2 = ROob.
Proof. vm_compute. reflexivity. Qed.

(** A name that fits is taken over. *)
Example recv_status_named :
  exists ec, recv_status (fun _ => true) zeros (pieces (named_msg 5 (str "dyn@h"%string ++ be_bytes 4 9))) node_d 2 = ROk (ec, []) /\
    thisnodename ec = str "dyn@h"%string /\ thisalivename ec = str "dyn"%string /\ ec_creation ec = 9 /\
    ei_connect_cookie ec = ei_connect_cookie node_d.
Proof. eexists. vm_compute. by split_and!. Qed.

(** The complement of a name in the old format, a tag and two 32-bit numbers, is
    refused: a packet of 21 bytes is expected. *)
Theorem complement_refused alloc junk flags high creation rs' rs :
  (forall n, length (junk n) = n) -> (forall n, alloc n = true) ->
  hs_arrives rs 2 ([99] ++ be_bytes 4 high ++ be_bytes 4 creation) rs' ->
  recv_complement alloc junk rs 2 flags = RErr.
Proof.
  intros Hj Hal Ha. unfold recv_complement.
  destruct (read_package_ok alloc junk Hj Hal rs 2 _ rs' (or_introl eq_refl) Ha) as (buf & bl & st & -> & _); [zlen_lia|].
  cbn [rbind]. by replace (zlen ([99] ++ be_bytes 4 high ++ be_bytes 4 creation)) with 9 by zlen_lia.
Qed.

(** With headers of four bytes a length with its highest bit set is negative, and
    is not checked. *)
Theorem negative_package alloc junk rs rs' n :
  (forall n, length (junk n) = n) -> 2 ^ 31 <= n < 2 ^ 32 -> delivers rs (be_bytes 4 n) rs' ->
  read_package alloc junk rs 4 = ROob.
Proof.
  intros Hj Hn Hd. unfold read_package, read_hs_package.
  destruct (read_exact_ok _ (junk 4%nat) 0 _ _ 4 Hd) as (nb & -> & Hs); [done|lia|unfold zlen; rewrite Hj; lia|].
  cbn [rbind]. apply store_holds in Hs. rewrite <- (app_nil_r (be_bytes 4 _)) in Hs. closed_tests.
  destruct (get32be_holds _ _ _ _ Hs) as [-> _]. cbn [ofopt rbind].
  assert (wraps 32 n = n - 2 ^ 32) as -> by (unfold wraps; Z.div_mod_to_equations; lia).
  set (k := n - 2 ^ 32) in *. assert (k < 0) by lia. change DEFBUF_SIZ with 100. replace (100 <? k) with false by lia.
  cbn [rbind]. unfold read_exact, read_into. replace (k <? 0) with true by lia. by rewrite orb_true_r.
Qed.
