(* ===== verification/EiId.v ===== *)
(** * Identifiers: [ei_self], [ei_make_pid] and [ei_make_ref] of
    [connect/ei_connect.c]

    New pids and references are numbered by counters that the threads of a
    program share.  Where the compiler has atomic operations the counters are
    advanced with compare-and-exchange, otherwise under a lock; both forms are
    modelled, the first one for every interleaving of the threads. *)
From S2P Require Import Prelude PutGet EiTypes EiAtom EiNode EpmdStr EiMsg EiConnect.

(** ** The code *)

(** The loop over [thisnodename], an array of [MAXNODELEN+1] characters: whether
    it saw an [@], and whether it saw the end. *)
Fixpoint check_loop (nodename : list Z) (at_ : bool) : bool * bool :=
  match nodename with
  | [] => (at_, false)
  | c :: rest => if c =? 0 then (at_, true) else check_loop rest (at_ || (c =? 64))
  end.

(** The array holds the name and a NUL, if there is room for it. *)
Definition check_initialized_node (ec : ei_cnode) : Z :=
  let '(at_, end_) := check_loop (take (Z.to_nat (MAXNODELEN + 1)) (thisnodename ec ++ [0])) false in
  if negb at_ || negb end_ then ERL_ERROR else 0.

Definition ei_self (ec : ei_cnode) : option erlang_pid :=
  if negb (check_initialized_node ec =? 0) then None else Some (ec_self ec).

(** The number that follows [pidsn]. *)
Definition next_pidsn (pidsn : Z) : Z :=
  let new := wrapu 32 (pidsn + 1) in
  if Z.land new 0x0fff8000 =? 0 then 0x8000 else new.

Definition pid_of (ec : ei_cnode) (new : Z) : erlang_pid :=
  {| pid_node := thisnodename ec; pid_num := Z.land new 0x7fff; pid_serial := Z.land (Z.shiftr new 15) 0x1fff;
     pid_creation := ec_creation ec |}.

Definition set_pidsn (new : Z) (ec : ei_cnode) : ei_cnode :=
  {| thishostname := thishostname ec; thisnodename := thisnodename ec; thisalivename := thisalivename ec;
     ei_connect_cookie := ei_connect_cookie ec; ec_creation := ec_creation ec; ec_self := ec_self ec; ec_pidsn := new |}.

(** The value returned, [*pid], and the node; one thread, or the lock held. *)
Definition ei_make_pid (ec : ei_cnode) (pid : erlang_pid) : Z * erlang_pid * ei_cnode :=
  let err := check_initialized_node ec in
  if negb (err =? 0) then
    (err, {| pid_node := [0xff]; pid_num := wrapu 32 (-1); pid_serial := wrapu 32 (-1); pid_creation := pid_creation pid |}, ec)
  else
    let new := next_pidsn (ec_pidsn ec) in
    (0, pid_of ec new, set_pidsn new ec).

(** [ref_count[0]], [ref_count[1]] and [ref_count[2]]. *)
Record ref_count := { rc0 : Z; rc1 : Z; rc2 : Z }.

Definition next_ref_count (c : ref_count) : ref_count :=
  let c0 := Z.land (wrapu 32 (rc0 c + 1)) 0x3ffff in
  if c0 =? 0 then
    let c1 := Z.land (wrapu 32 (rc1 c + 1)) 0xffffffff in
    if c1 =? 0 then {| rc0 := c0; rc1 := c1; rc2 := Z.land (wrapu 32 (rc2 c + 1)) 0xffffffff |}
    else {| rc0 := c0; rc1 := c1; rc2 := rc2 c |}
  else {| rc0 := c0; rc1 := rc1 c; rc2 := rc2 c |}.

Definition no_ref (ref : erlang_ref) : erlang_ref :=
  {| ref_node := [0xff]; ref_len := -1; ref_n := ref_n ref; ref_creation := ref_creation ref |}.

(** With the lock. *)
Definition ei_make_ref_locked (ec : ei_cnode) (ref : erlang_ref) (c : ref_count) : Z * erlang_ref * ref_count :=
  let err := check_initialized_node ec in
  if negb (err =? 0) then (err, no_ref ref, c)
  else (0, {| ref_node := thisnodename ec; ref_len := 3; ref_n := [rc0 c; rc1 c; rc2 c; 0; 0]; ref_creation := ec_creation ec |},
        next_ref_count c).

(** The three numbers of the 64-bit counter, after which [n[3]] and [n[4]] stay
    what they are. *)
Definition ref_words (new : Z) : list Z :=
  [Z.land new 0x3ffff; Z.land (Z.shiftr new 18) 0xffffffff; Z.land (Z.shiftr new (18 + 32)) 0xffffffff].
Definition ref_of (ec : ei_cnode) (ref : erlang_ref) (new : Z) : erlang_ref :=
  {| ref_node := thisnodename ec; ref_len := 3; ref_n := ref_words new ++ drop 3 (ref_n ref); ref_creation := ec_creation ec |}.
Definition next_ref (xchg : Z) : Z := wrapu 64 (xchg + 1).

(** ** Compare-and-exchange

    A thread loads the counter, computes the next value, and stores it if the
    counter is unchanged; otherwise it goes on with the value it found. *)
Inductive thread := Idle | Loaded (xchg : Z).
Record shared := { counter : Z; threads : list thread; handed : list Z }.

(** The next step of thread [i]; [handed] are the values with which the function
    has returned, the newest first. *)
Definition cas_step (next : Z -> Z) (i : nat) (s : shared) : shared :=
  match threads s !! i with
  | None => s
  | Some Idle => {| counter := counter s; threads := <[i:=Loaded (counter s)]> (threads s); handed := handed s |}
  | Some (Loaded xchg) =>
      if counter s =? xchg then
        {| counter := next xchg; threads := <[i:=Idle]> (threads s); handed := next xchg :: handed s |}
      else {| counter := counter s; threads := <[i:=Loaded (counter s)]> (threads s); handed := handed s |}
  end.

(** A schedule names the threads in the order of their steps. *)
Definition cas_run (next : Z -> Z) (schedule : list nat) (s : shared) : shared :=
  fold_left (fun s i => cas_step next i s) schedule s.

Definition cas_start (c : Z) (n : nat) : shared := {| counter := c; threads := replicate n Idle; handed := [] |}.

(** ** Every interleaving is an order *)

(** The first [n] values after [c]. *)
Definition issued {A} (next : A -> A) (c : A) (n : nat) : list A := map (fun k => Nat.iter k next c) (seq 1 n).

Lemma issued_snoc {A} (next : A -> A) c n : issued next c (S n) = issued next c n ++ [Nat.iter (S n) next c].
Proof. unfold issued. rewrite seq_S, map_app. done. Qed.

Definition ordered (next : Z -> Z) (c : Z) (s : shared) : Prop :=
  counter s = Nat.iter (length (handed s)) next c /\ reverse (handed s) = issued next c (length (handed s)).

Lemma cas_step_ordered next c i s : ordered next c s -> ordered next c (cas_step next i s).
Proof.
  intros [Hc Hh]. unfold cas_step. destruct (threads s !! i) as [[|x]|]; [done| |done].
  destruct (Z.eqb_spec (counter s) x) as [<-|]; [|done]. split; cbn [counter handed length].
  - by rewrite Hc.
  - rewrite reverse_cons, Hh, issued_snoc. cbn [Nat.iter nat_rect]. by rewrite Hc.
Qed.

Lemma cas_run_ordered next c schedule n : ordered next c (cas_run next schedule (cas_start c n)).
Proof.
  unfold cas_run. assert (ordered next c (cas_start c n)) as H by done. revert H. generalize (cas_start c n).
  induction schedule as [|i schedule IH]; intros s H; cbn [fold_left]; [done|]. by apply IH, cas_step_ordered.
Qed.

Lemma handed_lookup next c s i x :
  ordered next c s -> handed s !! i = Some x -> exists k, x = Nat.iter (S k) next c /\ (k + i + 1 = length (handed s))%nat.
Proof.
  intros [_ Hh] Hi. pose proof (lookup_lt_Some _ _ _ Hi) as Hl.
  exists (length (handed s) - i - 1)%nat. split; [|lia].
  assert (reverse (handed s) !! (length (handed s) - i - 1)%nat = Some x) as Hr.
  { rewrite reverse_lookup by lia. rewrite <- Hi. f_equal. lia. }
  rewrite Hh in Hr. unfold issued in Hr. rewrite list_lookup_fmap, lookup_seq_lt in Hr by lia. injection Hr as <-.
  reflexivity.
Qed.

(** ** The numbers of pids *)

Lemma land_middle x : Z.land x 0x0fff8000 = Z.shiftl (Z.shiftr x 15 mod 2 ^ 13) 15.
Proof.
  rewrite <- Z.land_ones by lia. change 0x0fff8000 with (Z.shiftl (Z.ones 13) 15).
  apply Z.bits_inj'. intros k Hk. rewrite Z.land_spec, !Z.shiftl_spec by lia.
  destruct (Z.ltb_spec k 15) as [H|H].
  - rewrite !(Z.testbit_neg_r _ (k - 15)) by lia. by rewrite andb_false_r.
  - rewrite Z.land_spec, Z.shiftr_spec by lia. by replace (k - 15 + 15) with k by lia.
Qed.

Definition PIDS : Z := 2 ^ 28 - 2 ^ 15.

Lemma next_pidsn_small k : 0 <= k < PIDS -> next_pidsn (0x8000 + k) = 0x8000 + (k + 1) mod PIDS.
Proof.
  unfold PIDS. intros Hk. unfold next_pidsn. rewrite wrapu_small by (unfold in_u; lia). rewrite land_middle.
  rewrite Z.shiftr_div_pow2, Z.shiftl_mul_pow2 by lia.
  destruct (Z.eqb_spec k (2 ^ 28 - 2 ^ 15 - 1)) as [->|Hne]; [by vm_compute|].
  rewrite (Z.mod_small (k + 1)) by lia.
  destruct (Z.eqb_spec (((0x8000 + k + 1) / 2 ^ 15) mod 2 ^ 13 * 2 ^ 15) 0) as [E|_]; [|lia].
  exfalso. assert (1 <= (0x8000 + k + 1) / 2 ^ 15 < 2 ^ 13) by (split; [apply Z.div_le_lower_bound|apply Z.div_lt_upper_bound]; lia).
  rewrite Z.mod_small in E by lia. lia.
Qed.

Lemma iter_next_pidsn k : Nat.iter (S k) next_pidsn 0 = 0x8000 + Z.of_nat k mod PIDS.
Proof.
  induction k as [|k IH]; [by vm_compute|]. change (Nat.iter (S (S k)) next_pidsn 0) with (next_pidsn (Nat.iter (S k) next_pidsn 0)).
  rewrite IH, next_pidsn_small by (apply Z.mod_pos_bound; by vm_compute). f_equal.
  rewrite Z.add_mod_idemp_l by (by vm_compute). f_equal. lia.
Qed.

(** Both numbers together are the lowest 28 bits. *)
Lemma pid_of_inj ec x y : 0 <= x < 2 ^ 28 -> 0 <= y < 2 ^ 28 -> pid_of ec x = pid_of ec y -> x = y.
Proof.
  intros Hx Hy E. assert (forall z, 0 <= z < 2 ^ 28 -> z = pid_num (pid_of ec z) + 2 ^ 15 * pid_serial (pid_of ec z)) as H.
  { intros z Hz. cbn [pid_of pid_num pid_serial]. change 0x7fff with (Z.ones 15). change 0x1fff with (Z.ones 13).
    rewrite !Z.land_ones, Z.shiftr_div_pow2 by lia. rewrite (Z.mod_small (z / 2 ^ 15)); [Z.div_mod_to_equations; lia|].
    split; [apply Z.div_pos; lia|apply Z.div_lt_upper_bound; lia]. }
  rewrite (H x Hx), (H y Hy), E. done.
Qed.

Lemma pid_of_serial ec x : 2 ^ 15 <= x < 2 ^ 28 -> pid_serial (pid_of ec x) <> 0.
Proof.
  intros Hx. cbn [pid_of pid_serial]. change 0x1fff with (Z.ones 13). rewrite Z.land_ones, Z.shiftr_div_pow2 by lia.
  assert (1 <= x / 2 ^ 15 < 2 ^ 13) by (split; [apply Z.div_le_lower_bound|apply Z.div_lt_upper_bound]; lia).
  rewrite Z.mod_small by lia. lia.
Qed.

(** ** The numbers of references *)

Lemma iter_next_ref k c : in_u 64 c -> Nat.iter k next_ref c = wrapu 64 (c + Z.of_nat k).
Proof.
  intros Hc. induction k as [|k IH]; cbn [Nat.iter nat_rect]; [by rewrite Z.add_0_r, wrapu_small|].
  fold (Nat.iter k next_ref c). rewrite IH. unfold next_ref, wrapu. rewrite Z.add_mod_idemp_l by lia. f_equal. lia.
Qed.

Lemma wrapu_distinct w c a b : 0 <= w -> 0 <= a -> a < b -> b - a < 2 ^ w -> wrapu w (c + a) <> wrapu w (c + b).
Proof.
  intros Hw Ha Hab Hd E. unfold wrapu in E. assert (0 < 2 ^ w) as Hp by (apply Z.pow_pos_nonneg; lia).
  assert ((b - a) mod 2 ^ w = 0) as H0.
  { replace (b - a) with ((c + b) - (c + a)) by lia. rewrite Zminus_mod, <- E, Z.sub_diag. apply Z.mod_0_l. lia. }
  rewrite Z.mod_small in H0 by lia. lia.
Qed.

Lemma ref_words_inj x y : in_u 64 x -> in_u 64 y -> ref_words x = ref_words y -> x = y.
Proof.
  intros Hx Hy. assert (forall z, in_u 64 z -> exists a b c, ref_words z = [a; b; c] /\ z = a + 2 ^ 18 * b + 2 ^ 50 * c) as H.
  { intros z Hz. unfold ref_words. eexists _, _, _. split; [reflexivity|]. change 0x3ffff with (Z.ones 18).
    change 0xffffffff with (Z.ones 32). rewrite !Z.land_ones, !Z.shiftr_div_pow2 by lia. unfold in_u in Hz.
    rewrite (Z.mod_small (z / 2 ^ (18 + 32))) by (split; [apply Z.div_pos|apply Z.div_lt_upper_bound]; lia).
    Z.div_mod_to_equations. lia. }
  destruct (H x Hx) as (a & b & c & -> & ->), (H y Hy) as (a' & b' & c' & -> & ->). by intros [= -> -> ->].
Qed.

Definition ref_count_wf (c : ref_count) : Prop := in_u 18 (rc0 c) /\ in_u 32 (rc1 c) /\ in_u 32 (rc2 c).
Definition ref_value (c : ref_count) : Z := rc0 c + 2 ^ 18 * rc1 c + 2 ^ 50 * rc2 c.

Lemma next_ref_count_value c :
  ref_count_wf c -> ref_count_wf (next_ref_count c) /\ ref_value (next_ref_count c) = wrapu 82 (ref_value c + 1).
Proof.
  destruct c as [a b d]. unfold ref_count_wf, ref_value, next_ref_count, in_u. cbn [rc0 rc1 rc2]. intros (Ha & Hb & Hd).
  change 0x3ffff with (Z.ones 18). change 0xffffffff with (Z.ones 32). rewrite !Z.land_ones by lia. unfold wrapu.
  rewrite (Z.mod_small (a + 1) (2 ^ 32)) by lia. rewrite !Z.mod_mod by lia.
  destruct (Z.eqb_spec ((a + 1) mod 2 ^ 18) 0) as [Ea|Ea].
  - assert (a = 2 ^ 18 - 1) as -> by (Z.div_mod_to_equations; lia).
    destruct (Z.eqb_spec ((b + 1) mod 2 ^ 32) 0) as [Eb|Eb]; cbn [rc0 rc1 rc2].
    + assert (b = 2 ^ 32 - 1) as -> by (Z.div_mod_to_equations; lia). rewrite Ea, Eb.
      destruct (Z.eqb_spec d (2 ^ 32 - 1)) as [->|]; [by vm_compute|].
      rewrite (Z.mod_small (d + 1)) by lia. rewrite Z.mod_small by lia. lia.
    + assert (b <> 2 ^ 32 - 1) by (intros ->; by vm_compute in Eb). rewrite Ea, (Z.mod_small (b + 1)), Z.mod_small by lia. lia.
  - assert (a <> 2 ^ 18 - 1) by (intros ->; by vm_compute in Ea). cbn [rc0 rc1 rc2].
    rewrite (Z.mod_small (a + 1)), Z.mod_small by lia. lia.
Qed.

Lemma iter_next_ref_count k c :
  ref_count_wf c -> ref_count_wf (Nat.iter k next_ref_count c) /\
    ref_value (Nat.iter k next_ref_count c) = wrapu 82 (ref_value c + Z.of_nat k).
Proof.
  intros Hc. induction k as [|k [Hw IH]]; cbn [Nat.iter nat_rect].
  - split; [done|]. rewrite Z.add_0_r, wrapu_small; [done|]. destruct Hc as (? & ? & ?). unfold in_u, ref_value in *. lia.
  - fold (Nat.iter k next_ref_count c). destruct (next_ref_count_value _ Hw) as [Hw' ->]. split; [done|].
    rewrite IH. unfold wrapu. rewrite Z.add_mod_idemp_l by lia. f_equal. lia.
Qed.

(** ** Properties *)

(** The pids of [k] calls of the locked form, one after the other. *)
Fixpoint seq_pids (k : nat) (ec : ei_cnode) (pid : erlang_pid) : list erlang_pid :=
  match k with
  | O => []
  | S k => let '(_, pid, ec) := ei_make_pid ec pid in pid :: seq_pids k ec pid
  end.

Lemma seq_pids_issued k ec pid :
  check_initialized_node ec = 0 -> seq_pids k ec pid = map (pid_of ec) (issued next_pidsn (ec_pidsn ec) k).
Proof.
  revert ec pid. induction k as [|k IH]; intros ec pid Hc; [done|]. cbn [seq_pids]. unfold ei_make_pid. rewrite Hc. cbn [Z.eqb negb].
  rewrite IH by done. unfold issued. cbn [seq map]. f_equal. rewrite <- (seq_shift k 1), !map_map. apply map_ext. intros j.
  cbn [set_pidsn ec_pidsn]. by rewrite Nat.iter_succ_r.
Qed.

(** C35: however the threads that call [ei_make_pid] interleave, the pids they
    get are those that as many calls one after the other give, in the order in
    which the compare-and-exchanges succeed. *)
Theorem make_pid_linearizable ec pid n schedule :
  check_initialized_node ec = 0 ->
  let s := cas_run next_pidsn schedule (cas_start (ec_pidsn ec) n) in
  map (pid_of ec) (reverse (handed s)) = seq_pids (length (handed s)) ec pid.
Proof.
  intros Hc s. rewrite seq_pids_issued by done. f_equal. apply (cas_run_ordered next_pidsn (ec_pidsn ec) schedule n).
Qed.

(** C36: of the pids that a node that was just set up hands out to all of its
    threads, no one, the first one included, has serial 0, the serial of
    [ei_self], and two of them are different unless 2^28 - 2^15 or more were
    handed out from the one to the other. *)
Theorem make_pid_unique ec n schedule :
  let s := cas_run next_pidsn schedule (cas_start 0 n) in
  (forall (i : nat) x, handed s !! i = Some x -> pid_serial (pid_of ec x) <> 0) /\
  (forall (i j : nat) x y, handed s !! i = Some x -> handed s !! j = Some y -> (i < j)%nat -> Z.of_nat (j - i) < 2 ^ 28 - 2 ^ 15 ->
     pid_of ec x <> pid_of ec y).
Proof.
  intros s. pose proof (cas_run_ordered next_pidsn 0 schedule n : ordered next_pidsn 0 s) as Ho.
  assert (forall k, 0 <= Z.of_nat k mod PIDS < PIDS) as B by (intros k; apply Z.mod_pos_bound; by vm_compute). unfold PIDS in B. split.
  - intros i x Hi. destruct (handed_lookup _ _ _ _ _ Ho Hi) as (k & -> & Hk). rewrite iter_next_pidsn.
    specialize (B k). apply pid_of_serial; unfold PIDS; lia.
  - intros i j x y Hi Hj Hij Hd.
    destruct (handed_lookup _ _ _ _ _ Ho Hi) as (k & -> & Hk), (handed_lookup _ _ _ _ _ Ho Hj) as (l & -> & Hl).
    rewrite !iter_next_pidsn. pose proof (B k) as Bk. pose proof (B l) as Bl. unfold PIDS in *.
    intros E%pid_of_inj; [|lia..]. assert ((Z.of_nat k - Z.of_nat l) mod (2 ^ 28 - 2 ^ 15) = 0) as H0.
    { rewrite Zminus_mod. replace (Z.of_nat k mod (2 ^ 28 - 2 ^ 15)) with (Z.of_nat l mod (2 ^ 28 - 2 ^ 15)) by lia.
      by rewrite Z.sub_diag. }
    rewrite Z.mod_small in H0 by lia. lia.
Qed.

(** Two references are different unless 2^64 of them were made in between
    with the atomic counter, or 2^82 with the locked one. *)
Theorem make_ref_unique :
  (forall n schedule i j x y,
     let s := cas_run next_ref schedule (cas_start 0 n) in
     handed s !! i = Some x -> handed s !! j = Some y -> (i < j)%nat -> Z.of_nat (j - i) < 2 ^ 64 ->
     ref_words x <> ref_words y) /\
  (forall c k l, ref_count_wf c -> (k < l)%nat -> Z.of_nat (l - k) < 2 ^ 82 ->
     Nat.iter k next_ref_count c <> Nat.iter l next_ref_count c).
Proof.
  split.
  - intros n schedule i j x y s Hi Hj Hij Hd. pose proof (cas_run_ordered next_ref 0 schedule n : ordered next_ref 0 s) as Ho.
    destruct (handed_lookup _ _ _ _ _ Ho Hi) as (k & -> & Hk), (handed_lookup _ _ _ _ _ Ho Hj) as (l & -> & Hl).
    assert (in_u 64 0) as H0 by (unfold in_u; lia). rewrite !iter_next_ref by done.
    intros E%ref_words_inj; [|apply wrapu_range; lia..]. symmetry in E. revert E. apply wrapu_distinct; lia.
  - intros c k l Hc Hkl Hd E%(f_equal ref_value). revert E.
    rewrite (proj2 (iter_next_ref_count k c Hc)), (proj2 (iter_next_ref_count l c Hc)). apply wrapu_distinct; lia.
Qed.

(** A pid or reference made for a node that has no name yet is refused by
    the encoders, and the counters stay. *)
Theorem unnamed_not_encodable ec pid ref c :
  check_initialized_node ec <> 0 ->
  (exists p, ei_make_pid ec pid = (ERL_ERROR, p, ec) /\ Refuses (fun b i => ei_encode_pid b i p)) /\
  (exists r, ei_make_ref_locked ec ref c = (ERL_ERROR, r, c) /\ Refuses (fun b i => ei_encode_ref b i r)).
Proof.
  intros Hc. assert (check_initialized_node ec = ERL_ERROR) as E.
  { unfold check_initialized_node in *. destruct (check_loop _ _) as [a e]. by destruct (negb a || negb e). }
  split.
  - unfold ei_make_pid. rewrite E. eexists. split; [reflexivity|]. apply emits_refuses.
    assert (bytes_ok [0xff]) as Hok by (repeat constructor; lia).
    exact (ei_encode_pid_emits {| pid_node := [0xff]; pid_num := _; pid_serial := _; pid_creation := _ |} Hok).
  - unfold ei_make_ref_locked. rewrite E. eexists. split; [reflexivity|]. intros m i. unfold ei_encode_ref. cbn [no_ref ref_node].
    pose proof (ei_encode_atom_len_as_emits [0xff] 1 ERLANG_UTF8 (Z.lor ERLANG_LATIN1 ERLANG_UTF8)
      ltac:(repeat constructor; lia) ltac:(vm_compute; split; congruence)) as [Hn Hb].
    change (zlen [0xff]) with 1. split.
    + destruct (Hn (i + (1 + 2))) as [j ->]. eauto.
    + destruct (Hb m (i + (1 + 2))) as [->|[j ->]]; eauto.
Qed.

(** ** Samples *)

(** Three threads; the second one loses its first exchange to the first one. *)
Definition sample_schedule : list nat := [0; 1; 0; 1; 2; 1; 2; 2; 0; 0]%nat.

Lemma make_pid_linearizable_witness :
  let s := cas_run next_pidsn sample_schedule (cas_start 0 3) in
  map (pid_of node_c) (reverse (handed s)) = seq_pids 4 node_c pid_a /\ handed s = [0x8003; 0x8002; 0x8001; 0x8000].
Proof.
  split; [|by vm_compute]. apply (make_pid_linearizable node_c pid_a 3 sample_schedule). by vm_compute.
Defined.

Lemma make_pid_unique_witness :
  pid_of node_c 0x8003 <> pid_of node_c 0x8001 /\ pid_serial (pid_of node_c 0x8000) <> 0.
Proof.
  split.
  - apply (proj2 (make_pid_unique node_c 3 sample_schedule) 0%nat 2%nat); [by vm_compute|by vm_compute|lia|by vm_compute].
  - by apply (proj1 (make_pid_unique node_c 3 sample_schedule) 3%nat); vm_compute.
Defined.

Lemma make_ref_unique_witness :
  ref_words 4 <> ref_words 2 /\
  Nat.iter 0 next_ref_count {| rc0 := 0x3ffff; rc1 := 0xffffffff; rc2 := 7 |}
    <> Nat.iter 1 next_ref_count {| rc0 := 0x3ffff; rc1 := 0xffffffff; rc2 := 7 |}.
Proof.
  split.
  - apply (proj1 make_ref_unique 3%nat sample_schedule 0%nat 2%nat); [by vm_compute|by vm_compute|lia|by vm_compute].
  - apply (proj2 make_ref_unique); [|lia|by vm_compute]. unfold ref_count_wf, in_u. cbn. lia.
Defined.

Lemma unnamed_not_encodable_witness :
  exists p, ei_make_pid node_d pid_a = (ERL_ERROR, p, node_d) /\ Refuses (fun b i => ei_encode_pid b i p).
Proof.
  apply (unnamed_not_encodable node_d pid_a {| ref_node := []; ref_len := 0; ref_n := []; ref_creation := 0 |}
    {| rc0 := 0; rc1 := 0; rc2 := 0 |}). by vm_compute.
Defined.
