(* ===== verification/EiSock.v ===== *)
(** * The table of connections: [put_ei_socket_info], [get_ei_socket_info] and
    the functions on top of them in [connect/ei_connect.c]

    What the library keeps of a connection is found by its descriptor.  There are
    two implementations, chosen when the library is compiled: an array of
    segments that are allocated when they are needed, and a list that is
    searched.  The first one is proved to be a finite map. *)
From stdpp Require Import gmap.
From S2P Require Import Prelude PutGet EiTypes EiPort EpmdStr EiMsg EiConnect.

Definition EBADF : Z := 9.
Definition EI_MAX_COOKIE_SIZE : Z := 512.
Definition EI_SOCKET_INFO_SEG_BITS : Z := 5.
Definition EI_SOCKET_INFO_SEG_SIZE : Z := Z.shiftl 1 EI_SOCKET_INFO_SEG_BITS.
Definition EI_SOCKET_INFO_SEG_MASK : Z := EI_SOCKET_INFO_SEG_SIZE - 1.

(** [si_cbs] and [si_ctx] are pointers, [None] is NULL; [si_cookie] is the string
    in the array [cookie[EI_MAX_COOKIE_SIZE+1]]. *)
Record ei_socket_info := {
  si_socket : Z; si_cbs : option Z; si_ctx : option Z; si_dist_version : Z; si_cnode : ei_cnode; si_cookie : list Z }.

Definition set_socket (fd : Z) (si : ei_socket_info) : ei_socket_info :=
  {| si_socket := fd; si_cbs := si_cbs si; si_ctx := si_ctx si; si_dist_version := si_dist_version si;
     si_cnode := si_cnode si; si_cookie := si_cookie si |}.
Definition clear_callbacks (si : ei_socket_info) : ei_socket_info :=
  {| si_socket := si_socket si; si_cbs := None; si_ctx := None; si_dist_version := si_dist_version si;
     si_cnode := si_cnode si; si_cookie := si_cookie si |}.

(** [strcpy(si->cookie, cookie)]: the characters and a NUL.  [None]: a write
    outside of the array. *)
Definition copy_cookie (cookie : list Z) : option (list Z) :=
  if zlen cookie + 1 <=? EI_MAX_COOKIE_SIZE + 1 then Some cookie else None.

(** The arguments of [put_ei_socket_info] but the descriptor; [a_ec], [a_cbs] and
    [a_ctx] are pointers. *)
Record put_args := {
  a_version : Z; a_cookie : list Z; a_ec : option ei_cnode; a_cbs : option Z; a_ctx : option Z }.

(** The assignments of a call that stores a connection.  [None]: [ec] is NULL, or
    the cookie does not fit. *)
Definition fill_info (a : put_args) (si : ei_socket_info) : option ei_socket_info :=
  ec ← a_ec a; cookie ← copy_cookie (a_cookie a);
  Some {| si_socket := si_socket si; si_cbs := a_cbs a; si_ctx := a_ctx a; si_dist_version := a_version a;
          si_cnode := ec; si_cookie := cookie |}.

Definition null_cookie : list Z := [].
Definition remove_args : put_args :=
  {| a_version := -1; a_cookie := null_cookie; a_ec := None; a_cbs := None; a_ctx := None |}.

(** ** Segments *)
Module Seg.

Record ei_socket_info_data := { max_fds : Z; segments : list (option (list ei_socket_info)) }.

(** [max] is what [sysconf] returns; the error, or the table. *)
Definition init_socket_info (max : Z) (granted : bool) : Z + ei_socket_info_data :=
  if max <? 0 then inl EIO
  else if negb granted then inl ENOMEM
  else inr {| max_fds := max; segments := replicate (Z.to_nat (Z.quot (max - 1) EI_SOCKET_INFO_SEG_SIZE + 1)) None |}.

(** New memory has any contents. *)
Definition new_segment (junk : nat -> ei_socket_info) : list ei_socket_info :=
  map (fun i => set_socket (-1) (junk i)) (seq 0 (Z.to_nat EI_SOCKET_INFO_SEG_SIZE)).

Definition set_segment (six : Z) (seg : list ei_socket_info) (d : ei_socket_info_data) : ei_socket_info_data :=
  {| max_fds := max_fds d; segments := <[Z.to_nat six:=Some seg]> (segments d) |}.

(** The segment at [six], a new one if there is none; [None] when [malloc]
    refuses. *)
Definition get_segment (granted : bool) (junk : nat -> ei_socket_info) (six : Z) (d : ei_socket_info_data)
  : option (option (list ei_socket_info)) :=
  match segments d !! Z.to_nat six with
  | None => None
  | Some (Some seg) => Some (Some seg)
  | Some None => Some (if granted then Some (new_segment junk) else None)
  end.

(** The value returned and the table.  [None]: an access outside of the table or
    of the entry's cookie, or through a NULL pointer. *)
Definition put_ei_socket_info (granted : bool) (junk : nat -> ei_socket_info) (d : ei_socket_info_data) (fd : Z)
    (a : put_args) : option (Z * ei_socket_info_data) :=
  if (fd <? 0) || (max_fds d <=? fd) then Some (-1, d)
  else
    let six := Z.shiftr fd EI_SOCKET_INFO_SEG_BITS in
    seg ← get_segment granted junk six d;
    match seg with
    | None => Some (-1, d)
    | Some seg =>
        let k := Z.to_nat (Z.land fd EI_SOCKET_INFO_SEG_MASK) in
        si ← seg !! k;
        si ← (if a_version a <? 0 then Some (set_socket (-1) (clear_callbacks si))
              else si ← fill_info a si; Some (set_socket fd si));
        Some (0, set_segment six (<[k:=si]> seg) d)
    end.

(** [None]: an access outside of the table; [Some None]: NULL. *)
Definition get_ei_socket_info (d : ei_socket_info_data) (fd : Z) : option (option ei_socket_info) :=
  if (fd <? 0) || (max_fds d <=? fd) then Some None
  else
    seg ← segments d !! Z.to_nat (Z.shiftr fd EI_SOCKET_INFO_SEG_BITS);
    match seg with
    | None => Some None
    | Some seg =>
        si ← seg !! Z.to_nat (Z.land fd EI_SOCKET_INFO_SEG_MASK);
        Some (if negb (si_socket si =? fd) then None else Some si)
    end.

Definition remove_ei_socket_info (granted : bool) (junk : nat -> ei_socket_info) (d : ei_socket_info_data) (fd : Z) :=
  put_ei_socket_info granted junk d fd remove_args.

End Seg.

(** ** A list ([EI_DISABLE_SEQ_SOCKET_INFO]) *)
Module Lst.

(** The used part of the array. *)
Definition sockets : Type := list ei_socket_info.

(** The index of the entry with the descriptor. *)
Fixpoint search_socket (fd : Z) (l : sockets) : option nat :=
  match l with
  | [] => None
  | si :: l => if si_socket si =? fd then Some 0%nat else option_map S (search_socket fd l)
  end.

(** [memmove(&ei_sockets[i], &ei_sockets[i+1], ...)]: the entries behind [i] move
    forward; the last one stays where it was, too. *)
Definition move_down (i : nat) (l : sockets) : sockets := take i l ++ drop (S i) l ++ drop (length l - 1) l.

(** [None]: a read through a NULL pointer, or a write outside of the entry's
    cookie.  [granted]: the memory for five more
    entries is there, or granted; otherwise all entries are lost. *)
Definition put_ei_socket_info_list (granted : bool) (blank : ei_socket_info) (l : sockets) (fd : Z) (a : put_args)
  : option (Z * sockets) :=
  match search_socket fd l with
  | Some i =>
      if a_version a =? -1 then Some (0, move_down i l)
      else si ← l !! i; si ← fill_info a si; Some (0, <[i:=si]> l)
  | None =>
      if negb granted then Some (-1, [])
      else si ← fill_info a (set_socket fd blank); Some (0, l ++ [si])
  end.

Definition get_ei_socket_info_list (l : sockets) (fd : Z) : option ei_socket_info :=
  i ← search_socket fd l; l !! i.

End Lst.

(** ** Functions of a descriptor

    [e]: what [get_ei_socket_info] found. *)

Definition ei_fd_to_cnode (e : option ei_socket_info) : option ei_cnode := si ← e; Some (si_cnode si).
Definition ei_get_cbs_ctx (e : option ei_socket_info) : Z * option Z * option Z :=
  match e with Some si => (0, si_cbs si, si_ctx si) | None => (EBADF, None, None) end.
Definition ei_distversion (e : option ei_socket_info) : Z := match e with None => -1 | Some si => si_dist_version si end.
Definition ei_cookie (e : option ei_socket_info) : option (list Z) := si ← e; Some (si_cookie si).
Definition ei_getfdcookie (e : option ei_socket_info) : list Z := match ei_cookie e with None => [] | Some r => r end.

(** ** The segments are a map *)

Lemma fd_split fd :
  0 <= fd -> fd = 32 * Z.shiftr fd EI_SOCKET_INFO_SEG_BITS + Z.land fd EI_SOCKET_INFO_SEG_MASK /\
  0 <= Z.land fd EI_SOCKET_INFO_SEG_MASK < 32 /\ 0 <= Z.shiftr fd EI_SOCKET_INFO_SEG_BITS.
Proof.
  intros H. change EI_SOCKET_INFO_SEG_MASK with (Z.ones 5). change EI_SOCKET_INFO_SEG_BITS with 5.
  rewrite Z.land_ones, Z.shiftr_div_pow2 by lia. change (2 ^ 5) with 32. Z.div_mod_to_equations. lia.
Qed.

Module SegSpec.
Import Seg.

(** A connection. *)
Record conn_info := {
  ci_version : Z; ci_cookie : list Z; ci_cnode : ei_cnode; ci_cbs : option Z; ci_ctx : option Z }.

(** The entry of descriptor [fd]. *)
Definition info_of (fd : Z) (ci : conn_info) : ei_socket_info :=
  {| si_socket := fd; si_cbs := ci_cbs ci; si_ctx := ci_ctx ci; si_dist_version := ci_version ci;
     si_cnode := ci_cnode ci; si_cookie := ci_cookie ci |}.

Record table_ok (d : ei_socket_info_data) : Prop := {
  tb_max : 0 <= max_fds d;
  tb_len : forall fd, 0 <= fd < max_fds d -> (Z.to_nat (Z.shiftr fd EI_SOCKET_INFO_SEG_BITS) < length (segments d))%nat;
  tb_seg : forall six seg, segments d !! six = Some (Some seg) -> length seg = 32%nat }.

Definition represents (d : ei_socket_info_data) (m : gmap Z conn_info) : Prop :=
  table_ok d /\ forall fd, get_ei_socket_info d fd = Some (info_of fd <$> m !! fd).

Lemma in_range (d : ei_socket_info_data) fd : (fd <? 0) || (max_fds d <=? fd) = false <-> 0 <= fd < max_fds d.
Proof. rewrite orb_false_iff, Z.ltb_ge, Z.leb_gt. done. Qed.

Lemma new_segment_entry junk k : (k < 32)%nat -> new_segment junk !! k = Some (set_socket (-1) (junk k)).
Proof.
  intros Hk. unfold new_segment. change (Z.to_nat EI_SOCKET_INFO_SEG_SIZE) with 32%nat.
  rewrite list_lookup_fmap, lookup_seq_lt by done. done.
Qed.

Lemma length_new_segment junk : length (new_segment junk) = 32%nat.
Proof. unfold new_segment. by rewrite length_map, length_seq. Qed.

(** The segment of a descriptor, and how the table reads with it. *)
Lemma get_segment_ok granted junk d fd :
  table_ok d -> 0 <= fd < max_fds d ->
  let six := Z.shiftr fd EI_SOCKET_INFO_SEG_BITS in
  (get_segment granted junk six d = Some None /\ granted = false) \/
  exists seg, get_segment granted junk six d = Some (Some seg) /\ length seg = 32%nat /\
    forall fd', Z.shiftr fd' EI_SOCKET_INFO_SEG_BITS = six -> 0 <= fd' < max_fds d ->
      get_ei_socket_info d fd' =
      (si ← seg !! Z.to_nat (Z.land fd' EI_SOCKET_INFO_SEG_MASK); Some (if negb (si_socket si =? fd') then None else Some si)).
Proof.
  intros Hd Hf six. unfold get_segment.
  destruct (lookup_lt_is_Some_2 _ _ (tb_len _ Hd fd Hf)) as [[seg|] E]; fold six in E; rewrite E.
  - right. exists seg. split; [done|]. split; [by apply (tb_seg _ Hd _ _ E)|]. intros fd' Hs Hf'.
    unfold get_ei_socket_info. rewrite (proj2 (in_range d fd') Hf'), Hs, E. done.
  - destruct granted; [right|by left]. eexists. split; [reflexivity|]. split; [apply length_new_segment|]. intros fd' Hs Hf'.
    unfold get_ei_socket_info. rewrite (proj2 (in_range d fd') Hf'), Hs, E. cbn [mbind option_bind].
    destruct (fd_split fd') as (_ & Hb & _); [lia|]. rewrite new_segment_entry by lia. cbn [mbind option_bind set_socket si_socket].
    by destruct (Z.eqb_spec (-1) fd'); [lia|].
Qed.

(** Storing the entry of [fd] changes what is found for [fd] alone. *)
Lemma set_segment_get d fd six seg si :
  table_ok d -> 0 <= fd < max_fds d -> six = Z.shiftr fd EI_SOCKET_INFO_SEG_BITS -> length seg = 32%nat ->
  (forall fd', Z.shiftr fd' EI_SOCKET_INFO_SEG_BITS = six -> 0 <= fd' < max_fds d ->
    get_ei_socket_info d fd' =
    (si ← seg !! Z.to_nat (Z.land fd' EI_SOCKET_INFO_SEG_MASK); Some (if negb (si_socket si =? fd') then None else Some si))) ->
  let d' := set_segment six (<[Z.to_nat (Z.land fd EI_SOCKET_INFO_SEG_MASK):=si]> seg) d in
  table_ok d' /\ forall fd', get_ei_socket_info d' fd' =
    if bool_decide (fd' = fd) then Some (if negb (si_socket si =? fd) then None else Some si) else get_ei_socket_info d fd'.
Proof.
  intros Hd Hf -> Hl Hg d'. set (six := Z.shiftr fd EI_SOCKET_INFO_SEG_BITS) in *.
  assert (Z.to_nat six < length (segments d))%nat as Hsix by apply (tb_len _ Hd fd Hf).
  destruct (fd_split fd) as (Efd & Hb & Hs0); [lia|]. fold six in Efd, Hs0. split.
  - split; cbn [d' set_segment max_fds segments].
    + apply (tb_max _ Hd).
    + intros fd' Hf'. rewrite length_insert. by apply (tb_len _ Hd).
    + intros i s Hi. apply list_lookup_insert_Some in Hi as [(_ & [= <-] & _)|[_ Hi]]; [by rewrite length_insert|by apply (tb_seg _ Hd i)].
  - intros fd'. destruct (decide (0 <= fd' < max_fds d)) as [Hf'|Hf'].
    2: { rewrite bool_decide_eq_false_2 by (intros ->; done). unfold get_ei_socket_info, d', set_segment. cbn [max_fds].
         destruct ((fd' <? 0) || (max_fds d <=? fd')) eqn:E; [done|]. by apply in_range in E. }
    destruct (fd_split fd') as (Efd' & Hb' & Hs0'); [lia|].
    destruct (decide (Z.shiftr fd' EI_SOCKET_INFO_SEG_BITS = six)) as [Es|Es].
    + rewrite (Hg fd' Es Hf'). unfold get_ei_socket_info, d', set_segment. cbn [max_fds segments].
      rewrite (proj2 (in_range d fd') Hf'), Es, list_lookup_insert_eq by done. cbn [mbind option_bind].
      destruct (decide (fd' = fd)) as [->|Hne].
      * rewrite bool_decide_eq_true_2, list_lookup_insert_eq by (done || lia). done.
      * rewrite bool_decide_eq_false_2 by done. rewrite list_lookup_insert_ne by lia. done.
    + rewrite bool_decide_eq_false_2 by (intros ->; done). unfold get_ei_socket_info, d', set_segment. cbn [max_fds segments].
      rewrite (proj2 (in_range d fd') Hf'), list_lookup_insert_ne by lia. done.
Qed.

(** What a call stores, a connection unless the version is negative. *)
Definition to_store (a : put_args) : option conn_info :=
  if bool_decide (a_version a < 0) then None
  else ec ← a_ec a; Some {| ci_version := a_version a; ci_cookie := a_cookie a; ci_cnode := ec; ci_cbs := a_cbs a; ci_ctx := a_ctx a |}.

Definition spec_put (fd : Z) (a : put_args) (m : gmap Z conn_info) : gmap Z conn_info :=
  match to_store a with Some ci => <[fd:=ci]> m | None => delete fd m end.

(** A call that stores a connection has a node, and a cookie of at most 512
    characters. *)
Definition args_ok (a : put_args) : Prop := 0 <= a_version a -> is_Some (a_ec a) /\ zlen (a_cookie a) <= EI_MAX_COOKIE_SIZE.

Lemma put_represents granted junk d m fd a :
  represents d m -> args_ok a ->
  exists r d', put_ei_socket_info granted junk d fd a = Some (r, d') /\ max_fds d' = max_fds d /\
    ((r = 0 /\ 0 <= fd < max_fds d /\ represents d' (spec_put fd a m)) \/
     (r = -1 /\ d' = d /\ (~ 0 <= fd < max_fds d \/ granted = false))).
Proof.
  intros [Hd Hm] Ha. unfold put_ei_socket_info.
  destruct ((fd <? 0) || (max_fds d <=? fd)) eqn:Er.
  { exists (-1), d. split_and!; [done..|]. right. split_and!; [done..|]. left. intros H%in_range. congruence. }
  apply in_range in Er. destruct (get_segment_ok granted junk d fd Hd Er) as [[-> ->]|(seg & -> & Hl & Hg)]; cbn [mbind option_bind].
  { exists (-1), d. split_and!; [done..|]. right. split_and!; [done..|]. by right. }
  destruct (fd_split fd) as (_ & Hb & _); [lia|].
  destruct (lookup_lt_is_Some_2 seg (Z.to_nat (Z.land fd EI_SOCKET_INFO_SEG_MASK))) as [si Hsi]; [lia|]. rewrite Hsi. cbn [mbind option_bind].
  assert (exists si', (if a_version a <? 0 then Some (set_socket (-1) (clear_callbacks si))
    else si ← fill_info a si; Some (set_socket fd si)) = Some si' /\
    (if negb (si_socket si' =? fd) then None else Some si') = info_of fd <$> to_store a) as (si' & -> & Hsi').
  { unfold to_store, fill_info, copy_cookie. destruct (Z.ltb_spec (a_version a) 0) as [Hv|Hv].
    - rewrite bool_decide_eq_true_2 by done. eexists. split; [done|].
      cbn [set_socket si_socket]. by destruct (Z.eqb_spec (-1) fd); [lia|].
    - rewrite bool_decide_eq_false_2 by lia. destruct (Ha Hv) as [[ec ->] Hc].
      rewrite (proj2 (Z.leb_le _ _)) by lia. eexists. split; [done|]. cbn. by rewrite Z.eqb_refl. }
  cbn [mbind option_bind]. eexists _, _. split; [reflexivity|]. split; [done|]. left. split; [done|]. split; [done|].
  destruct (set_segment_get d fd _ seg si' Hd Er eq_refl Hl Hg) as [Hd' Hg']. split; [exact Hd'|].
  intros fd'. rewrite Hg', Hm. unfold spec_put. destruct (decide (fd' = fd)) as [->|Hne].
  - rewrite bool_decide_eq_true_2 by done. rewrite Hsi'. destruct (to_store a); [by rewrite lookup_insert_eq|by rewrite lookup_delete_eq].
  - rewrite bool_decide_eq_false_2 by done. destruct (to_store a); [by rewrite lookup_insert_ne|by rewrite lookup_delete_ne].
Qed.

Lemma init_represents max : 0 <= max -> exists d, init_socket_info max true = inr d /\ max_fds d = max /\ represents d ∅.
Proof.
  intros Hm. unfold init_socket_info. replace (max <? 0) with false by lia. cbn [negb]. eexists. split; [reflexivity|]. split; [done|].
  change EI_SOCKET_INFO_SEG_SIZE with 32. set (n := Z.to_nat _).
  assert (forall fd, 0 <= fd < max -> (Z.to_nat (Z.shiftr fd EI_SOCKET_INFO_SEG_BITS) < n)%nat) as Hn.
  { intros fd Hf. destruct (fd_split fd) as (E & Hb & H0); [lia|]. unfold n. rewrite Z.quot_div_nonneg by lia.
    assert (Z.shiftr fd EI_SOCKET_INFO_SEG_BITS <= (max - 1) / 32) by (apply Z.div_le_lower_bound; lia). lia. }
  split.
  - split; cbn [max_fds segments]; [done| |].
    + intros fd Hf. rewrite length_replicate. by apply Hn.
    + intros six seg H. apply lookup_replicate in H as [? _]. done.
  - intros fd. rewrite lookup_empty. unfold get_ei_socket_info. cbn [max_fds segments].
    destruct ((fd <? 0) || (max <=? fd)) eqn:E; [done|].
    rewrite lookup_replicate_2; [done|]. apply Hn. rewrite orb_false_iff, Z.ltb_ge, Z.leb_gt in E. done.
Qed.
End SegSpec.

(** A call of [put_ei_socket_info]. *)
Record table_op := { o_fd : Z; o_args : put_args; o_granted : bool; o_junk : nat -> ei_socket_info }.

(** The values returned, and the table. *)
Fixpoint run_table (ops : list table_op) (d : Seg.ei_socket_info_data) : option (list Z * Seg.ei_socket_info_data) :=
  match ops with
  | [] => Some ([], d)
  | o :: ops =>
      '(r, d) ← Seg.put_ei_socket_info (o_granted o) (o_junk o) d (o_fd o) (o_args o);
      '(rs, d) ← run_table ops d; Some (r :: rs, d)
  end.

(** The map after the calls that returned 0. *)
Fixpoint spec_table (ops : list table_op) (rs : list Z) (m : gmap Z SegSpec.conn_info) : gmap Z SegSpec.conn_info :=
  match ops, rs with
  | o :: ops, r :: rs => spec_table ops rs (if r =? 0 then SegSpec.spec_put (o_fd o) (o_args o) m else m)
  | _, _ => m
  end.

(** A call succeeds for a descriptor in range when the memory it may need is
    granted; else it returns -1. *)
Definition table_result (max : Z) (o : table_op) (r : Z) : Prop :=
  (r = 0 /\ 0 <= o_fd o < max) \/ (r = -1 /\ (~ 0 <= o_fd o < max \/ o_granted o = false)).

Lemma run_table_represents ops d m :
  SegSpec.represents d m -> Forall (fun o => SegSpec.args_ok (o_args o)) ops ->
  exists rs d', run_table ops d = Some (rs, d') /\ Forall2 (table_result (Seg.max_fds d)) ops rs /\
    SegSpec.represents d' (spec_table ops rs m).
Proof.
  revert d m. induction ops as [|o ops IH]; intros d m Hr Hok; cbn [run_table].
  - exists [], d. split; [done|]. split; [constructor|done].
  - apply (Forall_cons_1 (fun o => SegSpec.args_ok (o_args o))) in Hok as [Ho Hok].
    destruct (SegSpec.put_represents (o_granted o) (o_junk o) d m (o_fd o) (o_args o) Hr Ho) as (r & d1 & -> & Emax & Hcase).
    cbn [mbind option_bind].
    assert (table_result (Seg.max_fds d) o r /\ SegSpec.represents d1 (if r =? 0 then SegSpec.spec_put (o_fd o) (o_args o) m else m))
      as [Hres H1] by (destruct Hcase as [(-> & ? & ?)|(-> & -> & ?)]; (split; [|done]); [left|right]; done).
    destruct (IH d1 _ H1 Hok) as (rs & d' & -> & Hf & Hr'). exists (r :: rs), d'. cbn [mbind option_bind]. split; [done|].
    split; [|done]. constructor; [done|]. by rewrite <- Emax.
Qed.

(** C34: the segmented table refines a map from descriptors to connections: after
    any sequence of calls, in which each segment may or may not be granted and
    starts with any contents, [get_ei_socket_info] finds for every descriptor
    exactly the connection that was last stored for it and not removed since.  A
    call stores a connection when its version is not negative (a listening socket
    has version 0) and removes it when it is; a call that stores comes with a node
    and a cookie of at most 512 characters.  No call accesses anything outside of
    the table, or writes outside of the cookie of an entry. *)
Theorem table_refines max ops :
  0 <= max -> Forall (fun o => SegSpec.args_ok (o_args o)) ops ->
  exists d0 rs d, Seg.init_socket_info max true = inr d0 /\ run_table ops d0 = Some (rs, d) /\
    Forall2 (table_result max) ops rs /\
    forall fd, Seg.get_ei_socket_info d fd = Some (SegSpec.info_of fd <$> spec_table ops rs ∅ !! fd).
Proof.
  intros Hm Hok. destruct (SegSpec.init_represents max Hm) as (d0 & E & Emax & H0).
  destruct (run_table_represents ops d0 ∅ H0 Hok) as (rs & d & Er & Hf & _ & Hg). exists d0, rs, d. rewrite Emax in Hf. done.
Qed.

(** The bound on the cookie is needed: one of more characters is written past the
    end of the entry, which nothing prevents (the library itself stores empty
    cookies only). *)
Theorem long_cookie_overflow junk d fd a :
  SegSpec.table_ok d -> 0 <= fd < Seg.max_fds d -> 0 <= a_version a -> EI_MAX_COOKIE_SIZE < zlen (a_cookie a) ->
  Seg.put_ei_socket_info true junk d fd a = None.
Proof.
  intros Hd Hf Hv Hc. unfold Seg.put_ei_socket_info. rewrite (proj2 (SegSpec.in_range d fd) Hf).
  destruct (SegSpec.get_segment_ok true junk d fd Hd Hf) as [[_ ?]|(seg & -> & Hl & _)]; [done|]. cbn [mbind option_bind].
  destruct (seg !! _); [|done]. cbn [mbind option_bind]. rewrite (proj2 (Z.ltb_ge _ _) Hv). unfold fill_info, copy_cookie.
  rewrite (proj2 (Z.leb_gt _ _)) by lia. by destruct (a_ec a).
Qed.

(** ** Samples *)

Definition args_a : put_args :=
  {| a_version := EI_DIST_6; a_cookie := null_cookie; a_ec := Some node_c; a_cbs := Some 1; a_ctx := Some 7 |}.

(** As [ei_xlisten] does. *)
Definition args_b : put_args :=
  {| a_version := 0; a_cookie := null_cookie; a_ec := Some node_s; a_cbs := Some 1; a_ctx := Some 8 |}.
Definition junk_info (k : nat) : ei_socket_info :=
  {| si_socket := Z.of_nat k; si_cbs := Some 1; si_ctx := Some 9; si_dist_version := -3; si_cnode := node_s; si_cookie := [120] |}.
Definition op_ (fd : Z) (a : put_args) (granted : bool) : table_op :=
  {| o_fd := fd; o_args := a; o_granted := granted; o_junk := junk_info |}.

Lemma table_refines_witness :
  let ops := [op_ 40 args_a true; op_ 41 args_b false; op_ 3 args_b false; op_ 40 remove_args false; op_ 100 args_a true] in
  exists d0 rs d, Seg.init_socket_info 100 true = inr d0 /\ run_table ops d0 = Some (rs, d) /\ rs = [0; 0; -1; 0; -1] /\
    (si_dist_version <$> mjoin (Seg.get_ei_socket_info d 41)) = Some 0 /\ Seg.get_ei_socket_info d 40 = Some None /\
    Seg.get_ei_socket_info d 3 = Some None.
Proof.
  intros ops. destruct (table_refines 100 ops) as (d0 & rs & d & E0 & Er & _ & Hg); [lia| |].
  { repeat constructor; (exfalso; cbn in *; lia) || (by eexists) || by vm_compute. }
  exists d0, rs, d. split; [done|]. split; [done|]. injection E0 as <-. vm_compute in Er. injection Er as <- <-.
  split; [done|]. rewrite !Hg. by vm_compute.
Defined.

(** ** The list forgets nothing *)

(** Removing the last connection leaves it in the table: the number of entries
    is not decremented. *)
Theorem list_remove_ineffective blank l fd a l' :
  Lst.search_socket fd l = None -> Lst.put_ei_socket_info_list true blank l fd a = Some (0, l') ->
  exists l'' si, Lst.put_ei_socket_info_list true blank l' fd remove_args = Some (0, l'') /\
    fill_info a (set_socket fd blank) = Some si /\ Lst.get_ei_socket_info_list l'' fd = Some si.
Proof.
  intros Hs Hp. unfold Lst.put_ei_socket_info_list in Hp. rewrite Hs in Hp. cbn [negb] in Hp.
  destruct (fill_info a (set_socket fd blank)) as [si|] eqn:Esi; [|done]. cbn in Hp. injection Hp as <-.
  assert (si_socket si = fd) as Hfd.
  { revert Esi. unfold fill_info. destruct (a_ec a); [|done]. cbn. destruct (copy_cookie _); [|done]. by intros [= <-]. }
  assert (Lst.search_socket fd (l ++ [si]) = Some (length l)) as Hs'.
  { clear -Hs Hfd. induction l as [|x l IH]; cbn [app Lst.search_socket length] in *; [by rewrite Hfd, Z.eqb_refl|].
    destruct (si_socket x =? fd); [done|]. destruct (Lst.search_socket fd l); [done|]. by rewrite IH. }
  unfold Lst.put_ei_socket_info_list. rewrite Hs'. eexists _, si. split; [done|]. split; [done|].
  assert (Lst.move_down (length l) (l ++ [si]) = l ++ [si]) as ->.
  { unfold Lst.move_down. rewrite length_app. cbn [length]. rewrite take_app_length, (drop_ge _ (S (length l))) by (rewrite length_app; cbn; lia).
    replace (length l + 1 - 1)%nat with (length l) by lia. by rewrite drop_app_length. }
  unfold Lst.get_ei_socket_info_list. rewrite Hs'. by apply (list_lookup_middle l [] si).
Qed.
