(* ===== verification/EiRpc.v ===== *)
(** * Receiving messages and remote calls: [ei_receive_tmo],
    [ei_do_receive_msg], [ei_xrpc_to], [ei_rpc_from] and [ei_rpc] of
    [connect/ei_connect.c]

    A remote call sends a request to the server [rex] of the other node and waits
    for the answer, behind any number of ticks. *)
From S2P Require Import Prelude PutGet EiTypes EiInt EiAtom EiData EiNode EiTerm EiX EiPort EpmdStr EiMsg EiConnect EiId.
From Stdlib Require String.
Import String.StringSyntax.
Delimit Scope string_scope with string.

Definition ERL_MSG : Z := 1.
Definition EI_RPC_FETCH_STDOUT : Z := 1.

(** ** The code *)

(** The value returned (the number of bytes, or [ERL_TICK]), the buffer, the
    socket, and what was sent.  A packet that does not fit is left unread. *)
Definition ei_receive_tmo (bufp : mem) (bufsize : Z) (rs : list cread) (ws : list cwrite)
  : rres (Z * mem * list cread * (list Z * list cwrite)) :=
  let~ (bufp, rs) := read_exact rs bufp 0 4 in
  let~ (len, _s) := ofopt (get32be bufp 0) in
  if len =? ERL_TICK then
    match ei_write_fill ws [0; 0; 0; 0] with
    | None => RWait
    | Some (_, sent, ws) => ROk (ERL_TICK, bufp, rs, (sent, ws))
    end
  else if bufsize <? len then RErr
  else
    let~ (bufp, rs) := read_exact rs bufp 0 len in
    ROk (len, bufp, rs, ([], ws)).

Section Rpc.
Variable sscanf_lf : list Z -> option Z.
Variable fuel : nat.
Variable alloc : Z -> bool.
Variable junk : nat -> list Z.

(** The value returned, the buffer [x] with the rest of the state ([x->buff] and
    [x->buffsz] are [rv_mbuf] and [rv_bufsz]), and [x->index]. *)
Definition ei_do_receive_msg (staticbuffer_p : bool) (st : recv_state) (index : Z) : rres (Z * recv_state * Z) :=
  let~ (i, st) := ei_recv_internal sscanf_lf fuel alloc junk staticbuffer_p st in
  if i =? 0 then ROk (ERL_TICK, st, index)
  else if i <? 0 then RErr
  else if staticbuffer_p && (rv_bufsz st <? rv_msglen st) then RErr
  else
    let t := msgtype (rv_msg st) in
    if (t =? ERL_SEND) || (t =? ERL_REG_SEND) || (t =? ERL_LINK) || (t =? ERL_UNLINK) || (t =? ERL_GROUP_LEADER)
       || (t =? ERL_EXIT) || (t =? ERL_EXIT2)
    then ROk (ERL_MSG, st, rv_msglen st)
    else RErr.

Definition ei_receive_msg := ei_do_receive_msg true.
Definition ei_xreceive_msg := ei_do_receive_msg false.

(** [if (... < 0) goto einval] for one call after the other. *)
Definition of_xres (r : xres) : rres ei_x_buff := match r with XOk x => ROk x | XErr _ => RErr | XOob => ROob end.

(** What follows the pid of the caller. *)
Definition rpc_ops (mod_ fun_ buf : list Z) (flags : Z) : list x_op :=
  [OpTupleHeader 5; OpAtomAs (str "call"%string) ERLANG_LATIN1 ERLANG_LATIN1; OpAtomAs mod_ ERLANG_LATIN1 ERLANG_LATIN1;
   OpAtomAs fun_ ERLANG_LATIN1 ERLANG_LATIN1; OpAppendBuf buf;
   OpAtomAs (if negb (Z.land flags EI_RPC_FETCH_STDOUT =? 0) then str "send_stdout_to_caller"%string else str "user"%string)
     ERLANG_LATIN1 ERLANG_LATIN1].

(** [header] is the array in [ei_send_reg_encoded]. *)
Definition ei_xrpc_to (ec : ei_cnode) (fd : fd_info) (header : mem) (tr : trace_state) (ws : list cwrite)
    (mod_ fun_ buf : list Z) (flags : Z) : rres (list Z * trace_state * list cwrite) :=
  x <~ of_xres (ei_x_new_with_version alloc junk) ;;
  x <~ of_xres (x_run alloc junk [OpTupleHeader 2] x) ;;
  match ei_self ec with
  | None => ROob
  | Some self =>
      x <~ of_xres (x_run alloc junk (OpPid self :: rpc_ops mod_ fun_ buf flags) x) ;;
      match x_buff x with
      | None => ROob
      | Some m =>
          msg <~ ofopt (slice m 0 (x_index x)) ;;
          ei_send_reg_encoded_tmo fd header tr ws self (str "rex"%string) msg
      end
  end.

Definition ei_rpc_to (ec : ei_cnode) (fd : fd_info) (header : mem) (tr : trace_state) (ws : list cwrite)
    (mod_ fun_ buf : list Z) := ei_xrpc_to ec fd header tr ws mod_ fun_ buf 0.

Definition ei_rpc_from (st : recv_state) (index : Z) : rres (Z * recv_state * Z) := ei_xreceive_msg st index.

(** [while (ei_rpc_from(...) == ERL_TICK)]; every turn uses up some of what the
    socket will deliver. *)
Fixpoint rpc_wait (n : nat) (st : recv_state) (index : Z) : rres (Z * recv_state * Z) :=
  r <~ ei_rpc_from st index ;;
  let '(i, st, index) := r in
  if i =? ERL_TICK then match n with O => RWait | S n => rpc_wait n st index end else ROk r.

(** [t]: the uninitialized term.  The answer: [x->buff] and [x->index]. *)
Definition rpc_answer (t : ei_term) (junk_ref : erlang_ref) (buff : mem) (x_index : Z) : rres (mem * Z) :=
  let~ (_v, index) := ofdres (ei_decode_version buff 0) in
  match ei_decode_ei_term sscanf_lf junk_ref buff index (Some t) with
  | None => ROob
  | Some (r, t, index) =>
      if r <? 0 then RErr
      else if negb (ei_type t =? ERL_SMALL_TUPLE_EXT) && negb (ei_type t =? ERL_LARGE_TUPLE_EXT) then RErr
      else if negb (ei_arity t =? 2) then RErr
      else
        let~ (rex, index) := ofdres (ei_decode_atom buff index) in
        if negb (bool_decide (c_str (at_name rex) = str "rex"%string)) then RErr
        else
          let x_index := x_index - index in
          l <~ ofopt (slice buff index x_index) ;;
          buff <~ ofopt (store buff 0 l) ;;
          ROk (buff, x_index)
  end.

(** The receiving half of [ei_rpc]. *)
Definition rpc_reply (t : ei_term) (junk_ref : erlang_ref) (st : recv_state) (index : Z) : rres (mem * Z * recv_state) :=
  r <~ rpc_wait (length (rv_reads st)) st index ;;
  let '(_, st, index) := r in
  let~ (buff, index) := rpc_answer t junk_ref (rv_mbuf st) index in
  ROk (buff, index, st).

(** The message is sent on the socket from which the answer is read. *)
Definition ei_rpc (ec : ei_cnode) (fd : fd_info) (header : mem) (mod_ fun_ inbuf : list Z) (t : ei_term) (junk_ref : erlang_ref)
    (st : recv_state) (index : Z) : rres (mem * Z * recv_state) :=
  r <~ ei_rpc_to ec fd header (rv_trace st) (rv_writes st) mod_ fun_ inbuf ;;
  let '(sent, tr, ws) := r in
  rpc_reply t junk_ref
    {| rv_mbuf := rv_mbuf st; rv_bufsz := rv_bufsz st; rv_msg := rv_msg st; rv_msglen := rv_msglen st; rv_trace := tr;
       rv_reads := rv_reads st; rv_writes := ws; rv_sent := rv_sent st ++ sent |} index.
End Rpc.

(** ** The request *)

Lemma atom_op_bytes a e : bytes_ok a -> zlen a <= 255 -> op_bytes (OpAtomAs a ERLANG_LATIN1 e) = Some (name_bytes a).
Proof.
  intros Hok Hl. cbn [op_bytes]. unfold atom_bytes, name_bytes. rewrite take_ge by (unfold zlen in Hl; lia).
  destruct (latin1_text a Hok Hl) as (f & -> & _). by replace (MAXATOMLEN <=? zlen a) with false by (unfold MAXATOMLEN; lia).
Qed.

Lemma zlen_name_bytes a : bytes_ok a -> zlen (name_bytes a) <= 513.
Proof.
  intros Hok. unfold name_bytes. pose proof (take_255 a).
  destruct (latin1_text (take 255 a)) as (f & _ & Hl); [by apply Forall_take|done|].
  pose proof (zlen_atom_ext (128 <=? zlen (take 255 a)) (utf8_text (take 255 a))). lia.
Qed.

(** [{Self, {call, Mod, Fun, Args, user}}] *)
Definition rpc_term (self mod_ fun_ args : list Z) (flags : Z) : list Z :=
  [ERL_VERSION_MAGIC; ERL_SMALL_TUPLE_EXT; 2] ++ self ++ [ERL_SMALL_TUPLE_EXT; 5] ++ name_bytes (str "call"%string) ++
  name_bytes mod_ ++ name_bytes fun_ ++ args ++
  name_bytes (if negb (Z.land flags EI_RPC_FETCH_STDOUT =? 0) then str "send_stdout_to_caller"%string else str "user"%string).

Definition rpc_name (a : list Z) : Prop := bytes_ok a /\ zlen a <= 255.
Lemma str_bytes_ok s : bytes_ok (str s).
Proof.
  apply List.Forall_map, Forall_forall. intros c _. pose proof (Ascii.N_ascii_bounded c). unfold byte_ok. lia.
Qed.
Lemma str_name s : bool_decide (zlen (str s) <= 255) = true -> rpc_name (str s).
Proof. intros H%bool_decide_eq_true. split; [|done]. apply str_bytes_ok. Qed.

Lemma rpc_ops_bytes mod_ fun_ args flags :
  rpc_name mod_ -> rpc_name fun_ ->
  ops_bytes (rpc_ops mod_ fun_ args flags) = Some ([ERL_SMALL_TUPLE_EXT; 5] ++ name_bytes (str "call"%string) ++
    name_bytes mod_ ++ name_bytes fun_ ++ args ++
    name_bytes (if negb (Z.land flags EI_RPC_FETCH_STDOUT =? 0) then str "send_stdout_to_caller"%string else str "user"%string)) /\
  Forall op_ok (rpc_ops mod_ fun_ args flags).
Proof.
  intros [Hm Hml] [Hf Hfl]. set (u := if negb _ then str _ else str _).
  assert (rpc_name u) as [Hu Hul] by (unfold u; destruct (negb _); by apply str_name).
  destruct (str_name "call"%string) as [Hc Hcl]; [done|]. split.
  - unfold rpc_ops. fold u. cbn [ops_bytes]. rewrite !atom_op_bytes by done. cbn [op_bytes app_bytes]. by rewrite app_nil_r.
  - unfold rpc_ops. fold u. repeat (constructor; [done|]). constructor.
Qed.

Lemma wire_pid_len p bs : wire_pid p -> pid_bytes p = Some bs -> zlen bs <= 271.
Proof. intros Hp E. destruct (wire_pid_bytes p Hp) as (bs' & E' & Hl). congruence. Qed.

Lemma zlen_rpc_term sb mod_ fun_ args flags :
  rpc_name mod_ -> rpc_name fun_ -> zlen args < 2 ^ 30 -> zlen sb <= 271 ->
  zlen (rpc_term sb mod_ fun_ args flags) < 2 ^ 31 - 1400.
Proof.
  intros [Hm _] [Hf _] Ha Hs. unfold rpc_term. set (u := if negb _ then str _ else str _).
  assert (bytes_ok u) as Hu by (unfold u; destruct (negb _); apply str_bytes_ok).
  pose proof (zlen_name_bytes _ Hu). pose proof (zlen_name_bytes _ Hm). pose proof (zlen_name_bytes _ Hf).
  pose proof (zlen_name_bytes (str "call"%string) (str_bytes_ok _)). zlen_lia.
Qed.

Lemma rpc_built alloc junk self sb mod_ fun_ args flags :
  (forall n, length (junk n) = n) -> (forall n, alloc n = true) ->
  wire_pid self -> pid_bytes self = Some sb -> rpc_name mod_ -> rpc_name fun_ -> zlen args < 2 ^ 30 ->
  exists x0 x1 x2 m, ei_x_new_with_version alloc junk = XOk x0 /\ x_run alloc junk [OpTupleHeader 2] x0 = XOk x1 /\
    x_run alloc junk (OpPid self :: rpc_ops mod_ fun_ args flags) x1 = XOk x2 /\ x_buff x2 = Some m /\
    slice m 0 (x_index x2) = Some (rpc_term sb mod_ fun_ args flags).
Proof.
  intros Hj Ha Hself Esb Hmod Hfun Hargs.
  destruct (rpc_ops_bytes mod_ fun_ args flags Hmod Hfun) as [Eops Hok].
  unfold ei_x_new_with_version. destruct (ei_x_new alloc junk) as [x| |] eqn:En; [|by unfold ei_x_new, ei_malloc in En; rewrite Ha in En..].
  destruct (ei_x_new_wf _ _ Hj _ En) as [Hw Hc].
  assert (x_index x = 0 /\ x_buffsz x = 100) as [Hi Hz].
  { unfold ei_x_new, ei_malloc in En. rewrite Ha in En. by injection En as <-. }
  destruct (x_call_appends ei_encode_version [ERL_VERSION_MAGIC] x _ Hw) as (x0 & -> & Hw0 & Hc0 & Hi0); [rewrite Hi, Hz; by vm_compute|].
  rewrite Hi in Hi0. change (0 + _) with 1 in Hi0.
  destruct (x_run_contents alloc junk Hj [OpTupleHeader 2] x0 [ERL_SMALL_TUPLE_EXT; 2] Ha) as (x1 & E1 & Hw1 & Hc1);
    [by repeat constructor|done|done|rewrite Hi0; by vm_compute|].
  pose proof (x_index_contents x1 Hw1) as Hi1. rewrite Hc1, Hc0, Hc in Hi1. change (zlen _) with 3 in Hi1.
  pose proof (wire_pid_len _ _ Hself Esb) as Hsl. pose proof (zlen_rpc_term sb mod_ fun_ args flags Hmod Hfun Hargs Hsl) as Hrl.
  unfold rpc_term in Hrl. set (u := if negb _ then str _ else str _) in Eops, Hrl.
  edestruct (x_run_contents alloc junk Hj (OpPid self :: rpc_ops mod_ fun_ args flags) x1) as (x2 & E2 & Hw2 & Hc2);
    [done|constructor; [apply Hself|exact Hok]|done|cbn [ops_bytes op_bytes]; rewrite Eops, Esb; reflexivity|
     rewrite <- Hi1; unfold ei_x_extra; zlen_lia|].
  pose proof (x_index_contents x2 Hw2) as Hi2. destruct Hw2 as (m & Hb & Hzm & Hir).
  exists x0, x1, x2, m. split_and!; [done..|]. unfold x_contents in Hc2. rewrite Hb in Hc2.
  rewrite slice_prefix by lia. rewrite Hc2. f_equal. fold (x_contents x1). by rewrite Hc1, Hc0, Hc.
Qed.

(** ** Answers *)

(** The socket brings ticks, each of which is answered in its turn. *)
Inductive ticks : list cread -> list cwrite -> list cread -> list cwrite -> list Z -> Prop :=
  | ticks_none rs ws : ticks rs ws rs ws []
  | ticks_more rs ws rs1 ws1 e out rs2 ws2 outs :
      delivers rs [0; 0; 0; 0] rs1 -> ei_write_fill ws [0; 0; 0; 0] = Some (e, out, ws1) ->
      ticks rs1 ws1 rs2 ws2 outs -> ticks rs ws rs2 ws2 (out ++ outs).

Lemma delivers_shorter rs bs rs' : delivers rs bs rs' -> (length rs' < length rs)%nat.
Proof.
  unfold delivers. destruct rs as [|[l|e] rs]; cbn [ei_read_fill length]; [done| |].
  - destruct (zlen _ =? 0); [intros [= _ <-]; lia|]. destruct (_ <? _); [|intros [= _ <-]; lia].
    destruct (ei_read_fill rs _) as [[[e2 l2] rs2]|] eqn:E; [|done]. intros [= _ _ <-].
    apply ei_read_fill_suffix, suffix_length in E. lia.
  - destruct (e =? EINTR); [intros E%ei_read_fill_suffix%suffix_length; lia|]. destruct (e =? 0); [done|].
    intros [= _ _ <-]. lia.
Qed.

Section Reply.
Variable scan : list Z -> option Z.
Variable fuel : nat.
Variable alloc : Z -> bool.
Variable junk : nat -> list Z.
Hypothesis junk_length : forall n, length (junk n) = n.

Lemma tick_received static st rs1 e out ws1 :
  delivers (rv_reads st) [0; 0; 0; 0] rs1 -> ei_write_fill (rv_writes st) [0; 0; 0; 0] = Some (e, out, ws1) ->
  ei_recv_internal scan fuel alloc junk static st =
  ROk (ERL_TICK, {| rv_mbuf := rv_mbuf st; rv_bufsz := rv_bufsz st; rv_msg := rv_msg st; rv_msglen := 0;
                    rv_trace := rv_trace st; rv_reads := rs1; rv_writes := ws1; rv_sent := rv_sent st ++ out |}).
Proof.
  intros Hd Hw. unfold ei_recv_internal.
  destruct (read_exact_ok _ (junk (Z.to_nat EIRECVBUF)) 0 _ _ 4 Hd) as (h & -> & Hs);
    [done|lia|unfold zlen; rewrite junk_length; by vm_compute|].
  cbn [rbind]. apply store_holds in Hs. change [0; 0; 0; 0] with (be_bytes 4 0 ++ []) in Hs.
  destruct (get32be_holds _ _ _ _ Hs) as [-> _]. cbn [ofopt rbind]. change (wraps 32 0 =? 0) with true.
  by rewrite Hw.
Qed.

(** Any number of ticks in front of a message change nothing but what is sent. *)
Lemma rpc_wait_ticks rs ws rs1 ws1 outs : ticks rs ws rs1 ws1 outs ->
  forall n st index r, rv_reads st = rs -> rv_writes st = ws -> (length rs <= n)%nat ->
  (forall len, ei_xreceive_msg scan fuel alloc junk
     {| rv_mbuf := rv_mbuf st; rv_bufsz := rv_bufsz st; rv_msg := rv_msg st; rv_msglen := len; rv_trace := rv_trace st;
        rv_reads := rs1; rv_writes := ws1; rv_sent := rv_sent st ++ outs |} index = ROk r) ->
  fst (fst r) = ERL_MSG -> rpc_wait scan fuel alloc junk n st index = ROk r.
Proof.
  induction 1 as [rs ws|rs ws rs1 ws1 e out rs2 ws2 outs Hd Hw _ IH]; intros n st index r Ers Ews Hn E Hr.
  - specialize (E (rv_msglen st)). rewrite app_nil_r, <- Ers, <- Ews in E.
    destruct n; cbn [rpc_wait]; unfold ei_rpc_from; (destruct st; cbn in *; rewrite E; cbn [rbind];
      destruct r as [[i st'] ix]; cbn in Hr; subst i; done).
  - apply delivers_shorter in Hd as Hl. destruct n as [|n]; [lia|]. cbn [rpc_wait].
    unfold ei_rpc_from, ei_xreceive_msg, ei_do_receive_msg. rewrite <- Ers in Hd. rewrite <- Ews in Hw.
    rewrite (tick_received _ _ _ _ _ _ Hd Hw). cbn [rbind]. change (ERL_TICK =? 0) with true. cbn iota beta.
    change (ERL_TICK =? ERL_TICK) with true. cbn iota.
    apply IH; [done|done|lia| |done]. intros len. cbn. rewrite <- app_assoc. apply E.
Qed.

(** The first eight bytes of an answer. *)
Definition reply_header : list Z := [ERL_VERSION_MAGIC; ERL_SMALL_TUPLE_EXT; 2] ++ name_bytes (str "rex"%string).

Lemma rpc_answer_header t jr buff x_index rest :
  holds buff 0 (reply_header ++ rest) ->
  holds buff 8 rest /\
  rpc_answer scan t jr buff x_index =
    (l <~ ofopt (slice buff 8 (x_index - 8)) ;; buff <~ ofopt (store buff 0 l) ;; ROk (buff, x_index - 8)).
Proof.
  unfold reply_header. intros Hh. unfold rpc_answer.
  change [ERL_VERSION_MAGIC; ERL_SMALL_TUPLE_EXT; 2] with ([ERL_VERSION_MAGIC] ++ [ERL_SMALL_TUPLE_EXT; 2]) in Hh.
  rewrite <- !app_assoc in Hh. destruct (decodes_app _ _ _ _ _ _ ei_decode_version_decodes Hh) as [-> Ht].
  cbn [ofdres rbind]. change (0 + zlen [ERL_VERSION_MAGIC]) with 1 in *. unfold ei_decode_ei_term.
  apply get8_holds in Ht as [-> Ht]; [|split; by vm_compute].
  change (wraps 8 ERL_SMALL_TUPLE_EXT) with ERL_SMALL_TUPLE_EXT. closed_tests.
  apply get8_holds in Ht as [-> Ht]; [|unfold byte_ok; lia]. cbn [set_type set_arity ei_type ei_arity]. closed_tests.
  cbn [app] in Ht. change (1 + 1 + 1) with 3 in *.
  destruct (latin1_text (str "rex"%string)) as (f & E & _); [apply str_bytes_ok|by vm_compute|].
  pose proof (latin1_atom_decodes (str "rex"%string) _ _ (str_bytes_ok _) ltac:(by vm_compute) E) as Hd.
  change (atom_ext _ _) with (name_bytes (str "rex"%string)) in Hd.
  destruct (decodes_app _ _ _ _ _ _ Hd Ht) as [-> Hterm]. cbn [ofdres rbind latin1_atom_out at_name].
  by rewrite bool_decide_true.
Qed.

(** Removing the header of an answer. *)
Lemma rpc_answer_ok t jr buff term :
  holds buff 0 (reply_header ++ term) ->
  exists buff', rpc_answer scan t jr buff (zlen (reply_header ++ term)) = ROk (buff', zlen term) /\ holds buff' 0 term.
Proof.
  intros Hh. destruct (rpc_answer_header t jr buff (zlen (reply_header ++ term)) term Hh) as [Hterm ->].
  apply holds_bound in Hterm as Hb. rewrite zlen_app. change (zlen reply_header) with 8.
  rewrite (holds_slice _ _ _ (8 + zlen term - 8) Hterm) by lia. cbn [ofopt rbind].
  destruct (store_some buff 0 term) as [b Es]; [lia|zlen_lia|]. rewrite Es. cbn [ofopt rbind].
  exists b. split; [|by eapply store_holds]. do 2 f_equal. lia.
Qed.

(** The length of the message is not looked at before its contents: when a
    message without a payload follows one that left the header of an answer in the
    buffer, a negative number of bytes is moved. *)
Theorem rpc_short_answer t jr buff x_index rest :
  holds buff 0 (reply_header ++ rest) -> 0 <= x_index < 8 -> rpc_answer scan t jr buff x_index = ROob.
Proof.
  intros Hh Hx. destruct (rpc_answer_header t jr buff x_index rest Hh) as [_ ->]. unfold slice.
  by replace (0 <=? x_index - 8) with false by lia; rewrite ?andb_false_r.
Qed.

(** A payload that [ei_recv_internal] takes in is what [ei_xreceive_msg] gives. *)
Lemma xreceive_payload st payload msg tr rs' index :
  receives scan fuel alloc junk false st payload msg tr rs' -> msgtype msg = ERL_SEND \/ msgtype msg = ERL_REG_SEND ->
  exists st', ei_xreceive_msg scan fuel alloc junk st index = ROk (ERL_MSG, st', zlen payload) /\
    holds (rv_mbuf st') 0 payload /\ rv_msg st' = msg /\ rv_trace st' = tr /\ rv_reads st' = rs' /\
    rv_writes st' = rv_writes st /\ rv_sent st' = rv_sent st.
Proof.
  intros (st' & E & Hm & Hl & Hh & _ & Ht & Hr & Hw & Hs) Hty. exists st'. split; [|done].
  unfold ei_xreceive_msg, ei_do_receive_msg. rewrite E. cbn [rbind]. rewrite Hm, Hl.
  by destruct Hty as [-> | ->].
Qed.

(** C10: A request of [ei_xrpc_to]: what is sent to the other node is a message
    to the registered name [rex], from the pid of this node, whose payload is
    the external format of [{Self, {call, Mod, Fun, Args, user}}] (or
    [send_stdout_to_caller] in place of [user] when the flag asks for it), for
    every module and function name of at most 255 Latin-1 characters and
    arguments of less than 2^30 bytes; the other node receives exactly that. *)
Theorem rpc_request_received alloc' junk' ec self sb fd header tr mod_ fun_ args flags token tr' :
  (forall n, length (junk' n) = n) -> (forall n, alloc' n = true) ->
  ei_self ec = Some self -> wire_pid self -> pid_bytes self = Some sb -> rpc_name mod_ -> rpc_name fun_ -> zlen args < 2 ^ 30 ->
  send_token fd tr = (token, tr') -> wire_name (fi_cookie fd) -> wire_token token -> zlen header = 1400 ->
  let payload := rpc_term sb mod_ fun_ args flags in
  exists hdr,
    (forall ws, ei_xrpc_to alloc' junk' ec fd header tr ws mod_ fun_ args flags
                = (let~ (sent, ws) := transmit fd ws hdr payload in ROk (sent, tr', ws))) /\
    (forall ws sent ws', transmit fd ws hdr payload = ROk (sent, ws') -> sent = hdr ++ payload) /\
    forall static st rs', packet_arrives (rv_reads st) (hdr ++ payload) rs' -> roomy alloc static st (zlen payload) ->
    receives scan fuel alloc junk static st payload
      (with_token token {| msgtype := ERL_REG_SEND; msg_from := self; msg_to := msg_to (rv_msg st);
         msg_toname := str "rex"%string; msg_cookie := utf8_text (take 255 (fi_cookie fd));
         msg_token := msg_token (rv_msg st) |}) (trace_after (rv_trace st) token) rs'.
Proof.
  intros Hj Ha Eself Hself Esb Hm Hf Hargs Etok Hc Htok Hh payload.
  destruct (rpc_built alloc' junk' self sb mod_ fun_ args flags Hj Ha Hself Esb Hm Hf Hargs)
    as (x0 & x1 & x2 & m & E0 & E1 & E2 & Eb & Es).
  destruct (reg_exchanged scan fuel alloc junk junk_length fd header tr self (str "rex"%string) payload token tr')
    as (hdr & E & Hsent & Hrecv); [done..| |done|done| |].
  - split; [apply str_bytes_ok|by vm_compute].
  - apply zlen_rpc_term; [done..|]. by eapply wire_pid_len.
  - exists hdr. split; [|split; [exact Hsent|exact Hrecv]].
    intros ws. unfold ei_xrpc_to. rewrite E0. cbn [of_xres rbind]. rewrite E1. cbn [of_xres rbind]. rewrite Eself, E2.
    cbn [of_xres rbind]. rewrite Eb, Es. cbn [ofopt rbind]. apply E.
Qed.

(** C11: The answer to a remote call, [{rex, Reply}] sent to the pid of the
    caller by another node, reaches the caller of [ei_rpc] as exactly the
    external format of [Reply], behind any number of ticks, which are answered
    one by one; nothing of what follows on the socket is consumed. *)
Theorem rpc_reply_delivered fd header tr to term token tr' :
  let payload := reply_header ++ term in
  send_token fd tr = (token, tr') -> wire_name (fi_cookie fd) -> wire_pid to -> wire_token token ->
  zlen header = 1200 -> zlen payload < 2 ^ 31 - 1200 ->
  exists hdr,
    (forall ws, ei_send_encoded_tmo fd header tr ws to payload
                = (let~ (sent, ws) := transmit fd ws hdr payload in ROk (sent, tr', ws))) /\
    (forall ws sent ws', transmit fd ws hdr payload = ROk (sent, ws') -> sent = hdr ++ payload) /\
    forall t jr st index rs1 ws1 outs rs',
    ticks (rv_reads st) (rv_writes st) rs1 ws1 outs -> packet_arrives rs1 (hdr ++ payload) rs' ->
    roomy alloc false st (zlen payload) ->
    exists buff st', rpc_reply scan fuel alloc junk t jr st index = ROk (buff, zlen term, st') /\ holds buff 0 term /\
      msg_to (rv_msg st') = to /\ rv_reads st' = rs' /\ rv_writes st' = ws1 /\ rv_sent st' = rv_sent st ++ outs.
Proof.
  intros payload Etok Hc Hto Htok Hh Hp.
  destruct (send_exchanged scan fuel alloc junk junk_length fd header tr to payload token tr') as (hdr & E & Hsent & Hrecv); [done..|].
  exists hdr. split; [exact E|]. split; [exact Hsent|]. intros t jr st index rs1 ws1 outs rs' Hticks Harr Hroom.
  set (st1 len := {| rv_mbuf := rv_mbuf st; rv_bufsz := rv_bufsz st; rv_msg := rv_msg st; rv_msglen := len; rv_trace := rv_trace st;
        rv_reads := rs1; rv_writes := ws1; rv_sent := rv_sent st ++ outs |}).
  specialize (Hrecv false (st1 0) rs' Harr Hroom).
  destruct (xreceive_payload _ _ _ _ _ index Hrecv) as (st' & Ex & Hp' & Hm & _ & Hr & Hw & Hs); [left; by destruct token|].
  destruct (rpc_answer_ok t jr (rv_mbuf st') term Hp') as (buff & Ea & Hb).
  exists buff, st'. unfold rpc_reply.
  rewrite (rpc_wait_ticks _ _ _ _ _ Hticks _ st index (ERL_MSG, st', zlen payload)); [|done..| |done].
  - cbn [rbind]. unfold payload. rewrite Ea. cbn [rbind]. rewrite Hm. by destruct token.
  - intros len. rewrite <- Ex. reflexivity.
Qed.
End Reply.

(** ** Samples *)

(** [erlang:node()] *)
Definition mod_a : list Z := str "erlang"%string.
Definition fun_a : list Z := str "node"%string.

Lemma rpc_request_received_witness :
  exists pkt sb, pid_bytes pid_a = Some sb /\
  ei_xrpc_to (fun _ => true) zeros node_c (fd_a true) (zeros 1400) trace_0 [CWrote 60; CWrote 28] mod_a fun_a [ERL_NIL_EXT] 0 =
    ROk (pkt, trace_0, []) /\
  receives no_scan 0 (fun _ => true) zeros false (node_b pkt) (rpc_term sb mod_a fun_a [ERL_NIL_EXT] 0)
    {| msgtype := ERL_REG_SEND; msg_from := pid_a; msg_to := pid_b; msg_toname := [114; 101; 120];
       msg_cookie := [107; 0xC3; 0xA4]; msg_token := token_a |} trace_0 [].
Proof.
  destruct (rpc_request_received no_scan 0 (fun _ => true) zeros zeros_length (fun _ => true) zeros node_c pid_a
    (default [] (pid_bytes pid_a)) (fd_a true) (zeros 1400) trace_0 mod_a fun_a [ERL_NIL_EXT] 0 None trace_0) as (hdr & E & Hs & Hr).
  - exact zeros_length.
  - done.
  - by vm_compute.
  - exact pid_a_wire.
  - by vm_compute.
  - by apply str_name.
  - by apply str_name.
  - by vm_compute.
  - reflexivity.
  - exact cookie_wire.
  - done.
  - reflexivity.
  - eexists _, _. split; [vm_compute; reflexivity|]. split; [vm_compute; reflexivity|].
    pose proof (header_known _ _ [CWrote 60; CWrote 28] _ _ _ _ _ E Hs ltac:(vm_compute; reflexivity)) as Ep.
    node_b_receives Hr Ep.
Defined.

(** A caller that gets a tick before the packet. *)
Definition caller (pkt : list Z) : recv_state :=
  {| rv_mbuf := []; rv_bufsz := 0; rv_msg := msg_0; rv_msglen := 0; rv_trace := trace_0;
     rv_reads := CRead [0; 0; 0; 0] :: rv_reads (node_b pkt); rv_writes := [CWrote 4]; rv_sent := [] |}.
Definition term_0 : ei_term := {| ei_type := 0; ei_arity := 0; ei_size := 0; ei_value_of := VInt 0 |}.

Definition ref_0 : erlang_ref := {| ref_node := []; ref_len := 0; ref_n := []; ref_creation := 0 |}.

Lemma rpc_reply_delivered_witness :
  exists pkt buff st', ei_send_encoded_tmo (fd_a true) (zeros 1200) trace_0 [CWrote 43] pid_a
      (reply_header ++ [97; 42]) = ROk (pkt, trace_0, []) /\
    rpc_reply no_scan 0 (fun _ => true) zeros term_0 ref_0 (caller pkt) 0 = ROk (buff, 2, st') /\ holds buff 0 [97; 42] /\
    rv_sent st' = [0; 0; 0; 0].
Proof.
  destruct (rpc_reply_delivered no_scan 0 (fun _ => true) zeros zeros_length (fd_a true) (zeros 1200) trace_0 pid_a [97; 42] None trace_0)
    as (hdr & E & Hs & Hr).
  - reflexivity.
  - exact cookie_wire.
  - exact pid_a_wire.
  - done.
  - reflexivity.
  - by vm_compute.
  - pose proof (header_known _ _ [CWrote 43] _ _ _ _ _ E Hs ltac:(vm_compute; reflexivity)) as Ep.
    match type of Ep with _ = ?l => set (pkt := l) in Ep end. rewrite Ep in Hr.
    destruct (Hr term_0 ref_0 (caller pkt) 0 (rv_reads (node_b pkt)) [] [0; 0; 0; 0] []) as (buff & st' & E1 & Hb & _ & _ & _ & Hsent).
    + apply (ticks_more _ _ (rv_reads (node_b pkt)) [] 0 [0; 0; 0; 0] _ _ []); [by vm_compute|by vm_compute|apply ticks_none].
    + apply node_b_arrives. by vm_compute.
    + split; [done|]. by right.
    + exists pkt, buff, st'. split; [by vm_compute|]. split; [exact E1|]. split; [exact Hb|exact Hsent].
Defined.
