(* ===== verification/EiGlobal.v ===== *)
(** * Global names: [global_register.c], [global_unregister.c], [global_whereis.c]
    and [global_names.c]

    A C node asks the [global] server of the node it is connected to, with a remote
    call, and takes the answer from the connection. *)
From S2P Require Import Prelude PutGet EiTypes EiInt EiAtom EiData EiNode EiTerm EiX EiPort EpmdStr EiMsg EiConnect EiId EiRpc.
From Stdlib Require String.
Import String.StringSyntax.
Delimit Scope string_scope with string.

Definition ERL_MONITOR_P : Z := 19.
Definition ERL_DEMONITOR_P : Z := 20.
Definition GLOBALNAMEBUF : Z := 16 * 1024.

(** ** The code *)

Definition atom (a : list Z) (b : option mem) (i : Z) : eres := ei_encode_atom b i a.

(** [{ PidFrom, { call, Mod, Fun, Args, user }}] with the arguments left out. *)
Definition call_head (self : erlang_pid) (fun_ : list Z) : list (option mem -> Z -> eres) :=
  [ei_encode_version; (fun b i => ei_encode_tuple_header b i 2); (fun b i => ei_encode_pid b i self);
   (fun b i => ei_encode_tuple_header b i 5); atom (str "call"%string); atom (str "global"%string); atom fun_].
Definition call_tail : list (option mem -> Z -> eres) := [atom (str "user"%string)].

Definition register_args (name : list Z) (self : erlang_pid) : list (option mem -> Z -> eres) :=
  [(fun b i => ei_encode_list_header b i 3); atom name; (fun b i => ei_encode_pid b i self);
   (fun b i => ei_encode_tuple_header b i 2); atom (str "global"%string); atom (str "cnode"%string); ei_encode_empty_list].
(** For [whereis_name] and [unregister_name_external]. *)
Definition name_args (name : list Z) : list (option mem -> Z -> eres) :=
  [(fun b i => ei_encode_list_header b i 1); atom name; ei_encode_empty_list].
Definition names_args : list (option mem -> Z -> eres) := [fun b i => ei_encode_list_header b i 0].

Section Global.
Variable sscanf_lf : list Z -> option Z.
Variable fuel : nat.
Variable alloc : Z -> bool.
Variable junk : nat -> list Z.

(** The request is encoded in [buf], the array that the answer will be received
    in, and sent to [rex].  [header] is the array of [ei_send_reg_encoded]; [st] has
    [buf] and [msg] uninitialized. *)
Definition send_request (fd : fd_info) (header : mem) (self : erlang_pid) (fs : list (option mem -> Z -> eres)) (st : recv_state)
  : rres recv_state :=
  match encode_seq fs (Some (rv_mbuf st)) 0 with
  | EOk (Some buf) index =>
      msg <~ ofopt (slice buf 0 index) ;;
      r <~ ei_send_reg_encoded_tmo fd header (rv_trace st) (rv_writes st) self (str "rex"%string) msg ;;
      let '(sent, tr, ws) := r in
      ROk {| rv_mbuf := buf; rv_bufsz := rv_bufsz st; rv_msg := rv_msg st; rv_msglen := rv_msglen st; rv_trace := tr;
             rv_reads := rv_reads st; rv_writes := ws; rv_sent := rv_sent st ++ sent |}
  | EErr _ => RErr
  | _ => ROob
  end.

Definition set_bufsz (n : Z) (st : recv_state) : recv_state :=
  {| rv_mbuf := rv_mbuf st; rv_bufsz := n; rv_msg := rv_msg st; rv_msglen := rv_msglen st; rv_trace := rv_trace st;
     rv_reads := rv_reads st; rv_writes := rv_writes st; rv_sent := rv_sent st |}.

(** [index = ...; if (!(i = ei_recv_internal(...))) continue; else break;], with every
    turn using up some of what the socket will deliver. *)
Fixpoint recv_wait (n : nat) (size : Z) (st : recv_state) : rres (Z * recv_state) :=
  r <~ ei_recv_internal sscanf_lf fuel alloc junk true (set_bufsz size st) ;;
  if fst r =? 0 then match n with O => RWait | S n => recv_wait n size (snd r) end else ROk r.

(** [ei_decode_atom(buf,&index,tmpbuf)] and the comparison of [char tmpbuf[64]] with
    what is expected. *)
Definition expect_atom (expected : list Z) (buf : mem) (index : Z) : rres Z :=
  let~ (a, index) := ofdres (ei_decode_atom buf index) in
  if 64 <? zlen (at_name a) + 1 then ROob
  else if negb (bool_decide (c_str (at_name a) = expected)) then RErr
  else ROk index.

(** [{ rex, ...]: the index of what follows. *)
Definition expect_rex (buf : mem) : rres Z :=
  let~ (_v, index) := ofdres (ei_decode_version buf 0) in
  let~ (arity, index) := ofdres (ei_decode_tuple_header true buf index) in
  if negb (arity =? 2) then RErr else expect_atom (str "rex"%string) buf index.

(** [{ rex, yes }] or [{ rex, ok }] *)
Definition expect_answer (expected : list Z) (buf : mem) : rres Z :=
  index <~ expect_rex buf ;; expect_atom expected buf index.

(** The answer comes behind at most one link and at most one monitor.  [needatom]
    is never changed. *)
Fixpoint wait_answer (turns : nat) (link monitor : Z) (expected : list Z) (needlink needmonitor : bool) (st : recv_state)
  : rres recv_state :=
  match turns with
  | O => RFuel
  | S turns =>
      let~ (i, st) := recv_wait (length (rv_reads st)) EISMALLBUF st in
      if i =? link then if negb needlink then RErr else wait_answer turns link monitor expected false needmonitor st
      else if i =? monitor then if negb needmonitor then RErr else wait_answer turns link monitor expected needlink false st
      else if i =? ERL_SEND then _i <~ expect_answer expected (rv_mbuf st) ;; ROk st
      else RErr
  end.

(** [ROk]: 0 is returned. *)
Definition ei_global_register (fd : fd_info) (header : mem) (name : list Z) (self : erlang_pid) (st : recv_state) : rres recv_state :=
  st <~ send_request fd header self
          (call_head self (str "register_name_external"%string) ++ register_args name self ++ call_tail) st ;;
  wait_answer 3 ERL_LINK (ERL_MONITOR_P - 10) (str "yes"%string) true true st.

Definition ei_global_unregister (ec : ei_cnode) (fd : fd_info) (header : mem) (name : list Z) (st : recv_state) : rres recv_state :=
  match ei_self ec with
  | None => ROob
  | Some self =>
      st <~ send_request fd header self
              (call_head self (str "unregister_name_external"%string) ++ name_args name ++ call_tail) st ;;
      wait_answer 3 ERL_UNLINK (ERL_DEMONITOR_P - 10) (str "ok"%string) true true st
  end.

(** [node]: the size of the buffer for the name of the node, or NULL. *)
Definition ei_global_whereis (ec : ei_cnode) (fd : fd_info) (header : mem) (name : list Z) (node : option Z) (st : recv_state)
  : rres (erlang_pid * option (list Z) * recv_state) :=
  match ei_self ec with
  | None => ROob
  | Some self =>
      st <~ send_request fd header self (call_head self (str "whereis_name"%string) ++ name_args name ++ call_tail) st ;;
      let~ (i, st) := recv_wait (length (rv_reads st)) EISMALLBUF st in
      if negb (i =? ERL_SEND) then RErr
      else
        index <~ expect_rex (rv_mbuf st) ;;
        let~ (epid, _i) := ofdres (ei_decode_pid true (rv_mbuf st) index) in
        match epid, node with
        | None, _ => ROob
        | Some epid, None => ROk (epid, None, st)
        | Some epid, Some size =>
            let node_str := c_str (pid_node epid) in
            if size <? zlen node_str + 1 then ROob else ROk (epid, Some node_str, st)
        end
  end.

(** *** [ei_global_names]

    The block from [malloc], at address [base], has the pointers first, of eight
    bytes each, and then the strings. *)
Section Names.
Variable base : Z.

Definition pointer (p : Z) : list Z := be_bytes 8 p.

(** [for (i = 0; i < arity; i++)], in which [n] turns are left; [index] is that in
    [buf], [s] the place for the next string in the block.  A decoder that fails may
    have written behind the last string, which is not described.  The block, [i] and
    [*count]. *)
Fixpoint names_loop (n : nat) (buf : mem) (i index s count : Z) (names : mem) : rres (mem * Z * Z) :=
  match n with
  | O => ROk (names, i, count)
  | S n =>
      names <~ ofopt (store names (8 * i) (pointer (base + s))) ;;
      match ei_decode_atom buf index with
      | DErr _ => ROk (names, i, count)
      | DOk a index =>
          names <~ ofopt (store names s (at_name a ++ [0])) ;;
          names_loop n buf (i + 1) index (s + zlen (c_str (at_name a)) + 1) (count + 1) names
      | DOob => ROob
      | DFuel => RFuel
      end
  end.

(** What follows [{ rex,] in the message of [size] bytes. *)
Definition read_names (buf : mem) (size index : Z) : rres (mem * Z) :=
  let~ (arity, index) := ofdres (ei_decode_list_header true buf index) in
  let arity := wraps 32 (arity + 1) in
  let bytes := wrapu 64 (arity * 8 + (size - index)) in
  if negb (alloc bytes) then RErr
  else
    r <~ names_loop (Z.to_nat arity) buf 0 index (8 * arity) 0 (junk (Z.to_nat bytes)) ;;
    let '(names, i, count) := r in
    names <~ ofopt (store names (8 * i) (pointer 0)) ;;
    ROk (names, count).

(** [RErr]: NULL is returned; else the block and [*count]. *)
Definition ei_global_names (ec : ei_cnode) (fd : fd_info) (header : mem) (st : recv_state) : rres (mem * Z * recv_state) :=
  match ei_self ec with
  | None => ROob
  | Some self =>
      st <~ send_request fd header self (call_head self (str "registered_names"%string) ++ names_args ++ call_tail) st ;;
      let~ (i, st) := recv_wait (length (rv_reads st)) GLOBALNAMEBUF st in
      if negb (i =? ERL_SEND) then RErr
      else
        index <~ expect_rex (rv_mbuf st) ;;
        let~ (names, count) := read_names (rv_mbuf st) (rv_msglen st) index in
        ROk (names, count, st)
  end.
End Names.
End Global.

(** ** Requests *)

Lemma rbind_ROk {A B} (e : rres A) (k : A -> rres B) b : rbind e k = ROk b <-> exists a, e = ROk a /\ k a = ROk b.
Proof. destruct e; cbn [rbind]; (split; [by eauto|by intros (? & [=] & ?); subst]). Qed.

Lemma seq_emits f fs bs bss :
  Emits f (Some bs) -> Forall2 (fun f bs => Emits f (Some bs)) fs bss ->
  Emits (encode_seq (f :: fs)) (Some (bs ++ concat bss)).
Proof.
  intros Hf H. pose proof (seq_bytes_some f (bs, id) fs (map (fun b => (b, id)) bss)) as He.
  unfold fields_bytes in He. cbn [map concat fst] in He. rewrite map_map, map_id in He. apply He.
  constructor; [exact Hf|]. clear -H. induction H; cbn [map]; constructor; done.
Qed.

Lemma small_tuple_emits n : 0 <= n < 256 -> Emits (fun b i => ei_encode_tuple_header b i n) (Some [ERL_SMALL_TUPLE_EXT; n]).
Proof.
  intros Hn. pose proof (ei_encode_tuple_header_emits n) as Hh. unfold tuple_header_bytes in Hh.
  replace (n <? 0) with false in Hh by lia. replace (n <=? 0xff) with true in Hh by lia.
  by rewrite land_255_small in Hh by (unfold byte_ok; lia).
Qed.

Lemma atom_emits a : bytes_ok a -> Emits (atom a) (Some (name_bytes a)).
Proof. apply name_emits. Qed.

Lemma list_emits n : 0 < n -> Emits (fun b i => ei_encode_list_header b i n) (Some (ERL_LIST_EXT :: be_bytes 4 n)).
Proof.
  intros Hn. pose proof (ei_encode_list_header_emits n) as Hh. unfold list_header_bytes in Hh.
  replace (n <? 0) with false in Hh by lia. replace (0 <? n) with true in Hh by lia. exact Hh.
Qed.

(** The arguments of the calls. *)
Definition name_list (name : list Z) : list Z := (ERL_LIST_EXT :: be_bytes 4 1) ++ name_bytes name ++ [ERL_NIL_EXT].
Definition register_list (name sb : list Z) : list Z :=
  (ERL_LIST_EXT :: be_bytes 4 3) ++ name_bytes name ++ sb ++ [ERL_SMALL_TUPLE_EXT; 2] ++
  name_bytes (str "global"%string) ++ name_bytes (str "cnode"%string) ++ [ERL_NIL_EXT].
Definition request (sb fun_ args : list Z) : list Z := rpc_term sb (str "global"%string) fun_ args 0.

Lemma call_emits self sb fun_ args abss :
  wire_pid self -> pid_bytes self = Some sb -> bytes_ok fun_ -> Forall2 (fun f bs => Emits f (Some bs)) args abss ->
  Emits (encode_seq (call_head self fun_ ++ args ++ call_tail)) (Some (request sb fun_ (concat abss))).
Proof.
  intros Hself Esb Hf Ha. pose proof (pid_sent self sb id Hself Esb) as Hp.
  pose proof (seq_emits ei_encode_version (tl (call_head self fun_) ++ args ++ call_tail) [ERL_VERSION_MAGIC]
    ([[ERL_SMALL_TUPLE_EXT; 2]; sb; [ERL_SMALL_TUPLE_EXT; 5]; name_bytes (str "call"%string); name_bytes (str "global"%string);
      name_bytes fun_] ++ abss ++ [name_bytes (str "user"%string)]) ei_encode_version_emits) as He.
  unfold request, rpc_term. change (negb _) with false. cbn iota.
  rewrite !concat_app in He. cbn [concat app] in He. rewrite !app_nil_r in He. cbn [tl call_head app] in He. rewrite <- !app_assoc in He. apply He.
  unfold call_tail. repeat apply Forall2_cons_2; first [exact Hp|apply small_tuple_emits; lia|apply atom_emits; first [done|apply str_bytes_ok]|idtac].
  apply Forall2_app; [exact Ha|]. constructor; [apply atom_emits, str_bytes_ok|constructor].
Qed.

Lemma name_args_emit name : bytes_ok name ->
  exists abss, Forall2 (fun f bs => Emits f (Some bs)) (name_args name) abss /\ concat abss = name_list name.
Proof.
  intros Hn. exists [ERL_LIST_EXT :: be_bytes 4 1; name_bytes name; [ERL_NIL_EXT]]. split; [|done].
  repeat apply Forall2_cons_2; [by apply list_emits|by apply atom_emits|exact ei_encode_empty_list_emits|constructor].
Qed.

Lemma names_args_emit : exists abss, Forall2 (fun f bs => Emits f (Some bs)) names_args abss /\ concat abss = [ERL_NIL_EXT].
Proof. exists [[ERL_NIL_EXT]]. split; [|done]. constructor; [exact (ei_encode_list_header_emits 0)|constructor]. Qed.

Lemma register_args_emit name self sb : bytes_ok name -> wire_pid self -> pid_bytes self = Some sb ->
  exists abss, Forall2 (fun f bs => Emits f (Some bs)) (register_args name self) abss /\ concat abss = register_list name sb.
Proof.
  intros Hn Hself Esb. pose proof (pid_sent self sb id Hself Esb) as Hp.
  exists [ERL_LIST_EXT :: be_bytes 4 3; name_bytes name; sb; [ERL_SMALL_TUPLE_EXT; 2]; name_bytes (str "global"%string);
          name_bytes (str "cnode"%string); [ERL_NIL_EXT]]. split; [|done].
  repeat apply Forall2_cons_2; [by apply list_emits|by apply atom_emits|exact Hp|by apply small_tuple_emits|
    apply atom_emits, str_bytes_ok..|exact ei_encode_empty_list_emits|constructor].
Qed.

Lemma zlen_request sb fun_ args :
  bytes_ok fun_ -> zlen sb <= 271 -> zlen (request sb fun_ args) <= 296 + zlen (name_bytes fun_) + zlen args.
Proof.
  intros Hf Hs. unfold request, rpc_term. change (negb _) with false. cbn iota.
  change (name_bytes (str "call"%string)) with [119; 4; 99; 97; 108; 108].
  change (name_bytes (str "user"%string)) with [119; 4; 117; 115; 101; 114].
  change (name_bytes (str "global"%string)) with [119; 6; 103; 108; 111; 98; 97; 108]. zlen_lia.
Qed.

(** ** The block of [ei_global_names] *)

(** The pointers to the names [l], whose strings are in the block from [s] on. *)
Fixpoint pointers (base s : Z) (l : list (list Z)) : list Z :=
  match l with [] => [] | a :: l => pointer (base + s) ++ pointers base (s + zlen a + 1) l end.
Definition strings (l : list (list Z)) : list Z := concat (map (fun a => a ++ [0]) l).
Definition list_names (l : list (list Z)) : list Z := concat (map name_bytes l) ++ [ERL_NIL_EXT].
(** A name that comes back as it is. *)
Definition plain_name (a : list Z) : Prop := rpc_name a /\ forallb (fun c => negb (c =? 0)) a = true.

Lemma zlen_pointer p : zlen (pointer p) = 8.
Proof. unfold pointer. zlen_lia. Qed.
Lemma zlen_pointers base s l : zlen (pointers base s l) = 8 * zlen l.
Proof.
  revert s. induction l as [|a l IH]; intros s; cbn [pointers]; [done|]. rewrite zlen_app, IH, zlen_pointer. zlen_lia.
Qed.

Lemma plain_name_bytes a : plain_name a ->
  exists f, Decodes ei_decode_atom (name_bytes a) (latin1_atom_out a f) /\ c_str a = a /\ zlen a + 1 < zlen (name_bytes a).
Proof.
  intros [[Hok Hl] Hn]. destruct (latin1_text a Hok Hl) as (f & E & Ht). rewrite c_str_id by done.
  pose proof (latin1_atom_decodes a _ _ Hok ltac:(unfold MAXATOMLEN; lia) E) as Hd. unfold name_bytes.
  rewrite take_ge by (unfold zlen in *; lia). exists f. split_and!; [exact Hd|done|]. unfold atom_ext. destruct (128 <=? zlen a); zlen_lia.
Qed.

Lemma zlen_strings l : Forall plain_name l -> zlen (strings l) <= zlen (concat (map name_bytes l)).
Proof.
  unfold strings. induction 1 as [|a l Ha _ IH]; [done|]. cbn [map concat]. destruct (plain_name_bytes a Ha) as (_ & _ & _ & Hz). zlen_lia.
Qed.

Lemma nil_not_atom buf index : holds buf index [ERL_NIL_EXT] -> exists j, ei_decode_atom buf index = DErr j.
Proof. intros Hh. unfold ei_decode_atom, ei_decode_atom_as, atom_header. read_tag Hh. eauto. Qed.

Lemma names_loop_S base n buf i index s count names :
  names_loop base (S n) buf i index s count names =
  (names <~ ofopt (store names (8 * i) (pointer (base + s))) ;;
   match ei_decode_atom buf index with
   | DErr _ => ROk (names, i, count)
   | DOk a index =>
       names <~ ofopt (store names s (at_name a ++ [0])) ;;
       names_loop base n buf (i + 1) index (s + zlen (c_str (at_name a)) + 1) (count + 1) names
   | DOob => ROob
   | DFuel => RFuel
   end).
Proof. reflexivity. Qed.

(** The block is what is done of the pointers [P], the pointers to come [X], what is
    done of the strings [S_], and the rest. *)
Lemma names_loop_ok base buf l : Forall plain_name l -> forall i index s count P X S_ Y,
  holds buf index (list_names l) -> zlen P = 8 * i -> zlen X = 8 * (zlen l + 1) -> s = 8 * i + zlen X + zlen S_ ->
  zlen (strings l) <= zlen Y ->
  names_loop base (S (length l)) buf i index s count (P ++ X ++ S_ ++ Y) =
  ROk (P ++ (pointers base s l ++ pointer (base + s + zlen (strings l))) ++ S_ ++ strings l ++ drop (length (strings l)) Y,
       i + zlen l, count + zlen l).
Proof.
  induction 1 as [|a l Ha _ IH]; intros i index s count P X S_ Y Hh HP HX Hs HY; rewrite names_loop_S.
  - destruct (nil_not_atom _ _ Hh) as [j ->]. replace (8 * i) with (zlen P) by lia.
    rewrite store_behind by (rewrite length_app; unfold zlen in *; cbn in *; lia). cbn [ofopt rbind].
    rewrite drop_app_length' by (pose proof (zlen_pointer (base + s)); unfold zlen in *; cbn [length] in *; lia).
    cbn [pointers strings map concat app drop length]. rewrite !Z.add_0_r, <- app_assoc. done.
  - destruct (plain_name_bytes a Ha) as (f & Hd & Hc & _). unfold list_names in Hh. cbn [map concat] in Hh. rewrite <- app_assoc in Hh.
    destruct (decodes_app _ _ _ _ _ _ Hd Hh) as [-> Hh2].
    rewrite zlen_cons in HX. pose proof (zlen_nonneg l). pose proof (zlen_pointer (base + s)) as Hp.
    assert (8 <= length X)%nat as HX8 by (unfold zlen in *; lia). replace (8 * i) with (zlen P) by lia.
    rewrite store_behind by (rewrite length_app; unfold zlen in *; lia). cbn [ofopt rbind].
    replace (length (pointer (base + s))) with 8%nat by (unfold zlen in *; lia). rewrite drop_app_le by done.
    set (X' := drop 8 X). assert (zlen X' = 8 * (zlen l + 1)) as HX' by (unfold X', zlen in *; rewrite length_drop; lia).
    cbn [latin1_atom_out at_name]. rewrite Hc.
    change (strings (a :: l)) with ((a ++ [0]) ++ strings l) in *. set (a0 := a ++ [0]) in *.
    assert (zlen a0 = zlen a + 1) as Ha0 by (unfold a0; zlen_lia).
    replace ((P ++ pointer (base + s)) ++ X' ++ S_ ++ Y) with (((P ++ pointer (base + s)) ++ X' ++ S_) ++ Y) by (by rewrite <- !app_assoc).
    replace s with (zlen ((P ++ pointer (base + s)) ++ X' ++ S_)) at 2 by zlen_lia.
    rewrite store_behind by (rewrite zlen_app in HY; unfold zlen in *; lia). cbn [ofopt rbind].
    replace ((((P ++ pointer (base + s)) ++ X' ++ S_) ++ a0) ++ drop (length a0) Y)
      with ((P ++ pointer (base + s)) ++ X' ++ (S_ ++ a0) ++ drop (length a0) Y) by (by rewrite <- !app_assoc).
    rewrite (IH (i + 1) _ (s + zlen a + 1) (count + 1) (P ++ pointer (base + s)) X' (S_ ++ a0)); [|done|zlen_lia|done|zlen_lia|].
    + cbn [pointers]. rewrite <- !app_assoc, drop_drop, length_app. do 2 f_equal; [f_equal|zlen_lia]; [|zlen_lia].
      do 5 f_equal. zlen_lia.
    + rewrite zlen_app in HY. unfold zlen in *. rewrite length_drop. lia.
Qed.


(** The block for the names [l], at the address [base]. *)
Definition name_block (base : Z) (l : list (list Z)) : list Z :=
  pointers base (8 * (zlen l + 1)) l ++ pointer 0 ++ strings l.

Lemma read_names_ok alloc junk base buf l size index :
  (forall n, length (junk n) = n) -> Forall plain_name l -> l <> [] -> zlen l < 2 ^ 31 - 1 ->
  holds buf index ((ERL_LIST_EXT :: be_bytes 4 (zlen l)) ++ list_names l) ->
  size = index + 5 + zlen (list_names l) -> size < 2 ^ 31 -> alloc (8 * (zlen l + 1) + zlen (list_names l)) = true ->
  exists rest, read_names alloc junk base buf size index = ROk (name_block base l ++ rest, zlen l) /\
    zlen (name_block base l ++ rest) = 8 * (zlen l + 1) + zlen (list_names l).
Proof.
  intros Hj Hl Hne Hn Hh Hsize Hs Halloc. unfold read_names. pose proof (zlen_nonneg l). apply holds_nonneg in Hh as H0.
  assert (0 < zlen l) as Hpos by (destruct l; [done|zlen_lia]).
  pose proof (ei_decode_list_header_decodes true (zlen l) (ERL_LIST_EXT :: be_bytes 4 (zlen l)) ltac:(lia)
    ltac:(unfold list_header_bytes; by replace (zlen l <? 0) with false by lia; replace (0 <? zlen l) with true by lia)) as Hd.
  destruct (decodes_app _ _ _ _ _ _ Hd Hh) as [-> Hh2]. cbn [ofdres rbind].
  rewrite wraps_small by (unfold in_s; lia). assert (zlen (ERL_LIST_EXT :: be_bytes 4 (zlen l)) = 5) as E5 by zlen_lia.
  rewrite E5 in *. replace (size - (index + 5)) with (zlen (list_names l)) by lia.
  pose proof (zlen_nonneg (list_names l)). rewrite wrapu_small by (unfold in_u; lia). rewrite (Z.mul_comm (zlen l + 1)).
  rewrite Halloc. cbn [negb]. set (b := junk _). assert (zlen b = 8 * (zlen l + 1) + zlen (list_names l)) as Hb by
    (unfold b, zlen at 1; rewrite Hj; lia).
  set (X := take (Z.to_nat (8 * (zlen l + 1))) b). set (Y := drop (Z.to_nat (8 * (zlen l + 1))) b).
  assert (zlen X = 8 * (zlen l + 1)) as HX by (unfold X, zlen in *; rewrite length_take; lia).
  assert (zlen Y = zlen (list_names l)) as HY by (unfold Y, zlen in *; rewrite length_drop; lia).
  pose proof (zlen_strings l Hl) as Hstr.
  assert (zlen (strings l) <= zlen Y) as HsY by (rewrite HY; unfold list_names; zlen_lia).
  replace b with ([] ++ X ++ [] ++ Y) by (unfold X, Y; apply take_drop).
  replace (Z.to_nat (zlen l + 1)) with (S (length l)) by (unfold zlen; lia).
  rewrite (names_loop_ok base buf l Hl 0 _ (8 * (zlen l + 1)) 0 [] X [] Y Hh2); [|done|done|rewrite HX; change (zlen (@nil Z)) with 0; lia|done].
  cbn [app rbind]. rewrite <- app_assoc. replace (8 * (0 + zlen l)) with (zlen (pointers base (8 * (zlen l + 1)) l))
    by (rewrite zlen_pointers; lia).
  pose proof (zlen_pointer 0) as Hp0. pose proof (zlen_pointer (base + 8 * (zlen l + 1) + zlen (strings l))) as Hp1.
  rewrite store_behind by (rewrite length_app; unfold zlen in *; lia). cbn [ofopt rbind].
  rewrite drop_app_length' by (unfold zlen in *; lia). exists (drop (length (strings l)) Y).
  unfold name_block. rewrite <- !app_assoc, Z.add_0_l. split; [done|]. rewrite !zlen_app, zlen_pointers, Hp0.
  unfold zlen in *. rewrite length_drop. lia.
Qed.

Section Answers.
Variable scan : list Z -> option Z.
Variable fuel : nat.
Variable alloc : Z -> bool.
Variable junk : nat -> list Z.
Hypothesis junk_length : forall n, length (junk n) = n.

(** The state after a request: the same, but for the bytes in the buffer, the trace
    state, the socket and what was sent. *)
Definition requested (st : recv_state) (hdr payload : list Z) (tr : trace_state) (ws : list cwrite) (st' : recv_state) : Prop :=
  exists buf, store (rv_mbuf st) 0 payload = Some buf /\
  st' = {| rv_mbuf := buf; rv_bufsz := rv_bufsz st; rv_msg := rv_msg st; rv_msglen := rv_msglen st; rv_trace := tr;
           rv_reads := rv_reads st; rv_writes := ws; rv_sent := rv_sent st ++ hdr ++ payload |}.

(** [payload] is sent to [rex] in a packet with the header [hdr], in which the other
    node receives it. *)
Definition reaches_rex (self : erlang_pid) (fd : fd_info) (header : mem) (tr : trace_state) (token : option erlang_trace)
    (tr' : trace_state) (hdr payload : list Z) : Prop :=
  (forall ws, ei_send_reg_encoded_tmo fd header tr ws self (str "rex"%string) payload
              = (let~ (sent, ws) := transmit fd ws hdr payload in ROk (sent, tr', ws))) /\
  (forall ws sent ws', transmit fd ws hdr payload = ROk (sent, ws') -> sent = hdr ++ payload) /\
  forall static st rs', packet_arrives (rv_reads st) (hdr ++ payload) rs' -> roomy alloc static st (zlen payload) ->
  receives scan fuel alloc junk static st payload
    (with_token token {| msgtype := ERL_REG_SEND; msg_from := self; msg_to := msg_to (rv_msg st);
       msg_toname := str "rex"%string; msg_cookie := utf8_text (take 255 (fi_cookie fd));
       msg_token := msg_token (rv_msg st) |}) (trace_after (rv_trace st) token) rs'.

Lemma request_sent fd header self sb fun_ args abss st token tr' :
  let payload := request sb fun_ (concat abss) in
  send_token fd (rv_trace st) = (token, tr') -> wire_name (fi_cookie fd) -> wire_pid self -> wire_token token ->
  zlen header = 1400 -> pid_bytes self = Some sb -> bytes_ok fun_ -> Forall2 (fun f bs => Emits f (Some bs)) args abss ->
  zlen payload <= zlen (rv_mbuf st) -> zlen (rv_mbuf st) < 2 ^ 31 - 1400 ->
  exists hdr, reaches_rex self fd header (rv_trace st) token tr' hdr payload /\
    forall st1, send_request fd header self (call_head self fun_ ++ args ++ call_tail) st = ROk st1 <->
      exists ws, transmit fd (rv_writes st) hdr payload = ROk (hdr ++ payload, ws) /\ requested st hdr payload tr' ws st1.
Proof.
  intros payload Etok Hc Hself Htok Hh Esb Hf Ha Hz Hm.
  destruct (reg_exchanged scan fuel alloc junk junk_length fd header (rv_trace st) self (str "rex"%string) payload token tr')
    as (hdr & E & Hsent & Hrecv); [done..| |done|done|lia|].
  { split; [apply str_bytes_ok|by vm_compute]. }
  exists hdr. split; [by split_and!|].
  destruct (call_emits self sb fun_ args abss Hself Esb Hf Ha) as [_ Hb]. specialize (Hb (rv_mbuf st) 0). cbn beta iota in Hb.
  fold payload in Hb. unfold send_request. rewrite Hb. unfold emit, put_bytes.
  destruct (store_some (rv_mbuf st) 0 payload) as [buf Es]; [lia|lia|]. rewrite Es. cbn [Z.add].
  rewrite (holds_slice _ _ payload) by (try done; by eapply store_holds). cbn [ofopt rbind]. rewrite E. intros st1. split.
  - destruct (transmit fd (rv_writes st) hdr payload) as [[sent ws]| | | |] eqn:Et; cbn [rbind]; try done.
    intros [= <-]. pose proof (Hsent _ _ _ Et) as ->. exists ws. split; [done|]. by exists buf.
  - intros (ws & -> & buf' & Es' & ->). cbn [rbind]. by simplify_eq.
Qed.

(** Any number of ticks in front of a message change nothing but what is sent. *)
Lemma recv_wait_ticks size rs ws rs1 ws1 outs : ticks rs ws rs1 ws1 outs ->
  forall n st r, rv_reads st = rs -> rv_writes st = ws -> (length rs <= n)%nat ->
  (forall len, ei_recv_internal scan fuel alloc junk true
     {| rv_mbuf := rv_mbuf st; rv_bufsz := size; rv_msg := rv_msg st; rv_msglen := len; rv_trace := rv_trace st;
        rv_reads := rs1; rv_writes := ws1; rv_sent := rv_sent st ++ outs |} = ROk r) ->
  fst r <> 0 -> recv_wait scan fuel alloc junk n size st = ROk r.
Proof.
  induction 1 as [rs ws|rs ws rs1 ws1 e out rs2 ws2 outs Hd Hw _ IH]; intros n st r Ers Ews Hn E Hr.
  - specialize (E (rv_msglen st)). rewrite app_nil_r, <- Ers, <- Ews in E.
    destruct n; cbn [recv_wait]; unfold set_bufsz; rewrite E; cbn [rbind]; by replace (fst r =? 0) with false by lia.
  - apply delivers_shorter in Hd as Hl. destruct n as [|n]; [lia|]. cbn [recv_wait].
    rewrite <- Ers in Hd. rewrite <- Ews in Hw.
    rewrite (tick_received scan fuel alloc junk junk_length true (set_bufsz size st) _ _ _ _ Hd Hw). cbn [rbind fst snd].
    change (ERL_TICK =? 0) with true. cbn iota.
    apply IH; [done|done|lia| |done]. intros len. cbn. rewrite <- app_assoc. apply E.
Qed.

(** A message to this node that another node sends is what the functions wait for. *)
Lemma answer_waited fd header tr to payload token tr' :
  send_token fd tr = (token, tr') -> wire_name (fi_cookie fd) -> wire_pid to -> wire_token token ->
  zlen header = 1200 -> zlen payload < 2 ^ 31 - 1200 ->
  exists hdr,
    (forall ws, ei_send_encoded_tmo fd header tr ws to payload
                = (let~ (sent, ws) := transmit fd ws hdr payload in ROk (sent, tr', ws))) /\
    forall size st rs1 ws1 outs rs',
    ticks (rv_reads st) (rv_writes st) rs1 ws1 outs -> packet_arrives rs1 (hdr ++ payload) rs' ->
    zlen (rv_mbuf st) = size -> zlen payload <= size ->
    exists st', recv_wait scan fuel alloc junk (length (rv_reads st)) size st = ROk (ERL_SEND, st') /\
      holds (rv_mbuf st') 0 payload /\ rv_msglen st' = zlen payload /\ msg_to (rv_msg st') = to /\
      rv_reads st' = rs' /\ rv_writes st' = ws1 /\ rv_sent st' = rv_sent st ++ outs.
Proof.
  intros Etok Hc Hto Htok Hh Hp.
  destruct (send_exchanged scan fuel alloc junk junk_length fd header tr to payload token tr') as (hdr & E & Hsent & Hrecv); [done..|].
  exists hdr. split; [exact E|]. intros size st rs1 ws1 outs rs' Hticks Harr Hsize Hfit.
  set (st1 len := {| rv_mbuf := rv_mbuf st; rv_bufsz := size; rv_msg := rv_msg st; rv_msglen := len; rv_trace := rv_trace st;
        rv_reads := rs1; rv_writes := ws1; rv_sent := rv_sent st ++ outs |}).
  destruct (Hrecv true (st1 0) rs' Harr) as (st' & Ex & Hm & Hl & Hb & _ & _ & Hr & Hw & Hs); [by split; [|left]|].
  exists st'. split; [|by rewrite Hm, Hl, Hr, Hw, Hs; destruct token].
  rewrite (recv_wait_ticks size _ _ _ _ _ Hticks _ st (ERL_SEND, st')); [done..| |done].
  intros len. change (ei_recv_internal scan fuel alloc junk true (st1 len) = ROk (ERL_SEND, st')).
  transitivity (ei_recv_internal scan fuel alloc junk true (st1 0)); [done|]. rewrite Ex. by destruct token.
Qed.

(** *** Atoms as they are in memory *)

(** An atom of the external format with the given characters of Latin-1, in each of the four
    forms. *)
Inductive atom_wire (chars : list Z) : list Z -> Prop :=
  | wire_atom : zlen chars < 65536 -> atom_wire chars (ERL_ATOM_EXT :: be_bytes 2 (zlen chars) ++ chars)
  | wire_small_atom : zlen chars < 256 -> atom_wire chars (ERL_SMALL_ATOM_EXT :: zlen chars :: chars)
  | wire_atom_utf8 : zlen (utf8_text chars) < 65536 ->
      atom_wire chars (ERL_ATOM_UTF8_EXT :: be_bytes 2 (zlen (utf8_text chars)) ++ utf8_text chars)
  | wire_small_atom_utf8 : zlen (utf8_text chars) < 256 ->
      atom_wire chars (ERL_SMALL_ATOM_UTF8_EXT :: zlen (utf8_text chars) :: utf8_text chars).

Lemma holds_glue m s l1 l2 : holds m s l1 -> holds m (s + zlen l1) l2 -> holds m s (l1 ++ l2).
Proof.
  intros (pre & post & -> & <-) (pre2 & post2 & E & Hl). rewrite app_assoc in E.
  apply app_inj_1 in E as [<- ->]; [|unfold zlen in Hl; rewrite length_app; lia]. exists pre, post2. by rewrite <- !app_assoc.
Qed.
Lemma mem_get_holds m s b : mem_get m s = Some b -> holds m s [b] /\ (bytes_ok m -> byte_ok b).
Proof.
  unfold mem_get. destruct (Z.ltb_spec s 0); [done|]. intros E. split.
  - exists (take (Z.to_nat s) m), (drop (S (Z.to_nat s)) m). split; [symmetry; exact (take_drop_middle m (Z.to_nat s) b E)|]. apply lookup_lt_Some in E. unfold zlen. rewrite length_take. lia.
  - intros Hm. by eapply Forall_lookup_1.
Qed.
Lemma get8_inv m s b t : bytes_ok m -> get8 m s = Some (b, t) -> holds m s [b] /\ t = s + 1 /\ byte_ok b.
Proof.
  intros Hm. unfold get8. destruct (mem_get m s) as [b0|] eqn:E; [|done]. apply mem_get_holds in E as [Hh Hb]. rewrite land_255_small by auto. intros [= <- <-]. auto.
Qed.
Lemma get16be_inv m s n t : bytes_ok m -> get16be m s = Some (n, t) -> holds m s (be_bytes 2 n) /\ t = s + 2 /\ in_u 16 n.
Proof.
  intros Hm. unfold get16be. destruct (mem_get m s) as [b0|] eqn:E0; [|done]. destruct (mem_get m (s + 1)) as [b1|] eqn:E1; [|done].
  apply mem_get_holds in E0 as [H0 B0], E1 as [H1 B1]. specialize (B0 Hm). specialize (B1 Hm). rewrite be16_val by done. intros [= <- <-].
  assert (be_bytes 2 (be_val [b0; b1]) = [b0; b1]) as ->.
  { rewrite be_val_cons, be_val_cons. change (be_val []) with 0. cbn [length Z.of_nat]. unfold be_bytes, byte_at, byte_ok in *. cbn [map seq rev app].
    change (256 ^ Z.of_nat 1) with 256. change (256 ^ Z.of_nat 0) with 1. rewrite !Z.shiftr_div_pow2 by lia. change 255 with (Z.ones 8). rewrite !Z.land_ones by lia. change (2 ^ 8) with 256.
    f_equal; [|f_equal].
    - change (2 ^ _) with 256. rewrite <- (Z.div_unique (b0 * 256 + (b1 * 1 + 0)) 256 b0 b1) by lia. by rewrite Z.mod_small by lia.
    - change (2 ^ _) with 1. rewrite Z.div_1_r. symmetry. apply (Z.mod_unique_pos _ _ b0); lia. }
  split; [|split; [done|]].
  - exact (holds_glue m s [b0] [b1] H0 H1).
  - assert (bytes_ok [b0; b1]) as Hb by (constructor; [done|]; constructor; [done|constructor]). pose proof (be_val_range [b0; b1] Hb) as R. unfold in_u. exact R.
Qed.

(** What is taken for UTF-8 of Latin-1 is the UTF-8 of its characters. *)
Lemma pair_latin1 c c1 : byte_ok c -> byte_ok c1 -> Z.land c 0x80 <> 0 -> (Z.land c 0xFE =? 0xC2) && (Z.land c1 0xC0 =? 0x80) = true ->
  let o := Z.land (Z.lor (Z.shiftl c 6) (Z.land c1 0x3F)) 255 in byte_ok o /\ utf8_encode o = [c; c1].
Proof.
  intros Hc H1 Ha Hm. cbv zeta. assert (c = 0xC2 \/ c = 0xC3) as Hc2.
  { apply andb_true_iff in Hm as [Hm _]. pose proof (byte_forall (fun c => negb (Z.land c 0xFE =? 0xC2) || (c =? 0xC2) || (c =? 0xC3)) ltac:(vm_compute; reflexivity) c Hc) as H. cbv beta in H. rewrite Hm in H. cbn [negb orb] in H. apply orb_true_iff in H. rewrite !Z.eqb_eq in H. done. }
  apply andb_true_iff in Hm as [_ Hm].
  pose proof (byte_forall (fun c1 => negb (Z.land c1 0xC0 =? 0x80) ||
    forallb (fun c => let o := Z.land (Z.lor (Z.shiftl c 6) (Z.land c1 0x3F)) 255 in (0 <=? o) && (o <? 256) && match utf8_encode o with [a; b] => (a =? c) && (b =? c1) | _ => false end) [0xC2; 0xC3])
    ltac:(vm_compute; reflexivity) c1 H1) as H. cbv beta in H. rewrite Hm in H. cbn [negb orb] in H.
  rewrite forallb_forall in H. specialize (H c ltac:(destruct Hc2 as [-> | ->]; cbn [In]; auto)). cbv zeta in H.
  rewrite !andb_true_iff, Z.leb_le, Z.ltb_lt in H. destruct H as [Hr He]. split; [exact Hr|]. destruct (utf8_encode _) as [|a [|b [|]]]; try done. rewrite andb_true_iff, !Z.eqb_eq in He. by destruct He as [-> ->].
Qed.
Lemma utf8_loop_text src k d o f : bytes_ok src -> utf8_to_latin1_loop src k d = Some (o, f) -> src = utf8_text o /\ bytes_ok o.
Proof.
  revert k o f. induction src as [src IH] using (induction_ltof1 _ (@length Z)). unfold ltof in IH.
  intros k o f Hok. destruct src as [|c r]; [intros [= <- <-]; by split|]. apply Forall_cons_1 in Hok as [Hc Hr].
  cbn [utf8_to_latin1_loop]. destruct (d <=? k); [done|]. destruct (Z.eqb_spec (Z.land c 0x80) 0) as [Ea|Ea].
  - destruct (utf8_to_latin1_loop r (k + 1) d) as [[o' f']|] eqn:E; [|done]. intros [= <- <-].
    destruct (IH r ltac:(cbn; lia) _ _ _ Hr E) as [-> Ho]. split; [|by constructor]. change (utf8_text (c :: o')) with (utf8_encode c ++ utf8_text o'). unfold utf8_encode.
    apply Z.eqb_eq in Ea. rewrite mask_80 in Ea by done. by rewrite Ea.
  - destruct r as [|c1 r]; [done|]. apply Forall_cons_1 in Hr as [Hc1 Hr]. destruct (_ && _) eqn:Em; [|done].
    destruct (utf8_to_latin1_loop r (k + 1) d) as [[o' f']|] eqn:E; [|done]. intros [= <- <-].
    destruct (IH r ltac:(cbn; lia) _ _ _ Hr E) as [-> Ho]. destruct (pair_latin1 c c1 Hc Hc1 Ea Em) as [Hb Ep]. split; [|by constructor].
    change (utf8_text (?x :: o')) with (utf8_encode x ++ utf8_text o'). rewrite Ep. done.
Qed.

Lemma atom_header_inv m i len enc s : bytes_ok m -> atom_header m i = DOk (len, enc) s ->
  exists hd, holds m i hd /\ s = i + zlen hd /\ 0 <= len < 65536 /\
    (enc = ERLANG_LATIN1 /\ hd = ERL_ATOM_EXT :: be_bytes 2 len \/ enc = ERLANG_LATIN1 /\ hd = [ERL_SMALL_ATOM_EXT; len] /\ len < 256 \/
     enc = ERLANG_UTF8 /\ hd = ERL_ATOM_UTF8_EXT :: be_bytes 2 len \/ enc = ERLANG_UTF8 /\ hd = [ERL_SMALL_ATOM_UTF8_EXT; len] /\ len < 256).
Proof.
  intros Hm. unfold atom_header. destruct (get8 m i) as [[tag t]|] eqn:Et; [|done]. apply get8_inv in Et as (Ht & -> & _); [|done].
  assert (forall n u, get8 m (i + 1) = Some (n, u) -> holds m i [tag; n] /\ u = i + 2 /\ 0 <= n < 256) as G8.
  { intros n u E. apply get8_inv in E as (Hn & -> & Hb); [|done]. split; [exact (holds_glue m i [tag] [n] Ht Hn)|]. unfold byte_ok in Hb. lia. }
  assert (forall n u, get16be m (i + 1) = Some (n, u) -> holds m i (tag :: be_bytes 2 n) /\ u = i + 3 /\ 0 <= n < 65536) as G16.
  { intros n u E. apply get16be_inv in E as (Hn & -> & Hb); [|done]. split; [exact (holds_glue m i [tag] _ Ht Hn)|]. unfold in_u in Hb. change (2 ^ 16) with 65536 in Hb. lia. }
  repeat match goal with |- context [tag =? ?c] => destruct (Z.eqb_spec tag c) as [->|_] end; [..|done];
    [destruct (get16be m (i + 1)) as [[n u]|] eqn:E|destruct (get8 m (i + 1)) as [[n u]|] eqn:E|
     destruct (get16be m (i + 1)) as [[n u]|] eqn:E|destruct (get8 m (i + 1)) as [[n u]|] eqn:E]; try done; intros [= <- <- <-];
    [destruct (G16 _ _ eq_refl) as (Hh & -> & ?)|destruct (G8 _ _ eq_refl) as (Hh & -> & ?)|
     destruct (G16 _ _ eq_refl) as (Hh & -> & ?)|destruct (G8 _ _ eq_refl) as (Hh & -> & ?)];
    eexists; (split; [exact Hh|]; split; [zlen_lia|]; split; [lia|]; intuition lia).
Qed.
Lemma ei_decode_atom_inv m i a s : bytes_ok m -> ei_decode_atom m i = DOk a s ->
  exists bs, atom_wire (at_name a) bs /\ bytes_ok (at_name a) /\ holds m i bs /\ s = i + zlen bs.
Proof.
  intros Hm. unfold ei_decode_atom, ei_decode_atom_as. destruct (atom_header m i) as [[len enc] t|j| |] eqn:Eh; try done.
  apply atom_header_inv in Eh as (hd & Hh & -> & Hlen & Hcase); [|done].
  assert (forall src, slice m (i + zlen hd) len = Some src -> zlen src = len /\ holds m i (hd ++ src) /\ bytes_ok src) as Hs.
  { intros src E. apply slice_some in E as (H1 & H2 & H3). split; [done|]. split; [by apply holds_glue|auto]. }
  destruct Hcase as [[-> ->]|[(-> & -> & ?)|[[-> ->]|(-> & -> & ?)]]]; closed_tests.
  1, 2: destruct (Z.leb_spec MAXATOMLEN len); [done|]; destruct (slice _ _ _) as [src|]; [|done]; destruct (Hs src eq_refl) as (Hl & Hhold & Hok);
    intros [= <- <-]; cbn [at_name]; eexists; (split; [|split; [exact Hok|split; [exact Hhold|subst len; zlen_lia]]]); subst len; cbn [app]; constructor; lia.
  all: destruct (slice _ _ _) as [src|]; [|done]; destruct (Hs src eq_refl) as (Hl & Hhold & Hok); rewrite utf8_fast_track by done;
    destruct (utf8_to_latin1_loop src 0 (MAXATOMLEN - 1)) as [[o f]|] eqn:E; [|done]; intros [= <- <-]; cbn [at_name];
    apply utf8_loop_text in E as [-> Ho]; [|done]; eexists; (split; [|split; [exact Ho|split; [exact Hhold|subst len; zlen_lia]]]); subst len; cbn [app]; constructor; lia.
Qed.
Lemma ei_decode_atom_wire m i chars bs : atom_wire chars bs -> bytes_ok chars -> zlen chars < 256 -> holds m i bs ->
  exists a, ei_decode_atom m i = DOk a (i + zlen bs) /\ at_name a = chars.
Proof.
  intros Hw Hok Hl Hh. unfold ei_decode_atom, ei_decode_atom_as, atom_header. pose proof (zlen_nonneg chars). pose proof (zlen_nonneg (utf8_text chars)).
  destruct (latin1_text chars Hok ltac:(lia)) as (f & Et & _). rewrite latin1_fast_track in Et by done.
  pose proof (latin1_loop_ok _ _ _ _ _ Hok Et) as Hu. pose proof (latin1_utf8_latin1 _ _ _ _ _ 0 (MAXATOMLEN - 1) Hok Et ltac:(unfold MAXATOMLEN; lia)) as El.
  destruct Hw as [Hz|Hz|Hz|Hz]; read_tag Hh.
  - apply get16be_holds in Hh as [-> Hh]; [|unfold in_u; lia]. closed_tests. replace (MAXATOMLEN <=? zlen chars) with false by (unfold MAXATOMLEN; lia). rewrite (holds_slice _ _ _ _ Hh eq_refl). eexists. split; [f_equal; zlen_lia|done].
  - apply get8_holds in Hh as [-> Hh]; [|unfold byte_ok; lia]. closed_tests. replace (MAXATOMLEN <=? zlen chars) with false by (unfold MAXATOMLEN; lia). rewrite (holds_slice _ _ _ _ Hh eq_refl). eexists. split; [f_equal; zlen_lia|done].
  - apply get16be_holds in Hh as [-> Hh]; [|unfold in_u; lia]. closed_tests. rewrite (holds_slice _ _ _ _ Hh eq_refl), utf8_fast_track, El by done. eexists. split; [f_equal; zlen_lia|done].
  - apply get8_holds in Hh as [-> Hh]; [|unfold byte_ok; lia]. closed_tests. rewrite (holds_slice _ _ _ _ Hh eq_refl), utf8_fast_track, El by done. eexists. split; [f_equal; zlen_lia|done].
Qed.

(** *** The answer *)

Lemma expect_atom_ok a buf index rest :
  holds buf index (name_bytes a ++ rest) -> rpc_name a -> zlen a < 64 -> forallb (fun c => negb (c =? 0)) a = true ->
  expect_atom a buf index = ROk (index + zlen (name_bytes a)) /\ holds buf (index + zlen (name_bytes a)) rest.
Proof.
  intros Hh [Hok Hl] Hs Hn. unfold expect_atom. destruct (latin1_text a Hok Hl) as (f & E & _).
  pose proof (latin1_atom_decodes a _ _ Hok ltac:(unfold MAXATOMLEN; lia) E) as Hd.
  unfold name_bytes in *. rewrite take_ge in * by (unfold zlen in *; lia).
  destruct (decodes_app _ _ _ _ _ _ Hd Hh) as [-> Hr]. cbn [ofdres rbind latin1_atom_out at_name].
  replace (64 <? zlen a + 1) with false by lia. by rewrite c_str_id, bool_decide_true.
Qed.

Lemma expect_rex_ok buf rest : holds buf 0 (reply_header ++ rest) -> expect_rex buf = ROk 8 /\ holds buf 8 rest.
Proof.
  unfold reply_header. intros Hh. unfold expect_rex.
  change [ERL_VERSION_MAGIC; ERL_SMALL_TUPLE_EXT; 2] with ([ERL_VERSION_MAGIC] ++ [ERL_SMALL_TUPLE_EXT; 2]) in Hh.
  rewrite <- !app_assoc in Hh. destruct (decodes_app _ _ _ _ _ _ ei_decode_version_decodes Hh) as [-> Ht].
  cbn [ofdres rbind]. change (0 + zlen [ERL_VERSION_MAGIC]) with 1 in *.
  pose proof (ei_decode_tuple_header_decodes true 2 [ERL_SMALL_TUPLE_EXT; 2] ltac:(done) eq_refl) as Hd.
  destruct (decodes_app _ _ _ _ _ _ Hd Ht) as [-> Hr]. cbn [ofdres rbind Z.eqb Pos.eqb negb]. cbv iota.
  change (1 + zlen [ERL_SMALL_TUPLE_EXT; 2]) with 3 in *.
  destruct (expect_atom_ok (str "rex"%string) buf 3 rest Hr) as [-> Hrest]; [by apply str_name|done|done|done].
Qed.

(** The bytes of [{rex, Answer}]: a tuple of two, whose header may be short or long, and two
    atoms whose characters, up to a NUL as for [strcmp], are those. *)
Definition reads_as (a expected bs : list Z) : Prop := atom_wire a bs /\ bytes_ok a /\ zlen a < 64 /\ c_str a = expected.
Definition answer_message (expected bs : list Z) : Prop :=
  exists tuple rex b1 ans b2,
    (tuple = [ERL_SMALL_TUPLE_EXT; 2] \/ tuple = ERL_LARGE_TUPLE_EXT :: be_bytes 4 2) /\
    reads_as rex (str "rex"%string) b1 /\ reads_as ans expected b2 /\ bs = [ERL_VERSION_MAGIC] ++ tuple ++ b1 ++ b2.

Lemma expect_atom_exact expected buf i j : bytes_ok buf ->
  expect_atom expected buf i = ROk j <-> exists a bs, reads_as a expected bs /\ holds buf i bs /\ j = i + zlen bs.
Proof.
  intros Hok. unfold expect_atom, reads_as. split.
  - destruct (ei_decode_atom buf i) as [a s|k| |] eqn:E; try done. cbn [ofdres rbind]. apply ei_decode_atom_inv in E as (bs & Hw & Hb & Hh & ->); [|done].
    destruct (Z.ltb_spec 64 (zlen (at_name a) + 1)); [done|]. case_bool_decide as Ec; [|done]. intros [= <-]. exists (at_name a), bs. split_and!; try done. lia.
  - intros (a & bs & (Hw & Hb & Hl & Hc) & Hh & ->). destruct (ei_decode_atom_wire buf i a bs Hw Hb ltac:(lia) Hh) as (out & -> & En). cbn [ofdres rbind]. rewrite En.
    replace (64 <? zlen a + 1) with false by lia. by rewrite bool_decide_true.
Qed.
Lemma get32be_two m s t : bytes_ok m -> get32be m s = Some (2, t) -> holds m s (be_bytes 4 2) /\ t = s + 4.
Proof.
  intros Hm. unfold get32be. destruct (mem_get m s) as [b0|] eqn:E0; [|done]. destruct (mem_get m (s + 1)) as [b1|] eqn:E1; [|done].
  destruct (mem_get m (s + 2)) as [b2|] eqn:E2; [|done]. destruct (mem_get m (s + 3)) as [b3|] eqn:E3; [|done].
  apply mem_get_holds in E0 as [H0 B0], E1 as [H1 B1], E2 as [H2 B2], E3 as [H3 B3]. specialize (B0 Hm). specialize (B1 Hm). specialize (B2 Hm). specialize (B3 Hm).
  rewrite be32_val by done. intros E. injection E as Ev <-. split; [|done]. rewrite !be_val_cons in Ev. change (be_val []) with 0 in Ev. cbn [length] in Ev.
  change (256 ^ Z.of_nat 3) with 16777216 in Ev. change (256 ^ Z.of_nat 2) with 65536 in Ev. change (256 ^ Z.of_nat 1) with 256 in Ev. change (256 ^ Z.of_nat 0) with 1 in Ev.
  unfold byte_ok in *. unfold wraps in Ev. change (2 ^ (32 - 1)) with 2147483648 in Ev. change (2 ^ 32) with 4294967296 in Ev.
  set (v := b0 * 16777216 + (b1 * 65536 + (b2 * 256 + (b3 * 1 + 0)))) in *. pose proof (Z.div_mod (v + 2147483648) 4294967296 ltac:(lia)) as Ed. set (q := (v + 2147483648) / 4294967296) in *. clearbody q.
  assert (v = 2) as E2 by (unfold v in *; lia). assert (b0 = 0 /\ b1 = 0 /\ b2 = 0 /\ b3 = 2) as (-> & -> & -> & ->) by (unfold v in E2; lia).
  change (be_bytes 4 2) with ([0] ++ [0] ++ [0] ++ [2]). apply holds_glue; [done|]. change (s + zlen [0]) with (s + 1). apply holds_glue; [done|]. replace (s + 1 + zlen [0]) with (s + 2) by zlen_lia. apply holds_glue; [done|]. by replace (s + 2 + zlen [0]) with (s + 3) by zlen_lia.
Qed.
Lemma tuple_of_two m i s : bytes_ok m ->
  ei_decode_tuple_header true m i = DOk 2 s <-> exists tuple, (tuple = [ERL_SMALL_TUPLE_EXT; 2] \/ tuple = ERL_LARGE_TUPLE_EXT :: be_bytes 4 2) /\ holds m i tuple /\ s = i + zlen tuple.
Proof.
  intros Hm. unfold ei_decode_tuple_header. split.
  - destruct (get8 m i) as [[tag t]|] eqn:E; [|done]. apply get8_inv in E as (Ht & -> & _); [|done]. destruct (Z.eqb_spec tag ERL_SMALL_TUPLE_EXT) as [->|_].
    + destruct (get8 m (i + 1)) as [[n u]|] eqn:E; [|done]. apply get8_inv in E as (Hn & -> & _); [|done]. intros [= -> <-]. eexists. split; [by left|]. split; [exact (holds_glue m i [_] [2] Ht Hn)|zlen_lia].
    + destruct (Z.eqb_spec tag ERL_LARGE_TUPLE_EXT) as [->|_]; [|done]. destruct (get32be m (i + 1)) as [[n u]|] eqn:E; [|done]. intros [= -> <-]. apply get32be_two in E as [Hn ->]; [|done].
      eexists. split; [by right|]. split; [exact (holds_glue m i [_] _ Ht Hn)|zlen_lia].
  - intros (tuple & [-> | ->] & Hh & ->); read_tag Hh.
    + apply get8_holds in Hh as [-> Hh]; [|unfold byte_ok; lia]. f_equal. zlen_lia.
    + rewrite <- (app_nil_r (be_bytes 4 2)) in Hh. apply get32be_holds in Hh as [-> Hh]. f_equal. zlen_lia.
Qed.
Lemma expect_answer_exact expected buf : bytes_ok buf ->
  (exists index, expect_answer expected buf = ROk index) <-> exists bs, holds buf 0 bs /\ answer_message expected bs.
Proof.
  intros Hok. unfold expect_answer, expect_rex, answer_message. split.
  - intros [index E]. destruct (ei_decode_version buf 0) as [v s|k| |] eqn:Ev; try done. cbn [ofdres rbind] in E.
    unfold ei_decode_version in Ev. destruct (get8 buf 0) as [[b t]|] eqn:E8; [|done]. apply get8_inv in E8 as (Hv & -> & _); [|done]. destruct (Z.eqb_spec b ERL_VERSION_MAGIC) as [->|]; [|done]. cbn [negb] in Ev. injection Ev as <- <-.
    destruct (ei_decode_tuple_header true buf (0 + 1)) as [arity s|k| |] eqn:Et; try done. cbn [ofdres rbind] in E. destruct (Z.eqb_spec arity 2) as [->|]; [|done]. cbn [negb] in E.
    apply tuple_of_two in Et as (tuple & Htup & Hh & ->); [|done]. apply rbind_ROk in E as (i1 & E1 & E2). apply expect_atom_exact in E1 as (rex & b1 & Hr & Hh1 & ->); [|done]. apply expect_atom_exact in E2 as (ans & b2 & Ha & Hh2 & ->); [|done].
    eexists. split; [|exists tuple, rex, b1, ans, b2; split; [exact Htup|]; split; [exact Hr|]; split; [exact Ha|reflexivity]].
    apply holds_glue; [done|]. change (0 + zlen [ERL_VERSION_MAGIC]) with (0 + 1). apply holds_glue; [done|]. by apply holds_glue.
  - intros (bs & Hh & tuple & rex & b1 & ans & b2 & Htup & Hr & Ha & ->).
    apply holds_app in Hh as [Hv Hh]. apply holds_app in Hh as [Ht Hh]. apply holds_app in Hh as [H1 H2].
    rewrite (ei_decode_version_decodes buf 0 Hv). cbn [ofdres rbind]. rewrite (proj2 (tuple_of_two buf _ _ Hok) (ex_intro _ tuple (conj Htup (conj Ht eq_refl)))). cbn [ofdres rbind Z.eqb Pos.eqb negb].
    eexists. rewrite (proj2 (expect_atom_exact _ buf _ _ Hok) (ex_intro _ rex (ex_intro _ b1 (conj Hr (conj H1 eq_refl))))). cbn [rbind]. apply expect_atom_exact; [done|]. by exists ans, b2.
Qed.

(** The messages that were received one after the other, each behind its ticks. *)
Inductive signals : recv_state -> list Z -> recv_state -> Prop :=
  | signals_none st : signals st [] st
  | signals_more st i st1 is_ st2 :
      recv_wait scan fuel alloc junk (length (rv_reads st)) EISMALLBUF st = ROk (i, st1) -> signals st1 is_ st2 ->
      signals st (i :: is_) st2.

Lemma signals_head st i is_ st' : signals st (i :: is_) st' ->
  exists st1, recv_wait scan fuel alloc junk (length (rv_reads st)) EISMALLBUF st = ROk (i, st1) /\ signals st1 is_ st'.
Proof. inversion 1; eauto. Qed.

(** A signal that is still awaited. *)
Definition awaited (link monitor : Z) (needlink needmonitor : bool) (i : Z) : Prop :=
  i = link /\ needlink = true \/ i = monitor /\ needmonitor = true.

(** The function succeeds when the messages up to the answer are signals that it
    awaits, none of them twice, and the answer is the expected one; [turns] are enough. *)
Definition answered (link monitor : Z) (expected : list Z) (nl nm : bool) (st st' : recv_state) : Prop :=
  exists is_ bs, NoDup is_ /\ Forall (awaited link monitor nl nm) is_ /\ signals st (is_ ++ [ERL_SEND]) st' /\
    holds (rv_mbuf st') 0 bs /\ answer_message expected bs.

Ltac awaited_cases := unfold awaited; intuition congruence.

Lemma answered_more link monitor expected nl nm nl' nm' st i st1 st' :
  recv_wait scan fuel alloc junk (length (rv_reads st)) EISMALLBUF st = ROk (i, st1) ->
  awaited link monitor nl nm i -> i <> ERL_SEND ->
  (forall k, awaited link monitor nl' nm' k <-> awaited link monitor nl nm k /\ k <> i) ->
  answered link monitor expected nl' nm' st1 st' <-> answered link monitor expected nl nm st st'.
Proof.
  intros E Hi Hs Hk. split.
  - intros (is_ & index & Hd & Ha & Hsig & Hx). exists (i :: is_), index. split; [|split; [|split; [|exact Hx]]].
    + constructor; [|done]. intros Hin. rewrite list.Forall_forall in Ha. by destruct (proj1 (Hk i) (Ha i Hin)).
    + constructor; [done|]. eapply list.Forall_impl; [exact Ha|]. intros k. apply Hk.
    + by econstructor.
  - intros ([|k is_] & index & Hd & Ha & Hsig & Hx).
    + apply signals_head in Hsig as (st2 & E2 & _). congruence.
    + apply signals_head in Hsig as (st2 & E2 & Hsig2). rewrite E in E2. injection E2 as <- <-. exists is_, index. inversion Hd as [|? ? Hin Hd2]; simplify_eq.
      inversion Ha as [|? ? _ Ha2]; simplify_eq. split; [done|]. split; [|split; [exact Hsig2|exact Hx]].
      apply list.Forall_forall. intros x Hxin. rewrite list.Forall_forall in Ha2. apply Hk. split; [by apply Ha2|]. by intros ->.
Qed.

Lemma wait_answer_some turns link monitor expected nl nm st st' :
  link <> monitor -> link <> ERL_SEND -> monitor <> ERL_SEND -> bytes_ok (rv_mbuf st') -> (Nat.b2n nl + Nat.b2n nm < turns)%nat ->
  wait_answer scan fuel alloc junk turns link monitor expected nl nm st = ROk st' <->
  answered link monitor expected nl nm st st'.
Proof.
  intros Hlm Hl Hm Hok. revert nl nm st. induction turns as [|turns IH]; intros nl nm st Ht; [lia|]. cbn [wait_answer].
  assert (forall i st1, recv_wait scan fuel alloc junk (length (rv_reads st)) EISMALLBUF st = ROk (i, st1) ->
    i <> ERL_SEND -> ~ awaited link monitor nl nm i -> ~ answered link monitor expected nl nm st st') as Hno.
  { intros i st1 E Hi Ha ([|k is_] & index & _ & Hall & Hsig & _); apply signals_head in Hsig as (st2 & E2 & _);
      rewrite E in E2; injection E2 as -> ->; [done|by inversion Hall]. }
  destruct (recv_wait scan fuel alloc junk (length (rv_reads st)) EISMALLBUF st) as [[i st1]| | | |] eqn:E; cbn [rbind];
    [|split; [done|intros ([|k is_] & index & _ & _ & Hsig & _); apply signals_head in Hsig as (st2 & E2 & _); congruence]..].
  destruct (Z.eqb_spec i link) as [->|Hil]; [destruct nl; cbn [negb]|].
  - rewrite IH by (cbn in *; lia). eapply answered_more; [exact E|by left|done|]. intros k. awaited_cases.
  - split; [done|]. intros H. edestruct Hno; [reflexivity|done| |exact H]. awaited_cases.
  - destruct (Z.eqb_spec i monitor) as [->|Him]; [destruct nm; cbn [negb]|].
    + rewrite IH by (cbn in *; lia). eapply answered_more; [exact E|by right|done|]. intros k. awaited_cases.
    + split; [done|]. intros H. edestruct Hno; [reflexivity|done| |exact H]. awaited_cases.
    + destruct (Z.eqb_spec i ERL_SEND) as [->|His].
      * split.
        -- destruct (expect_answer expected (rv_mbuf st1)) as [index| | | |] eqn:Ex; cbn [rbind]; try done. intros [= <-].
           destruct (proj1 (expect_answer_exact expected _ Hok) (ex_intro _ index Ex)) as (bs & Hx).
           exists [], bs. split; [constructor|]. split; [constructor|]. split; [|exact Hx]. cbn [app]. econstructor; [exact E|constructor].
        -- intros ([|k is_] & index & _ & Hall & Hsig & Hx); apply signals_head in Hsig as (st2 & E2 & Hs2);
             rewrite E in E2; simplify_eq.
           ++ inversion Hs2; subst. destruct (proj2 (expect_answer_exact expected _ Hok) (ex_intro _ index Hx)) as [j Ej]. by rewrite Ej.
           ++ inversion Hall as [|? ? [[? _]|[? _]] _]; congruence.
      * split; [done|]. intros H. edestruct Hno; [reflexivity|done| |exact H]. awaited_cases.
Qed.

Lemma zlen_short_name s : bool_decide (zlen (str s) <= 30) = true -> zlen (name_bytes (str s)) <= 63.
Proof.
  intros H%bool_decide_eq_true. destruct (latin1_text (str s)) as (f & _ & Hl); [apply str_bytes_ok|lia|].
  unfold name_bytes. rewrite take_ge by (unfold zlen in H; lia).
  pose proof (zlen_atom_ext (128 <=? zlen (str s)) (utf8_text (str s))). lia.
Qed.

Lemma name_list_fits sb fun_ name : bool_decide (zlen (str fun_) <= 30) = true -> bytes_ok name -> zlen sb <= 271 ->
  zlen (request sb (str fun_) (name_list name)) <= EISMALLBUF.
Proof.
  intros Hf Hn Hs. pose proof (zlen_request sb (str fun_) (name_list name) (str_bytes_ok _) Hs).
  pose proof (zlen_short_name fun_ Hf). pose proof (zlen_name_bytes name Hn). unfold name_list, EISMALLBUF in *. zlen_lia.
Qed.

Lemma register_list_fits sb name : bytes_ok name -> zlen sb <= 271 ->
  zlen (request sb (str "register_name_external"%string) (register_list name sb)) <= EISMALLBUF.
Proof.
  intros Hn Hs. pose proof (zlen_request sb (str "register_name_external"%string) (register_list name sb) (str_bytes_ok _) Hs).
  pose proof (zlen_short_name "register_name_external"%string eq_refl). pose proof (zlen_short_name "global"%string eq_refl).
  pose proof (zlen_short_name "cnode"%string eq_refl). pose proof (zlen_name_bytes name Hn). unfold register_list, EISMALLBUF in *. zlen_lia.
Qed.

(** C12: Registering and unregistering a global name.  The request that is sent to
    [rex] is the one that the other node receives:
    [{Self, {call, global, register_name_external, [Name, Self, {global, cnode}], user}}] and
    [{Self, {call, global, unregister_name_external, [Name], user}}].  The function
    returns 0 exactly when the request was sent whole and the messages that arrive,
    ticks aside, are at most one link and at most one monitor (unlink and demonitor
    when unregistering), in either order, and then the answer [{rex, yes}]
    ([{rex, ok}]), in any of the forms that a tuple and an atom have in memory (which is
    bytes), names being compared up to a NUL; it reads nothing behind the answer. *)
Theorem global_registration ec self sb fd header name st token tr' :
  ei_self ec = Some self -> send_token fd (rv_trace st) = (token, tr') -> wire_name (fi_cookie fd) -> wire_pid self ->
  wire_token token -> zlen header = 1400 -> pid_bytes self = Some sb -> bytes_ok name -> zlen (rv_mbuf st) = EISMALLBUF ->
  let register := request sb (str "register_name_external"%string) (register_list name sb) in
  let unregister := request sb (str "unregister_name_external"%string) (name_list name) in
  exists hdr1 hdr2,
    reaches_rex self fd header (rv_trace st) token tr' hdr1 register /\ reaches_rex self fd header (rv_trace st) token tr' hdr2 unregister /\
    (forall st', bytes_ok (rv_mbuf st') -> ei_global_register scan fuel alloc junk fd header name self st = ROk st' <->
       exists ws st1, transmit fd (rv_writes st) hdr1 register = ROk (hdr1 ++ register, ws) /\
         requested st hdr1 register tr' ws st1 /\ answered ERL_LINK (ERL_MONITOR_P - 10) (str "yes"%string) true true st1 st') /\
    (forall st', bytes_ok (rv_mbuf st') -> ei_global_unregister scan fuel alloc junk ec fd header name st = ROk st' <->
       exists ws st1, transmit fd (rv_writes st) hdr2 unregister = ROk (hdr2 ++ unregister, ws) /\
         requested st hdr2 unregister tr' ws st1 /\ answered ERL_UNLINK (ERL_DEMONITOR_P - 10) (str "ok"%string) true true st1 st').
Proof.
  intros Eself Etok Hc Hself Htok Hh Esb Hn Hm register unregister. pose proof (wire_pid_len _ _ Hself Esb) as Hsl.
  assert (zlen (rv_mbuf st) < 2 ^ 31 - 1400) as Hm2 by (rewrite Hm; by vm_compute).
  destruct (register_args_emit name self sb Hn Hself Esb) as (abss1 & Ha1 & Ec1). destruct (name_args_emit name Hn) as (abss2 & Ha2 & Ec2).
  pose proof (request_sent fd header self sb (str "register_name_external"%string) _ abss1 st token tr' Etok Hc Hself Htok Hh Esb
    (str_bytes_ok _) Ha1) as H1. rewrite Ec1 in H1.
  pose proof (request_sent fd header self sb (str "unregister_name_external"%string) _ abss2 st token tr' Etok Hc Hself Htok Hh Esb
    (str_bytes_ok _) Ha2) as H2. rewrite Ec2 in H2.
  destruct H1 as (hdr1 & Hr1 & Hi1); [rewrite Hm; by apply register_list_fits|done|].
  destruct H2 as (hdr2 & Hr2 & Hi2); [rewrite Hm; by apply name_list_fits|done|].
  exists hdr1, hdr2. split; [exact Hr1|]. split; [exact Hr2|].
  split; intros st' Hok; [unfold ei_global_register|unfold ei_global_unregister; rewrite Eself];
    rewrite rbind_ROk; setoid_rewrite wait_answer_some; try done; try (cbn; lia).
  - setoid_rewrite Hi1. split; [intros (st1 & (ws & ? & ?) & ?); eauto|intros (ws & st1 & ? & ? & ?); eauto].
  - setoid_rewrite Hi2. split; [intros (st1 & (ws & ? & ?) & ?); eauto|intros (ws & st1 & ? & ? & ?); eauto].
Qed.

(** *** Calls with an answer of their own *)

Section Call.
Variables (ec : ei_cnode) (self : erlang_pid) (sb : list Z) (fd : fd_info) (header : mem) (st : recv_state).
Variables (token : option erlang_trace) (tr' : trace_state).
Hypothesis Eself : ei_self ec = Some self.
Hypothesis Etok : send_token fd (rv_trace st) = (token, tr').
Hypothesis Hcookie : wire_name (fi_cookie fd).
Hypothesis Hself : wire_pid self.
Hypothesis Htok : wire_token token.
Hypothesis Hheader : zlen header = 1400.
Hypothesis Esb : pid_bytes self = Some sb.
(** The other node, its side of the connection, and the pid that it sends to. *)
Variables (fd2 : fd_info) (header2 : mem) (tr2 : trace_state) (to : erlang_pid).
Variables (token2 : option erlang_trace) (tr2' : trace_state).
Hypothesis Etok2 : send_token fd2 tr2 = (token2, tr2').
Hypothesis Hcookie2 : wire_name (fi_cookie fd2).
Hypothesis Hto : wire_pid to.
Hypothesis Htok2 : wire_token token2.
Hypothesis Hheader2 : zlen header2 = 1200.

Lemma call_answered size fun_ args abss term :
  let asked := request sb fun_ (concat abss) in
  let answer := reply_header ++ term in
  bytes_ok fun_ -> Forall2 (fun f bs => Emits f (Some bs)) args abss ->
  zlen (rv_mbuf st) = size -> size < 2 ^ 31 - 1400 -> zlen asked <= size -> zlen answer <= size ->
  exists hdr hdr2,
    reaches_rex self fd header (rv_trace st) token tr' hdr asked /\
    (forall ws, ei_send_encoded_tmo fd2 header2 tr2 ws to answer
                = (let~ (sent, ws) := transmit fd2 ws hdr2 answer in ROk (sent, tr2', ws))) /\
    forall ws rs1 ws1 outs rs', transmit fd (rv_writes st) hdr asked = ROk (hdr ++ asked, ws) ->
    ticks (rv_reads st) ws rs1 ws1 outs -> packet_arrives rs1 (hdr2 ++ answer) rs' ->
    exists st1 st', send_request fd header self (call_head self fun_ ++ args ++ call_tail) st = ROk st1 /\
      recv_wait scan fuel alloc junk (length (rv_reads st1)) size st1 = ROk (ERL_SEND, st') /\
      expect_rex (rv_mbuf st') = ROk 8 /\ holds (rv_mbuf st') 8 term /\ rv_msglen st' = 8 + zlen term /\
      rv_reads st' = rs' /\ rv_writes st' = ws1 /\ rv_sent st' = rv_sent st ++ (hdr ++ asked) ++ outs.
Proof.
  intros asked answer Hf Ha Hm Hs Hz1 Hz2.
  destruct (request_sent fd header self sb fun_ args abss st token tr') as (hdr & Hr & Hi); [done..|fold asked; lia|lia|].
  destruct (answer_waited fd2 header2 tr2 to answer token2 tr2') as (hdr2 & E2 & Hw); [done..|lia|].
  exists hdr, hdr2. split; [exact Hr|]. split; [exact E2|]. intros ws rs1 ws1 outs rs' Et Hticks Harr.
  destruct (store_some (rv_mbuf st) 0 asked) as [buf Es]; [lia|lia|].
  pose proof (store_bounds _ _ _ _ Es) as (_ & _ & Hzb).
  set (st1 := {| rv_mbuf := buf; rv_bufsz := rv_bufsz st; rv_msg := rv_msg st; rv_msglen := rv_msglen st; rv_trace := tr';
           rv_reads := rv_reads st; rv_writes := ws; rv_sent := rv_sent st ++ hdr ++ asked |}).
  destruct (Hw size st1 rs1 ws1 outs rs' Hticks Harr) as (st' & Ew & Hb & Hl & _ & Hrd & Hwr & Hst); [by cbn; lia|done|].
  destruct (expect_rex_ok _ _ Hb) as [Ex Hp].
  exists st1, st'. split_and!; try done.
  - apply Hi. exists ws. split; [done|]. by exists buf.
  - rewrite Hl. unfold answer. by rewrite zlen_app.
  - rewrite Hst. cbn [rv_sent st1]. by rewrite <- !app_assoc.
Qed.

(** Asking for the pid of a global name.  The other node receives
    [{Self, {call, global, whereis_name, [Name], user}}] for [rex]; and when it sends
    [{rex, Pid}] to this node, which may arrive behind any number of ticks,
    [ei_global_whereis] returns that pid and, where asked for it, the name of its
    node. *)
Theorem global_whereis_found name pid pb :
  bytes_ok name -> zlen (rv_mbuf st) = EISMALLBUF -> wire_pid pid -> pid_bytes pid = Some pb ->
  let asked := request sb (str "whereis_name"%string) (name_list name) in
  let answer := reply_header ++ pb in
  exists hdr hdr2,
    reaches_rex self fd header (rv_trace st) token tr' hdr asked /\
    (forall ws, ei_send_encoded_tmo fd2 header2 tr2 ws to answer
                = (let~ (sent, ws) := transmit fd2 ws hdr2 answer in ROk (sent, tr2', ws))) /\
    forall node ws rs1 ws1 outs rs', transmit fd (rv_writes st) hdr asked = ROk (hdr ++ asked, ws) ->
    ticks (rv_reads st) ws rs1 ws1 outs -> packet_arrives rs1 (hdr2 ++ answer) rs' ->
    (forall size, node = Some size -> zlen (c_str (pid_node pid)) < size) ->
    exists st', ei_global_whereis scan fuel alloc junk ec fd header name node st =
        ROk (pid, match node with Some _ => Some (c_str (pid_node pid)) | None => None end, st') /\
      rv_reads st' = rs' /\ rv_writes st' = ws1 /\ rv_sent st' = rv_sent st ++ (hdr ++ asked) ++ outs.
Proof.
  intros Hn Hm Hpid Epb asked answer. pose proof (wire_pid_len _ _ Hself Esb). pose proof (wire_pid_len _ _ Hpid Epb).
  destruct (name_args_emit name Hn) as (abss & Ha & Ec).
  destruct (call_answered EISMALLBUF (str "whereis_name"%string) (name_args name) abss pb) as (hdr & hdr2 & Hr & E2 & Hcall);
    [apply str_bytes_ok|done|done|by vm_compute|rewrite Ec; by apply name_list_fits|
     rewrite zlen_app; change (zlen reply_header) with 8; unfold EISMALLBUF; lia|].
  rewrite Ec in Hr, Hcall. exists hdr, hdr2. split; [exact Hr|]. split; [exact E2|].
  intros node ws rs1 ws1 outs rs' Et Hticks Harr Hnode.
  destruct (Hcall ws rs1 ws1 outs rs' Et Hticks Harr) as (st1 & st' & E1 & Ew & Ex & Hb & _ & Hrest).
  exists st'. split; [|exact Hrest]. unfold ei_global_whereis. rewrite Eself, E1. cbn [rbind]. rewrite Ew. cbn [rbind].
  change (negb (ERL_SEND =? ERL_SEND)) with false. cbn iota. rewrite Ex. cbn [rbind].
  rewrite (ei_decode_pid_decodes true pid pb (proj1 Hpid) Epb _ _ Hb). cbn [ofdres rbind].
  destruct node as [size|]; [|done]. specialize (Hnode size eq_refl). by replace (size <? _) with false by lia.
Qed.

(** Asking for the global names.  The other node receives
    [{Self, {call, global, registered_names, [], user}}] for [rex]; and when it sends
    [{rex, Names}] to this node, with at least one name and only atoms of Latin-1
    characters without a NUL, in a message that fits the buffer of 16384 bytes,
    [ei_global_names] returns a block that is filled within its bounds: a pointer to
    each of the names in order, NULL, and the names as C strings; and [*count] is
    their number. *)
Theorem global_names_listed base l :
  let asked := request sb (str "registered_names"%string) [ERL_NIL_EXT] in
  let answer := reply_header ++ (ERL_LIST_EXT :: be_bytes 4 (zlen l)) ++ list_names l in
  Forall plain_name l -> l <> [] -> zlen (rv_mbuf st) = GLOBALNAMEBUF -> zlen answer <= GLOBALNAMEBUF ->
  (forall n, alloc n = true) ->
  exists hdr hdr2,
    reaches_rex self fd header (rv_trace st) token tr' hdr asked /\
    (forall ws, ei_send_encoded_tmo fd2 header2 tr2 ws to answer
                = (let~ (sent, ws) := transmit fd2 ws hdr2 answer in ROk (sent, tr2', ws))) /\
    forall ws rs1 ws1 outs rs', transmit fd (rv_writes st) hdr asked = ROk (hdr ++ asked, ws) ->
    ticks (rv_reads st) ws rs1 ws1 outs -> packet_arrives rs1 (hdr2 ++ answer) rs' ->
    exists rest st', ei_global_names scan fuel alloc junk base ec fd header st = ROk (name_block base l ++ rest, zlen l, st') /\
      rv_reads st' = rs' /\ rv_writes st' = ws1 /\ rv_sent st' = rv_sent st ++ (hdr ++ asked) ++ outs.
Proof.
  intros asked answer Hl Hne Hm Hz Halloc. pose proof (wire_pid_len _ _ Hself Esb) as Hsl.
  pose proof (eq_refl : GLOBALNAMEBUF = 16384) as HG.
  destruct names_args_emit as (abss & Ha & Ec).
  destruct (call_answered GLOBALNAMEBUF (str "registered_names"%string) names_args abss
    ((ERL_LIST_EXT :: be_bytes 4 (zlen l)) ++ list_names l)) as (hdr & hdr2 & Hr & E2 & Hcall);
    [apply str_bytes_ok|done|done|by vm_compute| |done|].
  { rewrite Ec. pose proof (zlen_request sb (str "registered_names"%string) [ERL_NIL_EXT] (str_bytes_ok _) Hsl).
    pose proof (zlen_short_name "registered_names"%string eq_refl). change (zlen [ERL_NIL_EXT]) with 1 in *. lia. }
  rewrite Ec in Hr, Hcall. exists hdr, hdr2. split; [exact Hr|]. split; [exact E2|].
  intros ws rs1 ws1 outs rs' Et Hticks Harr.
  destruct (Hcall ws rs1 ws1 outs rs' Et Hticks Harr) as (st1 & st' & E1 & Ew & Ex & Hb & Hlen & Hrest).
  assert (zlen answer = 8 + (5 + zlen (list_names l))) as Hza.
  { unfold answer. rewrite zlen_app, zlen_app. change (zlen reply_header) with 8. f_equal. }
  assert (zlen l <= zlen (list_names l)) as Hzl.
  { unfold list_names. clear -Hl. induction Hl as [|a l Ha _ IH]; [by vm_compute|]. cbn [map concat].
    destruct (plain_name_bytes a Ha) as (_ & _ & _ & Hz). pose proof (zlen_nonneg a). zlen_lia. }
  assert (rv_msglen st' = 8 + 5 + zlen (list_names l)) as Hml.
  { rewrite Hlen, zlen_app. change (zlen (ERL_LIST_EXT :: be_bytes 4 (zlen l))) with 5. lia. }
  destruct (read_names_ok alloc junk base (rv_mbuf st') l (rv_msglen st') 8) as (rest & Er & _); [done..|lia|done|done|lia|done|].
  exists rest, st'. split; [|exact Hrest]. unfold ei_global_names. rewrite Eself, E1. cbn [rbind]. rewrite Ew. cbn [rbind].
  change (negb (ERL_SEND =? ERL_SEND)) with false. cbn iota. rewrite Ex. cbn [rbind]. by rewrite Er.
Qed.
End Call.
End Answers.

(** ** Samples *)

Lemma transmit_known {A} (r : list cwrite -> rres (list Z * A * list cwrite)) (send : list cwrite -> rres (list Z * list cwrite))
    (ws : list cwrite) (tr : A) pkt sent tr' ws' :
  (forall ws, r ws = (let~ (sent, ws) := send ws in ROk (sent, tr, ws))) ->
  (forall ws sent ws', send ws = ROk (sent, ws') -> sent = pkt) ->
  r ws = ROk (sent, tr', ws') -> pkt = sent /\ send ws = ROk (pkt, ws').
Proof.
  intros E Hs. rewrite E. destruct (send ws) as [[s w]| | | |] eqn:Es; try done. cbn [rbind]. intros [= <- _ <-].
  by rewrite (Hs _ _ _ Es).
Qed.

Definition name_a : list Z := str "foo"%string.
Definition sb_a : list Z := default [] (pid_bytes pid_a).
(** A node with a local array of [size] bytes, on whose socket a request of [n]
    bytes is written, and which gets a tick and then a packet. *)
Definition asker (size n : Z) (rs : list cread) : recv_state :=
  {| rv_mbuf := zeros (Z.to_nat size); rv_bufsz := 0; rv_msg := msg_0; rv_msglen := 0; rv_trace := trace_0;
     rv_reads := CRead [0; 0; 0; 0] :: rs; rv_writes := [CWrote n; CWrote 4]; rv_sent := [] |}.
Lemma asker_ticks rs : ticks (CRead [0; 0; 0; 0] :: rs) [CWrote 4] rs [] [0; 0; 0; 0].
Proof. apply (ticks_more _ _ rs [] 0 [0; 0; 0; 0] _ _ []); [by vm_compute|by vm_compute|apply ticks_none]. Qed.

(** The packet with the answer [{rex, <0.8.0>}]. *)
Definition pid_answer : list Z := reply_header ++ default [] (pid_bytes pid_b).
Definition answer_packet (answer : list Z) (n : Z) : list Z :=
  match ei_send_encoded_tmo (fd_a true) (zeros 1200) trace_0 [CWrote n] pid_a answer with ROk (p, _, _) => p | _ => [] end.

Lemma global_whereis_found_witness :
  exists st', ei_global_whereis no_scan 0 (fun _ => true) zeros node_c (fd_a true) (zeros 1400) name_a (Some 256)
      (asker 2048 106 (rv_reads (node_b (answer_packet pid_answer 59)))) = ROk (pid_b, Some [99; 64; 100], st') /\
    rv_reads st' = [] /\ rv_writes st' = [].
Proof.
  set (pkt := answer_packet pid_answer 59).
  destruct (global_whereis_found no_scan 0 (fun _ => true) zeros zeros_length node_c pid_a sb_a (fd_a true) (zeros 1400)
    (asker 2048 106 (rv_reads (node_b pkt))) None trace_0) with (fd2 := fd_a true) (header2 := zeros 1200) (tr2 := trace_0)
    (to := pid_a) (token2 := @None erlang_trace) (tr2' := trace_0) (name := name_a) (pid := pid_b) (pb := default [] (pid_bytes pid_b))
    as (hdr & hdr2 & (E1 & Hs1 & _) & E2 & Hw).
  - by vm_compute.
  - reflexivity.
  - exact cookie_wire.
  - exact pid_a_wire.
  - done.
  - reflexivity.
  - by vm_compute.
  - reflexivity.
  - exact cookie_wire.
  - exact pid_a_wire.
  - done.
  - reflexivity.
  - apply str_bytes_ok.
  - reflexivity.
  - exact pid_b_wire.
  - by vm_compute.
  - destruct (transmit_known _ _ [CWrote 106; CWrote 4] _ _ _ _ _ E1 Hs1 ltac:(vm_compute; reflexivity)) as [_ Et].
    pose proof (header_known _ _ [CWrote 59] _ _ _ _ _ E2 (fun ws s w => transmit_sent _ ws _ _ s w) ltac:(vm_compute; reflexivity)) as Ep.
    rewrite (Ep : hdr2 ++ reply_header ++ default [] (pid_bytes pid_b) = pkt) in Hw.
    destruct (Hw (Some 256) [CWrote 4] (rv_reads (node_b pkt)) [] [0; 0; 0; 0] []) as (st' & E & Hr & Hwr & _); [exact Et|apply asker_ticks| | |].
    + apply node_b_arrives. by vm_compute.
    + intros size [= <-]. by vm_compute.
    + exists st'. split; [exact E|]. by split.
Defined.

Definition names_a : list (list Z) := [name_a; [0xE5; 0xE4]].
Definition names_answer : list Z := reply_header ++ (ERL_LIST_EXT :: be_bytes 4 (zlen names_a)) ++ list_names names_a.

Lemma global_names_listed_witness :
  exists rest st', ei_global_names no_scan 0 (fun _ => true) zeros 4096 node_c (fd_a true) (zeros 1400)
      (asker 16384 100 (rv_reads (node_b (answer_packet names_answer 58)))) =
    ROk (pointer 4120 ++ pointer 4124 ++ pointer 0 ++ [102; 111; 111; 0; 0xE5; 0xE4; 0] ++ rest, 2, st') /\
    rv_reads st' = [] /\ rv_writes st' = [].
Proof.
  set (pkt := answer_packet names_answer 58).
  destruct (global_names_listed no_scan 0 (fun _ => true) zeros zeros_length node_c pid_a sb_a (fd_a true) (zeros 1400)
    (asker 16384 100 (rv_reads (node_b pkt))) None trace_0) with (fd2 := fd_a true) (header2 := zeros 1200) (tr2 := trace_0)
    (to := pid_a) (token2 := @None erlang_trace) (tr2' := trace_0) (base := 4096) (l := names_a)
    as (hdr & hdr2 & (E1 & Hs1 & _) & E2 & Hw).
  - by vm_compute.
  - reflexivity.
  - exact cookie_wire.
  - exact pid_a_wire.
  - done.
  - reflexivity.
  - by vm_compute.
  - reflexivity.
  - exact cookie_wire.
  - exact pid_a_wire.
  - done.
  - reflexivity.
  - constructor; [|constructor; [|constructor]]; (split; [split; [repeat (constructor; [by vm_compute|]); constructor|by vm_compute]|done]).
  - done.
  - by vm_compute.
  - by vm_compute.
  - done.
  - destruct (transmit_known _ _ [CWrote 100; CWrote 4] _ _ _ _ _ E1 Hs1 ltac:(vm_compute; reflexivity)) as [_ Et].
    pose proof (header_known _ _ [CWrote 58] _ _ _ _ _ E2 (fun ws s w => transmit_sent _ ws _ _ s w) ltac:(vm_compute; reflexivity)) as Ep.
    rewrite (Ep : hdr2 ++ reply_header ++ (ERL_LIST_EXT :: be_bytes 4 (zlen names_a)) ++ list_names names_a = pkt) in Hw.
    destruct (Hw [CWrote 4] (rv_reads (node_b pkt)) [] [0; 0; 0; 0] []) as (rest & st' & E & Hr & Hwr & _); [exact Et|apply asker_ticks| |].
    + apply node_b_arrives. by vm_compute.
    + exists rest, st'. split; [exact E|]. by split.
Defined.

(** A node that gets a link and then [{rex, yes}]. *)
Definition link_packet : list Z :=
  [0; 0; 0; 42; ERL_PASS_THROUGH; ERL_VERSION_MAGIC; ERL_SMALL_TUPLE_EXT; 3; 97; ERL_LINK] ++
  default [] (pid_bytes pid_b) ++ default [] (pid_bytes pid_a).
Definition yes_answer : list Z := reply_header ++ name_bytes (str "yes"%string).
Definition registrant : recv_state :=
  asker 2048 151 [CRead (take 4 link_packet); CRead (drop 4 link_packet); CRead (take 4 (answer_packet yes_answer 46));
                  CRead (drop 4 (answer_packet yes_answer 46))].

Lemma registered_ok : exists st',
  ei_global_register no_scan 0 (fun _ => true) zeros (fd_a true) (zeros 1400) name_a pid_a registrant = ROk st' /\ rv_reads st' = [] /\ bytes_ok (rv_mbuf st').
Proof.
  eexists. split; [vm_compute; reflexivity|]. split; [reflexivity|]. apply Forall_forall. intros b Hb.
  enough ((0 <=? b) && (b <? 256) = true) as H by (unfold byte_ok; lia). revert b Hb. apply forallb_forall. vm_compute. reflexivity.
Qed.

Lemma global_registration_witness :
  exists hdr ws st1 st',
    transmit (fd_a true) (rv_writes registrant) hdr (request sb_a (str "register_name_external"%string) (register_list name_a sb_a)) =
      ROk (hdr ++ request sb_a (str "register_name_external"%string) (register_list name_a sb_a), ws) /\
    ei_global_register no_scan 0 (fun _ => true) zeros (fd_a true) (zeros 1400) name_a pid_a registrant = ROk st' /\ rv_reads st' = [] /\
    answered no_scan 0 (fun _ => true) zeros ERL_LINK (ERL_MONITOR_P - 10) (str "yes"%string) true true st1 st'.
Proof.
  destruct (global_registration no_scan 0 (fun _ => true) zeros zeros_length node_c pid_a sb_a (fd_a true) (zeros 1400) name_a
    registrant None trace_0) as (hdr & _ & _ & _ & Hreg & _).
  - by vm_compute.
  - reflexivity.
  - exact cookie_wire.
  - exact pid_a_wire.
  - done.
  - reflexivity.
  - by vm_compute.
  - apply str_bytes_ok.
  - by vm_compute.
  - destruct registered_ok as (st' & E & Hr & Hb). destruct (proj1 (Hreg st' Hb) E) as (ws & st1 & Et & _ & Ha). exists hdr, ws, st1, st'.
    split; [exact Et|]. split; [exact E|]. split; [exact Hr|exact Ha].
Defined.

(** ** What the functions do not check *)

(** An answer that begins with an atom of 64 characters or more is written beyond
    [tmpbuf]. *)
Theorem long_tag_overflows a buf rest :
  plain_name a -> 64 <= zlen a -> holds buf 0 ([ERL_VERSION_MAGIC] ++ [ERL_SMALL_TUPLE_EXT; 2] ++ name_bytes a ++ rest) ->
  expect_rex buf = ROob.
Proof.
  intros Ha Hl Hh. destruct (decodes_app _ _ _ _ _ _ ei_decode_version_decodes Hh) as [Ev Ht]. unfold expect_rex. rewrite Ev.
  cbn [ofdres rbind].
  destruct (decodes_app _ _ _ _ _ _ (ei_decode_tuple_header_decodes true 2 [ERL_SMALL_TUPLE_EXT; 2] ltac:(done) eq_refl) Ht) as [-> Hr].
  cbn [ofdres rbind]. change (negb (2 =? 2)) with false. cbn iota. unfold expect_atom.
  destruct (plain_name_bytes a Ha) as (f & Hd & _). destruct (decodes_app _ _ _ _ _ _ Hd Hr) as [-> _].
  cbn [ofdres rbind latin1_atom_out at_name]. by replace (64 <? zlen a + 1) with true by lia.
Qed.

(** When there are no global names the answer ends with the empty list, and what is
    taken for the name behind it is what is left of the request.  Here that is in the
    name of the node, [abcw@h]: an atom of 64 characters, written into a block of eight
    bytes. *)
Definition pid_w : erlang_pid := {| pid_node := str "abcw@h"%string; pid_num := 7; pid_serial := 1; pid_creation := 3 |}.
Definition node_w : ei_cnode :=
  {| thishostname := str "h"%string; thisnodename := str "abcw@h"%string; thisalivename := str "abcw"%string;
     ei_connect_cookie := str "monster"%string; ec_creation := 3; ec_self := pid_w; ec_pidsn := 0 |}.

Example no_names_overflows :
  ei_global_names no_scan 0 (fun _ => true) zeros 4096 node_w (fd_a true) (zeros 1400)
    (asker 16384 106 (rv_reads (node_b (answer_packet (reply_header ++ [ERL_NIL_EXT]) 42)))) = ROob.
Proof. vm_compute. reflexivity. Qed.

(** The names behind one that is not an atom of Latin-1 characters are left out: here
    the first of the two names is [{a}]. *)
Example other_name_truncates :
  match ei_global_names no_scan 0 (fun _ => true) zeros 4096 node_c (fd_a true) (zeros 1400)
    (asker 16384 100 (rv_reads (node_b (answer_packet (reply_header ++ (ERL_LIST_EXT :: be_bytes 4 2) ++
       [ERL_SMALL_TUPLE_EXT; 1; 119; 1; 97] ++ name_bytes name_a ++ [ERL_NIL_EXT]) 57)))) with
  | ROk (block, count, _) => count = 0 /\ take 8 block = pointer 0
  | _ => False
  end.
Proof. vm_compute. split; reflexivity. Qed.
