(* ===== verification/Packet.v ===== *)
(** * Packets on a stream socket: [packet_get_length] and [packet_get_body] of
    [erts/emulator/beam/packet_parser.c]

    The emulator finds where packets begin and end in the bytes that it has read from
    a socket, in the format that the user of the socket chose.  Formats with a length
    of two and of four bytes are those of the handshake and of the messages of the
    distribution protocol. *)
From S2P Require Import Prelude PutGet EiTypes EiInt EiAtom EiData EiNode EiPort EpmdStr EiMsg.
From Stdlib Require String.
Import String.StringSyntax.
Delimit Scope string_scope with string.

(** ** The code *)

Inductive PacketParseType :=
  | TCP_PB_RAW | TCP_PB_1 | TCP_PB_2 | TCP_PB_4 | TCP_PB_ASN1 | TCP_PB_RM | TCP_PB_CDR | TCP_PB_FCGI
  | TCP_PB_LINE_LF | TCP_PB_TPKT | TCP_PB_HTTP | TCP_PB_HTTPH | TCP_PB_SSL_TLS | TCP_PB_HTTP_BIN | TCP_PB_HTTPH_BIN.

(** A pointer into the bytes that were read is the list of the bytes from there on;
    [None] is a read behind the last of them. *)
Definition get_int8 (p : list Z) : option Z := head p.
Definition get_int16 (p : list Z) : option Z :=
  match p with a :: b :: _ => Some (Z.lor (Z.shiftl a 8) b) | _ => None end.
Definition get_int24 (p : list Z) : option Z :=
  match p with a :: b :: c :: _ => Some (Z.lor (Z.lor (Z.shiftl a 16) (Z.shiftl b 8)) c) | _ => None end.
(** As it is assigned to an [unsigned]. *)
Definition get_int32 (p : list Z) : option Z :=
  match p with
  | a :: b :: c :: d :: _ => Some (Z.lor (Z.lor (Z.lor (Z.shiftl a 24) (Z.shiftl b 16)) (Z.shiftl c 8)) d)
  | _ => None
  end.
Definition get_little_int32 (p : list Z) : option Z :=
  match p with
  | a :: b :: c :: d :: _ => Some (Z.lor (Z.lor (Z.lor (Z.shiftl d 24) (Z.shiftl c 16)) (Z.shiftl b 8)) a)
  | _ => None
  end.

(** [sys_memchr] over [n] bytes: the offset of the character, if it is there. *)
Fixpoint memchr (p : list Z) (c : Z) (n : nat) : option (option Z) :=
  match n with
  | O => Some None
  | S n =>
      match p with
      | [] => None
      | b :: p =>
          if b =? c then Some (Some 0)
          else match memchr p c n with Some (Some k) => Some (Some (k + 1)) | r => r end
      end
  end.
(** With a length that is an [int]; a negative one is a huge [size_t]. *)
Definition sys_memchr (p : list Z) (c n : Z) : option (option Z) := if n <? 0 then None else memchr p c (Z.to_nat n).

Definition NL (p : list Z) : option bool := match p with a :: _ => Some (a =? 10) | _ => None end.
Definition CRNL (p : list Z) : option bool :=
  match p with
  | a :: p => if a =? 13 then match p with b :: _ => Some (b =? 10) | [] => None end else Some false
  | [] => None
  end.
Definition SP (p : list Z) : option bool := match p with a :: _ => Some ((a =? 32) || (a =? 9)) | _ => None end.

(** Where the [switch] goes on: to one of its labels, or it returns. *)
Inductive label := goto_more | goto_remain (hlen plen : Z) | goto_done (plen : Z) | goto_error | return_ (r : Z).

(** The bytes of a long tag but the last one: [while (nn && ((tptr[0] & 0x80) == 0x80))] *)
Fixpoint asn1_tag (nn : nat) (tptr : list Z) : option (nat * list Z) :=
  match nn with
  | O => Some (O, tptr)
  | S k =>
      match tptr with
      | [] => None
      | c :: t => if Z.land c 0x80 =? 0x80 then asn1_tag k t else Some (nn, tptr)
      end
  end.

(** The length field at [tptr], behind [skipped] bytes. *)
Definition asn1_length (tptr : list Z) (nn : nat) (skipped : Z) : option label :=
  c ← head tptr;
  let length := Z.land c 0x7f in
  let t := tail tptr in
  if Z.land c 0x80 =? 0x80 then
    if Z.of_nat nn - 1 <? length then Some goto_more
    else if length =? 0 then Some (goto_remain (skipped + 1) 0)
    else if length =? 1 then plen ← get_int8 t; Some (goto_remain (skipped + 2) plen)
    else if length =? 2 then plen ← get_int16 t; Some (goto_remain (skipped + 3) plen)
    else if length =? 3 then plen ← get_int24 t; Some (goto_remain (skipped + 4) plen)
    else if length =? 4 then plen ← get_int32 t; Some (goto_remain (skipped + 5) plen)
    else Some goto_error
  else Some (goto_remain (skipped + 1) length).

Definition asn1 (ptr : list Z) (n : Z) : option label :=
  if n <? 2 then Some goto_more
  else
    c ← head ptr;
    let nn := (Z.to_nat n - 1)%nat in
    if Z.land c 0x1f =? 0x1f then
      '(nn', t) ← asn1_tag nn (tail ptr);
      if (nn' <? 2)%nat then Some goto_more
      else asn1_length (tail t) (nn' - 1) (n - Z.of_nat nn' + 1)
    else asn1_length (tail ptr) nn 1.

Definition line_lf (ptr : list Z) (n max_plen trunc_len delimiter : Z) : option label :=
  found ← sys_memchr ptr delimiter n;
  match found with
  | None =>
      if (max_plen <? n) && negb (max_plen =? 0) then Some goto_error
      else if (trunc_len <=? n) && negb (trunc_len =? 0) then Some (return_ trunc_len)
      else Some goto_more
  | Some k =>
      let len := k + 1 in
      if (max_plen <? len) && negb (max_plen =? 0) then Some goto_error
      else if (trunc_len <? len) && negb (trunc_len =? 0) then Some (return_ trunc_len)
      else Some (return_ len)
  end.

(** [while (1)]: [off] is [ptr1 - ptr]; each turn but the last passes a newline. *)
Fixpoint http_lines (fuel : nat) (ptr1 : list Z) (off n max_plen statep : Z) : option label :=
  match fuel with
  | O => None
  | S fuel =>
      found ← sys_memchr ptr1 10 (n - off);
      match found with
      | None => Some (if negb (max_plen =? 0) && (max_plen <=? n) then goto_error else goto_more)
      | Some k =>
          let plen := off + k + 1 in
          let ptr2 := drop (Z.to_nat (k + 1)) ptr1 in
          let too_long := negb (max_plen =? 0) && (max_plen <? plen) in
          if statep =? 0 then Some (if too_long then goto_error else goto_done plen)
          else if plen <? n then
            sp ← SP ptr2;
            if sp && (2 <? plen) then http_lines fuel ptr2 plen n max_plen statep
            else Some (if too_long then goto_error else goto_done plen)
          else Some (if too_long then goto_error else goto_more)
      end
  end.

Definition http (ptr : list Z) (n max_plen trunc_len statep : Z) : option label :=
  nl ← (if n =? 1 then NL ptr else Some false);
  crnl ← (if n =? 2 then CRNL ptr else Some false);
  if (nl : bool) || crnl then Some (goto_done n)
  else http_lines (S (Z.to_nat n)) ptr 0 n (if max_plen =? 0 then trunc_len else max_plen) statep.

(** [hlen] bytes of a header are there. *)
Definition header (hlen n : Z) (k : option label) : option label := if n <? hlen then Some goto_more else k.

(** Where the format takes us; [*statep] is that of HTTP. *)
Definition packet_label (htype : PacketParseType) (ptr : list Z) (n max_plen trunc_len delimiter statep : Z) : option label :=
  match htype with
  | TCP_PB_RAW => Some (if n =? 0 then goto_more else return_ n)
  | TCP_PB_1 => header 1 n (plen ← get_int8 ptr; Some (goto_remain 1 plen))
  | TCP_PB_2 => header 2 n (plen ← get_int16 ptr; Some (goto_remain 2 plen))
  | TCP_PB_4 => header 4 n (plen ← get_int32 ptr; Some (goto_remain 4 plen))
  | TCP_PB_RM => header 4 n (plen ← get_int32 ptr; Some (goto_remain 4 (Z.land plen 0x7fffffff)))
  | TCP_PB_LINE_LF => line_lf ptr n max_plen trunc_len delimiter
  | TCP_PB_ASN1 => asn1 ptr n
  | TCP_PB_CDR =>
      header 12 n
        (if (zlen ptr <? 12) then None
         else if negb (bool_decide (take 4 ptr = str "GIOP"%string)) then Some goto_error
         else
           flags ← ptr !! 6%nat;
           plen ← (if negb (Z.land flags 1 =? 0) then get_little_int32 (drop 8 ptr) else get_int32 (drop 8 ptr));
           Some (goto_remain 12 plen))
  | TCP_PB_FCGI =>
      header 8 n
        match ptr with
        | version :: _ :: _ :: _ :: contentLengthB1 :: contentLengthB0 :: paddingLength :: _ :: _ =>
            if negb (version =? 1) then Some goto_error
            else Some (goto_remain 8 (Z.lor (Z.shiftl contentLengthB1 8) contentLengthB0 + paddingLength))
        | _ => None
        end
  | TCP_PB_HTTPH | TCP_PB_HTTPH_BIN | TCP_PB_HTTP | TCP_PB_HTTP_BIN => http ptr n max_plen trunc_len statep
  | TCP_PB_TPKT =>
      header 4 n
        match ptr with
        | vrsn :: _ :: p =>
            if vrsn =? 3 then plen ← get_int16 p; Some (goto_remain 4 (wrapu 32 (plen - 4))) else Some goto_error
        | _ => None
        end
  | TCP_PB_SSL_TLS =>
      header 5 n
        match ptr with
        | c0 :: _ :: c2 :: p =>
            if negb (Z.land c0 0x80 =? 0) && (c2 =? 1)
            then plen ← get_int16 ptr; Some (goto_remain 5 (wrapu 32 (Z.land plen 0x7fff - 3)))
            else plen ← get_int16 p; Some (goto_remain 5 plen)
        | _ => None
        end
  end.

(** What follows the [switch]. *)
Definition at_label (l : label) (max_plen : Z) : Z :=
  match l with
  | goto_more => 0
  | goto_remain hlen plen =>
      let max_plen := if max_plen =? 0 then INT_MAX - hlen else max_plen in
      if max_plen <? plen then -1 else wraps 32 (wrapu 32 (hlen + plen))
  | goto_done plen => wraps 32 plen
  | goto_error => -1
  | return_ r => wraps 32 r
  end.

(** The value returned and [*statep]. *)
Definition packet_get_length (htype : PacketParseType) (ptr : list Z) (n max_plen trunc_len delimiter statep : Z) : option (Z * Z) :=
  let statep := match htype with TCP_PB_HTTPH | TCP_PB_HTTPH_BIN => 1 | _ => statep end in
  l ← packet_label htype ptr n max_plen trunc_len delimiter statep;
  Some (at_label l max_plen, statep).

(** [*bufp] and [*lenp]. *)
Definition packet_get_body (htype : PacketParseType) (buf : list Z) (len : Z) : option (list Z * Z) :=
  match htype with
  | TCP_PB_1 => Some (drop 1 buf, len - 1)
  | TCP_PB_2 => Some (drop 2 buf, len - 2)
  | TCP_PB_4 => Some (drop 4 buf, len - 4)
  | TCP_PB_FCGI => paddingLength ← buf !! 6%nat; Some (buf, len - paddingLength)
  | _ => Some (buf, len)
  end.

(** ** Searching *)

(** The position of the first [c]. *)
Fixpoint index_of (c : Z) (l : list Z) : option Z :=
  match l with [] => None | b :: l => if b =? c then Some 0 else option_map (Z.add 1) (index_of c l) end.

Lemma index_of_range c l k : index_of c l = Some k -> 0 <= k < zlen l.
Proof.
  revert k. induction l as [|b l IH]; intros k; cbn [index_of]; [done|]. rewrite zlen_cons. pose proof (zlen_nonneg l).
  destruct (b =? c); [intros [= <-]; lia|]. destruct (index_of c l) as [j|]; [|done]. specialize (IH j eq_refl). intros [= <-]. lia.
Qed.

Lemma index_of_app c l1 l2 :
  index_of c (l1 ++ l2) = match index_of c l1 with Some k => Some k | None => option_map (Z.add (zlen l1)) (index_of c l2) end.
Proof.
  induction l1 as [|b l1 IH]; cbn [app index_of].
  - by destruct (index_of c l2).
  - destruct (b =? c); [done|]. rewrite IH. destruct (index_of c l1); [done|]. destruct (index_of c l2); [|done].
    cbn [option_map]. rewrite zlen_cons. f_equal. lia.
Qed.

Lemma index_of_None c l : index_of c l = None <-> c ∉ l.
Proof.
  induction l as [|b l IH]; cbn [index_of]; [split; [intros _ H; by apply elem_of_nil in H|done]|].
  rewrite not_elem_of_cons, <- IH. destruct (Z.eqb_spec b c) as [->|]; [split; [done|tauto]|].
  destruct (index_of c l); cbn [option_map]; (split; [first [done|by split; [congruence|]]|by intros [_ ?]]).
Qed.

Lemma memchr_index p c n : (n <= length p)%nat -> memchr p c n = Some (index_of c (take n p)).
Proof.
  revert n. induction p as [|b p IH]; intros [|n] Hn; cbn [memchr take index_of length] in *; [done|lia|done|].
  destruct (b =? c); [done|]. rewrite IH by lia. destruct (index_of c (take n p)); [|done]. cbn [option_map]. do 2 f_equal. lia.
Qed.

(** Over all of the bytes from an offset on. *)
Lemma sys_memchr_rest p c off : 0 <= off <= zlen p ->
  sys_memchr (drop (Z.to_nat off) p) c (zlen p - off) = Some (index_of c (drop (Z.to_nat off) p)).
Proof.
  intros H. unfold sys_memchr. replace (zlen p - off <? 0) with false by lia.
  rewrite memchr_index by (rewrite length_drop; unfold zlen in *; lia).
  rewrite take_ge by (rewrite length_drop; unfold zlen in *; lia). done.
Qed.

Lemma sys_memchr_all p c : sys_memchr p c (zlen p) = Some (index_of c p).
Proof. pose proof (sys_memchr_rest p c 0) as H. rewrite Z.sub_0_r in H. apply H. pose proof (zlen_nonneg p). lia. Qed.

(** ** Nothing is read behind the bytes that there are, and every loop ends *)

Lemma asn1_tag_total nn t : (nn <= length t)%nat ->
  exists nn' t', asn1_tag nn t = Some (nn', t') /\ (nn' <= length t' /\ nn' <= nn)%nat.
Proof.
  revert t. induction nn as [|nn IH]; intros t Hl; cbn [asn1_tag]; [exists 0%nat, t; split; [done|lia]|].
  destruct t as [|c t]; cbn [length] in Hl; [lia|]. destruct (_ =? _).
  - destruct (IH t) as (nn' & t' & E & H); [lia|]. exists nn', t'. split; [done|lia].
  - eexists _, _. split; [done|]. cbn [length]. lia.
Qed.

Ltac has_bytes p := destruct p as [|? p]; [cbn [length] in *; lia|].

Lemma get_int16_some p : (2 <= length p)%nat -> exists x, get_int16 p = Some x.
Proof. intros H. do 2 has_bytes p. by eexists. Qed.
Lemma get_int32_some p : (4 <= length p)%nat -> exists x, get_int32 p = Some x.
Proof. intros H. do 4 has_bytes p. by eexists. Qed.
Lemma get_little_int32_some p : (4 <= length p)%nat -> exists x, get_little_int32 p = Some x.
Proof. intros H. do 4 has_bytes p. by eexists. Qed.

Lemma asn1_length_total t nn skipped : (1 <= nn <= length t)%nat -> exists l, asn1_length t nn skipped = Some l.
Proof.
  intros H. has_bytes t. unfold asn1_length. cbn [head tail mbind option_bind]. set (len := Z.land z 0x7f). clearbody len.
  destruct (_ =? 0x80); [|eauto]. destruct (Z.ltb_spec (Z.of_nat nn - 1) len); [eauto|]. destruct (len =? 0); [eauto|].
  destruct (Z.eqb_spec len 1); [has_bytes t; cbn; eauto|].
  destruct (Z.eqb_spec len 2); [do 2 has_bytes t; cbn; eauto|].
  destruct (Z.eqb_spec len 3); [do 3 has_bytes t; cbn; eauto|].
  destruct (Z.eqb_spec len 4); [do 4 has_bytes t; cbn; eauto|]. eauto.
Qed.

Lemma http_lines_total fuel p off max st :
  0 <= off <= zlen p -> (Z.to_nat (zlen p - off) < fuel)%nat ->
  exists l, http_lines fuel (drop (Z.to_nat off) p) off (zlen p) max st = Some l.
Proof.
  revert off. induction fuel as [|fuel IH]; intros off Ho Hf; [lia|]. cbn [http_lines].
  rewrite sys_memchr_rest by done. cbn [mbind option_bind].
  destruct (index_of 10 (drop (Z.to_nat off) p)) as [k|] eqn:E; [|eauto]. apply index_of_range in E.
  assert (zlen (drop (Z.to_nat off) p) = zlen p - off) as Hz by (unfold zlen in *; rewrite length_drop; lia).
  destruct (st =? 0); [eauto|]. destruct (Z.ltb_spec (off + k + 1) (zlen p)); [|eauto].
  rewrite drop_drop, <- Z2Nat.inj_add by lia. replace (off + (k + 1)) with (off + k + 1) by lia.
  assert (exists b, SP (drop (Z.to_nat (off + k + 1)) p) = Some b) as [b Eb].
  { destruct (drop (Z.to_nat (off + k + 1)) p) as [|c t] eqn:Ed; [|by eexists].
    apply (f_equal length) in Ed. rewrite length_drop in Ed. cbn in Ed. unfold zlen in *. lia. }
  rewrite Eb. cbn [mbind option_bind]. destruct (b && _); [|eauto]. apply IH; lia.
Qed.

Lemma header_total hlen (p : list Z) k : (hlen <= zlen p -> exists l, k = Some l) -> exists l, header hlen (zlen p) k = Some l.
Proof. intros H. unfold header. destruct (Z.ltb_spec (zlen p) hlen); [eauto|]. by apply H. Qed.

Ltac in_header := lazymatch goal with |- exists l, header _ _ _ = _ => apply header_total; intros Hl; unfold zlen in Hl end.

Lemma packet_label_total htype p max trunc delim st : exists l, packet_label htype p (zlen p) max trunc delim st = Some l.
Proof.
  assert (exists l, http p (zlen p) max trunc st = Some l) as Hhttp.
  { unfold http. assert (exists b, (if zlen p =? 1 then NL p else Some false) = Some b) as [b1 ->].
    { destruct (Z.eqb_spec (zlen p) 1); [|eauto]. unfold zlen in *. has_bytes p. by eexists. }
    assert (exists b, (if zlen p =? 2 then CRNL p else Some false) = Some b) as [b2 ->].
    { destruct (Z.eqb_spec (zlen p) 2); [|eauto]. unfold zlen in *. do 2 has_bytes p. cbn. destruct (_ =? 13); eauto. }
    cbn [mbind option_bind]. destruct (b1 || b2); [eauto|]. pose proof (zlen_nonneg p). apply (http_lines_total _ p 0); lia. }
  destruct htype; cbn [packet_label]; try exact Hhttp; try in_header.
  - eauto.
  - has_bytes p. cbn. eauto.
  - destruct (get_int16_some p) as [x ->]; [lia|]. cbn. eauto.
  - destruct (get_int32_some p) as [x ->]; [lia|]. cbn. eauto.
  - unfold asn1. destruct (Z.ltb_spec (zlen p) 2) as [|Hl]; [eauto|]. unfold zlen in *. has_bytes p. cbn [head tail mbind option_bind].
    cbn [length] in *. destruct (_ =? 0x1f).
    + destruct (asn1_tag_total (Z.to_nat (Z.of_nat (S (length p))) - 1) p) as (nn' & t' & -> & Ht); [lia|].
      cbn [mbind option_bind]. destruct (Nat.ltb_spec nn' 2); [eauto|]. destruct t' as [|c' t']; cbn [length tail] in *; [lia|].
      apply asn1_length_total. lia.
    + apply asn1_length_total. lia.
  - destruct (get_int32_some p) as [x ->]; [lia|]. cbn. eauto.
  - unfold zlen. destruct (Z.ltb_spec (Z.of_nat (length p)) 12); [lia|]. destruct (negb _); [eauto|].
    do 8 has_bytes p. cbn [lookup list_lookup skipn mbind option_bind]. rewrite drop_0.
    destruct (negb _); [destruct (get_little_int32_some p) as [x ->]|destruct (get_int32_some p) as [x ->]]; cbn [length] in *; try lia; cbn; eauto.
  - do 8 has_bytes p. destruct (negb _); eauto.
  - unfold line_lf. rewrite sys_memchr_all. cbn [mbind option_bind]. destruct (index_of delim p); repeat destruct (_ && _); eauto.
  - do 4 has_bytes p. destruct (_ =? 3); cbn; eauto.
  - do 5 has_bytes p. destruct (_ && _); cbn; eauto.
Qed.

(** ** More bytes do not change a length that is known *)

Lemma asn1_tag_app t q nn' t' : asn1_tag (length t) t = Some (nn', t') -> (0 < nn')%nat ->
  asn1_tag (length (t ++ q)) (t ++ q) = Some ((nn' + length q)%nat, t' ++ q) /\ nn' = length t'.
Proof.
  revert nn' t'. induction t as [|c t IH]; intros nn' t'; cbn [length asn1_tag app]; [intros [= <- <-]; lia|].
  destruct (_ =? _); [apply IH|]. intros [= <- <-] _. rewrite length_app. cbn [length]. done.
Qed.

Lemma asn1_length_app t q sk l : asn1_length t (length t) sk = Some l -> l <> goto_more ->
  asn1_length (t ++ q) (length (t ++ q)) sk = Some l.
Proof.
  unfold asn1_length. destruct t as [|c t]; [done|]. cbn [head tail mbind option_bind app]. set (len := Z.land c 0x7f). clearbody len.
  destruct (_ =? 0x80); [|done]. cbn [List.length]. rewrite length_app.
  destruct (Z.ltb_spec (Z.of_nat (S (List.length t)) - 1) len); [congruence|].
  replace (Z.of_nat (S (List.length t + List.length q)) - 1 <? len) with false by (symmetry; apply Z.ltb_ge; lia). destruct (len =? 0); [done|].
  destruct (Z.eqb_spec len 1); [by has_bytes t|]. destruct (Z.eqb_spec len 2); [by do 2 has_bytes t|].
  destruct (Z.eqb_spec len 3); [by do 3 has_bytes t|]. destruct (Z.eqb_spec len 4); [by do 4 has_bytes t|]. done.
Qed.

Lemma asn1_app p q l : asn1 p (zlen p) = Some l -> l <> goto_more -> asn1 (p ++ q) (zlen (p ++ q)) = Some l.
Proof.
  unfold asn1. rewrite zlen_app. pose proof (zlen_nonneg q). destruct (Z.ltb_spec (zlen p) 2) as [|H2]; [congruence|].
  replace (zlen p + zlen q <? 2) with false by lia. destruct p as [|c p]; [done|]. cbn [head tail mbind option_bind app].
  replace (Z.to_nat (zlen (c :: p)) - 1)%nat with (length p) by (unfold zlen; cbn [length]; lia).
  replace (Z.to_nat (zlen (c :: p) + zlen q) - 1)%nat with (length (p ++ q)) by (rewrite length_app; unfold zlen; cbn [length]; lia).
  destruct (_ =? 0x1f); [|apply asn1_length_app].
  destruct (asn1_tag (length p) p) as [[nn t]|] eqn:E; [|done]. cbn [mbind option_bind].
  destruct (Nat.ltb_spec nn 2) as [|Hnn]; [congruence|].
  destruct (asn1_tag_app p q nn t E) as [-> ->]; [lia|]. cbn [mbind option_bind].
  replace (length t + length q <? 2)%nat with false by (symmetry; apply Nat.ltb_ge; lia).
  destruct t as [|c' t]; [cbn [length] in Hnn; lia|]. cbn [tail app length] in *.
  replace (S (length t) - 1)%nat with (length t) by lia.
  replace (S (length t) + length q - 1)%nat with (length (t ++ q)) by (rewrite length_app; lia).
  replace (zlen (c :: p) + zlen q - Z.of_nat (S (length t) + length q) + 1) with (zlen (c :: p) - Z.of_nat (S (length t)) + 1)
    by (unfold zlen; lia). apply asn1_length_app.
Qed.

Lemma line_lf_app p q max trunc delim l :
  max = 0 \/ trunc = 0 -> line_lf p (zlen p) max trunc delim = Some l -> l <> goto_more ->
  line_lf (p ++ q) (zlen (p ++ q)) max trunc delim = Some l.
Proof.
  intros Hlim. unfold line_lf. rewrite !sys_memchr_all, index_of_app, zlen_app. cbn [mbind option_bind]. pose proof (zlen_nonneg q).
  destruct (index_of delim p) as [k|]; [done|].
  destruct ((max <? zlen p) && negb (max =? 0)) eqn:E1.
  - intros [= <-] _. destruct (index_of delim q) as [k|] eqn:Eq; cbn [option_map].
    + apply index_of_range in Eq. by replace ((max <? zlen p + k + 1) && negb (max =? 0)) with true by lia.
    + by replace ((max <? zlen p + zlen q) && negb (max =? 0)) with true by lia.
  - destruct ((trunc <=? zlen p) && negb (trunc =? 0)) eqn:E2; [|congruence].
    intros [= <-] _. destruct (index_of delim q) as [k|] eqn:Eq; cbn [option_map].
    + apply index_of_range in Eq. replace ((max <? zlen p + k + 1) && negb (max =? 0)) with false by lia.
      by replace ((trunc <? zlen p + k + 1) && negb (trunc =? 0)) with true by lia.
    + replace ((max <? zlen p + zlen q) && negb (max =? 0)) with false by lia.
      by replace ((trunc <=? zlen p + zlen q) && negb (trunc =? 0)) with true by lia.
Qed.

Lemma drop_app_zlen {A} (p q : list A) off : 0 <= off <= zlen p -> drop (Z.to_nat off) (p ++ q) = drop (Z.to_nat off) p ++ q.
Proof. intros H. apply drop_app_le. unfold zlen in H. lia. Qed.
Lemma zlen_drop {A} (p : list A) off : 0 <= off <= zlen p -> zlen (drop (Z.to_nat off) p) = zlen p - off.
Proof. intros H. unfold zlen in *. rewrite length_drop. lia. Qed.

(** There are as many bytes as the limit, and no newline among them. *)
Lemma http_lines_over fuel p off max st :
  0 <= off <= zlen p -> (Z.to_nat (zlen p - off) < fuel)%nat -> max <> 0 -> max <= zlen p ->
  (forall k, index_of 10 (drop (Z.to_nat off) p) = Some k -> max <= off + k) ->
  http_lines fuel (drop (Z.to_nat off) p) off (zlen p) max st = Some goto_error.
Proof.
  revert off. induction fuel as [|fuel IH]; intros off Ho Hf H0 Hmax Hk; [lia|]. cbn [http_lines].
  rewrite sys_memchr_rest by done. cbn [mbind option_bind].
  destruct (index_of 10 (drop (Z.to_nat off) p)) as [k|] eqn:E; [|by replace (negb _ && _) with true by lia].
  specialize (Hk k eq_refl).
  apply index_of_range in E. rewrite zlen_drop in E by done. replace (negb (max =? 0) && (max <? off + k + 1)) with true by lia.
  destruct (st =? 0); [done|]. destruct (Z.ltb_spec (off + k + 1) (zlen p)); [|done].
  rewrite drop_drop, <- Z2Nat.inj_add by lia. replace (off + (k + 1)) with (off + k + 1) by lia.
  destruct (SP (drop (Z.to_nat (off + k + 1)) p)) as [b|] eqn:Eb; cbn [mbind option_bind].
  - destruct (b && _); [|done]. apply IH; [lia..|]. intros j Hj%index_of_range. lia.
  - destruct (drop (Z.to_nat (off + k + 1)) p) as [|c t] eqn:Ed; [|done].
    apply (f_equal zlen) in Ed. rewrite zlen_drop in Ed by lia. change (zlen (@nil Z)) with 0 in Ed. lia.
Qed.

Lemma http_lines_app fuel fuel' p q off max st l :
  0 <= off <= zlen p -> (Z.to_nat (zlen p + zlen q - off) < fuel')%nat ->
  http_lines fuel (drop (Z.to_nat off) p) off (zlen p) max st = Some l -> l <> goto_more ->
  http_lines fuel' (drop (Z.to_nat off) (p ++ q)) off (zlen (p ++ q)) max st = Some l.
Proof.
  revert fuel' off. induction fuel as [|fuel IH]; intros fuel' off Ho Hf; [done|].
  pose proof (zlen_nonneg q) as Hq. pose proof (http_lines_over fuel' (p ++ q) off max st) as Hov. rewrite zlen_app in *.
  cbn [http_lines]. rewrite sys_memchr_rest by done. cbn [mbind option_bind].
  rewrite drop_app_zlen, index_of_app, zlen_drop in Hov by done.
  destruct (index_of 10 (drop (Z.to_nat off) p)) as [k|] eqn:E.
  - apply index_of_range in E as Hk. rewrite zlen_drop in Hk by done. clear Hov. destruct fuel' as [|fuel']; [lia|].
    cbn [http_lines]. rewrite <- (zlen_app p q), (sys_memchr_rest (p ++ q)), zlen_app by zlen_lia. cbn [mbind option_bind].
    rewrite drop_app_zlen, index_of_app, E by done.
    destruct (st =? 0); [done|]. rewrite <- drop_app_zlen by done.
    rewrite !drop_drop, <- !Z2Nat.inj_add by lia. replace (off + (k + 1)) with (off + k + 1) by lia.
    destruct (Z.ltb_spec (off + k + 1) (zlen p)) as [Hl|Hl].
    + replace (off + k + 1 <? zlen p + zlen q) with true by lia.
      destruct (drop (Z.to_nat (off + k + 1)) p) as [|c t] eqn:Ed; [done|].
      rewrite (drop_app_zlen p q), Ed by lia. cbn [SP app mbind option_bind].
      destruct (_ && (2 <? _)); [|done]. rewrite <- Ed, app_comm_cons, <- Ed, <- drop_app_zlen by lia. apply IH; lia.
    + destruct (negb (max =? 0) && (max <? off + k + 1)) eqn:Et; [|congruence]. intros [= <-] _.
      destruct (Z.ltb_spec (off + k + 1) (zlen p + zlen q)); [|done].
      pose proof (http_lines_over fuel' (p ++ q) (off + k + 1) max st) as Hov. rewrite zlen_app in Hov.
      destruct (SP (drop (Z.to_nat (off + k + 1)) (p ++ q))) as [b|] eqn:Eb; cbn [mbind option_bind].
      * destruct (b && _); [|done]. apply Hov; [lia..|]. intros j Hj%index_of_range. lia.
      * destruct (drop (Z.to_nat (off + k + 1)) (p ++ q)) as [|c t] eqn:Ed; [|done].
        apply (f_equal zlen) in Ed. rewrite zlen_drop in Ed by zlen_lia. change (zlen (@nil Z)) with 0 in Ed. rewrite zlen_app in Ed. lia.
  - destruct (negb (max =? 0) && (max <=? zlen p)) eqn:Et; [|congruence]. intros [= <-] _.
    rewrite drop_app_zlen by done. apply Hov; [lia..|]. intros k. destruct (index_of 10 q) as [j|] eqn:Ej; [|done].
    apply index_of_range in Ej. intros [= <-]. lia.
Qed.

Lemma http_long p max trunc st : 2 < zlen p ->
  http p (zlen p) max trunc st = http_lines (S (Z.to_nat (zlen p))) p 0 (zlen p) (if max =? 0 then trunc else max) st.
Proof.
  intros H. unfold http. replace (zlen p =? 1) with false by lia. by replace (zlen p =? 2) with false by lia.
Qed.

Lemma http_lines_none fuel p max st : index_of 10 p = None ->
  http_lines (S fuel) p 0 (zlen p) max st = Some (if negb (max =? 0) && (max <=? zlen p) then goto_error else goto_more).
Proof.
  intros E. pose proof (sys_memchr_all p 10) as Em. rewrite <- (Z.sub_0_r (zlen p)) in Em. cbn [http_lines].
  rewrite Em. cbn [mbind option_bind]. by rewrite E.
Qed.

(** An empty line, in front of something else. *)
Lemma http_lines_empty fuel p q max st : p = [10] \/ p = [13; 10] -> max = 0 \/ 2 <= max -> q <> [] ->
  http_lines (S fuel) (p ++ q) 0 (zlen (p ++ q)) max st = Some (goto_done (zlen p)).
Proof.
  intros Hp Hm Hq. destruct q as [|c q]; [done|]. pose proof (zlen_nonneg q). cbn [http_lines].
  pose proof (sys_memchr_all (p ++ c :: q) 10) as E. rewrite <- (Z.sub_0_r (zlen _)) in E at 1. rewrite E. cbn [mbind option_bind].
  rewrite index_of_app. destruct Hp as [-> | ->]; cbn [index_of Z.eqb Pos.eqb option_map];
    [change (zlen [10]) with 1; change (drop (Z.to_nat (0 + 1)) ([10] ++ c :: q)) with (c :: q)|
     change (zlen [13; 10]) with 2; change (drop (Z.to_nat (1 + 0 + 1)) ([13; 10] ++ c :: q)) with (c :: q)];
    rewrite !zlen_app, !zlen_cons; change (zlen (@nil Z)) with 0; cbn [SP mbind option_bind];
    replace (negb (max =? 0) && (max <? _)) with false by lia; (destruct (st =? 0); [done|]);
    replace (_ <? _) with true by lia; by rewrite andb_false_r.
Qed.

Lemma http_app p q max trunc st l :
  let m := if max =? 0 then trunc else max in
  m = 0 \/ 2 <= m -> http p (zlen p) max trunc st = Some l -> l <> goto_more -> http (p ++ q) (zlen (p ++ q)) max trunc st = Some l.
Proof.
  intros m Hm. destruct (decide (q = [])) as [->|Hq]; [by rewrite app_nil_r|].
  assert (1 <= zlen q) as Hzq by (destruct q; [done|]; rewrite zlen_cons; pose proof (zlen_nonneg q); lia).
  destruct (decide (2 < zlen p)) as [Hp|Hp].
  { rewrite http_long by done. rewrite http_long by (rewrite zlen_app; lia). fold m. intros H1 H2. pose proof (zlen_nonneg p).
    apply (http_lines_app (S (Z.to_nat (zlen p))) _ p q 0 m st l); [lia|rewrite zlen_app; lia|done|done]. }
  destruct p as [|a [|b [|c p]]]; [| | |exfalso; apply Hp; rewrite !zlen_cons; pose proof (zlen_nonneg p); lia].
  - unfold http at 1. change (zlen []) with 0. cbn [Z.eqb mbind option_bind orb]. fold m. rewrite (http_lines_none _ []) by done.
    change (zlen []) with 0. destruct (negb (m =? 0) && (m <=? 0)) eqn:E; [lia|congruence].
  - unfold http at 1. change (zlen [a]) with 1. cbn [Z.eqb Pos.eqb NL mbind option_bind]. fold m.
    destruct (Z.eqb_spec a 10) as [->|Ha]; cbn [orb].
    + intros [= <-] _. unfold http. replace (zlen ([10] ++ q) =? 1) with false by (rewrite zlen_app; change (zlen [10]) with 1; lia).
      replace (if zlen ([10] ++ q) =? 2 then CRNL ([10] ++ q) else Some false) with (Some false) by (by destruct (_ =? 2)).
      cbn [mbind option_bind orb]. fold m. apply (http_lines_empty _ [10]); tauto.
    + change 1 with (zlen [a]) at 2. rewrite (http_lines_none _ [a]) by (cbn [index_of]; by replace (a =? 10) with false by lia).
      change (zlen [a]) with 1. destruct (negb (m =? 0) && (m <=? 1)) eqn:E; [lia|congruence].
  - assert (2 < zlen ([a; b] ++ q)) as Hl by (rewrite zlen_app, !zlen_cons; change (zlen (@nil Z)) with 0; lia).
    rewrite (http_long ([a; b] ++ q)) by done. fold m. unfold http. change (zlen [a; b]) with 2. cbn [Z.eqb Pos.eqb mbind option_bind CRNL].
    fold m. destruct (Z.eqb_spec a 13) as [->|Ha]; [destruct (Z.eqb_spec b 10) as [->|Hb]|]; cbn [orb mbind option_bind].
    + intros [= <-] _. by apply (http_lines_empty _ [13; 10]); [right|..].
    + intros H1 H2. eapply (http_lines_app _ _ [13; b] q 0); [by vm_compute|rewrite zlen_app; change (zlen [13; b]) with 2; lia|exact H1|done].
    + intros H1 H2. eapply (http_lines_app _ _ [a; b] q 0); [by vm_compute|rewrite zlen_app; change (zlen [a; b]) with 2; lia|exact H1|done].
Qed.

Lemma header_app hlen (p q : list Z) k k' l :
  (hlen <= zlen p -> k = Some l -> k' = Some l) -> header hlen (zlen p) k = Some l -> l <> goto_more ->
  header hlen (zlen (p ++ q)) k' = Some l.
Proof.
  intros H. unfold header. rewrite zlen_app. pose proof (zlen_nonneg q). destruct (Z.ltb_spec (zlen p) hlen); [congruence|].
  intros E _. replace (zlen p + zlen q <? hlen) with false by lia. by apply H.
Qed.

Definition is_http (htype : PacketParseType) : bool :=
  match htype with TCP_PB_HTTP | TCP_PB_HTTPH | TCP_PB_HTTP_BIN | TCP_PB_HTTPH_BIN => true | _ => false end.

(** The limits do not contradict each other: a line is not both cut and refused, and
    an empty line of HTTP is not refused. *)
Definition fair_limits (htype : PacketParseType) (max trunc : Z) : Prop :=
  (htype = TCP_PB_LINE_LF -> max = 0 \/ trunc = 0) /\
  (is_http htype = true -> let m := if max =? 0 then trunc else max in m = 0 \/ 2 <= m).

Lemma packet_label_app htype p q max trunc delim st l :
  htype <> TCP_PB_RAW -> fair_limits htype max trunc ->
  packet_label htype p (zlen p) max trunc delim st = Some l -> l <> goto_more ->
  packet_label htype (p ++ q) (zlen (p ++ q)) max trunc delim st = Some l.
Proof.
  intros Hraw [Hline Hhttp]. destruct htype; cbn [packet_label is_http] in *;
    try exact (http_app p q max trunc st l (Hhttp eq_refl));
    try lazymatch goal with |- header _ _ _ = _ -> _ => apply header_app; intros Hl; unfold zlen in Hl end.
  - done.
  - by has_bytes p.
  - by do 2 has_bytes p.
  - by do 4 has_bytes p.
  - apply asn1_app.
  - by do 4 has_bytes p.
  - rewrite zlen_app. unfold zlen. destruct (Z.ltb_spec (Z.of_nat (length p)) 12); [done|].
    destruct (Z.ltb_spec (Z.of_nat (length p) + Z.of_nat (length q)) 12); [lia|]. by do 12 has_bytes p.
  - by do 8 has_bytes p.
  - apply line_lf_app. by apply Hline.
  - by do 4 has_bytes p.
  - by do 5 has_bytes p.
Qed.

(** Shared by the property below and by the lemma on incomplete packets. *)
Lemma known_length htype p q max trunc delim st r st' :
  htype <> TCP_PB_RAW -> fair_limits htype max trunc ->
  packet_get_length htype p (zlen p) max trunc delim st = Some (r, st') -> r <> 0 ->
  packet_get_length htype (p ++ q) (zlen (p ++ q)) max trunc delim st = Some (r, st').
Proof.
  intros Hraw Hlim. unfold packet_get_length. set (s := match htype with TCP_PB_HTTPH | TCP_PB_HTTPH_BIN => 1 | _ => st end).
  destruct (packet_label htype p (zlen p) max trunc delim s) as [l|] eqn:E; [|done]. cbn [mbind option_bind]. intros [= <- <-] Hr.
  rewrite (packet_label_app htype p q max trunc delim s l) by (try done; by intros ->). done.
Qed.

(** C13: How the bytes of a packet are cut into pieces makes no difference: once
    [packet_get_length] has found the length of the packet at the beginning of the
    bytes that were read, or that it is in error, it gives the same answer however
    many more bytes are read.  This holds for every format but the raw one, whose
    packets are what has been read; the limits must not contradict each other. *)
Theorem packet_length_stable htype p q max trunc delim st r st' :
  htype <> TCP_PB_RAW -> fair_limits htype max trunc ->
  packet_get_length htype p (zlen p) max trunc delim st = Some (r, st') -> r <> 0 ->
  packet_get_length htype (p ++ q) (zlen (p ++ q)) max trunc delim st = Some (r, st').
Proof. apply known_length. Qed.

(** ** Where the lengths lie *)

Definition label_ok (n : Z) (l : label) : Prop :=
  match l with
  | goto_remain hlen plen => 0 < hlen <= n /\ 0 <= plen
  | goto_done r | return_ r => 0 < r <= n
  | _ => True
  end.

Lemma lor_nonneg a b : 0 <= a -> 0 <= b -> 0 <= Z.lor a b.
Proof. intros. by apply Z.lor_nonneg. Qed.
Lemma shiftl_nonneg a n : 0 <= a -> 0 <= Z.shiftl a n.
Proof. intros. by apply Z.shiftl_nonneg. Qed.

Ltac bits_nonneg := repeat first [apply lor_nonneg|apply shiftl_nonneg]; assumption.

Ltac inv_bytes := repeat match goal with H : bytes_ok (_ :: _) |- _ => apply Forall_cons_iff in H; destruct H as [[? _] H] end.

Lemma get_int16_nonneg p x : bytes_ok p -> get_int16 p = Some x -> 0 <= x.
Proof. destruct p as [|a [|b p]]; try done. intros H [= <-]. inv_bytes. bits_nonneg. Qed.
Lemma get_int24_nonneg p x : bytes_ok p -> get_int24 p = Some x -> 0 <= x.
Proof. destruct p as [|a [|b [|c p]]]; try done. intros H [= <-]. inv_bytes. bits_nonneg. Qed.
Lemma get_int32_nonneg p x : bytes_ok p -> get_int32 p = Some x -> 0 <= x.
Proof. destruct p as [|a [|b [|c [|d p]]]]; try done. intros H [= <-]. inv_bytes. bits_nonneg. Qed.
Lemma get_little_int32_nonneg p x : bytes_ok p -> get_little_int32 p = Some x -> 0 <= x.
Proof. destruct p as [|a [|b [|c [|d p]]]]; try done. intros H [= <-]. inv_bytes. bits_nonneg. Qed.

Lemma asn1_tag_bytes nn t nn' t' : asn1_tag nn t = Some (nn', t') -> bytes_ok t -> bytes_ok t'.
Proof.
  revert t. induction nn as [|nn IH]; intros t; cbn [asn1_tag]; [by intros [= <- <-]|]. destruct t as [|c t]; [done|].
  destruct (_ =? _); [|by intros [= <- <-]]. intros E [_ H]%Forall_cons_iff. by eapply IH.
Qed.

Lemma asn1_length_bounds t nn sk n l : bytes_ok t -> asn1_length t nn sk = Some l ->
  0 <= sk -> sk + Z.of_nat nn <= n -> (1 <= nn)%nat -> label_ok n l.
Proof.
  intros Hb. unfold asn1_length. destruct t as [|c t]; [done|]. cbn [head tail mbind option_bind]. apply Forall_cons_iff in Hb as [[Hc _] Hb].
  assert (0 <= Z.land c 127) as Hn by (apply Z.land_nonneg; lia). set (len := Z.land c 0x7f) in *. clearbody len.
  destruct (_ =? 0x80); [|intros [= <-]; cbn; lia]. destruct (Z.ltb_spec (Z.of_nat nn - 1) len); [by intros [= <-]|].
  destruct (len =? 0); [intros [= <-]; cbn; lia|].
  destruct (Z.eqb_spec len 1); [destruct t as [|x t]; [done|]; intros [= <-]; inv_bytes; cbn; lia|].
  destruct (Z.eqb_spec len 2); [destruct (get_int16 t) as [x|] eqn:E; [|done]; intros [= <-]; apply get_int16_nonneg in E; [cbn; lia|done]|].
  destruct (Z.eqb_spec len 3); [destruct (get_int24 t) as [x|] eqn:E; [|done]; intros [= <-]; apply get_int24_nonneg in E; [cbn; lia|done]|].
  destruct (Z.eqb_spec len 4); [destruct (get_int32 t) as [x|] eqn:E; [|done]; intros [= <-]; apply get_int32_nonneg in E; [cbn; lia|done]|].
  by intros [= <-].
Qed.

(** A line, not a length in a header. *)
Definition line_ok (n : Z) (l : label) : Prop := label_ok n l /\ match l with goto_remain _ _ => False | _ => True end.

Lemma http_lines_bounds fuel p off max st l : 0 <= off <= zlen p ->
  http_lines fuel (drop (Z.to_nat off) p) off (zlen p) max st = Some l -> line_ok (zlen p) l.
Proof.
  revert off. induction fuel as [|fuel IH]; intros off Ho; [done|]. cbn [http_lines]. rewrite sys_memchr_rest by done.
  cbn [mbind option_bind]. destruct (index_of 10 (drop (Z.to_nat off) p)) as [k|] eqn:E.
  - apply index_of_range in E. rewrite zlen_drop in E by done.
    set (too := negb (max =? 0) && (max <? off + k + 1)).
    destruct (st =? 0); [destruct too; intros [= <-]; (split; [cbn; lia|done])|].
    destruct (Z.ltb_spec (off + k + 1) (zlen p)); [|destruct too; intros [= <-]; (split; done)].
    rewrite drop_drop, <- Z2Nat.inj_add by lia. replace (off + (k + 1)) with (off + k + 1) by lia.
    destruct (SP _) as [b|]; [|done]. cbn [mbind option_bind]. destruct (b && _); [apply IH; lia|].
    destruct too; intros [= <-]; (split; [cbn; lia|done]).
  - destruct (_ && _); intros [= <-]; (split; done).
Qed.

Lemma http_bounds p max trunc st l : http p (zlen p) max trunc st = Some l -> line_ok (zlen p) l.
Proof.
  pose proof (zlen_nonneg p). unfold http. destruct (if zlen p =? 1 then NL p else Some false) as [b1|] eqn:E1; [|done].
  destruct (if zlen p =? 2 then CRNL p else Some false) as [b2|] eqn:E2; [|done]. cbn [mbind option_bind].
  destruct (b1 || b2) eqn:Eb; [|apply (http_lines_bounds _ p 0); lia]. intros [= <-]. split; [|done]. cbn.
  destruct (Z.eqb_spec (zlen p) 1); [lia|]. destruct (Z.eqb_spec (zlen p) 2); [lia|]. by simplify_eq.
Qed.

Lemma line_lf_bounds p max trunc delim l : 0 <= trunc -> line_lf p (zlen p) max trunc delim = Some l -> line_ok (zlen p) l.
Proof.
  intros Ht. unfold line_lf. rewrite sys_memchr_all. cbn [mbind option_bind]. destruct (index_of delim p) as [k|] eqn:Ek.
  - apply index_of_range in Ek. destruct ((max <? k + 1) && negb (max =? 0)); [by intros [= <-]|].
    destruct ((trunc <? k + 1) && negb (trunc =? 0)) eqn:E2; intros [= <-]; (split; [cbn; lia|done]).
  - destruct ((max <? zlen p) && negb (max =? 0)); [by intros [= <-]|].
    destruct ((trunc <=? zlen p) && negb (trunc =? 0)) eqn:E2; intros [= <-]; (split; [cbn; lia|done]).
Qed.

Lemma header_bounds hlen n k l : header hlen n k = Some l -> (hlen <= n -> k = Some l -> label_ok n l) -> label_ok n l.
Proof. unfold header. destruct (Z.ltb_spec n hlen); [by intros [= <-]|]. intros E Hk. by apply Hk. Qed.

Ltac after_header E := apply (header_bounds _ _ _ _ E); clear E; intros Hn E.
Ltac read_some E lem := let x := fresh "x" in let Ex := fresh "Ex" in
  lazymatch type of E with mbind _ ?r = _ => destruct r as [x|] eqn:Ex; [|done] end;
  apply lem in Ex; [cbn in E; injection E as <-; cbn; lia|].

Lemma packet_label_bounds htype p max trunc delim st l :
  bytes_ok p -> 0 <= trunc -> packet_label htype p (zlen p) max trunc delim st = Some l -> label_ok (zlen p) l.
Proof.
  intros Hb Ht. pose proof (zlen_nonneg p) as H0.
  destruct htype; cbn [packet_label]; intros E; try (by apply http_bounds in E as [? _]);
    try lazymatch type of E with header _ _ _ = _ => after_header E end.
  - destruct (Z.eqb_spec (zlen p) 0); injection E as <-; cbn; lia.
  - destruct p as [|a p]; [done|]. inv_bytes. cbn in E. injection E as <-. cbn [label_ok]. lia.
  - read_some E get_int16_nonneg. done.
  - read_some E get_int32_nonneg. done.
  - unfold asn1 in E. destruct (Z.ltb_spec (zlen p) 2) as [|H2]; [by injection E as <-|]. destruct p as [|c p]; [done|].
    cbn [head tail mbind option_bind] in E. apply Forall_cons_iff in Hb as [_ Hb]. rewrite zlen_cons in *.
    replace (Z.to_nat (1 + zlen p) - 1)%nat with (length p) in E by (unfold zlen; lia).
    destruct (_ =? 0x1f).
    + destruct (asn1_tag_total (length p) p) as (nn & t & Et & Hn & Hle); [lia|]. rewrite Et in E. cbn [mbind option_bind] in E.
      destruct (Nat.ltb_spec nn 2); [by injection E as <-|].
      pose proof (asn1_tag_bytes _ _ _ _ Et Hb) as Hbt.
      eapply asn1_length_bounds; [|exact E|unfold zlen; lia..]. by destruct t; [|inversion Hbt].
    + eapply asn1_length_bounds; [|exact E|unfold zlen in *; lia..]. done.
  - destruct (get_int32 p) as [x|] eqn:Ex; [|done]. cbn in E. injection E as <-. cbn [label_ok].
    split; [lia|]. apply Z.land_nonneg. lia.
  - destruct (zlen p <? 12); [done|]. destruct (negb _); [by injection E as <-|]. destruct (p !! 6%nat) as [f|]; [|done].
    cbn [mbind option_bind] in E. pose proof (Forall_drop _ 8 _ Hb) as Hb8.
    destruct (negb _); [read_some E get_little_int32_nonneg|read_some E get_int32_nonneg]; done.
  - do 8 (destruct p as [|? p]; [done|]). inv_bytes. destruct (negb _); injection E as <-; [done|]. cbn [label_ok].
    split; [unfold zlen in *; cbn [length] in *; lia|]. assert (forall a b, 0 <= a -> 0 <= b -> 0 <= a + b) as Hadd by lia. apply Hadd; bits_nonneg.
  - by apply line_lf_bounds in E as [? _].
  - destruct p as [|v [|? p]]; try done. destruct (_ =? 3); [|by injection E as <-]. destruct (get_int16 p) as [x|]; [|done].
    cbn in E. injection E as <-. cbn [label_ok]. split; [unfold zlen in *; cbn [length] in *; lia|]. apply wrapu_range. lia.
  - destruct p as [|a [|b [|c p]]]; try done. destruct (_ && _).
    + destruct (get_int16 (a :: b :: c :: p)) as [x|]; [|done]. cbn in E. injection E as <-. cbn [label_ok].
      split; [unfold zlen in *; cbn [length] in *; lia|]. apply wrapu_range. lia.
    + apply Forall_cons_iff in Hb as [_ Hb]. apply Forall_cons_iff in Hb as [_ Hb]. apply Forall_cons_iff in Hb as [_ Hb].
      read_some E get_int16_nonneg. done.
Qed.

(** C16: On any bytes, [packet_get_length] reads only bytes that were received and
    ends, and what it returns lies between -1 and [INT_MAX]: -1 for an error, 0 when
    more is needed; a length that it returns for lines and for HTTP does not go
    beyond what was received.  The number of bytes is below 2^31, and so is their
    number together with the limit. *)
Theorem packet_length_bounds htype p max trunc delim st :
  bytes_ok p -> 0 <= trunc -> 0 <= max -> zlen p + max <= INT_MAX ->
  exists r st', packet_get_length htype p (zlen p) max trunc delim st = Some (r, st') /\ -1 <= r <= INT_MAX /\
    (htype = TCP_PB_LINE_LF \/ is_http htype = true -> r <= zlen p).
Proof.
  intros Hb Ht Hm Hmax. unfold packet_get_length, INT_MAX in *. pose proof (zlen_nonneg p).
  set (s := match htype with TCP_PB_HTTPH | TCP_PB_HTTPH_BIN => 1 | _ => st end).
  destruct (packet_label_total htype p max trunc delim s) as [l E]. rewrite E. cbn [mbind option_bind]. eexists _, s. split; [done|].
  apply packet_label_bounds in E as Hl; [|done..].
  destruct l as [|hlen plen|r| |r]; cbn [at_label label_ok] in *; [lia| | |lia|]; [|rewrite wraps_small by (unfold in_s; lia); lia..].
  split.
  - set (m := if max =? 0 then _ else max). destruct (Z.ltb_spec m plen); [lia|].
    assert (hlen + plen <= 2147483647) as Hs by (unfold m, INT_MAX in *; destruct (Z.eqb_spec max 0); lia).
    rewrite wrapu_small by (unfold in_u; lia). rewrite wraps_small by (unfold in_s; lia). lia.
  - intros Hline. exfalso. destruct htype; destruct Hline as [Hx|Hx]; try done; cbn [packet_label] in E;
      first [apply http_bounds in E as [_ E]|apply line_lf_bounds in E as [_ E]]; done.
Qed.

(** ** Packets with a length in front *)

(** The size of the header that [packet_get_body] takes off. *)
Definition length_bytes (htype : PacketParseType) : option nat :=
  match htype with TCP_PB_1 => Some 1%nat | TCP_PB_2 => Some 2%nat | TCP_PB_4 => Some 4%nat | _ => None end.
Definition frame (k : nat) (body : list Z) : list Z := be_bytes k (zlen body) ++ body.
(** A body that a header of [k] bytes and an [int] have room for. *)
Definition frames (k : nat) (body : list Z) : Prop := zlen body < 256 ^ Z.of_nat k /\ zlen body + 4 <= INT_MAX.

Lemma get_int16_be n rest : 0 <= n < 65536 -> get_int16 (be_bytes 2 n ++ rest) = Some n.
Proof.
  intros Hn. pose proof (be_val_bytes 2 n) as Hv. pose proof (be_bytes_ok 2 n) as Hok. destruct (be_bytes 2 n) as [|a [|b [|]]] eqn:E; try done.
  inversion Hok as [|? ? Ha Hok2]; subst. inversion Hok2 as [|? ? Hb _]; subst. unfold byte_ok in *. cbn [app get_int16].
  rewrite lor_shiftl_add by lia. rewrite wrapu_small in Hv by (unfold in_u; cbn; lia). rewrite <- Hv. unfold be_val. cbn [fold_left]. f_equal; lia.
Qed.

Lemma get_int32_be n rest : 0 <= n < 2 ^ 32 -> get_int32 (be_bytes 4 n ++ rest) = Some n.
Proof.
  intros Hn. pose proof (be_val_bytes 4 n) as Hv. pose proof (be_bytes_ok 4 n) as Hok.
  destruct (be_bytes 4 n) as [|a [|b [|c [|d [|]]]]] eqn:E; try done. cbn [app get_int32]. rewrite wrapu_small in Hv by (unfold in_u; cbn; lia).
  rewrite <- Hv, <- be32_val; [done|..]; repeat match goal with H : Forall _ (_ :: _) |- _ => inversion_clear H end; done.
Qed.

Lemma get_int8_be n rest : 0 <= n < 256 -> get_int8 (be_bytes 1 n ++ rest) = Some n.
Proof. intros Hn. cbn. unfold byte_at. rewrite Z.mul_0_r, Z.shiftr_0_r, land_255_small by done. done. Qed.

Lemma header_there h k body rest l : h = Z.of_nat k -> header h (zlen (frame k body ++ rest)) l = l.
Proof.
  intros ->. unfold header, frame. pose proof (zlen_nonneg body). pose proof (zlen_nonneg rest).
  by replace (zlen _ <? _) with false by (symmetry; apply Z.ltb_ge; rewrite !zlen_app, zlen_be_bytes; lia).
Qed.

Lemma frame_length htype k body rest : length_bytes htype = Some k -> frames k body ->
  packet_get_length htype (frame k body ++ rest) (zlen (frame k body ++ rest)) 0 0 0 0 = Some (zlen (frame k body), 0).
Proof.
  intros Hk [Hb Hi]. pose proof (zlen_nonneg body) as H0. unfold INT_MAX in *.
  assert (at_label (goto_remain (Z.of_nat k) (zlen body)) 0 = zlen (frame k body)) as Hat.
  { cbn [at_label]. unfold INT_MAX, frame. assert (Z.of_nat k <= 4) by (destruct htype; try discriminate Hk; injection Hk as <-; lia).
    change (0 =? 0) with true. cbn iota. replace (_ <? zlen body) with false by (symmetry; apply Z.ltb_ge; lia).
    rewrite wrapu_small by (unfold in_u; lia). rewrite wraps_small by (unfold in_s; lia). rewrite zlen_app, zlen_be_bytes. lia. }
  unfold packet_get_length. destruct htype; try discriminate Hk; injection Hk as <-; cbn [packet_label]; rewrite header_there by done;
    unfold frame at 1; rewrite <- app_assoc.
  - rewrite get_int8_be by (cbn in Hb; lia). cbn [mbind option_bind]. by rewrite <- Hat.
  - rewrite get_int16_be by (cbn in Hb; lia). cbn [mbind option_bind]. by rewrite <- Hat.
  - rewrite get_int32_be by lia. cbn [mbind option_bind]. by rewrite <- Hat.
Qed.

Lemma frame_body htype k body : length_bytes htype = Some k ->
  packet_get_body htype (frame k body) (zlen (frame k body)) = Some (body, zlen body).
Proof.
  intros Hk. unfold frame. destruct htype; try discriminate Hk; injection Hk as <-; cbn [packet_get_body];
    rewrite drop_app_length' by (by rewrite length_be_bytes); do 2 f_equal; rewrite zlen_app, zlen_be_bytes; lia.
Qed.

(** A packet of which a part is missing: its length is not yet known, or is more than
    what there is. *)
Lemma frame_partial htype k body j : length_bytes htype = Some k -> frames k body -> 0 <= j < zlen (frame k body) ->
  exists r, packet_get_length htype (take (Z.to_nat j) (frame k body)) (zlen (take (Z.to_nat j) (frame k body))) 0 0 0 0 = Some (r, 0) /\
    (r = 0 \/ j < r).
Proof.
  intros Hk Hf Hj. pose proof (known_length htype (take (Z.to_nat j) (frame k body)) (drop (Z.to_nat j) (frame k body)) 0 0 0 0) as Hst.
  rewrite take_drop in Hst. pose proof (frame_length htype k body [] Hk Hf) as Hl. rewrite app_nil_r in Hl.
  destruct (packet_label_total htype (take (Z.to_nat j) (frame k body)) 0 0 0 0) as [l El].
  assert (packet_get_length htype (take (Z.to_nat j) (frame k body)) (zlen (take (Z.to_nat j) (frame k body))) 0 0 0 0 = Some (at_label l 0, 0)) as E.
  { unfold packet_get_length. destruct htype; try discriminate Hk; rewrite El; done. }
  exists (at_label l 0). split; [done|]. destruct (decide (at_label l 0 = 0)) as [|Hr]; [by left|right].
  rewrite (Hst (at_label l 0) 0) in Hl; [|by intros ->|by split; [intros ->|destruct htype]|done|done]. injection Hl as ->. lia.
Qed.

(** What a reader of the socket makes of the bytes received: the bodies of the
    packets, and the bytes that are left until more arrive. *)
Fixpoint read_packets (fuel : nat) (htype : PacketParseType) (bs : list Z) : list (list Z) * list Z :=
  match fuel with
  | O => ([], bs)
  | S fuel =>
      match packet_get_length htype bs (zlen bs) 0 0 0 0 with
      | Some (r, _) =>
          if (0 <? r) && (r <=? zlen bs) then
            match packet_get_body htype (take (Z.to_nat r) bs) r with
            | Some (body, len) =>
                let '(ps, rest) := read_packets fuel htype (drop (Z.to_nat r) bs) in (take (Z.to_nat len) body :: ps, rest)
            | None => ([], bs)
            end
          else ([], bs)
      | None => ([], bs)
      end
  end.

Lemma frame_nonempty htype k body : length_bytes htype = Some k -> 0 < zlen (frame k body).
Proof.
  intros Hk. unfold frame. rewrite zlen_app, zlen_be_bytes. pose proof (zlen_nonneg body).
  destruct htype; try discriminate Hk; injection Hk as <-; lia.
Qed.

(** Shared by the two properties below. *)
Lemma packets_split_lemma htype k bodies last j :
  length_bytes htype = Some k -> Forall (frames k) bodies -> frames k last -> 0 <= j < zlen (frame k last) ->
  read_packets (S (length bodies)) htype (concat (map (frame k) bodies) ++ take (Z.to_nat j) (frame k last)) =
  (bodies, take (Z.to_nat j) (frame k last)).
Proof.
  intros Hk Hb Hl Hj. induction Hb as [|body bodies Hf _ IH].
  - cbn [map concat app read_packets length]. destruct (frame_partial htype k last j Hk Hl Hj) as (r & -> & Hr).
    assert (zlen (take (Z.to_nat j) (frame k last)) = j) as Hz by (unfold zlen in *; rewrite length_take; lia). rewrite Hz.
    by replace ((0 <? r) && (r <=? j)) with false by lia.
  - cbn [map concat length]. rewrite <- app_assoc. set (more := concat _ ++ _) in *.
    change (read_packets (S (S (length bodies))) htype (frame k body ++ more)) with
      (match packet_get_length htype (frame k body ++ more) (zlen (frame k body ++ more)) 0 0 0 0 with
       | Some (r, _) =>
           if (0 <? r) && (r <=? zlen (frame k body ++ more)) then
             match packet_get_body htype (take (Z.to_nat r) (frame k body ++ more)) r with
             | Some (b, len) =>
                 let '(ps, rest) := read_packets (S (length bodies)) htype (drop (Z.to_nat r) (frame k body ++ more)) in
                 (take (Z.to_nat len) b :: ps, rest)
             | None => ([], frame k body ++ more)
             end
           else ([], frame k body ++ more)
       | None => ([], frame k body ++ more)
       end).
    rewrite (frame_length htype k body more Hk Hf). pose proof (frame_nonempty htype k body Hk). pose proof (zlen_nonneg more).
    replace ((0 <? _) && _) with true by (rewrite zlen_app; lia).
    replace (Z.to_nat (zlen (frame k body))) with (length (frame k body)) by (unfold zlen; lia).
    rewrite take_app_length, drop_app_length, (frame_body htype k body Hk), IH.
    replace (Z.to_nat (zlen body)) with (length body) by (unfold zlen; lia). by rewrite firstn_all.
Qed.

(** C14: The reader of a stream of packets with a length of one, two or four bytes in
    front gets back the bodies that were written, in order, whatever they contain
    and wherever the stream is cut: what is there of a packet whose end has not
    arrived is left for later. *)
Theorem packets_split htype k bodies last j :
  length_bytes htype = Some k -> Forall (frames k) bodies -> frames k last -> 0 <= j < zlen (frame k last) ->
  read_packets (S (length bodies)) htype (concat (map (frame k) bodies) ++ take (Z.to_nat j) (frame k last)) =
  (bodies, take (Z.to_nat j) (frame k last)).
Proof. apply packets_split_lemma. Qed.

(** ** The messages of a C node *)

Lemma sent_frame fd header tr ws to msg sent tr' ws' token tr1 :
  send_token fd tr = (token, tr1) -> wire_name (fi_cookie fd) -> wire_pid to -> wire_token token ->
  ei_send_encoded_tmo fd header tr ws to msg = ROk (sent, tr', ws') ->
  exists ctl, sent = frame 4 (ERL_PASS_THROUGH :: ctl ++ msg).
Proof.
  intros Etok [Hc _] Hto Htok. unfold ei_send_encoded_tmo. rewrite Etok. destruct (wire_pid_bytes to Hto) as (pb & Epb & _).
  destruct (token_part_some token Htok) as (tf & Htf & _).
  assert (Forall2 sent_field [(fun b i => ei_encode_atom b i (fi_cookie fd)); (fun b i => ei_encode_pid b i to)]
    [(name_bytes (fi_cookie fd), id); (pb, id)]) as Hf.
  { constructor; [exact (name_emits _ Hc)|]. constructor; [exact (pid_sent to pb id Hto Epb)|constructor]. }
  pose proof (control_emits token 3 ERL_SEND ERL_SEND_TT _ _ ltac:(lia) (Forall2_app Hf (token_field_sent token tf Htok Htf))) as Hem.
  rewrite (control_packet_ok header _ _ _ Hem). clear Hem Hf. set (ctl := control_bytes _ _ _). clearbody ctl.
  destruct (5 + zlen ctl <=? zlen header); [|discriminate]. cbn [rbind].
  destruct (transmit fd ws (packet_header ctl (zlen msg)) msg) as [[s w]| | | |] eqn:Et; cbn [rbind]; try discriminate. intros [= <- _ _].
  rewrite (transmit_sent _ _ _ _ _ _ Et). exists ctl. unfold packet_header, frame. rewrite <- !app_assoc. cbn [app].
  do 2 f_equal. rewrite zlen_cons, zlen_app. lia.
Qed.

(** What a C node sends to one pid after the other, each call from its own trace state
    and script of the socket. *)
Definition sent_by (fd : fd_info) (header : mem) (to : erlang_pid) (msg sent : list Z) : Prop :=
  exists tr ws tr' ws' token tr1, send_token fd tr = (token, tr1) /\ wire_token token /\
    ei_send_encoded_tmo fd header tr ws to msg = ROk (sent, tr', ws').

(** What a C node writes with any number of calls of [ei_send_encoded_tmo] is, for a
    node of the emulator that reads packets with a length of four bytes, one packet
    for each call, with the message at its end behind the pass-through marker and
    the control message; and where the stream ends in the middle of a further
    packet, nothing of it is taken for one. *)
Theorem node_messages_split fd header to msgs sents msg sent j :
  wire_name (fi_cookie fd) -> wire_pid to -> Forall2 (sent_by fd header to) msgs sents -> sent_by fd header to msg sent ->
  Forall (fun s => zlen s <= INT_MAX) (sent :: sents) -> 0 <= j < zlen sent ->
  exists ctls bodies, bodies = zip_with (fun ctl msg => ERL_PASS_THROUGH :: ctl ++ msg) ctls msgs /\ length ctls = length msgs /\
    read_packets (S (length msgs)) TCP_PB_4 (concat sents ++ take (Z.to_nat j) sent) = (bodies, take (Z.to_nat j) sent).
Proof.
  intros Hc Hto Hs Hlast Hlen Hj.
  assert (forall m s, sent_by fd header to m s -> exists ctl, s = frame 4 (ERL_PASS_THROUGH :: ctl ++ m)) as Hframe.
  { intros m s (tr & ws & tr' & ws' & token & tr1 & E1 & Hw & E). by eapply sent_frame. }
  destruct (Hframe _ _ Hlast) as [ctl Es].
  assert (forall b, zlen (frame 4 b) <= INT_MAX -> frames 4 b) as Hfits.
  { intros b Hb. unfold frame in Hb. rewrite zlen_app, zlen_be_bytes in Hb. unfold frames, INT_MAX in *. cbn. lia. }
  apply Forall_cons_iff in Hlen as [Hl1 Hlen].
  assert (exists ctls, length ctls = length msgs /\
    sents = map (frame 4) (zip_with (fun ctl msg => ERL_PASS_THROUGH :: ctl ++ msg) ctls msgs)) as (ctls & Hlc & Esents).
  { clear -Hs Hframe. induction Hs as [|m s ms ss Hm _ (ctls & Hl & ->)]; [by exists []|]. destruct (Hframe _ _ Hm) as [c ->].
    exists (c :: ctls). cbn. by rewrite Hl. }
  exists ctls, (zip_with (fun ctl msg => ERL_PASS_THROUGH :: ctl ++ msg) ctls msgs). split; [done|]. split; [done|].
  set (bodies := zip_with _ ctls msgs) in *. assert (length bodies = length msgs) as Hlb by (unfold bodies; rewrite length_zip_with; lia).
  rewrite Es, Esents in *. rewrite <- Hlb. apply packets_split_lemma; [done| |by apply Hfits|done].
  clear -Hlen Hfits. induction bodies as [|b bodies IH]; [constructor|]. cbn [map] in Hlen. apply Forall_cons_iff in Hlen as [Hb Hlen].
  constructor; [by apply Hfits|by apply IH].
Qed.

(** ** Samples *)

(** The beginning of an HTTP header that is continued on a second line. *)
Definition header_a : list Z := str "Via: a"%string ++ [13; 10] ++ str " b"%string ++ [13; 10] ++ str "X"%string.

Lemma packet_length_stable_witness :
  packet_get_length TCP_PB_HTTP header_a (zlen header_a) 0 0 0 1 = Some (12, 1) /\
  packet_get_length TCP_PB_HTTP (header_a ++ str ": 1"%string) (zlen (header_a ++ str ": 1"%string)) 0 0 0 1 = Some (12, 1).
Proof.
  split; [by vm_compute|]. apply (packet_length_stable TCP_PB_HTTP header_a (str ": 1"%string) 0 0 0 1 12 1); [done| |by vm_compute|done].
  split; [done|]. intros _. by left.
Defined.

Lemma packet_length_bounds_witness :
  bytes_ok header_a /\
  exists r st', packet_get_length TCP_PB_HTTP header_a (zlen header_a) 0 0 0 1 = Some (r, st') /\ -1 <= r <= INT_MAX /\ r <= zlen header_a.
Proof.
  assert (bytes_ok header_a) as Hb by (repeat (constructor; [by vm_compute|]); constructor). split; [done|].
  destruct (packet_length_bounds TCP_PB_HTTP header_a 0 0 0 1) as (r & st' & E & Hr & Hl); [done|lia|lia|by vm_compute|].
  exists r, st'. split; [done|]. split; [done|]. apply Hl. by right.
Defined.

Lemma packets_split_witness :
  read_packets 3 TCP_PB_2 ([0; 2; 104; 105; 0; 0] ++ [0; 3; 1]) = ([[104; 105]; []], [0; 3; 1]).
Proof.
  apply (packets_split TCP_PB_2 2 [[104; 105]; []] [1; 2; 3] 3); [done| |by vm_compute|by vm_compute].
  constructor; [by vm_compute|]. constructor; [by vm_compute|constructor].
Defined.

Definition sent_a : list Z :=
  match ei_send_encoded_tmo (fd_a true) (zeros 1200) trace_0 [CWrote 36] pid_b [131; 97; 1] with ROk (s, _, _) => s | _ => [] end.
Lemma sent_by_a : sent_by (fd_a true) (zeros 1200) pid_b [131; 97; 1] sent_a.
Proof. exists trace_0, [CWrote 36], trace_0, [], None, trace_0. split; [done|]. split; [done|]. by vm_compute. Qed.

Lemma node_messages_split_witness :
  exists ctl, read_packets 2 TCP_PB_4 (sent_a ++ take 5 sent_a) = ([ERL_PASS_THROUGH :: ctl ++ [131; 97; 1]], take 5 sent_a).
Proof.
  destruct (node_messages_split (fd_a true) (zeros 1200) pid_b [[131; 97; 1]] [sent_a] [131; 97; 1] sent_a 5)
    as (ctls & bodies & Eb & Hl & E).
  - exact cookie_wire.
  - exact pid_b_wire.
  - constructor; [exact sent_by_a|constructor].
  - exact sent_by_a.
  - constructor; [by vm_compute|]. constructor; [by vm_compute|constructor].
  - by vm_compute.
  - destruct ctls as [|ctl [|]]; [discriminate Hl| |discriminate Hl]. exists ctl. rewrite Eb in E. cbn [concat] in E. rewrite app_nil_r in E. exact E.
Defined.

(** With a limit for packets and one for lines, it depends on how a line arrives
    whether it is cut or refused. *)
Example line_limits_clash :
  let line := str "abcdefg"%string in
  packet_get_length TCP_PB_LINE_LF (take 5 line) 5 6 4 10 0 = Some (4, 0) /\
  packet_get_length TCP_PB_LINE_LF line 7 6 4 10 0 = Some (-1, 0).
Proof. split; by vm_compute. Qed.
