(* ===== verification/PacketHttp.v ===== *)
(** * HTTP and TLS packets: the rest of [erts/emulator/beam/packet_parser.c]

    The lines of an HTTP message, as [packet_get_length] cuts them, are turned into
    calls of the functions that a user of the parser has given it; names of methods
    and of headers are looked up in two hash tables. *)
From S2P Require Import Prelude PutGet EpmdStr Packet.
From Stdlib Require String.
Import String.StringSyntax.
Delimit Scope string_scope with string.

(** ** The tables *)

Definition HTTP_HDR_HASH_SIZE : Z := 53.
Definition HTTP_METH_HASH_SIZE : Z := 13.
Definition HTTP_MAX_NAME_LEN : Z := 50.

Definition http_hdr_strings : list (list Z) :=
  map str ["Cache-Control"; "Connection"; "Date"; "Pragma"; "Transfer-Encoding"; "Upgrade"; "Via"; "Accept"; "Accept-Charset";
   "Accept-Encoding"; "Accept-Language"; "Authorization"; "From"; "Host"; "If-Modified-Since"; "If-Match"; "If-None-Match";
   "If-Range"; "If-Unmodified-Since"; "Max-Forwards"; "Proxy-Authorization"; "Range"; "Referer"; "User-Agent"; "Age";
   "Location"; "Proxy-Authenticate"; "Public"; "Retry-After"; "Server"; "Vary"; "Warning"; "Www-Authenticate"; "Allow";
   "Content-Base"; "Content-Encoding"; "Content-Language"; "Content-Length"; "Content-Location"; "Content-Md5";
   "Content-Range"; "Content-Type"; "Etag"; "Expires"; "Last-Modified"; "Accept-Ranges"; "Set-Cookie"; "Set-Cookie2";
   "X-Forwarded-For"; "Cookie"; "Keep-Alive"; "Proxy-Connection"]%string.
Definition http_meth_strings : list (list Z) :=
  map str ["OPTIONS"; "GET"; "HEAD"; "POST"; "PUT"; "DELETE"; "TRACE"]%string.

(** An [http_atom_t]; a bucket is a list of them in the order of their [next] pointers. *)
Record http_atom := { a_h : Z; a_name : list Z; a_len : Z; a_index : Z }.

(** [hash_update(h,c)] *)
Definition hash_update (h c : Z) : Z :=
  let h := wrapu 64 (Z.shiftl h 4 + c) in
  let g := Z.land h 0xf0000000 in
  if negb (g =? 0) then Z.lxor (Z.lxor h (Z.shiftr g 24)) g else h.

Definition http_hash (name : list Z) : Z := fold_left hash_update name 0.

Definition http_hash_insert (hsize : Z) (hash : list (list http_atom)) (entry : Z * list Z) : list (list http_atom) :=
  let '(index, name) := entry in
  let h := http_hash name in
  alter (cons {| a_h := h; a_name := name; a_len := zlen name; a_index := index |}) (Z.to_nat (h mod hsize)) hash.

(** [for (i = 0; strings[i] != NULL; i++)] *)
Definition http_table (hsize : Z) (strings : list (list Z)) : list (list http_atom) :=
  fold_left (http_hash_insert hsize) (zip (map Z.of_nat (seq 0 (length strings))) strings) (replicate (Z.to_nat hsize) []).
Definition http_hdr_hash : list (list http_atom) := http_table HTTP_HDR_HASH_SIZE http_hdr_strings.
Definition http_meth_hash : list (list http_atom) := http_table HTTP_METH_HASH_SIZE http_meth_strings.

(** [static char tspecial[128]]: the loops of [http_init] leave [tspecial[127]] as it
    is, 0. *)
Definition tspecial : list Z :=
  fold_left (fun t c => <[Z.to_nat c := 1]> t) (str "()<>@,;:"%string ++ [92; 34] ++ str "/[]?={} "%string ++ [9])
    (replicate 33 1 ++ replicate 94 0 ++ [0]).
Definition is_tspecial (x : Z) : bool :=
  if (32 <? x) && (x <? 128) then negb (default 0 (tspecial !! Z.to_nat x) =? 0) else true.

(** [while (ap != NULL)], and the index of what is found. *)
Fixpoint bucket_lookup (name : list Z) (h : Z) (ap : list http_atom) : option Z :=
  match ap with
  | [] => None
  | a :: ap =>
      if (a_h a =? h) && (a_len a =? zlen name) && bool_decide (a_name a = name) then Some (a_index a)
      else bucket_lookup name h ap
  end.
(** [name] is the [len] characters that are compared. *)
Definition http_hash_lookup (name : list Z) (h : Z) (hash : list (list http_atom)) (hsize : Z) : option Z :=
  bucket_lookup name h (default [] (hash !! Z.to_nat (h mod hsize))).

(** ** The parser *)

Inductive PacketHttpURI :=
  | URI_STAR
  | URI_STRING (s1 : list Z)
  | URI_ABS_PATH (s1 : list Z)
  | URI_SCHEME (s1 s2 : list Z)
  | URI_HTTP (s1 : list Z) (port : Z) (s2 : list Z)
  | URI_HTTPS (s1 : list Z) (port : Z) (s2 : list Z).

(** The callbacks, with their arguments; [meth] and [name] are what was found in the
    tables. *)
Inductive event :=
  | http_response (major minor status : Z) (phrase : list Z)
  | http_request (meth : option Z) (meth_ptr : list Z) (uri : PacketHttpURI) (major minor : Z)
  | http_eoh
  | http_header (name : option Z) (name_ptr oname_ptr value : list Z)
  | http_error (line : list Z)
  | ssl_tls (type major minor : Z) (data prefix : list Z).

(** The [n] bytes at [p]. *)
Definition bytes (p : list Z) (n : Z) : option (list Z) :=
  if (n <? 0) || (zlen p <? n) then None else Some (take (Z.to_nat n) p).

(** [while (n && test(ptr[0])) { ...; ptr++; n--; }]: what was passed, and [ptr] and [n]
    behind it. *)
Fixpoint skip_while (test : Z -> bool) (n : nat) (ptr : list Z) : option (list Z * list Z * nat) :=
  match n with
  | O => Some ([], ptr, O)
  | S k =>
      match ptr with
      | [] => None
      | c :: p =>
          if test c then '(passed, p, n) ← skip_while test k p; Some (c :: passed, p, n)
          else Some ([], ptr, n)
      end
  end.

Definition isdigit (c : Z) : bool := (48 <=? c) && (c <=? 57).
Definition is_sp (c : Z) : bool := (c =? 32) || (c =? 9).
(** [x = 10*x + (ptr[0] - '0')] over the digits, in an [int]. *)
Definition number (digits : list Z) : Z := fold_left (fun x c => wraps 32 (wraps 32 (10 * x) + (c - 48))) digits 0.

(** The last one of the [n] bytes that is a [c]. *)
Definition sys_memrchr (p : list Z) (c : Z) (n : Z) : option (option Z) :=
  l ← bytes p n; Some (option_map (fun k => n - 1 - k) (index_of c (reverse l))).

(** A port of [n] characters; 0 when it is not a number. *)
Definition parse_port (p : list Z) (n : Z) : option Z :=
  if n <? 0 then None
  else
    '(digits, _, n) ← skip_while isdigit (Z.to_nat n) p;
    let port := number digits in
    Some (if (n =? 0)%nat && negb (port =? 0) then port else 0).

(** [host [":" port]], the host perhaps in brackets: [uri->s1] and [uri->port]. *)
Definition parse_authority (uri_ptr : list Z) (uri_len : Z) : option (list Z * Z) :=
  colon ← sys_memchr uri_ptr 58 uri_len;
  match colon with
  | None => s1 ← bytes uri_ptr uri_len; Some (s1, 0)
  | Some p =>
      open ← sys_memchr uri_ptr 91 uri_len;
      close ← (if bool_decide (open = Some 0) then sys_memchr uri_ptr 93 uri_len else Some None);
      match close with
      | Some v =>
          s1 ← bytes uri_ptr (v + 1);
          last ← sys_memrchr uri_ptr 58 uri_len;
          if bool_decide (last = Some (v + 1)) then
            port ← parse_port (drop (Z.to_nat (v + 2)) uri_ptr) (uri_len - (v + 1 + 1)); Some (s1, port)
          else Some (s1, 0)
      | None =>
          s1 ← bytes uri_ptr p;
          port ← parse_port (drop (Z.to_nat (p + 1)) uri_ptr) (uri_len - (p + 1)); Some (s1, port)
      end
  end.

(** [uri->s1], [uri->port] and [uri->s2]. *)
Definition http_parse_absoluteURI (uri_ptr : list Z) (uri_len : Z) : option (list Z * Z * list Z) :=
  slash ← sys_memchr uri_ptr 47 uri_len;
  match slash with
  | None => '(s1, port) ← parse_authority uri_ptr uri_len; Some (s1, port, [47])
  | Some n =>
      s2 ← bytes (drop (Z.to_nat n) uri_ptr) (uri_len - n);
      '(s1, port) ← parse_authority uri_ptr n; Some (s1, port, s2)
  end.

Definition tolower (c : Z) : Z := if (65 <=? c) && (c <=? 90) then c + 32 else c.
Definition toupper (c : Z) : Z := if (97 <=? c) && (c <=? 122) then c - 32 else c.
(** [STRNCASECMP(p, s, n) == 0] *)
Definition same_nocase (p s : list Z) : option bool :=
  l ← bytes p (zlen s); Some (bool_decide (map tolower l = map tolower s)).

Definition http_parse_uri (uri_ptr : list Z) (uri_len : Z) : option PacketHttpURI :=
  c0 ← (if uri_len =? 0 then Some 0 else head uri_ptr);
  if (uri_len =? 1) && (c0 =? 42) then Some URI_STAR
  else if (uri_len <=? 1) || (c0 =? 47) then s1 ← bytes uri_ptr uri_len; Some (URI_ABS_PATH s1)
  else
    is_http ← (if 7 <=? uri_len then same_nocase uri_ptr (str "http://"%string) else Some false);
    if is_http : bool then
      '(s1, port, s2) ← http_parse_absoluteURI (drop 7 uri_ptr) (uri_len - 7); Some (URI_HTTP s1 port s2)
    else
      is_https ← (if 8 <=? uri_len then same_nocase uri_ptr (str "https://"%string) else Some false);
      if is_https : bool then
        '(s1, port, s2) ← http_parse_absoluteURI (drop 8 uri_ptr) (uri_len - 8); Some (URI_HTTPS s1 port s2)
      else
        colon ← sys_memchr uri_ptr 58 uri_len;
        match colon with
        | None => s1 ← bytes uri_ptr uri_len; Some (URI_STRING s1)
        | Some slen =>
            s1 ← bytes uri_ptr slen;
            s2 ← bytes (drop (Z.to_nat (slen + 1)) uri_ptr) (uri_len - (slen + 1));
            Some (URI_SCHEME s1 s2)
        end.

(** What a function of the parser has done: returned -1, or called a callback. *)
Definition parsed : Type := option (option event).

(** [1*DIGIT "." 1*DIGIT]: the two numbers and what follows; [Some None] is -1. *)
Definition http_version (ptr : list Z) (n : nat) : option (option (Z * Z * list Z * nat)) :=
  '(major, ptr, n) ← skip_while isdigit n ptr;
  if bool_decide (major = []) || (n =? 0)%nat then Some None
  else
    c ← head ptr;
    if negb (c =? 46) then Some None
    else
      '(minor, ptr, n) ← skip_while isdigit (n - 1) (tail ptr);
      if bool_decide (minor = []) then Some None else Some (Some (number major, number minor, ptr, n)).

(** [Status-Line], behind ["HTTP/"] *)
Definition parse_response (ptr : list Z) (n : nat) : parsed :=
  version ← http_version ptr n;
  match version with
  | None => Some None
  | Some (major, minor, ptr, n) =>
      '(sp, ptr, n) ← skip_while is_sp n ptr;
      if bool_decide (sp = []) then Some None
      else
        '(status, ptr, n) ← skip_while isdigit n ptr;
        '(sp, ptr, n) ← skip_while is_sp n ptr;
        if bool_decide (sp = []) && (0 <? n)%nat then Some None
        else phrase ← bytes ptr (Z.of_nat n); Some (Some (http_response major minor (number status) phrase))
  end.

(** [Request-Line] *)
Definition parse_request (buf : list Z) (n : nat) : parsed :=
  '(meth, ptr, n) ← skip_while (fun c => negb (is_tspecial c)) n buf;
  if (n =? 0)%nat || bool_decide (meth = []) then Some None
  else
    sp ← SP ptr;
    if negb sp then Some None
    else
      let found := http_hash_lookup meth (http_hash meth) http_meth_hash HTTP_METH_HASH_SIZE in
      '(_, ptr, n) ← skip_while is_sp n ptr;
      let uri_ptr := ptr in
      '(uri, ptr, n) ← skip_while (fun c => negb (is_sp c)) n ptr;
      let uri_len := zlen uri in
      if uri_len =? 0 then Some None
      else
        '(_, ptr, n) ← skip_while is_sp n ptr;
        if (n =? 0)%nat then uri ← http_parse_uri uri_ptr uri_len; Some (Some (http_request found meth uri 0 9))
        else if (n <? 8)%nat then Some None
        else
          start ← bytes ptr 5;
          if negb (bool_decide (start = str "HTTP/"%string)) then Some None
          else
            version ← http_version (drop 5 ptr) (n - 5);
            match version with
            | None => Some None
            | Some (major, minor, _, _) => uri ← http_parse_uri uri_ptr uri_len; Some (Some (http_request found meth uri major minor))
            end.

(** [name_buf[name_len] = c], where [name_buf] is an array of [HTTP_MAX_NAME_LEN] bytes, whose
    first [name_len] are given; [None] when that leaves the array. *)
Definition put_name (name_buf : list Z) (c : Z) : option (list Z) :=
  if HTTP_MAX_NAME_LEN <=? zlen name_buf then None else Some (name_buf ++ [c]).

(** [while (!is_tspecial(ptr[0]))]: [name_buf], [name_len], and [ptr] and [n] at the character
    behind the name; [Some None] when the line ends first. *)
Fixpoint header_name (n : nat) (ptr : list Z) (up : bool) (name_buf : list Z) (name_len : Z) {struct ptr}
  : option (option (list Z * Z * list Z * nat)) :=
  match ptr with
  | [] => None
  | c :: p =>
      if is_tspecial c then Some (Some (name_buf, name_len, ptr, n))
      else
        '(up, name_buf) ←
          (if name_len <? HTTP_MAX_NAME_LEN then
             let '(c, up) := if up then (toupper c, false) else (tolower c, c =? 45) in
             name_buf ← put_name name_buf c; Some (up, name_buf)
           else Some (up, name_buf));
        let name_len := name_len + 1 in
        match n with
        | O | 1%nat => Some None
        | S n => header_name n p up name_buf name_len
        end
  end.

Definition parse_header (buf : list Z) (n : nat) : parsed :=
  r ← header_name n buf true [] 0;
  match r with
  | None => Some None
  | Some (name_buf, name_len, ptr, n) =>
      c ← head ptr;
      if negb (c =? 58) then Some None
      else
        oname ← bytes buf name_len;
        let '(name, name_ptr) :=
          if name_len <=? HTTP_MAX_NAME_LEN
          then (http_hash_lookup name_buf (http_hash name_buf) http_hdr_hash HTTP_HDR_HASH_SIZE, name_buf)
          else (None, oname) in
        '(_, ptr, n) ← skip_while is_sp (n - 1) (tail ptr);
        value ← bytes ptr (Z.of_nat n);
        Some (Some (http_header name name_ptr oname value))
  end.

(** The number of characters without the end of the line. *)
Definition trimmed (buf : list Z) (n : Z) : option Z :=
  cr ← (if 2 <=? n then c ← buf !! Z.to_nat (n - 2); Some (c =? 13) else Some false);
  if cr : bool then Some (n - 2)
  else
    nl ← (if 1 <=? n then c ← buf !! Z.to_nat (n - 1); Some (c =? 10) else Some false);
    Some (if nl : bool then n - 1 else n).

(** The callback, or -1, and [*statep]. *)
Definition packet_parse_http (buf : list Z) (len statep : Z) : option (option event * Z) :=
  n ← trimmed buf len;
  let k := Z.to_nat n in
  if statep =? 0 then
    start ← (if 5 <=? n then l ← bytes buf 5; Some (bool_decide (l = str "HTTP/"%string)) else Some false);
    r ← (if start : bool then parse_response (drop 5 buf) (k - 5) else parse_request buf k);
    Some (r, match r with Some _ => 1 | None => statep end)
  else if n =? 0 then Some (Some http_eoh, 0)
  else r ← parse_header buf k; Some (r, statep).

Definition put_int24 (i : Z) : list Z := [Z.land (Z.shiftr i 16) 0xff; Z.land (Z.shiftr i 8) 0xff; Z.land i 0xff].

Definition packet_parse_ssl (buf : list Z) (len : Z) : option event :=
  match buf with
  | b0 :: b1 :: b2 :: p =>
      if negb (Z.land b0 0x80 =? 0) && (b2 =? 1) then
        match p with
        | b3 :: b4 :: _ => data ← bytes (drop 3 buf) (len - 3); Some (ssl_tls 22 b3 b4 data (1 :: put_int24 (len - 3)))
        | _ => None
        end
      else data ← bytes (drop 5 buf) (len - 5); Some (ssl_tls b0 b1 b2 data [])
  | _ => None
  end.

(** [cb]: the results of the callbacks.  The calls that were made, the value returned
    and [*statep]. *)
Definition packet_parse (cb : event -> Z) (htype : PacketParseType) (buf : list Z) (len statep : Z) : option (list event * Z * Z) :=
  match htype with
  | TCP_PB_HTTP | TCP_PB_HTTPH | TCP_PB_HTTP_BIN | TCP_PB_HTTPH_BIN =>
      '(r, statep) ← packet_parse_http buf len statep;
      line ← bytes buf len;
      Some (match r with
            | Some ev => if cb ev <? 0 then [ev; http_error line] else [ev]
            | None => [http_error line]
            end, 1, statep)
  | TCP_PB_SSL_TLS => ev ← packet_parse_ssl buf len; Some ([ev], cb ev, statep)
  | _ => Some ([], 0, statep)
  end.

(** ** The tables find what is in them *)

(** The position of a name in a list of names. *)
Fixpoint position (name : list Z) (l : list (list Z)) : option Z :=
  match l with [] => None | s :: l => if bool_decide (s = name) then Some 0 else option_map (Z.add 1) (position name l) end.

Lemma position_None name l : position name l = None <-> name ∉ l.
Proof.
  induction l as [|s l IH]; cbn [position]; [split; [intros _ H; by apply elem_of_nil in H|done]|].
  rewrite not_elem_of_cons, <- IH. case_bool_decide as E; [split; [done|intros [? _]; congruence]|].
  destruct (position name l); cbn [option_map]; (split; [first [done|by split; [congruence|]]|by intros [_ ?]]).
Qed.

Lemma bucket_lookup_name name h ap i : bucket_lookup name h ap = Some i -> exists a, a ∈ ap /\ a_name a = name.
Proof.
  induction ap as [|a ap IH]; cbn [bucket_lookup]; [done|]. destruct (_ && _) eqn:E.
  - intros _. exists a. apply andb_true_iff in E as [_ E%bool_decide_eq_true]. split; [by left|done].
  - intros (a' & Ha & En)%IH. exists a'. split; [by right|done].
Qed.

(** The lookup agrees with the position on the names of the table, and nothing else is
    stored. *)
Definition table_checked (hsize : Z) (strings : list (list Z)) : bool :=
  let hash := http_table hsize strings in
  forallb (fun s => bool_decide (http_hash_lookup s (http_hash s) hash hsize = position s strings)) strings &&
  forallb (forallb (fun a => bool_decide (a_name a ∈ strings))) hash.

Lemma table_exact hsize strings name : table_checked hsize strings = true ->
  http_hash_lookup name (http_hash name) (http_table hsize strings) hsize = position name strings.
Proof.
  unfold table_checked. intros [H1 H2]%andb_true_iff. destruct (decide (name ∈ strings)) as [Hin|Hout].
  - rewrite forallb_forall in H1. specialize (H1 name (proj1 (list_elem_of_In _ _) Hin)). by apply bool_decide_eq_true in H1.
  - rewrite (proj2 (position_None name strings) Hout). unfold http_hash_lookup.
    destruct (http_table hsize strings !! _) as [b|] eqn:Eb; cbn [default from_option id]; [|done].
    destruct (bucket_lookup name (http_hash name) b) as [i|] eqn:E; [|done]. apply bucket_lookup_name in E as (a & Ha & En).
    rewrite forallb_forall in H2. specialize (H2 b (proj1 (list_elem_of_In _ _) (list_elem_of_lookup_2 _ _ _ Eb))).
    rewrite forallb_forall in H2. specialize (H2 a (proj1 (list_elem_of_In _ _) Ha)). apply bool_decide_eq_true in H2.
    by rewrite En in H2.
Qed.

Lemma hdr_lookup name : http_hash_lookup name (http_hash name) http_hdr_hash HTTP_HDR_HASH_SIZE = position name http_hdr_strings.
Proof. apply table_exact. vm_compute. reflexivity. Qed.
Lemma meth_lookup name : http_hash_lookup name (http_hash name) http_meth_hash HTTP_METH_HASH_SIZE = position name http_meth_strings.
Proof. apply table_exact. vm_compute. reflexivity. Qed.

(** The hash tables of HTTP names find every header and every method of the lists,
    with its place in the list, and nothing else, whatever characters the name has. *)
Theorem http_tables_exact name :
  http_hash_lookup name (http_hash name) http_hdr_hash HTTP_HDR_HASH_SIZE = position name http_hdr_strings /\
  http_hash_lookup name (http_hash name) http_meth_hash HTTP_METH_HASH_SIZE = position name http_meth_strings.
Proof. split; [apply hdr_lookup|apply meth_lookup]. Qed.

(** ** Nothing is read behind the end of the line *)

Lemma bytes_some p n : 0 <= n <= zlen p -> bytes p n = Some (take (Z.to_nat n) p).
Proof. intros H. unfold bytes. by replace ((n <? 0) || (zlen p <? n)) with false by lia. Qed.

Lemma skip_while_split test n p : (n <= length p)%nat ->
  exists a r m, skip_while test n p = Some (a, r, m) /\ p = a ++ r /\ n = (length a + m)%nat.
Proof.
  revert p. induction n as [|n IH]; intros p Hl; cbn [skip_while]; [by exists [], p, 0%nat|].
  destruct p as [|c p]; cbn [length] in Hl; [lia|]. destruct (test c); [|by exists [], (c :: p), (S n)].
  destruct (IH p) as (a & r & m & -> & -> & ->); [lia|]. by exists (c :: a), r, m.
Qed.

(** [skip_while] from [n] of the characters of [p], as [a], [r] and [m]. *)
Ltac skipped a r m :=
  lazymatch goal with |- context [skip_while ?t ?n ?p] =>
    let E := fresh "E" in let Ep := fresh "Ep" in let En := fresh "En" in
    destruct (skip_while_split t n p) as (a & r & m & E & Ep & En);
      [rewrite ?length_app in *; cbn [length tail] in *; lia|rewrite E; cbn [mbind option_bind]]
  end.

Lemma http_version_total p n : (n <= length p)%nat ->
  http_version p n = Some None \/ exists major minor r m, http_version p n = Some (Some (major, minor, r, m)) /\ (m <= length r)%nat.
Proof.
  intros Hl. unfold http_version. skipped major r m. subst p. rewrite length_app in Hl.
  destruct (bool_decide _ || (m =? 0)%nat) eqn:Eb; [by left|]. apply orb_false_iff in Eb as [_ Em%Nat.eqb_neq].
  destruct r as [|c r]; cbn [length head tail mbind option_bind] in *; [lia|]. destruct (negb _); [by left|].
  skipped minor r2 m2. subst r. rewrite length_app in Hl. case_bool_decide; [by left|]. right. eexists _, _, _, _. split; [done|]. lia.
Qed.

Lemma parse_response_total p n : (n <= length p)%nat -> exists r, parse_response p n = Some r.
Proof.
  intros Hl. unfold parse_response. destruct (http_version_total p n Hl) as [->|(major & minor & r & m & -> & Hm)]; cbn [mbind option_bind]; [eauto|].
  skipped a r1 m1. subst r. rewrite length_app in Hm. case_bool_decide; [eauto|]. skipped b r2 m2. subst r1. rewrite length_app in Hm.
  skipped d r3 m3. subst r2. rewrite length_app in Hm. destruct (_ && _); [eauto|].
  rewrite bytes_some by (unfold zlen; lia). cbn [mbind option_bind]. eauto.
Qed.

Lemma memchr_some p c n : 0 <= n <= zlen p -> sys_memchr p c n = Some (index_of c (take (Z.to_nat n) p)).
Proof.
  intros H. unfold sys_memchr. replace (n <? 0) with false by lia. apply memchr_index. unfold zlen in H. lia.
Qed.
Lemma memchr_found p c n k : 0 <= n <= zlen p -> index_of c (take (Z.to_nat n) p) = Some k -> 0 <= k < n.
Proof. intros H E%index_of_range. unfold zlen in *. rewrite length_take in E. lia. Qed.

Lemma parse_port_total p n : 0 <= n <= zlen p -> exists port, parse_port p n = Some port.
Proof.
  intros H. unfold parse_port. replace (n <? 0) with false by lia. unfold zlen in H. skipped a r m. eauto.
Qed.

Lemma parse_authority_total p n : 0 <= n <= zlen p -> exists r, parse_authority p n = Some r.
Proof.
  intros Hn. unfold parse_authority. rewrite !memchr_some by lia. cbn [mbind option_bind].
  destruct (index_of 58 (take (Z.to_nat n) p)) as [c|] eqn:Ec.
  2: { rewrite bytes_some by lia. cbn. eauto. }
  apply memchr_found in Ec; [|lia].
  assert (exists close, (if bool_decide (index_of 91 (take (Z.to_nat n) p) = Some 0) then Some (index_of 93 (take (Z.to_nat n) p)) else Some None)
    = Some close /\ forall v, close = Some v -> 0 <= v < n) as (close & -> & Hclose).
  { case_bool_decide; [|by exists None]. eexists. split; [done|]. intros v E. apply memchr_found in E; lia. }
  cbn [mbind option_bind]. destruct close as [v|].
  - specialize (Hclose v eq_refl). rewrite bytes_some by lia. unfold sys_memrchr. rewrite bytes_some by lia. cbn [mbind option_bind].
    case_bool_decide as El; [|eauto]. destruct (index_of 58 (reverse (take (Z.to_nat n) p))) as [k|] eqn:Ek; [|done].
    apply index_of_range in Ek. injection El as Ev.
    destruct (parse_port_total (drop (Z.to_nat (v + 2)) p) (n - (v + 1 + 1))) as [port ->]; [unfold zlen in *; rewrite length_drop; lia|].
    cbn. eauto.
  - rewrite bytes_some by lia. cbn [mbind option_bind].
    destruct (parse_port_total (drop (Z.to_nat (c + 1)) p) (n - (c + 1))) as [port ->]; [unfold zlen in *; rewrite length_drop; lia|].
    cbn. eauto.
Qed.

Lemma absoluteURI_total p n : 0 <= n <= zlen p -> exists r, http_parse_absoluteURI p n = Some r.
Proof.
  intros Hn. unfold http_parse_absoluteURI. rewrite memchr_some by done. cbn [mbind option_bind].
  destruct (index_of 47 (take (Z.to_nat n) p)) as [k|] eqn:E.
  - apply memchr_found in E; [|done]. rewrite bytes_some by (rewrite zlen_drop; lia). cbn [mbind option_bind].
    destruct (parse_authority_total p k) as [[s1 port] ->]; [lia|]. cbn. eauto.
  - destruct (parse_authority_total p n) as [[s1 port] ->]; [done|]. cbn. eauto.
Qed.

Lemma same_nocase_some p s : zlen s <= zlen p -> exists b, same_nocase p s = Some b.
Proof. intros H. unfold same_nocase. pose proof (zlen_nonneg s). rewrite bytes_some by lia. cbn. eauto. Qed.

Lemma http_parse_uri_total p n : 0 <= n <= zlen p -> exists u, http_parse_uri p n = Some u.
Proof.
  intros Hn. unfold http_parse_uri.
  assert (exists c, (if n =? 0 then Some 0 else head p) = Some c) as [c0 ->].
  { destruct (Z.eqb_spec n 0); [eauto|]. destruct p; [change (zlen []) with 0 in Hn; lia|]. by eexists. }
  cbn [mbind option_bind]. destruct (_ && _); [eauto|]. destruct (_ || _); [rewrite bytes_some by done; cbn; eauto|].
  assert (exists b, (if 7 <=? n then same_nocase p (str "http://"%string) else Some false) = Some b /\ (b = true -> 7 <= n)) as (b & -> & Hb).
  { destruct (Z.leb_spec 7 n); [|by exists false]. destruct (same_nocase_some p (str "http://"%string)) as [b ->]; [change (zlen (str "http://"%string)) with 7; lia|by exists b]. }
  cbn [mbind option_bind]. destruct b.
  { specialize (Hb eq_refl). destruct (absoluteURI_total (drop 7 p) (n - 7)) as [[[s1 port] s2] ->]; [unfold zlen in *; rewrite length_drop; lia|]. cbn. eauto. }
  assert (exists b, (if 8 <=? n then same_nocase p (str "https://"%string) else Some false) = Some b /\ (b = true -> 8 <= n)) as (b & -> & Hb2).
  { destruct (Z.leb_spec 8 n); [|by exists false]. destruct (same_nocase_some p (str "https://"%string)) as [b ->]; [change (zlen (str "https://"%string)) with 8; lia|by exists b]. }
  cbn [mbind option_bind]. destruct b.
  { specialize (Hb2 eq_refl). destruct (absoluteURI_total (drop 8 p) (n - 8)) as [[[s1 port] s2] ->]; [unfold zlen in *; rewrite length_drop; lia|]. cbn. eauto. }
  clear Hb Hb2. rewrite memchr_some by done. cbn [mbind option_bind]. destruct (index_of 58 _) as [k|] eqn:E.
  - apply memchr_found in E; [|done]. rewrite (bytes_some p k) by lia. cbn [mbind option_bind].
    rewrite bytes_some by (unfold zlen in *; rewrite length_drop; lia). cbn. eauto.
  - rewrite bytes_some by done. cbn. eauto.
Qed.

Lemma parse_request_total p n : (n <= length p)%nat -> exists r, parse_request p n = Some r.
Proof.
  intros Hl. unfold parse_request. skipped meth r m. subst p. rewrite length_app in Hl. destruct (_ || _) eqn:Eb; [eauto|].
  apply orb_false_iff in Eb as [Em%Nat.eqb_neq _]. destruct r as [|c r]; cbn [length] in *; [lia|].
  cbn [SP mbind option_bind]. destruct (negb _); [eauto|]. skipped s1 r1 m1. set (cr := c :: r) in *.
  assert (length cr = S (length r)) as Hcr by done. rewrite Ep in Hcr. rewrite length_app in Hcr.
  skipped uri r2 m2. destruct (zlen uri =? 0); [eauto|].
  assert (exists u, http_parse_uri r1 (zlen uri) = Some u) as [u Eu].
  { apply http_parse_uri_total. unfold zlen. rewrite Ep0, length_app. lia. }
  rewrite Ep0, length_app in Hcr.
  skipped s3 r3 m3. destruct (m3 =? 0)%nat; [rewrite Eu; cbn; eauto|]. destruct (Nat.ltb_spec m3 8); [eauto|].
  rewrite Ep1, length_app in Hcr. rewrite bytes_some by (unfold zlen; lia). cbn [mbind option_bind]. destruct (negb _); [eauto|].
  destruct (http_version_total (drop 5 r3) (m3 - 5)) as [->|(major & minor & r' & m' & -> & _)]; [rewrite length_drop; lia|cbn; eauto|].
  cbn [mbind option_bind]. rewrite Eu. cbn. eauto.
Qed.

Lemma put_name_some name_buf name_len c : zlen name_buf = Z.min name_len HTTP_MAX_NAME_LEN -> name_len < HTTP_MAX_NAME_LEN ->
  put_name name_buf c = Some (name_buf ++ [c]) /\ zlen (name_buf ++ [c]) = Z.min (name_len + 1) HTTP_MAX_NAME_LEN.
Proof. intros Hb Hl. unfold put_name. replace (HTTP_MAX_NAME_LEN <=? zlen name_buf) with false by lia. split; [done|]. rewrite zlen_app. change (zlen [c]) with 1. lia. Qed.
(** The name stays inside of [name_buf]. *)
Lemma header_name_total n p up name_buf name_len : (1 <= n <= length p)%nat -> zlen name_buf = Z.min name_len HTTP_MAX_NAME_LEN ->
  header_name n p up name_buf name_len = Some None \/
  exists name name_buf' c r m, header_name n p up name_buf name_len = Some (Some (name_buf', name_len + zlen name, c :: r, m)) /\
    p = name ++ c :: r /\ n = (length name + m)%nat /\ (1 <= m)%nat.
Proof.
  revert n up name_buf name_len. induction p as [|c p IH]; intros n up name_buf name_len Hn Hb; cbn [length] in *; [lia|]. cbn [header_name].
  destruct (is_tspecial c); [right; exists [], name_buf, c, p, n; change (zlen []) with 0; rewrite Z.add_0_r; split; [done|]; split; [done|]; cbn; lia|].
  assert (exists up' nb, (if name_len <? HTTP_MAX_NAME_LEN then let '(c, up) := if up then (toupper c, false) else (tolower c, c =? 45) in nb ← put_name name_buf c; Some (up, nb)
    else Some (up, name_buf)) = Some (up', nb) /\ zlen nb = Z.min (name_len + 1) HTTP_MAX_NAME_LEN) as (up' & nb & -> & Hb').
  { destruct (Z.ltb_spec name_len HTTP_MAX_NAME_LEN); [|eexists _, _; split; [done|lia]]. destruct up.
    - destruct (put_name_some name_buf name_len (toupper c)) as [-> Hz]; [done|done|]. by eexists _, _.
    - destruct (put_name_some name_buf name_len (tolower c)) as [-> Hz]; [done|done|]. by eexists _, _. }
  cbn [mbind option_bind]. destruct n as [|[|n]]; [lia|by left|].
  destruct (IH (S n) up' nb (name_len + 1)) as [->|(name & nb' & c' & r & m & -> & -> & Em & Hm)]; [lia|done|by left|].
  right. exists (c :: name), nb', c', r, m. rewrite zlen_cons. split; [do 5 f_equal; lia|]. split; [done|]. cbn [length]. lia.
Qed.

Lemma parse_header_total p n : (1 <= n <= length p)%nat -> exists r, parse_header p n = Some r.
Proof.
  intros Hn. unfold parse_header. destruct (header_name_total n p true [] 0 Hn eq_refl) as [->|(name & nb & c & r & m & -> & -> & -> & Hm)]; cbn [mbind option_bind]; [eauto|].
  cbn [head mbind option_bind]. destruct (negb _); [eauto|]. rewrite length_app in Hn. rewrite bytes_some by zlen_lia. cbn [mbind option_bind]. destruct (if _ <=? _ then _ else _) as [nm np].
  skipped s r1 m1. cbn [tail] in Ep. subst r. cbn [length] in Hn. rewrite length_app in Hn.
  rewrite bytes_some by (unfold zlen; lia). cbn. eauto.
Qed.

Lemma lookup_some (p : list Z) k : 0 <= k < zlen p -> exists c, p !! Z.to_nat k = Some c.
Proof. intros H. apply lookup_lt_is_Some_2. unfold zlen in H. lia. Qed.

Lemma trimmed_total p : exists n, trimmed p (zlen p) = Some n /\ 0 <= n <= zlen p.
Proof.
  unfold trimmed. pose proof (zlen_nonneg p).
  assert (exists b, (if 2 <=? zlen p then c ← p !! Z.to_nat (zlen p - 2); Some (c =? 13) else Some false) = Some b /\ (b = true -> 2 <= zlen p)) as (b & -> & Hb).
  { destruct (Z.leb_spec 2 (zlen p)); [|by exists false]. destruct (lookup_some p (zlen p - 2)) as [c ->]; [lia|]. by exists (c =? 13). }
  cbn [mbind option_bind]. destruct b; [specialize (Hb eq_refl); eexists; split; [done|lia]|]. clear Hb.
  assert (exists b, (if 1 <=? zlen p then c ← p !! Z.to_nat (zlen p - 1); Some (c =? 10) else Some false) = Some b /\ (b = true -> 1 <= zlen p)) as (b & -> & Hb).
  { destruct (Z.leb_spec 1 (zlen p)); [|by exists false]. destruct (lookup_some p (zlen p - 1)) as [c ->]; [lia|]. by exists (c =? 10). }
  cbn [mbind option_bind]. eexists. split; [done|]. destruct b; [specialize (Hb eq_refl)|clear Hb]; lia.
Qed.

Lemma packet_parse_http_total p st : exists r st', packet_parse_http p (zlen p) st = Some (r, st').
Proof.
  unfold packet_parse_http. destruct (trimmed_total p) as (n & -> & Hn). cbn [mbind option_bind]. destruct (st =? 0).
  - assert (exists b, (if 5 <=? n then l ← bytes p 5; Some (bool_decide (l = str "HTTP/"%string)) else Some false) = Some b /\ (b = true -> 5 <= n))
      as (b & -> & Hb).
    { destruct (Z.leb_spec 5 n); [|by exists false]. rewrite bytes_some by lia. by eexists. }
    cbn [mbind option_bind]. unfold zlen in Hn. destruct b; [specialize (Hb eq_refl)|clear Hb].
    + destruct (parse_response_total (drop 5 p) (Z.to_nat n - 5)) as [r ->]; [rewrite length_drop; lia|]. cbn. eauto.
    + destruct (parse_request_total p (Z.to_nat n)) as [r ->]; [lia|]. cbn. eauto.
  - destruct (Z.eqb_spec n 0); [eauto|]. destruct (parse_header_total p (Z.to_nat n)) as [r ->]; [unfold zlen in Hn; lia|]. cbn. eauto.
Qed.

(** What the callback for TLS is called with: the type, version and contents of a record, or
    those of a hello of SSL version 2, which gets a prefix of its type and length. *)
Definition tls_event (p : list Z) : option event :=
  match p with
  | b0 :: b1 :: b2 :: b3 :: b4 :: data =>
      Some (if Z.testbit b0 7 && (b2 =? 1) then ssl_tls 22 b3 b4 (b3 :: b4 :: data) (1 :: be_bytes 3 (2 + zlen data))
            else ssl_tls b0 b1 b2 data [])
  | _ => None
  end.

Lemma packet_parse_ssl_ok p : 5 <= zlen p -> exists ev, packet_parse_ssl p (zlen p) = Some ev /\ tls_event p = Some ev.
Proof.
  intros Hl. unfold packet_parse_ssl. do 5 (destruct p as [|? p]; [by vm_compute in Hl|]). rewrite !zlen_cons in *. pose proof (zlen_nonneg p). cbn [tls_event].
  assert (negb (Z.land z 0x80 =? 0) = Z.testbit z 7) as ->.
  { change 0x80 with (2 ^ 7). destruct (Z.testbit z 7) eqn:E.
    - apply negb_true_iff, Z.eqb_neq. intros H0. apply (f_equal (fun v => Z.testbit v 7)) in H0. rewrite Z.land_spec, E, Z.pow2_bits_true, Z.bits_0 in H0 by lia. done.
    - apply negb_false_iff, Z.eqb_eq, Z.bits_inj_0. intros n. rewrite Z.land_spec. destruct (decide (n = 7)) as [->|]; [by rewrite E|]. rewrite Z.pow2_bits_false by lia. apply andb_false_r. }
  destruct (_ && _); rewrite bytes_some by (cbn [skipn]; rewrite ?zlen_cons, ?drop_0; lia); cbn [mbind option_bind]; eexists; (split; [done|]); cbn [skipn]; rewrite ?drop_0, take_ge by (unfold zlen; cbn [length]; lia); [|done].
  do 3 f_equal. unfold put_int24, be_bytes, byte_at. cbn [map seq rev app]. replace (1 + (1 + (1 + (1 + (1 + zlen p)))) - 3) with (2 + zlen p) by lia. by rewrite Z.shiftr_0_r.
Qed.

(** C17: Whatever a line contains, [packet_parse] reads only the bytes of the line, writes only
    inside of the array for the name of a header, and returns: for HTTP 1, after one
    callback, or two when the first one refuses what it is given; for TLS, given the five
    bytes that [packet_get_length] has waited for, what its callback returns, which is called
    once with the contents of the record; and 0 without a callback for the other formats. *)
Theorem packet_parse_safe cb htype p st :
  (htype = TCP_PB_SSL_TLS -> 5 <= zlen p) ->
  exists evs r st', packet_parse cb htype p (zlen p) st = Some (evs, r, st') /\
    (is_http htype = true -> r = 1 /\ (length evs = 1%nat \/ exists ev, evs = [ev; http_error p] /\ cb ev < 0)) /\
    (htype = TCP_PB_SSL_TLS -> exists ev, tls_event p = Some ev /\ evs = [ev] /\ r = cb ev /\ st' = st) /\
    (is_http htype = false -> htype <> TCP_PB_SSL_TLS -> evs = [] /\ r = 0 /\ st' = st).
Proof.
  intros Hssl. destruct (is_http htype) eqn:Hh.
  - destruct (packet_parse_http_total p st) as (r & st' & E). pose proof (zlen_nonneg p).
    assert (packet_parse cb htype p (zlen p) st = Some (match r with
      | Some ev => if cb ev <? 0 then [ev; http_error p] else [ev] | None => [http_error p] end, 1, st')) as ->.
    { destruct htype; try discriminate Hh; cbn [packet_parse]; rewrite E; cbn [mbind option_bind]; rewrite bytes_some by lia;
        (replace (take (Z.to_nat (zlen p)) p) with p by (symmetry; apply take_ge; unfold zlen; lia)); done. }
    eexists _, _, _. split; [done|]. split; [intros _; split; [done|]; destruct r as [ev|]; [destruct (Z.ltb_spec (cb ev) 0); [right; eauto|by left]|by left]|].
    split; [by intros ->|done].
  - destruct htype; try discriminate Hh; try (eexists _, _, _; split; [done|]; split; [done|]; split; done).
    destruct (packet_parse_ssl_ok p (Hssl eq_refl)) as (ev & E & Ev). cbn [packet_parse]. rewrite E. eexists _, _, _. split; [done|]. split; [done|]. split; [by exists ev|done].
Qed.

(** ** A URI is read from its own characters only *)

Lemma skip_while_take test n p a r m : skip_while test n p = Some (a, r, m) -> (n <= length p)%nat ->
  exists r', skip_while test n (take n p) = Some (a, r', m).
Proof.
  revert p a r m. induction n as [|n IH]; intros p a r m; cbn [skip_while take]; [intros [= <- <- <-]; eauto|].
  destruct p as [|c p]; [done|]. cbn [take length]. destruct (test c).
  - destruct (skip_while test n p) as [[[a1 r1] m1]|] eqn:E; [|done]. intros [= <- <- <-] Hl.
    destruct (IH p a1 r1 m1 E) as [r' ->]; [lia|]. cbn. eauto.
  - intros [= <- <- <-] _. eauto.
Qed.

Lemma parse_port_take p n : 0 <= n <= zlen p -> parse_port (take (Z.to_nat n) p) n = parse_port p n.
Proof.
  intros H. unfold parse_port. replace (n <? 0) with false by lia. unfold zlen in H.
  destruct (skip_while_split isdigit (Z.to_nat n) p) as (a & r & m & E & _); [lia|].
  destruct (skip_while_take _ _ _ _ _ _ E) as [r' E']; [lia|]. by rewrite E, E'.
Qed.

Lemma take_take_min {A} (p : list A) n m : 0 <= m <= n -> take (Z.to_nat m) (take (Z.to_nat n) p) = take (Z.to_nat m) p.
Proof. intros H. rewrite take_take. f_equal. lia. Qed.
Lemma zlen_take_z (p : list Z) n : 0 <= n <= zlen p -> zlen (take (Z.to_nat n) p) = n.
Proof. intros H. unfold zlen in *. rewrite length_take. lia. Qed.
Lemma drop_take_z (p : list Z) n k : 0 <= k <= n -> drop (Z.to_nat k) (take (Z.to_nat n) p) = take (Z.to_nat (n - k)) (drop (Z.to_nat k) p).
Proof. intros H. rewrite skipn_firstn_comm. f_equal. lia. Qed.

Lemma bytes_take p n m : 0 <= m <= n -> n <= zlen p -> bytes (take (Z.to_nat n) p) m = bytes p m.
Proof. intros H1 H2. rewrite !bytes_some by (rewrite ?zlen_take_z; lia). by rewrite take_take_min. Qed.
Lemma memchr_take p c n m : 0 <= m <= n -> n <= zlen p -> sys_memchr (take (Z.to_nat n) p) c m = sys_memchr p c m.
Proof. intros H1 H2. rewrite !memchr_some by (rewrite ?zlen_take_z; lia). by rewrite take_take_min. Qed.
(** At an offset. *)
Lemma bytes_drop_take p n k m : 0 <= k -> 0 <= m -> k + m <= n -> n <= zlen p ->
  bytes (drop (Z.to_nat k) (take (Z.to_nat n) p)) m = bytes (drop (Z.to_nat k) p) m.
Proof. intros. rewrite drop_take_z by lia. apply bytes_take; [lia|]. rewrite zlen_drop by lia. lia. Qed.
Lemma port_drop_take p n k m : 0 <= k -> 0 <= m -> k + m <= n -> n <= zlen p ->
  parse_port (drop (Z.to_nat k) (take (Z.to_nat n) p)) m = parse_port (drop (Z.to_nat k) p) m.
Proof.
  intros. rewrite drop_take_z by lia. rewrite <- (parse_port_take (take _ _)) by (rewrite zlen_take_z by (rewrite zlen_drop by lia; lia); lia).
  rewrite take_take_min by lia. apply parse_port_take. rewrite zlen_drop by lia. lia.
Qed.

Lemma parse_authority_take p n m : 0 <= m <= n -> n <= zlen p -> parse_authority (take (Z.to_nat n) p) m = parse_authority p m.
Proof.
  intros Hm Hn. unfold parse_authority. rewrite !memchr_take by lia. rewrite !memchr_some by lia. cbn [mbind option_bind].
  destruct (index_of 58 (take (Z.to_nat m) p)) as [c|] eqn:Ec; [|by rewrite bytes_take by lia].
  apply memchr_found in Ec; [|lia]. case_bool_decide; cbn [mbind option_bind].
  - destruct (index_of 93 (take (Z.to_nat m) p)) as [v|] eqn:Ev.
    + apply memchr_found in Ev; [|lia]. unfold sys_memrchr. rewrite !bytes_take by lia. rewrite !bytes_some by lia. cbn [mbind option_bind].
      case_bool_decide as El; [|done]. destruct (index_of 58 (reverse (take (Z.to_nat m) p))) as [k|] eqn:Ek; [|done].
      apply index_of_range in Ek. injection El as Evk. by rewrite port_drop_take by lia.
    + rewrite bytes_take by lia. by rewrite port_drop_take by lia.
  - rewrite bytes_take by lia. by rewrite port_drop_take by lia.
Qed.

Lemma absoluteURI_take p n : 0 <= n <= zlen p -> http_parse_absoluteURI (take (Z.to_nat n) p) n = http_parse_absoluteURI p n.
Proof.
  intros Hn. unfold http_parse_absoluteURI. rewrite memchr_take by lia. rewrite memchr_some by lia. cbn [mbind option_bind].
  destruct (index_of 47 (take (Z.to_nat n) p)) as [k|] eqn:E.
  - apply memchr_found in E; [|done]. by rewrite bytes_drop_take, parse_authority_take by lia.
  - by rewrite parse_authority_take by lia.
Qed.

Lemma http_parse_uri_take p n : 0 <= n <= zlen p -> http_parse_uri (take (Z.to_nat n) p) n = http_parse_uri p n.
Proof.
  intros Hn. unfold http_parse_uri, same_nocase.
  replace (if n =? 0 then Some 0 else head (take (Z.to_nat n) p)) with (if n =? 0 then Some 0 else head p).
  2: { destruct (Z.eqb_spec n 0); [done|]. destruct p; [by rewrite take_nil|]. destruct (Z.to_nat n) eqn:E; [lia|done]. }
  destruct (if n =? 0 then Some 0 else head p) as [c0|]; [|done]. cbn [mbind option_bind].
  destruct (_ && _); [done|]. rewrite bytes_take by lia. destruct (_ || _); [done|].
  change (zlen (str "http://"%string)) with 7. change (zlen (str "https://"%string)) with 8.
  assert (forall k s, (if k <=? n then l ← bytes (take (Z.to_nat n) p) k; Some (bool_decide (map tolower l = s)) else Some false) =
    (if k <=? n then l ← bytes p k; Some (bool_decide (map tolower l = s)) else Some false)) as Hs.
  { intros k s. destruct (Z.leb_spec k n); [|done]. unfold bytes. rewrite zlen_take_z by done.
    destruct (Z.ltb_spec k 0); [done|]. cbn [orb]. replace (n <? k) with false by lia. replace (zlen p <? k) with false by lia.
    by rewrite take_take_min. }
  rewrite !Hs. destruct (if 7 <=? n then _ else _) as [[|]|] eqn:E7; [| |done]; cbn [mbind option_bind].
  - destruct (Z.leb_spec 7 n); [|done]. change 7%nat with (Z.to_nat 7). rewrite drop_take_z by lia. rewrite absoluteURI_take by (rewrite zlen_drop; lia). done.
  - destruct (if 8 <=? n then _ else _) as [[|]|] eqn:E8; [| |done]; cbn [mbind option_bind].
    + destruct (Z.leb_spec 8 n); [|done]. change 8%nat with (Z.to_nat 8). rewrite drop_take_z by lia. rewrite absoluteURI_take by (rewrite zlen_drop; lia). done.
    + rewrite memchr_take, memchr_some by lia. cbn [mbind option_bind]. destruct (index_of 58 _) as [k|] eqn:E; [|done].
      apply memchr_found in E; [|done]. by rewrite bytes_take, bytes_drop_take by lia.
Qed.

(** ** A concrete case *)

Lemma packet_parse_safe_witness :
  exists evs r st', packet_parse (fun _ => 1) TCP_PB_SSL_TLS [22; 3; 1; 0; 1; 7] (zlen [22; 3; 1; 0; 1; 7]) 0 = Some (evs, r, st') /\
    evs = [ssl_tls 22 3 1 [7] []] /\ r = 1 /\ st' = 0.
Proof.
  destruct (packet_parse_safe (fun _ => 1) TCP_PB_SSL_TLS [22; 3; 1; 0; 1; 7] 0) as (evs & r & st' & E & _ & Hssl & _); [intros _; vm_compute; discriminate|].
  destruct (Hssl eq_refl) as (ev & Ev & -> & -> & ->). injection Ev as <-. eexists _, _, _. split; [exact E|]. done.
Defined.

(** ** Departures *)

(** The loop over [tspecial] ends before its last element: DEL, a control character,
    counts as a character of a token. *)
Example delete_in_token : is_tspecial 127 = false /\
  packet_parse_http (str "GE"%string ++ [127] ++ str " /"%string ++ [10]) 6 0 = Some (Some (http_request None (str "GE"%string ++ [127]) (URI_ABS_PATH (str "/"%string)) 0 9), 1).
Proof. split; reflexivity. Qed.

(** The digits of a port are added up in an [int] without a bound: 2^32 + 80, which is
    no port, is taken for port 80. *)
Example port_overflows : http_parse_uri (str "http://a:4294967376/"%string) 20 = Some (URI_HTTP (str "a"%string) 80 (str "/"%string)).
Proof. reflexivity. Qed.
