(* ===== verification/HttpMessage.v ===== *)
(** * HTTP messages through the packet parser

    The text of an HTTP message, written as RFC 2616 has it, is read back by the two
    functions of [erts/emulator/beam/packet_parser.c] that a socket in one of the
    HTTP modes calls in turn: [packet_get_length] finds the lines and
    [packet_parse] reports what is in them. *)
From S2P Require Import Prelude PutGet EpmdStr Packet PacketHttp.
From Stdlib Require String.
Import String.StringSyntax.
Delimit Scope string_scope with string.

(** ** Text *)

Lemma digit_isdigit k : 0 <= k < 10 -> isdigit (48 + k) = true.
Proof. unfold isdigit. lia. Qed.
Lemma number_step x k : 0 <= k < 10 -> 0 <= x -> 10 * x + k <= 2147483647 ->
  wraps 32 (wraps 32 (10 * x) + (48 + k - 48)) = 10 * x + k.
Proof.
  intros Hk Hx Hb. rewrite (wraps_small 32 (10 * x)) by (unfold in_s; lia). rewrite wraps_small by (unfold in_s; lia). lia.
Qed.

(** A number that is written as [%d] does. *)
Lemma dec_loop_digits fuel n acc : 0 <= n <= INT_MAX -> n < 10 ^ Z.of_nat fuel -> (0 < fuel)%nat ->
  exists l, dec_loop fuel n acc = l ++ acc /\ Forall (fun c => isdigit c = true) l /\ l <> [] /\ number l = n.
Proof.
  revert n acc. induction fuel as [|fuel IH]; intros n acc Hn Hlt Hf; [lia|]. cbn [dec_loop].
  pose proof (Z.mod_pos_bound n 10 ltac:(lia)). assert (isdigit (48 + n mod 10) = true) as Hd by (by apply digit_isdigit).
  unfold INT_MAX in *. destruct (Z.eqb_spec (n / 10) 0) as [E|E].
  - exists [48 + n mod 10]. split_and!; [done|by repeat constructor|done|]. unfold number. cbn [fold_left].
    rewrite number_step by (clear Hlt; Z.div_mod_to_equations; lia). clear Hlt. Z.div_mod_to_equations. lia.
  - destruct (IH (n / 10) ((48 + n mod 10) :: acc)) as (l & -> & Hl & Hne & Hv).
    + Z.div_mod_to_equations. lia.
    + rewrite Nat2Z.inj_succ, Z.pow_succ_r in Hlt by lia. Z.div_mod_to_equations. lia.
    + destruct fuel; [|lia]. change (10 ^ Z.of_nat 1) with 10 in Hlt. Z.div_mod_to_equations. lia.
    + exists (l ++ [48 + n mod 10]). split_and!.
      * by rewrite <- app_assoc.
      * apply Forall_app. split; [done|]. by repeat constructor.
      * by intros [_ ?]%app_eq_nil.
      * unfold number in *. rewrite fold_left_app, Hv. cbn [fold_left].
        rewrite number_step by (clear Hlt; Z.div_mod_to_equations; lia). clear Hlt. Z.div_mod_to_equations. lia.
Qed.

Lemma dec_digits n : 0 <= n <= INT_MAX -> Forall (fun c => isdigit c = true) (dec n) /\ dec n <> [] /\ number (dec n) = n.
Proof.
  intros Hn. unfold dec. replace (n <? 0) with false by lia.
  destruct (dec_loop_digits 10 n []) as (l & -> & H); [done|unfold INT_MAX in *; lia|lia|]. by rewrite app_nil_r.
Qed.

(** Characters that a loop passes, up to one that it does not or to the end. *)
Lemma skip_pass test l r n m :
  Forall (fun c => test c = true) l -> n = (length l + m)%nat -> m = 0%nat \/ (exists c q, r = c :: q /\ test c = false) ->
  skip_while test n (l ++ r) = Some (l, r, m).
Proof.
  intros Hl. revert n. induction Hl as [|b l Hb _ IH]; intros n -> Hm; cbn [length app Nat.add skip_while].
  - destruct m; [done|]. destruct Hm as [?|(c & q & -> & Hm)]; [done|]. cbn [skip_while]. by rewrite Hm.
  - rewrite Hb, (IH _ eq_refl Hm). done.
Qed.

(** ** URIs *)

Definition port_text (port : Z) : list Z := if port =? 0 then [] else 58 :: dec port.
Definition uri_text (u : PacketHttpURI) : list Z :=
  match u with
  | URI_STAR => [42]
  | URI_STRING s1 | URI_ABS_PATH s1 => s1
  | URI_SCHEME s1 s2 => s1 ++ 58 :: s2
  | URI_HTTP s1 port s2 => str "http://"%string ++ s1 ++ port_text port ++ s2
  | URI_HTTPS s1 port s2 => str "https://"%string ++ s1 ++ port_text port ++ s2
  end.

(** The name of a host, or an IPv6 address in brackets. *)
Definition host_ok (h : list Z) : Prop :=
  ~ 47 ∈ h /\ ((~ 58 ∈ h /\ head h <> Some 91) \/ exists v, h = 91 :: v ++ [93] /\ ~ 93 ∈ v).
Definition absolute_ok (host : list Z) (port : Z) (path : list Z) : Prop :=
  host_ok host /\ 0 <= port <= INT_MAX /\ head path = Some 47.
Definition uri_ok (u : PacketHttpURI) : Prop :=
  match u with
  | URI_STAR => True
  | URI_STRING s => 2 <= zlen s /\ head s <> Some 47 /\ ~ 58 ∈ s
  | URI_ABS_PATH s => head s = Some 47
  | URI_SCHEME s1 s2 =>
      s1 <> [] /\ head s1 <> Some 47 /\ ~ 58 ∈ s1 /\
      map tolower s1 <> str "http"%string /\ map tolower s1 <> str "https"%string
  | URI_HTTP s1 port s2 | URI_HTTPS s1 port s2 => absolute_ok s1 port s2
  end.

Lemma parse_port_dec port : 0 < port <= INT_MAX -> parse_port (dec port) (zlen (dec port)) = Some port.
Proof.
  intros Hp. destruct (dec_digits port) as (Hd & _ & Hv); [lia|]. unfold parse_port. replace (zlen (dec port) <? 0) with false by zlen_lia.
  pose proof (skip_pass isdigit (dec port) [] (Z.to_nat (zlen (dec port))) 0 Hd) as E. rewrite app_nil_r in E.
  rewrite E by (unfold zlen; lia || by left). cbn [mbind option_bind]. rewrite Hv. by replace (port =? 0) with false by lia.
Qed.

Lemma dec_no c port : 0 <= port <= INT_MAX -> isdigit c = false -> ~ c ∈ dec port.
Proof.
  intros Hp Hc Hin. destruct (dec_digits port Hp) as (Hd & _). rewrite list.Forall_forall in Hd. specialize (Hd c Hin). congruence.
Qed.
Lemma port_text_no c port : 0 <= port <= INT_MAX -> isdigit c = false -> c <> 58 -> ~ c ∈ port_text port.
Proof.
  intros Hp Hc H58. unfold port_text. destruct (_ =? 0); [by intros ?%elem_of_nil|]. intros [?|H]%elem_of_cons; [done|]. by apply dec_no in H.
Qed.

Lemma bytes_all p : bytes p (zlen p) = Some p.
Proof. rewrite bytes_some by zlen_lia. f_equal. apply take_ge. unfold zlen. lia. Qed.
Lemma bytes_front p q : bytes (p ++ q) (zlen p) = Some p.
Proof. rewrite bytes_some by zlen_lia. f_equal. unfold zlen. rewrite Nat2Z.id. apply take_app_length. Qed.
Lemma drop_front {A} (p q : list A) : drop (Z.to_nat (zlen p)) (p ++ q) = q.
Proof. unfold zlen. rewrite Nat2Z.id. apply drop_app_length. Qed.
Lemma drop_front1 {A} (p q : list A) c : drop (Z.to_nat (zlen p + 1)) (p ++ c :: q) = q.
Proof. replace (zlen p + 1) with (zlen (p ++ [c])) by zlen_lia. change (c :: q) with ([c] ++ q). by rewrite app_assoc, drop_front. Qed.

Lemma index_of_front c l r : ~ c ∈ l -> index_of c (l ++ c :: r) = Some (zlen l).
Proof.
  intros H. rewrite index_of_app. replace (index_of c l) with (@None Z) by (symmetry; by apply index_of_None).
  cbn [index_of]. rewrite Z.eqb_refl. cbn [option_map]. f_equal. lia.
Qed.

Lemma memchr_whole p c : sys_memchr p c (zlen p) = Some (index_of c p).
Proof. rewrite memchr_some by zlen_lia. do 2 f_equal. apply take_ge. unfold zlen. lia. Qed.

(** The last colon is the one of the port. *)
Lemma last_colon h port : 0 <= port <= INT_MAX ->
  sys_memrchr (h ++ 58 :: dec port) 58 (zlen (h ++ 58 :: dec port)) = Some (Some (zlen h)).
Proof.
  intros Hp. unfold sys_memrchr. rewrite bytes_all. cbn [mbind option_bind]. rewrite reverse_app, reverse_cons, <- app_assoc. cbn [app].
  rewrite index_of_front by (rewrite elem_of_reverse; by apply dec_no). cbn [option_map]. do 2 f_equal.
  unfold zlen. rewrite length_app, length_reverse. cbn [length]. lia.
Qed.

Lemma authority_read h port : host_ok h -> 0 <= port <= INT_MAX ->
  parse_authority (h ++ port_text port) (zlen (h ++ port_text port)) = Some (h, port).
Proof.
  intros [_ Hh] Hp. unfold parse_authority, port_text. rewrite !memchr_whole. cbn [mbind option_bind].
  assert (forall t, zlen (h ++ 58 :: t) - (zlen h + 1) = zlen t) as Hz by (intros; zlen_lia).
  destruct Hh as [[Hc Hb]|(v & Eh & Hv)].
  - destruct (Z.eqb_spec port 0) as [->|Hp0].
    { rewrite app_nil_r. rewrite (proj2 (index_of_None 58 h) Hc). by rewrite bytes_all. }
    rewrite index_of_front by done. replace (bool_decide _) with false.
    2: { symmetry. apply bool_decide_eq_false. destruct h as [|c h]; cbn [app index_of head] in *.
         - change (58 =? 91) with false. cbn iota. destruct (index_of 91 (dec port)) as [k|] eqn:E; [|done]. apply index_of_range in E. cbn. intros [=]. lia.
         - destruct (Z.eqb_spec c 91); [congruence|]. destruct (index_of 91 (h ++ _)) as [k|] eqn:E; [|done]. apply index_of_range in E. cbn. intros [=]. lia. }
    cbn [mbind option_bind]. by rewrite bytes_front, drop_front1, Hz, parse_port_dec by lia.
  - assert (forall t, index_of 93 (h ++ t) = Some (zlen h - 1)) as H93.
    { intros t. rewrite Eh. cbn [app]. rewrite <- app_assoc. change (91 :: v ++ [93] ++ t) with ((91 :: v) ++ 93 :: t).
      rewrite index_of_front by (intros [?|?]%elem_of_cons; done). f_equal. zlen_lia. }
    assert (forall t, index_of 91 (h ++ t) = Some 0) as H91 by (intros t; by rewrite Eh).
    rewrite H93, H91. rewrite bool_decide_true by done. cbn [mbind option_bind]. replace (zlen h - 1 + 1) with (zlen h) by lia.
    replace (zlen h - 1 + 2) with (zlen h + 1) by lia. destruct (Z.eqb_spec port 0) as [->|Hp0].
    + rewrite app_nil_r. destruct (index_of 58 h) as [c|]; [|by rewrite bytes_all]. cbn [mbind option_bind]. rewrite bytes_all. cbn [mbind option_bind].
      unfold sys_memrchr. rewrite bytes_all. cbn [mbind option_bind]. rewrite bool_decide_false; [done|].
      destruct (index_of 58 (reverse h)) as [k|] eqn:E; [|done]. apply index_of_range in E. intros [=]. lia.
    + assert (exists c, index_of 58 (h ++ 58 :: dec port) = Some c) as [c ->].
      { destruct (index_of 58 (h ++ 58 :: dec port)) eqn:E; [eauto|]. apply index_of_None in E. destruct E. apply elem_of_app. right. by left. }
      cbn [mbind option_bind]. rewrite bytes_front, last_colon by done. cbn [mbind option_bind]. rewrite bool_decide_true by done.
      by rewrite drop_front1, Hz, parse_port_dec by lia.
Qed.

Lemma absoluteURI_read h port path : absolute_ok h port path ->
  http_parse_absoluteURI (h ++ port_text port ++ path) (zlen (h ++ port_text port ++ path)) = Some (h, port, path).
Proof.
  intros (Hh & Hp & Hpath). destruct path as [|c path]; [done|]. injection Hpath as ->. unfold http_parse_absoluteURI.
  rewrite app_assoc. set (auth := h ++ port_text port). rewrite memchr_whole, index_of_front.
  2: { unfold auth. intros [H|H]%elem_of_app; [by destruct Hh|by apply port_text_no in H]. }
  cbn [mbind option_bind]. rewrite drop_front. replace (zlen (auth ++ 47 :: path) - zlen auth) with (zlen (47 :: path)) by zlen_lia.
  rewrite bytes_all. cbn [mbind option_bind]. rewrite <- parse_authority_take with (n := zlen auth) by zlen_lia.
  replace (take (Z.to_nat (zlen auth)) (auth ++ 47 :: path)) with auth.
  2: { unfold zlen. rewrite Nat2Z.id. symmetry. apply take_app_length. }
  unfold auth. by rewrite authority_read.
Qed.

(** A prefix with a colon is not that of another scheme. *)
Lemma tolower_colon c : tolower c = 58 -> c = 58.
Proof. unfold tolower. destruct ((65 <=? c) && (c <=? 90)) eqn:E; lia. Qed.
Lemma scheme_prefix s1 s2 a b k : ~ 58 ∈ s1 -> ~ 58 ∈ a ->
  map tolower (take k (s1 ++ 58 :: s2)) = a ++ 58 :: b -> map tolower s1 = a.
Proof.
  revert a k. induction s1 as [|c s1 IH]; intros a k H1 Ha; destruct k; cbn [take app map]; try (by destruct a).
  - destruct a; [done|]. cbn [app]. intros [= <- _]. destruct Ha. by left.
  - destruct a as [|x a]; cbn [app]; intros [= Hc E].
    + apply tolower_colon in Hc. subst c. destruct H1. by left.
    + cbn [map]. f_equal; [done|]. eapply IH; [| |exact E]; intros ?; [destruct H1|destruct Ha]; by right.
Qed.
Lemma no_prefix s a b k : ~ 58 ∈ s -> map tolower (take k s) <> a ++ 58 :: b.
Proof.
  intros Hs E. assert (58 ∈ map tolower (take k s)) as H by (rewrite E; apply elem_of_app; right; by left).
  apply list_elem_of_fmap in H as (c & Ec & Hc). symmetry in Ec. apply tolower_colon in Ec. subst c.
  apply Hs. by apply (subseteq_take k).
Qed.

(** The tests for a scheme fail. *)
Lemma nocase_false p k s : (forall n, map tolower (take n p) <> map tolower s) -> zlen s = k ->
  (if k <=? zlen p then same_nocase p s else Some false) = Some false.
Proof.
  intros H <-. destruct (Z.leb_spec (zlen s) (zlen p)); [|done]. unfold same_nocase. rewrite bytes_some by zlen_lia. cbn [mbind option_bind].
  by rewrite bool_decide_false.
Qed.

Lemma not_http p : (forall n, map tolower (take n p) <> str "http"%string ++ 58 :: str "//"%string) ->
  (forall n, map tolower (take n p) <> str "https"%string ++ 58 :: str "//"%string) ->
  (if 7 <=? zlen p then same_nocase p (str "http://"%string) else Some false) = Some false /\
  (if 8 <=? zlen p then same_nocase p (str "https://"%string) else Some false) = Some false.
Proof. intros H1 H2. by split; apply nocase_false. Qed.
Lemma nocase_front s p : same_nocase (s ++ p) s = Some true.
Proof. unfold same_nocase. rewrite bytes_front. cbn [mbind option_bind]. by rewrite bool_decide_true. Qed.

(** Behind the first two tests of [http_parse_uri], for [p = c :: q]. *)
Ltac long_uri p :=
  replace (zlen p =? 0) with false by zlen_lia; replace (zlen p =? 1) with false by zlen_lia;
  replace (zlen p <=? 1) with false by zlen_lia; cbn [list.head mbind option_bind].

(** A URI that is written out is read back, with its host, port and path. *)
Lemma uri_read u : uri_ok u -> http_parse_uri (uri_text u) (zlen (uri_text u)) = Some u.
Proof.
  unfold http_parse_uri. destruct u as [|s|s|s1 s2|h port path|h port path]; cbn [uri_ok uri_text].
  - done.
  - intros (Hl & H47 & Hc). destruct s as [|c s]; [done|]. long_uri (c :: s). cbn [list.head] in H47.
    destruct (Z.eqb_spec c 47); [congruence|]. cbn [andb orb].
    destruct (not_http (c :: s)) as [-> ->]; [intros ?; by apply no_prefix..|].
    cbn [mbind option_bind]. by rewrite memchr_whole, (proj2 (index_of_None 58 _) Hc), bytes_all.
  - intros Hh. destruct s as [|c s]; [done|]. injection Hh as ->. rewrite bytes_all.
    replace (zlen (47 :: s) =? 0) with false by zlen_lia. cbn [head mbind option_bind]. change (47 =? 42) with false. change (47 =? 47) with true.
    by rewrite andb_false_r, orb_true_r.
  - intros (Hne & H47 & Hc & Hh & Hhs). destruct s1 as [|c s1]; [done|]. cbn [list.head] in H47.
    change ((c :: s1) ++ 58 :: s2) with (c :: s1 ++ 58 :: s2). long_uri (c :: s1 ++ 58 :: s2).
    change (c :: s1 ++ 58 :: s2) with ((c :: s1) ++ 58 :: s2). destruct (Z.eqb_spec c 47); [congruence|]. cbn [andb orb].
    destruct (not_http ((c :: s1) ++ 58 :: s2)) as [-> ->]; [intros ? E; apply scheme_prefix in E; [done|done|by apply index_of_None]..|].
    cbn [mbind option_bind]. rewrite memchr_whole, index_of_front by done. cbn [mbind option_bind]. rewrite bytes_front, drop_front1.
    cbn [mbind option_bind]. replace (_ - _) with (zlen s2) by zlen_lia. by rewrite bytes_all.
  - intros H%absoluteURI_read. set (x := h ++ port_text port ++ path) in *. clearbody x.
    set (p := str "http://"%string ++ x). assert (zlen p = 7 + zlen x) as Hz by (unfold p; rewrite zlen_app; done).
    pose proof (zlen_nonneg x). long_uri p. replace (7 <=? zlen p) with true by lia. change (list.head p) with (Some 104). cbn [mbind option_bind].
    change (104 =? 47) with false. cbn [andb orb]. replace (same_nocase p (str "http://"%string)) with (Some true) by (symmetry; apply nocase_front). cbn [mbind option_bind].
    change (drop 7 p) with x. replace (zlen p - 7) with (zlen x) by lia. by rewrite H.
  - intros H%absoluteURI_read. set (x := h ++ port_text port ++ path) in *. clearbody x.
    set (p := str "https://"%string ++ x). assert (zlen p = 8 + zlen x) as Hz by (unfold p; rewrite zlen_app; done).
    pose proof (zlen_nonneg x). long_uri p. replace (7 <=? zlen p) with true by lia. replace (8 <=? zlen p) with true by lia.
    change (list.head p) with (Some 104). cbn [mbind option_bind].
    change (104 =? 47) with false. cbn [andb orb]. replace (same_nocase p (str "http://"%string)) with (Some false).
    2: { unfold same_nocase. change (zlen (str "http://"%string)) with 7. by rewrite bytes_some by lia. }
    cbn [mbind option_bind]. replace (same_nocase p (str "https://"%string)) with (Some true) by (symmetry; apply nocase_front). cbn [mbind option_bind].
    change (drop 8 p) with x. replace (zlen p - 8) with (zlen x) by lia. by rewrite H.
Qed.

(** ** Messages *)

Inductive start_line :=
  | Request (meth : list Z) (uri : PacketHttpURI) (major minor : Z)
  | Status (major minor status : Z) (phrase : list Z).

Definition version_text (major minor : Z) : list Z := str "HTTP/"%string ++ dec major ++ 46 :: dec minor.
Definition start_text (s : start_line) : list Z :=
  match s with
  | Request meth uri major minor => meth ++ 32 :: uri_text uri ++ 32 :: version_text major minor
  | Status major minor status phrase => version_text major minor ++ 32 :: dec status ++ 32 :: phrase
  end.
Definition header_text (h : list Z * list Z) : list Z := h.1 ++ 58 :: 32 :: h.2.
Definition lines (l : list (list Z)) : list Z := concat (map (fun s => s ++ [13; 10]) l).
Definition message (s : start_line) (hdrs : list (list Z * list Z)) (body : list Z) : list Z :=
  lines (start_text s :: map header_text hdrs ++ [[]]) ++ body.

Definition token (l : list Z) : Prop := l <> [] /\ Forall (fun c => is_tspecial c = false) l.
(** Text up to the end of the line, that does not begin with a space. *)
Definition field (l : list Z) : Prop := ~ 10 ∈ l /\ ~ exists c q, l = c :: q /\ is_sp c = true.
Definition natural (n : Z) : Prop := 0 <= n <= INT_MAX.
Definition start_ok (s : start_line) : Prop :=
  match s with
  | Request meth uri major minor =>
      token meth /\ uri_ok uri /\ Forall (fun c => is_sp c = false /\ c <> 10) (uri_text uri) /\ natural major /\ natural minor
  | Status major minor status phrase => natural major /\ natural minor /\ natural status /\ field phrase
  end.
Definition header_ok (h : list Z * list Z) : Prop := token h.1 /\ field h.2.

(** What the callbacks get. *)
Definition start_event (s : start_line) : event :=
  match s with
  | Request meth uri major minor => http_request (position meth http_meth_strings) meth uri major minor
  | Status major minor status phrase => http_response major minor status phrase
  end.
(** A header name as it is given to the callback: a capital at the beginning and behind a
    hyphen, unless that hyphen is itself in the place of a capital. *)
Fixpoint name_case (up : bool) (l : list Z) : list Z :=
  match l with
  | [] => []
  | c :: l => if up then toupper c :: name_case false l else tolower c :: name_case (c =? 45) l
  end.
Definition header_event (h : list Z * list Z) : event :=
  let '(name, value) := h in
  if zlen name <=? HTTP_MAX_NAME_LEN
  then http_header (position (name_case true name) http_hdr_strings) (name_case true name) name value
  else http_header None name name value.

(** What the user of a socket does: find the next line, have it parsed, and so on until
    the end of the headers, where the state is 0 again.  The calls of the callbacks,
    and the bytes that follow. *)
Fixpoint read_http (cb : event -> Z) (htype : PacketParseType) (fuel : nat) (bs : list Z) (st : Z) : option (list event * list Z) :=
  match fuel with
  | O => None
  | S fuel =>
      '(r, st) ← packet_get_length htype bs (zlen bs) 0 0 0 st;
      if (0 <? r) && (r <=? zlen bs) then
        '(evs, _, st) ← packet_parse cb htype (take (Z.to_nat r) bs) r st;
        let rest := drop (Z.to_nat r) bs in
        if st =? 0 then Some (evs, rest)
        else '(more, rest) ← read_http cb htype fuel rest st; Some (evs ++ more, rest)
      else None
  end.

Definition http_mode (htype : PacketParseType) : Prop := htype = TCP_PB_HTTP \/ htype = TCP_PB_HTTP_BIN.

Lemma http_line text rest st : ~ 10 ∈ text -> st = 0 \/ text = [] \/ (exists c q, rest = c :: q /\ is_sp c = false) ->
  http (text ++ 13 :: 10 :: rest) (zlen (text ++ 13 :: 10 :: rest)) 0 0 st = Some (goto_done (zlen text + 2)).
Proof.
  intros H10 Hst. set (p := text ++ 13 :: 10 :: rest). destruct (decide (text = [] /\ rest = [])) as [[Et Er]|Hne].
  { unfold p. by rewrite Et, Er. }
  assert (zlen p = zlen text + 2 + zlen rest) as Hp by (unfold p; zlen_lia).
  assert (0 < zlen text \/ 0 < zlen rest) as Hpos.
  { destruct text; [|left; zlen_lia]. destruct rest; [by destruct Hne|right; zlen_lia]. }
  pose proof (zlen_nonneg text). pose proof (zlen_nonneg rest). rewrite http_long by lia. cbn [http_lines Z.eqb].
  rewrite Z.sub_0_r, memchr_whole. replace (index_of 10 p) with (Some (zlen text + 1)).
  2: { unfold p. change (13 :: 10 :: rest) with ([13] ++ 10 :: rest). rewrite app_assoc, index_of_front; [f_equal; zlen_lia|].
       intros [?|?%list_elem_of_singleton]%elem_of_app; done. }
  cbn [mbind option_bind]. replace (0 + (zlen text + 1) + 1) with (zlen text + 2) by lia. cbn [negb andb].
  destruct (Z.eqb_spec st 0); [done|]. destruct Hst as [?|Hst]; [done|].
  replace (drop (Z.to_nat (zlen text + 1 + 1)) p) with rest.
  2: { unfold p. change (13 :: 10 :: rest) with ([13; 10] ++ rest). rewrite app_assoc.
       replace (zlen text + 1 + 1) with (zlen (text ++ [13; 10])) by zlen_lia. by rewrite drop_front. }
  destruct rest as [|c q].
  { exfalso. destruct Hst as [->|(c & q & ? & _)]; [by apply Hne|done]. }
  replace (zlen text + 2 <? zlen p) with true by (rewrite Hp; zlen_lia). cbn [SP mbind option_bind].
  destruct Hst as [->|(? & ? & [= <- <-] & Hc)]; [by rewrite andb_false_r|]. unfold is_sp in Hc. by rewrite Hc.
Qed.

Lemma http_line_length htype text rest st : http_mode htype -> ~ 10 ∈ text ->
  st = 0 \/ text = [] \/ (exists c q, rest = c :: q /\ is_sp c = false) -> zlen text + 2 <= INT_MAX ->
  packet_get_length htype (text ++ 13 :: 10 :: rest) (zlen (text ++ 13 :: 10 :: rest)) 0 0 0 st = Some (zlen text + 2, st).
Proof.
  intros Hm H10 Hst Hz. assert (wraps 32 (zlen text + 2) = zlen text + 2) as Hw by (apply wraps_small; [lia|]; unfold in_s, INT_MAX in *; zlen_lia).
  destruct Hm as [-> | ->]; unfold packet_get_length; cbn [packet_label]; rewrite http_line by done; cbn [mbind option_bind at_label]; by rewrite Hw.
Qed.

(** ** The lines of a message *)

Lemma version_read a b r n m : natural a -> natural b -> n = (length (dec a) + S (length (dec b) + m))%nat ->
  m = 0%nat \/ (exists c q, r = c :: q /\ isdigit c = false) ->
  http_version (dec a ++ 46 :: dec b ++ r) n = Some (Some (a, b, r, m)).
Proof.
  intros (Ha & Hane & Hav)%dec_digits (Hb & Hbne & Hbv)%dec_digits -> Hm. unfold http_version.
  rewrite (skip_pass isdigit (dec a) _ _ (S (length (dec b) + m))) by (done || (right; by eexists _, _)). cbn [mbind option_bind].
  rewrite bool_decide_false by done. cbn [orb Nat.eqb list.head mbind option_bind]. change (negb (46 =? 46)) with false. cbn iota.
  cbn [tail Nat.sub]. rewrite Nat.sub_0_r, (skip_pass isdigit (dec b) r _ m) by done. cbn [mbind option_bind]. rewrite bool_decide_false by done.
  by rewrite Hav, Hbv.
Qed.

Lemma one_space r n m : n = S m -> ~ (exists c q, r = c :: q /\ is_sp c = true) -> r <> [] ->
  skip_while is_sp n (32 :: r) = Some ([32], r, m).
Proof.
  intros -> Hr Hne. apply (skip_pass is_sp [32] r); [by repeat constructor|done|]. destruct r as [|c q]; [done|]. right. eexists _, _. split; [done|].
  destruct (is_sp c) eqn:E; [destruct Hr; eauto|done].
Qed.

Lemma response_read a b s phrase : natural a -> natural b -> natural s -> field phrase ->
  parse_response (dec a ++ 46 :: dec b ++ 32 :: dec s ++ 32 :: phrase ++ [13; 10])
    (length (dec a ++ 46 :: dec b ++ 32 :: dec s ++ 32 :: phrase)) = Some (Some (http_response a b s phrase)).
Proof.
  intros Ha Hb Hs [H10 Hsp]. unfold parse_response. set (r := 32 :: dec s ++ 32 :: phrase ++ [13; 10]).
  rewrite (version_read a b r _ (S (length (dec s) + S (length phrase)))); [|done|done| |by right; eexists _, _].
  2: { rewrite length_app. cbn [length]. rewrite length_app. cbn [length]. rewrite length_app. done. }
  cbn [mbind option_bind]. destruct (dec_digits s Hs) as (Hd & Hne & Hv). unfold r. rewrite (one_space _ _ (length (dec s) + S (length phrase))); [|done| |].
  2: { destruct (dec s) as [|c q]; [done|]. intros (? & ? & [= <- _] & Hc). apply Forall_cons_iff in Hd as [Hd _]. unfold isdigit, is_sp in *. lia. }
  2: { by intros [? _]%app_eq_nil. }
  cbn [mbind option_bind]. rewrite bool_decide_false by done.
  rewrite (skip_pass isdigit (dec s) _ _ (S (length phrase))) by (done || (right; by eexists _, _)). cbn [mbind option_bind].
  rewrite (one_space _ _ (length phrase)); [|done| |by intros [_ ?]%app_eq_nil].
  2: { intros (c & q & E & Hc). destruct phrase as [|c' q']; [by injection E as <- _|]. injection E as <- _. apply Hsp. eauto. }
  cbn [mbind option_bind]. rewrite bool_decide_false by done. cbn [andb]. rewrite bytes_front. cbn [mbind option_bind]. by rewrite Hv.
Qed.

(** Nothing behind the URI has an influence. *)
Lemma uri_front uri q : http_parse_uri (uri ++ q) (zlen uri) = http_parse_uri uri (zlen uri).
Proof.
  rewrite <- (http_parse_uri_take (uri ++ q)) by zlen_lia. f_equal. unfold zlen. rewrite Nat2Z.id. apply take_app_length.
Qed.

Lemma uri_nonempty u : uri_ok u -> uri_text u <> [].
Proof. intros Hu E. pose proof (uri_read u Hu) as H. rewrite E in H. injection H as <-. done. Qed.

Lemma request_read meth u a b rest : start_ok (Request meth u a b) ->
  parse_request (start_text (Request meth u a b) ++ 13 :: rest) (length (start_text (Request meth u a b))) =
  Some (Some (start_event (Request meth u a b))).
Proof.
  intros ([Hne Ht] & Hu & Huri & Ha & Hb). cbn [start_text start_event]. pose proof (uri_read u Hu) as Eu.
  pose proof (uri_nonempty u Hu) as Hune. set (uri := uri_text u) in *. clearbody uri.
  set (V := version_text a b). assert (8 <= length V)%nat as HV.
  { destruct (dec_digits a Ha) as (_ & Hd & _). destruct (dec_digits b Hb) as (_ & Hd2 & _). unfold V, version_text.
    destruct (dec a), (dec b); try done. rewrite !length_app. cbn [length]. change (length (str "HTTP/"%string)) with 5%nat. lia. }
  replace ((meth ++ 32 :: uri ++ 32 :: V) ++ 13 :: rest) with (meth ++ 32 :: uri ++ 32 :: V ++ 13 :: rest)
    by (rewrite <- app_assoc; cbn [app]; by rewrite <- app_assoc).
  replace (length (meth ++ 32 :: uri ++ 32 :: V)) with (length meth + S (length uri + S (length V)))%nat
    by (rewrite length_app; cbn [length]; by rewrite length_app).
  unfold parse_request.
  rewrite (skip_pass _ meth _ _ (S (length uri + S (length V)))); [|eapply list.Forall_impl; [exact Ht|]; by intros ? ->|done|right; by eexists _, _].
  cbn [mbind option_bind Nat.eqb orb SP]. rewrite bool_decide_false by done. cbn [orb].
  rewrite (one_space _ _ (length uri + S (length V))); [|done| |by destruct uri].
  2: { destruct uri as [|c uri]; [done|]. intros (? & ? & [= <- _] & Hc). apply Forall_cons_iff in Huri as [[Hd _] _]. congruence. }
  cbn [negb Z.eqb mbind option_bind].
  rewrite (skip_pass _ uri _ _ (S (length V))); [|eapply list.Forall_impl; [exact Huri|]; by intros ? [-> _]|done|right; by eexists _, _].
  cbn [mbind option_bind]. replace (zlen uri =? 0) with false by (destruct uri; [done|]; zlen_lia).
  rewrite (one_space _ _ (length V)); [|done| |by intros [_ ?]%app_eq_nil].
  2: { intros (c & q & [= <- _] & Hc). done. }
  cbn [mbind option_bind]. replace (length V =? 0)%nat with false by (symmetry; apply Nat.eqb_neq; lia).
  replace (length V <? 8)%nat with false by (symmetry; apply Nat.ltb_ge; lia).
  rewrite uri_front, Eu. unfold V, version_text. rewrite <- app_assoc. cbn [app]. rewrite <- app_assoc. cbn [app].
  change 5 with (zlen (str "HTTP/"%string)) at 1. rewrite bytes_front. cbn [mbind option_bind]. rewrite bool_decide_true by done. cbn [negb].
  change 5%nat with (Z.to_nat (zlen (str "HTTP/"%string))) at 1. rewrite drop_front.
  rewrite (version_read a b _ _ 0); [|done|done| |by left].
  2: { rewrite !length_app. cbn [length]. change (length (str "HTTP/"%string)) with 5%nat. lia. }
  cbn [mbind option_bind]. by rewrite meth_lookup.
Qed.

(** Of a name that is too long, as much as fits. *)
Lemma header_name_read name r m up name_buf name_len : Forall (fun c => is_tspecial c = false) name -> (1 <= m)%nat -> zlen name_buf = Z.min name_len HTTP_MAX_NAME_LEN -> 0 <= name_len ->
  header_name (length name + m) (name ++ 58 :: r) up name_buf name_len =
  Some (Some (name_buf ++ take (Z.to_nat (HTTP_MAX_NAME_LEN - name_len)) (name_case up name), name_len + zlen name, 58 :: r, m)).
Proof.
  intros Hn Hm. revert up name_buf name_len. induction Hn as [|c name Hc _ IH]; intros up name_buf name_len Hb H0; cbn [app length Nat.add header_name].
  - cbn [name_case]. rewrite take_nil, app_nil_r. change (zlen []) with 0. rewrite Z.add_0_r. done.
  - rewrite Hc. destruct (length name + m)%nat as [|k] eqn:E; [lia|]. destruct (Z.ltb_spec name_len HTTP_MAX_NAME_LEN).
    + replace (Z.to_nat (HTTP_MAX_NAME_LEN - name_len)) with (S (Z.to_nat (HTTP_MAX_NAME_LEN - (name_len + 1)))) by lia. cbn [name_case].
      destruct up; (match goal with |- context [put_name name_buf ?x] => destruct (put_name_some name_buf name_len x) as [-> Hz]; [done|done|] end);
        cbn [mbind option_bind]; rewrite IH by (done || lia); rewrite <- app_assoc, zlen_cons; cbn [app take]; do 5 f_equal; lia.
    + cbn [mbind option_bind]. rewrite IH by lia. replace (Z.to_nat (HTTP_MAX_NAME_LEN - name_len)) with 0%nat by lia. replace (Z.to_nat (HTTP_MAX_NAME_LEN - (name_len + 1))) with 0%nat by lia. rewrite !take_0, zlen_cons. do 5 f_equal. lia.
Qed.
Lemma length_name_case up l : length (name_case up l) = length l.
Proof. revert up. induction l as [|c l IH]; intros []; cbn [name_case length]; by rewrite ?IH. Qed.

Lemma field_start v q : field v -> ~ exists c p, v ++ 13 :: q = c :: p /\ is_sp c = true.
Proof.
  intros [_ Hv] (c & p & E & Hc). destruct v as [|c' v]; [by injection E as <- _|]. injection E as <- _. apply Hv. eauto.
Qed.

Lemma header_read h rest : header_ok h ->
  parse_header (header_text h ++ 13 :: rest) (length (header_text h)) = Some (Some (header_event h)).
Proof.
  destruct h as [name v]. intros [[Hne Ht] Hv]. unfold header_text. cbn [fst snd] in *. rewrite <- app_assoc, length_app. cbn [length app].
  unfold parse_header. rewrite header_name_read by (done || lia). cbn [mbind option_bind list.head Z.eqb negb tail header_event app].
  change (negb (Pos.eqb 58 58)) with false. cbn iota. rewrite Z.add_0_l, bytes_front. cbn [mbind option_bind].
  assert ((if zlen name <=? HTTP_MAX_NAME_LEN
           then (http_hash_lookup (take (Z.to_nat (HTTP_MAX_NAME_LEN - 0)) (name_case true name)) (http_hash (take (Z.to_nat (HTTP_MAX_NAME_LEN - 0)) (name_case true name)))
                   http_hdr_hash HTTP_HDR_HASH_SIZE, take (Z.to_nat (HTTP_MAX_NAME_LEN - 0)) (name_case true name))
           else (None, name)) =
          (if zlen name <=? HTTP_MAX_NAME_LEN then (position (name_case true name) http_hdr_strings, name_case true name) else (None, name))) as ->.
  { destruct (Z.leb_spec (zlen name) HTTP_MAX_NAME_LEN) as [Hz|]; [|done]. rewrite take_ge by (rewrite length_name_case; unfold zlen in Hz; lia). by rewrite hdr_lookup. }
  rewrite (one_space _ _ (length v)); [|cbn [length]; lia|by apply field_start|by intros [_ ?]%app_eq_nil].
  cbn [mbind option_bind]. destruct (zlen name <=? HTTP_MAX_NAME_LEN); cbn [mbind option_bind]; by rewrite bytes_front.
Qed.

Lemma trimmed_line text : trimmed (text ++ [13; 10]) (zlen text + 2) = Some (zlen text).
Proof.
  unfold trimmed. replace (2 <=? zlen text + 2) with true by (symmetry; apply Z.leb_le; zlen_lia).
  replace (Z.to_nat (zlen text + 2 - 2)) with (length text) by (unfold zlen; lia). rewrite (list_lookup_middle text [10] 13 (length text)) by done.
  cbn [mbind option_bind]. change (13 =? 13) with true. cbn iota. f_equal. lia.
Qed.

(** No token begins as a status line does. *)
Lemma token_not_http meth r : token meth -> take 5 (meth ++ 32 :: r) <> str "HTTP/"%string.
Proof.
  intros [_ Ht] E. change (str "HTTP/"%string) with [72; 84; 84; 80; 47] in E.
  do 5 (destruct meth as [|? meth]; [cbn [app take] in E; by injection E|apply Forall_cons_iff in Ht as [? Ht]; cbn [app take] in E; injection E as -> E || injection E as ->]).
  done.
Qed.
Lemma start_read s : start_ok s ->
  packet_parse_http (start_text s ++ [13; 10]) (zlen (start_text s) + 2) 0 = Some (Some (start_event s), 1).
Proof.
  intros Hs. unfold packet_parse_http. rewrite trimmed_line. cbn [mbind option_bind]. change (0 =? 0) with true. cbn iota.
  set (p := start_text s ++ [13; 10]). replace (Z.to_nat (zlen (start_text s))) with (length (start_text s)) by (unfold zlen; lia).
  destruct s as [meth u a b|a b st phrase].
  - replace (if 5 <=? zlen (start_text (Request meth u a b)) then _ else _) with (Some false).
    2: { destruct (Z.leb_spec 5 (zlen (start_text (Request meth u a b)))); [|done]. symmetry. rewrite bytes_some by (unfold p; zlen_lia). cbn [mbind option_bind]. rewrite bool_decide_false; [done|].
         unfold p. cbn [start_text]. rewrite <- app_assoc. cbn [app]. apply token_not_http. by destruct Hs. }
    cbn [mbind option_bind]. unfold p. by rewrite request_read.
  - destruct Hs as (Ha & Hb & Hs & Hf).
    assert (p = str "HTTP/"%string ++ dec a ++ 46 :: dec b ++ 32 :: dec st ++ 32 :: phrase ++ [13; 10]) as ->.
    { unfold p. cbn [start_text]. unfold version_text. repeat (rewrite <- app_assoc; cbn [app]). done. }
    assert (length (start_text (Status a b st phrase)) = (5 + length (dec a ++ 46%Z :: dec b ++ 32%Z :: dec st ++ 32%Z :: phrase))%nat) as Hl.
    { cbn [start_text]. unfold version_text. rewrite <- app_assoc, length_app. change (length (str "HTTP/"%string)) with 5%nat. repeat (rewrite <- app_assoc; cbn [app]). done. }
    replace (5 <=? zlen (start_text (Status a b st phrase))) with true by (symmetry; apply Z.leb_le; unfold zlen; lia).
    change 5 with (zlen (str "HTTP/"%string)) at 1. rewrite bytes_front. cbn [mbind option_bind]. rewrite bool_decide_true by done.
    change (drop 5 ?p) with (drop (Z.to_nat (zlen (str "HTTP/"%string))) p). rewrite drop_front, Hl.
    rewrite Nat.add_comm, Nat.add_sub.
    by rewrite response_read.
Qed.

(** ** Messages are read *)

Section Reading.
Context (cb : event -> Z) (htype : PacketParseType) (Hcb : forall ev, 0 <= cb ev) (Hmode : http_mode htype).

Lemma parse_line text st ev st' : packet_parse_http (text ++ [13; 10]) (zlen text + 2) st = Some (Some ev, st') ->
  packet_parse cb htype (text ++ [13; 10]) (zlen text + 2) st = Some ([ev], 1, st').
Proof using All.
  intros E. assert ((cb ev <? 0) = false) as Hev by (apply Z.ltb_ge; apply Hcb).
  destruct Hmode as [-> | ->]; cbn [packet_parse]; rewrite E; cbn [mbind option_bind];
    (rewrite bytes_some by zlen_lia); cbn [mbind option_bind]; by rewrite Hev.
Qed.

Lemma read_line fuel text rest st ev st' : ~ 10 ∈ text ->
  st = 0 \/ text = [] \/ (exists c q, rest = c :: q /\ is_sp c = false) -> zlen text + 2 <= INT_MAX ->
  packet_parse_http (text ++ [13; 10]) (zlen text + 2) st = Some (Some ev, st') ->
  read_http cb htype (S fuel) (text ++ 13 :: 10 :: rest) st =
  if st' =? 0 then Some ([ev], rest)
  else '(more, rest) ← read_http cb htype fuel rest st'; Some (ev :: more, rest).
Proof using All.
  intros H10 Hst Hz E. cbn [read_http]. rewrite http_line_length by done. cbn [mbind option_bind].
  replace ((0 <? zlen text + 2) && _) with true by (symmetry; apply andb_true_iff; split; [apply Z.ltb_lt|apply Z.leb_le]; zlen_lia).
  replace (take (Z.to_nat (zlen text + 2)) (text ++ 13 :: 10 :: rest)) with (text ++ [13; 10]).
  2: { change (13 :: 10 :: rest) with ([13; 10] ++ rest). rewrite app_assoc. symmetry. apply take_app_length'. rewrite length_app. unfold zlen. cbn [length]. lia. }
  replace (drop (Z.to_nat (zlen text + 2)) (text ++ 13 :: 10 :: rest)) with rest.
  2: { change (13 :: 10 :: rest) with ([13; 10] ++ rest). rewrite app_assoc. symmetry. apply drop_app_length'. rewrite length_app. unfold zlen. cbn [length]. lia. }
  rewrite (parse_line _ _ _ _ E). cbn [mbind option_bind].
  destruct (st' =? 0); [done|]. destruct (read_http cb htype fuel rest st') as [[more r]|]; done.
Qed.

Lemma token_no10 l : Forall (fun c => is_tspecial c = false) l -> ~ 10 ∈ l.
Proof using. intros H Hin. rewrite list.Forall_forall in H. specialize (H 10 Hin). done. Qed.
Lemma header_no10 h : header_ok h -> ~ 10 ∈ header_text h.
Proof using.
  intros [[_ Ht] [Hv _]]. unfold header_text. intros [H|[?|[?|H]%elem_of_cons]%elem_of_cons]%elem_of_app; try done. by apply token_no10 in H.
Qed.
Lemma start_no10 s : start_ok s -> ~ 10 ∈ start_text s.
Proof using.
  assert (forall n, natural n -> ~ 10 ∈ dec n) as Hd by (intros n Hn; by apply dec_no).
  assert (forall a b, natural a -> natural b -> ~ 10 ∈ version_text a b) as Hver.
  { intros a b Ha Hb [H|[H|[?|H]%elem_of_cons]%elem_of_app]%elem_of_app; [by apply index_of_None in H|by apply Hd in H|done|by apply Hd in H]. }
  destruct s as [meth u a b|a b st phrase]; cbn [start_ok start_text].
  - intros ([_ Ht] & _ & Hu & Ha & Hb) [H|[?|[H|[?|H]%elem_of_cons]%elem_of_app]%elem_of_cons]%elem_of_app; try done.
    + by apply token_no10 in H.
    + rewrite list.Forall_forall in Hu. by apply Hu in H as [_ ?].
    + by apply Hver in H.
  - intros (Ha & Hb & Hst & [Hp _]) [H|[?|[H|[?|H]%elem_of_cons]%elem_of_app]%elem_of_cons]%elem_of_app; try done.
    + by apply Hver in H.
    + by apply Hd in H.
Qed.

(** What follows a line of a message does not begin with a space. *)
Lemma headers_start hdrs body : Forall header_ok hdrs ->
  exists c q, lines (map header_text hdrs ++ [[]]) ++ body = c :: q /\ is_sp c = false.
Proof using.
  intros H. destruct H as [|[name v] hdrs [[Hne Ht] _] _]; [by eexists _, _|]. cbn [fst] in *. destruct name as [|c name]; [done|].
  eexists c, _. split; [done|]. apply Forall_cons_iff in Ht as [Ht _]. unfold is_tspecial, is_sp in *. destruct ((32 <? c) && (c <? 128)) eqn:E; lia.
Qed.

Lemma lines_cons l ls body : lines (l :: ls) ++ body = l ++ 13 :: 10 :: lines ls ++ body.
Proof using. unfold lines. cbn [map concat]. by rewrite <- !app_assoc. Qed.

Lemma headers_read hdrs body : Forall header_ok hdrs -> zlen (lines (map header_text hdrs ++ [[]]) ++ body) <= INT_MAX ->
  read_http cb htype (S (length hdrs)) (lines (map header_text hdrs ++ [[]]) ++ body) 1 =
  Some (map header_event hdrs ++ [http_eoh], body).
Proof using All.
  intros H. induction H as [|h hdrs Hh Hhs IH]; intros Hz; cbn [map app length] in *; rewrite lines_cons in *.
  - change (lines [] ++ body) with body. erewrite (read_line 0 [] body 1 http_eoh 0); [done|by intros ?%elem_of_nil|by right; left|done|done].
  - assert (header_text h <> []) as Hne by (unfold header_text; by intros [_ ?]%app_eq_nil).
    erewrite (read_line _ (header_text h) _ 1 (header_event h) 1).
    + change (1 =? 0) with false. cbn iota. rewrite IH; [done|]. rewrite zlen_app in Hz. pose proof (zlen_nonneg (header_text h)).
      rewrite !zlen_cons in Hz. lia.
    + by apply header_no10.
    + right. right. by apply headers_start.
    + rewrite zlen_app, !zlen_cons in Hz. pose proof (zlen_nonneg (lines (map header_text hdrs ++ [[]]) ++ body)). lia.
    + unfold packet_parse_http. rewrite trimmed_line. cbn [mbind option_bind]. change (1 =? 0) with false. cbn iota.
      replace (zlen (header_text h) =? 0) with false.
      2: { symmetry. apply Z.eqb_neq. destruct (header_text h); [done|]. zlen_lia. }
      replace (Z.to_nat (zlen (header_text h))) with (length (header_text h)) by (unfold zlen; lia). by rewrite header_read.
Qed.

Lemma message_read s hdrs body : start_ok s -> Forall header_ok hdrs -> zlen (message s hdrs body) <= INT_MAX ->
  read_http cb htype (S (S (length hdrs))) (message s hdrs body) 0 =
  Some (start_event s :: map header_event hdrs ++ [http_eoh], body).
Proof using All.
  intros Hs Hh Hz. unfold message in *. rewrite lines_cons in *. erewrite (read_line _ (start_text s) _ 0 (start_event s) 1).
  - change (1 =? 0) with false. cbn iota. rewrite headers_read; [done|done|]. rewrite zlen_app, !zlen_cons in Hz. pose proof (zlen_nonneg (start_text s)). lia.
  - by apply start_no10.
  - by left.
  - rewrite zlen_app, !zlen_cons in Hz. pose proof (zlen_nonneg (lines (map header_text hdrs ++ [[]]) ++ body)). lia.
  - by apply start_read.
Qed.
End Reading.

(** C15: An HTTP request or response, as RFC 2616 writes it, is read back from the stream
    with one callback for the start line, with method, URI and version or with
    version, status and phrase, one for each header, its name looked up without
    regard to case, and one for the end of the headers; the bytes behind the empty
    line are left as they are.  The URI may be any of the six forms, with a port and
    an IPv6 address in brackets. *)
Theorem http_message_read cb htype s hdrs body :
  (forall ev, 0 <= cb ev) -> http_mode htype -> start_ok s -> Forall header_ok hdrs -> zlen (message s hdrs body) <= INT_MAX ->
  read_http cb htype (S (S (length hdrs))) (message s hdrs body) 0 = Some (start_event s :: map header_event hdrs ++ [http_eoh], body).
Proof. intros Hcb Hm. by apply message_read. Qed.

(** ** A concrete case *)

Definition start_a : start_line := Request (str "GET"%string) (URI_HTTP (str "[::1]"%string) 8080 (str "/x"%string)) 1 1.
Definition headers_a : list (list Z * list Z) := [(str "HOST"%string, str "a"%string); (str "x-y"%string, [])].

Lemma start_a_ok : start_ok start_a.
Proof.
  split; [by repeat constructor|]. split.
  - split; [split; [by apply index_of_None|]|by vm_compute]. right. exists (str "::1"%string). split; [done|by apply index_of_None].
  - split; [by repeat constructor|]. split; vm_compute; by split.
Qed.
Lemma headers_a_ok : Forall header_ok headers_a.
Proof.
  repeat constructor; try done; try (by apply index_of_None); intros (c & q & [= <- _] & ?); done.
Qed.

Lemma http_message_read_witness :
  read_http (fun _ => 1) TCP_PB_HTTP 4 (message start_a headers_a (str "body"%string)) 0 =
  Some ([http_request (Some 1) (str "GET"%string) (URI_HTTP (str "[::1]"%string) 8080 (str "/x"%string)) 1 1;
         http_header (Some 13) (str "Host"%string) (str "HOST"%string) (str "a"%string);
         http_header None (str "X-Y"%string) (str "x-y"%string) []; http_eoh], str "body"%string).
Proof.
  apply (http_message_read (fun _ => 1) TCP_PB_HTTP start_a headers_a (str "body"%string));
    [intros; lia|by left|exact start_a_ok|exact headers_a_ok|vm_compute; discriminate].
Defined.
