(* ===== verification/BigDigit.v ===== *)
(** * The digits of big integers: the macros of [erts/emulator/beam/big.c]

    A digit is a word of 64 bits.  The functions on vectors of digits use a handful of
    macros, which exist twice: with an integer type of 128 bits, and with half digits
    where the compiler has none.  The class [DigitMacros] is what the functions use,
    [DigitLaws] what they rely on; both versions are instances. *)
From S2P Require Import Prelude PutGet.

Definition D_EXP : Z := 64.
Definition H_EXP : Z := Z.shiftr D_EXP 1.
(** The base, and that of half digits. *)
Abbreviation DB := 18446744073709551616.
Abbreviation HB := 4294967296.
Definition D_MASK : Z := DB - 1.
Definition LO_MASK : Z := Z.shiftl 1 H_EXP - 1.
Definition HI_MASK : Z := wrapu 64 (Z.shiftl LO_MASK H_EXP).

Definition digit (x : Z) : Prop := 0 <= x < DB.
Definition b2z (b : bool) : Z := if b then 1 else 0.

(** ** What both versions share *)

(** Sum and carry. *)
Definition DSUM (a b : Z) : Z * Z := let x := wrapu 64 (b + a) in (x, b2z (x <? b)).
(** [DSUBb(a,b,r,d)]: difference and borrow. *)
Definition DSUBb (a b r : Z) : Z * Z :=
  let cr := r in
  let yr := wrapu 64 (b + cr) in
  let cr := b2z (yr <? cr) in
  let yr := wrapu 64 (a - yr) in
  let cr := cr + b2z (a <? yr) in
  (yr, cr).
Definition DSUB (a b : Z) : Z * Z := let yr := wrapu 64 (a - b) in (yr, b2z (a <? yr)).

(** ** What differs *)

Class DigitMacros := {
  DSUMc : Z -> Z -> Z -> Z * Z;             (* [a + b + c]: sum and carry *)
  DMULc : Z -> Z -> Z -> Z * Z;             (* [a * b + c]: low digit and high digit *)
  DMUL : Z -> Z -> Z * Z;                   (* [a * b]: low digit and high digit *)
  DDIV : Z -> Z -> Z -> option Z;           (* a quotient of two digits by one *)
  DDIV2 : Z -> Z -> Z -> Z -> option Z      (* a quotient of two digits by two *)
}.

(** The quotient by two digits may be too small by one, but not 0. *)
Class DigitLaws (M : DigitMacros) : Prop := {
  DSUMc_ok a b c : digit a -> digit b -> 0 <= c <= 1 ->
    exists s c', DSUMc a b c = (s, c') /\ digit s /\ 0 <= c' <= 1 /\ s + DB * c' = a + b + c;
  DMULc_ok a b c : digit a -> digit b -> digit c ->
    exists p c', DMULc a b c = (p, c') /\ digit p /\ digit c' /\ p + DB * c' = a * b + c;
  DMUL_ok a b : digit a -> digit b ->
    exists p c', DMUL a b = (p, c') /\ digit p /\ digit c' /\ p + DB * c' = a * b;
  DDIV_ok a1 a0 b : digit a1 -> digit a0 -> digit b -> a1 < b -> DDIV a1 a0 b = Some ((DB * a1 + a0) / b);
  DDIV2_ok a1 a0 b1 b0 : digit a1 -> digit a0 -> digit b1 -> digit b0 -> 1 <= b1 < a1 ->
    exists q, DDIV2 a1 a0 b1 b0 = Some q /\ 1 <= q < DB /\
      q * (DB * b1 + b0) <= DB * a1 + a0 /\ DB * a1 + a0 <= (q + 1) * (DB * b1 + b0)
}.

(** *** With an [ErtsDoubleDigit] of 128 bits *)

Definition DLOW (x : Z) : Z := wrapu 64 x.
Definition DHIGH (x : Z) : Z := wrapu 64 (Z.shiftr x D_EXP).
Definition DLOW2HIGH (x : Z) : Z := wrapu 128 (Z.shiftl x D_EXP).
Definition DDIGIT (a1 a0 : Z) : Z := wrapu 128 (DLOW2HIGH a1 + a0).

#[export] Instance double_digit : DigitMacros := {
  DSUMc a b c := let t := wrapu 128 (a + b + c) in (DLOW t, DHIGH t);
  DMULc a b c := let t := wrapu 128 (a * b + c) in (DLOW t, DHIGH t);
  DMUL a b := let t := wrapu 128 (a * b) in (DLOW t, DHIGH t);
  DDIV a1 a0 b := Some (wrapu 64 (DDIGIT a1 a0 / b));
  DDIV2 a1 a0 b1 b0 := Some (wrapu 64 (DDIGIT a1 a0 / DDIGIT b1 b0))
}.

(** *** With half digits *)

Definition D2GT (a1 a0 b1 b0 : Z) : bool := (b1 <? a1) || ((a1 =? b1) && (b0 <? a0)).
Definition D2LT (a1 a0 b1 b0 : Z) : bool := D2GT b1 b0 a1 a0.
Definition D2GTE (a1 a0 b1 b0 : Z) : bool := negb (D2LT a1 a0 b1 b0).
(** The two digits, high one first. *)
Definition D2SUB (a1 a0 b1 b0 : Z) : Z * Z :=
  let '(c0, bi) := DSUB a0 b0 in let '(c1, _) := DSUBb a1 b1 bi in (c1, c0).

(** [DMULc(a,b,d1,d0)]: [d0] and [d1]. *)
Definition DMULc_half (a b d1 : Z) : Z * Z :=
  let a0 := wrapu 32 a in
  let a1 := wrapu 32 (Z.shiftr a H_EXP) in
  let b0 := wrapu 32 b in
  let b1 := wrapu 32 (Z.shiftr b H_EXP) in
  let a0b0 := wrapu 64 (a0 * b0) in
  let a0b1 := wrapu 64 (a0 * b1) in
  let a1b0 := wrapu 64 (a1 * b0) in
  let a1b1 := wrapu 64 (a1 * b1) in
  let '(p0, c0) := DSUM a0b0 d1 in
  let '(p1, p2) := DSUM (wrapu 64 (Z.shiftl c0 H_EXP)) (Z.shiftr p0 H_EXP) in
  let '(p1, c0) := DSUM p1 a0b1 in
  let p2 := wrapu 64 (p2 + c0) in
  let '(p1, c0) := DSUM p1 a1b0 in
  let p2 := wrapu 64 (p2 + c0) in
  let '(p1, c0) := DSUM p1 (wrapu 64 (Z.shiftl a1b1 H_EXP)) in
  let p2 := wrapu 64 (p2 + c0) in
  let '(p2, _) := DSUM a1b1 (wrapu 64 (Z.shiftl p2 H_EXP)) in
  (Z.lor (wrapu 64 (Z.shiftl p1 H_EXP)) (Z.land p0 LO_MASK), Z.lor (Z.land p2 HI_MASK) (Z.shiftr p1 H_EXP)).

Definition DSUMc_half (a b c : Z) : Z * Z :=
  let cr := c in
  let xr := wrapu 64 (a + cr) in
  let yr := b in
  let cr := b2z (xr <? cr) in
  let xr := wrapu 64 (yr + xr) in
  let cr := cr + b2z (xr <? yr) in
  (xr, cr).

(** The number of zero bits in front. *)
Definition D2PF (a : Z) : Z :=
  let step lim k '(x, s) := if x <=? lim then (wrapu 64 (Z.shiftl x k), s + k) else (x, s) in
  let st := step 0x00000000FFFFFFFF 32 (a, 0) in
  let st := step 0x0000FFFFFFFFFFFF 16 st in
  let st := step 0x00FFFFFFFFFFFFFF 8 st in
  let st := step 0x0FFFFFFFFFFFFFFF 4 st in
  let '(x, s) := step 0x3FFFFFFFFFFFFFFF 2 st in
  if x <=? 0x7FFFFFFFFFFFFFFF then s + 1 else s.

(** [while ((q >= (1<<H_EXP)) || (q*vn0 > (rh<<H_EXP)+un)) {...}]: [q]. *)
Fixpoint correct_q (fuel : nat) (q rh vn1 vn0 un : Z) : option Z :=
  match fuel with
  | O => None
  | S fuel =>
      if (HB <=? q) || (wrapu 64 (wrapu 64 (Z.shiftl rh H_EXP) + un) <? wrapu 64 (q * vn0)) then
        let q := wrapu 64 (q - 1) in
        let rh := wrapu 64 (rh + vn1) in
        if HB <=? rh then Some q else correct_q fuel q rh vn1 vn0 un
      else Some q
  end.

(** [q] and [r] *)
Definition DDIVREM (a1 a0 b : Z) : option (Z * Z) :=
  let s := D2PF b in
  let b := wrapu 64 (Z.shiftl b s) in
  let vn1 := wrapu 32 (Z.shiftr b H_EXP) in
  let vn0 := wrapu 32 (Z.land b LO_MASK) in
  let un32 := if negb (s =? 0)
              then Z.lor (wrapu 64 (Z.shiftl a1 s)) (Z.land (Z.shiftr a0 (D_EXP - s)) (wrapu 64 (Z.shiftr (- s) (D_EXP - 1))))
              else a1 in
  let un10 := wrapu 64 (Z.shiftl a0 s) in
  let un1 := wrapu 32 (Z.shiftr un10 H_EXP) in
  let un0 := wrapu 32 (Z.land un10 LO_MASK) in
  let q1 := un32 / vn1 in
  let rh := wrapu 64 (un32 - wrapu 64 (q1 * vn1)) in
  q1 ← correct_q 3 q1 rh vn1 vn0 un1;
  let un21 := wrapu 64 (wrapu 64 (wrapu 64 (Z.shiftl un32 H_EXP) + un1) - wrapu 64 (q1 * b)) in
  let q0 := un21 / vn1 in
  let rh := wrapu 64 (un21 - wrapu 64 (q0 * vn1)) in
  q0 ← correct_q 3 q0 rh vn1 vn0 un0;
  Some (wrapu 64 (wrapu 64 (Z.shiftl q1 H_EXP) + q0),
        Z.shiftr (wrapu 64 (wrapu 64 (wrapu 64 (Z.shiftl un21 H_EXP) + un0) - wrapu 64 (q0 * b))) s).

Definition QUOT_LIM : Z := 0x7FFFFFFFFFFFFFFF.
(** The loop of [D2DIVREM]: [_q], [_as] and the two digits of [_a]. *)
Fixpoint d2div_loop (fuel : nat) (a1 a0 b1 b0 q as_ : Z) : option (Z * Z * Z * Z) :=
  match fuel with
  | O => None
  | S fuel =>
      if D2GTE a1 a0 b1 b0 then
        let q1 := if (b1 =? 1) && (1 <? a1) then a1 / 2
                  else if (QUOT_LIM <? a1) && (b1 <? a1) then a1 / wrapu 64 (b1 + 1)
                  else a1 / b1 in
        let q := wrapu 64 (if as_ <? 0 then q - q1 else q + q1) in
        let '(t0, t2) := DMULc_half q1 b0 0 in
        let '(t1, t2) := DMULc_half q1 b1 t2 in
        if D2GT t1 t0 a1 a0
        then let '(a1, a0) := D2SUB t1 t0 a1 a0 in d2div_loop fuel a1 a0 b1 b0 q (- as_)
        else let '(a1, a0) := D2SUB a1 a0 t1 t0 in d2div_loop fuel a1 a0 b1 b0 q as_
      else Some (q, as_, a1, a0)
  end.
(** [q0], [r1] and [r0] *)
Definition D2DIVREM (a1 a0 b1 b0 : Z) : option (Z * Z * Z) :=
  '(q, as_, a1, a0) ← d2div_loop 400 a1 a0 b1 b0 0 1;
  Some (if as_ <? 0 then let '(r1, r0) := D2SUB b1 b0 a1 a0 in (wrapu 64 (q - 1), r1, r0) else (q, a1, a0)).

#[export] Instance half_digit : DigitMacros | 10 := {
  DSUMc := DSUMc_half;
  DMULc := DMULc_half;
  DMUL a b := DMULc_half a b 0;
  DDIV a1 a0 b := fst <$> DDIVREM a1 a0 b;
  DDIV2 a1 a0 b1 b0 := '(q, _, _) ← D2DIVREM a1 a0 b1 b0; Some q
}.

(** ** The laws: double digits *)

Lemma wrapu64_digit x : digit (wrapu 64 x).
Proof. apply (Z.mod_pos_bound x (2 ^ 64)). lia. Qed.
Lemma wrapu64_small x : digit x -> wrapu 64 x = x.
Proof. intros Hx. by apply wrapu_small. Qed.
Lemma b2z_range b : 0 <= b2z b <= 1.
Proof. destruct b; cbn; lia. Qed.

Lemma low_high t : 0 <= t < DB * DB -> digit (DLOW (wrapu 128 t)) /\ digit (DHIGH (wrapu 128 t)) /\ DLOW (wrapu 128 t) + DB * DHIGH (wrapu 128 t) = t.
Proof.
  intros Ht. rewrite (wrapu_small 128) by (unfold in_u; lia). unfold DLOW, DHIGH. split; [apply wrapu64_digit|]. split; [apply wrapu64_digit|].
  change D_EXP with 64. rewrite Z.shiftr_div_pow2 by lia. change (2 ^ 64) with DB.
  rewrite (wrapu64_small (t / DB)) by (unfold digit; split; [apply Z.div_pos; lia|apply Z.div_lt_upper_bound; lia]).
  unfold wrapu. change (2 ^ 64) with DB. pose proof (Z.div_mod t DB). lia.
Qed.

Lemma DDIGIT_value a1 a0 : digit a1 -> digit a0 -> DDIGIT a1 a0 = DB * a1 + a0.
Proof.
  unfold digit. intros H1 H0. unfold DDIGIT, DLOW2HIGH. change D_EXP with 64. rewrite Z.shiftl_mul_pow2 by lia.
  rewrite !(wrapu_small 128) by (unfold in_u; rewrite ?(wrapu_small 128) by (unfold in_u; lia); lia). lia.
Qed.

Lemma digit_product a b : digit a -> digit b -> 0 <= a * b <= DB * DB - 2 * DB + 1.
Proof. unfold digit. intros Ha Hb. nia. Qed.

#[export] Instance double_digit_laws : DigitLaws double_digit.
Proof.
  split; unfold digit.
  - intros a b c Ha Hb Hc. destruct (low_high (a + b + c)) as (H1 & H2 & H3); [lia|]. eexists _, _. split; [reflexivity|]. unfold digit in *. lia.
  - intros a b c Ha Hb Hc. pose proof (digit_product a b Ha Hb). destruct (low_high (a * b + c)) as (H1 & H2 & H3); [lia|]. eexists _, _. split; [reflexivity|]. unfold digit in *. lia.
  - intros a b Ha Hb. pose proof (digit_product a b Ha Hb). destruct (low_high (a * b)) as (H1 & H2 & H3); [lia|]. eexists _, _. split; [reflexivity|]. unfold digit in *. lia.
  - intros a1 a0 b Ha1 Ha0 Hb Hlt. cbn [DDIV double_digit]. rewrite DDIGIT_value by done. f_equal. apply wrapu64_small.
    split; [apply Z.div_pos; lia|]. apply Z.div_lt_upper_bound; nia.
  - intros a1 a0 b1 b0 Ha1 Ha0 Hb1 Hb0 Hb. cbn [DDIV2 double_digit]. rewrite !DDIGIT_value by done. set (b := DB * b1 + b0). set (a := DB * a1 + a0).
    assert (b <= a) by (unfold a, b; lia). assert (0 < b) by (unfold b; lia).
    pose proof (Z.div_le_lower_bound a b 1 ltac:(lia) ltac:(lia)). pose proof (Z.mul_div_le a b ltac:(lia)).
    pose proof (Z.mul_succ_div_gt a b ltac:(lia)). assert (a / b < DB) by (apply Z.div_lt_upper_bound; [lia|]; unfold a, b; nia).
    rewrite wrapu64_small by (unfold digit; lia). eexists. split; [reflexivity|]. lia.
Qed.

(** ** Sums and differences *)

(** [wrapu 64] of something that is off by one period at most. *)
Lemma wrapu64_cases x : - DB <= x < 2 * DB ->
  wrapu 64 x = if x <? 0 then x + DB else if x <? DB then x else x - DB.
Proof.
  intros Hx. unfold wrapu. change (2 ^ 64) with DB. destruct (Z.ltb_spec x 0); [|destruct (Z.ltb_spec x DB)].
  - symmetry. apply (Z.mod_unique_pos x DB (-1)); lia.
  - apply Z.mod_small. lia.
  - symmetry. apply (Z.mod_unique_pos x DB 1); lia.
Qed.

Lemma DSUM_ok a b : digit a -> digit b -> exists s c, DSUM a b = (s, c) /\ digit s /\ 0 <= c <= 1 /\ s + DB * c = a + b.
Proof.
  unfold digit, DSUM. intros Ha Hb. eexists _, _. split; [reflexivity|]. pose proof (b2z_range (wrapu 64 (b + a) <? b)).
  rewrite (wrapu64_cases (b + a)) in * by lia. replace (b + a <? 0) with false in * by lia. unfold b2z in *.
  destruct (Z.ltb_spec (b + a) DB); [destruct (Z.ltb_spec (b + a) b)|destruct (Z.ltb_spec (b + a - DB) b)]; lia.
Qed.

Lemma DSUBb_ok a b r : digit a -> digit b -> 0 <= r <= 1 ->
  exists d r', DSUBb a b r = (d, r') /\ digit d /\ 0 <= r' <= 1 /\ d - DB * r' = a - b - r.
Proof.
  unfold digit, DSUBb. intros Ha Hb Hr. eexists _, _. split; [reflexivity|]. unfold b2z.
  rewrite (wrapu64_cases (b + r)) by lia. replace (b + r <? 0) with false by lia. destruct (Z.ltb_spec (b + r) DB).
  - rewrite (wrapu64_cases (a - (b + r))) by lia. destruct (Z.ltb_spec (a - (b + r)) 0).
    + destruct (Z.ltb_spec (b + r) r); destruct (Z.ltb_spec a (a - (b + r) + DB)); lia.
    + replace (a - (b + r) <? DB) with true by lia. destruct (Z.ltb_spec (b + r) r); destruct (Z.ltb_spec a (a - (b + r))); lia.
  - replace (b + r - DB) with 0 by lia. rewrite wrapu64_cases by lia. replace (a - 0 <? 0) with false by lia. replace (a - 0 <? DB) with true by lia.
    destruct (Z.ltb_spec 0 r); destruct (Z.ltb_spec a (a - 0)); lia.
Qed.

Lemma DSUB_ok a b : digit a -> digit b -> exists d r', DSUB a b = (d, r') /\ digit d /\ 0 <= r' <= 1 /\ d - DB * r' = a - b.
Proof.
  unfold digit, DSUB. intros Ha Hb. eexists _, _. split; [reflexivity|]. unfold b2z. rewrite (wrapu64_cases (a - b)) by lia.
  destruct (Z.ltb_spec (a - b) 0); [|replace (a - b <? DB) with true by lia]; [destruct (Z.ltb_spec a (a - b + DB))|destruct (Z.ltb_spec a (a - b))]; lia.
Qed.

Lemma DSUMc_half_ok a b c : digit a -> digit b -> 0 <= c <= 1 ->
  exists s c', DSUMc_half a b c = (s, c') /\ digit s /\ 0 <= c' <= 1 /\ s + DB * c' = a + b + c.
Proof.
  unfold digit, DSUMc_half. intros Ha Hb Hc. eexists _, _. split; [reflexivity|]. unfold b2z.
  rewrite (wrapu64_cases (a + c)) by lia. replace (a + c <? 0) with false by lia. destruct (Z.ltb_spec (a + c) DB).
  - rewrite (wrapu64_cases (b + (a + c))) by lia. replace (b + (a + c) <? 0) with false by lia. destruct (Z.ltb_spec (b + (a + c)) DB).
    + destruct (Z.ltb_spec (a + c) c); destruct (Z.ltb_spec (b + (a + c)) b); lia.
    + destruct (Z.ltb_spec (a + c) c); destruct (Z.ltb_spec (b + (a + c) - DB) b); lia.
  - replace (a + c - DB) with 0 by lia. rewrite (wrapu64_cases (b + 0)) by lia. replace (b + 0 <? 0) with false by lia. replace (b + 0 <? DB) with true by lia.
    destruct (Z.ltb_spec 0 c); destruct (Z.ltb_spec (b + 0) b); lia.
Qed.

(** ** The product of half digits *)

Lemma half_shiftr x : Z.shiftr x H_EXP = x / HB.
Proof. change H_EXP with 32. by rewrite Z.shiftr_div_pow2. Qed.
Lemma half_shiftl x : Z.shiftl x H_EXP = x * HB.
Proof. change H_EXP with 32. by rewrite Z.shiftl_mul_pow2. Qed.
Lemma half_low x : Z.land x LO_MASK = x mod HB.
Proof. change LO_MASK with (Z.ones 32). by rewrite Z.land_ones. Qed.
Lemma half_high x : digit x -> Z.land x HI_MASK = x / HB * HB.
Proof.
  unfold digit. intros Hx. apply Z.bits_inj'. intros n Hn. rewrite Z.land_spec. change HB with (2 ^ 32). rewrite <- Z.shiftl_mul_pow2, <- Z.shiftr_div_pow2 by lia.
  rewrite Z.shiftl_spec by lia. destruct (Z.ltb_spec n 32).
  - rewrite (Z.testbit_neg_r _ (n - 32)) by lia. change HI_MASK with (Z.shiftl (Z.ones 32) 32). rewrite Z.shiftl_spec, (Z.testbit_neg_r _ (n - 32)) by lia. apply andb_false_r.
  - rewrite Z.shiftr_spec by lia. replace (n - 32 + 32) with n by lia. change HI_MASK with (Z.shiftl (Z.ones 32) 32). rewrite Z.shiftl_spec by lia.
    destruct (Z.ltb_spec n 64); [rewrite Z.ones_spec_low by lia; apply andb_true_r|].
    replace (Z.testbit x n) with false; [done|]. symmetry. rewrite <- (Z.mod_small x (2 ^ 64)) by lia. apply Z.mod_pow2_bits_high. lia.
Qed.
Lemma wrapu32_mod x : wrapu 32 x = x mod HB.
Proof. done. Qed.
(** A shifted number joined with a half digit. *)
Lemma half_lor x y : 0 <= y < HB -> Z.lor (x * HB) y = x * HB + y.
Proof. intros Hy. change HB with (2 ^ 32). rewrite <- Z.shiftl_mul_pow2 by lia. rewrite lor_shiftl_add by lia. rewrite Z.shiftl_mul_pow2; lia. Qed.

Lemma digit_halves x : digit x -> exists x1 x0, x = HB * x1 + x0 /\ 0 <= x1 < HB /\ 0 <= x0 < HB /\ x / HB = x1 /\ x mod HB = x0.
Proof.
  unfold digit. intros Hx. exists (x / HB), (x mod HB). pose proof (Z.mod_pos_bound x HB). pose proof (Z.div_mod x HB).
  split; [lia|]. split; [split; [apply Z.div_pos|apply Z.div_lt_upper_bound]; lia|]. lia.
Qed.

Lemma half_product a b : 0 <= a < HB -> 0 <= b < HB -> 0 <= a * b <= (HB - 1) * (HB - 1).
Proof. intros. nia. Qed.
Lemma wrapu64_half x : wrapu 64 (x * HB) = x mod HB * HB.
Proof. unfold wrapu. change (2 ^ 64) with (HB * HB). by rewrite Z.mul_mod_distr_r by lia. Qed.

Lemma DMULc_half_ok a b c : digit a -> digit b -> digit c ->
  exists p c', DMULc_half a b c = (p, c') /\ digit p /\ digit c' /\ p + DB * c' = a * b + c.
Proof.
  intros Ha Hb Hc. pose proof (digit_product a b Ha Hb) as Hab. unfold DMULc_half. cbv zeta. rewrite !half_shiftr, !half_shiftl, !wrapu32_mod.
  destruct (digit_halves a Ha) as (a1 & a0 & Ea & Ha1 & Ha0 & -> & ->). destruct (digit_halves b Hb) as (b1 & b0 & Eb & Hb1 & Hb0 & -> & ->).
  rewrite (Z.mod_small a1), (Z.mod_small b1) by lia.
  assert (Eab : a * b = a0 * b0 + HB * (a0 * b1) + HB * (a1 * b0) + DB * (a1 * b1)) by (subst a b; ring).
  pose proof (half_product a0 b0 Ha0 Hb0). pose proof (half_product a0 b1 Ha0 Hb1). pose proof (half_product a1 b0 Ha1 Hb0). pose proof (half_product a1 b1 Ha1 Hb1).
  rewrite (wrapu64_small (a0 * b0)), (wrapu64_small (a0 * b1)), (wrapu64_small (a1 * b0)), (wrapu64_small (a1 * b1)) by (unfold digit; lia).
  set (p := a0 * b0) in *. set (q := a0 * b1) in *. set (r := a1 * b0) in *. set (s := a1 * b1) in *. clearbody p q r s. clear Ea Eb Ha1 Ha0 Hb1 Hb0.
  destruct (DSUM_ok p c) as (p0 & c0 & -> & Hp0 & Hc0 & E0); [unfold digit in *; lia..|]. cbn iota beta.
  destruct (digit_halves p0 Hp0) as (p0h & p0l & Ep0 & Hp0h & Hp0l & E0h & E0l). rewrite ?E0h.
  rewrite half_shiftl, half_shiftr, E0h. rewrite (wrapu64_small (c0 * HB)) by (unfold digit; lia).
  destruct (DSUM_ok (c0 * HB) p0h) as (p1 & p2 & -> & Hp1 & Hp2 & E1); [unfold digit; lia..|]. cbn iota beta.
  destruct (DSUM_ok p1 q) as (p1a & k1 & -> & Hp1a & Hk1 & E2); [unfold digit in *; lia..|]. cbn iota beta.
  destruct (DSUM_ok p1a r) as (p1b & k2 & -> & Hp1b & Hk2 & E3); [unfold digit in *; lia..|]. cbn iota beta.
  destruct (digit_halves s) as (sh & sl & Es & Hsh & Hsl & Eh & El); [unfold digit; lia|]. rewrite wrapu64_half, El.
  destruct (DSUM_ok p1b (sl * HB)) as (p1c & k3 & -> & Hp1c & Hk3 & E4); [unfold digit in *; lia..|]. cbn iota beta.
  unfold digit in *. rewrite (wrapu64_small (p2 + k1)), (wrapu64_small (p2 + k1 + k2)), (wrapu64_small (p2 + k1 + k2 + k3)) by (unfold digit; lia).
  set (k := p2 + k1 + k2 + k3) in *.
  assert (Et : a * b + c = p0l + HB * (p1c + DB * (k + sh))) by (unfold k; lia).
  assert (Hk : k + sh < HB) by lia. assert (0 <= k) by (unfold k; lia). rewrite half_shiftl.
  rewrite (wrapu64_small (k * HB)) by (unfold digit; lia).
  destruct (DSUM_ok s (k * HB)) as (p2' & c2 & -> & Hp2' & Hc2 & E5); [unfold digit; lia..|]. cbn iota beta.
  rewrite half_low, E0l, half_shiftl, half_shiftr, half_high by done. rewrite wrapu64_half.
  destruct (digit_halves p1c Hp1c) as (ph & pl & Ep & Hph & Hpl & -> & ->). rewrite !half_lor by lia.
  replace (p2' / HB) with (sh + k) by (apply Z.div_unique with sl; unfold digit in *; lia).
  eexists _, _. split; [reflexivity|]. lia.
Qed.

(** ** The quotient by one digit *)

(** One of the tests of [D2PF], for a number whose highest bit is not below [64 - 2 * k]. *)
Lemma D2PF_step b x s k lim : x = b * 2 ^ s -> 0 <= s -> 0 < k <= 32 -> lim = 2 ^ (64 - k) - 1 -> 2 ^ (64 - 2 * k) <= x < DB ->
  exists x' s', (if x <=? lim then (wrapu 64 (Z.shiftl x k), s + k) else (x, s)) = (x', s') /\
    x' = b * 2 ^ s' /\ s <= s' <= s + k /\ 2 ^ (64 - k) <= x' < DB.
Proof.
  intros Ex Hs Hk -> Hx. rewrite Z.shiftl_mul_pow2 by lia.
  assert (2 ^ (64 - k) * 2 ^ k = DB) as E1 by (rewrite <- Z.pow_add_r by lia; replace (64 - k + k) with 64 by lia; done).
  assert (2 ^ (64 - 2 * k) * 2 ^ k = 2 ^ (64 - k)) as E2 by (rewrite <- Z.pow_add_r by lia; f_equal; lia).
  destruct (Z.leb_spec x (2 ^ (64 - k) - 1)).
  - assert (0 < 2 ^ k) by (apply Z.pow_pos_nonneg; lia). rewrite wrapu64_small by (unfold digit; nia).
    eexists _, _. split; [reflexivity|]. split; [rewrite Z.pow_add_r by lia; subst x; ring|]. split; [lia|]. nia.
  - eexists _, _. split; [reflexivity|]. split; [done|]. lia.
Qed.

Lemma D2PF_ok b : 0 < b < DB -> 0 <= D2PF b < 64 /\ DB <= 2 * (b * 2 ^ D2PF b) < 2 * DB.
Proof.
  intros Hb. unfold D2PF. cbv beta zeta.
  destruct (D2PF_step b b 0 32 0x00000000FFFFFFFF) as (x1 & s1 & -> & E1 & H1 & R1); [lia|lia|lia|done|lia|].
  destruct (D2PF_step b x1 s1 16 0x0000FFFFFFFFFFFF) as (x2 & s2 & -> & E2 & H2 & R2); [done|lia|lia|done|done|].
  destruct (D2PF_step b x2 s2 8 0x00FFFFFFFFFFFFFF) as (x3 & s3 & -> & E3 & H3 & R3); [done|lia|lia|done|done|].
  destruct (D2PF_step b x3 s3 4 0x0FFFFFFFFFFFFFFF) as (x4 & s4 & -> & E4 & H4 & R4); [done|lia|lia|done|done|].
  destruct (D2PF_step b x4 s4 2 0x3FFFFFFFFFFFFFFF) as (x5 & s5 & -> & E5 & H5 & R5); [done|lia|lia|done|done|].
  change (2 ^ (64 - 2)) with 4611686018427387904 in R5.
  destruct (Z.leb_spec x5 0x7FFFFFFFFFFFFFFF).
  - rewrite Z.pow_add_r by lia. change (2 ^ 1) with 2. lia.
  - lia.
Qed.

(** The loop finds the quotient of [HB * u + w] by [v] from any estimate that is not too
    small. *)
Lemma correct_q_loop u w v1 v0 fuel : let v := HB * v1 + v0 in
  0 < v1 < HB -> 0 <= v0 < HB -> 0 <= u < v -> 0 <= w < HB ->
  forall q rh, rh = u - q * v1 -> 0 <= rh < HB -> (HB * u + w) / v <= q <= HB + 1 -> HB <= rh + Z.of_nat fuel * v1 ->
  correct_q (S fuel) q rh v1 v0 w = Some ((HB * u + w) / v).
Proof.
  intros v Hv1 Hv0 Hu Hw. set (Q := (HB * u + w) / v).
  assert (v * Q <= HB * u + w) as HQ1 by (apply Z.mul_div_le; lia). assert (HB * u + w < v * (Q + 1)) as HQ2 by (apply (Z.mul_succ_div_gt (HB * u + w) v); lia).
  assert (0 <= Q < HB) as HQ by (split; [apply Z.div_pos; lia|apply Z.div_lt_upper_bound; lia]). clearbody Q.
  induction fuel as [|fuel IH]; intros q rh Erh Hrh Hq Hf; [lia|].
  change (correct_q (S (S fuel)) q rh v1 v0 w) with
    (if (HB <=? q) || (wrapu 64 (wrapu 64 (Z.shiftl rh H_EXP) + w) <? wrapu 64 (q * v0)) then
       if HB <=? wrapu 64 (rh + v1) then Some (wrapu 64 (q - 1)) else correct_q (S fuel) (wrapu 64 (q - 1)) (wrapu 64 (rh + v1)) v1 v0 w
     else Some q).
  rewrite half_shiftl. rewrite (wrapu64_small (rh * HB)) by (unfold digit; lia). rewrite (wrapu64_small (rh * HB + w)) by (unfold digit; lia).
  assert (0 <= q * v0 <= (HB + 1) * (HB - 1)) by (split; [apply Z.mul_nonneg_nonneg|apply Z.mul_le_mono_nonneg]; lia).
  rewrite (wrapu64_small (q * v0)) by (unfold digit; lia). rewrite (wrapu64_small (rh + v1)) by (unfold digit; lia).
  assert (q * v = HB * u - HB * rh + q * v0) as Eqv by (unfold v; subst rh; ring).
  destruct ((HB <=? q) || (rh * HB + w <? q * v0)) eqn:Ec.
  - assert (Q < q) as Hlt. { apply orb_true_iff in Ec as [Ec|Ec]; [lia|]. apply (Z.mul_lt_mono_pos_r v); lia. }
    rewrite (wrapu64_small (q - 1)) by (unfold digit; lia). destruct (Z.leb_spec HB (rh + v1)).
    + f_equal. assert ((q - 1) * v0 <= HB * (HB - 1)) by (apply Z.mul_le_mono_nonneg; lia).
      assert ((q - 1) * v = HB * u - HB * (rh + v1) + (q - 1) * v0) by (unfold v; subst rh; ring). assert (q - 1 < Q + 1); [|lia]. apply (Z.mul_lt_mono_pos_r v); lia.
    + apply IH; lia.
  - apply orb_false_iff in Ec as [Ec1 Ec2]. f_equal. assert (q < Q + 1); [|lia]. apply (Z.mul_lt_mono_pos_r v); lia.
Qed.

Lemma correct_q_ok u w v1 v0 : let v := HB * v1 + v0 in
  HB <= 2 * v1 -> 0 <= v1 < HB -> 0 <= v0 < HB -> 0 <= u < v -> 0 <= w < HB ->
  correct_q 3 (u / v1) (wrapu 64 (u - wrapu 64 (u / v1 * v1))) v1 v0 w = Some ((HB * u + w) / v).
Proof.
  intros v Hn Hv1 Hv0 Hu Hw. pose proof (Z.mul_div_le u v1 ltac:(lia)) as Hq1. pose proof (Z.mul_succ_div_gt u v1 ltac:(lia)) as Hq2.
  assert (0 <= u / v1) as Hq0 by (apply Z.div_pos; lia). set (q := u / v1) in *. clearbody q. assert (q <= HB + 1) as Hq3 by (unfold v in *; nia).
  rewrite (wrapu64_small (q * v1)) by (unfold digit, v in *; nia). rewrite (wrapu64_small (u - q * v1)) by (unfold digit, v in *; nia).
  apply correct_q_loop; try lia. split; [|lia]. apply Z.lt_succ_r, Z.div_lt_upper_bound; nia.
Qed.

Lemma wrapu64_expr x y z : wrapu 64 (wrapu 64 (wrapu 64 x + y) - wrapu 64 z) = wrapu 64 (x + y - z).
Proof. unfold wrapu. by rewrite Zminus_mod_idemp_r, Zminus_mod_idemp_l, <- Z.add_sub_assoc, Zplus_mod_idemp_l, Z.add_sub_assoc. Qed.

(** Dividend and divisor are shifted until the divisor has its highest bit set. *)
Lemma shifted_high a1 a0 s b : digit a0 -> 0 <= a1 < b -> 0 <= s < 64 -> b * 2 ^ s < DB ->
  (if negb (s =? 0)
   then Z.lor (wrapu 64 (Z.shiftl a1 s)) (Z.land (Z.shiftr a0 (D_EXP - s)) (wrapu 64 (Z.shiftr (- s) (D_EXP - 1))))
   else a1) = a1 * 2 ^ s + a0 * 2 ^ s / DB.
Proof.
  unfold digit. intros H0 H1 Hs Hb. change (D_EXP - 1) with 63. change D_EXP with 64. destruct (Z.eqb_spec s 0) as [->|Hne]; cbn [negb].
  { change (2 ^ 0) with 1. rewrite !Z.mul_1_r, (Z.div_small a0) by lia. lia. }
  assert (Z.shiftr (- s) 63 = -1) as ->.
  { rewrite Z.shiftr_div_pow2 by lia. symmetry. apply Z.div_unique with (2 ^ 63 - s); lia. }
  change (wrapu 64 (-1)) with (Z.ones 64). assert (0 < 2 ^ s) by (apply Z.pow_pos_nonneg; lia).
  assert (2 ^ s * 2 ^ (64 - s) = DB) as E by (rewrite <- Z.pow_add_r by lia; replace (s + (64 - s)) with 64 by lia; done).
  assert (0 < 2 ^ (64 - s)) by (apply Z.pow_pos_nonneg; lia).
  assert (a0 * 2 ^ s / DB = a0 / 2 ^ (64 - s)) as ->.
  { rewrite <- E, (Z.mul_comm (2 ^ s) (2 ^ (64 - s))). apply Z.div_mul_cancel_r; lia. }
  rewrite Z.shiftr_div_pow2 by lia. assert (0 <= a0 / 2 ^ (64 - s) < 2 ^ s) by (split; [apply Z.div_pos; lia|apply Z.div_lt_upper_bound; lia]).
  assert (2 ^ s <= DB) by nia.
  rewrite Z.land_ones, (Z.mod_small (a0 / _)) by lia. rewrite Z.shiftl_mul_pow2, wrapu64_small by (unfold digit; nia || lia).
  rewrite <- (Z.shiftl_mul_pow2 a1) by lia. rewrite lor_shiftl_add by lia. by rewrite Z.shiftl_mul_pow2 by lia.
Qed.

Lemma DDIVREM_ok a1 a0 b : digit a1 -> digit a0 -> digit b -> a1 < b ->
  DDIVREM a1 a0 b = Some ((DB * a1 + a0) / b, (DB * a1 + a0) mod b).
Proof.
  unfold digit. intros Ha1 Ha0 Hb Hlt. destruct (D2PF_ok b) as [Hs Hn]; [lia|]. unfold DDIVREM. cbv zeta. set (s := D2PF b) in *. clearbody s.
  rewrite (shifted_high a1 a0 s b) by (done || lia). rewrite !half_shiftr, !half_shiftl, !half_low, !wrapu32_mod, !Z.shiftl_mul_pow2 by lia.
  assert (0 < 2 ^ s) as HP by (apply Z.pow_pos_nonneg; lia). set (P := 2 ^ s) in *.
  rewrite !Z.mod_mod by lia. rewrite (wrapu64_small (b * P)) by (unfold digit; lia). set (v := b * P) in *.
  destruct (digit_halves v) as (v1 & v0 & Ev & Hv1 & Hv0 & -> & ->); [unfold digit; lia|]. rewrite (Z.mod_small v1) by lia.
  set (u := a1 * P + a0 * P / DB). set (lo := wrapu 64 (a0 * P)).
  assert (DB * u + lo = (DB * a1 + a0) * P) as EA.
  { unfold u, lo, wrapu. change (2 ^ 64) with DB. pose proof (Z.div_mod (a0 * P) DB). lia. }
  destruct (digit_halves lo) as (w1 & w0 & Elo & Hw1 & Hw0 & -> & ->); [apply wrapu64_digit|]. rewrite (Z.mod_small w1) by lia.
  assert (0 <= u) as Hu0 by (unfold u; pose proof (Z.div_pos (a0 * P) DB); nia). clearbody u lo.
  assert (0 <= u < v) as Hu. { split; [done|]. assert ((DB * a1 + a0) * P <= (DB * b - 1) * P) by (apply Z.mul_le_mono_nonneg_r; lia). unfold v. lia. }
  pose proof (correct_q_ok u w1 v1 v0 ltac:(lia) Hv1 Hv0 ltac:(lia) Hw1) as C1. rewrite <- Ev in C1. rewrite C1. cbn [mbind option_bind]. clear C1.
  rewrite wrapu64_expr. set (q1 := (HB * u + w1) / v). pose proof (Z.div_mod (HB * u + w1) v ltac:(lia)) as D1. pose proof (Z.mod_pos_bound (HB * u + w1) v ltac:(lia)) as R1.
  fold q1 in D1. set (u2 := (HB * u + w1) mod v) in *. replace (u * HB + w1 - q1 * v) with u2 by lia. rewrite (wrapu64_small u2) by (unfold digit; lia).
  assert (0 <= q1 < HB) as Hq1 by (split; [apply Z.div_pos; lia|apply Z.div_lt_upper_bound; lia]). clearbody q1 u2.
  pose proof (correct_q_ok u2 w0 v1 v0 ltac:(lia) Hv1 Hv0 ltac:(lia) Hw0) as C2. rewrite <- Ev in C2. rewrite C2. cbn [mbind option_bind]. clear C2.
  rewrite wrapu64_expr, !half_shiftl. set (q0 := (HB * u2 + w0) / v). pose proof (Z.div_mod (HB * u2 + w0) v ltac:(lia)) as D2. pose proof (Z.mod_pos_bound (HB * u2 + w0) v ltac:(lia)) as R2.
  fold q0 in D2. set (r := (HB * u2 + w0) mod v) in *. replace (u2 * HB + w0 - q0 * v) with r by lia. rewrite (wrapu64_small r) by (unfold digit; lia).
  assert (0 <= q0 < HB) as Hq0 by (split; [apply Z.div_pos; lia|apply Z.div_lt_upper_bound; lia]). clearbody q0 r.
  rewrite (wrapu64_small (q1 * HB)) by (unfold digit; lia). rewrite wrapu64_small by (unfold digit; lia).
  assert ((DB * a1 + a0) * P = (q1 * HB + q0) * v + r) as E by lia.
  assert (r = (DB * a1 + a0 - (q1 * HB + q0) * b) * P) as Er by (unfold v in E; lia).
  rewrite Z.shiftr_div_pow2 by lia. change (2 ^ s) with P. rewrite Er, Z.div_mul by lia.
  set (r' := DB * a1 + a0 - (q1 * HB + q0) * b) in *. assert (0 <= r' < b) as Hr'.
  { split; [apply (Z.mul_le_mono_pos_r _ _ P); lia|apply (Z.mul_lt_mono_pos_r P); unfold v in *; lia]. }
  rewrite <- (Z.div_unique_pos (DB * a1 + a0) b (q1 * HB + q0) r'), <- (Z.mod_unique_pos (DB * a1 + a0) b (q1 * HB + q0) r') by (unfold r' in *; lia). done.
Qed.

(** ** The quotient by two digits *)

Lemma D2GT_ok a1 a0 b1 b0 : digit a0 -> digit b0 -> D2GT a1 a0 b1 b0 = (DB * b1 + b0 <? DB * a1 + a0).
Proof. unfold digit, D2GT. intros Ha Hb. lia. Qed.
Lemma D2GTE_ok a1 a0 b1 b0 : digit a0 -> digit b0 -> D2GTE a1 a0 b1 b0 = (DB * b1 + b0 <=? DB * a1 + a0).
Proof. intros Ha Hb. unfold D2GTE, D2LT. rewrite D2GT_ok by done. lia. Qed.
Lemma D2SUB_ok a1 a0 b1 b0 : digit a1 -> digit a0 -> digit b1 -> digit b0 -> DB * b1 + b0 <= DB * a1 + a0 ->
  exists c1 c0, D2SUB a1 a0 b1 b0 = (c1, c0) /\ digit c1 /\ digit c0 /\ DB * c1 + c0 = DB * a1 + a0 - (DB * b1 + b0).
Proof.
  intros Ha1 Ha0 Hb1 Hb0 Hle. unfold D2SUB. destruct (DSUB_ok a0 b0 Ha0 Hb0) as (c0 & bi & -> & Hc0 & Hbi & E0).
  destruct (DSUBb_ok a1 b1 bi Ha1 Hb1 Hbi) as (c1 & r & -> & Hc1 & Hr & E1). eexists _, _. split; [reflexivity|]. unfold digit in *. lia.
Qed.

(** The estimate of a quotient: its product with the divisor fits in two digits, and
    takes away at least an eighth of the dividend. *)
Definition d2div_q1 (a1 b1 : Z) : Z :=
  if (b1 =? 1) && (1 <? a1) then a1 / 2
  else if (QUOT_LIM <? a1) && (b1 <? a1) then a1 / wrapu 64 (b1 + 1) else a1 / b1.
Lemma d2div_q1_ok a1 a0 b1 b0 : digit a1 -> digit a0 -> digit b1 -> digit b0 -> 1 <= b1 -> DB * b1 + b0 <= DB * a1 + a0 ->
  let q1 := d2div_q1 a1 b1 in let T := q1 * (DB * b1 + b0) in let A := DB * a1 + a0 in
  1 <= q1 < DB /\ T < DB * DB /\ 8 * (A - T) <= 7 * A /\ 8 * (T - A) <= 7 * A.
Proof.
  unfold digit, d2div_q1. intros Ha1 Ha0 Hb1 Hb0 Hb Hle. assert (b1 <= a1) as Hab by lia. change QUOT_LIM with (HB * HB / 2 - 1).
  assert (forall d, 0 < d <= a1 -> 1 <= a1 / d <= a1 /\ a1 / d * d <= a1 < a1 / d * d + d) as Hdiv.
  { intros d Hd. pose proof (Z.div_mod a1 d ltac:(lia)). pose proof (Z.mod_pos_bound a1 d ltac:(lia)).
    split; [split; [apply Z.div_le_lower_bound; lia|apply Z.div_le_upper_bound; nia]|lia]. }
  assert (forall q x y, 0 <= q -> x <= y -> q * x <= q * y) as Hmono by (intros; by apply Z.mul_le_mono_nonneg_l).
  destruct (Z.eqb_spec b1 1) as [->|Hb1'].
  - destruct (Z.ltb_spec 1 a1); cbn [andb].
    + destruct (Hdiv 2) as [H1 H2]; [lia|]. set (q := a1 / 2) in *. clearbody q. assert (0 <= q * b0 <= q * DB) by (split; [apply Z.mul_nonneg_nonneg|apply Z.mul_le_mono_nonneg_l]; lia).
      cbv zeta. replace (q * (DB * 1 + b0)) with (q * DB + q * b0) by ring. lia.
    + replace a1 with 1 in * by lia. cbn [andb]. change (HB * HB / 2 - 1 <? 1) with false. cbn [andb]. change (1 / 1) with 1. cbv zeta. lia.
  - cbn [andb]. destruct (Z.ltb_spec (HB * HB / 2 - 1) a1) as [HQ|HQ]; [destruct (Z.ltb_spec b1 a1) as [Hlt|Hge]|]; cbn [andb].
    + rewrite (wrapu64_small (b1 + 1)) by (unfold digit; lia). destruct (Hdiv (b1 + 1)) as [H1 H2]; [lia|]. set (q := a1 / (b1 + 1)) in *. clearbody q.
      pose proof (Hmono q 0 b0 ltac:(lia) ltac:(lia)). pose proof (Hmono q b0 (DB - 1) ltac:(lia) ltac:(lia)). pose proof (Hmono q 1 b1 ltac:(lia) ltac:(lia)). pose proof (Hmono b1 1 q ltac:(lia) ltac:(lia)).
      cbv zeta. replace (q * (DB * b1 + b0)) with (DB * (q * b1) + q * b0) by ring. replace (q * (b1 + 1)) with (q * b1 + q) in H2 by ring.
      lia.
    + replace b1 with a1 in * by lia. rewrite Z.div_same by lia. cbv zeta. lia.
    + destruct (Hdiv b1) as [H1 H2]; [lia|]. set (q := a1 / b1) in *. clearbody q. change (HB * HB / 2 - 1) with 9223372036854775807 in HQ.
      pose proof (Hmono q 0 b0 ltac:(lia) ltac:(lia)). pose proof (Hmono q b0 (DB - 1) ltac:(lia) ltac:(lia)). pose proof (Hmono q 2 b1 ltac:(lia) ltac:(lia)). pose proof (Hmono b1 1 q ltac:(lia) ltac:(lia)).
      cbv zeta. replace (q * (DB * b1 + b0)) with (DB * (q * b1) + q * b0) by ring. lia.
Qed.

Lemma d2div_loop_S fuel a1 a0 b1 b0 q as_ : d2div_loop (S fuel) a1 a0 b1 b0 q as_ =
  if D2GTE a1 a0 b1 b0 then
    let q1 := d2div_q1 a1 b1 in
    let q := wrapu 64 (if as_ <? 0 then q - q1 else q + q1) in
    let '(t0, t2) := DMULc_half q1 b0 0 in
    let '(t1, t2) := DMULc_half q1 b1 t2 in
    if D2GT t1 t0 a1 a0
    then let '(a1, a0) := D2SUB t1 t0 a1 a0 in d2div_loop fuel a1 a0 b1 b0 q (- as_)
    else let '(a1, a0) := D2SUB a1 a0 t1 t0 in d2div_loop fuel a1 a0 b1 b0 q as_
  else Some (q, as_, a1, a0).
Proof. reflexivity. Qed.

Lemma d2div_loop_ok b1 b0 A0 fuel : digit b1 -> digit b0 -> 1 <= b1 ->
  forall a1 a0 qz as_, digit a1 -> digit a0 -> (as_ = 1 \/ as_ = -1) ->
  let b := DB * b1 + b0 in let A := DB * a1 + a0 in
  A0 = qz * b + as_ * A -> A * 7 ^ Z.of_nat fuel < b * 8 ^ Z.of_nat fuel ->
  exists qz' as' r1 r0, d2div_loop (S fuel) a1 a0 b1 b0 (wrapu 64 qz) as_ = Some (wrapu 64 qz', as', r1, r0) /\
    digit r1 /\ digit r0 /\ (as' = 1 \/ as' = -1) /\ DB * r1 + r0 < b /\ A0 = qz' * b + as' * (DB * r1 + r0).
Proof.
  intros Hb1 Hb0 Hb. induction fuel as [|fuel IH]; intros a1 a0 qz as_ Ha1 Ha0 Has b A EA Hf; rewrite d2div_loop_S, D2GTE_ok by done; fold b A; cbv zeta.
  - change (7 ^ Z.of_nat 0) with 1 in Hf. change (8 ^ Z.of_nat 0) with 1 in Hf. replace (b <=? A) with false by lia.
    exists qz, as_, a1, a0. split_and!; try done. fold A. lia.
  - destruct (Z.leb_spec b A) as [Hle|Hgt]; [|exists qz, as_, a1, a0; split_and!; done || (fold A; lia)].
    destruct (d2div_q1_ok a1 a0 b1 b0) as (Hq & HT & Hd1 & Hd2); [done..|]. set (q1 := d2div_q1 a1 b1) in *. clearbody q1. fold b A in HT, Hd1, Hd2.
    destruct (DMULc_half_ok q1 b0 0) as (t0 & t2 & -> & Ht0 & Ht2 & E0); [unfold digit in *; lia..|].
    destruct (DMULc_half_ok q1 b1 t2) as (t1 & t3 & -> & Ht1 & Ht3 & E1); [unfold digit in *; lia..|].
    assert (DB * t1 + t0 = q1 * b) as ET by (unfold b in *; unfold digit in *; lia).
    assert (forall x, 8 * x <= 7 * A -> x * 7 ^ Z.of_nat fuel < b * 8 ^ Z.of_nat fuel) as Hfuel.
    { intros x Hx. rewrite !Nat2Z.inj_succ, !Z.pow_succ_r in Hf by lia. assert (0 < 7 ^ Z.of_nat fuel) by (apply Z.pow_pos_nonneg; lia). nia. }
    assert (wrapu 64 (if as_ <? 0 then wrapu 64 qz - q1 else wrapu 64 qz + q1) = wrapu 64 (qz + as_ * q1)) as ->.
    { destruct Has as [-> | ->]; cbn; unfold wrapu; [rewrite Zplus_mod_idemp_l|rewrite Zminus_mod_idemp_l]; f_equal; lia. }
    rewrite D2GT_ok, ET by done. fold A. destruct (Z.ltb_spec A (q1 * b)) as [Hlt|Hge].
    + destruct (D2SUB_ok t1 t0 a1 a0) as (c1 & c0 & -> & Hc1 & Hc0 & Ec); [done..|fold A; lia|]. rewrite ET in Ec. fold A in Ec.
      destruct (IH c1 c0 (qz + as_ * q1) (- as_)) as (qz' & as' & r1 & r0 & -> & Hres); [done|done|lia|rewrite Ec; fold b; rewrite EA; ring|rewrite Ec; fold b; apply Hfuel; lia|].
      by exists qz', as', r1, r0.
    + destruct (D2SUB_ok a1 a0 t1 t0) as (c1 & c0 & -> & Hc1 & Hc0 & Ec); [done..|fold A; lia|]. rewrite ET in Ec. fold A in Ec.
      destruct (IH c1 c0 (qz + as_ * q1) as_) as (qz' & as' & r1 & r0 & -> & Hres); [done|done|lia|rewrite Ec; fold b; rewrite EA; ring|rewrite Ec; fold b; apply Hfuel; lia|].
      by exists qz', as', r1, r0.
Qed.

Lemma d2div_fuel : DB * 7 ^ Z.of_nat 399 < 8 ^ Z.of_nat 399.
Proof. vm_compute. reflexivity. Qed.

Lemma DDIV2_half_ok a1 a0 b1 b0 : digit a1 -> digit a0 -> digit b1 -> digit b0 -> 1 <= b1 < a1 ->
  exists q, ('(q, _, _) ← D2DIVREM a1 a0 b1 b0; Some q) = Some q /\ 1 <= q < DB /\
    q * (DB * b1 + b0) <= DB * a1 + a0 /\ DB * a1 + a0 <= (q + 1) * (DB * b1 + b0).
Proof.
  intros Ha1 Ha0 Hb1 Hb0 Hb. unfold D2DIVREM. set (A := DB * a1 + a0). set (b := DB * b1 + b0).
  assert (b < A < DB * DB) as HA by (unfold A, b, digit in *; lia). assert (DB <= b) as HbB by (unfold b, digit in *; lia).
  destruct (d2div_loop_ok b1 b0 A 399 Hb1 Hb0 ltac:(lia) a1 a0 0 1 Ha1 Ha0) as (qz & as_ & r1 & r0 & E & Hr1 & Hr0 & Has & Hr & EA);
    [by left|fold A; lia|fold A b; pose proof d2div_fuel; set (x := 7 ^ Z.of_nat 399) in *; set (y := 8 ^ Z.of_nat 399) in *;
     assert (0 < x) by (apply Z.pow_pos_nonneg; lia); clearbody x y; nia|].
  change (wrapu 64 0) with 0 in E. rewrite E. cbn [mbind option_bind]. fold b in Hr, EA. set (r := DB * r1 + r0) in *. assert (0 <= r) by (unfold r, digit in *; lia). clearbody r b A.
  destruct Has as [-> | ->].
  - change (1 <? 0) with false. cbn iota. exists (wrapu 64 qz). split; [reflexivity|]. assert (1 <= qz < DB) by nia. rewrite wrapu64_small by (unfold digit; lia). nia.
  - change (-1 <? 0) with true. cbn iota. destruct (D2SUB b1 b0 r1 r0) as [x y]. exists (wrapu 64 (wrapu 64 qz - 1)). split; [reflexivity|].
    unfold wrapu at 2. unfold wrapu. rewrite !Zminus_mod_idemp_l. fold (wrapu 64 (qz - 1)). assert (1 <= qz - 1 < DB) by nia. rewrite !wrapu64_small by (unfold digit; lia). nia.
Qed.

#[export] Instance half_digit_laws : DigitLaws half_digit.
Proof.
  split.
  - apply DSUMc_half_ok.
  - apply DMULc_half_ok.
  - intros a b Ha Hb. destruct (DMULc_half_ok a b 0 Ha Hb) as (p & c & E & H1 & H2 & E2); [unfold digit; lia|]. exists p, c. split; [exact E|]. rewrite E2. split_and!; done || lia.
  - intros a1 a0 b Ha1 Ha0 Hb Hlt. cbn [DDIV half_digit]. by rewrite DDIVREM_ok.
  - apply DDIV2_half_ok.
Qed.
(** The quotient of [D2DIVREM] is too small by one, with a remainder that is as large
    as the divisor, when the division ends with 0 from below: here 10 / 2.5. *)
Example D2DIVREM_short : D2DIVREM 10 0 2 (Z.shiftl 1 63) = Some (3, 2, Z.shiftl 1 63).
Proof. reflexivity. Qed.

(** ** Both versions agree *)

Lemma two_digits_unique p c p' c' : digit p -> digit p' -> p + DB * c = p' + DB * c' -> (p, c) = (p', c').
Proof. intros Hp Hp' E. unfold digit in *. assert (c = c') as -> by nia. f_equal. lia. Qed.

(** The macros for compilers without a double digit compute sums, products and quotients
    by one digit that are equal to those of the double digit; quotients by two digits may
    be one too small, which long division allows for. *)
Theorem digit_macros_agree a b c d : digit a -> digit b -> digit c -> digit d ->
  (c <= 1 -> DSUMc (DigitMacros := half_digit) a b c = DSUMc (DigitMacros := double_digit) a b c) /\
  DMULc (DigitMacros := half_digit) a b c = DMULc (DigitMacros := double_digit) a b c /\
  DMUL (DigitMacros := half_digit) a b = DMUL (DigitMacros := double_digit) a b /\
  (a < c -> DDIV (DigitMacros := half_digit) a b c = DDIV (DigitMacros := double_digit) a b c) /\
  (1 <= c < a -> exists q q', DDIV2 (DigitMacros := half_digit) a b c d = Some q /\ DDIV2 (DigitMacros := double_digit) a b c d = Some q' /\ q' - 1 <= q <= q').
Proof.
  intros Ha Hb Hc Hd. split; [|split; [|split; [|split]]].
  - intros Hc1. assert (0 <= c <= 1) as Hc' by (unfold digit in Hc; lia). destruct (half_digit_laws.(DSUMc_ok) a b c Ha Hb Hc') as (s & k & E1 & Hs & _ & E), (double_digit_laws.(DSUMc_ok) a b c Ha Hb Hc') as (s' & k' & E2 & Hs' & _ & E'). rewrite E1, E2. apply two_digits_unique; [done|done|lia].
  - destruct (half_digit_laws.(DMULc_ok) a b c Ha Hb Hc) as (s & k & E1 & Hs & _ & E), (double_digit_laws.(DMULc_ok) a b c Ha Hb Hc) as (s' & k' & E2 & Hs' & _ & E'). rewrite E1, E2. apply two_digits_unique; [done|done|lia].
  - destruct (half_digit_laws.(DMUL_ok) a b Ha Hb) as (s & k & E1 & Hs & _ & E), (double_digit_laws.(DMUL_ok) a b Ha Hb) as (s' & k' & E2 & Hs' & _ & E'). rewrite E1, E2. apply two_digits_unique; [done|done|lia].
  - intros Hlt. by rewrite half_digit_laws.(DDIV_ok), double_digit_laws.(DDIV_ok).
  - intros Hlt. destruct (half_digit_laws.(DDIV2_ok) a b c d Ha Hb Hc Hd Hlt) as (q & Eq & Hq & Hq1 & Hq2).
    exists q, ((DB * a + b) / (DB * c + d)). split; [done|]. assert (0 < DB * c + d) by (unfold digit in *; lia).
    assert (DDIV2 (DigitMacros := double_digit) a b c d = Some ((DB * a + b) / (DB * c + d))) as E. { cbn [DDIV2 double_digit]. unfold digit in *. rewrite !DDIGIT_value by (unfold digit; lia). rewrite wrapu64_small; [done|]. split; [apply Z.div_pos; lia|]. apply Z.div_lt_upper_bound; nia. }
    split; [done|]. split; [|apply Z.div_le_lower_bound; lia]. assert ((DB * a + b) / (DB * c + d) < q + 2); [|lia]. apply Z.div_lt_upper_bound; nia.
Qed.
Lemma digit_macros_agree_witness :
  DMULc (DigitMacros := half_digit) (DB - 1) (DB - 1) 5 = DMULc (DigitMacros := double_digit) (DB - 1) (DB - 1) 5.
Proof. apply (digit_macros_agree (DB - 1) (DB - 1) 5 7); done. Defined.
