(* ===== verification/BigNat.v ===== *)
(** * Vectors of digits: sums, differences, products and quotients of
    [erts/emulator/beam/big.c]

    A vector is the list of its digits, the lowest one first, and its size is the length
    of the list.  Where a result replaces an operand the code reads each digit before it
    writes it, so that results are lists of their own.  [None] is an access outside of a
    vector. *)
From S2P Require Import Prelude PutGet BigDigit.

Section Vectors.
Context {M : DigitMacros}.

(** ** The code *)

(** The loop of [I_comp], from the highest digits on. *)
Fixpoint comp_loop (x y : list Z) : Z :=
  match x, y with
  | a :: x, b :: y => if a =? b then comp_loop x y else if a <? b then -1 else 1
  | _, _ => 0
  end.
(** The test for equal pointers only saves the loop. *)
Definition I_comp (x y : list Z) : Z :=
  if zlen x <? zlen y then -1
  else if zlen y <? zlen x then 1
  else comp_loop (reverse x) (reverse y).

(** [while(xl--) { xr = *x++ + c; c = (xr < c); *r++ = xr; }]: the digits and [c]. *)
Fixpoint carry_loop (x : list Z) (c : Z) : list Z * Z :=
  match x with
  | [] => ([], c)
  | xr :: x => let xr := wrapu 64 (xr + c) in let '(r, c) := carry_loop x (b2z (xr <? c)) in (xr :: r, c)
  end.
Fixpoint add_loop (x y : list Z) (c : Z) {struct y} : option (list Z * Z) :=
  match y with
  | [] => Some (carry_loop x c)
  | yr :: y =>
      match x with
      | [] => None
      | xr :: x => let '(s, c) := DSUMc xr yr c in '(r, c) ← add_loop x y c; Some (s :: r, c)
      end
  end.
(** [if (c) { *r = 1; return sz+1; }] *)
Definition with_carry (rc : list Z * Z) : list Z := let '(r, c) := rc in if c =? 0 then r else r ++ [1].
(** [do { ... } while(--yl)]: [y] has a digit. *)
Definition I_add (x y : list Z) : option (list Z) :=
  match y with [] => None | _ => with_carry <$> add_loop x y 0 end.
Definition D_add (x : list Z) (c : Z) : list Z := with_carry (carry_loop x c).

(** [while(xl--) { xr = *x++; yr = xr - c; c = (yr > xr); *r++ = yr; }] *)
Fixpoint borrow_loop (x : list Z) (c : Z) : list Z :=
  match x with
  | [] => []
  | xr :: x => let yr := wrapu 64 (xr - c) in yr :: borrow_loop x (b2z (xr <? yr))
  end.
Fixpoint sub_loop (x y : list Z) (c : Z) {struct y} : option (list Z) :=
  match y with
  | [] => Some (borrow_loop x c)
  | yr :: y =>
      match x with
      | [] => None
      | xr :: x =>
          let yr := wrapu 64 (yr + c) in
          let c := b2z (yr <? c) in
          let yr := wrapu 64 (xr - yr) in
          let c := c + b2z (xr <? yr) in
          r ← sub_loop x y c; Some (yr :: r)
      end
  end.
(** [do { r--; } while( *r == 0 && r != r0)]: the digits that remain. *)
Fixpoint trim (r : list Z) : list Z :=
  match r with
  | [] => []
  | d :: r => match trim r with [] => [d] | [t] => if t =? 0 then [d] else [d; t] | t => d :: t end
  end.
Definition I_sub (x y : list Z) : option (list Z) :=
  match y with [] => None | _ => trim <$> sub_loop x y 0 end.
Definition D_sub (x : list Z) (c : Z) : list Z := trim (borrow_loop x c).

Fixpoint neg_loop (y : list Z) (c : Z) : list Z :=
  match y with
  | [] => []
  | yr :: y =>
      let yr := wrapu 64 (yr + c) in
      let c := b2z (yr <? c) in
      let yr := wrapu 64 (0 - yr) in
      let c := c + b2z (0 <? yr) in
      yr :: neg_loop y c
  end.
(** [Z000...0 - y]; the digits that are not counted in the size are 0. *)
Definition Z_sub (y : list Z) : list Z := neg_loop y 0.

(** A row of a product: [while(n--) {...}] for the digit [d], over the digits of [y] and
    those at [rt]: the digits, [c] and [cp]. *)
Fixpoint mul_row1 (y rt : list Z) (c : Z) : option (list Z * Z) :=
  match y with
  | [] => Some ([], c)
  | yt :: y =>
      match rt with
      | [] => None
      | r :: rt => let '(p, c) := DSUMc yt r c in '(ps, c) ← mul_row1 y rt c; Some (p :: ps, c)
      end
  end.
Fixpoint mul_row2 (y rt : list Z) (c cp : Z) : option (list Z * Z * Z) :=
  match y with
  | [] => Some ([], c, cp)
  | p :: y =>
      match rt with
      | [] => None
      | r :: rt =>
          let '(p, cp) := DSUMc p p cp in
          let '(p, c) := DSUMc p r c in
          '(ps, c, cp) ← mul_row2 y rt c cp; Some (p :: ps, c, cp)
      end
  end.
Fixpoint mul_row (d : Z) (y rt : list Z) (c cp : Z) : option (list Z * Z * Z) :=
  match y with
  | [] => Some ([], c, cp)
  | yt :: y =>
      match rt with
      | [] => None
      | r :: rt =>
          let '(p, cp) := DMULc d yt cp in
          let '(p, c) := DSUMc p r c in
          '(ps, c, cp) ← mul_row d y rt c cp; Some (p :: ps, c, cp)
      end
  end.
(** The digits at [r] behind a turn of the outer loop, and the digit at [rt]. *)
Definition mul_turn (d : Z) (y r : list Z) : option (list Z * Z) :=
  let n := length y in
  '(ps, c, cp) ← (if d =? 0 then if (length r <? n)%nat then None else Some (take n r, 0, 0)
                  else if d =? 1 then '(ps, c) ← mul_row1 y r 0; Some (ps, c, 0)
                  else if d =? 2 then mul_row2 y r 0 0
                  else mul_row d y r 0 0);
  let top := wrapu 64 (c + cp) in
  Some (ps ++ top :: drop (S n) r, top).
(** The digits from [r] on at the end, and the digit at the last [rt]. *)
Fixpoint mul_loop (x y r : list Z) (rt : Z) : option (list Z * Z) :=
  match x with
  | [] => Some (r, rt)
  | d :: x =>
      '(r, rt) ← mul_turn d y r;
      match r with
      | [] => None
      | r0 :: r => '(rs, rt) ← mul_loop x y r rt; Some (r0 :: rs, rt)
      end
  end.
Definition I_mul (x y : list Z) : option (list Z) :=
  '(r, rt) ← mul_loop x y (replicate (length x) 0) 0;
  Some (if rt =? 0 then take (length x + length y - 1) r else take (length x + length y) r).

(** [DSUMc(p, p, c, p)] and [DMULc(d, *x, c, p)] over all digits. *)
Fixpoint double_loop (x : list Z) (c : Z) : list Z * Z :=
  match x with
  | [] => ([], c)
  | p :: x => let '(p, c) := DSUMc p p c in let '(r, c) := double_loop x c in (p :: r, c)
  end.
Fixpoint mulc_loop (d : Z) (x : list Z) (c : Z) : list Z * Z :=
  match x with
  | [] => ([], c)
  | xd :: x => let '(p, c) := DMULc d xd c in let '(r, c) := mulc_loop d x c in (p :: r, c)
  end.
Definition D_mul (x : list Z) (d : Z) : list Z :=
  if d =? 0 then [0]
  else if d =? 1 then x
  else
    let '(r, c) := if d =? 2 then double_loop x 0 else mulc_loop d x 0 in
    if c =? 0 then r else r ++ [c].

(** [while(yl--) {...}] of [D_mulsub]: the digits, what is left of [x], [c] and [b]. *)
Fixpoint mulsub_loop (x : list Z) (d : Z) (y : list Z) (c b : Z) {struct y} : option (list Z * list Z * Z * Z) :=
  match y with
  | [] => Some ([], x, c, b)
  | yd :: y =>
      match x with
      | [] => None
      | xd :: x =>
          let '(c0, c) := DMULc d yd c in
          let '(s, b) := DSUBb xd c0 b in
          '(r, x, c, b) ← mulsub_loop x d y c b; Some (s :: r, x, c, b)
      end
  end.
(** All digits that were written, and whether the size is 0, which means a borrow. *)
Definition D_mulsub (x : list Z) (d : Z) (y : list Z) : option (list Z * bool) :=
  '(r, rest, c, b) ← mulsub_loop x d y 0 0;
  match rest with
  | [] => Some (r, negb ((c =? 0) && (b =? 0)))
  | [xd] => let '(s, b) := DSUBb xd c b in Some (r ++ [s], negb (b =? 0))
  | _ => None
  end.

(** [do {...} while (xp >= x)] of [D_div]: [xs] are the digits from [xp] down, [a1] the
    remainder so far; the quotient digits, the highest one first, and the remainder.
    The loop ends when no digit is left to be read, but takes a turn for the first digit
    that is not below [d] before. *)
Definition div_turn (d a1 a0 : Z) : option (Z * Z) :=
  q0 ← DDIV a1 a0 d;
  let '(b0, _) := DMUL d q0 in
  let '(a1, _) := DSUB a0 b0 in
  Some (q0, a1).
Fixpoint div_loop (fuel : nat) (d a1 : Z) (xs : list Z) : option (list Z * Z) :=
  match fuel with
  | O => None
  | S fuel =>
      '(q0, a1, xs) ← (if a1 <? d
                       then match xs with [] => None | a0 :: xs => '(q0, a1) ← div_turn d a1 a0; Some (q0, a1, xs) end
                       else '(q0, a1) ← div_turn d 0 a1; Some (q0, a1, xs));
      match xs with
      | [] => Some ([q0], a1)
      | _ => '(q, a1) ← div_loop fuel d a1 xs; Some (q0 :: q, a1)
      end
  end.
(** Quotient and remainder. *)
Definition D_div (x : list Z) (d : Z) : option (list Z * Z) :=
  match reverse x with
  | [] => None
  | a1 :: xs =>
      if (a1 <? d) && bool_decide (xs = []) then Some ([0], a1)
      else '(q, r) ← div_loop (S (length x)) d a1 xs; Some (reverse q, r)
  end.

(** ** The number that a vector stands for *)

Fixpoint dval (l : list Z) : Z := match l with [] => 0 | d :: l => d + DB * dval l end.
Definition digits (l : list Z) : Prop := Forall digit l.
(** No zero in front; zero itself has one digit. *)
Definition normal (l : list Z) : Prop := l <> [] /\ (list.last l = Some 0 -> l = [0]).
(** [DB] to the size. *)
Definition pw (l : list Z) : Z := DB ^ zlen l.

Lemma pw_nil : pw [] = 1.
Proof. done. Qed.
Lemma pw_cons d l : pw (d :: l) = DB * pw l.
Proof. unfold pw. rewrite zlen_cons, Z.add_1_l, Z.pow_succ_r by apply zlen_nonneg. done. Qed.
Lemma pw_app x y : pw (x ++ y) = pw x * pw y.
Proof. unfold pw. rewrite zlen_app, Z.pow_add_r by apply zlen_nonneg. done. Qed.
Lemma pw_pos l : 0 < pw l.
Proof. apply Z.pow_pos_nonneg; [lia|apply zlen_nonneg]. Qed.
Lemma pw_len x y : length x = length y -> pw x = pw y.
Proof. unfold pw, zlen. by intros ->. Qed.

Lemma dval_app x y : dval (x ++ y) = dval x + pw x * dval y.
Proof. induction x as [|d x IH]; cbn [app dval]; [rewrite pw_nil; lia|]. rewrite IH, pw_cons. ring. Qed.
Lemma dval_range l : digits l -> 0 <= dval l < pw l.
Proof. induction 1 as [|d l Hd _ IH]; cbn [dval]; [rewrite pw_nil; lia|]. rewrite pw_cons. unfold digit in Hd. lia. Qed.
Lemma dval_zeros n : dval (replicate n 0) = 0.
Proof. induction n as [|n IH]; cbn [replicate dval]; lia. Qed.
Lemma digits_zeros n : digits (replicate n 0).
Proof. induction n; constructor; [unfold digit; lia|done]. Qed.
Lemma digits_cons d l : digits (d :: l) <-> digit d /\ digits l.
Proof. apply Forall_cons_iff. Qed.
Lemma digits_app x y : digits (x ++ y) <-> digits x /\ digits y.
Proof. apply Forall_app. Qed.
Lemma nonempty {A} (l : list A) : (0 < length l)%nat -> l <> [].
Proof. destruct l; cbn; [lia|done]. Qed.
Lemma digits_one d : digit d -> digits [d].
Proof. intros Hd. constructor; [exact Hd|constructor]. Qed.
Lemma digit_0 : digit 0.
Proof. unfold digit. lia. Qed.
Lemma digit_1 : digit 1.
Proof. unfold digit. lia. Qed.

Lemma last_cons_2 {A} (a b : A) l : list.last (a :: b :: l) = list.last (b :: l).
Proof. done. Qed.

(** A vector in normal form of more digits is larger. *)
Lemma normal_low l : digits l -> normal l -> 1 < zlen l -> pw l <= DB * dval l.
Proof.
  intros Hd [Hne Hn] Hl. destruct l as [|a l] using rev_ind; [done|]. clear IHl. rewrite pw_app, dval_app, pw_cons, pw_nil in *.
  apply digits_app in Hd as [Hl' Ha%digits_cons]. pose proof (dval_range l Hl'). pose proof (pw_pos l). cbn [dval].
  rewrite last_snoc in Hn. assert (1 <= a); [|nia]. destruct Ha as [Ha _]. unfold digit in Ha. assert (a <> 0); [|lia].
  intros ->. specialize (Hn eq_refl). destruct l; [change (zlen ([] ++ [0])) with 1 in Hl; lia|destruct l; done].
Qed.

Lemma trim_ok r : digits r -> r <> [] -> digits (trim r) /\ normal (trim r) /\ dval (trim r) = dval r /\ (length (trim r) <= length r)%nat.
Proof.
  induction 1 as [|d r Hd Hr IH]; intros Hne; [done|]. cbn [trim dval length]. destruct r as [|e r].
  - cbn [trim dval length]. split; [by constructor|]. split; [split; [done|by intros [= ->]]|]. lia.
  - destruct (IH ltac:(done)) as (Ht & [Htne Htn] & Hv & Hlen). set (t := trim (e :: r)) in *. clearbody t. destruct t as [|t0 [|t1 t]]; [done| |].
    + destruct (Z.eqb_spec t0 0) as [->|H0].
      * cbn [dval length] in *. split; [by constructor|]. split; [split; [done|by intros [= ->]]|]. lia.
      * split; [by constructor|]. split; [split; [done|by intros [= ->]]|]. cbn [dval length] in *. lia.
    + split; [by constructor|]. split; [split; [done|]|cbn [dval length] in *; lia]. rewrite last_cons_2. intros Hl. specialize (Htn Hl). done.
Qed.

End Vectors.

(** ** Sums and differences *)

(** [digit]s and sizes of vectors that were taken apart. *)
Ltac dig := unfold digit in *; lia.
Ltac parts := repeat match goal with |- _ /\ _ => split end; try done; try lia; try (by constructor); try dig.

Lemma normal_intro r : digits r -> r <> [] -> (1 < zlen r -> pw r <= DB * dval r) -> normal r.
Proof.
  intros Hd Hne Hv. split; [done|]. destruct r as [|a r] using rev_ind; [done|]. clear IHr. rewrite last_snoc. intros [= ->].
  destruct r as [|b r]; [done|]. exfalso. rewrite pw_app, dval_app, (pw_cons 0 []), pw_nil in Hv. apply digits_app in Hd as [Hd _].
  pose proof (dval_range _ Hd). cbn [dval] in Hv. assert (1 < zlen ((b :: r) ++ [0])) as Hz by zlen_lia. specialize (Hv Hz). cbn [dval] in *. lia.
Qed.

Lemma normal_singleton d : digit d -> normal [d].
Proof. intros Hd. split; [done|]. by intros [= ->]. Qed.

(** Vectors of the same number, in normal form, are the same. *)
Lemma normal_unique x y : digits x -> digits y -> normal x -> normal y -> dval x = dval y -> x = y.
Proof.
  intros Hx Hy Nx Ny E.
  assert (forall x y, digits x -> digits y -> normal y -> dval x = dval y -> (length x < length y)%nat -> x = []) as Hlen.
  { clear. intros x y Hx Hy Ny E Hl. destruct (decide (1 < zlen y)) as [Hz|Hz]; [|destruct y as [|? [|]], x; cbn [length] in Hl; unfold zlen in Hz; cbn [length] in Hz; done || lia].
    pose proof (normal_low y Hy Ny Hz). pose proof (dval_range x Hx). assert (DB * pw x <= pw y); [|lia].
    unfold pw, zlen. rewrite <- Z.pow_succ_r by lia. apply Z.pow_le_mono_r; lia. }
  assert (length x = length y) as El.
  { destruct (lt_eq_lt_dec (length x) (length y)) as [[Hl|]|Hl]; [|done|].
    - by rewrite (Hlen x y) in Nx by done; destruct Nx.
    - by rewrite (Hlen y x) in Ny by done; destruct Ny. }
  clear Hlen Nx Ny. revert y Hy E El. induction Hx as [|a x Ha _ IH]; intros [|b y] Hy E El; cbn [length] in El; try lia; [done|].
  apply digits_cons in Hy as [Hb Hy]. cbn [dval] in E. assert (a = b /\ dval x = dval y) as [-> Ev] by dig. f_equal. apply IH; [done|done|lia].
Qed.

Definition cmp3 (a b : Z) : Z := if a <? b then -1 else if b <? a then 1 else 0.
Lemma cmp3_lt a b : a < b -> cmp3 a b = -1.
Proof. intros. unfold cmp3. by replace (a <? b) with true by lia. Qed.
Lemma cmp3_gt a b : b < a -> cmp3 a b = 1.
Proof. intros. unfold cmp3. replace (a <? b) with false by lia. by replace (b <? a) with true by lia. Qed.
Lemma cmp3_shift a b k : cmp3 (a + k) (b + k) = cmp3 a b.
Proof. unfold cmp3. replace (a + k <? b + k) with (a <? b) by lia. by replace (b + k <? a + k) with (b <? a) by lia. Qed.

Lemma comp_loop_ok x y : digits x -> digits y -> length x = length y ->
  comp_loop (reverse x) (reverse y) = cmp3 (dval x) (dval y).
Proof.
  revert y. induction x as [|a x IH] using rev_ind; intros y Hx Hy Hl.
  - destruct y; [done|]. cbn in Hl. lia.
  - destruct y as [|b y] using rev_ind; [rewrite length_app in Hl; cbn in Hl; lia|]. clear IHy. rewrite !length_app in Hl. cbn [length] in Hl.
    apply digits_app in Hx as [Hx Ha%digits_cons]. apply digits_app in Hy as [Hy Hb%digits_cons]. destruct Ha as [Ha _], Hb as [Hb _].
    rewrite !reverse_app. cbn [reverse rev_append app comp_loop]. rewrite !dval_app. cbn [dval]. rewrite (pw_len x y) by lia.
    pose proof (dval_range x Hx) as Rx. pose proof (dval_range y Hy) as Ry. rewrite (pw_len x y) in Rx by lia. pose proof (pw_pos y).
    destruct (Z.eqb_spec a b) as [->|Hab].
    + rewrite IH by (done || lia). by rewrite cmp3_shift.
    + destruct (Z.ltb_spec a b); [rewrite cmp3_lt; [done|]|rewrite cmp3_gt; [done|]].
      * assert (pw y * (a + 1) <= pw y * b) by (apply Z.mul_le_mono_nonneg_l; lia). lia.
      * assert (pw y * (b + 1) <= pw y * a) by (apply Z.mul_le_mono_nonneg_l; lia). lia.
Qed.

(** A vector in normal form with more digits is larger. *)
Lemma normal_longer x y : digits x -> digits y -> normal y -> (length x < length y)%nat -> x <> [] -> dval x < dval y.
Proof.
  intros Hx Hy Ny Hl Hne. assert (1 < zlen y) as Hz by (destruct x; [done|]; unfold zlen; cbn [length] in Hl; lia).
  pose proof (normal_low y Hy Ny Hz). pose proof (dval_range x Hx). assert (DB * pw x <= pw y); [|lia].
  unfold pw, zlen. rewrite <- Z.pow_succ_r by lia. apply Z.pow_le_mono_r; lia.
Qed.

Lemma I_comp_ok x y : digits x -> digits y -> normal x -> normal y ->
  I_comp x y = cmp3 (dval x) (dval y).
Proof.
  intros Hx Hy Nx Ny. unfold I_comp, zlen. destruct (Z.ltb_spec (Z.of_nat (length x)) (Z.of_nat (length y))).
  - pose proof (normal_longer x y Hx Hy Ny ltac:(lia) (proj1 Nx)). by rewrite cmp3_lt.
  - destruct (Z.ltb_spec (Z.of_nat (length y)) (Z.of_nat (length x))).
    + pose proof (normal_longer y x Hy Hx Nx ltac:(lia) (proj1 Ny)). by rewrite cmp3_gt.
    + apply comp_loop_ok; [done|done|lia].
Qed.

Section Laws.
Context {M : DigitMacros} {L : DigitLaws M}.

Lemma carry_step x c : digit x -> digit c ->
  digit (wrapu 64 (x + c)) /\ 0 <= b2z (wrapu 64 (x + c) <? c) <= 1 /\ wrapu 64 (x + c) + DB * b2z (wrapu 64 (x + c) <? c) = x + c.
Proof.
  intros Hx Hc. destruct (DSUM_ok x c Hx Hc) as (s & k & E & H1 & H2 & H3). unfold DSUM in E. injection E as <- <-.
  rewrite !(Z.add_comm x c). split_and!; done || lia.
Qed.

Lemma carry_loop_ok x c : digits x -> digit c ->
  exists r c', carry_loop x c = (r, c') /\ digits r /\ length r = length x /\ digit c' /\ (x <> [] -> 0 <= c' <= 1) /\ dval r + pw x * c' = dval x + c.
Proof.
  intros Hx. revert c. induction Hx as [|a x Ha Hx IH]; intros c Hc; cbn [carry_loop].
  - exists [], c. rewrite pw_nil. cbn [dval]. split_and!; [done|constructor|done|apply Hc..|by intros []|lia].
  - destruct (carry_step a c Ha Hc) as (Hs & Hk & E). set (s := wrapu 64 (a + c)) in *. set (k := b2z (s <? c)) in *. clearbody s k.
    destruct (IH k) as (r & c' & -> & Hr & Hl & Hc' & Hc1 & Ev); [dig|]. exists (s :: r), c'. rewrite pw_cons. cbn [dval length].
    split_and!; [done|by constructor|lia|done| |lia]. intros _. destruct x; [|by apply Hc1].
    rewrite pw_nil in Ev. destruct r; [|done]. cbn [dval] in Ev. lia.
Qed.

Lemma with_carry_ok x r c : digits r -> length r = length x -> 0 <= c <= 1 -> x <> [] -> digits (with_carry (r, c)) /\ dval (with_carry (r, c)) = dval r + pw x * c /\
  (length x <= length (with_carry (r, c)) <= S (length x))%nat.
Proof.
  intros Hr Hl Hc Hne. cbn [with_carry]. destruct (Z.eqb_spec c 0) as [->|H0]; [split_and!; done || lia|].
  assert (c = 1) as -> by lia. rewrite digits_app, dval_app, length_app, (pw_len r x Hl). cbn [dval length]. split_and!; try lia; [done|]. by repeat constructor.
Qed.

(** A vector that is not smaller than one of its size in normal form is in normal form. *)
Lemma normal_ge x r : digits x -> digits r -> normal x -> (length r = length x \/ exists r', r = r' ++ [1]) -> dval x <= dval r -> normal r.
Proof.
  intros Hx Hr Nx Hl Hv. destruct Hl as [Hl|[r' ->]].
  - apply normal_intro; [done| |].
    + destruct r; [|done]. destruct x; [by destruct Nx|cbn in Hl; lia].
    + intros Hz. rewrite (pw_len r x Hl). assert (1 < zlen x) as Hzx by (unfold zlen in *; lia). pose proof (normal_low x Hx Nx Hzx). lia.
  - split; [by destruct r'|]. rewrite last_snoc. intros [=].
Qed.
Lemma with_carry_shape r c : 0 <= c <= 1 -> with_carry (r, c) = r \/ with_carry (r, c) = r ++ [1].
Proof. intros Hc. cbn. destruct (c =? 0); auto. Qed.

Lemma D_add_ok x c : digits x -> x <> [] -> digit c ->
  digits (D_add x c) /\ dval (D_add x c) = dval x + c /\ (normal x -> normal (D_add x c)) /\ (length x <= length (D_add x c) <= S (length x))%nat.
Proof.
  intros Hx Hne Hc. unfold D_add. destruct (carry_loop_ok x c Hx Hc) as (r & c' & -> & Hr & Hl & _ & Hc' & Ev). specialize (Hc' Hne).
  destruct (with_carry_ok x r c' Hr Hl Hc' Hne) as (H1 & H2 & H3). split; [done|]. split; [lia|]. split; [|done]. intros Nx.
  apply (normal_ge x); [done|done|done| |dig]. destruct (with_carry_shape r c' Hc') as [-> | ->]; [by left|right; eauto].
Qed.

Lemma add_loop_ok x y c : digits x -> digits y -> (length y <= length x)%nat -> 0 <= c <= 1 -> x <> [] ->
  exists r c', add_loop x y c = Some (r, c') /\ digits r /\ length r = length x /\ 0 <= c' <= 1 /\ dval r + pw x * c' = dval x + dval y + c.
Proof.
  intros Hx Hy. revert x c Hx. induction Hy as [|b y Hb Hy IH]; intros x c Hx Hl Hc Hne; cbn [add_loop].
  - destruct (carry_loop_ok x c Hx) as (r & c' & -> & Hr & Hlr & _ & Hc' & Ev); [dig|]. eexists _, _. split; [reflexivity|]. cbn [dval]. split_and!; try done; try (by apply Hc'). lia.
  - destruct x as [|a x]; [done|]. apply digits_cons in Hx as [Ha Hx]. cbn [length] in Hl. destruct (DSUMc_ok a b c Ha Hb Hc) as (s & k & -> & Hs & Hk & E).
    rewrite pw_cons. cbn [dval length].
    destruct (decide (x = [])) as [->|Hx0].
    + destruct y; [|cbn [length] in Hl; lia]. cbn [add_loop carry_loop mbind option_bind]. exists [s], k. rewrite pw_nil. cbn [dval length].
      split_and!; try done; try lia. by constructor.
    + destruct (IH x k) as (r & c' & -> & Hr & Hlr & Hc' & Ev); [done|lia|done|done|]. cbn [mbind option_bind]. exists (s :: r), c'. cbn [dval length].
      split_and!; try done; try lia. by constructor.
Qed.

Lemma I_add_ok x y : digits x -> digits y -> (length y <= length x)%nat -> y <> [] ->
  exists r, I_add x y = Some r /\ digits r /\ dval r = dval x + dval y /\ (normal x -> normal r) /\ (length x <= length r <= S (length x))%nat.
Proof.
  intros Hx Hy Hl Hne. unfold I_add. assert (x <> []) as Hnx by (intros ->; destruct y; cbn [length] in Hl; done || lia).
  destruct y as [|b y]; [done|]. set (yy := b :: y) in *. clearbody yy.
  destruct (add_loop_ok x yy 0 Hx Hy Hl ltac:(lia) Hnx) as (r & c & -> & Hr & Hlr & Hc & Ev). eexists. split; [reflexivity|].
  destruct (with_carry_ok x r c Hr Hlr Hc Hnx) as (H1 & H2 & H3). split; [done|]. split; [lia|]. split; [|done]. intros Nx. pose proof (dval_range yy Hy).
  apply (normal_ge x); [done|done|done| |lia]. destruct (with_carry_shape r c Hc) as [-> | ->]; [by left|right; eauto].
Qed.

Lemma borrow_loop_ok x c : digits x -> digit c -> c <= dval x ->
  digits (borrow_loop x c) /\ length (borrow_loop x c) = length x /\ dval (borrow_loop x c) = dval x - c.
Proof.
  intros Hx. revert c. induction Hx as [|a x Ha Hx IH]; intros c Hc Hle; cbn [borrow_loop dval length] in *; [split_and!; [constructor|done|dig]|].
  destruct (DSUB_ok a c Ha Hc) as (d & k & E & Hd & Hk & Ev). unfold DSUB in E. injection E as E1 E2. rewrite E1 in *. rewrite E2.
  pose proof (dval_range x Hx). destruct (IH k) as (H1 & H2 & H3); [dig|dig|]. split_and!; [by constructor|lia|lia].
Qed.

Lemma sub_loop_ok x y c : digits x -> digits y -> (length y <= length x)%nat -> 0 <= c <= 1 -> dval y + c <= dval x ->
  exists r, sub_loop x y c = Some r /\ digits r /\ length r = length x /\ dval r = dval x - dval y - c.
Proof.
  intros Hx Hy. revert x c Hx. induction Hy as [|b y Hb Hy IH]; intros x c Hx Hl Hc Hle; cbn [sub_loop].
  - cbn [dval] in *. destruct (borrow_loop_ok x c Hx) as (H1 & H2 & H3); [dig|lia|]. eexists. split; [reflexivity|]. split_and!; done || lia.
  - destruct x as [|a x]; [cbn [length] in Hl; lia|]. apply digits_cons in Hx as [Ha Hx]. cbn [length dval] in *.
    destruct (DSUBb_ok a b c Ha Hb Hc) as (d & k & E & Hd & Hk & Ev). unfold DSUBb in E. injection E as E1 E2. cbv zeta. rewrite E1 in *. rewrite E2.
    destruct (IH x k) as (r & -> & Hr & Hlr & Evr); [done|lia|done|dig|]. cbn [mbind option_bind]. eexists. split; [reflexivity|]. cbn [dval length].
    split_and!; [by constructor|lia|lia].
Qed.

Lemma I_sub_ok x y : digits x -> digits y -> (length y <= length x)%nat -> y <> [] -> dval y <= dval x ->
  exists r, I_sub x y = Some r /\ digits r /\ normal r /\ dval r = dval x - dval y /\ (length r <= length x)%nat.
Proof.
  intros Hx Hy Hl Hne Hle. unfold I_sub. destruct y as [|b y]; [done|]. set (yy := b :: y) in *. assert (0 < length yy)%nat by (cbn; lia). clearbody yy.
  destruct (sub_loop_ok x yy 0 Hx Hy Hl ltac:(lia) ltac:(lia)) as (r & -> & Hr & Hlr & Ev). eexists. split; [reflexivity|].
  destruct (trim_ok r Hr) as (H1 & H2 & H3 & H4); [destruct r; [cbn in Hlr; lia|done]|]. split_and!; done || lia.
Qed.

Lemma D_sub_ok x c : digits x -> x <> [] -> digit c -> c <= dval x ->
  digits (D_sub x c) /\ normal (D_sub x c) /\ dval (D_sub x c) = dval x - c /\ (length (D_sub x c) <= length x)%nat.
Proof.
  intros Hx Hne Hc Hle. unfold D_sub. destruct (borrow_loop_ok x c Hx Hc Hle) as (H1 & H2 & H3).
  destruct (trim_ok (borrow_loop x c) H1) as (H4 & H5 & H6 & H7); [by destruct x|]. split_and!; done || lia.
Qed.

Lemma neg_loop_ok y c : digits y -> 0 <= c <= 1 ->
  exists k, 0 <= k <= 1 /\ digits (neg_loop y c) /\ length (neg_loop y c) = length y /\ dval (neg_loop y c) = pw y * k - dval y - c.
Proof.
  intros Hy. revert c. induction Hy as [|b y Hb Hy IH]; intros c Hc; cbn [neg_loop dval length]; [exists c; rewrite pw_nil; split_and!; [lia|lia|constructor|done|lia]|].
  destruct (DSUBb_ok 0 b c digit_0 Hb Hc) as (d & k & E & Hd & Hk & Ev). unfold DSUBb in E. injection E as E1 E2. cbv zeta. rewrite E1 in *. rewrite E2.
  destruct (IH k Hk) as (k' & Hk' & Hr & Hl & Evr). exists k'. rewrite pw_cons. split_and!; try lia. by constructor.
Qed.
Lemma Z_sub_ok y : digits y -> 0 < dval y -> digits (Z_sub y) /\ length (Z_sub y) = length y /\ dval (Z_sub y) = pw y - dval y.
Proof.
  intros Hy Hp. destruct (neg_loop_ok y 0 Hy ltac:(lia)) as (k & Hk & Hd & Hl & Ev). unfold Z_sub. split_and!; [done|done|].
  pose proof (dval_range _ Hd). assert (k <> 0) by (intros ->; lia). assert (k = 1) as -> by lia. lia.
Qed.

(** ** Products *)

Lemma mul_row_ok d y rt c cp : digit d -> digits y -> digits rt -> (length y <= length rt)%nat -> 0 <= c <= 1 -> digit cp ->
  exists ps c' cp', mul_row d y rt c cp = Some (ps, c', cp') /\ digits ps /\ length ps = length y /\ 0 <= c' <= 1 /\ digit cp' /\
    dval ps + pw y * (c' + cp') = d * dval y + dval (take (length y) rt) + c + cp.
Proof.
  intros Hd Hy. revert rt c cp. induction Hy as [|b y Hb Hy IH]; intros rt c cp Hrt Hl Hc Hcp; cbn [mul_row].
  - exists [], c, cp. rewrite pw_nil. cbn [length]. rewrite take_0. cbn [dval]. parts.
  - destruct rt as [|r rt]; [cbn [length] in Hl; lia|]. apply digits_cons in Hrt as [Hr Hrt]. cbn [length] in Hl.
    destruct (DMULc_ok d b cp Hd Hb Hcp) as (p & cp1 & -> & Hp & Hcp1 & E1). destruct (DSUMc_ok p r c Hp Hr Hc) as (p2 & c1 & -> & Hp2 & Hc1 & E2).
    destruct (IH rt c1 cp1) as (ps & c' & cp' & -> & Hps & Hlp & Hc' & Hcp' & Ev); [done|lia|done|done|]. cbn [mbind option_bind].
    exists (p2 :: ps), c', cp'. rewrite pw_cons. cbn [length]. rewrite firstn_cons. cbn [dval]. parts.
Qed.
Lemma mul_row1_ok y rt c : digits y -> digits rt -> (length y <= length rt)%nat -> 0 <= c <= 1 ->
  exists ps c', mul_row1 y rt c = Some (ps, c') /\ digits ps /\ length ps = length y /\ 0 <= c' <= 1 /\
    dval ps + pw y * c' = dval y + dval (take (length y) rt) + c.
Proof.
  intros Hy. revert rt c. induction Hy as [|b y Hb Hy IH]; intros rt c Hrt Hl Hc; cbn [mul_row1].
  - exists [], c. rewrite pw_nil. cbn [length]. rewrite take_0. cbn [dval]. parts.
  - destruct rt as [|r rt]; [cbn [length] in Hl; lia|]. apply digits_cons in Hrt as [Hr Hrt]. cbn [length] in Hl.
    destruct (DSUMc_ok b r c Hb Hr Hc) as (p2 & c1 & -> & Hp2 & Hc1 & E2).
    destruct (IH rt c1) as (ps & c' & -> & Hps & Hlp & Hc' & Ev); [done|lia|done|]. cbn [mbind option_bind].
    exists (p2 :: ps), c'. rewrite pw_cons. cbn [length]. rewrite firstn_cons. cbn [dval]. parts.
Qed.
Lemma mul_row2_ok y rt c cp : digits y -> digits rt -> (length y <= length rt)%nat -> 0 <= c <= 1 -> 0 <= cp <= 1 ->
  exists ps c' cp', mul_row2 y rt c cp = Some (ps, c', cp') /\ digits ps /\ length ps = length y /\ 0 <= c' <= 1 /\ 0 <= cp' <= 1 /\
    dval ps + pw y * (c' + cp') = 2 * dval y + dval (take (length y) rt) + c + cp.
Proof.
  intros Hy. revert rt c cp. induction Hy as [|b y Hb Hy IH]; intros rt c cp Hrt Hl Hc Hcp; cbn [mul_row2].
  - exists [], c, cp. rewrite pw_nil. cbn [length]. rewrite take_0. cbn [dval]. parts.
  - destruct rt as [|r rt]; [cbn [length] in Hl; lia|]. apply digits_cons in Hrt as [Hr Hrt]. cbn [length] in Hl.
    destruct (DSUMc_ok b b cp Hb Hb Hcp) as (p & cp1 & -> & Hp & Hcp1 & E1). destruct (DSUMc_ok p r c Hp Hr Hc) as (p2 & c1 & -> & Hp2 & Hc1 & E2).
    destruct (IH rt c1 cp1) as (ps & c' & cp' & -> & Hps & Hlp & Hc' & Hcp' & Ev); [done|lia|done|done|]. cbn [mbind option_bind].
    exists (p2 :: ps), c', cp'. rewrite pw_cons. cbn [length]. rewrite firstn_cons. cbn [dval]. parts.
Qed.

(** A turn of the outer loop, over a window of as many digits as [y] has. *)
Lemma mul_turn_ok d y w rest : digit d -> digits y -> digits w -> digits rest -> length w = length y ->
  exists ps top, mul_turn d y (w ++ rest) = Some (ps ++ top :: drop 1 rest, top) /\ digits ps /\ length ps = length y /\ digit top /\
    dval ps + pw y * top = d * dval y + dval w.
Proof.
  intros Hd Hy Hw Hrest Hl. unfold mul_turn.
  assert (take (length y) (w ++ rest) = w) as Ht by (rewrite <- Hl; apply take_app_length). assert (length y <= length (w ++ rest))%nat as Hle by (rewrite length_app; lia).
  assert (digits (w ++ rest)) as Hwr by (apply digits_app; done).
  assert (exists ps c cp, (if d =? 0 then if (length (w ++ rest) <? length y)%nat then None else Some (take (length y) (w ++ rest), 0, 0)
      else if d =? 1 then '(ps, c) ← mul_row1 y (w ++ rest) 0; Some (ps, c, 0) else if d =? 2 then mul_row2 y (w ++ rest) 0 0 else mul_row d y (w ++ rest) 0 0)
    = Some (ps, c, cp) /\ digits ps /\ length ps = length y /\ 0 <= c + cp /\ dval ps + pw y * (c + cp) = d * dval y + dval w) as (ps & c & cp & -> & Hps & Hlp & Hc0 & Ev).
  { destruct (Z.eqb_spec d 0) as [->|_]; [|destruct (Z.eqb_spec d 1) as [->|_]; [|destruct (Z.eqb_spec d 2) as [->|_]]].
    - replace (length (w ++ rest) <? length y)%nat with false by (symmetry; by apply Nat.ltb_ge). rewrite Ht. eexists _, _, _. split; [reflexivity|]. parts.
    - destruct (mul_row1_ok y (w ++ rest) 0) as (ps & c & -> & Hps & Hlp & Hc & Ev); [done|done|done|lia|]. rewrite Ht in Ev. eexists _, _, _. split; [reflexivity|]. parts.
    - destruct (mul_row2_ok y (w ++ rest) 0 0) as (ps & c & cp & -> & Hps & Hlp & Hc & Hcp & Ev); [done|done|done|lia|lia|]. rewrite Ht in Ev. eexists _, _, _. split; [reflexivity|]. parts.
    - destruct (mul_row_ok d y (w ++ rest) 0 0) as (ps & c & cp & -> & Hps & Hlp & Hc & Hcp & Ev); [done|done|done|done|lia|dig|]. rewrite Ht in Ev. eexists _, _, _. split; [reflexivity|]. parts. }
  cbn [mbind option_bind]. assert (digit (c + cp)) as Hcc.
  { pose proof (dval_range ps Hps). pose proof (dval_range y Hy). pose proof (dval_range w Hw) as Hrw. rewrite (pw_len w y Hl) in Hrw. pose proof (pw_pos y).
    assert (d * dval y <= (DB - 1) * dval y) by (apply Z.mul_le_mono_nonneg_r; dig). split; [done|]. apply (Z.mul_lt_mono_pos_l (pw y)); lia. }
  rewrite wrapu64_small by done. exists ps, (c + cp). split; [|parts]. do 3 f_equal. f_equal. rewrite skipn_app. rewrite Hl, drop_ge by lia. replace (S (length y) - length y)%nat with 1%nat by lia. done.
Qed.

Lemma mul_loop_ok x y w k rt : digits x -> digits y -> digits w -> y <> [] -> length w = length y ->
  exists f rt', mul_loop x y (w ++ replicate k 0) rt = Some (f ++ replicate (k - length x) 0, rt') /\ digits f /\ length f = (length x + length y)%nat /\
    dval f = dval x * dval y + dval w /\ (x <> [] \/ list.last w = Some rt -> list.last f = Some rt').
Proof.
  intros Hx Hy Hw Hne. revert w k rt Hw. induction Hx as [|d x Hd Hx IH]; intros w k rt Hw Hl; cbn [mul_loop].
  - exists w, rt. rewrite Nat.sub_0_r. cbn [dval length]. parts. by intros [[]|].
  - destruct (mul_turn_ok d y w (replicate k 0) Hd Hy Hw (digits_zeros k) Hl) as (ps & top & -> & Hps & Hlp & Htop & Ev). cbn [mbind option_bind].
    destruct ps as [|p0 ps]; [destruct y; [done|cbn in Hlp; lia]|]. cbn [app length] in *. apply digits_cons in Hps as [Hp0 Hps].
    replace (ps ++ top :: drop 1 (replicate k 0)) with ((ps ++ [top]) ++ replicate (k - 1) 0) by (rewrite <- app_assoc; cbn [app]; by rewrite drop_replicate).
    destruct (IH (ps ++ [top]) (k - 1)%nat top) as (f & rt' & -> & Hf & Hlf & Evf & Hlast); [apply digits_app; split; [done|by apply digits_one]|rewrite length_app; cbn [length]; lia|].
    cbn [mbind option_bind]. exists (p0 :: f), rt'. replace (k - 1 - length x)%nat with (k - S (length x))%nat by lia. cbn [dval length].
    rewrite dval_app in Evf. rewrite (pw_len y (p0 :: ps)), pw_cons in Ev by (cbn [length]; lia). cbn [dval] in *. parts.
    intros _. destruct f; [cbn [length] in Hlf; lia|]. rewrite last_cons_2. apply Hlast. right. by rewrite last_snoc.
Qed.

Lemma normal_pos x : digits x -> normal x -> 0 < dval x -> pw x <= DB * dval x.
Proof.
  intros Hx Nx Hp. destruct (decide (1 < zlen x)); [by apply normal_low|]. destruct x as [|a [|b x]]; [by destruct Nx| |exfalso; zlen_lia].
  rewrite pw_cons, pw_nil. cbn [dval] in *. lia.
Qed.

Lemma pow_succ n : DB ^ Z.of_nat (S n) = DB * DB ^ Z.of_nat n.
Proof. rewrite Nat2Z.inj_succ, Z.pow_succ_r by lia. done. Qed.
Lemma pw_nat l : pw l = DB ^ Z.of_nat (length l).
Proof. done. Qed.
(** The digits that a vector in normal form needs. *)
Lemma normal_size t m : digits t -> normal t -> dval t < DB ^ Z.of_nat m -> (0 < m)%nat -> (length t <= m)%nat.
Proof.
  intros Ht Nt Hv Hm. destruct (le_gt_dec (length t) m) as [|Hgt]; [done|]. exfalso.
  pose proof (normal_low t Ht Nt ltac:(unfold zlen; lia)) as Hlow. rewrite pw_nat in Hlow.
  assert (DB ^ Z.of_nat (S m) <= DB ^ Z.of_nat (length t)) by (apply Z.pow_le_mono_r; lia). rewrite pow_succ in *. lia.
Qed.
(** Zeros below. *)
Lemma normal_zeros n q : digits q -> normal q -> 1 <= dval q ->
  digits (replicate n 0 ++ q) /\ normal (replicate n 0 ++ q) /\ dval (replicate n 0 ++ q) = dval q * DB ^ Z.of_nat n.
Proof.
  intros Hq Nq Hv. assert (dval (replicate n 0 ++ q) = dval q * DB ^ Z.of_nat n) as E.
  { rewrite dval_app, dval_zeros, pw_nat, length_replicate. lia. }
  assert (digits (replicate n 0 ++ q)) as Hd by (apply digits_app; split; [apply digits_zeros|done]). split; [done|]. split; [|done].
  apply normal_intro; [done|destruct n; [by destruct q; [destruct Nq|]|done]|]. intros _. rewrite E, pw_app, pw_nat, length_replicate.
  pose proof (normal_pos q Hq Nq ltac:(lia)) as Hp. assert (0 < DB ^ Z.of_nat n) by (apply Z.pow_pos_nonneg; lia).
  assert (DB ^ Z.of_nat n * pw q <= DB ^ Z.of_nat n * (DB * dval q)) by (apply Z.mul_le_mono_nonneg_l; lia). lia.
Qed.

Lemma I_mul_ok x y : digits x -> digits y -> y <> [] -> (length y <= length x)%nat ->
  exists r, I_mul x y = Some r /\ digits r /\ r <> [] /\ dval r = dval x * dval y /\ (length r <= length x + length y)%nat /\
    (normal x -> normal y -> 0 < dval x -> 0 < dval y -> normal r).
Proof.
  intros Hx Hy Hne Hl. unfold I_mul. assert (0 < length y)%nat as Hl0 by (destruct y; [done|cbn; lia]).
  replace (replicate (length x) 0) with (replicate (length y) 0 ++ replicate (length x - length y) 0) by (rewrite <- replicate_add; f_equal; lia).
  destruct (mul_loop_ok x y (replicate (length y) 0) (length x - length y) 0 Hx Hy (digits_zeros _) Hne) as (f & rt & -> & Hf & Hlf & Ev & Hlast); [by rewrite length_replicate|].
  rewrite dval_zeros, Z.add_0_r in Ev. cbn [mbind option_bind]. replace (length x - length y - length x)%nat with 0%nat by lia. cbn [replicate]. rewrite app_nil_r.
  assert (list.last f = Some rt) as Hlf2 by (apply Hlast; left; destruct x; [cbn in Hl; lia|done]). clear Hlast.
  assert (forall r, digits r -> (0 < length r)%nat -> (length x + length y <= S (length r))%nat -> dval r = dval x * dval y -> normal x -> normal y -> 0 < dval x -> 0 < dval y ->
    (S (length r) = length x + length y)%nat -> normal r) as Hnorm.
  { intros r Hr Hr0 Hrl Er Nx Ny Px Py El. apply normal_intro; [done|by apply nonempty|]. intros _. pose proof (normal_pos x Hx Nx Px) as Bx. pose proof (normal_pos y Hy Ny Py) as By.
    assert (DB * pw r = pw x * pw y) as Epw by (unfold pw, zlen; rewrite <- Z.pow_add_r, <- Z.pow_succ_r by lia; f_equal; lia).
    assert (pw x * pw y <= (DB * dval x) * (DB * dval y)) by (apply Z.mul_le_mono_nonneg; try done; apply Z.lt_le_incl, pw_pos). rewrite Er. lia. }
  destruct (Z.eqb_spec rt 0) as [->|Hrt].
  - destruct f as [|t f] using rev_ind; [done|]. clear IHf. rewrite last_snoc in Hlf2. injection Hlf2 as ->. rewrite length_app in Hlf. cbn [length] in Hlf.
    replace (length x + length y - 1)%nat with (length f) by lia. rewrite take_app_length. apply digits_app in Hf as [Hf _]. rewrite dval_app in Ev. cbn [dval] in Ev.
    eexists. split; [reflexivity|]. parts; [apply nonempty; lia|]. intros. apply Hnorm; done || lia.
  - rewrite <- Hlf, firstn_all. eexists. split; [reflexivity|]. parts; [apply nonempty; lia|]. intros. split; [apply nonempty; lia|]. rewrite Hlf2. by intros [= ->].
Qed.

(** The product with a digit. *)
Lemma mulc_loop_ok d x c : digit d -> digits x -> digit c ->
  exists r c', mulc_loop d x c = (r, c') /\ digits r /\ length r = length x /\ digit c' /\ dval r + pw x * c' = d * dval x + c.
Proof.
  intros Hd Hx. revert c. induction Hx as [|a x Ha Hx IH]; intros c Hc; cbn [mulc_loop].
  - exists [], c. rewrite pw_nil. cbn [dval]. parts.
  - destruct (DMULc_ok d a c Hd Ha Hc) as (p & c1 & -> & Hp & Hc1 & E). destruct (IH c1 Hc1) as (r & c' & -> & Hr & Hl & Hc' & Ev).
    exists (p :: r), c'. rewrite pw_cons. cbn [dval length]. parts.
Qed.
Lemma double_loop_ok x c : digits x -> 0 <= c <= 1 ->
  exists r c', double_loop x c = (r, c') /\ digits r /\ length r = length x /\ 0 <= c' <= 1 /\ dval r + pw x * c' = 2 * dval x + c.
Proof.
  intros Hx. revert c. induction Hx as [|a x Ha Hx IH]; intros c Hc; cbn [double_loop].
  - exists [], c. rewrite pw_nil. cbn [dval]. parts.
  - destruct (DSUMc_ok a a c Ha Ha Hc) as (p & c1 & -> & Hp & Hc1 & E). destruct (IH c1 Hc1) as (r & c' & -> & Hr & Hl & Hc' & Ev).
    exists (p :: r), c'. rewrite pw_cons. cbn [dval length]. parts.
Qed.

Lemma D_mul_ok x d : digits x -> normal x -> digit d ->
  digits (D_mul x d) /\ normal (D_mul x d) /\ dval (D_mul x d) = dval x * d /\ (length (D_mul x d) <= S (length x))%nat.
Proof.
  intros Hx Nx Hd. unfold D_mul. pose proof (dval_range x Hx). assert (0 < length x)%nat as Hl0 by (destruct x; [by destruct Nx|cbn; lia]). destruct (Z.eqb_spec d 0) as [->|H0].
  { split; [apply digits_one, digit_0|]. split; [apply normal_singleton, digit_0|]. cbn [dval length]. lia. }
  destruct (Z.eqb_spec d 1) as [->|H1]; [parts|].
  assert (exists r c, (if d =? 2 then double_loop x 0 else mulc_loop d x 0) = (r, c) /\ digits r /\ length r = length x /\ digit c /\ dval r + pw x * c = d * dval x) as (r & c & -> & Hr & Hl & Hc & Ev).
  { destruct (Z.eqb_spec d 2) as [->|].
    - destruct (double_loop_ok x 0 Hx ltac:(lia)) as (r & c & -> & Hr & Hl & Hc & Ev). exists r, c. parts.
    - destruct (mulc_loop_ok d x 0 Hd Hx digit_0) as (r & c & -> & Hr & Hl & Hc & Ev). exists r, c. parts. }
  destruct (Z.eqb_spec c 0) as [->|Hc0].
  - parts. apply (normal_ge x); [done|done|done|by left|]. assert (1 * dval x <= d * dval x) by (apply Z.mul_le_mono_nonneg_r; dig). lia.
  - rewrite digits_app, dval_app, length_app, (pw_len r x Hl). cbn [dval length]. parts. split; [by destruct r|]. rewrite last_snoc. by intros [= ->].
Qed.

(** ** A multiple is subtracted *)

Lemma mulsub_loop_ok x d y c b : digits x -> digit d -> digits y -> (length y <= length x)%nat -> digit c -> 0 <= b <= 1 ->
  exists r c' b', mulsub_loop x d y c b = Some (r, drop (length y) x, c', b') /\ digits r /\ length r = length y /\ digit c' /\ 0 <= b' <= 1 /\
    dval r - pw y * (c' + b') = dval (take (length y) x) - d * dval y - c - b.
Proof.
  intros Hx Hd Hy. revert x c b Hx. induction Hy as [|e y He Hy IH]; intros x c b Hx Hl Hc Hb; cbn [mulsub_loop].
  - exists [], c, b. rewrite pw_nil. cbn [length]. rewrite take_0. cbn [dval]. parts.
  - destruct x as [|a x]; [cbn [length] in Hl; lia|]. apply digits_cons in Hx as [Ha Hx]. cbn [length] in Hl.
    destruct (DMULc_ok d e c Hd He Hc) as (c0 & c1 & -> & Hc0 & Hc1 & E1). destruct (DSUBb_ok a c0 b Ha Hc0 Hb) as (t & b1 & -> & Ht & Hb1 & E2).
    destruct (IH x c1 b1) as (r & c' & b' & -> & Hr & Hlr & Hc' & Hb' & Ev); [done|lia|done|done|]. cbn [mbind option_bind].
    exists (t :: r), c', b'. rewrite pw_cons. cbn [length]. rewrite firstn_cons. cbn [dval]. parts.
Qed.

Lemma D_mulsub_ok x d y : digits x -> digit d -> digits y -> (length x = length y \/ length x = S (length y)) ->
  exists r neg k, D_mulsub x d y = Some (r, neg) /\ digits r /\ length r = length x /\ 0 <= k /\ dval r = dval x - d * dval y + pw x * k /\ (neg = false <-> k = 0).
Proof.
  intros Hx Hd Hy Hl. unfold D_mulsub. destruct (mulsub_loop_ok x d y 0 0) as (r & c & b & -> & Hr & Hlr & Hc & Hb & Ev); [done|done|done|lia|apply digit_0|lia|].
  cbn [mbind option_bind]. pose proof (take_drop (length y) x) as Etd. destruct (drop (length y) x) as [|t rest] eqn:Ed.
  - assert (length x = length y) as El by (apply (f_equal length) in Ed; rewrite length_drop in Ed; cbn in Ed; lia). rewrite app_nil_r in Etd. rewrite Etd in Ev.
    exists r, (negb ((c =? 0) && (b =? 0))), (c + b). rewrite (pw_len x y El). parts.
  - assert (rest = []) as ->. { apply (f_equal length) in Ed. rewrite length_drop in Ed. cbn [length] in Ed. destruct rest; [done|cbn [length] in Ed; lia]. }
    assert (digit t) as Ht. { rewrite <- Etd in Hx. apply digits_app in Hx as [_ Hx]. by apply digits_cons in Hx as [? _]. }
    destruct (DSUBb_ok t c b Ht Hc Hb) as (u & b' & -> & Hu & Hb' & E). exists (r ++ [u]), (negb (b' =? 0)), b'.
    rewrite digits_app, dval_app, length_app, (pw_len r y Hlr). cbn [dval length].
    assert (dval x = dval (take (length y) x) + pw y * t) as Edx. { rewrite <- Etd at 1. rewrite dval_app. cbn [dval]. rewrite (pw_len (take (length y) x) y) by (rewrite length_take; lia). lia. }
    assert (pw x = pw y * DB) as Epx. { rewrite <- Etd, pw_app, pw_cons, pw_nil. rewrite (pw_len (take (length y) x) y) by (rewrite length_take; lia). lia. }
    assert (length x = S (length y)) as El by (apply (f_equal length) in Ed; rewrite length_drop in Ed; cbn in Ed; lia).
    rewrite Edx, Epx. parts.
Qed.

(** ** The quotient by a digit *)

Lemma div_turn_ok d a1 a0 : digit d -> digit a0 -> 0 <= a1 < d ->
  exists q0 a', div_turn d a1 a0 = Some (q0, a') /\ digit q0 /\ 0 <= a' < d /\ DB * a1 + a0 = q0 * d + a'.
Proof.
  intros Hd Ha0 Ha1. unfold div_turn. rewrite DDIV_ok by (done || dig). cbn [mbind option_bind].
  pose proof (Z.div_mod (DB * a1 + a0) d ltac:(lia)) as E. pose proof (Z.mod_pos_bound (DB * a1 + a0) d ltac:(lia)) as Hr.
  set (q := (DB * a1 + a0) / d) in *. set (r := (DB * a1 + a0) mod d) in *. assert (digit q) as Hq.
  { unfold digit in *. split; [apply Z.div_pos; lia|]. apply Z.div_lt_upper_bound; nia. }
  clearbody q r. destruct (DMUL_ok d q Hd Hq) as (b0 & b1 & -> & Hb0 & Hb1 & Eb). destruct (DSUB_ok a0 b0 Ha0 Hb0) as (t & k & -> & Ht & Hk & Et).
  exists q, t. split; [reflexivity|]. split; [done|]. assert (t = r) as ->; [|lia]. unfold digit in *. lia.
Qed.

Lemma reverse_cons_app {A} (a : A) l : reverse (a :: l) = reverse l ++ [a].
Proof. apply reverse_cons. Qed.
Lemma pw_reverse l : pw (reverse l) = pw l.
Proof. apply pw_len, length_reverse. Qed.
Lemma digits_reverse l : digits (reverse l) <-> digits l.
Proof. apply Forall_reverse. Qed.

Lemma div_loop_ok d : digit d -> forall xs fuel a1, digits xs -> xs <> [] -> 0 <= a1 < d -> (length xs <= fuel)%nat ->
  exists q r, div_loop fuel d a1 xs = Some (q, r) /\ digits q /\ length q = length xs /\ 0 <= r < d /\
    dval (reverse xs) + pw xs * a1 = dval (reverse q) * d + r /\ (1 <= a1 -> exists q0 q', q = q0 :: q' /\ 1 <= q0).
Proof.
  intros Hd. induction xs as [|a0 xs IH]; intros fuel a1 Hxs Hne Ha1 Hf; [done|]. apply digits_cons in Hxs as [Ha0 Hxs]. cbn [length] in Hf.
  destruct fuel as [|fuel]; [lia|]. cbn [div_loop]. replace (a1 <? d) with true by lia.
  destruct (div_turn_ok d a1 a0 Hd Ha0 Ha1) as (q0 & a' & -> & Hq0 & Ha' & E). cbn [mbind option_bind].
  assert (1 <= a1 -> 1 <= q0) as Hq1 by (intros H1; assert (0 < q0); [|lia]; apply (Z.mul_lt_mono_pos_r d); dig).
  destruct xs as [|x xs].
  - exists [q0], a'. change (reverse [a0]) with [a0]. change (reverse [q0]) with [q0]. rewrite pw_cons, pw_nil. cbn [dval]. parts. intros. exists q0, []. auto.
  - destruct (IH fuel a') as (q & r & -> & Hq & Hl & Hr & Ev & _); [done|done|done|lia|]. cbn [mbind option_bind]. exists (q0 :: q), r.
    rewrite pw_cons. rewrite (reverse_cons_app a0), (reverse_cons_app q0), !dval_app, !pw_reverse, (pw_len q (x :: xs) Hl). set (P := pw (x :: xs)) in *. cbn [dval length] in *. parts. intros. exists q0, q. auto.
Qed.

Lemma D_div_ok x d : digits x -> normal x -> digit d -> 0 < d ->
  exists q r, D_div x d = Some (q, r) /\ digits q /\ normal q /\ 0 <= r < d /\ dval x = dval q * d + r /\ (length q <= length x)%nat.
Proof.
  intros Hx Nx Hd Hd0. unfold D_div. destruct x as [|a1 x] using rev_ind; [by destruct Nx|]. clear IHx. rewrite reverse_app. cbn [reverse rev_append app].
  apply digits_app in Hx as [Hx Ha1%digits_cons]. destruct Ha1 as [Ha1 _]. rewrite dval_app, length_app. cbn [dval length].
  destruct (Z.ltb_spec a1 d) as [Hlt|Hge]; cbn [andb].
  - case_bool_decide as Ex.
    + assert (x = []) as -> by (apply (f_equal reverse) in Ex; by rewrite reverse_involutive in Ex). exists [0], a1. rewrite pw_nil. cbn [dval length].
      parts.
    + destruct (div_loop_ok d Hd (reverse x) (S (length x + 1)) a1) as (q & r & -> & Hq & Hl & Hr & Ev & H1); [by apply digits_reverse|done|dig|rewrite length_reverse; lia|].
      cbn [mbind option_bind]. rewrite reverse_involutive, pw_reverse in Ev. rewrite length_reverse in Hl. exists (reverse q), r. rewrite length_reverse. parts; [by apply digits_reverse|].
      assert (a1 <> 0) as Hn0. { intros ->. destruct Nx as [_ Nx]. rewrite last_snoc in Nx. specialize (Nx eq_refl). destruct x as [|? [|]]; done. }
      destruct H1 as (q0 & q' & -> & Hq0); [dig|]. rewrite reverse_cons. split; [by destruct (reverse q')|]. rewrite last_snoc. intros [= ->]. lia.
  - cbn [div_loop]. replace (a1 <? d) with false by lia. destruct (div_turn_ok d 0 a1 Hd Ha1 ltac:(lia)) as (q0 & a' & -> & Hq0 & Ha' & E). cbn [mbind option_bind].
    assert (1 <= q0) as H1 by (assert (0 < q0); [|lia]; apply (Z.mul_lt_mono_pos_r d); dig).
    destruct (reverse x) as [|x0 xs] eqn:Ex.
    + assert (x = []) as -> by (apply (f_equal reverse) in Ex; by rewrite reverse_involutive in Ex). cbn [mbind option_bind]. exists [q0], a'. change (reverse [q0]) with [q0].
      rewrite pw_nil. cbn [dval length]. parts. by apply normal_singleton.
    + rewrite <- Ex. assert (x <> []) by (intros ->; done).
      destruct (div_loop_ok d Hd (reverse x) (length x + 1) a') as (q & r & -> & Hq & Hl & Hr & Ev & _); [by apply digits_reverse|by rewrite Ex|lia|rewrite length_reverse; lia|].
      cbn [mbind option_bind]. rewrite reverse_involutive, pw_reverse in Ev. rewrite length_reverse in Hl. exists (reverse (q0 :: q)), r. rewrite reverse_cons_app, dval_app, pw_reverse, (pw_len q x Hl), length_app, length_reverse. cbn [dval length].
      rewrite digits_app, digits_reverse. parts.
      split; [by destruct (reverse q)|]. rewrite last_snoc. intros [= ->]. lia.
Qed.
End Laws.
