(* ===== verification/BigMul.v ===== *)
(** * Squares and Karatsuba's product of vectors of digits: [erts/emulator/beam/big.c]

    [I_mul_karatsuba] halves operands of 16 digits and more and needs three products of
    the halves; below that it takes [I_mul] or, when both operands are the same vector,
    [I_sqr]. *)
From S2P Require Import Prelude PutGet BigDigit BigNat.

Section Products.
Context {M : DigitMacros}.

(** ** The code *)

(** [while(y_l--) {...}] of [I_sqr] over the digits of [y] and those at [s]: the digits
    that were written, what is left at [s], [z1] and [y_0], [y_1], [y_2], [y_3]. *)
Fixpoint sqr_row (d : Z) (y s : list Z) (z1 y_0 y_1 y_2 y_3 : Z) : option (list Z * list Z * Z * (Z * Z * Z * Z)) :=
  match y with
  | [] => Some ([], s, z1, (y_0, y_1, y_2, y_3))
  | yd :: y =>
      match s with
      | [] => None
      | s0 :: s =>
          let '(b0, b1) := DMUL d yd in
          let '(z0, y_0) := DSUMc b0 b0 y_0 in
          let '(z2, y_2) := DSUMc z0 z1 y_2 in
          let '(t, y_3) := DSUMc s0 z2 y_3 in
          let '(z1, y_1) := DSUMc b1 b1 y_1 in
          '(ts, s, z1, ys) ← sqr_row d y s z1 y_0 y_1 y_2 y_3; Some (t :: ts, s, z1, ys)
      end
  end.
(** A turn of the outer loop for the digit [d], [y] being those above it: the digits at
    [r] that were there or were written.  The digit above those is only written when
    there is another turn. *)
Definition sqr_turn (d : Z) (y r : list Z) : option (list Z) :=
  if d =? 0 then
    if (length r <? length y + 2)%nat then None
    else Some (take (length y + 2) r ++ match y with [] => [] | _ => [0] end)
  else
    let '(b0, b1) := DMUL d d in
    match r with
    | [] => None
    | s0 :: s =>
        let '(t, y_3) := DSUMc s0 b0 0 in
        '(ts, s, z1, (y_0, y_1, y_2, y_3)) ← sqr_row d y s b1 0 0 0 y_3;
        match s with
        | [] => None
        | s1 :: _ =>
            let '(z2, y_2) := DSUMc y_0 z1 y_2 in
            let '(t', y_3) := DSUMc s1 z2 y_3 in
            Some (t :: ts ++ t' :: match y with [] => [] | _ => [wrapu 64 (y_1 + y_2 + y_3)] end)
        end
    end.
(** All digits from [r] on at the end. *)
Fixpoint sqr_loop (x r : list Z) : option (list Z) :=
  match x with
  | [] => Some r
  | d :: x =>
      r ← sqr_turn d x r;
      match x, r with
      | [], _ => Some r
      | _, r0 :: r1 :: r => rs ← sqr_loop x r; Some (r0 :: r1 :: rs)
      | _, _ => None
      end
  end.
(** [s] is at the last digit. *)
Definition I_sqr (x : list Z) : option (list Z) :=
  r ← sqr_loop x (replicate (length x + 1) 0);
  s ← list.last r;
  Some (if s =? 0 then take (length r - 1) r else r).

(** [I_OPERATION]: the longer operand first. *)
Definition I_OPERATION {A} (op : list Z -> list Z -> A) (x y : list Z) : A :=
  if (length y <=? length x)%nat then op x y else op y x.

(** [same] is [x == y] of the pointers; then the halves are the same vectors as well. *)
Fixpoint I_mul_karatsuba (fuel : nat) (same : bool) (x y : list Z) : option (list Z) :=
  match fuel with
  | O => None
  | S fuel =>
      if (length y <? 16)%nat then
        if same && (1 <? length x)%nat then I_sqr x else I_mul x y
      else
        let m := ((length x + 1) / 2)%nat in
        let low_x := trim (take m x) in
        let high_x := drop m x in
        let high_y_zero := (length y <=? m)%nat in
        let high_y := if high_y_zero then [0] else drop m y in
        let low_y := trim (if high_y_zero then y else take m y) in
        z0 ← I_OPERATION (I_mul_karatsuba fuel same) low_x low_y;
        let z0_buf := z0 ++ replicate (2 * m - length z0) 0 in
        let z0 := trim z0 in
        z2 ← (if high_y_zero then Some [0]
              else z2 ← I_OPERATION (I_mul_karatsuba fuel same) high_x high_y; Some (trim z2));
        '(diff0, negative) ← (if 0 <=? I_comp low_x high_x then d ← I_sub low_x high_x; Some (d, false)
                              else d ← I_sub high_x low_x; Some (d, true));
        '(diff1, negative) ← (if same then Some (diff0, true)
                              else if 0 <=? I_comp high_y low_y then d ← I_sub high_y low_y; Some (d, negative)
                              else if high_y_zero then Some (low_y, negb negative)
                              else d ← I_sub low_y high_y; Some (d, negb negative));
        tmp ← I_OPERATION (I_mul_karatsuba fuel same) diff0 diff1;
        let tmp := trim tmp in
        z1 ← I_OPERATION I_add z0 z2;
        z1 ← (if negative : bool then I_sub z1 tmp else I_OPERATION I_add z1 tmp);
        res ← I_OPERATION I_add (drop m z0_buf ++ z2) z1;
        Some (trim (take m z0_buf ++ res))
  end.

End Products.

(** ** Squares *)

Section Laws.
Context {M : DigitMacros} {L : DigitLaws M}.

Lemma sqr_row_ok d y : digit d -> digits y -> forall s z1 y_0 y_1 y_2 y_3, digits s -> (length y <= length s)%nat -> digit z1 ->
  0 <= y_0 <= 1 -> 0 <= y_1 <= 1 -> 0 <= y_2 <= 1 -> 0 <= y_3 <= 1 ->
  exists ts z1' y_0' y_1' y_2' y_3', sqr_row d y s z1 y_0 y_1 y_2 y_3 = Some (ts, drop (length y) s, z1', (y_0', y_1', y_2', y_3')) /\ digits ts /\ length ts = length y /\ digit z1' /\
    0 <= y_0' <= 1 /\ 0 <= y_1' <= 1 /\ 0 <= y_2' <= 1 /\ 0 <= y_3' <= 1 /\
    dval ts + pw y * (z1' + y_0' + y_2' + y_3' + DB * y_1') = dval (take (length y) s) + 2 * d * dval y + z1 + y_0 + y_2 + y_3 + DB * y_1.
Proof using L.
  intros Hd Hy. induction Hy as [|yd y Hyd Hy IH]; intros s z1 y_0 y_1 y_2 y_3 Hs Hl Hz H0 H1 H2 H3; cbn [sqr_row length].
  - exists [], z1, y_0, y_1, y_2, y_3. rewrite drop_0, take_0, pw_nil. cbn [dval length]. parts.
  - destruct s as [|s0 s]; cbn [length] in Hl; [lia|]. apply digits_cons in Hs as [Hs0 Hs].
    destruct (DMUL_ok d yd Hd Hyd) as (b0 & b1 & -> & Hb0 & Hb1 & Eb). destruct (DSUMc_ok b0 b0 y_0 Hb0 Hb0 H0) as (z0 & c0 & -> & Hz0 & Hc0 & E0).
    destruct (DSUMc_ok z0 z1 y_2 Hz0 Hz H2) as (z2 & c2 & -> & Hz2 & Hc2 & E2). destruct (DSUMc_ok s0 z2 y_3 Hs0 Hz2 H3) as (t & c3 & -> & Ht & Hc3 & E3).
    destruct (DSUMc_ok b1 b1 y_1 Hb1 Hb1 H1) as (z1' & c1 & -> & Hz1' & Hc1 & E1).
    destruct (IH s z1' c0 c1 c2 c3 Hs ltac:(lia) Hz1' Hc0 Hc1 Hc2 Hc3) as (ts & z & e0 & e1 & e2 & e3 & -> & Hts & Hlt & Hz' & He0 & He1 & He2 & He3 & E).
    cbn [mbind option_bind]. exists (t :: ts), z, e0, e1, e2, e3. split; [done|]. split; [by constructor|]. cbn [length dval]. rewrite firstn_cons, pw_cons. cbn [dval].
    split; [lia|]. split; [done|]. split_and!; lia.
Qed.

Lemma sqr_turn_ok d y r : digit d -> digits y -> digits r -> length r = (length y + 2)%nat -> dval r + (dval (d :: y)) ^ 2 < pw (d :: y) ^ 2 ->
  exists r', sqr_turn d y r = Some r' /\ digits r' /\ length r' = (length y + match y with [] => 2 | _ => 3 end)%nat /\ dval r' = dval r + d * d + DB * (2 * d * dval y).
Proof using L.
  intros Hd Hy Hr Hl Hlt. unfold sqr_turn. destruct (Z.eqb_spec d 0) as [->|Hd0].
  - replace (length r <? length y + 2)%nat with false by (symmetry; apply Nat.ltb_ge; lia). rewrite take_ge by lia. eexists. split; [reflexivity|].
    destruct y; [rewrite app_nil_r; cbn [length dval] in *; parts|]. split; [apply digits_app; split; [done|apply digits_one, digit_0]|]. split; [rewrite length_app; cbn [length] in *; lia|]. rewrite dval_app. cbn [dval]. lia.
  - destruct (DMUL_ok d d Hd Hd) as (b0 & b1 & -> & Hb0 & Hb1 & Eb). destruct r as [|s0 s]; cbn [length] in Hl; [lia|]. apply digits_cons in Hr as [Hs0 Hs].
    destruct (DSUMc_ok s0 b0 0 Hs0 Hb0 ltac:(lia)) as (t & c & -> & Ht & Hc & Et).
    destruct (sqr_row_ok d y Hd Hy s b1 0 0 0 c) as (ts & z1 & y0 & y1 & y2 & y3 & -> & Hts & Hlts & Hz1 & H0 & H1 & H2 & H3 & E); [done|lia|done|lia..|]. cbn [mbind option_bind].
    destruct (drop (length y) s) as [|s1 rest] eqn:Ed; [apply (f_equal length) in Ed; rewrite length_drop in Ed; cbn [length] in Ed; lia|].
    assert (rest = []) as -> by (apply (f_equal length) in Ed; rewrite length_drop in Ed; cbn [length] in Ed; destruct rest; [done|cbn [length] in Ed; lia]).
    assert (s = take (length y) s ++ [s1]) as Es by (rewrite <- Ed; symmetry; apply take_drop). assert (digit s1) as Hs1 by (rewrite Es in Hs; apply digits_app in Hs as [_ Hs]; by apply digits_cons in Hs as [? _]).
    destruct (DSUMc_ok y0 z1 y2 ltac:(dig) Hz1 H2) as (z2 & e2 & -> & Hz2 & He2 & E2). destruct (DSUMc_ok s1 z2 y3 Hs1 Hz2 H3) as (t' & e3 & -> & Ht' & He3 & E3).
    assert (dval (s0 :: s) = s0 + DB * (dval (take (length y) s) + pw y * s1)) as Er.
    { cbn [dval]. rewrite Es at 1. rewrite dval_app. cbn [dval]. rewrite (pw_len (take (length y) s) y) by (rewrite length_take; lia). lia. }
    assert (t + DB * (dval ts + pw y * (t' + DB * (y1 + e2 + e3))) = dval (s0 :: s) + d * d + DB * (2 * d * dval y)) as Ev.
    { rewrite Er. assert (pw y * (t' + DB * (y1 + e2 + e3)) = pw y * s1 + pw y * (z1 + y0 + y2 + y3 + DB * y1)) as -> by (rewrite <- Z.mul_add_distr_l; f_equal; lia). lia. }
    eexists. split; [reflexivity|]. rewrite <- Ev. clear Ev.
    destruct y as [|y' y].
    + cbn [length dval] in *. destruct ts; [|cbn [length] in Hlts; lia]. rewrite pw_nil in *. cbn [app dval]. rewrite pw_cons, pw_nil in Hlt. assert (y1 + e2 + e3 = 0) as ->; [|split; [by constructor; [|apply digits_one]|]; split; [done|lia]].
      unfold digit in *. cbn [length take dval] in *. nia.
    + split. { constructor; [done|]. apply digits_app. split; [done|]. constructor; [done|]. apply digits_one, wrapu64_digit. }
      split; [cbn [length]; rewrite length_app; cbn [length] in *; lia|]. cbn [dval]. rewrite dval_app, (pw_len ts (y' :: y)) by done. cbn [dval]. rewrite wrapu64_small by dig. lia.
Qed.

Lemma sqr_loop_ok x r : digits x -> x <> [] -> digits r -> length r = (length x + 1)%nat -> dval r + dval x ^ 2 < pw x ^ 2 ->
  exists rs, sqr_loop x r = Some rs /\ digits rs /\ length rs = (2 * length x)%nat /\ dval rs = dval r + dval x ^ 2.
Proof using L.
  intros Hx. revert r. induction Hx as [|d x Hd Hx IH]; intros r Hne Hr Hl Hlt; [done|]. cbn [sqr_loop]. cbn [length] in *.
  destruct (sqr_turn_ok d x r Hd Hx Hr ltac:(lia) Hlt) as (r' & -> & Hr' & Hl' & E). cbn [mbind option_bind]. destruct x as [|e x].
  - exists r'. cbn [dval length] in *. parts.
  - set (y := e :: x) in *. destruct r' as [|r0 [|r1 r']]; [cbn [length] in *; lia..|]. apply digits_cons in Hr' as [Hr0 [Hr1 Hr']%digits_cons]. cbn [dval] in E.
    assert (dval r + (d + DB * dval y) ^ 2 = r0 + DB * r1 + DB * DB * (dval r' + dval y ^ 2)) as E2.
    { assert ((d + DB * dval y) ^ 2 = d * d + DB * (2 * d * dval y) + DB * DB * dval y ^ 2) as -> by ring. lia. }
    assert (pw (d :: y) ^ 2 = DB * DB * pw y ^ 2) as Ep by (rewrite pw_cons; ring). cbn [dval] in Hlt |- *. fold y in Hlt. cbn [dval] in Hlt. fold (dval y) in Hlt. rewrite Ep in Hlt.
    destruct (IH r') as (rs & -> & Hrs & Hlrs & Ers); [done|done|cbn [length] in *; lia|dig|]. cbn [mbind option_bind].
    exists (r0 :: r1 :: rs). split; [done|]. split; [by do 2 (apply digits_cons; split; [done|])|]. split; [cbn [length] in *; lia|]. cbn [dval]. rewrite Ers. lia.
Qed.

Lemma I_sqr_ok x : digits x -> x <> [] ->
  exists r, I_sqr x = Some r /\ digits r /\ r <> [] /\ dval r = dval x * dval x /\ (length r <= 2 * length x)%nat /\ (normal x -> 0 < dval x -> normal r).
Proof using L.
  intros Hx Hne. unfold I_sqr. pose proof (dval_range x Hx) as Rx. assert (0 < length x)%nat as Hlx by (destruct x; [done|cbn; lia]).
  destruct (sqr_loop_ok x (replicate (length x + 1) 0) Hx Hne) as (rs & -> & Hrs & Hl & E); [apply digits_zeros|by rewrite length_replicate|rewrite dval_zeros; apply Z.pow_lt_mono_l; lia|].
  cbn [mbind option_bind]. rewrite dval_zeros in E. destruct rs as [|s rs] using rev_ind; [cbn [length] in Hl; lia|]. clear IHrs. rewrite last_snoc. cbn [mbind option_bind].
  rewrite length_app in *. cbn [length] in *. replace (length rs + 1 - 1)%nat with (length rs + 0)%nat by lia. rewrite firstn_app_2, take_0, app_nil_r. pose proof Hrs as [Hrs' [Hs _]%digits_cons]%digits_app.
  assert (rs <> []) as Hrne by (apply nonempty; lia). eexists. split; [reflexivity|]. rewrite dval_app in E. cbn [dval] in E. destruct (Z.eqb_spec s 0) as [->|Hs0].
  - split; [done|]. split; [done|]. split; [lia|]. split; [lia|]. intros Nx Hpos. apply normal_intro; [done|done|]. intros _. pose proof (normal_pos x Hx Nx Hpos) as Hn.
    assert (DB * pw rs = pw x * pw x) as Ep. { rewrite !pw_nat, <- pow_succ, <- Z.pow_add_r by lia. f_equal. lia. }
    assert (pw x * pw x <= (DB * dval x) * (DB * dval x)) by (apply Z.mul_le_mono_nonneg; lia). lia.
  - split; [done|]. split; [by destruct rs|]. split; [rewrite dval_app; cbn [dval]; lia|]. split; [rewrite length_app; cbn [length]; lia|]. intros _ _. split; [by destruct rs|]. rewrite last_snoc. by intros [= ->].
Qed.

(** ** Karatsuba's product *)

Lemma normal_le_length x y : digits x -> digits y -> normal x -> normal y -> dval y <= dval x -> (length y <= length x)%nat.
Proof. intros Hx Hy Nx Ny Hle. destruct (le_gt_dec (length y) (length x)) as [|Hgt]; [done|]. pose proof (normal_longer x y Hx Hy Ny Hgt (proj1 Nx)). lia. Qed.

Lemma op_add_ok x y : digits x -> digits y -> x <> [] -> y <> [] ->
  exists r, I_OPERATION I_add x y = Some r /\ digits r /\ r <> [] /\ dval r = dval x + dval y /\ (normal x -> normal y -> normal r).
Proof using L.
  intros Hx Hy Hnx Hny. unfold I_OPERATION. destruct (Nat.leb_spec (length y) (length x)).
  - destruct (I_add_ok x y Hx Hy ltac:(lia) Hny) as (r & -> & H1 & H2 & H3 & H4). exists r. split; [done|]. split; [done|]. split; [apply nonempty; destruct x; [done|cbn [length] in *; lia]|]. split; [lia|]. intros Nx _. by apply H3.
  - destruct (I_add_ok y x Hy Hx ltac:(lia) Hnx) as (r & -> & H1 & H2 & H3 & H4). exists r. split; [done|]. split; [done|]. split; [apply nonempty; destruct y; [done|cbn [length] in *; lia]|]. split; [lia|]. intros _ Ny. by apply H3.
Qed.

(** The absolute value of a difference, and its sign. *)
Definition diff_sign (negative : bool) : Z := if negative then -1 else 1.
Lemma sub_normal_ok x y : digits x -> digits y -> normal x -> normal y -> dval y <= dval x ->
  exists r, I_sub x y = Some r /\ digits r /\ normal r /\ dval r = dval x - dval y /\ (length r <= length x)%nat.
Proof. intros Hx Hy Nx Ny Hle. apply I_sub_ok; [done..|by apply normal_le_length|apply Ny|done]. Qed.
Lemma comp_ge a b : digits a -> digits b -> normal a -> normal b -> (0 <=? I_comp a b) = (dval b <=? dval a).
Proof. intros. rewrite I_comp_ok by done. unfold cmp3. destruct (Z.ltb_spec (dval a) (dval b)), (Z.ltb_spec (dval b) (dval a)); symmetry; (apply Z.leb_le || apply Z.leb_gt); lia. Qed.
Lemma diff_ok a b m : digits a -> digits b -> normal a -> normal b -> (length a <= m)%nat -> (length b <= m)%nat ->
  exists d negative, (if 0 <=? I_comp a b then d ← I_sub a b; Some (d, false) else d ← I_sub b a; Some (d, true)) = Some (d, negative) /\
    digits d /\ normal d /\ dval a - dval b = diff_sign negative * dval d /\ (length d <= m)%nat.
Proof.
  intros Ha Hb Na Nb Hla Hlb. rewrite comp_ge by done. destruct (Z.leb_spec (dval b) (dval a)).
  - destruct (sub_normal_ok a b) as (d & -> & H1 & H2 & H3 & H4); [done..|]. exists d, false. cbn [diff_sign]. parts.
  - destruct (sub_normal_ok b a) as (d & -> & H1 & H2 & H3 & H4); [done..|lia|]. exists d, true. cbn [diff_sign]. parts.
Qed.
Lemma diff1_ok (high_y_zero negative : bool) hy ly m : digits hy -> digits ly -> normal hy -> normal ly -> (length hy <= m)%nat -> (length ly <= m)%nat -> (high_y_zero = true -> hy = [0]) ->
  exists d negative', (if 0 <=? I_comp hy ly then d ← I_sub hy ly; Some (d, negative) else if high_y_zero then Some (ly, negb negative) else d ← I_sub ly hy; Some (d, negb negative)) = Some (d, negative') /\
    digits d /\ normal d /\ diff_sign negative * (dval hy - dval ly) = diff_sign negative' * dval d /\ (length d <= m)%nat.
Proof.
  intros Hh Hl Nh Nl Llh Lll Hz. rewrite comp_ge by done. destruct (Z.leb_spec (dval ly) (dval hy)).
  - destruct (sub_normal_ok hy ly) as (d & -> & H1 & H2 & H3 & H4); [done..|]. exists d, negative. rewrite H3. parts.
  - destruct high_y_zero.
    + exists ly, (negb negative). rewrite (Hz eq_refl). cbn [dval]. destruct negative; cbn [negb diff_sign]; parts.
    + destruct (sub_normal_ok ly hy) as (d & -> & H1 & H2 & H3 & H4); [done..|lia|]. exists d, (negb negative). rewrite H3. destruct negative; cbn [negb diff_sign]; parts.
Qed.

(** The halves of an operand; the high one of [x] always has digits. *)
Lemma halves_ok y m : digits y -> normal y -> (0 < m)%nat -> (length y <= 2 * m)%nat ->
  let zero := (length y <=? m)%nat in let l := trim (if zero then y else take m y) in let h := if zero then [0] else drop m y in
  digits l /\ normal l /\ digits h /\ normal h /\ (length l <= m)%nat /\ (length h <= m)%nat /\ dval y = dval l + DB ^ Z.of_nat m * dval h.
Proof.
  intros Hy Ny Hm Hl. cbv zeta. destruct (Nat.leb_spec (length y) m).
  - destruct (trim_ok y Hy (proj1 Ny)) as (H1 & H2 & H3 & H4). cbn [dval length]. parts.
  - assert (y = take m y ++ drop m y) as Ey by (symmetry; apply take_drop). assert (digits (take m y) /\ digits (drop m y)) as [Hlo Hhi] by (apply digits_app; by rewrite <- Ey).
    assert (length (take m y) = m) as Elo by (rewrite length_take; lia). assert (length (drop m y) = (length y - m)%nat) as Ehi by (by rewrite length_drop).
    destruct (trim_ok (take m y) Hlo) as (H1 & H2 & H3 & H4); [apply nonempty; lia|]. split; [done|]. split; [done|]. split; [done|].
    assert (normal (drop m y)) as Nh. { split; [apply nonempty; lia|]. intros E. destruct Ny as [_ Ny]. rewrite Ey, last_app, E in Ny. specialize (Ny eq_refl). rewrite <- Ey in Ny. rewrite Ny in *. cbn [length] in *. lia. }
    split; [done|]. split; [lia|]. split; [lia|]. rewrite H3, Ey at 1. rewrite dval_app, pw_nat, Elo. done.
Qed.

Lemma I_mul_karatsuba_ok fuel same x y : digits x -> digits y -> normal x -> normal y -> (length y <= length x)%nat -> (same = true -> x = y) -> (length x < fuel)%nat ->
  exists r, I_mul_karatsuba fuel same x y = Some r /\ digits r /\ r <> [] /\ dval r = dval x * dval y /\ (length r <= length x + length y)%nat /\ (0 < dval x -> 0 < dval y -> normal r).
Proof using L.
  revert same x y. induction fuel as [|fuel IH]; intros same x y Hx Hy Nx Ny Hl Hsame Hf; [lia|]. cbn [I_mul_karatsuba].
  destruct (Nat.ltb_spec (length y) 16) as [Hsmall|Hbig].
  { destruct (same && (1 <? length x)%nat) eqn:Es.
    - apply andb_true_iff in Es as [Es _]. rewrite <- (Hsame Es) in *. destruct (I_sqr_ok x Hx (proj1 Nx)) as (r & -> & H1 & H2 & H3 & H4 & H5). exists r. split; [done|]. split; [done|]. split; [done|]. split; [done|]. split; [lia|]. by intros ? _; apply H5.
    - destruct (I_mul_ok x y Hx Hy (proj1 Ny) Hl) as (r & -> & H1 & H2 & H3 & H4 & H5). exists r. split; [done|]. split; [done|]. split; [done|]. split; [done|]. split; [lia|]. by apply H5. }
  set (m := ((length x + 1) / 2)%nat). assert (2 * m <= length x + 1 /\ length x <= 2 * m)%nat as [Hm1 Hm2] by (unfold m; pose proof (Nat.div_mod (length x + 1) 2 ltac:(lia)); pose proof (Nat.mod_upper_bound (length x + 1) 2 ltac:(lia)); lia).
  assert (forall a b, digits a -> digits b -> normal a -> normal b -> (length a <= m)%nat -> (length b <= m)%nat -> (same = true -> a = b) ->
    exists r, I_OPERATION (I_mul_karatsuba fuel same) a b = Some r /\ digits r /\ r <> [] /\ dval r = dval a * dval b /\ (length r <= length a + length b)%nat) as Hrec.
  { intros a b Ha Hb Na Nb Hla Hlb Hs. unfold I_OPERATION. destruct (Nat.leb_spec (length b) (length a)).
    - destruct (IH same a b) as (r & -> & H1 & H2 & H3 & H4 & _); [done..|lia|]. exists r. parts.
    - destruct (IH same b a) as (r & -> & H1 & H2 & H3 & H4 & _); [done..|lia|intros E; symmetry; by apply Hs|lia|]. exists r. parts. }
  assert ((length x <=? m)%nat = false) as Exm by (apply Nat.leb_gt; lia). pose proof (halves_ok x m Hx Nx ltac:(lia) Hm2) as Hhx. rewrite Exm in Hhx. cbv zeta in Hhx. destruct Hhx as (Dlx & Nlx & Dhx & Nhx & Llx & Lhx & Evx).
  destruct (halves_ok y m Hy Ny ltac:(lia) ltac:(lia)) as (Dly & Nly & Dhy & Nhy & Lly & Lhy & Evy). set (zero := (length y <=? m)%nat) in *.
  assert (same = true -> zero = false) as Hzs by (intros E; unfold zero; by rewrite <- (Hsame E)).
  assert (same = true -> trim (take m x) = trim (if zero then y else take m y) /\ drop m x = if zero then [0] else drop m y) as Hhs by (intros E; rewrite (Hzs E), (Hsame E); done).
  assert (zero = true -> (if zero then [0] else drop m y) = [0]) as Hz by (by intros ->).
  set (lx := trim (take m x)) in *. set (hx := drop m x) in *. set (ly := trim (if zero then y else take m y)) in *. set (hy := if zero then [0] else drop m y) in *.
  destruct (Hrec lx ly) as (z0 & -> & Dz0 & Nz0 & Ez0 & Lz0); [done..|by intros E; apply Hhs in E as [? _]|]. cbn [mbind option_bind].
  destruct (trim_ok z0 Dz0 Nz0) as (Dt0 & Nt0 & Et0 & _). set (buf := z0 ++ replicate (2 * m - length z0) 0).
  assert (exists z2, (if zero then Some [0] else z2 ← I_OPERATION (I_mul_karatsuba fuel same) hx hy; Some (trim z2)) = Some z2 /\ digits z2 /\ normal z2 /\ dval z2 = dval hx * dval hy) as (z2 & -> & Dz2 & Nz2 & Ez2).
  { clearbody zero. destruct zero.
    - exists [0]. rewrite (Hz eq_refl). cbn [dval]. parts.
    - destruct (Hrec hx hy) as (z2 & -> & Dz2 & Nz2 & Ez2 & Lz2); [done..|by intros E; apply Hhs in E as [_ ?]|]. cbn [mbind option_bind]. destruct (trim_ok z2 Dz2 Nz2) as (? & ? & E2 & _). eexists. split; [reflexivity|]. rewrite E2. parts. }
  cbn [mbind option_bind]. destruct (diff_ok lx hx m) as (d0 & n0 & -> & Dd0 & Nd0 & Ed0 & Ld0); [done..|]. cbn [mbind option_bind].
  assert (exists d1 n1, (if same then Some (d0, true) else if 0 <=? I_comp hy ly then d ← I_sub hy ly; Some (d, n0) else if zero then Some (ly, negb n0) else d ← I_sub ly hy; Some (d, negb n0)) = Some (d1, n1) /\
    digits d1 /\ normal d1 /\ diff_sign n0 * (dval hy - dval ly) = diff_sign n1 * dval d1 /\ (length d1 <= m)%nat /\ (same = true -> d0 = d1)) as (d1 & n1 & -> & Dd1 & Nd1 & Ed1 & Ld1 & Hd1).
  { destruct same.
    - exists d0, true. destruct (Hhs eq_refl) as [Eh1 Eh2]. rewrite <- Eh1, <- Eh2. split; [done|]. split; [done|]. split; [done|]. split; [destruct n0; cbn [diff_sign] in *; lia|done].
    - destruct (diff1_ok zero n0 hy ly m) as (d1 & n1 & -> & H1 & H2 & H3 & H4); [done..|]. by exists d1, n1. }
  cbn [mbind option_bind]. destruct (Hrec d0 d1) as (tmp & -> & Dtmp & Ntmp & Etmp & _); [done..|]. cbn [mbind option_bind]. destruct (trim_ok tmp Dtmp Ntmp) as (Dtt & Ntt & Ett & _).
  destruct (op_add_ok (trim z0) z2) as (z1 & -> & Dz1 & Hz1 & Ez1 & Nz1); [done|done|apply Nt0|apply Nz2|]. specialize (Nz1 Nt0 Nz2). cbn [mbind option_bind].
  pose proof (dval_range lx Dlx). pose proof (dval_range hx Dhx). pose proof (dval_range ly Dly). pose proof (dval_range hy Dhy).
  assert (dval lx * dval ly + dval hx * dval hy + diff_sign n1 * (dval d0 * dval d1) = dval lx * dval hy + dval hx * dval ly) as Ekara.
  { assert (diff_sign n0 * diff_sign n0 = 1) as En by (destruct n0; done). assert (diff_sign n1 * (dval d0 * dval d1) = dval d0 * (diff_sign n0 * (dval hy - dval ly))) as -> by (rewrite Ed1; ring).
    assert (dval d0 * (diff_sign n0 * (dval hy - dval ly)) = (dval lx - dval hx) * (dval hy - dval ly)) as -> by (rewrite Ed0; ring). ring. }
  assert (0 <= dval lx * dval hy + dval hx * dval ly) as Hcross by (apply Z.add_nonneg_nonneg; apply Z.mul_nonneg_nonneg; lia).
  assert (exists z1', (if n1 then I_sub z1 (trim tmp) else I_OPERATION I_add z1 (trim tmp)) = Some z1' /\ digits z1' /\ z1' <> [] /\ dval z1' = dval lx * dval hy + dval hx * dval ly) as (z1' & -> & Dz1' & Nz1' & Ez1').
  { rewrite <- Ekara, <- Etmp, <- Ett, <- Ez0, <- Et0, <- Ez2, <- Ez1 in *. destruct n1; cbn [diff_sign] in *.
    - destruct (sub_normal_ok z1 (trim tmp)) as (r & -> & H5 & H6 & H7 & _); [done..|lia|]. exists r. split; [done|]. split; [done|]. split; [apply H6|lia].
    - destruct (op_add_ok z1 (trim tmp)) as (r & -> & H5 & H6 & H7 & _); [done..|apply Ntt|]. exists r. split; [done|]. split; [done|]. split; [done|lia]. }
  cbn [mbind option_bind]. assert (digits buf /\ length buf = (2 * m)%nat /\ dval buf = dval lx * dval ly) as (Dbuf & Lbuf & Ebuf).
  { unfold buf. split; [apply digits_app; split; [done|apply digits_zeros]|]. split; [rewrite length_app, length_replicate; lia|]. rewrite dval_app, dval_zeros. lia. }
  assert (buf = take m buf ++ drop m buf) as Esplit by (symmetry; apply take_drop). assert (digits (take m buf) /\ digits (drop m buf)) as [Dlow Dhigh] by (apply digits_app; by rewrite <- Esplit).
  assert (pw (take m buf) = DB ^ Z.of_nat m /\ pw (drop m buf) = DB ^ Z.of_nat m) as [Plow Phigh] by (rewrite !pw_nat, length_take, length_drop, Lbuf; split; do 2 f_equal; lia). set (P := DB ^ Z.of_nat m) in *.
  assert (dval buf = dval (take m buf) + P * dval (drop m buf)) as Ebs by (rewrite Esplit at 1; rewrite dval_app, Plow; done). clearbody buf.
  destruct (op_add_ok (drop m buf ++ z2) z1') as (res & -> & Dres & Nres & Eres & _); [apply digits_app; done|done|destruct Nz2; by destruct (drop m buf), z2|done|]. cbn [mbind option_bind]. rewrite dval_app, Phigh in Eres.
  assert (digits (take m buf ++ res)) as Dfull by (by apply digits_app). destruct (trim_ok (take m buf ++ res) Dfull) as (H5 & H6 & H7 & _); [by destruct (take m buf), res|].
  assert (dval (take m buf ++ res) = dval x * dval y) as Efull. { rewrite dval_app, Plow, Eres, Ez1', Ez2, Evx, Evy. ring_simplify. rewrite Ebuf in Ebs. nia. }
  eexists. split; [reflexivity|]. rewrite Efull in H7. split; [done|]. split; [apply H6|]. split; [done|]. split; [|done].
  apply normal_size; [done|done| |lia]. rewrite H7, Nat2Z.inj_add, Z.pow_add_r, <- !pw_nat by lia. pose proof (dval_range x Hx). pose proof (dval_range y Hy). apply Z.mul_lt_mono_nonneg; lia.
Qed.

(** C25: the three ways to a product agree: Karatsuba's method, with different vectors or the
    same one, and the square return the digits that long multiplication returns, those of
    the product. *)
Theorem products_agree x y : digits x -> digits y -> normal x -> normal y -> (length y <= length x)%nat -> 0 < dval x -> 0 < dval y ->
  exists r s, I_mul x y = Some r /\ I_mul_karatsuba (S (length x)) false x y = Some r /\ dval r = dval x * dval y /\
    I_sqr x = Some s /\ I_mul x x = Some s /\ I_mul_karatsuba (S (length x)) true x x = Some s /\ dval s = dval x * dval x.
Proof using L.
  intros Hx Hy Nx Ny Hl Px Py. pose proof (proj1 Nx) as Ex. pose proof (proj1 Ny) as Ey.
  destruct (I_mul_ok x y) as (r & -> & Hr & _ & Er & _ & Nr); try done. destruct (I_mul_karatsuba_ok (S (length x)) false x y) as (r' & -> & Hr' & _ & Er' & _ & Nr'); try done; [lia|].
  destruct (I_sqr_ok x) as (s & -> & Hs & _ & Es & _ & Ns); try done. destruct (I_mul_ok x x) as (s1 & -> & Hs1 & _ & Es1 & _ & Ns1); try done. destruct (I_mul_karatsuba_ok (S (length x)) true x x) as (s2 & -> & Hs2 & _ & Es2 & _ & Ns2); try done; [lia|].
  assert (r' = r) as -> by (apply normal_unique; auto; lia). assert (s1 = s) as -> by (apply normal_unique; auto; lia). assert (s2 = s) as -> by (apply normal_unique; auto; lia). by exists r, s.
Qed.
End Laws.

Lemma products_agree_witness :
  exists r s, I_mul [1; 2] [3] = Some r /\ I_mul_karatsuba 3 false [1; 2] [3] = Some r /\ dval r = dval [1; 2] * dval [3] /\
    I_sqr [1; 2] = Some s /\ I_mul [1; 2] [1; 2] = Some s /\ I_mul_karatsuba 3 true [1; 2] [1; 2] = Some s /\ dval s = dval [1; 2] * dval [1; 2].
Proof. apply (products_agree [1; 2] [3]); try (repeat constructor; done); cbn; lia. Defined.

