(* ===== verification/BigBits.v ===== *)
(** * Bitwise operations and shifts of vectors of digits: [erts/emulator/beam/big.c]

    Integers are a sign and a vector of digits, but the operations are those of two's
    complement.  The functions take the complement of a negative operand digit by digit
    and turn a negative result back at the end. *)
From S2P Require Import Prelude PutGet BigDigit BigNat.

(** ** The code *)

(** [~c] of a digit. *)
Definition dnot (c : Z) : Z := D_MASK - c.

(** [DSUB( *x,1,b,c)] for the first digit and [DSUBb( *x,0,b,c)] for the others: the [c]s.
    The functions have the two operands in one loop. *)
Fixpoint minus1_loop (x : list Z) (b : Z) : list Z :=
  match x with
  | [] => []
  | d :: x => let '(c, b) := DSUBb d 0 b in c :: minus1_loop x b
  end.
Definition minus1 (x : list Z) : list Z :=
  match x with
  | [] => []
  | d :: x => let '(c, b) := DSUB d 1 in c :: minus1_loop x b
  end.

(** The digits, without the highest ones that are [D_MASK], but for the first one. *)
Fixpoint trim_mask (r : list Z) : list Z :=
  match r with
  | [] => []
  | d :: r => match trim_mask r with [] => [d] | [t] => if t =? D_MASK then [d] else [d; t] | t => d :: t end
  end.
(** [while((d & mask) == mask) {...}]: [prev_mask]. *)
Fixpoint mask_loop (fuel : nat) (d prev_mask mask : Z) : option Z :=
  match fuel with
  | O => None
  | S fuel =>
      if Z.land d mask =? mask then mask_loop fuel d mask (Z.lor (Z.shiftr mask 1) (Z.shiftl 1 (D_EXP - 1)))
      else Some prev_mask
  end.
Definition high_complement (d : Z) : option Z :=
  if d =? D_MASK then Some 0
  else prev_mask ← mask_loop 64 d 0 (Z.shiftl 1 (D_EXP - 1)); Some (Z.land (dnot d) (dnot prev_mask)).
(** [I_btrail] of the digits between [r0] and [r]. *)
Definition I_btrail (r : list Z) (sign : bool) : option (list Z) :=
  if sign then
    let r := trim_mask r in
    d ← list.last r;
    high ← high_complement d;
    Some (D_add (map dnot (take (length r - 1) r) ++ [high]) 1)
  else match r with [] => None | _ => Some (trim r) end.

(** [ASSERT(xl >= yl)], and the loops read a digit of [y]. *)
Definition bits_sizes (x y : list Z) : bool := (length y <=? length x)%nat && (0 <? length y)%nat.

Definition I_band (x : list Z) (xsgn : bool) (y : list Z) (ysgn : bool) : option (list Z) :=
  let sign := xsgn && ysgn in
  if negb (bits_sizes x y) then None
  else I_btrail
    (match xsgn, ysgn with
     | false, false => zip_with Z.land x y
     | false, true => zip_with (fun a c => Z.land a (dnot c)) x (minus1 y) ++ drop (length y) x
     | true, false => zip_with (fun c b => Z.land (dnot c) b) (minus1 x) y
     | true, true => zip_with (fun c1 c2 => Z.land (dnot c1) (dnot c2)) (minus1 x) (minus1 y) ++ map dnot (drop (length y) (minus1 x))
     end) sign.

Definition I_bor (x : list Z) (xsgn : bool) (y : list Z) (ysgn : bool) : option (list Z) :=
  let sign := xsgn || ysgn in
  if negb (bits_sizes x y) then None
  else I_btrail
    (match xsgn, ysgn with
     | false, false => zip_with Z.lor x y ++ drop (length y) x
     | false, true => zip_with (fun a c => Z.lor a (dnot c)) x (minus1 y)
     | true, false => zip_with (fun c b => Z.lor (dnot c) b) (minus1 x) y ++ map dnot (drop (length y) (minus1 x))
     | true, true => zip_with (fun c1 c2 => Z.lor (dnot c1) (dnot c2)) (minus1 x) (minus1 y)
     end) sign.

Definition I_bxor (x : list Z) (xsgn : bool) (y : list Z) (ysgn : bool) : option (list Z) :=
  let sign := negb (eqb xsgn ysgn) in
  if negb (bits_sizes x y) then None
  else I_btrail
    (match xsgn, ysgn with
     | false, false => zip_with Z.lxor x y ++ drop (length y) x
     | false, true => zip_with (fun a c => Z.lxor a (dnot c)) x (minus1 y) ++ map dnot (drop (length y) x)
     | true, false => zip_with (fun c b => Z.lxor (dnot c) b) (minus1 x) y ++ map dnot (drop (length y) (minus1 x))
     | true, true => zip_with (fun c1 c2 => Z.lxor (dnot c1) (dnot c2)) (minus1 x) (minus1 y) ++ drop (length y) (minus1 x)
     end) sign.

(** [xsgn] is the sign of the result. *)
Definition I_bnot (x : list Z) (xsgn : bool) : list Z := if xsgn then D_add x 1 else D_sub x 1.

(** The loops of [I_lshift]: [lshift_loop] goes up and returns [a1], [rshift_loop] goes
    down, [x] starting with the highest digit, and returns [a0]. *)
Fixpoint lshift_loop (x : list Z) (sw a1 : Z) : list Z * Z :=
  match x with
  | [] => ([], a1)
  | d :: x =>
      let a0 := Z.lor (wrapu 64 (Z.shiftl d sw)) a1 in
      let '(r, a1) := lshift_loop x sw (Z.shiftr d (D_EXP - sw)) in (a0 :: r, a1)
  end.
Fixpoint rshift_loop (x : list Z) (sw a0 : Z) : list Z * Z :=
  match x with
  | [] => ([], a0)
  | d :: x =>
      let a1 := Z.lor (Z.shiftr d sw) a0 in
      let '(r, a0) := rshift_loop x sw (wrapu 64 (Z.shiftl d (D_EXP - sw))) in (a1 :: r, a0)
  end.
Definition rshift_tail (r : list Z) (sign add_one : bool) : option (list Z) :=
  let rl := length r in
  top ← r !! (rl - 1)%nat;
  if (top =? 0) && (rl =? 1)%nat then Some (if sign then [1] else r)
  else
    let r := if top =? 0 then take (rl - 1) r else r in
    Some (if add_one then D_add r 1 else r).
Definition I_lshift (x : list Z) (y : Z) (sign : bool) : option (list Z) :=
  if y =? 0 then Some x
  else if bool_decide (x = [0]) then Some [0]
  else
    let ay := wrapu 64 (if y <? 0 then - y else y) in
    let bw := Z.to_nat (ay / D_EXP) in
    let sw := ay mod D_EXP in
    if 0 <? y then
      let '(r, a1) := if sw =? 0 then (x, 0) else lshift_loop x sw 0 in
      Some (replicate bw 0 ++ if a1 =? 0 then r else r ++ [a1])
    else if (length x <=? bw)%nat then Some [if sign then 1 else 0]
    else
      let add_one := sign && existsb (fun z => negb (z =? 0)) (take bw x) in
      let '(r, a0) := if sw =? 0 then (reverse (drop bw x), 0) else rshift_loop (reverse (drop bw x)) sw 0 in
      rshift_tail (reverse r) sign (add_one || (sign && negb (a0 =? 0))).

(** ** Digits and two's complement *)

(** What the proofs use of [Z.land], [Z.lor] and [Z.lxor]. *)
Class BitOp (op : Z -> Z -> Z) (f : bool -> bool -> bool) : Prop := {
  bitop_spec a b n : Z.testbit (op a b) n = f (Z.testbit a n) (Z.testbit b n);
  bitop_low : f false false = false
}.
#[export] Instance land_bits : BitOp Z.land andb := { bitop_spec := Z.land_spec; bitop_low := eq_refl }.
#[export] Instance lor_bits : BitOp Z.lor orb := { bitop_spec := Z.lor_spec; bitop_low := eq_refl }.
#[export] Instance lxor_bits : BitOp Z.lxor xorb := { bitop_spec := Z.lxor_spec; bitop_low := eq_refl }.

Section Bits.
Context {op : Z -> Z -> Z} {f : bool -> bool -> bool} {B : BitOp op f}.

Lemma bitop_div a b : op a b / DB = op (a / DB) (b / DB).
Proof using All.
  apply Z.bits_inj'. intros n Hn. change DB with (2 ^ 64). rewrite Z.div_pow2_bits, !(bitop_spec (op := op)), !Z.div_pow2_bits by lia. done.
Qed.
Lemma bitop_mod a b : op a b mod DB = op (a mod DB) (b mod DB).
Proof using All.
  apply Z.bits_inj'. intros n Hn. change DB with (2 ^ 64). rewrite (bitop_spec (op := op)). destruct (decide (n < 64)).
  - rewrite !Z.mod_pow2_bits_low, (bitop_spec (op := op)) by lia. done.
  - rewrite !Z.mod_pow2_bits_high by lia. by rewrite bitop_low.
Qed.
(** A range of two's complement is closed under the operation. *)
Lemma bitop_sign u v : - 1 <= u <= 0 -> - 1 <= v <= 0 -> - 1 <= op u v <= 0.
Proof using All.
  intros Hu Hv. assert (op u v = if f (u <? 0) (v <? 0) then -1 else 0) as ->; [|destruct (f _ _); lia].
  assert (forall w n, - 1 <= w <= 0 -> 0 <= n -> Z.testbit w n = (w <? 0)) as Hbit. { intros w n Hw Hn. assert (w = -1 \/ w = 0) as [-> | ->] by lia; [by rewrite Z.bits_m1|by rewrite Z.bits_0]. }
  apply Z.bits_inj'. intros n Hn. rewrite (bitop_spec (op := op)), !Hbit by lia. destruct (f _ _); [by rewrite Z.bits_m1|by rewrite Z.bits_0].
Qed.
Lemma bitop_range n a b : 0 <= n -> - 2 ^ n <= a < 2 ^ n -> - 2 ^ n <= b < 2 ^ n -> - 2 ^ n <= op a b < 2 ^ n.
Proof using All.
  intros Hn Ha Hb. assert (0 < 2 ^ n) as Hp by (apply Z.pow_pos_nonneg; lia).
  assert (op a b / 2 ^ n = op (a / 2 ^ n) (b / 2 ^ n)) as E. { apply Z.bits_inj'. intros k Hk. rewrite Z.div_pow2_bits, !(bitop_spec (op := op)), !Z.div_pow2_bits by lia. done. }
  assert (forall w, - 2 ^ n <= w < 2 ^ n -> - 1 <= w / 2 ^ n <= 0) as Hq. { intros w Hw. split; [apply Z.div_le_lower_bound; lia|]. apply Z.lt_succ_r, Z.div_lt_upper_bound; lia. }
  pose proof (bitop_sign _ _ (Hq a Ha) (Hq b Hb)) as Hr. rewrite <- E in Hr. pose proof (Z.div_mod (op a b) (2 ^ n) ltac:(lia)). pose proof (Z.mod_pos_bound (op a b) (2 ^ n) Hp). nia.
Qed.
Lemma bitop_digit a b : digit a -> digit b -> digit (op a b).
Proof using All.
  intros Ha Hb. rewrite <- (Z.mod_small a DB), <- (Z.mod_small b DB), <- bitop_mod by done. apply Z.mod_pos_bound. lia.
Qed.
Lemma bitop_split a b x y : digit a -> digit b -> op (a + DB * x) (b + DB * y) = op a b + DB * op x y.
Proof using All.
  intros Ha Hb. rewrite (Z.div_mod (op _ _) DB) by lia. rewrite bitop_div, bitop_mod.
  rewrite !(Z.mul_comm DB), !Z_mod_plus_full, !Z.div_add by lia. rewrite !Z.mod_small, !Z.div_small, !Z.add_0_l by done. lia.
Qed.
End Bits.

(** The number of the digits of a two's complement, [s] when it is negative. *)
Definition tval (s : bool) (r : list Z) : Z := dval r - (if s then pw r else 0).
Lemma tval_nil s : tval s [] = if s then -1 else 0.
Proof. by destruct s. Qed.
Lemma tval_cons s d r : tval s (d :: r) = d + DB * tval s r.
Proof. unfold tval. cbn [dval]. rewrite pw_cons. destruct s; lia. Qed.

Lemma dnot_digit d : digit d -> digit (dnot d).
Proof. unfold dnot, D_MASK. dig. Qed.
Lemma digits_dnot r : digits r -> digits (map dnot r).
Proof. induction 1; constructor; [by apply dnot_digit|done]. Qed.
Lemma dval_dnot r : dval (map dnot r) = pw r - 1 - dval r.
Proof. induction r as [|d r IH]; [done|]. cbn [map dval]. rewrite IH, pw_cons. unfold dnot, D_MASK. lia. Qed.
Lemma pw_dnot r : pw (map dnot r) = pw r.
Proof. apply pw_len, length_map. Qed.
Lemma tval_dnot s r : tval (negb s) (map dnot r) = - 1 - tval s r.
Proof. unfold tval. rewrite dval_dnot, pw_dnot. destruct s; cbn [negb]; lia. Qed.

Lemma minus1_loop_ok x b : digits x -> 0 <= b <= 1 -> b <= dval x ->
  digits (minus1_loop x b) /\ length (minus1_loop x b) = length x /\ dval (minus1_loop x b) = dval x - b.
Proof.
  revert b. induction x as [|d x IH]; intros b Hx Hb Hv; cbn [minus1_loop dval length] in *; [split; [constructor|lia]|].
  apply digits_cons in Hx as [Hd Hx]. destruct (DSUBb_ok d 0 b Hd digit_0 Hb) as (c & b' & -> & Hc & Hb' & E). pose proof (dval_range x Hx).
  destruct (IH b' Hx Hb') as (H1 & H2 & H3); [dig|]. cbn [dval length]. split; [by constructor|lia].
Qed.
Lemma minus1_ok x : digits x -> 1 <= dval x ->
  digits (minus1 x) /\ length (minus1 x) = length x /\ dval (minus1 x) = dval x - 1.
Proof.
  intros Hx Hv. destruct x as [|d x]; cbn [minus1 dval length] in *; [lia|]. apply digits_cons in Hx as [Hd Hx].
  destruct (DSUB_ok d 1 Hd digit_1) as (c & b' & -> & Hc & Hb' & E). pose proof (dval_range x Hx).
  destruct (minus1_loop_ok x b' Hx Hb') as (H1 & H2 & H3); [dig|]. cbn [dval length]. split; [by constructor|lia].
Qed.

(** ** The operands *)

(** A number of a sign and a vector, and its digits in two's complement. *)
Definition sval (sgn : bool) (x : list Z) : Z := if sgn then - dval x else dval x.
Definition operand (sgn : bool) (x : list Z) : list Z := if sgn then map dnot (minus1 x) else x.
Definition signed_ok (sgn : bool) (x : list Z) : Prop := digits x /\ x <> [] /\ (sgn = true -> 1 <= dval x).

Lemma operand_ok sgn x : signed_ok sgn x ->
  digits (operand sgn x) /\ length (operand sgn x) = length x /\ tval sgn (operand sgn x) = sval sgn x.
Proof.
  intros (Hx & Hne & Hs). destruct sgn; cbn [operand sval]; [|unfold tval; parts].
  destruct (minus1_ok x Hx (Hs eq_refl)) as (H1 & H2 & H3). split; [by apply digits_dnot|]. split; [by rewrite length_map|].
  unfold tval. rewrite dval_dnot, pw_dnot, H3, (pw_len (minus1 x) x H2). lia.
Qed.

(** The two operands, digit by digit; [tail] is what becomes of the rest of the longer
    one. *)
Lemma zip_bits {op f} `{BitOp op f} s t (tail : list Z -> list Z) x y : digits x -> digits y -> (length y <= length x)%nat ->
  (forall r, digits r -> digits (tail r) /\ tval (f s t) (tail r) = op (tval s r) (if t then -1 else 0)) ->
  let r := zip_with op x y ++ tail (drop (length y) x) in
  digits r /\ tval (f s t) r = op (tval s x) (tval t y).
Proof.
  intros Hx Hy Hl Htail. revert x Hx Hl. induction Hy as [|b y Hb Hy IH]; intros x Hx Hl.
  - cbn [length]. rewrite drop_0, zip_with_nil_r, tval_nil. cbn [app]. by apply Htail.
  - destruct x as [|a x]; cbn [length] in Hl; [lia|]. apply digits_cons in Hx as [Ha Hx]. cbn [length zip_with app drop].
    destruct (IH x Hx ltac:(lia)) as [H1 H2]. split; [constructor; [by apply bitop_digit|done]|].
    rewrite !tval_cons, bitop_split by done. by rewrite H2.
Qed.

(** ** The end of a result *)

Lemma trim_mask_ok r : digits r -> r <> [] ->
  digits (trim_mask r) /\ trim_mask r <> [] /\ tval true (trim_mask r) = tval true r /\ (list.last (trim_mask r) = Some D_MASK -> trim_mask r = [D_MASK]).
Proof.
  induction 1 as [|d r Hd Hr IH]; intros Hne; [done|]. cbn [trim_mask]. rewrite (tval_cons true d r). destruct r as [|e r].
  - cbn [trim_mask]. split; [by apply digits_one|]. split; [done|]. split; [by rewrite tval_cons|by intros [= ->]].
  - destruct (IH ltac:(done)) as (Ht & Htne & Hv & Htn). rewrite <- Hv. clear Hv IH. set (t := trim_mask (e :: r)) in *. clearbody t. destruct t as [|t0 [|t1 t]]; [done| |].
    + destruct (Z.eqb_spec t0 D_MASK) as [->|H0].
      * split; [by apply digits_one|]. split; [done|]. split; [rewrite !tval_cons, !tval_nil; unfold D_MASK; lia|by intros [= ->]].
      * split; [by constructor|]. split; [done|]. split; [by rewrite tval_cons|by intros [= ->]].
    + split; [by constructor|]. split; [done|]. split; [by rewrite tval_cons|]. rewrite last_cons_2. intros Hl. specialize (Htn Hl). done.
Qed.

(** The masks of the loop, by the turns that are left. *)
Definition high_mask (n : nat) : Z := DB - 2 ^ (Z.of_nat n - 1).
Lemma high_mask_next n : (1 <= n < 64)%nat -> Z.lor (Z.shiftr (high_mask (S n)) 1) (Z.shiftl 1 (D_EXP - 1)) = high_mask n.
Proof.
  intros Hn. apply Z.eqb_eq. revert n Hn.
  assert (forallb (fun n => Z.lor (Z.shiftr (high_mask (S n)) 1) (Z.shiftl 1 (D_EXP - 1)) =? high_mask n) (seq 1 63) = true) as H by (by vm_compute).
  intros n Hn. rewrite forallb_forall in H. apply H, in_seq. lia.
Qed.
Lemma land_subset d p : Z.land d p = p -> Z.land (Z.lnot d) (Z.lnot p) = Z.lnot d.
Proof.
  intros E. apply Z.bits_inj'. intros n Hn. apply (f_equal (fun z => Z.testbit z n)) in E. rewrite Z.land_spec in *. rewrite !Z.lnot_spec by done.
  destruct (Z.testbit d n), (Z.testbit p n); done.
Qed.
Lemma dnot_lnot d : digit d -> dnot d = Z.lnot d mod DB.
Proof. intros Hd. unfold dnot, D_MASK. apply (Z.mod_unique _ _ (-1)); [dig|]. unfold Z.lnot. lia. Qed.
Lemma mask_loop_ok n d prev : digit d -> d <> D_MASK -> (1 <= n <= 64)%nat -> Z.land d prev = prev -> digit prev ->
  exists p, mask_loop n d prev (high_mask n) = Some p /\ Z.land d p = p /\ digit p.
Proof.
  intros Hd HM. revert prev. induction n as [|n IH]; intros prev Hn Hp Hprev; [lia|]. cbn [mask_loop].
  destruct (Z.eqb_spec (Z.land d (high_mask (S n))) (high_mask (S n))) as [E|]; [|by exists prev].
  destruct (decide (n = 0)%nat) as [->|].
  - exfalso. change (high_mask 1) with (Z.ones 64) in E. rewrite Z.land_ones in E by lia. change (2 ^ 64) with DB in E. rewrite Z.mod_small in E by done. done.
  - rewrite high_mask_next by lia. apply IH; [lia|done|]. rewrite <- E. apply bitop_digit; [done|]. unfold high_mask. split.
    + assert (2 ^ (Z.of_nat (S n) - 1) <= 2 ^ 63) by (apply Z.pow_le_mono_r; lia). change (2 ^ 63) with 9223372036854775808 in *. lia.
    + assert (0 < 2 ^ (Z.of_nat (S n) - 1)) by (apply Z.pow_pos_nonneg; lia). lia.
Qed.
Lemma high_complement_ok d : digit d -> high_complement d = Some (dnot d).
Proof.
  intros Hd. unfold high_complement. destruct (Z.eqb_spec d D_MASK) as [->|HM]; [by unfold dnot; rewrite Z.sub_diag|].
  change (Z.shiftl 1 (D_EXP - 1)) with (high_mask 64). destruct (mask_loop_ok 64 d 0 Hd HM) as (p & -> & Hp & Hpd); [lia|apply Z.land_0_r|apply digit_0|].
  cbn [mbind option_bind]. rewrite !dnot_lnot, <- bitop_mod, land_subset by done. done.
Qed.

Lemma I_btrail_ok r sign : digits r -> r <> [] -> exists r', I_btrail r sign = Some r' /\ digits r' /\ normal r' /\ sval sign r' = tval sign r.
Proof.
  intros Hr Hne. unfold I_btrail. destruct sign.
  - destruct (trim_mask_ok r Hr Hne) as (Ht & Htne & Ev & Hlast). rewrite <- Ev. set (t := trim_mask r) in *. clearbody t.
    destruct t as [|d t] using rev_ind; [done|]. clear IHt. rewrite last_snoc in *. cbn [mbind option_bind]. rewrite length_app. cbn [length].
    replace (length t + 1 - 1)%nat with (length t + 0)%nat by lia. rewrite firstn_app_2, take_0, app_nil_r. apply digits_app in Ht as [Ht [Hd _]%digits_cons].
    rewrite high_complement_ok by done. cbn [mbind option_bind]. change [dnot d] with (map dnot [d]). rewrite <- map_app.
    assert (digits (t ++ [d])) as Htd by (apply digits_app; split; [done|by apply digits_one]). pose proof (digits_dnot _ Htd) as Hn.
    assert (normal (map dnot (t ++ [d]))) as Nn.
    { split; [by destruct t|]. rewrite map_app. cbn [map]. rewrite last_snoc. intros [= E]. assert (d = D_MASK) as -> by (unfold dnot in E; lia).
      specialize (Hlast eq_refl). destruct t; [done|]. by destruct t. }
    destruct (D_add_ok _ 1 Hn (proj1 Nn) digit_1) as (H1 & H2 & H3 & _). eexists. split; [reflexivity|]. split; [done|]. split; [by apply H3|].
    cbn [sval]. rewrite H2, dval_dnot. unfold tval. lia.
  - destruct r as [|d r]; [done|]. destruct (trim_ok (d :: r) Hr Hne) as (H1 & H2 & H3 & _). eexists. split; [reflexivity|]. split; [done|]. split; [done|]. cbn [sval]. rewrite H3. unfold tval. lia.
Qed.

(** ** The operations *)

Lemma zip_dnot_r (op : Z -> Z -> Z) x y : zip_with (fun a c => op a (dnot c)) x y = zip_with op x (map dnot y).
Proof. revert y. induction x as [|a x IH]; intros [|c y]; cbn [zip_with map]; [done..|]. by rewrite IH. Qed.
Lemma zip_dnot_l (op : Z -> Z -> Z) x y : zip_with (fun c b => op (dnot c) b) x y = zip_with op (map dnot x) y.
Proof. revert y. induction x as [|a x IH]; intros [|c y]; cbn [zip_with map]; [done..|]. by rewrite IH. Qed.
Lemma zip_dnot_2 (op : Z -> Z -> Z) x y : zip_with (fun c1 c2 => op (dnot c1) (dnot c2)) x y = zip_with op (map dnot x) (map dnot y).
Proof. revert y. induction x as [|a x IH]; intros [|c y]; cbn [zip_with map]; [done..|]. by rewrite IH. Qed.
Lemma dnot_dnot r : map dnot (map dnot r) = r.
Proof. induction r as [|d r IH]; [done|]. cbn [map]. rewrite IH. f_equal. unfold dnot. lia. Qed.

(** All three functions have this form. *)
Definition bits_form (op : Z -> Z -> Z) (f : bool -> bool -> bool) (tail : bool -> list Z -> list Z) (x : list Z) (xsgn : bool) (y : list Z) (ysgn : bool) : option (list Z) :=
  I_btrail (zip_with op (operand xsgn x) (operand ysgn y) ++ tail ysgn (drop (length y) (operand xsgn x))) (f xsgn ysgn).

Lemma bits_form_ok {op f} `{BitOp op f} (tail : bool -> list Z -> list Z) x xsgn y ysgn : signed_ok xsgn x -> signed_ok ysgn y -> (length y <= length x)%nat ->
  (forall s t r, digits r -> digits (tail t r) /\ tval (f s t) (tail t r) = op (tval s r) (if t then -1 else 0)) ->
  exists r, bits_form op f tail x xsgn y ysgn = Some r /\ digits r /\ normal r /\ sval (f xsgn ysgn) r = op (sval xsgn x) (sval ysgn y).
Proof.
  intros Hx Hy Hl Htail. destruct (operand_ok xsgn x Hx) as (Dx & Lx & <-). destruct (operand_ok ysgn y Hy) as (Dy & Ly & <-).
  destruct (zip_bits xsgn ysgn (tail ysgn) (operand xsgn x) (operand ysgn y) Dx Dy) as [H1 H2]; [lia|apply Htail|]. rewrite <- H2, Ly in *.
  apply I_btrail_ok; [done|]. destruct Hy as (_ & Hyne & _). apply nonempty. rewrite length_app, length_zip_with, Lx, Ly. destruct y; [done|cbn [length] in *; lia].
Qed.

Lemma sizes_ok x y : (length y <= length x)%nat -> y <> [] -> negb (bits_sizes x y) = false.
Proof. intros Hl Hne. unfold bits_sizes. destruct y; [done|]. rewrite (proj2 (Nat.leb_le _ _) Hl). done. Qed.

Ltac forms op := rewrite ?app_nil_r, ?(zip_dnot_2 op), ?(zip_dnot_r op), ?(zip_dnot_l op), ?skipn_map, ?dnot_dnot; reflexivity.

Lemma I_band_ok x xsgn y ysgn : signed_ok xsgn x -> signed_ok ysgn y -> (length y <= length x)%nat ->
  exists r, I_band x xsgn y ysgn = Some r /\ digits r /\ normal r /\ sval (xsgn && ysgn) r = Z.land (sval xsgn x) (sval ysgn y).
Proof.
  intros Hx Hy Hl. assert (I_band x xsgn y ysgn = bits_form Z.land andb (fun t r => if t then r else []) x xsgn y ysgn) as ->.
  { unfold I_band, bits_form. rewrite sizes_ok by (done || apply Hy). destruct xsgn, ysgn; cbn [operand andb]; forms Z.land. }
  apply bits_form_ok; [done..|]. intros s [] r Hr; [by rewrite Z.land_m1_r, andb_true_r|rewrite Z.land_0_r, andb_false_r]. split; [constructor|done].
Qed.
Lemma I_bor_ok x xsgn y ysgn : signed_ok xsgn x -> signed_ok ysgn y -> (length y <= length x)%nat ->
  exists r, I_bor x xsgn y ysgn = Some r /\ digits r /\ normal r /\ sval (xsgn || ysgn) r = Z.lor (sval xsgn x) (sval ysgn y).
Proof.
  intros Hx Hy Hl. assert (I_bor x xsgn y ysgn = bits_form Z.lor orb (fun t r => if t then [] else r) x xsgn y ysgn) as ->.
  { unfold I_bor, bits_form. rewrite sizes_ok by (done || apply Hy). destruct xsgn, ysgn; cbn [operand orb]; forms Z.lor. }
  apply bits_form_ok; [done..|]. intros s [] r Hr; [rewrite Z.lor_m1_r, orb_true_r|by rewrite Z.lor_0_r, orb_false_r]. split; [constructor|done].
Qed.
Lemma I_bxor_ok x xsgn y ysgn : signed_ok xsgn x -> signed_ok ysgn y -> (length y <= length x)%nat ->
  exists r, I_bxor x xsgn y ysgn = Some r /\ digits r /\ normal r /\ sval (xorb xsgn ysgn) r = Z.lxor (sval xsgn x) (sval ysgn y).
Proof.
  intros Hx Hy Hl. assert (I_bxor x xsgn y ysgn = bits_form Z.lxor xorb (fun t r => if t then map dnot r else r) x xsgn y ysgn) as ->.
  { unfold I_bxor, bits_form. rewrite sizes_ok by (done || apply Hy). destruct xsgn, ysgn; cbn [operand xorb eqb negb]; forms Z.lxor. }
  apply bits_form_ok; [done..|]. intros s [] r Hr; [rewrite Z.lxor_m1_r, xorb_true_r|by rewrite Z.lxor_0_r, xorb_false_r].
  split; [by apply digits_dnot|]. rewrite tval_dnot. unfold Z.lnot. lia.
Qed.

Lemma I_bnot_ok x sgn : signed_ok sgn x -> normal x ->
  digits (I_bnot x (negb sgn)) /\ normal (I_bnot x (negb sgn)) /\ sval (negb sgn) (I_bnot x (negb sgn)) = Z.lnot (sval sgn x).
Proof.
  intros (Hx & Hne & Hs) Nx. unfold Z.lnot, I_bnot. destruct sgn; cbn [negb sval].
  - destruct (D_sub_ok x 1 Hx Hne digit_1 (Hs eq_refl)) as (H1 & H2 & H3 & _). rewrite H3. parts.
  - destruct (D_add_ok x 1 Hx Hne digit_1) as (H1 & H2 & H3 & _). rewrite H2. parts. by apply H3.
Qed.

(** ** Shifts *)

Lemma lor_low k a n : 0 <= n -> 0 <= a < 2 ^ n -> Z.lor (k * 2 ^ n) a = k * 2 ^ n + a.
Proof.
  intros Hn Ha. rewrite <- Z.shiftl_mul_pow2 by lia. rewrite lor_shiftl_add by lia. rewrite Z.shiftl_mul_pow2; lia.
Qed.

(** A digit that is shifted: the bits that stay and those that leave it. *)
Lemma shift_digit d sw : digit d -> 0 < sw < 64 ->
  exists h l, d = h * 2 ^ (64 - sw) + l /\ 0 <= l < 2 ^ (64 - sw) /\ 0 <= h < 2 ^ sw /\ wrapu 64 (Z.shiftl d sw) = l * 2 ^ sw /\ Z.shiftr d (64 - sw) = h.
Proof.
  intros Hd Hs. assert (0 < 2 ^ (64 - sw)) as Hp by (apply Z.pow_pos_nonneg; lia). assert (0 < 2 ^ sw) by (apply Z.pow_pos_nonneg; lia).
  assert (DB = 2 ^ (64 - sw) * 2 ^ sw) as EDB by (rewrite <- Z.pow_add_r by lia; by replace (64 - sw + sw) with 64 by lia).
  pose proof (Z.div_mod d (2 ^ (64 - sw)) ltac:(lia)) as E. exists (d / 2 ^ (64 - sw)), (d mod 2 ^ (64 - sw)). pose proof (Z.mod_pos_bound d (2 ^ (64 - sw)) Hp).
  split; [lia|]. split; [done|]. split; [split; [apply Z.div_pos; dig|apply Z.div_lt_upper_bound; unfold digit in Hd; lia]|]. split; [|by rewrite Z.shiftr_div_pow2 by lia].
  unfold wrapu. rewrite Z.shiftl_mul_pow2 by lia. change (2 ^ 64) with DB. rewrite EDB, Z.mul_mod_distr_r by lia. done.
Qed.

Lemma lshift_loop_ok x sw a1 : digits x -> 0 < sw < 64 -> 0 <= a1 < 2 ^ sw ->
  exists r a, lshift_loop x sw a1 = (r, a) /\ digits r /\ length r = length x /\ 0 <= a < 2 ^ sw /\ dval r + pw x * a = dval x * 2 ^ sw + a1.
Proof.
  intros Hx Hs. revert a1. induction Hx as [|d x Hd Hx IH]; intros a1 Ha; cbn [lshift_loop dval].
  - exists [], a1. rewrite pw_nil. cbn [dval]. parts.
  - destruct (shift_digit d sw Hd Hs) as (h & l & Ed & Hl & Hh & -> & Esr). change D_EXP with 64. rewrite Esr. rewrite lor_low by lia.
    destruct (IH h Hh) as (r & a & -> & Hr & Hlr & Ha' & E). exists (l * 2 ^ sw + a1 :: r), a. split; [done|].
    assert (DB = 2 ^ (64 - sw) * 2 ^ sw) as EDB by (rewrite <- Z.pow_add_r by lia; by replace (64 - sw + sw) with 64 by lia).
    split. { constructor; [|done]. assert (l * 2 ^ sw <= (2 ^ (64 - sw) - 1) * 2 ^ sw) by (apply Z.mul_le_mono_nonneg_r; lia). assert (0 <= l * 2 ^ sw) by (apply Z.mul_nonneg_nonneg; lia). unfold digit. lia. }
    split; [cbn [length]; lia|]. split; [done|]. cbn [dval]. rewrite pw_cons. assert (d * 2 ^ sw = h * DB + l * 2 ^ sw) by (rewrite Ed, EDB; ring). lia.
Qed.

Lemma rshift_loop_ok x sw c : digits x -> 0 < sw < 64 -> 0 <= c < 2 ^ sw ->
  exists r c', rshift_loop x sw (c * 2 ^ (64 - sw)) = (r, c' * 2 ^ (64 - sw)) /\ digits r /\ length r = length x /\ 0 <= c' < 2 ^ sw /\
    2 ^ sw * dval (reverse r) + c' = dval (reverse x) + pw x * c.
Proof.
  intros Hx Hs. revert c. induction Hx as [|d x Hd Hx IH]; intros c Hc; cbn [rshift_loop].
  - exists [], c. rewrite reverse_nil, pw_nil. cbn [dval]. parts.
  - destruct (shift_digit d (64 - sw) Hd ltac:(lia)) as (h & l & Ed & Hl & Hh & Esl & Esr). replace (64 - (64 - sw)) with sw in * by lia. change D_EXP with 64. rewrite Esl, Esr.
    rewrite Z.lor_comm, lor_low by lia. destruct (IH l Hl) as (r & c' & -> & Hr & Hlr & Hc' & E). exists (c * 2 ^ (64 - sw) + h :: r), c'. split; [done|].
    assert (DB = 2 ^ sw * 2 ^ (64 - sw)) as EDB by (rewrite <- Z.pow_add_r by lia; by replace (sw + (64 - sw)) with 64 by lia).
    split. { constructor; [|done]. assert (c * 2 ^ (64 - sw) <= (2 ^ sw - 1) * 2 ^ (64 - sw)) by (apply Z.mul_le_mono_nonneg_r; lia). assert (0 <= c * 2 ^ (64 - sw)) by (apply Z.mul_nonneg_nonneg; lia). unfold digit. lia. }
    split; [cbn [length]; lia|]. split; [done|]. rewrite !reverse_cons, !dval_app, pw_cons. cbn [dval].
    rewrite (pw_len (reverse r) x), (pw_len (reverse x) x) by (rewrite length_reverse; done || lia). rewrite EDB. rewrite Ed. lia.
Qed.

Lemma pow_split ay : 0 <= ay -> 2 ^ ay = DB ^ (ay / 64) * 2 ^ (ay mod 64).
Proof.
  intros Ha. change DB with (2 ^ 64). rewrite <- Z.pow_mul_r, <- Z.pow_add_r by (try apply Z.mul_nonneg_nonneg; try apply Z.div_pos; try apply Z.mod_pos_bound; lia).
  f_equal. apply Z.div_mod. lia.
Qed.

Lemma lshift_left_ok x y sign : digits x -> x <> [] -> 0 < y < 2 ^ 63 ->
  exists r, I_lshift x y sign = Some r /\ digits r /\ r <> [] /\ dval r = dval x * 2 ^ y /\ (normal x -> normal r).
Proof.
  intros Hx Hne Hy. change (2 ^ 63) with 9223372036854775808 in Hy. unfold I_lshift. replace (y =? 0) with false by lia. case_bool_decide as E0.
  { subst x. exists [0]. cbn [dval]. parts. }
  replace (y <? 0) with false by lia. replace (0 <? y) with true by lia. rewrite wrapu64_small by dig. change D_EXP with 64.
  assert (0 <= y / 64) by (apply Z.div_pos; lia). pose proof (Z.mod_pos_bound y 64 ltac:(lia)) as Hsw. set (bw := Z.to_nat (y / 64)). set (sw := y mod 64) in *.
  assert (exists r a, (if sw =? 0 then (x, 0) else lshift_loop x sw 0) = (r, a) /\ digits r /\ length r = length x /\ 0 <= a < 2 ^ sw /\ dval r + pw x * a = dval x * 2 ^ sw) as (r & a & -> & Hr & Hlr & Ha & E).
  { destruct (Z.eqb_spec sw 0) as [->|]; [exists x, 0; parts|]. assert (0 < 2 ^ sw) by (apply Z.pow_pos_nonneg; lia).
    destruct (lshift_loop_ok x sw 0 Hx) as (r & a & -> & Hr & Hlr & Ha & E); [lia..|]. exists r, a. parts. }
  eexists. split; [reflexivity|]. set (v := if a =? 0 then r else r ++ [a]).
  assert (a < DB) as HaDB. { assert (2 ^ sw < 2 ^ 64) by (apply Z.pow_lt_mono_r; lia). change (2 ^ 64) with DB in *. lia. }
  assert (digits v /\ v <> [] /\ dval v = dval x * 2 ^ sw /\ (normal x -> 0 < dval x -> normal v)) as (Hv & Hvne & Ev & Nv).
  { assert (r <> []) as Hrne by (apply nonempty; destruct x; [done|cbn [length] in *; lia]). unfold v. destruct (Z.eqb_spec a 0) as [->|Ha0].
    - split; [done|]. split; [done|]. split; [lia|]. intros Nx Hpos. apply normal_intro; [done|done|]. intros _. rewrite (pw_len r x Hlr). pose proof (normal_pos x Hx Nx Hpos).
      assert (dval x * 1 <= dval x * 2 ^ sw) by (apply Z.mul_le_mono_nonneg_l; lia). lia.
    - split; [apply digits_app; split; [done|apply digits_one; dig]|]. split; [by destruct r|]. split; [rewrite dval_app, (pw_len r x Hlr); cbn [dval]; lia|].
      intros _ _. split; [by destruct r|]. rewrite last_snoc. by intros [= ->]. }
  assert (dval (replicate bw 0 ++ v) = dval x * 2 ^ y) as Eres.
  { rewrite dval_app, dval_zeros, Ev, (pow_split y) by lia. unfold pw, zlen. rewrite length_replicate. unfold bw. rewrite Z2Nat.id by lia. fold sw. ring. }
  assert (digits (replicate bw 0 ++ v)) as Hd by (apply digits_app; split; [apply digits_zeros|done]). assert (replicate bw 0 ++ v <> []) as Hn by (by destruct (replicate bw 0), v).
  split; [done|]. split; [done|]. split; [done|]. intros Nx. pose proof (dval_range x Hx). destruct (decide (dval x = 0)) as [E1|].
  - exfalso. apply E0. apply normal_unique; [done|by apply digits_one, digit_0|done|by apply normal_singleton, digit_0|done].
  - specialize (Nv Nx ltac:(lia)). assert (0 < 2 ^ sw) by (apply Z.pow_pos_nonneg; lia). assert (0 < dval v) by (rewrite Ev; apply Z.mul_pos_pos; lia).
    by apply normal_zeros; [..|lia].
Qed.

Lemma existsb_nonzero x : digits x -> existsb (fun z => negb (z =? 0)) x = negb (dval x =? 0).
Proof.
  induction 1 as [|d x Hd Hx IH]; [done|]. cbn [existsb dval]. rewrite IH. pose proof (dval_range x Hx). unfold digit in Hd.
  destruct (Z.eqb_spec d 0), (Z.eqb_spec (dval x) 0); cbn [negb orb]; symmetry; apply negb_true_iff || apply negb_false_iff; lia.
Qed.

Lemma rshift_tail_ok r sign add_one : digits r -> r <> [] -> (add_one = true -> sign = true) -> (sign = true -> dval r = 0 -> add_one = true) ->
  exists r', rshift_tail r sign add_one = Some r' /\ digits r' /\ r' <> [] /\ dval r' = dval r + b2z add_one /\
    (((1 < length r)%nat -> pw r <= DB * (DB * dval r)) -> normal r').
Proof.
  intros Hr Hne Hs Hz. unfold rshift_tail. destruct r as [|t r] using rev_ind; [done|]. clear IHr. rewrite length_app. cbn [length].
  replace (length r + 1 - 1)%nat with (length r + 0)%nat by lia. rewrite lookup_app_r, firstn_app_2, take_0, app_nil_r by lia. replace (length r + 0 - length r)%nat with 0%nat by lia.
  cbn [lookup list_lookup mbind option_bind]. pose proof Hr as [Hr' [Ht _]%digits_cons]%digits_app. rewrite dval_app, pw_app, pw_cons, pw_nil. cbn [dval]. set (V := dval r + _).
  destruct ((t =? 0) && (length r + 1 =? 1)%nat) eqn:E1.
  { apply andb_true_iff in E1 as [->%Z.eqb_eq El%Nat.eqb_eq]. destruct r; [|cbn [length] in El; lia]. cbn [dval] in V. eexists. split; [reflexivity|]. rewrite dval_app in *. cbn [dval app] in *. fold V in Hz.
    destruct sign, add_one; unfold V in *; cbn [b2z dval app] in *; try (specialize (Hz eq_refl ltac:(lia)); done); try (specialize (Hs eq_refl); done); parts. }
  set (w := if t =? 0 then r else r ++ [t]). assert (digits w /\ w <> [] /\ dval w = V /\ (((1 < length r + 1)%nat -> pw r * (DB * 1) <= DB * (DB * V)) -> normal w)) as (Hw & Hwne & Ew & Nw).
  { unfold w, V. destruct (Z.eqb_spec t 0) as [->|Ht0].
    - destruct r as [|d r]; [done|]. split; [done|]. split; [done|]. split; [lia|]. intros Hn. apply normal_intro; [done|done|]. intros _. specialize (Hn ltac:(cbn [length]; lia)). lia.
    - split; [done|]. split; [done|]. split; [rewrite dval_app; cbn [dval]; lia|]. intros _. split; [done|]. rewrite last_snoc. by intros [= ->]. }
  eexists. split; [reflexivity|]. fold w. clearbody w V. destruct add_one; cbn [b2z].
  - destruct (D_add_ok w 1 Hw Hwne digit_1) as (H1 & H2 & H3 & H4). split; [done|]. split; [apply nonempty; destruct w; [done|cbn [length] in *; lia]|]. split; [lia|]. intros Hn. by apply H3, Nw.
  - parts.
Qed.

(** Shifts to the right round down: towards a larger vector when the number is negative. *)
Lemma lshift_right_ok x y sign : digits x -> x <> [] -> (sign = true -> 1 <= dval x) -> - 2 ^ 63 < y < 0 ->
  exists r, I_lshift x y sign = Some r /\ digits r /\ r <> [] /\ sval sign r = sval sign x / 2 ^ (- y) /\ (normal x -> normal r).
Proof.
  intros Hx Hne Hs Hy. change (2 ^ 63) with 9223372036854775808 in Hy. unfold I_lshift. replace (y =? 0) with false by lia. assert (0 < 2 ^ (- y)) as Hpow by (apply Z.pow_pos_nonneg; lia). case_bool_decide as E0.
  { subst x. exists [0]. cbn [dval] in *. destruct sign; [specialize (Hs eq_refl); lia|]. cbn [sval dval]. rewrite Z.div_small by lia. parts. }
  replace (y <? 0) with true by lia. replace (0 <? y) with false by lia. rewrite wrapu64_small by dig. change D_EXP with 64. set (ay := - y) in *.
  assert (0 <= ay / 64) by (apply Z.div_pos; lia). pose proof (Z.mod_pos_bound ay 64 ltac:(lia)) as Hsw. pose proof (pow_split ay ltac:(lia)) as Epow. set (bw := Z.to_nat (ay / 64)). set (sw := ay mod 64) in *.
  replace (ay / 64) with (Z.of_nat bw) in Epow by lia. assert (0 < 2 ^ sw) as H2 by (apply Z.pow_pos_nonneg; lia). assert (0 < DB ^ Z.of_nat bw) as HB by (apply Z.pow_pos_nonneg; lia). pose proof (dval_range x Hx) as Rx.
  destruct (Nat.leb_spec (length x) bw) as [Hle|Hgt].
  { eexists. split; [reflexivity|]. assert (dval x < 2 ^ ay) as Hlt. { rewrite pw_nat in Rx. assert (DB ^ Z.of_nat (length x) <= DB ^ Z.of_nat bw) by (apply Z.pow_le_mono_r; lia).
      assert (DB ^ Z.of_nat bw * 1 <= DB ^ Z.of_nat bw * 2 ^ sw) by (apply Z.mul_le_mono_nonneg_l; lia). lia. }
    destruct sign; cbn [sval dval].
    - specialize (Hs eq_refl). rewrite <- (Z.div_unique (- dval x) (2 ^ ay) (-1) (2 ^ ay - dval x)) by lia. parts.
    - rewrite Z.div_small by lia. parts. }
  set (low := take bw x). set (h := drop bw x). assert (x = low ++ h) as Exl by (symmetry; apply take_drop). assert (length low = bw) as Ell by (unfold low; rewrite length_take; lia).
  assert (digits low /\ digits h) as [Hlow Hh] by (apply digits_app; by rewrite <- Exl). pose proof (dval_range low Hlow) as Rlow. rewrite pw_nat, Ell in Rlow.
  assert (dval x = dval low + DB ^ Z.of_nat bw * dval h) as Exv by (rewrite Exl, dval_app, pw_nat, Ell; done). rewrite existsb_nonzero by done. fold h.
  assert (exists r c, (if sw =? 0 then (reverse h, 0) else rshift_loop (reverse h) sw 0) = (r, c * 2 ^ (64 - sw)) /\ digits r /\ length r = length h /\ 0 <= c < 2 ^ sw /\ 2 ^ sw * dval (reverse r) + c = dval h) as (r & c & -> & Hr & Hlr & Hc & E).
  { assert (digits (reverse h)) as Hrev by (by apply Forall_reverse). destruct (Z.eqb_spec sw 0) as [->|].
    - exists (reverse h), 0. rewrite reverse_involutive, length_reverse. parts.
    - destruct (rshift_loop_ok (reverse h) sw 0 Hrev) as (r & c & E & Hr & Hlr & Hc & Ev); [lia..|]. rewrite Z.mul_0_l in E. exists r, c. rewrite E. rewrite length_reverse in Hlr. rewrite reverse_involutive in Ev. parts. }
  assert (0 < 2 ^ (64 - sw)) as H3 by (apply Z.pow_pos_nonneg; lia). replace (c * 2 ^ (64 - sw) =? 0) with (c =? 0) by nia. set (R := dval (reverse r)) in *.
  assert (digits (reverse r)) as Hrr by (by apply Forall_reverse). pose proof (dval_range _ Hrr) as RR. fold R in RR. set (lost := dval low + DB ^ Z.of_nat bw * c).
  assert (dval x = 2 ^ ay * R + lost) as ExR by (unfold lost; rewrite Exv, <- E, Epow; ring).
  assert (0 <= lost < 2 ^ ay) as Hlost. { unfold lost. assert (0 <= DB ^ Z.of_nat bw * c) by (apply Z.mul_nonneg_nonneg; lia). assert (DB ^ Z.of_nat bw * c <= DB ^ Z.of_nat bw * (2 ^ sw - 1)) by (apply Z.mul_le_mono_nonneg_l; lia). lia. }
  assert (sign && negb (dval low =? 0) || sign && negb (c =? 0) = sign && negb (lost =? 0)) as ->.
  { destruct sign; [cbn [andb]|done]. unfold lost. assert (0 <= DB ^ Z.of_nat bw * c) by (apply Z.mul_nonneg_nonneg; lia).
    rewrite <- negb_andb. f_equal. destruct (Z.eqb_spec (dval low) 0) as [->|]; cbn [andb]; [|symmetry; apply Z.eqb_neq; lia].
    destruct (Z.eqb_spec c 0) as [->|]; symmetry; [by rewrite Z.mul_0_r|]. apply Z.eqb_neq. assert (0 < DB ^ Z.of_nat bw * c) by (apply Z.mul_pos_pos; lia). lia. }
  assert (reverse r <> []) as Hrne by (apply nonempty; rewrite length_reverse, Hlr; unfold h; rewrite length_drop; lia).
  destruct (rshift_tail_ok (reverse r) sign (sign && negb (lost =? 0)) Hrr Hrne) as (r' & -> & Hr' & Hne' & Ev & Nr'); [by intros [? _]%andb_true_iff| |].
  { intros Es Ez. fold R in Ez. specialize (Hs Es). rewrite Es. cbn [andb]. apply negb_true_iff, Z.eqb_neq. lia. }
  exists r'. split; [done|]. split; [done|]. split; [done|]. fold R in Ev. split.
  - destruct sign; cbn [sval andb] in *.
    + rewrite Ev. destruct (Z.eqb_spec lost 0) as [El|El]; cbn [negb b2z].
      * apply (Z.div_unique _ _ _ 0); lia.
      * apply (Z.div_unique _ _ _ (2 ^ ay - lost)); lia.
    + rewrite Ev. apply (Z.div_unique _ _ _ lost); cbn [b2z]; lia.
  - intros Nx. apply Nr'. rewrite length_reverse, (pw_len (reverse r) h) by (by rewrite length_reverse). intros Hl1. fold R.
    assert (normal h) as Nh. { split; [apply nonempty; lia|]. destruct Nx as [_ Nx]. intros El. exfalso. apply E0, Nx. rewrite Exl, last_app, El. done. }
    pose proof (normal_low h Hh Nh ltac:(unfold zlen; lia)) as Hlowh. assert (2 ^ sw <= DB) by (change DB with (2 ^ 64); apply Z.pow_le_mono_r; lia).
    assert (exists k, pw h = DB * (2 ^ sw * k)) as [k Ek].
    { destruct h as [|h0 [|h1 h']]; [by destruct Nh|cbn [length] in *; lia|]. exists (2 ^ (64 - sw) * pw h'). rewrite !pw_cons. rewrite (Z.mul_assoc (2 ^ sw)), <- Z.pow_add_r by lia. replace (sw + (64 - sw)) with 64 by lia. done. }
    rewrite Ek in *. assert (k <= R) by nia. assert (2 ^ sw * k <= 2 ^ sw * R) by (apply Z.mul_le_mono_nonneg_l; lia). assert (2 ^ sw * R <= DB * R) by (apply Z.mul_le_mono_nonneg_r; lia). lia.
Qed.

Lemma I_lshift_ok x y sign : digits x -> x <> [] -> (sign = true -> 1 <= dval x) -> - 2 ^ 63 < y < 2 ^ 63 ->
  exists r, I_lshift x y sign = Some r /\ digits r /\ r <> [] /\ sval sign r = Z.shiftl (sval sign x) y /\ (normal x -> normal r).
Proof.
  intros Hx Hne Hs Hy. destruct (Z.lt_total y 0) as [Hlt|[->|Hgt]].
  - rewrite <- (Z.shiftr_opp_r _ y), Z.shiftr_div_pow2 by lia. apply lshift_right_ok; [done..|lia].
  - exists x. rewrite Z.shiftl_0_r. done.
  - destruct (lshift_left_ok x y sign Hx Hne ltac:(lia)) as (r & -> & H1 & H2 & H3 & H4). exists r. rewrite Z.shiftl_mul_pow2 by lia. unfold sval. rewrite H3. destruct sign; parts.
Qed.
