(* ===== verification/BigDiv.v ===== *)
(** * Long division of vectors of digits: [I_div] of [erts/emulator/beam/big.c]

    A digit of the quotient is estimated from the two highest digits of remainder and
    divisor.  When the estimate was too large, the remainder becomes negative, and the
    next digits are subtracted from the quotient in place of being added. *)
From S2P Require Import Prelude PutGet BigDigit BigNat.

Section Division.
Context {M : DigitMacros}.

(** ** The code

    In the loop [rp] is always [r + (rl - yl)] and [qp] is [q + (rl - yl)], so that both
    follow from the digits of the remainder, [r], of which there are [rl]; [q] are the
    [ql] digits at [qp]. *)

(** The estimate, and whether [rp] and [qp] are moved by one digit. *)
Definition div_q0 (a1 a2 b1 b2 : Z) : option (Z * bool) :=
  if b1 <? a1 then q0 ← DDIV2 a1 a2 b1 b2; Some (q0, false)
  else if a1 <? b1 then q0 ← DDIV a1 a2 b1; Some (q0, true)
  else Some (if b2 <=? a2 then (1, false) else (D_MASK, true)).

(** [nnsz] behind the subtraction: the digits at [r], [nnsz], and [r_signed]. *)
Definition div_size (r : list Z) (low win : list Z) (borrow signed : bool) : list Z * nat * bool :=
  let nsz := length win in
  let rl := length r in
  if borrow then
    let r := Z_sub (low ++ win) in
    let nnsz := length (trim r) in
    (r, if (rl - nnsz <? nsz)%nat then (nsz - (rl - nnsz))%nat else 1%nat, negb signed)
  else (low ++ win, length (trim win), signed).

(** A turn of the loop. *)
Definition div_step (y : list Z) (b1 b2 : Z) (r q : list Z) (signed : bool) : option (list Z * list Z * bool) :=
  let yl := length y in
  let rl := length r in
  a1 ← r !! (rl - 1)%nat;
  a2 ← r !! (rl - 2)%nat;
  '(q0, ext) ← div_q0 a1 a2 b1 b2;
  let nsz := if ext : bool then S yl else yl in
  let q := if ext then 0 :: q else q in
  if (rl <? nsz)%nat then None
  else
    let q := if signed then D_sub q q0 else D_add q q0 in
    let low := take (rl - nsz) r in
    '(win, borrow) ← D_mulsub (drop (rl - nsz) r) q0 y;
    let '(r, nnsz, signed) := div_size r low win borrow signed in
    rp0 ← r !! (rl - nsz)%nat;
    let nnsz := if (nnsz =? 1)%nat && (rp0 =? 0) then 0%nat else nnsz in
    if (yl <? nnsz)%nat then None
    else Some (take (rl - (nsz - nnsz)) r, replicate (yl - nnsz) 0 ++ q, signed).

(** [do {...} while (I_comp(r, rl, y, yl) >= 0)] *)
Fixpoint idiv_loop (fuel : nat) (y : list Z) (b1 b2 : Z) (r q : list Z) (signed : bool) : option (list Z * list Z * bool) :=
  match fuel with
  | O => None
  | S fuel =>
      '(r, q, signed) ← div_step y b1 b2 r q signed;
      if 0 <=? I_comp r y then idiv_loop fuel y b1 b2 r q signed else Some (r, q, signed)
  end.

(** Quotient and remainder.  A turn that does not shorten the remainder makes it smaller
    by a quarter at least, so that 200 of them for each digit are enough. *)
Definition I_div (x y : list Z) : option (list Z * list Z) :=
  let yl := length y in
  b1 ← y !! (yl - 1)%nat;
  b2 ← y !! (yl - 2)%nat;
  a1 ← x !! (length x - 1)%nat;
  a2 ← x !! (length x - 2)%nat;
  let q := if (b1 <? a1) || ((b1 =? a1) && (b2 <=? a2)) then [0] else [] in
  '(r, q, signed) ← idiv_loop (200 * (length x + 1)) y b1 b2 x q false;
  (* [ql -= (q - qp)] *)
  let q := if (length r <? yl)%nat then drop (yl - length r) q else replicate (length r - yl) 0 ++ q in
  (* with [rl == 0] the digit at [r] is 0 *)
  let r := trim (match r with [] => [0] | _ => r end) in
  if signed && negb (bool_decide (r = [0])) then r ← I_sub y r; Some (D_sub q 1, r)
  else Some (q, r).

End Division.

(** ** The estimate *)

Section Laws.
Context {M : DigitMacros} {L : DigitLaws M}.

(** [W] is what is left of the dividend, with [a1] and [a2] in front, [Y] the divisor, with
    [b1] and [b2]; [E] is the base to the number of digits behind the two of [Y]. *)
Lemma div_q0_ok a1 a2 b1 b2 E Y : digit a1 -> digit a2 -> digit b1 -> digit b2 -> 1 <= b1 -> 1 <= E ->
  (DB * b1 + b2) * E <= Y < (DB * b1 + b2 + 1) * E ->
  exists q0 ext, div_q0 a1 a2 b1 b2 = Some (q0, ext) /\ digit q0 /\ ext = negb ((b1 <? a1) || ((b1 =? a1) && (b2 <=? a2))) /\
    (1 <= a1 -> 1 <= q0) /\
    (ext = false -> forall W, (DB * a1 + a2) * E <= W < (DB * a1 + a2 + 1) * E ->
       1 <= q0 /\ W + 1 <= 4 * (q0 * Y) /\ 4 * (q0 * Y) <= 7 * W /\ q0 * Y - W < DB * E) /\
    (ext = true -> forall W, (DB * a1 + a2) * (DB * E) <= W < (DB * a1 + a2 + 1) * (DB * E) ->
       W - q0 * Y < DB * (DB * E) /\ q0 * Y - W < DB * (DB * E) /\ q0 * Y <= 2 * W /\ (1 <= q0 -> q0 * Y < 2 * W)).
Proof.
  intros Ha1 Ha2 Hb1 Hb2 Hb HE HY. unfold div_q0. set (A := DB * a1 + a2). set (b := DB * b1 + b2) in *.
  destruct (Z.ltb_spec b1 a1) as [Hlt|Hge]; cbn [orb negb].
  - destruct (DDIV2_ok a1 a2 b1 b2 Ha1 Ha2 Hb1 Hb2 ltac:(lia)) as (q & -> & Hq & Hq1 & Hq2). fold A b in Hq1, Hq2. cbn [mbind option_bind].
    exists q, false. split; [done|]. split; [dig|]. split; [done|]. split; [lia|]. split; [|done]. intros _ W HW.
    assert (DB <= b) as Hb' by dig. assert (2 * q <= A) as HqA by nia. assert (DB <= A) by dig. clearbody A b.
    assert (q * (b * E) <= q * Y) as H1 by (apply Z.mul_le_mono_nonneg_l; lia). assert (q * Y <= q * ((b + 1) * E)) as H2 by (apply Z.mul_le_mono_nonneg_l; lia).
    assert (q * b * E <= A * E) as H3 by (apply Z.mul_le_mono_nonneg_r; lia). assert (A * E <= (q + 1) * b * E) as H4 by (apply Z.mul_le_mono_nonneg_r; lia).
    assert (2 * q * E <= A * E) as H5 by (apply Z.mul_le_mono_nonneg_r; lia). assert (1 * (b * E) <= q * (b * E)) as H6 by (apply Z.mul_le_mono_nonneg_r; lia).
    assert (q * E <= (DB - 1) * E) as H7 by (apply Z.mul_le_mono_nonneg_r; lia). assert (DB * E <= A * E) by (apply Z.mul_le_mono_nonneg_r; lia).
    split_and!; lia.
  - destruct (Z.ltb_spec a1 b1) as [Hlt|Hge'].
    + rewrite DDIV_ok by done. cbn [mbind option_bind]. replace (b1 =? a1) with false by lia. cbn [andb negb]. fold A.
      pose proof (Z.div_mod A b1 ltac:(lia)) as Hdm. pose proof (Z.mod_pos_bound A b1 ltac:(lia)) as Hmod. set (q := A / b1) in *. set (m := A mod b1) in *.
      assert (0 <= q) as Hq0 by (apply Z.div_pos; unfold A; dig). assert (q < DB) as HqB by (apply Z.div_lt_upper_bound; unfold A; dig).
      assert (1 <= a1 -> 1 <= q) as Hq1 by (intros; apply Z.div_le_lower_bound; unfold A; dig). clearbody q m.
      exists q, true. split; [done|]. split; [dig|]. split; [done|]. split; [done|]. split; [done|]. intros _ W HW.
      assert (b1 * (DB * E) <= Y) as HY1 by (unfold b in HY; dig || nia). assert (Y < (b1 + 1) * (DB * E)) as HY2 by (unfold b in HY; unfold digit in *; nia).
      set (E' := DB * E) in *. assert (1 <= E') by (unfold E'; lia). clearbody A b E'.
      assert (q * (b1 * E') <= q * Y) by (apply Z.mul_le_mono_nonneg_l; lia). assert (q * Y <= q * ((b1 + 1) * E')) by (apply Z.mul_le_mono_nonneg_l; lia).
      assert (A * E' = b1 * q * E' + m * E') by (rewrite Hdm; ring). assert (0 <= m * E' <= (b1 - 1) * E') by (split; [apply Z.mul_nonneg_nonneg; lia|apply Z.mul_le_mono_nonneg_r; lia]).
      assert (b1 * E' <= (DB - 1) * E') by (apply Z.mul_le_mono_nonneg_r; dig). assert (q * E' <= (DB - 1) * E') by (apply Z.mul_le_mono_nonneg_r; lia).
      assert (q * E' * 1 <= q * E' * b1) by (apply Z.mul_le_mono_nonneg_l; [apply Z.mul_nonneg_nonneg; lia|lia]).
      assert (1 <= q -> q * Y < q * ((b1 + 1) * E')) by (intros; apply Z.mul_lt_mono_pos_l; lia).
      split_and!; lia.
    + assert (a1 = b1) as -> by lia. rewrite Z.eqb_refl. cbn [andb]. destruct (Z.leb_spec b2 a2) as [Hle|Hgt]; cbn [negb].
      * exists 1, false. split; [done|]. split; [dig|]. split; [done|]. split; [lia|]. split; [|done]. intros _ W HW. assert (b <= A < b + DB) by (unfold A, b; dig). assert (DB <= b) by (unfold b; dig).
        clearbody A b. assert (b * E <= A * E) by (apply Z.mul_le_mono_nonneg_r; lia). assert ((A + 1) * E <= (2 * b) * E) by (apply Z.mul_le_mono_nonneg_r; lia).
        assert (DB * E <= b * E) by (apply Z.mul_le_mono_nonneg_r; lia). split_and!; lia.
      * exists D_MASK, true. split; [done|]. split; [unfold D_MASK; dig|]. split; [done|]. split; [unfold D_MASK; lia|]. split; [done|]. intros _ W HW. unfold D_MASK.
        assert (A + 1 <= b <= A + DB - 1) by (unfold A, b; dig). assert (b <= 2 * A - 1) by (unfold A, b; dig). assert (0 <= A /\ b <= DB * DB - 1) by (unfold A, b; dig). clearbody A b.
        assert ((A + 1) * E <= b * E) by (apply Z.mul_le_mono_nonneg_r; lia). assert (b * E <= (A + DB - 1) * E) by (apply Z.mul_le_mono_nonneg_r; lia).
        assert (b * E <= (2 * A - 1) * E) by (apply Z.mul_le_mono_nonneg_r; lia). assert (0 <= A * E) by (apply Z.mul_nonneg_nonneg; dig).
        assert (b * E <= (DB * DB - 1) * E) by (apply Z.mul_le_mono_nonneg_r; dig). split_and!; lia.
Qed.

(** ** The size of the remainder *)

Lemma trim_zeros r : r <> [] -> exists n, r = trim r ++ replicate n 0.
Proof.
  induction r as [|d r IH]; intros Hne; [done|]. cbn [trim]. destruct r as [|e r]; [by exists 0%nat|].
  destruct (IH ltac:(done)) as [n E]. destruct (trim (e :: r)) as [|t0 [|t1 t]] eqn:Et.
  - exfalso. cbn [trim] in Et. destruct (trim r) as [|? [|]]; [done| |done]. by destruct (_ =? 0).
  - destruct (Z.eqb_spec t0 0) as [->|].
    + exists (S n). by rewrite E.
    + exists n. by rewrite E.
  - exists n. by rewrite E.
Qed.

Lemma dval_padded t n : dval (t ++ replicate n 0) = dval t.
Proof. rewrite dval_app, dval_zeros. lia. Qed.
Lemma take_padded (t : list Z) n k : (length t <= k <= length t + n)%nat -> take k (t ++ replicate n 0) = t ++ replicate (k - length t) 0.
Proof. intros Hk. rewrite firstn_app, take_ge by lia. f_equal. rewrite take_replicate. f_equal. lia. Qed.


(** What [nnsz] ends up as. *)
Definition final_size (full : list Z) (nn l : nat) : nat :=
  if (nn =? 1)%nat && (default 0 (full !! l) =? 0) then 0%nat else nn.

Lemma div_size_ok (r low win : list Z) (borrow signed : bool) (V : Z) : digits low -> digits win -> win <> [] -> length r = (length low + length win)%nat ->
  V = (if borrow then pw (low ++ win) - dval (low ++ win) else dval (low ++ win)) -> (borrow = true -> 0 < dval (low ++ win)) ->
  exists full nn, div_size r low win borrow signed = (full, nn, xorb signed borrow) /\ digits full /\ length full = length r /\
    let n := final_size full nn (length low) in
    (n <= length win)%nat /\ dval (take (length low + n) full) = V /\
    (forall m, V < pw low * DB ^ Z.of_nat m -> (n <= m)%nat).
Proof.
  intros Hlow Hwin Hne Hr EV Hpos. unfold div_size. pose proof (pw_pos low) as Hpl. pose proof (dval_range low Hlow) as Rl. destruct borrow; cbn [xorb].
  - destruct (Z_sub_ok (low ++ win)) as (Hd & Hl & Ev); [by apply digits_app|by apply Hpos|]. rewrite length_app in Hl. rewrite <- EV in Ev.
    set (full := Z_sub (low ++ win)) in *. assert (full <> []) as Hfne by (apply nonempty; destruct win; [done|cbn [length] in *; lia]).
    assert (0 < V) as HV. { pose proof (dval_range (low ++ win)) as Hrg. rewrite digits_app in Hrg. specialize (Hrg (conj Hlow Hwin)). lia. }
    destruct (trim_ok full Hd Hfne) as (Ht & Nt & Evt & Hlt). destruct (trim_zeros full Hfne) as [n En]. set (t := trim full) in *. rewrite xorb_true_r. eexists _, _. split; [reflexivity|]. split; [done|]. split; [lia|].
    assert (length full = length t + n)%nat as Hlf by (rewrite En at 1; by rewrite length_app, length_replicate).
    assert (0 < length t)%nat as Hlt0 by (destruct t; [by destruct Nt|cbn; lia]).
    destruct (Nat.ltb_spec (length r - length t) (length win)) as [Hlt1|Hge]; cbv zeta.
    + replace (length win - (length r - length t))%nat with (length t - length low)%nat by lia.
      assert (final_size full (length t - length low) (length low) = (length t - length low)%nat) as ->.
      { unfold final_size. destruct (Nat.eqb_spec (length t - length low) 1) as [E1|]; [|done]. cbn [andb].
        replace (length low) with (length t - 1)%nat by lia. rewrite En, lookup_app_l by lia.
        destruct (Z.eqb_spec (default 0 (t !! (length t - 1)%nat)) 0) as [E0|]; [|lia]. exfalso.
        destruct Nt as [Ntne Nt]. rewrite list.last_lookup in Nt. replace (pred (length t)) with (length t - 1)%nat in Nt by lia.
        destruct (t !! (length t - 1)%nat) as [d|] eqn:Ed; [|apply lookup_ge_None in Ed; lia]. cbn in E0. subst d. specialize (Nt eq_refl). rewrite Nt in Evt. cbn in Evt. lia. }
      split; [lia|]. split.
      * replace (length low + (length t - length low))%nat with (length t) by lia. rewrite En, take_padded by lia. rewrite Nat.sub_diag, app_nil_r. lia.
      * intros m Hm. rewrite pw_nat, <- Z.pow_add_r, <- Nat2Z.inj_add in Hm by lia. pose proof (normal_size t (length low + m) Ht Nt ltac:(lia)).
        destruct (decide (0 < length low + m)%nat); [lia|]. replace (length low + m)%nat with 0%nat in Hm by lia. cbn in Hm. lia.
    + assert (final_size full 1 (length low) = 0%nat) as ->.
      { unfold final_size. cbn [Nat.eqb andb]. rewrite En, lookup_app_r by lia.
        destruct (replicate n 0 !! (length low - length t)%nat) as [d|] eqn:Ed; [|done]. apply lookup_replicate in Ed as [-> _]. done. }
      split; [lia|]. split; [|lia]. rewrite Nat.add_0_r, En, take_padded by lia. rewrite dval_padded. lia.
  - rewrite xorb_false_r. eexists _, _. split; [reflexivity|]. split; [by apply digits_app|]. split; [rewrite length_app; lia|]. cbv zeta.
    destruct (trim_ok win Hwin Hne) as (Ht & Nt & Evt & Hlt). destruct (trim_zeros win Hne) as [n En]. set (t := trim win) in *.
    rewrite dval_app in EV. unfold final_size. replace ((low ++ win) !! length low) with (win !! 0%nat) by (rewrite lookup_app_r, Nat.sub_diag by lia; done).
    assert (length win = length t + n)%nat as Hlw by (rewrite En at 1; by rewrite length_app, length_replicate).
    assert (forall k, take (length low + k) (low ++ win) = low ++ take k win) as Htake by (intros k; rewrite firstn_app_2; done).
    destruct ((length t =? 1)%nat && (default 0 (win !! 0%nat) =? 0)) eqn:Ec.
    + apply andb_true_iff in Ec as [E1%Nat.eqb_eq E0]. split; [lia|]. split; [|lia]. rewrite Htake, take_0, app_nil_r.
      assert (dval win = 0) as E2; [|rewrite EV, E2; lia]. rewrite <- Evt. rewrite En in E0. destruct t as [|d [|]]; try (cbn in E1; lia). cbn in *. lia.
    + split; [lia|]. split.
      * rewrite Htake, En, take_padded, Nat.sub_diag, app_nil_r, dval_app, Evt by lia. lia.
      * intros m Hm. assert (dval win < DB ^ Z.of_nat m) as Hw by (apply (Z.mul_lt_mono_pos_l (pw low)); lia). destruct m as [|m].
        -- exfalso. cbn in Hw. pose proof (dval_range win Hwin). assert (t = [0]) as Et by (apply normal_unique; [done|by apply digits_one, digit_0|done|by apply normal_singleton, digit_0|cbn; lia]).
           rewrite En, Et in Ec. cbn in Ec. done.
        -- apply normal_size; [done|done|lia|lia].
Qed.
(** ** A turn of the loop *)

Definition sgn (signed : bool) : Z := if signed then -1 else 1.

Lemma I_comp_ge r y : digits r -> digits y -> 0 <= I_comp r y ->
  (length y <= length r)%nat /\ (length r = length y -> dval y <= dval r).
Proof.
  intros Hr Hy Hc. unfold I_comp, zlen in Hc. destruct (Z.ltb_spec (Z.of_nat (length r)) (Z.of_nat (length y))); [lia|]. split; [lia|]. intros El.
  replace (_ <? _) with false in Hc by lia. rewrite comp_loop_ok in Hc by done. unfold cmp3 in Hc. destruct (Z.ltb_spec (dval r) (dval y)); lia.
Qed.

Lemma two_highest r0 (a2 a1 : Z) : (r0 ++ [a2; a1]) !! (length (r0 ++ [a2; a1]) - 1)%nat = Some a1 /\ (r0 ++ [a2; a1]) !! (length (r0 ++ [a2; a1]) - 2)%nat = Some a2.
Proof.
  rewrite length_app. cbn [length]. split; rewrite lookup_app_r by lia.
  - by replace (length r0 + 2 - 1 - length r0)%nat with 1%nat by lia.
  - by replace (length r0 + 2 - 2 - length r0)%nat with 0%nat by lia.
Qed.
Lemma dval_two w0 a2 a1 : dval (w0 ++ [a2; a1]) = dval w0 + pw w0 * (DB * a1 + a2).
Proof. rewrite dval_app. cbn [dval]. ring. Qed.
Lemma two_bounds w0 a2 a1 : digits w0 -> (DB * a1 + a2) * pw w0 <= dval (w0 ++ [a2; a1]) < (DB * a1 + a2 + 1) * pw w0.
Proof. intros Hw. rewrite dval_two. pose proof (dval_range w0 Hw). lia. Qed.

(** The digits of the quotient so far: none before the first turn.  Leading zeros only
    come from those of the dividend. *)
Definition quot_ok (ext : bool) (q : list Z) : Prop :=
  q = (if ext then [] else [0]) \/ (normal q /\ 1 <= dval q).
Lemma quot_ext ext q : digits q -> (ext = false -> q <> []) ->
  let q' := if ext then 0 :: q else q in digits q' /\ q' <> [] /\ dval q' = (if ext then DB else 1) * dval q /\ (quot_ok ext q -> normal q').
Proof.
  intros Hq Hne. destruct ext; cbn [dval].
  - assert (digits (0 :: q)) as Hd by (constructor; [apply digit_0|done]). split; [done|]. split; [done|]. split; [lia|].
    intros [-> |[Nq Hv]]; [by apply normal_singleton, digit_0|]. apply normal_intro; [done|done|]. intros _. rewrite pw_cons. pose proof (normal_pos q Hq Nq ltac:(lia)). cbn [dval]. lia.
  - split; [done|]. split; [by apply Hne|]. split; [lia|]. intros [-> |[Nq _]]; [by apply normal_singleton, digit_0|done].
Qed.

Lemma div_step_ok X y y0 b1 b2 r r0 a1 a2 q Q signed : y = y0 ++ [b2; b1] -> digits y -> 1 <= b1 -> r = r0 ++ [a2; a1] -> digits r -> 0 <= I_comp r y ->
  let ext := negb ((b1 <? a1) || ((b1 =? a1) && (b2 <=? a2))) in
  digits q -> (ext = false -> q <> []) -> dval q * pw r = pw y * Q -> X = Q * dval y + sgn signed * dval r -> dval r <= X ->
  exists r' q1 n Q' signed', div_step y b1 b2 r q signed = Some (r', replicate n 0 ++ q1, signed') /\ digits r' /\ digits q1 /\ q1 <> [] /\ (quot_ok ext q -> normal q1) /\
    (length y <= length r' + n)%nat /\ dval q1 * DB ^ Z.of_nat n * pw r' = pw y * Q' /\ X = Q' * dval y + sgn signed' * dval r' /\
    dval r' <= dval r /\ (1 <= a1 -> dval r' < dval r) /\ (length r' <= length r)%nat /\ (length r' = length r -> ext = false /\ 4 * dval r' <= 3 * dval r).
Proof.
  intros Ey Hy Hb1 Er Hr Hcomp ext Hq Hqok EQ EX HX. destruct (I_comp_ge r y Hr Hy Hcomp) as [Hlen Hval].
  pose proof Hy as Hy'. rewrite Ey in Hy'. apply digits_app in Hy' as [Hy0 [Hb2 [Hb1' _]%digits_cons]%digits_cons].
  pose proof Hr as Hr'. rewrite Er in Hr'. apply digits_app in Hr' as [Hr0 [Ha2 [Ha1 _]%digits_cons]%digits_cons].
  set (Y := dval y) in *. assert (length y = (length y0 + 2)%nat) as Ely by (rewrite Ey, length_app; done). assert (length r = (length r0 + 2)%nat) as Elr by (rewrite Er, length_app; done).
  assert ((DB * b1 + b2) * pw y0 <= Y < (DB * b1 + b2 + 1) * pw y0) as HY by (unfold Y; rewrite Ey; by apply two_bounds).
  pose proof (pw_pos y0) as HE. assert (0 < Y) as HYpos by (unfold digit in *; nia).
  unfold div_step. destruct (two_highest r0 a2 a1) as [L1 L2]. rewrite <- Er in L1, L2. rewrite L1, L2. cbn [mbind option_bind].
  destruct (div_q0_ok a1 a2 b1 b2 (pw y0) Y) as (q0 & ext' & -> & Hq0 & -> & Hq01 & HN & HX'); [done..|lia|done|]. fold ext in HN, HX' |- *. cbn [mbind option_bind].
  (* the window *)
  set (nsz := if ext then S (length y) else length y).
  assert (nsz <= length r)%nat as Hnsz.
  { unfold nsz. destruct ext eqn:Eext; [|done]. destruct (decide (length r = length y)) as [El|]; [|lia]. exfalso. specialize (Hval El). rewrite Er in Hval.
    pose proof (two_bounds r0 a2 a1 Hr0) as Hb. rewrite (pw_len r0 y0) in Hb by lia. unfold ext in Eext. apply negb_true_iff, orb_false_iff in Eext as [E1 E2]. unfold digit in *. nia. }
  replace (length r <? nsz)%nat with false by (symmetry; apply Nat.ltb_ge; lia).
  set (low := take (length r - nsz) r). set (win := drop (length r - nsz) r).
  assert (r = low ++ win) as Elw by (symmetry; apply take_drop). assert (length low = (length r - nsz)%nat) as Ell by (unfold low; rewrite length_take; lia).
  assert (length win = nsz) as Elwn by (unfold win; rewrite length_drop; lia). assert (digits low /\ digits win) as [Hlow Hwin] by (apply digits_app; by rewrite <- Elw).
  assert (win = drop (length r - nsz) r0 ++ [a2; a1]) as Ewin. { unfold win. rewrite Er at 2. rewrite skipn_app. replace (length r - nsz - length r0)%nat with 0%nat by (unfold nsz; destruct ext; lia). done. }
  set (w0 := drop (length r - nsz) r0) in *. assert (length w0 = (nsz - 2)%nat) as Elw0 by (unfold w0; rewrite length_drop; unfold nsz; destruct ext; lia).
  assert (digits w0) as Hw0 by (rewrite Ewin in Hwin; by apply digits_app in Hwin as [? _]).
  pose proof (two_bounds w0 a2 a1 Hw0) as HW. rewrite <- Ewin in HW. set (W := dval win) in *.
  assert (pw w0 = if ext then DB * pw y0 else pw y0) as Epw0. { rewrite !pw_nat, Elw0. unfold nsz. destruct ext; [rewrite <- pow_succ|]; do 2 f_equal; lia. }
  assert (pw win = if ext then DB * pw y else pw y) as Epwin. { rewrite !pw_nat, Elwn. unfold nsz. destruct ext; [by rewrite pow_succ|done]. }
  assert (pw y = DB * (DB * pw y0)) as Epy. { rewrite Ey, pw_app, pw_cons, pw_cons, pw_nil. lia. }
  set (P := pw low) in *. pose proof (pw_pos low) as HP. fold P in HP. pose proof (dval_range low Hlow) as Rlow. fold P in Rlow.
  assert (dval r = dval low + P * W) as ER by (rewrite Elw, dval_app; done). set (R := dval r) in *.
  assert (q0 * Y - W < pw win /\ q0 * Y <= 2 * W /\ (1 <= q0 -> q0 * Y < 2 * W) /\ (ext = true -> W - q0 * Y < pw y /\ q0 * Y - W < pw y) /\
    (ext = false -> W + 1 <= 4 * (q0 * Y) /\ 4 * (q0 * Y) <= 7 * W)) as (F1 & F2 & F2' & F3 & F4).
  { rewrite Epwin, Epy. clearbody ext. destruct ext.
    - rewrite Epw0 in HW. destruct (HX' eq_refl W HW) as (G1 & G2 & G3 & G4). split_and!; try done; try lia.
    - rewrite Epw0 in HW. destruct (HN eq_refl W HW) as (G1 & G2 & G3 & G4). split_and!; try done; try lia. }
  clear HN HX'. destruct (quot_ext ext q Hq Hqok) as (Hqe & Nqe & Eqe & Nqn). set (qe := if ext then 0 :: q else q) in *.
  destruct (D_mulsub_ok win q0 y Hwin Hq0 Hy) as (w' & neg & k & -> & Hw' & Elw' & Hk & Ew' & Hneg); [rewrite Elwn; unfold nsz; destruct ext; auto|].
  cbn [mbind option_bind]. fold W Y in Ew'. pose proof (dval_range w' Hw') as Rw'. rewrite (pw_len w' win Elw') in Rw'.
  assert (k <= 1) as Hk1 by nia.
  assert (dval (low ++ w') = R - P * (q0 * Y) + P * pw win * k) as Elw1 by (rewrite dval_app, Ew'; fold P; lia).
  assert (pw (low ++ w') = P * pw win) as Epl by (rewrite pw_app, (pw_len w' win Elw'); done).
  set (V := if neg then P * (q0 * Y) - R else R - P * (q0 * Y)).
  assert (P * W <= R < P * W + P) as RR by lia. assert (0 <= q0 * Y) as HqY by (apply Z.mul_nonneg_nonneg; dig).
  assert (neg = true -> W + 1 <= q0 * Y /\ k = 1) as Hnegt. { intros ->. assert (k <> 0) by (intros E; apply Hneg in E; done). assert (k = 1) as -> by lia. split; [|done]. lia. }
  assert (neg = false -> q0 * Y <= W /\ k = 0) as Hnegf. { intros E. pose proof (proj1 Hneg E) as ->. lia. }
  destruct (div_size_ok r low w' neg signed V) as (full & nn & Ediv & Hfull & Elf & Hnle & Ev & Hm).
  { done. } { done. } { apply nonempty. rewrite Elw', Elwn. unfold nsz. destruct ext; lia. } { rewrite Elw', Elwn. lia. }
  { unfold V. destruct neg; [destruct (Hnegt eq_refl) as [_ ->]|destruct (Hnegf eq_refl) as [_ ->]]; lia. }
  { intros E. destruct (Hnegt E) as [Hn ->]. rewrite Elw1. assert (P * (q0 * Y - W) < P * pw win) by (apply Z.mul_lt_mono_pos_l; lia). lia. }
  rewrite Ediv. cbn iota beta. rewrite <- Ell. destruct (lookup_lt_is_Some_2 full (length low)) as [rp0 Erp]; [rewrite Elf, Ell; unfold nsz; destruct ext; lia|]. rewrite Erp. cbn [mbind option_bind].
  unfold final_size in *. rewrite Erp in *. cbn [default from_option id] in *. set (n := if (nn =? 1)%nat && (rp0 =? 0) then 0%nat else nn) in *.
  assert (n <= length y)%nat as Hny.
  { destruct ext eqn:Eext; [|unfold nsz in *; lia]. apply Hm. rewrite <- pw_nat. destruct (F3 eq_refl) as [G1 G2]. unfold V. destruct neg.
    - assert (P * (q0 * Y - W) < P * pw y) by (apply Z.mul_lt_mono_pos_l; lia). lia.
    - assert (P * (W + 1 - q0 * Y) <= P * pw y) by (apply Z.mul_le_mono_nonneg_l; lia). lia. }
  replace (length y <? n)%nat with false by (symmetry; apply Nat.ltb_ge; lia). replace (length r - (nsz - n))%nat with (length low + n)%nat by lia.
  assert (dval qe * P = Q) as EqeP. { assert (pw r = P * pw win) as Epr by (rewrite Elw, pw_app; done). pose proof (pw_pos y) as Hpy. apply (Z.mul_reg_l _ _ (pw y)); [lia|]. rewrite <- EQ, Eqe, Epr, Epwin. destruct ext; ring. }
  assert (signed = true -> q0 <= dval qe) as Hsub.
  { intros ->. cbn [sgn] in EX. apply (Z.mul_le_mono_pos_r _ _ (P * Y)); [nia|]. replace (dval qe * (P * Y)) with (Q * Y) by (rewrite <- EqeP; ring).
    assert (P * (q0 * Y) <= P * (2 * W)) by (apply Z.mul_le_mono_nonneg_l; lia). lia. }
  set (q1 := if signed then D_sub qe q0 else D_add qe q0).
  assert (digits q1 /\ q1 <> [] /\ (quot_ok ext q -> normal q1) /\ dval q1 = dval qe + sgn signed * q0) as (Hq1 & Nq1 & Mq1 & Eq1).
  { unfold q1. destruct signed; cbn [sgn].
    - destruct (D_sub_ok qe q0 Hqe Nqe Hq0 (Hsub eq_refl)) as (? & Hn & ? & _). split; [done|]. split; [apply Hn|]. split; [done|lia].
    - destruct (D_add_ok qe q0 Hqe Nqe Hq0) as (? & ? & Hn & Hlq). split; [done|]. split; [apply nonempty; destruct qe; [done|cbn [length] in *; lia]|]. split; [by intros Hqk; apply Hn, Nqn|lia]. }
  exists (take (length low + n) full), q1, (length y - n)%nat, (Q + sgn signed * (q0 * P)), (xorb signed neg).
  assert (length (take (length low + n) full) = (length low + n)%nat) as Elt by (rewrite length_take; lia).
  rewrite Elt, Ev. split; [done|]. split; [by apply Forall_take|]. split; [done|]. split; [done|]. split; [done|]. split; [lia|].
  split. { rewrite (pw_nat (take _ _)), Elt, Eq1. rewrite <- Z.mul_assoc, <- Z.pow_add_r by lia. replace (Z.of_nat (length y - n) + Z.of_nat (length low + n)) with (Z.of_nat (length y) + Z.of_nat (length low)) by lia.
    rewrite Z.pow_add_r by lia. rewrite <- !pw_nat. fold P. rewrite <- EqeP. ring. }
  assert (X = (Q + sgn signed * (q0 * P)) * Y + sgn (xorb signed neg) * V) as EX'. { rewrite EX. unfold V. destruct signed, neg; cbn [sgn xorb]; ring. }
  split; [done|]. assert (P * (q0 * Y) <= P * (2 * W)) as Hle2 by (apply Z.mul_le_mono_nonneg_l; lia). assert (0 <= P * (q0 * Y)) as H0 by (apply Z.mul_nonneg_nonneg; lia).
  split; [unfold V; destruct neg; lia|]. split.
  { intros Ha. specialize (Hq01 Ha). specialize (F2' Hq01). assert (P * (q0 * Y) < P * (2 * W)) by (apply Z.mul_lt_mono_pos_l; lia).
    assert (0 < P * (q0 * Y)) by (apply Z.mul_pos_pos; [lia|]; apply Z.mul_pos_pos; lia). unfold V. destruct neg; lia. }
  split; [lia|]. intros El. assert (ext = false) as Eext by (destruct ext; [unfold nsz in *; lia|done]). split; [done|]. destruct (F4 Eext) as [G1 G2].
  assert (P * (W + 1) <= P * (4 * (q0 * Y))) by (apply Z.mul_le_mono_nonneg_l; lia). assert (P * (4 * (q0 * Y)) <= P * (7 * W)) by (apply Z.mul_le_mono_nonneg_l; lia).
  unfold V. destruct neg; lia.
Qed.

(** ** The loop *)

Lemma two_digits (r : list Z) : (2 <= length r)%nat -> exists r0 a2 a1, r = r0 ++ [a2; a1].
Proof.
  intros Hl. destruct r as [|a1 r] using rev_ind; [cbn in Hl; lia|]. clear IHr. destruct r as [|a2 r] using rev_ind; [cbn in Hl; lia|].
  exists r, a2, a1. by rewrite <- app_assoc.
Qed.

Lemma quarter_turns : DB * 3 ^ 199 < 4 ^ 199.
Proof. by vm_compute. Qed.

(** What bounds the turns that are left: those before the remainder gets shorter. *)
Definition turns_left (r : list Z) (n fuel : nat) : Prop :=
  dval r * 3 ^ Z.of_nat n < 4 ^ Z.of_nat n * DB ^ (zlen r - 1) /\ (200 * length r + n + 1 <= fuel)%nat.

Lemma turns_start r fuel : digits r -> r <> [] -> (200 * (length r + 1) <= fuel)%nat -> turns_left r 199 fuel.
Proof.
  intros Hr Hne Hf. split; [|lia]. pose proof (dval_range r Hr) as Rr. change (Z.of_nat 199) with 199. pose proof quarter_turns as Hq.
  assert (0 < 3 ^ 199) by (by vm_compute). assert (0 < 4 ^ 199) by (by vm_compute).
  set (a := 3 ^ 199) in *. set (b := 4 ^ 199) in *. clearbody a b.
  destruct r as [|d r]; [done|]. rewrite pw_cons in Rr.
  replace (zlen (d :: r) - 1) with (zlen r) by zlen_lia. fold (pw r). pose proof (pw_pos r).
  assert (dval (d :: r) * a <= DB * pw r * a) by (apply Z.mul_le_mono_nonneg_r; lia). assert (DB * a * pw r < b * pw r) by (apply Z.mul_lt_mono_pos_r; lia). lia.
Qed.

Lemma turns_same r r' n fuel : digits r' -> length r' = length r -> 4 * dval r' <= 3 * dval r -> DB ^ (zlen r - 1) <= dval r ->
  turns_left r n (S fuel) -> exists n', turns_left r' n' fuel.
Proof.
  intros Hr' El Hq Hhigh [Ht Hf]. destruct n as [|n]; [change (Z.of_nat 0) with 0 in Ht; lia|]. exists n. split; [|lia].
  replace (zlen r') with (zlen r) by (unfold zlen; by rewrite El). rewrite Nat2Z.inj_succ, !Z.pow_succ_r in Ht by lia.
  assert (0 < 3 ^ Z.of_nat n) as H3 by (apply Z.pow_pos_nonneg; lia). set (a := 3 ^ Z.of_nat n) in *. set (b := 4 ^ Z.of_nat n * _) in *.
  assert (4 * dval r' * a <= 3 * dval r * a) by (apply Z.mul_le_mono_nonneg_r; lia). lia.
Qed.

(** The quotient [Q] so far, with the digits [q] in front of those to come, and the rest. *)
Record div_inv (X : Z) (y r q : list Z) (Q : Z) (signed : bool) : Prop := {
  di_r : digits r;
  di_q : digits q;
  di_Q : dval q * pw r = pw y * Q;
  di_X : X = Q * dval y + sgn signed * dval r
}.

Lemma quot_pos X y r q Q signed : div_inv X y r q Q signed -> digits y -> 0 < dval y -> dval r < X -> 1 <= Q /\ 1 <= dval q.
Proof.
  intros [Hr Hq EQ EX] Hy Hpos Hlt. pose proof (dval_range r Hr) as Rr. pose proof (pw_pos r). pose proof (pw_pos y).
  assert (1 <= Q) as HQ. { destruct signed; cbn [sgn] in EX; nia. } split; [done|].
  pose proof (dval_range q Hq) as Rq. assert (pw y * 1 <= pw y * Q) by (apply Z.mul_le_mono_nonneg_l; lia). destruct (decide (dval q = 0)) as [E|]; [|lia]. rewrite E in EQ. lia.
Qed.

(** [N] is the case without leading zeros. *)
Lemma idiv_loop_ok (N : Prop) X y y0 b1 b2 : y = y0 ++ [b2; b1] -> digits y -> 1 <= b1 -> forall fuel n r r0 a2 a1 q Q signed,
  r = r0 ++ [a2; a1] -> 0 <= I_comp r y -> let ext := negb ((b1 <? a1) || ((b1 =? a1) && (b2 <=? a2))) in
  (ext = false -> q <> []) -> (N -> quot_ok ext q /\ (dval r < X \/ 1 <= a1)) -> div_inv X y r q Q signed -> dval r <= X -> turns_left r n fuel ->
  exists r' q1 k Q' signed', idiv_loop fuel y b1 b2 r q signed = Some (r', replicate k 0 ++ q1, signed') /\ digits q1 /\ q1 <> [] /\
    div_inv X y r' (replicate k 0 ++ q1) Q' signed' /\ (length y <= length r' + k)%nat /\ I_comp r' y < 0 /\ (N -> normal q1 /\ 1 <= dval q1).
Proof.
  intros Ey Hy Hb1. assert (0 < dval y) as Hypos.
  { pose proof Hy as Hy'. rewrite Ey in Hy'. apply digits_app in Hy' as [Hy0 [Hb2 [Hb1' _]%digits_cons]%digits_cons]. pose proof (two_bounds y0 b2 b1 Hy0). pose proof (pw_pos y0). rewrite <- Ey in *. unfold digit in *. nia. }
  induction fuel as [|fuel IH]; intros n r r0 a2 a1 q Q signed Er Hc ext Hq HN Hinv HX Hturns; [destruct Hturns; lia|].
  pose proof Hinv as [Hr Hdq EQ EX].
  destruct (div_step_ok X y y0 b1 b2 r r0 a1 a2 q Q signed) as (r' & q1 & k & Q' & signed' & Estep & Hr' & Hq1 & Nq1 & Mq1 & Hk & EQ' & EX' & Hle & Hdec & Hlen & Hsame); [done..|].
  cbn [idiv_loop]. rewrite Estep. cbn [mbind option_bind].
  assert (div_inv X y r' (replicate k 0 ++ q1) Q' signed') as Hinv'.
  { split; [done|apply digits_app; split; [apply digits_zeros|done]| |done]. rewrite dval_app, dval_zeros, pw_nat, length_replicate, <- EQ'. ring. }
  assert (N -> dval r' < X) as HR' by (intros HN'; destruct (HN HN') as [_ [|Ha]]; [lia|specialize (Hdec Ha); lia]).
  assert (N -> normal q1 /\ 1 <= dval q1) as HN1.
  { intros HN'. split; [apply Mq1, HN, HN'|]. destruct (quot_pos _ _ _ _ _ _ Hinv' Hy Hypos (HR' HN')) as [_ Hpos]. rewrite dval_app, dval_zeros in Hpos.
    pose proof (dval_range q1 Hq1). destruct (decide (dval q1 = 0)) as [E|]; [rewrite E in Hpos; lia|lia]. }
  destruct (Z.leb_spec 0 (I_comp r' y)) as [Hc'|Hc']; [|exists r', q1, k, Q', signed'; parts].
  destruct (I_comp_ge r' y Hr' Hy Hc') as [Hlen' _]. assert (length y = (length y0 + 2)%nat) as Ely by (rewrite Ey, length_app; done).
  destruct (two_digits r') as (r0' & a2' & a1' & Er'); [lia|].
  assert (exists n', turns_left r' n' fuel) as [n' Hturns'].
  { destruct (decide (length r' = length r)) as [El|]; [|exists 199%nat; apply turns_start; [done|apply nonempty; lia|destruct Hturns; lia]].
    destruct (Hsame El) as [Eext H43]. apply (turns_same r r' n); try done. unfold ext in Eext. apply negb_false_iff, orb_true_iff in Eext.
    assert (1 <= a1) as Ha1 by (destruct Eext as [E|E]; [lia|apply andb_true_iff in E as [E _]; lia]).
    pose proof Hr as Hr2. rewrite Er in Hr2 |- *. apply digits_app in Hr2 as [Hr0 [Ha2 _]%digits_cons]. pose proof (two_bounds r0 a2 a1 Hr0) as Hb. pose proof (pw_pos r0).
    replace (zlen (r0 ++ [a2; a1]) - 1) with (Z.succ (zlen r0)) by zlen_lia. rewrite Z.pow_succ_r by (unfold zlen; lia). fold (pw r0). unfold digit in *. nia. }
  apply (IH n' r' r0' a2' a1' _ Q' signed' Er' Hc'); try done; [intros _; by destruct (replicate k 0), q1| |lia].
  intros HN'. destruct (HN1 HN') as [Nq Hq1pos]. destruct (normal_zeros k q1 Hq1 Nq Hq1pos) as (Hd & Nd & Ed). split; [|left; by apply HR'].
  right. split; [done|]. destruct (quot_pos _ _ _ _ _ _ Hinv' Hy Hypos (HR' HN')) as [_ Hpos]. done.
Qed.

(** ** Quotient and remainder *)

Lemma two_normal l : digits l -> normal l -> (2 <= length l)%nat -> exists l0 a2 a1, l = l0 ++ [a2; a1] /\ 1 <= a1.
Proof.
  intros Hd [_ Hn] Hl. destruct (two_digits l Hl) as (l0 & a2 & a1 & ->). exists l0, a2, a1. split; [done|].
  apply digits_app in Hd as [_ [_ [Ha _]%digits_cons]%digits_cons]. destruct (decide (a1 = 0)) as [->|]; [|dig].
  exfalso. change [a2; 0] with ([a2] ++ [0]) in Hn. rewrite app_assoc, last_snoc in Hn.
  specialize (Hn eq_refl). apply (f_equal length) in Hn. rewrite !length_app in Hn. cbn in Hn. lia.
Qed.

(** Behind the loop the remainder is below the divisor, whichever sign it has. *)
Lemma I_comp_neg r y : digits r -> digits y -> normal y -> (2 <= length y)%nat -> I_comp r y < 0 -> (length r <= length y)%nat /\ dval r < dval y.
Proof.
  intros Hr Hy Ny Hl Hc. unfold I_comp, zlen in Hc. destruct (Z.ltb_spec (Z.of_nat (length r)) (Z.of_nat (length y))) as [Hlt|Hge].
  - split; [lia|]. pose proof (normal_low y Hy Ny ltac:(unfold zlen; lia)) as Hlow. pose proof (dval_range r Hr). rewrite !pw_nat in *.
    assert (DB ^ Z.of_nat (S (length r)) <= DB ^ Z.of_nat (length y)) by (apply Z.pow_le_mono_r; lia). rewrite pow_succ in *. lia.
  - destruct (Z.ltb_spec (Z.of_nat (length y)) (Z.of_nat (length r))) as [|Hge']; [lia|]. split; [lia|].
    rewrite comp_loop_ok in Hc by (done || lia). unfold cmp3 in Hc. destruct (Z.ltb_spec (dval r) (dval y)); [done|]. destruct (_ <? _) in Hc; lia.
Qed.

(** The digits of [q] below its first one, which are dropped at the end, are zeros. *)
Lemma final_quot X y r k q1 Q signed : digits q1 -> q1 <> [] -> div_inv X y r (replicate k 0 ++ q1) Q signed ->
  (length r <= length y <= length r + k)%nat ->
  let q := if (length r <? length y)%nat then drop (length y - length r) (replicate k 0 ++ q1) else replicate (length r - length y) 0 ++ (replicate k 0 ++ q1) in
  digits q /\ q <> [] /\ dval q = Q /\ (normal q1 /\ 1 <= dval q1 -> normal q).
Proof.
  intros Hq1 Nq1 [_ _ EQ _] Hl. cbv zeta.
  assert ((if (length r <? length y)%nat then drop (length y - length r) (replicate k 0 ++ q1) else replicate (length r - length y) 0 ++ (replicate k 0 ++ q1))
    = replicate (k - (length y - length r)) 0 ++ q1) as ->.
  { destruct (Nat.ltb_spec (length r) (length y)); [rewrite drop_app_le by (rewrite length_replicate; lia); by rewrite drop_replicate|].
    replace (length r - length y)%nat with 0%nat by lia. cbn [replicate app]. do 2 f_equal. lia. }
  split; [apply digits_app; split; [apply digits_zeros|done]|]. split; [by destruct (replicate (k - (length y - length r)) 0), q1|]. split; [|by intros [? ?]; apply normal_zeros].
  rewrite dval_app, dval_zeros, !pw_nat, length_replicate in EQ. rewrite dval_app, dval_zeros, pw_nat, length_replicate. set (j := (length y - length r)%nat) in *.
  replace (Z.of_nat (length y)) with (Z.of_nat (length r) + Z.of_nat j) in EQ by lia. replace (Z.of_nat k) with (Z.of_nat (k - j) + Z.of_nat j) in EQ by lia.
  rewrite !Z.pow_add_r in EQ by lia. assert (0 < DB ^ Z.of_nat (length r) * DB ^ Z.of_nat j) by (apply Z.mul_pos_pos; apply Z.pow_pos_nonneg; lia).
  apply (Z.mul_reg_r _ _ (DB ^ Z.of_nat (length r) * DB ^ Z.of_nat j)); [lia|]. lia.
Qed.

(** The dividend may have leading zeros, and then be smaller than the divisor. *)
Lemma I_div_ok x y : digits x -> digits y -> normal y -> (2 <= length y)%nat -> 0 <= I_comp x y ->
  exists q r, I_div x y = Some (q, r) /\ digits q /\ q <> [] /\ digits r /\ normal r /\
    dval x = dval q * dval y + dval r /\ 0 <= dval r < dval y /\ (normal x -> normal q).
Proof.
  intros Hx Hy Ny Hl Hcomp. destruct (I_comp_ge x y Hx Hy Hcomp) as [Hlxy _].
  destruct (two_normal y Hy Ny Hl) as (y0 & b2 & b1 & Ey & Hb1). destruct (two_digits x ltac:(lia)) as (x0 & a2 & a1 & Ex).
  unfold I_div. destruct (two_highest y0 b2 b1) as [L1 L2]. rewrite <- Ey in L1, L2. rewrite L1, L2.
  destruct (two_highest x0 a2 a1) as [L3 L4]. rewrite <- Ex in L3, L4. cbn [mbind option_bind]. rewrite L3, L4. cbn [mbind option_bind].
  set (q := if (b1 <? a1) || ((b1 =? a1) && (b2 <=? a2)) then [0] else []). assert (digits q /\ dval q = 0) as [Hq Eq] by (unfold q; destruct (_ || _); parts).
  destruct (idiv_loop_ok (normal x) (dval x) y y0 b1 b2 Ey Hy Hb1 (200 * (length x + 1)) 199 x x0 a2 a1 q 0 false Ex Hcomp) as (r' & q1 & k & Q' & signed & -> & Hq1 & Nq1 & Hinv & Hk & Hc & Hnorm).
  { unfold q. by destruct (_ || _). }
  { intros Nx. split; [left; unfold q; by destruct (_ || _)|]. right. destruct (two_normal x Hx Nx ltac:(lia)) as (x1 & c2 & c1 & Ex' & Hc1). rewrite Ex in Ex'. by apply app_inj_2 in Ex' as [_ [= _ ->]]. }
  { split; [done|done| |]; [rewrite Eq; lia|cbn; lia]. } { lia. } { apply turns_start; [done|apply nonempty; lia|lia]. }
  cbn [mbind option_bind]. pose proof Hinv as [Hr' _ _ EX]. destruct (I_comp_neg r' y Hr' Hy Ny Hl Hc) as [Hlr Hrlt].
  destruct (final_quot _ y r' k q1 Q' signed Hq1 Nq1 Hinv ltac:(lia)) as (Hqf & Nqf & Eqf & Mqf). match type of Hqf with digits ?q => set (qf := q) in * end. clearbody qf.
  set (rr := match r' with [] => [0] | _ => r' end). assert (digits rr /\ rr <> [] /\ dval rr = dval r' /\ (length rr <= length y)%nat) as (Hrr & Nrr & Err & Hlrr).
  { unfold rr. destruct r'; parts. cbn [length]. lia. }
  destruct (trim_ok rr Hrr Nrr) as (Ht & Nt & Et & Hlt). set (t := trim rr) in *. pose proof (dval_range t Ht) as Rt.
  destruct signed; cbn [andb sgn] in *.
  - case_bool_decide as E0; cbn [negb].
    + exists qf, t. rewrite E0 in Et. cbn [dval] in Et. assert (dval t = 0) as E1 by (rewrite E0; done). split; [done|]. rewrite E1, Eqf. parts. intros Nx. by apply Mqf, Hnorm.
    + destruct (I_sub_ok y t Hy Ht ltac:(lia) (proj1 Nt) ltac:(lia)) as (r & -> & Hr & Nr & Er & _). cbn [mbind option_bind].
      assert (0 < dval t) by (destruct (decide (dval t = 0)) as [E|]; [|lia]; exfalso; apply E0, normal_unique; parts; by apply digits_one, digit_0 || by apply normal_singleton, digit_0).
      pose proof (dval_range x Hx). assert (1 <= Q') as HQ by nia.
      destruct (D_sub_ok qf 1 Hqf Nqf ltac:(dig) ltac:(lia)) as (Hqd & Nqd & Eqd & _).
      eexists _, _. split; [reflexivity|]. rewrite Eqd, Er, Eqf. split; [done|]. split; [apply Nqd|]. parts.
  - exists qf, t. rewrite Eqf. split; [done|]. parts. intros Nx. by apply Mqf, Hnorm.
Qed.
End Laws.
