(* ===== verification/BigBz.v ===== *)
(** * Recursive division of vectors of digits: the functions of Burnikel and Ziegler in
    [erts/emulator/beam/big.c]

    Below [bz_div_2n_1n] everything has fixed sizes: a dividend of [2n] digits, a divisor
    of [n] digits whose highest bit is set.  [I_div_bz] shifts the operands accordingly,
    and [I_div_dispatch] chooses between it and [I_div]. *)
From S2P Require Import Prelude PutGet BigDigit BigNat BigMul BigBits BigDiv.

Section Recursive.
Context {M : DigitMacros}.

(** ** The code *)

Definition BZ_DIV_THRESHOLD : nat := 8.
Definition BZ_DIV_QUOTIENT_THRESHOLD : nat := 64.

(** Vectors of the same size: the digits and the carry or borrow. *)
Fixpoint bz_add_n (a b : list Z) (c : Z) : list Z * Z :=
  match a, b with
  | ai :: a, bi :: b =>
      let s := wrapu 64 (ai + c) in
      let c1 := b2z (s <? c) in
      let s := wrapu 64 (s + bi) in
      let c1 := c1 + b2z (s <? bi) in
      let '(r, c) := bz_add_n a b c1 in (s :: r, c)
  | _, _ => ([], c)
  end.
Fixpoint bz_sub_n (a b : list Z) (borrow : Z) : list Z * Z :=
  match a, b with
  | ai :: a, bi :: b =>
      let yb := wrapu 64 (bi + borrow) in
      let b1 := b2z (yb <? borrow) in
      let res := wrapu 64 (ai - yb) in
      let b1 := b1 + b2z (ai <? res) in
      let '(r, borrow) := bz_sub_n a b b1 in (res :: r, borrow)
  | _, _ => ([], borrow)
  end.
(** The loop is that of [I_comp]. *)
Definition bz_cmp_n (a b : list Z) : Z := comp_loop (reverse a) (reverse b).

(** [for (i = sz; i < n; i++) Q[i] = 0]; more than [n] digits are not copied. *)
Definition pad (n : nat) (l : list Z) : list Z := take n l ++ replicate (n - length l) 0.

(** [Q -= 1] *)
Fixpoint bz_decr (Q : list Z) : list Z :=
  match Q with
  | [] => []
  | d :: Q => if d =? 0 then D_MASK :: bz_decr Q else (d - 1) :: Q
  end.
(** [while (borrow) {...}] *)
Fixpoint bz_correct (fuel : nat) (Q R B : list Z) (borrow : Z) : option (list Z * list Z) :=
  if borrow =? 0 then Some (Q, R)
  else match fuel with
  | O => None
  | S fuel =>
      let Q := bz_decr Q in
      let '(R, carry) := bz_add_n R B 0 in
      bz_correct fuel Q R B (if carry =? 0 then borrow else borrow - 1)
  end.

(** A product by [I_mul_karatsuba], of different vectors. *)
Definition bz_mul (x y : list Z) : option (list Z) := I_mul_karatsuba (S (length x)) false x y.

(** [div] is [bz_div_2n_1n] for [n]. *)
Definition bz_div_3n_2n (div : list Z -> list Z -> option (list Z * list Z)) (n : nat) (A B : list Z) : option (list Z * list Z) :=
  let A1 := drop (2 * n) A in
  let A2 := take n (drop n A) in
  let A3 := take n A in
  let B1 := drop n B in
  let B2 := take n B in
  '(Q, R1, q_overflow) ← (if bz_cmp_n A1 B1 <? 0 then '(Q, R1) ← div (drop n A) B1; Some (Q, R1, 0)
                          else let '(R1, carry) := bz_add_n A2 B1 0 in Some (replicate n D_MASK, R1, carry));
  D ← I_OPERATION bz_mul (trim Q) (trim B2);
  let D := pad (2 * n) D in
  let '(R, borrow) := bz_sub_n (A3 ++ R1) D 0 in
  let borrow := if negb (q_overflow =? 0) && negb (borrow =? 0) then 0 else borrow in
  bz_correct 2 Q R B borrow.

(** Quotient and remainder of [n] digits each; [fuel] bounds the depth. *)
Fixpoint bz_div_2n_1n (fuel n : nat) (A B : list Z) : option (list Z * list Z) :=
  match fuel with
  | O => None
  | S fuel =>
      if (n <? BZ_DIV_THRESHOLD)%nat || Nat.odd n then
        '(q, r) ← I_div A B; Some (pad n q, pad n r)
      else
        let half := (n / 2)%nat in
        '(Qh, R1) ← bz_div_3n_2n (bz_div_2n_1n fuel half) half (drop half A) B;
        '(Ql, R) ← bz_div_3n_2n (bz_div_2n_1n fuel half) half (take half A ++ R1) B;
        Some (Ql ++ Qh, R)
  end.

(** [while (n < yl) n *= 2;] *)
Fixpoint bz_size (fuel n yl : nat) : nat :=
  match fuel with
  | O => n
  | S fuel => if (n <? yl)%nat then bz_size fuel (n * 2) yl else n
  end.
(** [while (d > 1) { d >>= 1; p++; }] *)
Fixpoint top_bit (fuel : nat) (d p : Z) : Z :=
  match fuel with
  | O => p
  | S fuel => if 1 <? d then top_bit fuel (Z.shiftr d 1) (p + 1) else p
  end.

(** The loop over the chunks of [n] digits, from the highest one on: [j] are left, [q] are
    the digits of the quotient so far. *)
Fixpoint bz_chunks (j n : nat) (x_norm y_norm rem q : list Z) : option (list Z * list Z) :=
  match j with
  | O => Some (q, rem)
  | S j =>
      '(Q, rem) ← bz_div_2n_1n (S n) n (take n (drop (j * n) x_norm) ++ rem) y_norm;
      bz_chunks j n x_norm y_norm rem (Q ++ q)
  end.

Definition I_div_bz (x y : list Z) : option (list Z * list Z) :=
  let xl := length x in
  let yl := length y in
  let n := bz_size yl 1 yl in
  top_y ← y !! (yl - 1)%nat;
  let shift := (D_EXP - 1) - top_bit 64 top_y 0 in
  let shift_total := Z.of_nat (n - yl) * D_EXP + shift in
  y_norm ← I_lshift y shift_total false;
  let y_norm := pad n y_norm in
  let shift_overflow := Z.to_nat ((shift_total + D_EXP - 1) / D_EXP) in
  let padded_x := (xl + shift_overflow)%nat in
  let k := ((padded_x + n - 1) / n)%nat in
  x_norm ← I_lshift x shift_total false;
  let x_norm := pad ((k + 1) * n) x_norm in
  '(q, rem) ← bz_chunks k n x_norm y_norm (take n (drop (k * n) x_norm)) [];
  r ← I_lshift rem (- shift_total) false;
  Some (take (xl - yl + 1) (trim q), trim r).

Definition I_div_dispatch (x y : list Z) : option (list Z * list Z) :=
  let xl := length x in
  let yl := length y in
  if (BZ_DIV_THRESHOLD <=? yl)%nat && ((2 * yl <=? xl)%nat || (BZ_DIV_QUOTIENT_THRESHOLD <? xl - yl)%nat)
  then I_div_bz x y
  else I_div x y.

End Recursive.

(** ** Vectors of fixed size *)

Lemma bz_add_n_ok a b c : digits a -> digits b -> length a = length b -> 0 <= c <= 1 ->
  exists r c', bz_add_n a b c = (r, c') /\ digits r /\ length r = length a /\ 0 <= c' <= 1 /\ dval r + pw a * c' = dval a + dval b + c.
Proof.
  intros Ha. revert b c. induction Ha as [|ai a Hai Ha IH]; intros [|bi b] c Hb Hl Hc; cbn [length] in Hl; try lia; cbn [bz_add_n].
  - exists [], c. rewrite pw_nil. cbn [dval]. parts.
  - apply digits_cons in Hb as [Hbi Hb]. destruct (DSUMc_half_ok ai bi c Hai Hbi Hc) as (s & c1 & E & Hs & Hc1 & Ev). unfold DSUMc_half in E. rewrite (Z.add_comm (wrapu 64 (ai + c)) bi). injection E as -> ->.
    destruct (IH b c1 Hb ltac:(lia) Hc1) as (r & c' & -> & Hr & Hlr & Hc' & Er). exists (s :: r), c'. split; [done|]. split; [by constructor|]. cbn [length dval]. rewrite pw_cons. lia.
Qed.
Lemma bz_sub_n_ok a b c : digits a -> digits b -> length a = length b -> 0 <= c <= 1 ->
  exists r c', bz_sub_n a b c = (r, c') /\ digits r /\ length r = length a /\ 0 <= c' <= 1 /\ dval r - pw a * c' = dval a - dval b - c.
Proof.
  intros Ha. revert b c. induction Ha as [|ai a Hai Ha IH]; intros [|bi b] c Hb Hl Hc; cbn [length] in Hl; try lia; cbn [bz_sub_n].
  - exists [], c. rewrite pw_nil. cbn [dval]. parts.
  - apply digits_cons in Hb as [Hbi Hb]. destruct (DSUBb_ok ai bi c Hai Hbi Hc) as (s & c1 & E & Hs & Hc1 & Ev). unfold DSUBb in E. injection E as -> ->.
    destruct (IH b c1 Hb ltac:(lia) Hc1) as (r & c' & -> & Hr & Hlr & Hc' & Er). exists (s :: r), c'. split; [done|]. split; [by constructor|]. cbn [length dval]. rewrite pw_cons. lia.
Qed.
Lemma bz_cmp_n_ok a b : digits a -> digits b -> length a = length b -> (bz_cmp_n a b <? 0) = (dval a <? dval b).
Proof. intros Ha Hb Hl. unfold bz_cmp_n. rewrite comp_loop_ok by done. unfold cmp3. destruct (Z.ltb_spec (dval a) (dval b)); [done|]. by destruct (dval b <? dval a). Qed.

Lemma bz_split_at n l : digits l -> (n <= length l)%nat ->
  digits (take n l) /\ digits (drop n l) /\ length (take n l) = n /\ length (drop n l) = (length l - n)%nat /\ dval l = dval (take n l) + DB ^ Z.of_nat n * dval (drop n l).
Proof.
  intros Hl Hn. assert (l = take n l ++ drop n l) as E by (symmetry; apply take_drop). assert (digits (take n l) /\ digits (drop n l)) as [H1 H2] by (apply digits_app; by rewrite <- E).
  assert (length (take n l) = n) as El by (rewrite length_take; lia). rewrite length_drop. split; [done|]. split; [done|]. split; [done|]. split; [done|]. rewrite E at 1. by rewrite dval_app, pw_nat, El.
Qed.
Lemma pad_ok n l : digits l -> dval l < DB ^ Z.of_nat n -> digits (pad n l) /\ length (pad n l) = n /\ dval (pad n l) = dval l.
Proof.
  intros Hl Hv. unfold pad. destruct (le_gt_dec n (length l)) as [Hle|Hgt].
  - destruct (bz_split_at n l Hl Hle) as (H1 & H2 & H3 & H4 & E). replace (n - length l)%nat with 0%nat by lia. cbn [replicate]. rewrite app_nil_r. split; [done|]. split; [done|].
    pose proof (dval_range _ H1). pose proof (dval_range _ H2). assert (dval (drop n l) < 1); [|assert (dval (drop n l) = 0) as E0 by lia; rewrite E0 in E; lia].
    apply (Z.mul_lt_mono_pos_l (DB ^ Z.of_nat n)); [apply Z.pow_pos_nonneg; lia|]. lia.
  - rewrite take_ge by lia. split; [apply digits_app; split; [done|apply digits_zeros]|]. split; [rewrite length_app, length_replicate; lia|]. by rewrite dval_padded.
Qed.

Lemma bz_decr_ok Q : digits Q -> 1 <= dval Q -> digits (bz_decr Q) /\ length (bz_decr Q) = length Q /\ dval (bz_decr Q) = dval Q - 1.
Proof.
  induction 1 as [|d Q Hd HQ IH]; intros Hv; cbn [bz_decr dval] in *; [lia|]. destruct (Z.eqb_spec d 0) as [->|].
  - pose proof (dval_range Q HQ). destruct IH as (H1 & H2 & H3); [lia|]. cbn [length dval]. rewrite H3. unfold D_MASK. split; [constructor; [dig|done]|]. lia.
  - cbn [length dval]. split; [constructor; [dig|done]|]. lia.
Qed.

(** The correction: [T] is the remainder, negative while there is a borrow. *)
Lemma bz_correct_ok fuel Q R B borrow A T : digits Q -> digits R -> digits B -> length R = length B -> 0 <= borrow <= 1 -> 0 <= A ->
  T = dval R - pw B * borrow -> A = dval Q * dval B + T -> T < dval B -> (borrow = 1 -> T < 0 /\ - Z.of_nat fuel * dval B <= T) ->
  exists Q' R', bz_correct fuel Q R B borrow = Some (Q', R') /\ digits Q' /\ length Q' = length Q /\ digits R' /\ length R' = length B /\
    A = dval Q' * dval B + dval R' /\ dval R' < dval B.
Proof.
  revert Q R borrow T. induction fuel as [|fuel IH]; intros Q R borrow T HQ HR HB Hl Hb HA ET EA HT Hneg; cbn [bz_correct]; (destruct (Z.eqb_spec borrow 0) as [->|Hb0]; [exists Q, R; parts|]).
  - destruct Hneg; lia.
  - assert (borrow = 1) as -> by lia. destruct (Hneg eq_refl) as [Hn Hlow]. assert (1 <= dval Q) as HQ1 by nia. destruct (bz_decr_ok Q HQ HQ1) as (D1 & D2 & D3).
    destruct (bz_add_n_ok R B 0 HR HB Hl ltac:(lia)) as (R1 & c & -> & HR1 & Hl1 & Hc & E). rewrite (pw_len R B Hl) in E. pose proof (dval_range R1 HR1) as RR1. rewrite (pw_len R1 B) in RR1 by lia.
    destruct (IH (bz_decr Q) R1 (if c =? 0 then 1 else 1 - 1) (T + dval B)) as (Q' & R' & -> & H1 & H2 & H3 & H4 & H5 & H6); try done; try lia.
    + destruct (c =? 0); lia.
    + destruct (Z.eqb_spec c 0); [lia|]. assert (c = 1) as -> by lia. lia.
    + destruct (Z.eqb_spec c 0); lia.
    + exists Q', R'. parts.
Qed.

(** ** Two steps of half the size *)

(** The highest bit of the divisor is set. *)
Definition top_set (B : list Z) : Prop := exists B0 t, B = B0 ++ [t] /\ DB <= 2 * t.
Lemma top_set_val B : digits B -> top_set B -> pw B <= 2 * dval B.
Proof.
  intros HB (B0 & t & -> & Ht). apply digits_app in HB as [HB0 _]. pose proof (dval_range B0 HB0). pose proof (pw_pos B0). rewrite pw_app, dval_app, pw_cons, pw_nil. cbn [dval].
  assert (pw B0 * DB <= pw B0 * (2 * t)) by (apply Z.mul_le_mono_nonneg_l; lia). lia.
Qed.
Lemma top_set_drop n B : (n < length B)%nat -> top_set B -> top_set (drop n B).
Proof. intros Hn (B0 & t & -> & Ht). rewrite length_app in Hn. cbn [length] in Hn. exists (drop n B0), t. split; [|done]. by rewrite drop_app_le by lia. Qed.
Lemma top_set_normal B : top_set B -> normal B.
Proof. intros (B0 & t & -> & Ht). split; [by destruct B0|]. rewrite last_snoc. intros [= ->]. lia. Qed.

(** What a division of [2n] digits by [n] promises, and one of [3n] digits by [2n]. *)
Definition divides (a b : nat) (div : list Z -> list Z -> option (list Z * list Z)) : Prop :=
  forall A B, digits A -> digits B -> length A = (a + b)%nat -> length B = b -> top_set B -> dval A < dval B * DB ^ Z.of_nat a ->
  exists Q R, div A B = Some (Q, R) /\ digits Q /\ length Q = a /\ digits R /\ length R = b /\ dval A = dval Q * dval B + dval R /\ dval R < dval B.

Section Laws.
Context {M : DigitMacros} {L : DigitLaws M}.

Lemma bz_product Q B2 : digits Q -> digits B2 -> Q <> [] -> B2 <> [] ->
  exists D, I_OPERATION bz_mul (trim Q) (trim B2) = Some D /\ digits D /\ dval D = dval Q * dval B2.
Proof using L.
  intros HQ HB HQn HBn. destruct (trim_ok Q HQ HQn) as (H1 & H2 & H3 & _), (trim_ok B2 HB HBn) as (H4 & H5 & H6 & _). unfold I_OPERATION, bz_mul.
  destruct (Nat.leb_spec (length (trim B2)) (length (trim Q))).
  - destruct (I_mul_karatsuba_ok (S (length (trim Q))) false (trim Q) (trim B2)) as (D & -> & HD & _ & E & _); [done..|lia|]. exists D. rewrite E, H3, H6. parts.
  - destruct (I_mul_karatsuba_ok (S (length (trim B2))) false (trim B2) (trim Q)) as (D & -> & HD & _ & E & _); [done..|lia|done|lia|]. exists D. rewrite E, H3, H6. parts.
Qed.

(** The estimate of the quotient, from the high halves. *)
Lemma bz_estimate div n A B1 (A1 := drop (2 * n) A) (A2 := take n (drop n A)) : divides n n div -> (0 < n)%nat -> digits A -> length A = (3 * n)%nat ->
  digits B1 -> length B1 = n -> top_set B1 -> dval A1 <= dval B1 ->
  exists Q R1 ov, (if bz_cmp_n A1 B1 <? 0 then '(Q, R1) ← div (drop n A) B1; Some (Q, R1, 0)
                   else let '(R1, carry) := bz_add_n A2 B1 0 in Some (replicate n D_MASK, R1, carry)) = Some (Q, R1, ov) /\
    digits Q /\ length Q = n /\ digits R1 /\ length R1 = n /\ 0 <= ov <= 1 /\
    dval A2 + DB ^ Z.of_nat n * dval A1 = dval Q * dval B1 + dval R1 + DB ^ Z.of_nat n * ov /\
    (ov = 0 /\ dval R1 < dval B1 \/ dval Q = DB ^ Z.of_nat n - 1).
Proof using.
  intros Hdiv Hn HA Hl HB Hlb Htop Hle. destruct (bz_split_at n A HA ltac:(lia)) as (_ & Hm & _ & Lm & _). destruct (bz_split_at n (drop n A) Hm ltac:(lia)) as (H2 & H1 & L2 & L1 & E). rewrite drop_drop in *. replace (n + n)%nat with (2 * n)%nat in * by lia.
  fold A1 in H1, L1, E. fold A2 in H2, L2, E. rewrite bz_cmp_n_ok by (done || lia). assert (0 < DB ^ Z.of_nat n) by (apply Z.pow_pos_nonneg; lia). pose proof (dval_range A2 H2) as R2. rewrite pw_nat, L2 in R2.
  destruct (Z.ltb_spec (dval A1) (dval B1)) as [Hlt|Hge].
  - destruct (Hdiv (drop n A) B1) as (Q & R1 & -> & HQ & LQ & HR & LR & EQ & Hr); [done|done|lia|done|done| |].
    { rewrite E. assert (DB ^ Z.of_nat n * (dval A1 + 1) <= DB ^ Z.of_nat n * dval B1) by (apply Z.mul_le_mono_nonneg_l; lia). lia. }
    cbn [mbind option_bind]. exists Q, R1, 0. split; [done|]. split; [done|]. split; [done|]. split; [done|]. split; [done|]. split; [lia|]. split; [lia|]. left. lia.
  - destruct (bz_add_n_ok A2 B1 0 H2 HB ltac:(lia) ltac:(lia)) as (R1 & ov & -> & HR & LR & Hov & EO). rewrite pw_nat, L2 in EO.
    assert (dval (replicate n D_MASK) = DB ^ Z.of_nat n - 1 /\ digits (replicate n D_MASK)) as [EM HM].
    { clear. induction n as [|n IH]; [split; [done|constructor]|]. cbn [replicate dval]. destruct IH as [-> IH]. rewrite pow_succ. unfold D_MASK at 1. split; [lia|]. constructor; [unfold digit, D_MASK; lia|done]. }
    exists (replicate n D_MASK), R1, ov. split; [done|]. split; [done|]. split; [apply length_replicate|]. split; [done|]. split; [lia|]. split; [done|]. split; [|by right].
    rewrite EM. assert (dval A1 = dval B1) as -> by lia. lia.
Qed.

Lemma bz_div_3n_2n_ok div n : (0 < n)%nat -> divides n n div -> divides n (2 * n) (bz_div_3n_2n div n).
Proof using L.
  intros Hn Hdiv A B HA HB LA LB Htop Hlt. unfold bz_div_3n_2n. set (P := DB ^ Z.of_nat n) in *. assert (0 < P) as HP by (apply Z.pow_pos_nonneg; lia).
  destruct (bz_split_at n A HA ltac:(lia)) as (H3 & Hm & L3 & Lm & EA). destruct (bz_split_at n (drop n A) Hm ltac:(lia)) as (H2 & H1 & L2 & L1 & Em). rewrite drop_drop in *. replace (n + n)%nat with (2 * n)%nat in * by lia.
  destruct (bz_split_at n B HB ltac:(lia)) as (HB2 & HB1 & LB2 & LB1 & EB). fold P in EA, Em, EB. pose proof (top_set_drop n B ltac:(lia) Htop) as Htop1. pose proof (top_set_val B HB Htop) as HBhalf.
  assert (pw B = P * P) as EpB by (rewrite pw_nat, LB; unfold P; rewrite <- Z.pow_add_r by lia; f_equal; lia). rewrite EpB in HBhalf.
  pose proof (dval_range _ H3) as R3. pose proof (dval_range _ H2) as R2. pose proof (dval_range _ H1) as R1'. pose proof (dval_range _ HB2) as RB2. pose proof (dval_range _ HB1) as RB1. rewrite pw_nat in R3, R2, R1', RB2, RB1. rewrite L3 in R3. rewrite L2 in R2. rewrite LB2 in RB2. rewrite LB1 in RB1. fold P in R3, R2, RB2.
  assert (dval (drop (2 * n) A) <= dval (drop n B)) as Hle.
  { destruct (Z.le_gt_cases (dval (drop (2 * n) A)) (dval (drop n B))) as [|Hgt]; [done|]. exfalso. rewrite EA, Em, EB in Hlt. nia. }
  destruct (bz_estimate div n A (drop n B)) as (Q & R1 & ov & -> & HQ & LQ & HR1 & LR1 & Hov & EQ & Hcase); [done|done|done|lia|done|lia|done|done|]. fold P in EQ, Hcase. cbn [mbind option_bind].
  destruct (bz_product Q (take n B) HQ HB2) as (D & -> & HD & ED); [apply nonempty; lia|apply nonempty; lia|]. cbn [mbind option_bind].
  pose proof (dval_range Q HQ) as RQ. rewrite pw_nat, LQ in RQ. fold P in RQ. assert (0 <= dval Q * dval (take n B) <= (P - 1) * (P - 1)) as RD by (split; [apply Z.mul_nonneg_nonneg; lia|apply Z.mul_le_mono_nonneg; lia]).
  assert (DB ^ Z.of_nat (2 * n) = P * P) as E2n by (unfold P; rewrite <- Z.pow_add_r by lia; f_equal; lia).
  destruct (pad_ok (2 * n) D HD) as (HD' & LD' & ED'); [rewrite E2n, ED; nia|]. assert (digits (take n A ++ R1)) as Hx by (apply digits_app; done).
  destruct (bz_sub_n_ok (take n A ++ R1) (pad (2 * n) D) 0 Hx HD') as (R & borrow & -> & HR & LR & Hb & ER); [rewrite length_app; lia|lia|]. rewrite length_app in LR.
  rewrite ED', ED, dval_app, pw_app, !pw_nat, L3, LR1 in ER. fold P in ER. pose proof (dval_range R HR) as RR. rewrite pw_nat, LR, L3, LR1, Nat2Z.inj_add, Z.pow_add_r in RR by lia. fold P in RR.
  set (borrow' := if negb (ov =? 0) && negb (borrow =? 0) then 0 else borrow). set (T := dval A - dval Q * dval B).
  assert (T = dval R - P * P * borrow + P * P * ov) as ET. { unfold T. rewrite EA, Em, EB. assert (P * (dval (take n (drop n A)) + P * dval (drop (2 * n) A)) = P * (dval Q * dval (drop n B)) + P * dval R1 + P * P * ov) as -> by (rewrite EQ; ring). lia. }
  assert (T < dval B) as HT.
  { destruct Hcase as [[-> Hr]|Eq]; [|unfold T; rewrite Eq; lia]. assert (P * dval R1 <= P * (dval (drop n B) - 1)) by (apply Z.mul_le_mono_nonneg_l; lia). lia. }
  assert (dval B < P * P) as HBP by (pose proof (dval_range B HB); lia).
  assert (0 <= borrow' <= 1 /\ T = dval R - P * P * borrow') as [Hb' ET']. { unfold borrow'. assert (ov = 0 \/ ov = 1) as [-> | ->] by lia; assert (borrow = 0 \/ borrow = 1) as [-> | ->] by lia; cbn [Z.eqb negb andb]; lia. }
  destruct (bz_correct_ok 2 Q R B borrow' (dval A) T) as (Q' & R' & -> & F1 & F2 & F3 & F4 & F5 & F6); try done; [lia|apply (dval_range A HA)|by rewrite EpB|unfold T; lia| |].
  { intros E1. rewrite E1 in ET'. split; [lia|]. assert (0 <= P * dval R1) by (apply Z.mul_nonneg_nonneg; [lia|]; apply (dval_range R1 HR1)). assert (0 <= P * P * ov) by (apply Z.mul_nonneg_nonneg; lia). change (Z.of_nat 2) with 2. lia. }
  exists Q', R'. parts.
Qed.

Lemma bz_div_2n_1n_ok fuel n : (2 <= n)%nat -> (n < fuel)%nat -> divides n n (bz_div_2n_1n fuel n).
Proof using L.
  revert n. induction fuel as [|fuel IH]; intros n Hn Hf A B HA HB LA LB Htop Hlt; [lia|]. cbn [bz_div_2n_1n]. destruct (((n <? BZ_DIV_THRESHOLD)%nat || Nat.odd n)) eqn:Eb.
  - destruct (I_div_ok A B HA HB (top_set_normal B Htop) ltac:(lia)) as (q & r & -> & Hq & _ & Hr & Nr & E & Hrr & _).
    { unfold I_comp, zlen. rewrite (proj2 (Z.ltb_ge _ _)) by lia. by rewrite (proj2 (Z.ltb_lt _ _)) by lia. }
    cbn [mbind option_bind]. pose proof (dval_range B HB) as RB. rewrite pw_nat, LB in RB.
    destruct (pad_ok n q Hq) as (H1 & H2 & H3).
    { apply (Z.mul_lt_mono_pos_r (dval B)); [lia|]. lia. }
    destruct (pad_ok n r Hr) as (H4 & H5 & H6); [lia|]. exists (pad n q), (pad n r). rewrite H3, H6. parts.
  - apply orb_false_iff in Eb as [Hth%Nat.ltb_ge Hodd]. unfold BZ_DIV_THRESHOLD in Hth. rewrite <- Nat.negb_even in Hodd. apply negb_false_iff, Nat.even_spec in Hodd as [h ->]. rewrite (Nat.mul_comm 2 h), Nat.div_mul, (Nat.mul_comm h 2) by lia.
    pose proof (bz_div_3n_2n_ok _ h ltac:(lia) (IH h ltac:(lia) ltac:(lia))) as Hdiv. set (H := DB ^ Z.of_nat h) in *. assert (0 < H) as HH by (apply Z.pow_pos_nonneg; lia).
    assert (DB ^ Z.of_nat (2 * h) = H * H) as EP by (unfold H; rewrite <- Z.pow_add_r by lia; f_equal; lia). rewrite EP in Hlt. destruct (bz_split_at h A HA ltac:(lia)) as (H4 & Ht & L4 & Lt & EA). fold H in EA. pose proof (dval_range _ H4) as R4. rewrite pw_nat, L4 in R4. fold H in R4.
    destruct (Hdiv (drop h A) B) as (Qh & R1 & -> & HQh & LQh & HR1 & LR1 & E1 & Hr1); [done|done|lia|done|done| |].
    { fold H. apply (Z.mul_lt_mono_pos_l H); [done|]. lia. }
    cbn [mbind option_bind]. destruct (Hdiv (take h A ++ R1) B) as (Ql & R & -> & HQl & LQl & HR & LR & E2 & Hr2); [by apply digits_app|done|rewrite length_app; lia|done|done| |].
    { rewrite dval_app, pw_nat, L4. fold H. assert (H * (dval R1 + 1) <= H * dval B) by (apply Z.mul_le_mono_nonneg_l; lia). lia. }
    cbn [mbind option_bind]. exists (Ql ++ Qh), R. split; [done|]. split; [by apply digits_app|]. split; [rewrite length_app; lia|]. split; [done|]. split; [done|]. split; [|done].
    rewrite dval_app, pw_nat, L4 in E2. rewrite dval_app, pw_nat, LQl. fold H in E2 |- *. rewrite EA, E1. lia.
Qed.

(** ** The chunks of the dividend *)

Lemma bz_chunks_ok j n x y rem q : (2 <= n)%nat -> digits x -> (j * n <= length x)%nat -> digits y -> length y = n -> top_set y -> digits rem -> length rem = n -> dval rem < dval y ->
  exists Q rem', bz_chunks j n x y rem q = Some (Q ++ q, rem') /\ digits Q /\ length Q = (j * n)%nat /\ digits rem' /\ length rem' = n /\ dval rem' < dval y /\
    dval (take (j * n) x) + DB ^ Z.of_nat (j * n) * dval rem = dval Q * dval y + dval rem'.
Proof using L.
  intros Hn Hx Hl Hy Ly Htop. revert rem q Hl. induction j as [|j IH]; intros rem q Hl Hr Lr Hlt; cbn [bz_chunks].
  - exists [], rem. rewrite Nat.mul_0_l, take_0. cbn [dval app length]. change (Z.of_nat 0) with 0. parts.
  - set (c := take n (drop (j * n) x)). cbn [Nat.mul] in Hl. destruct (bz_split_at (j * n) x Hx ltac:(lia)) as (Hlo & Hhi & Llo & Lhi & _). destruct (bz_split_at n (drop (j * n) x) Hhi ltac:(lia)) as (Hc & _ & Lc & _ & _). fold c in Hc, Lc.
    destruct (bz_div_2n_1n_ok (S n) n Hn ltac:(lia) (c ++ rem) y) as (Q & rem1 & -> & HQ & LQ & Hr1 & Lr1 & E1 & Hlt1); [by apply digits_app|done|rewrite length_app; lia|done|done| |].
    { rewrite dval_app, pw_nat, Lc. pose proof (dval_range c Hc) as Rc. rewrite pw_nat, Lc in Rc. assert (DB ^ Z.of_nat n * (dval rem + 1) <= DB ^ Z.of_nat n * dval y) by (apply Z.mul_le_mono_nonneg_l; lia). lia. }
    cbn [mbind option_bind]. destruct (IH rem1 (Q ++ q)) as (Qs & rem' & -> & HQs & LQs & Hr' & Lr' & Hlt' & E); [lia|done|done|done|].
    exists (Qs ++ Q), rem'. rewrite <- app_assoc. split; [done|]. split; [by apply digits_app|]. split; [rewrite length_app; lia|]. split; [done|]. split; [done|]. split; [done|].
    replace (S j * n)%nat with (j * n + n)%nat by lia. assert (take (j * n + n) x = take (j * n) x ++ c) as ->.
    { unfold c. rewrite <- (take_drop (j * n) x) at 1. rewrite firstn_app, take_ge by lia. rewrite Llo. do 2 f_equal. lia. }
    rewrite dval_app, pw_nat, Lc in E1. rewrite !dval_app, !pw_nat, LQs, Llo. rewrite Nat2Z.inj_add, Z.pow_add_r by lia. set (J := DB ^ Z.of_nat (j * n)) in *.
    assert (J * (dval c + DB ^ Z.of_nat n * dval rem) = J * (dval Q * dval y + dval rem1)) by (rewrite E1; done). lia.
Qed.

(** ** Shifts and sizes *)

Lemma bz_size_ok fuel n yl : (0 < n)%nat -> (0 < yl)%nat -> (yl <= n * 2 ^ fuel)%nat -> (n < 2 * yl)%nat -> (yl <= bz_size fuel n yl < 2 * yl)%nat.
Proof using.
  revert n. induction fuel as [|fuel IH]; intros n Hn Hy Hle Hlt; cbn [bz_size]; [cbn in Hle; lia|].
  destruct (Nat.ltb_spec n yl); [|lia]. apply IH; [lia|lia| |lia]. rewrite Nat.pow_succ_r' in Hle. lia.
Qed.
Lemma top_bit_ok fuel d p : 1 <= d < 2 ^ Z.of_nat (S fuel) -> top_bit fuel d p = p + Z.log2 d.
Proof using.
  revert d p. induction fuel as [|fuel IH]; intros d p Hd; cbn [top_bit].
  - change (2 ^ Z.of_nat 1) with 2 in Hd. replace d with 1 by lia. change (Z.log2 1) with 0. lia.
  - destruct (Z.ltb_spec 1 d); [|replace d with 1 by lia; change (Z.log2 1) with 0; lia]. rewrite Nat2Z.inj_succ, Z.pow_succ_r in Hd by lia.
    rewrite IH.
    + rewrite Z.log2_shiftr by lia. assert (1 <= Z.log2 d) by (apply (Z.log2_le_mono 2); lia). lia.
    + rewrite Z.shiftr_div_pow2 by lia. change (2 ^ 1) with 2. split; [apply Z.div_le_lower_bound; lia|apply Z.div_lt_upper_bound; lia].
Qed.
Lemma top_set_intro B : digits B -> B <> [] -> pw B <= 2 * dval B -> top_set B.
Proof using.
  intros HB Hne Hv. destruct B as [|t B0] using rev_ind; [done|]. clear IHB0. exists B0, t. split; [done|]. apply digits_app in HB as [HB0 _]. pose proof (dval_range B0 HB0). pose proof (pw_pos B0).
  rewrite pw_app, dval_app, pw_cons, pw_nil in Hv. cbn [dval] in Hv. assert (DB < 2 * t + 2); [|lia]. apply (Z.mul_lt_mono_pos_l (pw B0)); lia.
Qed.

(** The shift that puts the highest bit of the divisor at the top of [n] digits. *)
Lemma bz_shift y n : digits y -> normal y -> 0 < dval y -> (length y <= n)%nat ->
  exists top, y !! (length y - 1)%nat = Some top /\
    let s := Z.of_nat (n - length y) * 64 + (63 - top_bit 64 top 0) in
    0 <= s < 64 * (Z.of_nat (n - length y) + 1) /\ DB ^ Z.of_nat n <= 2 * (dval y * 2 ^ s) < 2 * DB ^ Z.of_nat n.
Proof using.
  intros Hy Ny Hpos Hn. destruct y as [|top y0] using rev_ind; [by destruct Ny|]. clear IHy0. exists top. rewrite !length_app. cbn [length]. replace (length y0 + 1 - 1)%nat with (length y0) by lia.
  rewrite lookup_app_r, Nat.sub_diag by lia. split; [done|]. apply digits_app in Hy as [Hy0 [Ht _]%digits_cons]. pose proof (dval_range y0 Hy0) as R0. pose proof (pw_pos y0).
  assert (1 <= top) as Ht1. { destruct (decide (top = 0)) as [->|]; [|dig]. exfalso. destruct Ny as [_ Ny]. rewrite last_snoc in Ny. specialize (Ny eq_refl). destruct y0; [|by destruct y0]. cbn in Hpos. lia. }
  rewrite top_bit_ok by (unfold digit in Ht; change (2 ^ Z.of_nat 65) with (2 * DB); lia). cbv zeta. rewrite Z.add_0_l. pose proof (Z.log2_spec top ltac:(lia)) as Hlog. pose proof (Z.log2_nonneg top). set (p := Z.log2 top) in *.
  assert (p <= 63) as Hp by (assert (p < 64); [apply Z.log2_lt_pow2; [lia|]; change (2 ^ 64) with DB; dig|lia]).
  rewrite length_app in Hn. cbn [length] in Hn. split; [lia|]. rewrite dval_app. cbn [dval]. set (m := (n - (length y0 + 1))%nat). replace (n) with (length y0 + 1 + m)%nat by (unfold m; lia).
  rewrite !Nat2Z.inj_add, !Z.pow_add_r by lia. change (DB ^ Z.of_nat 1) with DB. rewrite <- (pw_nat y0). rewrite (Z.mul_comm (Z.of_nat m) 64), (Z.pow_mul_r 2 64) by lia. change (2 ^ 64) with DB. set (E := DB ^ Z.of_nat m). assert (0 < E) by (apply Z.pow_pos_nonneg; lia).
  rewrite Z.pow_succ_r in Hlog by lia. assert (2 ^ p * 2 ^ (63 - p) = 2 ^ 63) as Epp by (rewrite <- Z.pow_add_r by lia; f_equal; lia). assert (2 * 2 ^ 63 = DB) as EDB by done. set (a := 2 ^ p) in *. set (b := 2 ^ (63 - p)) in *. assert (0 < b) by (apply Z.pow_pos_nonneg; lia). set (V := dval y0 + pw y0 * (top + DB * 0)).
  assert (pw y0 * a <= V) by (unfold V; assert (pw y0 * a <= pw y0 * top) by (apply Z.mul_le_mono_nonneg_l; lia); lia). assert (V < pw y0 * (2 * a)) by (unfold V; assert (pw y0 * (top + 1) <= pw y0 * (2 * a)) by (apply Z.mul_le_mono_nonneg_l; lia); lia).
  assert (pw y0 * a * b <= V * b) by (apply Z.mul_le_mono_nonneg_r; lia). assert (V * b < pw y0 * (2 * a) * b) by (apply Z.mul_lt_mono_pos_r; lia).
  assert (2 * (pw y0 * a * b) = pw y0 * DB) as E1 by (rewrite <- EDB, <- Epp; ring). assert (pw y0 * (2 * a) * b = pw y0 * DB) as E2 by (rewrite <- EDB, <- Epp; ring).
  replace (V * (E * b)) with (V * b * E) by ring. split.
  - assert (pw y0 * DB * E <= 2 * (V * b) * E) by (apply Z.mul_le_mono_nonneg_r; lia). lia.
  - assert (V * b * E < pw y0 * DB * E) by (apply Z.mul_lt_mono_pos_r; lia). lia.
Qed.

(** ** The whole division *)

Lemma shift_positive x s : digits x -> x <> [] -> 0 <= s < 2 ^ 63 -> exists r, I_lshift x s false = Some r /\ digits r /\ dval r = dval x * 2 ^ s.
Proof using.
  intros Hx Hne Hs. destruct (I_lshift_ok x s false Hx Hne) as (r & E & Hr & _ & Ev & _); [done|lia|]. exists r. cbn [sval] in Ev. rewrite Z.shiftl_mul_pow2 in Ev by lia. done.
Qed.

(** A quotient of shifted numbers is that of the numbers, and the remainder is shifted. *)
Lemma shifted_div X Y S Q R : 0 < S -> X * S = Q * (Y * S) + R -> 0 <= R < Y * S -> X = Q * Y + R / S /\ 0 <= R / S < Y.
Proof using.
  intros HS E HR. assert (R = (X - Q * Y) * S) as ER by lia. rewrite ER, Z.div_mul by lia. rewrite ER in HR. split; [lia|]. split.
  - apply (Z.mul_le_mono_pos_r _ _ S); lia.
  - apply (Z.mul_lt_mono_pos_r S); lia.
Qed.

(** The digits of the shifted dividend fit into [k] chunks, the slot above is 0. *)
Lemma bz_dividend x s n (k := ((length x + Z.to_nat ((s + 64 - 1) / 64) + n - 1) / n)%nat) : digits x -> (0 < n)%nat -> 0 <= s -> dval x * 2 ^ s < DB ^ Z.of_nat (k * n).
Proof using.
  intros Hx Hn Hs. pose proof (dval_range x Hx) as Rx. rewrite pw_nat in Rx. set (o := Z.to_nat ((s + 64 - 1) / 64)) in *.
  assert (length x + o <= k * n)%nat as Hk. { unfold k. set (a := (length x + o)%nat). pose proof (Nat.div_mod (a + n - 1) n ltac:(lia)). pose proof (Nat.mod_upper_bound (a + n - 1) n ltac:(lia)). lia. }
  assert (s <= 64 * Z.of_nat o) as Ho. { unfold o. assert (0 <= (s + 64 - 1) / 64) by (apply Z.div_pos; lia). rewrite Z2Nat.id by lia. pose proof (Z.div_mod (s + 64 - 1) 64 ltac:(lia)). pose proof (Z.mod_pos_bound (s + 64 - 1) 64 ltac:(lia)). lia. }
  assert (2 ^ s <= DB ^ Z.of_nat o) as H2 by (change DB with (2 ^ 64); rewrite <- Z.pow_mul_r by lia; apply Z.pow_le_mono_r; lia). assert (0 < 2 ^ s) by (apply Z.pow_pos_nonneg; lia).
  assert (DB ^ Z.of_nat (length x) * DB ^ Z.of_nat o <= DB ^ Z.of_nat (k * n)) by (rewrite <- Z.pow_add_r by lia; apply Z.pow_le_mono_r; lia).
  assert (dval x * 2 ^ s < DB ^ Z.of_nat (length x) * 2 ^ s) by (apply Z.mul_lt_mono_pos_r; lia).
  assert (DB ^ Z.of_nat (length x) * 2 ^ s <= DB ^ Z.of_nat (length x) * DB ^ Z.of_nat o) by (apply Z.mul_le_mono_nonneg_l; lia). lia.
Qed.

Lemma quotient_size x y Q : digits x -> digits y -> normal y -> 0 < dval y -> (length y <= length x)%nat -> Q * dval y <= dval x -> Q < DB ^ Z.of_nat (length x - length y + 1).
Proof using.
  intros Hx Hy Ny Hpos Hl Hle. pose proof (normal_pos y Hy Ny Hpos) as Hn. pose proof (dval_range x Hx) as Rx. rewrite pw_nat in Hn, Rx.
  destruct (Z.lt_ge_cases Q (DB ^ Z.of_nat (length x - length y + 1))) as [|Hge]; [done|]. exfalso.
  assert (DB * DB ^ Z.of_nat (length x) = DB ^ Z.of_nat (length x - length y + 1) * DB ^ Z.of_nat (length y)) as E by (rewrite <- pow_succ, <- Z.pow_add_r by lia; f_equal; lia).
  assert (DB ^ Z.of_nat (length x - length y + 1) * DB ^ Z.of_nat (length y) <= Q * DB ^ Z.of_nat (length y)) by (apply Z.mul_le_mono_nonneg_r; [apply Z.pow_nonneg|]; lia).
  assert (0 <= DB ^ Z.of_nat (length x - length y + 1)) by (apply Z.pow_nonneg; lia). assert (Q * DB ^ Z.of_nat (length y) <= Q * (DB * dval y)) by (apply Z.mul_le_mono_nonneg_l; lia). lia.
Qed.

Lemma I_div_bz_ok x y : digits x -> digits y -> normal x -> normal y -> (2 <= length y <= length x)%nat -> zlen y < 2 ^ 50 ->
  exists q r, I_div_bz x y = Some (q, r) /\ digits q /\ normal q /\ digits r /\ normal r /\ dval x = dval q * dval y + dval r /\ 0 <= dval r < dval y.
Proof using L.
  intros Hx Hy Nx Ny Hl Hsz. change (2 ^ 50) with 1125899906842624 in Hsz. unfold zlen in Hsz. unfold I_div_bz. pose proof (bz_size_ok (length y) 1 (length y) ltac:(lia) ltac:(lia)) as Hn.
  specialize (Hn ltac:(pose proof (Nat.pow_gt_lin_r 2 (length y) ltac:(lia)); lia) ltac:(lia)). set (n := bz_size (length y) 1 (length y)) in *. clearbody n.
  assert (0 < dval y) as Hypos. { pose proof (normal_low y Hy Ny ltac:(unfold zlen; lia)). pose proof (pw_pos y). lia. }
  destruct (bz_shift y n Hy Ny Hypos ltac:(lia)) as (top & -> & Hs & Htop). cbn [mbind option_bind]. change (D_EXP - 1) with 63. change D_EXP with 64. set (s := Z.of_nat (n - length y) * 64 + (63 - top_bit 64 top 0)) in *. clearbody s.
  assert (0 < 2 ^ s) as H2s by (apply Z.pow_pos_nonneg; lia). assert (s < 2 ^ 63) as Hs63 by (change (2 ^ 63) with 9223372036854775808; lia).
  destruct (shift_positive y s Hy (proj1 Ny) ltac:(lia)) as (yn & -> & Hyn & Eyn). cbn [mbind option_bind]. destruct (shift_positive x s Hx (proj1 Nx) ltac:(lia)) as (xn & -> & Hxn & Exn). cbn [mbind option_bind].
  set (k := ((length x + Z.to_nat ((s + 64 - 1) / 64) + n - 1) / n)%nat). pose proof (bz_dividend x s n Hx ltac:(lia) ltac:(lia)) as Hk. fold k in Hk. clearbody k.
  destruct (pad_ok n yn Hyn) as (HY & LY & EY); [lia|]. set (Y := pad n yn) in *. destruct (pad_ok ((k + 1) * n) xn Hxn) as (HX & LX & EX); [rewrite Exn; assert (DB ^ Z.of_nat (k * n) <= DB ^ Z.of_nat ((k + 1) * n)) by (apply Z.pow_le_mono_r; lia); lia|]. set (X := pad ((k + 1) * n) xn) in *.
  assert (top_set Y) as HtopY by (apply top_set_intro; [done|apply nonempty; lia|rewrite pw_nat, LY; lia]). destruct (bz_split_at (k * n) X HX ltac:(lia)) as (Hlo & Hhi & Llo & Lhi & E). rewrite (take_ge (drop (k * n) X)) by lia.
  assert (dval (drop (k * n) X) = 0) as Ezero. { pose proof (dval_range _ Hlo). pose proof (dval_range _ Hhi). assert (dval (drop (k * n) X) < 1); [|lia]. apply (Z.mul_lt_mono_pos_l (DB ^ Z.of_nat (k * n))); [apply Z.pow_pos_nonneg; lia|]. lia. }
  destruct (bz_chunks_ok k n X Y (drop (k * n) X) []) as (Q & rem & -> & HQ & LQ & Hrem & Lrem & Hlt & EQ); try done; [lia|lia|lia|rewrite Ezero; pose proof (dval_range Y HY); lia|]. rewrite app_nil_r. cbn [mbind option_bind].
  destruct (I_lshift_ok rem (- s) false Hrem) as (r & -> & Hr & Hrne & Er & _); [apply nonempty; lia|done|lia|]. cbn [mbind option_bind sval] in *. rewrite Z.shiftl_div_pow2, Z.opp_involutive in Er by lia.
  rewrite <- E, EX, Exn, EY, Eyn in EQ. rewrite EY, Eyn in Hlt. destruct (shifted_div (dval x) (dval y) (2 ^ s) (dval Q) (dval rem) H2s EQ) as [Ediv Hrr]; [split; [apply (dval_range rem Hrem)|done]|]. rewrite <- Er in Ediv, Hrr.
  assert (Q <> []) as HQne. { apply nonempty. rewrite LQ. destruct k; [|lia]. cbn [Nat.mul] in *. change (DB ^ Z.of_nat 0) with 1 in Hk. pose proof (normal_low x Hx Nx ltac:(unfold zlen; lia)). pose proof (pw_pos x). nia. }
  destruct (trim_ok Q HQ HQne) as (T1 & T2 & T3 & _), (trim_ok r Hr Hrne) as (T4 & T5 & T6 & _). pose proof (quotient_size x y (dval Q) Hx Hy Ny Hypos ltac:(lia) ltac:(lia)) as Hq.
  rewrite take_ge by (apply normal_size; [done|done|lia|lia]). exists (trim Q), (trim r). rewrite T3, T6. parts.
Qed.

(** Both divisions have the same result. *)
Lemma I_div_dispatch_ok x y : digits x -> digits y -> normal x -> normal y -> (2 <= length y)%nat -> dval y <= dval x -> zlen y < 2 ^ 50 ->
  exists q r, I_div_dispatch x y = Some (q, r) /\ digits q /\ normal q /\ digits r /\ normal r /\ dval x = dval q * dval y + dval r /\ 0 <= dval r < dval y.
Proof using L.
  intros Hx Hy Nx Ny Hl Hle Hsz. pose proof (normal_le_length x y Hx Hy Nx Ny Hle) as Hlen. unfold I_div_dispatch. destruct (_ && _).
  - by apply I_div_bz_ok.
  - destruct (I_div_ok x y Hx Hy Ny Hl) as (q & r & -> & Hq & _ & Hr & Nr & E & Hrr & Nq).
    + pose proof (comp_ge x y Hx Hy Nx Ny) as E. apply Z.leb_le. rewrite E. by apply Z.leb_le.
    + exists q, r. parts. by apply Nq.
Qed.

(** C24: recursive division, long division and the choice between them agree: they return
    the same digits of quotient and remainder, those of the Euclidean division. *)
Theorem divisions_agree x y : digits x -> digits y -> normal x -> normal y -> (2 <= length y)%nat -> dval y <= dval x -> zlen y < 2 ^ 50 ->
  exists q r, I_div x y = Some (q, r) /\ I_div_bz x y = Some (q, r) /\ I_div_dispatch x y = Some (q, r) /\
    dval q = dval x / dval y /\ dval r = dval x mod dval y.
Proof using L.
  intros Hx Hy Nx Ny Hl Hle Hsz. pose proof (normal_le_length x y Hx Hy Nx Ny Hle) as Hlen.
  destruct (I_div_ok x y Hx Hy Ny Hl) as (q & r & -> & Hq & _ & Hr & Nr & E & Rr & Nq). { pose proof (comp_ge x y Hx Hy Nx Ny) as E. apply Z.leb_le. rewrite E. by apply Z.leb_le. }
  destruct (I_div_bz_ok x y Hx Hy Nx Ny ltac:(lia) Hsz) as (q1 & r1 & -> & Hq1 & Nq1 & Hr1 & Nr1 & E1 & Rr1), (I_div_dispatch_ok x y Hx Hy Nx Ny Hl Hle Hsz) as (q2 & r2 & -> & Hq2 & Nq2 & Hr2 & Nr2 & E2 & Rr2).
  destruct (Z.div_mod_unique (dval y) (dval q) (dval q1) (dval r) (dval r1)) as [Eq1 Er1]; [lia..|]. destruct (Z.div_mod_unique (dval y) (dval q) (dval q2) (dval r) (dval r2)) as [Eq2 Er2]; [lia..|].
  exists q, r. split; [done|]. split; [do 2 f_equal; apply normal_unique; auto; lia|]. split; [do 2 f_equal; apply normal_unique; auto; lia|]. split; [apply (Z.div_unique_pos _ _ _ (dval r)); lia|apply (Z.mod_unique_pos _ _ (dval q)); lia].
Qed.
End Laws.

Lemma divisions_agree_witness :
  exists q r, I_div [1; 2; 3] [4; 5] = Some (q, r) /\ I_div_bz [1; 2; 3] [4; 5] = Some (q, r) /\ I_div_dispatch [1; 2; 3] [4; 5] = Some (q, r) /\
    dval q = dval [1; 2; 3] / dval [4; 5] /\ dval r = dval [1; 2; 3] mod dval [4; 5].
Proof. apply (divisions_agree [1; 2; 3] [4; 5]); try (repeat constructor; done); cbn; lia. Defined.

