(* ===== verification/BigTerm.v ===== *)
(** * Big integers as terms: the exported functions of [erts/emulator/beam/big.c]

    An integer is a small, of 60 bits, or a bignum: a sign and a vector of digits.  The
    functions take bignums; the arithmetic of the emulator turns small operands into
    bignums with [small_to_big] first.  Results are smalls where they fit. *)
From S2P Require Import Prelude PutGet BigDigit BigNat BigMul BigBits BigDiv BigBz.

(** ** The code *)

(** [NIL] is how [big_norm] signals that an integer is too large. *)
Inductive Eterm : Type :=
| Small (i : Z)
| Bignum (sign : bool) (v : list Z)
| NIL.
#[export] Instance Eterm_eq_dec : EqDecision Eterm.
Proof. solve_decision. Defined.

Definition SMALL_BITS : Z := 60.
Definition MAX_SMALL : Z := Z.shiftl 1 (SMALL_BITS - 1) - 1.
Definition MIN_SMALL : Z := - Z.shiftl 1 (SMALL_BITS - 1).
Definition BIG_ARITY_MAX : Z := Z.shiftl 1 16 - 1.
Definition IS_USMALL (sgn : bool) (x : Z) : bool := if sgn then x <=? MAX_SMALL + 1 else x <=? MAX_SMALL.
(** [make_small(-((Sint)y))] or [make_small(y)] *)
Definition make_usmall (sign : bool) (y : Z) : Eterm := Small (if sign then - wraps 64 y else y).

Definition big_norm (x : list Z) (sign : bool) : Eterm :=
  match x with
  | [y] => if IS_USMALL sign y then make_usmall sign y else Bignum sign x
  | _ => if BIG_ARITY_MAX <? zlen x then NIL else Bignum sign x
  end.

(** [BIG_SIGN] and [BIG_V] of a term; [None] when it is no bignum. *)
Definition big_val (t : Eterm) : option (bool * list Z) := match t with Bignum s v => Some (s, v) | _ => None end.

Definition big_comp (x y : Eterm) : option Z :=
  '(xs, xv) ← big_val x;
  '(ys, yv) ← big_val y;
  Some (if eqb xs ys then let c := I_comp xv yv in if xs then - c else c
        else if xs then -1 else 1).
Definition big_ucomp (x y : Eterm) : option Z :=
  '(_, xv) ← big_val x;
  '(_, yv) ← big_val y;
  Some (I_comp xv yv).

(** *** From and to machine integers *)

Definition uint_to_big (x : Z) : Eterm := Bignum false [x].
Definition small_to_big (x : Z) : Eterm := if 0 <=? x then Bignum false [x] else Bignum true [wrapu 64 (- x)].
Definition erts_make_integer (x : Z) : Eterm := if IS_USMALL false x then Small x else uint_to_big x.
Definition erts_uint64_to_big (x : Z) : Eterm := Bignum false [x].
Definition erts_sint64_to_big (x : Z) : Eterm :=
  if 0 <=? x then Bignum false [x] else Bignum true [wrapu 64 (- wrapu 64 x)].
(** [digits] is the number of digits up to the last one that is not 0. *)
Fixpoint used_digits (array : list Z) (pot_digits digits : nat) : nat :=
  match array with
  | [] => digits
  | val :: array => let pot_digits := S pot_digits in used_digits array pot_digits (if val =? 0 then digits else pot_digits)
  end.
Definition erts_uint64_array_to_big (neg : bool) (array : list Z) : Eterm := Bignum neg (take (used_digits array 0 0) array).

(** What the functions of the emulator leave as the reason of an error. *)
Inductive error_reason : Type := BADARG | BADARITH | SYSTEM_LIMIT.
(** [while (xl-- > 0) { uval |= ((Uint)( *xr++)) << n; n += D_EXP; }] *)
Fixpoint uval_loop (xr : list Z) (uval n : Z) : Z :=
  match xr with [] => uval | d :: xr => uval_loop xr (Z.lor uval (wrapu 64 (Z.shiftl d n))) (n + D_EXP) end.
Definition term_to_Uint (t : Eterm) : Z + error_reason :=
  match t with
  | Small i => if i <? 0 then inr BADARG else inl i
  | Bignum sign xr =>
      if sign then inr BADARG
      else if 64 <? zlen xr * D_EXP then inr SYSTEM_LIMIT
      else inl (uval_loop xr 0 0)
  | NIL => inr BADARG
  end.
Definition term_to_Uint_mask (t : Eterm) : option (Z + error_reason) :=
  match t with
  | Small i => Some (if i <? 0 then inr BADARG else inl i)
  | Bignum false xr => match xr with [] => None | d :: _ => Some (inl d) end
  | _ => Some (inr BADARG)
  end.
Definition term_to_Uint32 (t : Eterm) : Z + error_reason :=
  match t with Small i => if 0 <=? i then inl (wrapu 32 i) else inr BADARG | _ => inr BADARG end.
Definition term_to_Sint (t : Eterm) : option Z :=
  match t with
  | Small i => Some i
  | Bignum sign xr =>
      if 64 <? zlen xr * D_EXP then None
      else
        let uval := uval_loop xr 0 0 in
        if sign then let uval := wrapu 64 (- uval) in if 0 <? wraps 64 uval then None else Some (wraps 64 uval)
        else if wraps 64 uval <? 0 then None else Some (wraps 64 uval)
  | NIL => None
  end.
(** 0 stands for the failure that is not expected. *)
Definition big_to_uint32 (b : Eterm) : Z := match term_to_Uint b with inl u => wrapu 32 u | inr _ => 0 end.
Definition term_equals_2pow32 (x : Eterm) : bool :=
  match term_to_Uint x with
  | inl u => (Z.land u 0xFFFFFFFF =? 0) && (Z.shiftr (Z.shiftr u 16) 16 =? 1)
  | inr _ => false
  end.

(** *** From and to bytes *)

(** [while (d != 0) { ++sz; d >>= 8; }], at most 8 turns. *)
Fixpoint byte_count (fuel : nat) (d sz : Z) : Z :=
  match fuel with
  | O => sz
  | S fuel => if d =? 0 then sz else byte_count fuel (Z.shiftr d 8) (sz + 1)
  end.
Definition big_bytes (x : Eterm) : option Z :=
  '(_, v) ← big_val x;
  d ← list.last v;
  Some (byte_count 8 d ((zlen v - 1) * 8)).

(** [for(i = n; --i >= 0;) d = (d << 8) | xp[i];] over bytes, the highest one first. *)
Fixpoint load_digit (bytes : list Z) (d : Z) : Z :=
  match bytes with [] => d | b :: bytes => load_digit bytes (Z.lor (wrapu 64 (Z.shiftl d 8)) b) end.
(** The digits of all bytes but those behind the last multiple of 8. *)
Fixpoint load_digits (fuel : nat) (xp : list Z) : list Z * list Z :=
  match fuel with
  | O => ([], xp)
  | S fuel =>
      if (8 <? length xp)%nat then
        let d := load_digit (reverse (take 8 xp)) 0 in
        let '(r, rest) := load_digits fuel (drop 8 xp) in (d :: r, rest)
      else ([], xp)
  end.
Definition bytes_to_big (xp : list Z) (xsgn : bool) : Eterm :=
  let '(r, rest) := load_digits (length xp) xp in
  match rest with
  | [] => if BIG_ARITY_MAX <? zlen r then NIL else Bignum xsgn r
  | _ =>
      let d := load_digit (reverse rest) 0 in
      if bool_decide (r = []) && IS_USMALL xsgn d then Small (wraps 64 (if xsgn then - d else d))
      else if BIG_ARITY_MAX <? zlen r + 1 then NIL
      else Bignum xsgn (r ++ [d])
  end.

Fixpoint store_digit (n : nat) (d : Z) : list Z :=
  match n with O => [] | S n => Z.land d 0xff :: store_digit n (Z.shiftr d 8) end.
(** [do { *p++ = d & 0xff; d >>= 8; } while (d != 0);] *)
Fixpoint store_last (fuel : nat) (d : Z) : list Z :=
  match fuel with
  | O => []
  | S fuel => Z.land d 0xff :: let d := Z.shiftr d 8 in if d =? 0 then [] else store_last fuel d
  end.
Fixpoint store_digits (xr : list Z) : option (list Z) :=
  match xr with
  | [] => None
  | [d] => Some (store_last 8 d)
  | d :: xr => p ← store_digits xr; Some (store_digit 8 d ++ p)
  end.
Definition big_to_bytes (x : Eterm) : option (list Z) := '(_, v) ← big_val x; store_digits v.

(** *** Arithmetic *)

Section Arithmetic.
Context {M : DigitMacros}.

Definition B_plus_minus (x : list Z) (xsgn : bool) (y : list Z) (ysgn : bool) : option Eterm :=
  if eqb xsgn ysgn then
    r ← (if (length y <? length x)%nat then I_add x y else I_add y x); Some (big_norm r xsgn)
  else
    let comp := I_comp x y in
    if comp =? 0 then Some (Small 0)
    else if 0 <? comp then r ← I_sub x y; Some (big_norm r xsgn)
    else r ← I_sub y x; Some (big_norm r ysgn).
Definition big_plus (x y : Eterm) : option Eterm :=
  '(xs, xv) ← big_val x; '(ys, yv) ← big_val y; B_plus_minus xv xs yv ys.
Definition big_minus (x y : Eterm) : option Eterm :=
  '(xs, xv) ← big_val x; '(ys, yv) ← big_val y; B_plus_minus xv xs yv (negb ys).

Definition small_times (x y : Z) : Eterm :=
  let sign := negb (eqb (x <? 0) (y <? 0)) in
  let xu := wrapu 64 (if 0 <? x then x else - x) in
  let yu := wrapu 64 (if 0 <? y then y else - y) in
  let '(d0, d1) := DMULc xu yu 0 in
  if (d1 =? 0) && IS_USMALL sign d0 then make_usmall sign d0
  else Bignum sign (if d1 =? 0 then [d0] else [d0; d1]).

(** [same] when the two operands are the same object. *)
Definition mul_digits (same : bool) (x y : list Z) : option (list Z) :=
  match y, x with
  | [d], _ => Some (D_mul x d)
  | _, [d] => Some (D_mul y d)
  | _, _ => I_OPERATION (fun x y => I_mul_karatsuba (S (length x)) same x y) x y
  end.
Definition big_times (same : bool) (x y : Eterm) : option Eterm :=
  '(xs, xv) ← big_val x;
  '(ys, yv) ← big_val y;
  let sign := negb (eqb xs ys) in
  r ← mul_digits same xv yv; Some (big_norm r sign).
Definition big_mul_add (same : bool) (x y z : Eterm) : option Eterm :=
  '(xs, xv) ← big_val x;
  '(ys, yv) ← big_val y;
  '(zs, zv) ← big_val z;
  let sign := negb (eqb xs ys) in
  r ← mul_digits same xv yv; B_plus_minus r sign zv zs.

(** The inner [None] is the return value 0. *)
Definition big_div_rem (lhs rhs : Eterm) : option (option (Eterm * Eterm)) :=
  '(ls, lv) ← big_val lhs;
  '(rs, rv) ← big_val rhs;
  let div_sign := negb (eqb ls rs) in
  let rem_sign := ls in
  '(q, r) ← (match rv with
             | [d] => '(q, r) ← D_div lv d; Some (q, [r])
             | _ => I_div_dispatch lv rv
             end);
  let quotient := big_norm q div_sign in
  if bool_decide (quotient = NIL) then Some None
  else
    let remainder := big_norm r rem_sign in
    if bool_decide (remainder = NIL) then Some None else Some (Some (quotient, remainder)).

Definition big_bitop (I_op : list Z -> bool -> list Z -> bool -> option (list Z)) (sign : bool -> bool -> bool) (x y : Eterm) : option Eterm :=
  '(xs, xv) ← big_val x;
  '(ys, yv) ← big_val y;
  r ← (if (length yv <=? length xv)%nat then I_op xv xs yv ys else I_op yv ys xv xs);
  Some (big_norm r (sign xs ys)).
Definition big_band : Eterm -> Eterm -> option Eterm := big_bitop I_band andb.
Definition big_bor : Eterm -> Eterm -> option Eterm := big_bitop I_bor orb.
Definition big_bxor : Eterm -> Eterm -> option Eterm := big_bitop I_bxor (fun xs ys => negb (eqb xs ys)).
Definition big_bnot (x : Eterm) : option Eterm :=
  '(xs, xv) ← big_val x;
  let sign := negb xs in
  Some (big_norm (I_bnot xv sign) sign).
Definition big_lshift (x : Eterm) (y : Z) : option Eterm :=
  '(xs, xv) ← big_val x;
  r ← I_lshift xv y xs; Some (big_norm r xs).
(** [y] is unsigned. *)
Definition big_plus_small (x : Eterm) (y : Z) : option Eterm :=
  '(xs, xv) ← big_val x;
  Some (big_norm (if xs : bool then D_sub xv y else D_add xv y) xs).

End Arithmetic.

(** ** The term of an integer *)

(** The digits of a number that is not negative, [n] of them at most. *)
Fixpoint num_digits (n : nat) (z : Z) : list Z := match n with O => [] | S n => z mod DB :: num_digits n (z / DB) end.
Definition digits_of (z : Z) : list Z := trim (num_digits (S (Z.to_nat (Z.log2 z / 64))) z).
Definition fits_small (z : Z) : bool := (MIN_SMALL <=? z) && (z <=? MAX_SMALL).
(** What the emulator has for [z]: a small, a bignum, or [NIL] when there is no room. *)
Definition integer_term (z : Z) : Eterm :=
  if fits_small z then Small z
  else let v := digits_of (Z.abs z) in if BIG_ARITY_MAX <? zlen v then NIL else Bignum (z <? 0) v.
(** A bignum that stands for [z]; it may be a small that was turned into one. *)
Definition big_rep (z : Z) (t : Eterm) : Prop :=
  exists sign v, t = Bignum sign v /\ digits v /\ normal v /\ sval sign v = z /\ (sign = true -> 1 <= dval v) /\ zlen v <= BIG_ARITY_MAX.

Lemma num_digits_ok n z : 0 <= z < DB ^ Z.of_nat n -> digits (num_digits n z) /\ length (num_digits n z) = n /\ dval (num_digits n z) = z.
Proof.
  revert z. induction n as [|n IH]; intros z Hz; cbn [num_digits length dval].
  - change (DB ^ Z.of_nat 0) with 1 in Hz. split; [constructor|]. lia.
  - rewrite pow_succ in Hz. destruct (IH (z / DB)) as (H1 & H2 & H3); [split; [apply Z.div_pos|apply Z.div_lt_upper_bound]; lia|]. pose proof (Z.mod_pos_bound z DB ltac:(lia)). pose proof (Z.div_mod z DB ltac:(lia)).
    split; [constructor; [done|done]|]. rewrite H3. lia.
Qed.
Lemma digits_of_ok z : 0 <= z -> digits (digits_of z) /\ normal (digits_of z) /\ dval (digits_of z) = z.
Proof.
  intros Hz. unfold digits_of. set (n := S _). assert (z < DB ^ Z.of_nat n) as Hlt.
  { destruct (decide (z = 0)) as [->|]; [apply Z.pow_pos_nonneg; lia|]. pose proof (Z.log2_spec z ltac:(lia)) as [_ Hl]. pose proof (Z.log2_nonneg z). unfold n. rewrite Nat2Z.inj_succ, Z2Nat.id by (apply Z.div_pos; lia).
    apply (Z.lt_le_trans _ _ _ Hl). change DB with (2 ^ 64). rewrite <- Z.pow_mul_r by (try apply Z.div_pos; lia || (assert (0 <= Z.log2 z / 64) by (apply Z.div_pos; lia); lia)). apply Z.pow_le_mono_r; [lia|]. pose proof (Z.div_mod (Z.log2 z) 64 ltac:(lia)). pose proof (Z.mod_pos_bound (Z.log2 z) 64 ltac:(lia)). lia. }
  destruct (num_digits_ok n z ltac:(lia)) as (H1 & H2 & H3). destruct (trim_ok (num_digits n z) H1) as (T1 & T2 & T3 & _); [apply nonempty; lia|]. rewrite H3 in T3. done.
Qed.
Lemma digits_of_normal v : digits v -> normal v -> digits_of (dval v) = v.
Proof. intros Hv Nv. destruct (digits_of_ok (dval v)) as (H1 & H2 & H3); [apply (dval_range v Hv)|]. by apply normal_unique. Qed.

Lemma max_small : MAX_SMALL = 576460752303423487.
Proof. done. Qed.
Lemma min_small : MIN_SMALL = - 576460752303423488.
Proof. done. Qed.

(** A vector of two digits and more is no small. *)
Lemma large_vector v : digits v -> normal v -> (2 <= length v)%nat -> DB <= dval v.
Proof.
  intros Hv Nv Hl. pose proof (normal_low v Hv Nv ltac:(unfold zlen; lia)) as Hn. rewrite pw_nat in Hn. assert (DB ^ 2 <= DB ^ Z.of_nat (length v)) by (apply Z.pow_le_mono_r; lia). change (DB ^ 2) with (DB * DB) in *. lia.
Qed.

(** [big_norm] makes the term of the integer. *)
Lemma big_norm_ok v sign : digits v -> normal v -> big_norm v sign = integer_term (sval sign v).
Proof.
  intros Hv Nv. pose proof (dval_range v Hv) as Rv. assert (Z.abs (sval sign v) = dval v) as Eabs by (unfold sval; destruct sign; lia).
  assert (forall sg, 1 <= dval v -> (sval sg v <? 0) = sg) as Hsg by (intros sg H1; unfold sval; destruct sg; [apply Z.ltb_lt|apply Z.ltb_ge]; lia).
  assert (fits_small (sval sign v) = false -> 1 <= dval v -> zlen v <= BIG_ARITY_MAX -> integer_term (sval sign v) = Bignum sign v) as Hbig.
  { intros Hu H1 Hl. unfold integer_term. rewrite Hu, Eabs, digits_of_normal, Hsg by done. by rewrite (proj2 (Z.ltb_ge _ _)) by lia. }
  destruct v as [|y [|y2 v]]; [by destruct Nv| |].
  - unfold big_norm. cbn [dval] in Rv. assert (sval sign [y] = if sign then - y else y) as E by (unfold sval; destruct sign; cbn [dval]; lia). destruct (IS_USMALL sign y) eqn:Eu.
    + assert (fits_small (sval sign [y]) = true) as Ef.
      { rewrite E. unfold fits_small, IS_USMALL in *. rewrite max_small, min_small in *. pose proof Hv as [Hy _]%digits_cons. unfold digit in Hy. destruct sign; apply andb_true_iff; split; apply Z.leb_le; apply Z.leb_le in Eu; lia. }
      unfold integer_term. rewrite Ef, E. unfold make_usmall, IS_USMALL in *. rewrite max_small in Eu. pose proof Hv as [Hy _]%digits_cons. unfold digit in Hy.
      destruct sign; [|done]. rewrite wraps_small; [done|lia|]. unfold in_s. change (2 ^ (64 - 1)) with 9223372036854775808. apply Z.leb_le in Eu. lia.
    + symmetry. apply Hbig; [| |by unfold zlen].
      * rewrite E. unfold fits_small, IS_USMALL in *. rewrite max_small, min_small in *. pose proof Hv as [Hy _]%digits_cons. unfold digit in Hy. destruct sign; apply Z.leb_gt in Eu; apply andb_false_iff; [left|right]; apply Z.leb_gt; lia.
      * cbn [dval]. unfold IS_USMALL in Eu. rewrite max_small in Eu. destruct sign; apply Z.leb_gt in Eu; lia.
  - pose proof (large_vector _ Hv Nv ltac:(cbn [length]; lia)) as Hlarge. assert (fits_small (sval sign (y :: y2 :: v)) = false) as Ef.
    { unfold fits_small. rewrite max_small, min_small. unfold sval. destruct sign; apply andb_false_iff; [left|right]; apply Z.leb_gt; lia. }
    unfold big_norm. destruct (Z.ltb_spec BIG_ARITY_MAX (zlen (y :: y2 :: v))) as [Hgt|Hle].
    + unfold integer_term. rewrite Ef, Eabs, digits_of_normal by done. by rewrite (proj2 (Z.ltb_lt _ _)) by lia.
    + symmetry. apply Hbig; [done|lia|lia].
Qed.

(** ** Sums, differences and products *)

Section Laws.
Context {M : DigitMacros} {L : DigitLaws M}.

Lemma B_plus_minus_ok x xsgn y ysgn : digits x -> digits y -> normal x -> normal y ->
  B_plus_minus x xsgn y ysgn = Some (integer_term (sval xsgn x + sval ysgn y)).
Proof using L.
  intros Hx Hy Nx Ny. unfold B_plus_minus. destruct (eqb xsgn ysgn) eqn:Es.
  - apply eqb_prop in Es as <-.
    assert (exists r, (if (length y <? length x)%nat then I_add x y else I_add y x) = Some r /\ digits r /\ normal r /\ dval r = dval x + dval y) as (r & -> & Hr & Nr & E).
    { destruct (Nat.ltb_spec (length y) (length x)).
      - destruct (I_add_ok x y Hx Hy ltac:(lia) (proj1 Ny)) as (r & -> & H1 & H2 & H3 & _). exists r. split; [done|]. split; [done|]. split; [by apply H3|lia].
      - destruct (I_add_ok y x Hy Hx ltac:(lia) (proj1 Nx)) as (r & -> & H1 & H2 & H3 & _). exists r. split; [done|]. split; [done|]. split; [by apply H3|lia]. }
    cbn [mbind option_bind]. rewrite big_norm_ok by done. do 2 f_equal. unfold sval. rewrite E. destruct xsgn; lia.
  - rewrite I_comp_ok by done. assert (ysgn = negb xsgn) as -> by (destruct xsgn, ysgn; done). unfold cmp3. destruct (Z.ltb_spec (dval x) (dval y)); [|destruct (Z.ltb_spec (dval y) (dval x))]; cbn [Z.eqb Z.ltb Z.compare].
    + destruct (sub_normal_ok y x) as (r & -> & Hr & Nr & E & _); [done..|lia|]. cbn [mbind option_bind]. rewrite big_norm_ok by done. do 2 f_equal. unfold sval. rewrite E. destruct xsgn; cbn [negb]; lia.
    + destruct (sub_normal_ok x y) as (r & -> & Hr & Nr & E & _); [done..|lia|]. cbn [mbind option_bind]. rewrite big_norm_ok by done. do 2 f_equal. unfold sval. rewrite E. destruct xsgn; cbn [negb]; lia.
    + replace (sval xsgn x + sval (negb xsgn) y) with 0; [done|]. unfold sval. destruct xsgn; cbn [negb]; lia.
Qed.

Lemma mul_digits_ok same x y : digits x -> digits y -> normal x -> normal y -> (same = true -> x = y) ->
  exists r, mul_digits same x y = Some r /\ digits r /\ normal r /\ dval r = dval x * dval y.
Proof using L.
  intros Hx Hy Nx Ny Hs.
  assert (forall d l, l = [d] -> digits l -> digit d) as Hd by (by intros d l -> [? _]%digits_cons).
  destruct y as [|d [|e y]]; [by destruct Ny| |].
  - exists (D_mul x d). destruct (D_mul_ok x d Hx Nx (Hd d _ eq_refl Hy)) as (H1 & H2 & H3 & _). cbn [mul_digits dval]. rewrite H3. parts.
  - set (yy := d :: e :: y) in *. assert (2 <= length yy)%nat as Hly by (cbn; lia). destruct x as [|c [|c2 x]]; [by destruct Nx| |].
    + exists (D_mul yy c). destruct (D_mul_ok yy c Hy Ny (Hd c _ eq_refl Hx)) as (H1 & H2 & H3 & _). cbn [dval]. rewrite H3. parts.
    + set (xx := c :: c2 :: x) in *. assert (2 <= length xx)%nat as Hlx by (cbn; lia). change (mul_digits same xx yy) with (I_OPERATION (fun x y => I_mul_karatsuba (S (length x)) same x y) xx yy). clearbody xx yy.
      pose proof (large_vector xx Hx Nx Hlx). pose proof (large_vector yy Hy Ny Hly). unfold I_OPERATION. destruct (Nat.leb_spec (length yy) (length xx)).
      * destruct (I_mul_karatsuba_ok (S (length xx)) same xx yy) as (r & -> & K1 & _ & K3 & _ & K5); [done..|lia|]. exists r. parts. apply K5; lia.
      * destruct (I_mul_karatsuba_ok (S (length yy)) same yy xx) as (r & -> & K1 & _ & K3 & _ & K5); [done..|lia|intros E; symmetry; by apply Hs|lia|]. exists r. parts. apply K5; lia.
Qed.
Lemma sval_mul xs ys x y r : dval r = dval x * dval y -> sval (negb (eqb xs ys)) r = sval xs x * sval ys y.
Proof using. intros E. unfold sval. rewrite E. destruct xs, ys; cbn [eqb negb]; lia. Qed.

(** Addition, subtraction, multiplication and the fused multiplication and addition of
    bignums, by whichever of the algorithms the sizes select, give the term of the sum,
    difference, product and sum of product and addend: a small where it fits, a bignum in
    normal form, and [NIL] when and only when the result has too many digits. *)
Lemma big_plus_minus_times x y z a b c same : big_rep a x -> big_rep b y -> big_rep c z -> (same = true -> x = y) ->
  big_plus x y = Some (integer_term (a + b)) /\
  big_minus x y = Some (integer_term (a - b)) /\
  big_times same x y = Some (integer_term (a * b)) /\
  big_mul_add same x y z = Some (integer_term (a * b + c)).
Proof using L.
  intros (xs & xv & -> & Hx & Nx & <- & _ & _) (ys & yv & -> & Hy & Ny & <- & _ & _) (zs & zv & -> & Hz & Nz & <- & _ & _) Hsame.
  destruct (mul_digits_ok same xv yv) as (r & Er & Hr & Nr & Ev); [done..|intros E; specialize (Hsame E); congruence|].
  unfold big_plus, big_minus, big_times, big_mul_add. cbn [big_val mbind option_bind]. rewrite Er. cbn [mbind option_bind]. rewrite !B_plus_minus_ok, big_norm_ok by done.
  rewrite !(sval_mul xs ys xv yv r Ev). split; [done|]. split; [|done]. do 2 f_equal. unfold sval. destruct ys; cbn [negb]; lia.
Qed.

(** ** Quotients *)

Lemma integer_term_small_nil z w : Z.abs z <= Z.abs w -> integer_term w <> NIL -> integer_term z <> NIL.
Proof using.
  unfold integer_term. intros Hle Hw. destruct (fits_small z); [done|]. destruct (Z.ltb_spec BIG_ARITY_MAX (zlen (digits_of (Z.abs z)))) as [Hlt|]; [|done]. exfalso.
  destruct (digits_of_ok (Z.abs z) ltac:(lia)) as (Z1 & Z2 & Z3), (digits_of_ok (Z.abs w) ltac:(lia)) as (W1 & W2 & W3). pose proof (normal_le_length _ _ W1 Z1 W2 Z2 ltac:(lia)) as Hl.
  assert (BIG_ARITY_MAX < zlen (digits_of (Z.abs w))) as Hlw by (unfold zlen in *; lia). rewrite (proj2 (Z.ltb_lt _ _)) in Hw by exact Hlw. destruct (fits_small w) eqn:Ef; [|done].
  assert (zlen (digits_of (Z.abs w)) <= 1); [|change BIG_ARITY_MAX with 65535 in *; lia]. unfold zlen. apply (inj_le _ 1). apply (normal_size _ 1); [done|done| |lia]. rewrite W3. change (DB ^ Z.of_nat 1) with DB.
  unfold fits_small in Ef. rewrite max_small, min_small in Ef. apply andb_true_iff in Ef as [E1%Z.leb_le E2%Z.leb_le]. lia.
Qed.
Lemma big_rep_not_nil z t : big_rep z t -> integer_term z <> NIL.
Proof using.
  intros (s & v & -> & Hv & Nv & <- & _ & Hl). rewrite <- big_norm_ok by done. destruct v as [|y [|y2 v]]; [by destruct Nv|cbn [big_norm]; by destruct (IS_USMALL s y)|].
  unfold big_norm. by rewrite (proj2 (Z.ltb_ge _ _)) by lia.
Qed.

(** The division of bignums, by a digit, by long division or recursively, returns
    quotient and remainder of the division that rounds towards zero, and never reports
    that a result is too large. *)
Lemma big_div_rem_spec x y a b : big_rep a x -> big_rep b y -> b <> 0 -> Z.abs b <= Z.abs a ->
  big_div_rem x y = Some (Some (integer_term (Z.quot a b), integer_term (Z.rem a b))).
Proof using L.
  intros Rx Ry Hb Hab. pose proof (big_rep_not_nil a x Rx) as Hnil. destruct Rx as (xs & xv & -> & Hx & Nx & Ea & Hxs & Lx), Ry as (ys & yv & -> & Hy & Ny & Eb & Hys & Ly).
  assert (Z.abs a = dval xv) as Aa by (rewrite <- Ea; unfold sval; pose proof (dval_range xv Hx); destruct xs; lia). assert (Z.abs b = dval yv) as Ab by (rewrite <- Eb; unfold sval; pose proof (dval_range yv Hy); destruct ys; lia).
  unfold big_div_rem. cbn [big_val mbind option_bind].
  assert (exists q r, (match yv with [d] => '(q, r) ← D_div xv d; Some (q, [r]) | _ => I_div_dispatch xv yv end) = Some (q, r) /\ digits q /\ normal q /\ digits r /\ normal r /\ dval xv = dval q * dval yv + dval r /\ 0 <= dval r < dval yv) as (q & r & -> & Hq & Nq & Hr & Nr & E & Rr).
  { destruct yv as [|d [|d2 yv]]; [by destruct Ny| |].
    - apply digits_cons in Hy as [Hd _]. cbn [dval] in *. destruct (D_div_ok xv d Hx Nx Hd ltac:(lia)) as (q & r & -> & H1 & H2 & H3 & H4 & _). cbn [mbind option_bind]. exists q, [r]. assert (digit r) by dig. cbn [dval]. split; [done|]. split; [done|]. split; [done|]. split; [by apply digits_one|]. split; [by apply normal_singleton|lia].
    - apply I_div_dispatch_ok; try done; [cbn; lia|lia|]. apply (Z.le_lt_trans _ _ _ Ly). by vm_compute. }
  cbn [mbind option_bind]. rewrite !big_norm_ok by done.
  pose proof (dval_range q Hq) as Rq. assert (dval q <= dval xv) as Hqx by nia. assert (dval q = Z.quot (dval xv) (dval yv) /\ dval r = Z.rem (dval xv) (dval yv)) as [E1 E2].
  { split; [apply (Z.quot_unique _ _ _ (dval r))|apply (Z.rem_unique _ _ (dval q))]; lia. }
  assert (sval (negb (eqb xs ys)) q = Z.quot a b /\ sval xs r = Z.rem a b) as [Eq Er].
  { rewrite <- Ea, <- Eb. unfold sval. rewrite E1, E2. destruct xs, ys; cbn [eqb negb]; rewrite ?Z.quot_opp_opp, ?Z.quot_opp_l, ?Z.quot_opp_r, ?Z.rem_opp_opp, ?Z.rem_opp_l, ?Z.rem_opp_r by lia; done. }
  rewrite Eq, Er. assert (integer_term (Z.quot a b) <> NIL) as N1 by (apply (integer_term_small_nil _ a); [rewrite <- Eq, Aa; unfold sval; destruct (negb _); lia|done]).
  assert (integer_term (Z.rem a b) <> NIL) as N2 by (apply (integer_term_small_nil _ a); [rewrite <- Er, Aa; unfold sval; destruct xs; lia|done]).
  rewrite !bool_decide_eq_false_2 by done. done.
Qed.

(** ** Bits *)

Lemma big_bitop_ok op f I_op x y a b : (forall u v, op u v = op v u) -> (forall u v, f u v = f v u) ->
  (forall x xs y ys, signed_ok xs x -> signed_ok ys y -> (length y <= length x)%nat -> exists r, I_op x xs y ys = Some r /\ digits r /\ normal r /\ sval (f xs ys) r = op (sval xs x) (sval ys y)) ->
  big_rep a x -> big_rep b y -> big_bitop I_op f x y = Some (integer_term (op a b)).
Proof using.
  intros Hop Hf HI (xs & xv & -> & Hx & Nx & <- & Sx & _) (ys & yv & -> & Hy & Ny & <- & Sy & _). unfold big_bitop. cbn [big_val mbind option_bind].
  assert (signed_ok xs xv /\ signed_ok ys yv) as [Ox Oy] by (split; split; try done; split; try done; apply Nx || apply Ny). destruct (Nat.leb_spec (length yv) (length xv)).
  - destruct (HI xv xs yv ys Ox Oy ltac:(lia)) as (r & -> & Hr & Nr & E). cbn [mbind option_bind]. by rewrite big_norm_ok, E.
  - destruct (HI yv ys xv xs Oy Ox ltac:(lia)) as (r & -> & Hr & Nr & E). cbn [mbind option_bind]. by rewrite big_norm_ok, Hf, E, Hop.
Qed.

(** The bitwise operations on bignums, which keep a sign and an absolute value, are
    those of two's complement of unlimited width, the complement is [-x-1], and shifts
    multiply by a power of two or divide by it and round down. *)
Lemma big_bits x y a b n : big_rep a x -> big_rep b y -> - 2 ^ 63 < n < 2 ^ 63 ->
  big_band x y = Some (integer_term (Z.land a b)) /\
  big_bor x y = Some (integer_term (Z.lor a b)) /\
  big_bxor x y = Some (integer_term (Z.lxor a b)) /\
  big_bnot x = Some (integer_term (Z.lnot a)) /\
  big_lshift x n = Some (integer_term (Z.shiftl a n)).
Proof using.
  intros Rx Ry Hn. split; [|split; [|split; [|split]]].
  - apply big_bitop_ok; [apply Z.land_comm|apply andb_comm|apply I_band_ok|done|done].
  - apply big_bitop_ok; [apply Z.lor_comm|apply orb_comm|apply I_bor_ok|done|done].
  - apply (big_bitop_ok Z.lxor (fun xs ys => negb (eqb xs ys))); [apply Z.lxor_comm|by intros [] []| |done|done]. intros x0 xs y0 ys H1 H2 H3. replace (negb (eqb xs ys)) with (xorb xs ys) by (by destruct xs, ys). by apply I_bxor_ok.
  - destruct Rx as (xs & xv & -> & Hx & Nx & <- & Sx & _). unfold big_bnot. cbn [big_val mbind option_bind]. destruct (I_bnot_ok xv xs) as (H1 & H2 & H3); [split; [done|]; split; [apply Nx|done]|done|]. by rewrite big_norm_ok, H3.
  - destruct Rx as (xs & xv & -> & Hx & Nx & <- & Sx & _). unfold big_lshift. cbn [big_val mbind option_bind]. destruct (I_lshift_ok xv n xs Hx (proj1 Nx) Sx Hn) as (r & -> & Hr & _ & E & Nr). cbn [mbind option_bind]. rewrite big_norm_ok by auto. by rewrite E.
Qed.

(** ** Order *)

(** The comparison of bignums is that of the integers, and the unsigned one that of
    their absolute values. *)
Lemma big_compare x y a b : big_rep a x -> big_rep b y ->
  big_comp x y = Some (match a ?= b with Lt => -1 | Eq => 0 | Gt => 1 end) /\
  big_ucomp x y = Some (match Z.abs a ?= Z.abs b with Lt => -1 | Eq => 0 | Gt => 1 end).
Proof using.
  intros (xs & xv & -> & Hx & Nx & <- & Sx & _) (ys & yv & -> & Hy & Ny & <- & Sy & _). unfold big_comp, big_ucomp. cbn [big_val mbind option_bind]. rewrite I_comp_ok by done.
  pose proof (dval_range xv Hx). pose proof (dval_range yv Hy). assert (forall s v, 0 <= dval v -> Z.abs (sval s v) = dval v) as Habs by (intros s v Hv; unfold sval; destruct s; lia). rewrite !Habs by lia. clear Habs.
  assert (cmp3 (dval xv) (dval yv) = match dval xv ?= dval yv with Lt => -1 | Eq => 0 | Gt => 1 end) as ->.
  { unfold cmp3. destruct (Z.compare_spec (dval xv) (dval yv)) as [E|E|E]; [rewrite E, Z.ltb_irrefl; done|by rewrite (proj2 (Z.ltb_lt _ _)) by lia|]. rewrite (proj2 (Z.ltb_ge _ _)) by lia. by rewrite (proj2 (Z.ltb_lt _ _)) by lia. }
  split; [|done]. f_equal. unfold sval. destruct xs, ys; cbn [eqb].
  - rewrite Z.compare_opp, (Z.compare_antisym (dval xv) (dval yv)). by destruct (dval xv ?= dval yv).
  - specialize (Sx eq_refl). by rewrite (proj2 (Z.compare_lt_iff _ _)) by lia.
  - specialize (Sy eq_refl). by rewrite (proj2 (Z.compare_gt_iff _ _)) by lia.
  - done.
Qed.

(** ** Machine integers *)

Lemma IS_USMALL_fits x : 0 <= x -> IS_USMALL false x = fits_small x.
Proof using. intros Hx. unfold IS_USMALL, fits_small. rewrite max_small, min_small. by rewrite (proj2 (Z.leb_le _ x)) by lia. Qed.
Lemma one_digit (s : bool) d : digit d -> (s = true -> 1 <= d) -> big_rep (if s then - d else d) (Bignum s [d]).
Proof using.
  intros Hd Hs. exists s, [d]. split; [done|]. split; [by apply digits_one|]. split; [by apply normal_singleton|]. cbn [dval]. split; [unfold sval; destruct s; cbn [dval]; lia|]. split; [intros E; specialize (Hs E); lia|done].
Qed.
Lemma small_to_big_ok x : - 2 ^ 63 <= x < 2 ^ 63 -> big_rep x (small_to_big x).
Proof using.
  intros Hx. change (2 ^ 63) with 9223372036854775808 in Hx. unfold small_to_big. destruct (Z.leb_spec 0 x); [apply (one_digit false); [dig|done]|]. rewrite wrapu64_small by dig. replace x with (- (- x)) at 1 by lia. apply (one_digit true); [dig|lia].
Qed.
Lemma wrapu64_add x k : wrapu 64 (x + k * DB) = wrapu 64 x.
Proof using. unfold wrapu. change (2 ^ 64) with DB. apply Z_mod_plus_full. Qed.
Lemma opp_wrapu64 x : - 2 ^ 63 <= x < 0 -> wrapu 64 (- wrapu 64 x) = - x.
Proof using.
  intros Hx. change (2 ^ 63) with 9223372036854775808 in Hx. replace (wrapu 64 x) with (x + DB); [|symmetry; unfold wrapu; change (2 ^ 64) with DB; symmetry; apply (Z.mod_unique _ _ (-1)); lia].
  replace (- (x + DB)) with (- x + (-1) * DB) by lia. rewrite wrapu64_add. apply wrapu64_small. dig.
Qed.
Lemma uval_loop_one d : digit d -> uval_loop [d] 0 0 = d.
Proof using. intros Hd. cbn [uval_loop]. rewrite Z.shiftl_0_r, Z.lor_0_l. by apply wrapu64_small. Qed.
Lemma big_rep_one z t : big_rep z t -> Z.abs z < DB -> exists s d, t = Bignum s [d] /\ digit d /\ z = (if s then - d else d) /\ (s = true -> 1 <= d).
Proof using.
  intros (s & v & -> & Hv & Nv & E & Hs & _) Hz. destruct v as [|d [|d2 v]]; [by destruct Nv| |].
  - exists s, d. apply digits_cons in Hv as [Hd _]. unfold sval in E. cbn [dval] in *. split; [done|]. split; [done|]. split; [destruct s; lia|]. intros Es. specialize (Hs Es). lia.
  - exfalso. pose proof (large_vector _ Hv Nv ltac:(cbn [length]; lia)). unfold sval in E. destruct s; lia.
Qed.
Lemma big_rep_two z t : big_rep z t -> DB <= Z.abs z -> exists s v, t = Bignum s v /\ (2 <= length v)%nat /\ (s = (z <? 0)).
Proof using.
  intros (s & v & -> & Hv & Nv & E & Hs & _) Hz. exists s, v. split; [done|]. pose proof (dval_range v Hv). split.
  - destruct v as [|d [|d2 v]]; [by destruct Nv| |cbn; lia]. apply digits_cons in Hv as [Hd _]. unfold sval in E. cbn [dval] in *. destruct s; dig.
  - symmetry. unfold sval in E. destruct s; [apply Z.ltb_lt|apply Z.ltb_ge]; lia.
Qed.

(** The conversions from terms give the integer of a small or a bignum when it is in
    the range of the type, and otherwise the error of their contract: [BADARG] for a
    negative number, [SYSTEM_LIMIT] for one that is too large. *)
Theorem term_to_integers z t : t = Small z /\ MIN_SMALL <= z <= MAX_SMALL \/ big_rep z t ->
  term_to_Uint t = (if z <? 0 then inr BADARG else if z <? 2 ^ 64 then inl z else inr SYSTEM_LIMIT) /\
  term_to_Uint_mask t = Some (if z <? 0 then inr BADARG else inl (z mod 2 ^ 64)) /\
  term_to_Sint t = (if (- 2 ^ 63 <=? z) && (z <? 2 ^ 63) then Some z else None) /\
  term_equals_2pow32 t = (z =? 2 ^ 32).
Proof using.
  change (2 ^ 64) with DB. change (2 ^ 63) with 9223372036854775808. change (2 ^ 32) with 4294967296. intros H.
  assert (term_to_Uint t = (if z <? 0 then inr BADARG else if z <? DB then inl z else inr SYSTEM_LIMIT) /\ term_to_Uint_mask t = Some (if z <? 0 then inr BADARG else inl (z mod DB)) /\
    term_to_Sint t = (if (- 9223372036854775808 <=? z) && (z <? 9223372036854775808) then Some z else None)) as (EU & EM & ES).
  { destruct H as [[-> Hz]|Hrep].
    - rewrite max_small, min_small in Hz. cbn [term_to_Uint term_to_Uint_mask term_to_Sint]. rewrite (proj2 (Z.ltb_lt z DB)) by lia. rewrite (proj2 (Z.leb_le (- 9223372036854775808) z)), (proj2 (Z.ltb_lt z 9223372036854775808)) by lia. cbn [andb]. destruct (Z.ltb_spec z 0); [done|]. by rewrite Z.mod_small by lia.
    - destruct (Z.lt_ge_cases (Z.abs z) DB) as [Hlt|Hge].
      + destruct (big_rep_one z t Hrep Hlt) as (s & d & -> & Hd & E & Hs). cbn [term_to_Uint term_to_Uint_mask term_to_Sint]. change (64 <? zlen [d] * D_EXP) with false. rewrite !uval_loop_one by done. destruct s.
        * specialize (Hs eq_refl). rewrite (proj2 (Z.ltb_lt z 0)) by lia. split; [done|]. split; [done|]. cbn [andb]. rewrite (proj2 (Z.ltb_lt z 9223372036854775808)), andb_true_r by lia.
          assert (wrapu 64 (- d) = DB - d) as ->. { unfold wrapu. symmetry. apply (Z.mod_unique _ _ (-1)); unfold digit in Hd; change (2 ^ 64) with DB; lia. }
          unfold wraps. change (2 ^ 64) with DB. change (2 ^ (64 - 1)) with 9223372036854775808. destruct (Z.leb_spec (- 9223372036854775808) z).
          -- assert ((DB - d + 9223372036854775808) mod DB = 9223372036854775808 - d) as -> by (symmetry; apply (Z.mod_unique _ _ 1); dig). rewrite (proj2 (Z.ltb_ge 0 _)) by lia. f_equal. lia.
          -- rewrite (Z.mod_small (DB - d + 9223372036854775808)) by dig. by rewrite (proj2 (Z.ltb_lt 0 _)) by dig.
        * assert (z = d) as -> by done. rewrite (proj2 (Z.ltb_ge d 0)), (proj2 (Z.ltb_lt d DB)), Z.mod_small by dig. split; [done|]. split; [done|]. rewrite (proj2 (Z.leb_le _ d)) by dig. cbn [andb].
          unfold wraps. change (2 ^ 64) with DB. change (2 ^ (64 - 1)) with 9223372036854775808. destruct (Z.ltb_spec d 9223372036854775808).
          -- rewrite Z.mod_small by dig. rewrite (proj2 (Z.ltb_ge _ 0)) by dig. f_equal. lia.
          -- assert ((d + 9223372036854775808) mod DB = d + 9223372036854775808 - DB) as -> by (symmetry; apply (Z.mod_unique _ _ 1); dig). by rewrite (proj2 (Z.ltb_lt _ 0)) by dig.
      + destruct (big_rep_two z t Hrep Hge) as (s & v & -> & Hl & Es). destruct Hrep as (s' & v' & [= <- <-] & Hv & Nv & E & Hs & _). cbn [term_to_Uint term_to_Uint_mask term_to_Sint]. assert ((64 <? zlen v * D_EXP) = true) as -> by (unfold D_EXP, zlen; apply Z.ltb_lt; lia).
        destruct s; symmetry in Es; rewrite Es.
        * apply Z.ltb_lt in Es. rewrite (proj2 (Z.leb_gt _ z)) by lia. done.
        * apply Z.ltb_ge in Es. rewrite (proj2 (Z.ltb_ge z DB)) by lia. rewrite (proj2 (Z.ltb_ge z 9223372036854775808)), andb_false_r by lia. split; [done|]. split; [|done].
          destruct v as [|d v]; [by destruct Nv|]. apply digits_cons in Hv as [Hd _]. cbn [sval dval] in E. do 2 f_equal. apply (Z.mod_unique _ _ (dval v)); [dig|lia]. }
  split; [done|]. split; [done|]. split; [done|]. unfold term_equals_2pow32. rewrite EU. destruct (Z.ltb_spec z 0); [symmetry; apply Z.eqb_neq; lia|]. destruct (Z.ltb_spec z DB); [|symmetry; apply Z.eqb_neq; lia].
  change 0xFFFFFFFF with (Z.ones 32). rewrite Z.land_ones, Z.shiftr_shiftr, Z.shiftr_div_pow2 by lia. change (2 ^ 32) with 4294967296. change (2 ^ (16 + 16)) with 4294967296. pose proof (Z.div_mod z 4294967296 ltac:(lia)). pose proof (Z.mod_pos_bound z 4294967296 ltac:(lia)).
  destruct (Z.eqb_spec (z mod 4294967296) 0), (Z.eqb_spec (z / 4294967296) 1); cbn [andb]; symmetry; (apply Z.eqb_eq || apply Z.eqb_neq); lia.
Qed.
End Laws.

(** ** Bytes *)

Lemma load_digit_ok bs d : bytes_ok bs -> 0 <= d -> d * 256 ^ Z.of_nat (length bs) + be_val bs < DB -> load_digit bs d = d * 256 ^ Z.of_nat (length bs) + be_val bs.
Proof.
  intros Hb. revert d. induction Hb as [|b bs Hb Hbs IH]; intros d Hd Hlt; cbn [load_digit length] in *; [unfold be_val in *; cbn in *; lia|].
  rewrite be_val_cons, Nat2Z.inj_succ, Z.pow_succ_r in * by lia. pose proof (be_val_range bs Hbs) as Hr. set (p := 256 ^ Z.of_nat (length bs)) in *. assert (1 <= p) by (apply Z.lt_pred_le, Z.pow_pos_nonneg; lia). unfold byte_ok in Hb.
  assert (0 <= d * 256 + b) by lia. assert (d * 256 + b < DB) as Hs. { assert ((d * 256 + b) * 1 <= (d * 256 + b) * p) by (apply Z.mul_le_mono_nonneg_l; lia). lia. }
  assert (Z.lor (wrapu 64 (Z.shiftl d 8)) b = d * 256 + b) as ->. { rewrite wrapu64_small by (rewrite Z.shiftl_mul_pow2 by lia; change (2 ^ 8) with 256; dig). apply (lor_shiftl_add d b 8); lia. }
  rewrite IH by lia. ring.
Qed.
Lemma be_val_reverse l : be_val (reverse l) = le_val l.
Proof. induction l as [|b l IH]; [done|]. rewrite reverse_cons. unfold be_val in *. rewrite fold_left_app. cbn [fold_left le_val]. rewrite IH. lia. Qed.
Lemma pow_256_8 : 256 ^ Z.of_nat 8 = DB.
Proof. done. Qed.
Lemma load_word l : bytes_ok l -> (length l <= 8)%nat -> load_digit (reverse l) 0 = le_val l /\ digit (le_val l).
Proof.
  intros Hl Hle. pose proof (le_val_range l Hl) as Hr. assert (256 ^ Z.of_nat (length l) <= DB) by (rewrite <- pow_256_8; apply Z.pow_le_mono_r; lia). split; [|dig].
  rewrite load_digit_ok; rewrite ?be_val_reverse; [lia|by apply Forall_reverse|lia|lia].
Qed.

Lemma load_digits_ok fuel xp : bytes_ok xp -> (length xp <= fuel)%nat -> xp <> [] ->
  exists r rest, load_digits fuel xp = (r, rest) /\ digits r /\ bytes_ok rest /\ (0 < length rest <= 8)%nat /\ length xp = (8 * length r + length rest)%nat /\
    dval r + pw r * le_val rest = le_val xp /\ list.last rest = list.last xp.
Proof.
  revert xp. induction fuel as [|fuel IH]; intros xp Hx Hl Hne; cbn [load_digits]; [destruct xp; [done|cbn [length] in Hl; lia]|].
  destruct (Nat.ltb_spec 8 (length xp)) as [Hgt|Hle].
  - assert (xp = take 8 xp ++ drop 8 xp) as E by (symmetry; apply take_drop). pose proof Hx as Hx'. rewrite E in Hx'. apply Forall_app in Hx' as [H1 H2]. assert (length (take 8 xp) = 8%nat) as L1 by (rewrite length_take; lia). assert (length (drop 8 xp) = (length xp - 8)%nat) as L2 by (by rewrite length_drop).
    destruct (load_word (take 8 xp) H1 ltac:(lia)) as [-> Hd]. destruct (IH (drop 8 xp) H2 ltac:(lia) ltac:(apply nonempty; lia)) as (r & rest & -> & Hr & Hrest & Hlr & Hlen & Ev & Elast).
    exists (le_val (take 8 xp) :: r), rest. split; [done|]. split; [by constructor|]. split; [done|]. split; [done|]. split; [cbn [length]; lia|]. split.
    + cbn [dval]. rewrite pw_cons. rewrite (f_equal le_val E), le_val_app, L1, pow_256_8. lia.
    + rewrite Elast, (f_equal list.last E), last_app. destruct (list.last (drop 8 xp)) eqn:El; [done|]. apply last_None in El. rewrite El in L2. cbn [length] in L2. lia.
  - exists [], xp. split; [done|]. split; [constructor|]. split; [done|]. split; [destruct xp; [done|cbn [length] in *; lia]|]. cbn [length dval]. rewrite pw_nil. split; [lia|]. split; [lia|done].
Qed.

(** The bytes of an integer, without leading zeros, give its term. *)
Lemma bytes_to_big_ok bs neg : bytes_ok bs -> bs <> [] -> list.last bs <> Some 0 -> bytes_to_big bs neg = integer_term (if neg : bool then - le_val bs else le_val bs).
Proof.
  intros Hb Hne Hlast. unfold bytes_to_big. destruct (load_digits_ok (length bs) bs Hb ltac:(lia) Hne) as (r & rest & -> & Hr & Hrest & Hlr & Hlen & Ev & El).
  destruct (load_word rest Hrest ltac:(lia)) as [Ed Hd]. destruct rest as [|b rest]; [cbn [length] in Hlr; lia|]. rewrite Ed. clear Ed. set (d := le_val (b :: rest)) in *.
  assert (1 <= d) as Hd1.
  { destruct (decide (d = 0)) as [E0|]; [|dig]. exfalso. apply Hlast. rewrite <- El. clear -E0 Hrest. unfold d in E0. clear d. revert b Hrest E0. induction rest as [|c rest IH]; intros b Hb E0.
    - apply Forall_cons_iff in Hb as [Hb _]. unfold byte_ok in Hb. cbn [le_val] in E0. cbn. f_equal. lia.
    - apply Forall_cons_iff in Hb as [Hb Hr]. pose proof (le_val_range _ Hr). unfold byte_ok in Hb. cbn [le_val] in E0. cbn [le_val] in H. rewrite last_cons_2. apply IH; [done|]. cbn [le_val]. lia. }
  assert (digits (r ++ [d])) as Hrd by (apply digits_app; split; [done|by apply digits_one]). assert (normal (r ++ [d])) as Nrd by (split; [by destruct r|]; rewrite last_snoc; intros [= E]; lia).
  assert (dval (r ++ [d]) = le_val bs) as Erd by (rewrite dval_app; cbn [dval]; lia).
  assert (integer_term (if neg then - le_val bs else le_val bs) = big_norm (r ++ [d]) neg) as ->. { rewrite big_norm_ok by done. unfold sval. by rewrite Erd. }
  destruct r as [|r0 r].
  - rewrite bool_decide_eq_true_2 by done. cbn [andb app big_norm]. destruct (IS_USMALL neg d) eqn:Es.
    + unfold make_usmall. assert (in_s 64 d /\ in_s 64 (- d)) as [H1 H2]. { unfold IS_USMALL in Es. rewrite max_small in Es. unfold in_s. change (2 ^ (64 - 1)) with 9223372036854775808. destruct neg; apply Z.leb_le in Es; lia. }
      destruct neg; rewrite !wraps_small by (done || lia); done.
    + done.
  - rewrite bool_decide_eq_false_2 by done. cbn [andb]. unfold big_norm. cbn [app]. destruct (r ++ [d]) as [|e l] eqn:E; [by destruct r|]. rewrite <- E. replace (zlen (r0 :: r ++ [d])) with (zlen (r0 :: r) + 1) by zlen_lia. done.
Qed.

Lemma store_digit_bytes n d : store_digit n d = le_bytes n d.
Proof. done. Qed.
Lemma byte_count_acc fuel d sz : byte_count fuel d sz = sz + byte_count fuel d 0.
Proof. revert d sz. induction fuel as [|fuel IH]; intros d sz; cbn [byte_count]; [lia|]. destruct (d =? 0); [lia|]. rewrite (IH _ (sz + 1)), (IH _ (0 + 1)). lia. Qed.
Lemma store_last_ok fuel d : (0 < fuel)%nat -> 1 <= d < 256 ^ Z.of_nat fuel ->
  bytes_ok (store_last fuel d) /\ le_val (store_last fuel d) = d /\ store_last fuel d <> [] /\ list.last (store_last fuel d) <> Some 0 /\ zlen (store_last fuel d) = byte_count fuel d 0.
Proof.
  revert d. induction fuel as [|fuel IH]; intros d Hf Hd; [lia|]. cbn [store_last byte_count]. rewrite Nat2Z.inj_succ, Z.pow_succ_r in Hd by lia. replace (d =? 0) with false by (symmetry; apply Z.eqb_neq; lia).
  change (Z.land d 255) with (Z.land d (Z.ones 8)). rewrite Z.land_ones, Z.shiftr_div_pow2 by lia. change (2 ^ 8) with 256. pose proof (Z.div_mod d 256 ltac:(lia)) as E. pose proof (Z.mod_pos_bound d 256 ltac:(lia)) as Hm.
  assert (0 <= d / 256 < 256 ^ Z.of_nat fuel) as Hq by (split; [apply Z.div_pos|apply Z.div_lt_upper_bound]; lia). destruct (Z.eqb_spec (d / 256) 0) as [E0|E0].
  - cbn [le_val]. split; [constructor; [done|constructor]|]. split; [lia|]. split; [done|]. split; [cbn; intros [= E1]; lia|]. rewrite E0. assert (byte_count fuel 0 (0 + 1) = 1) as ->; [by destruct fuel|]. done.
  - destruct fuel as [|fuel]; [change (256 ^ Z.of_nat 0) with 1 in Hq; lia|]. destruct (IH (d / 256)) as (H1 & H2 & H3 & H4 & H5); [lia|lia|]. set (t := store_last (S fuel) (d / 256)) in *. clearbody t. split; [constructor; done|]. cbn [le_val]. split; [lia|]. split; [done|].
    split; [destruct t; [done|]; by rewrite last_cons_2|]. rewrite byte_count_acc, zlen_cons, H5. lia.
Qed.
Lemma store_digits_ok v : digits v -> normal v -> 1 <= dval v ->
  exists bs, store_digits v = Some bs /\ bytes_ok bs /\ le_val bs = dval v /\ bs <> [] /\ list.last bs <> Some 0 /\
    (d ← list.last v; Some (byte_count 8 d ((zlen v - 1) * 8))) = Some (zlen bs).
Proof.
  induction 1 as [|d v Hd Hv IH]; intros Nv Hpos; [by destruct Nv|]. destruct v as [|e v].
  - cbn [store_digits dval] in *. destruct (store_last_ok 8 d) as (H1 & H2 & H3 & H4 & H5); [lia|rewrite pow_256_8; dig|]. exists (store_last 8 d). split; [done|]. split; [done|]. split; [rewrite H2; lia|]. split; [done|]. split; [done|].
    cbn [list.last mbind option_bind]. rewrite H5. do 2 f_equal.
  - assert (normal (e :: v)) as Nv'. { split; [done|]. destruct Nv as [_ Nv]. rewrite last_cons_2 in Nv. intros El. specialize (Nv El). done. }
    assert (1 <= dval (e :: v)) as Hp. { pose proof (large_vector (d :: e :: v) ltac:(by constructor) Nv ltac:(cbn [length]; lia)) as Hl. cbn [dval] in Hl |- *. unfold digit in Hd. lia. }
    destruct (IH Nv' Hp) as (bs & Es & H1 & H2 & H3 & H4 & H5). change (store_digits (d :: e :: v)) with (p ← store_digits (e :: v); Some (store_digit 8 d ++ p)). rewrite Es. cbn [mbind option_bind]. rewrite store_digit_bytes. eexists. split; [reflexivity|].
    split; [apply Forall_app; split; [apply le_bytes_ok|done]|]. split.
    { rewrite le_val_app, length_le_bytes, pow_256_8, le_val_bytes, H2. change (8 * Z.of_nat 8) with 64. rewrite wrapu64_small by done. done. }
    split; [by destruct (le_bytes 8 d)|]. split; [rewrite last_app; destruct (list.last bs) eqn:E; [done|apply last_None in E; done]|].
    rewrite last_cons_2. destruct (list.last (e :: v)) as [t|]; [|done]. cbn [mbind option_bind] in *. apply (inj Some) in H5. rewrite byte_count_acc in H5 |- *. f_equal. rewrite zlen_app, zlen_le_bytes. rewrite zlen_cons. lia.
Qed.

(** The bytes of a bignum are those of its absolute value, lowest byte first and
    without leading zeros, as many as [big_bytes] announces, and [bytes_to_big] makes the
    term of the integer from them and the sign. *)
Lemma big_bytes_roundtrip z t : big_rep z t -> z <> 0 ->
  exists bs, big_to_bytes t = Some bs /\ big_bytes t = Some (zlen bs) /\ bytes_ok bs /\ le_val bs = Z.abs z /\ list.last bs <> Some 0 /\
    bytes_to_big bs (z <? 0) = integer_term z.
Proof.
  intros (s & v & -> & Hv & Nv & <- & Hs & _) Hz. pose proof (dval_range v Hv). assert (1 <= dval v) as Hpos by (unfold sval in Hz; destruct s; lia).
  destruct (store_digits_ok v Hv Nv Hpos) as (bs & Es & H1 & H2 & H3 & H4 & H5). exists bs. unfold big_to_bytes, big_bytes. cbn [big_val mbind option_bind]. split; [done|]. split; [done|]. split; [done|].
  assert (Z.abs (sval s v) = dval v /\ (sval s v <? 0) = s) as [-> ->] by (unfold sval; destruct s; split; lia). split; [done|]. split; [done|].
  rewrite bytes_to_big_ok, H2 by done. done.
Qed.

(** ** Single words *)

Lemma small_times_ok {M : DigitMacros} {L : DigitLaws M} x y : MIN_SMALL <= x <= MAX_SMALL -> MIN_SMALL <= y <= MAX_SMALL -> small_times x y = integer_term (x * y).
Proof.
  rewrite max_small, min_small. intros Hx Hy. unfold small_times. set (sign := negb _).
  assert (wrapu 64 (if 0 <? x then x else - x) = Z.abs x /\ wrapu 64 (if 0 <? y then y else - y) = Z.abs y) as [-> ->] by (destruct (Z.ltb_spec 0 x), (Z.ltb_spec 0 y); split; rewrite wrapu64_small; dig || lia).
  destruct (DMULc_ok (Z.abs x) (Z.abs y) 0) as (d0 & d1 & -> & H0 & H1 & E); [dig..|]. rewrite <- Z.abs_mul, Z.add_0_r in E.
  set (v := if d1 =? 0 then [d0] else [d0; d1]). assert (digits v /\ normal v /\ dval v = Z.abs (x * y)) as (Hv & Nv & Ev).
  { unfold v. destruct (Z.eqb_spec d1 0) as [->|]; [split; [by apply digits_one|]; split; [by apply normal_singleton|]; cbn [dval]; lia|]. split; [constructor; [done|by apply digits_one]|]. split; [|cbn [dval]; lia]. split; [done|]. by intros [= ->]. }
  assert (sval sign v = x * y) as Es by (unfold sval; rewrite Ev; unfold sign; destruct (Z.ltb_spec x 0), (Z.ltb_spec y 0); cbn [eqb negb]; nia).
  rewrite <- Es, <- big_norm_ok by done. unfold v, big_norm. destruct (Z.eqb_spec d1 0) as [->|]; [|done]. cbn [andb]. by destruct (IS_USMALL sign d0).
Qed.

(** The code subtracts from a negative bignum without a test whether it is large enough. *)
Lemma big_plus_small_ok x a y : big_rep a x -> digit y -> (a < 0 -> y <= - a) -> big_plus_small x y = Some (integer_term (a + y)).
Proof.
  intros (s & v & -> & Hv & Nv & <- & Hs & _) Hy Hle. unfold big_plus_small. cbn [big_val mbind option_bind]. f_equal. destruct s; cbn [sval] in *.
  - specialize (Hs eq_refl). destruct (D_sub_ok v y Hv (proj1 Nv) Hy ltac:(lia)) as (H1 & H2 & H3 & _). rewrite big_norm_ok by done. f_equal. cbn [sval]. lia.
  - destruct (D_add_ok v y Hv (proj1 Nv) Hy) as (H1 & H2 & H3 & _). rewrite big_norm_ok by auto. f_equal. cbn [sval]. lia.
Qed.

Lemma word_bigs x : digit x -> big_rep x (uint_to_big x) /\ big_rep x (erts_uint64_to_big x) /\ (erts_make_integer x = integer_term x).
Proof.
  intros Hx. split; [by apply (one_digit false)|]. split; [by apply (one_digit false)|]. unfold erts_make_integer. rewrite IS_USMALL_fits by dig. unfold integer_term. destruct (fits_small x) eqn:Ef; [done|].
  rewrite Z.abs_eq by dig. replace x with (dval [x]) by (cbn [dval]; lia). rewrite digits_of_normal by (try apply digits_one; try apply normal_singleton; done). cbn [dval]. replace (x + DB * 0) with x by lia. change (BIG_ARITY_MAX <? zlen [x]) with false. by rewrite (proj2 (Z.ltb_ge x 0)) by dig.
Qed.
Lemma erts_sint64_to_big_ok x : - 2 ^ 63 <= x < 2 ^ 63 -> big_rep x (erts_sint64_to_big x).
Proof.
  intros Hx. unfold erts_sint64_to_big. destruct (Z.leb_spec 0 x); [apply (one_digit false); [change (2 ^ 63) with 9223372036854775808 in Hx; dig|done]|].
  rewrite opp_wrapu64 by lia. replace x with (- (- x)) at 1 by lia. change (2 ^ 63) with 9223372036854775808 in Hx. apply (one_digit true); [dig|lia].
Qed.

Lemma used_digits_ok array pot dg : digits array ->
  dval array = 0 /\ used_digits array pot dg = dg \/
  exists v d n, array = (v ++ [d]) ++ replicate n 0 /\ d <> 0 /\ used_digits array pot dg = (pot + length (v ++ [d]))%nat.
Proof.
  intros Ha. revert pot dg. induction Ha as [|x array Hx Ha IH]; intros pot dg; cbn [used_digits dval]; [by left|].
  destruct (IH (S pot) (if x =? 0 then dg else S pot)) as [[E ->]|(v & d & n & E & Hd & ->)].
  - destruct (Z.eqb_spec x 0) as [->|]; [left; split; [lia|done]|]. right. exists [], x, (length array). cbn [app length]. split; [|split; [done|lia]]. f_equal.
    clear -Ha E. induction Ha as [|y array Hy Ha IH]; [done|]. pose proof (dval_range array Ha). cbn [dval length replicate] in *. unfold digit in Hy. rewrite <- IH by lia. f_equal. lia.
  - right. exists (x :: v), d, n. split; [by rewrite E|]. split; [done|]. cbn [app length]. lia.
Qed.
Lemma erts_uint64_array_to_big_ok (neg : bool) array : digits array -> 1 <= dval array -> zlen array <= BIG_ARITY_MAX ->
  big_rep (if neg then - dval array else dval array) (erts_uint64_array_to_big neg array).
Proof.
  intros Ha Hv Hl. unfold erts_uint64_array_to_big. destruct (used_digits_ok array 0 0 Ha) as [[E _]|(v & d & n & E & Hd & ->)]; [lia|]. cbn [Nat.add].
  rewrite E, firstn_app, take_ge, Nat.sub_diag, take_0, app_nil_r by lia. rewrite E in Ha, Hv, Hl. apply digits_app in Ha as [Ha _]. rewrite dval_padded in *. rewrite zlen_app in Hl. pose proof (zlen_nonneg (replicate n 0)).
  exists neg, (v ++ [d]). split; [done|]. split; [done|]. split; [split; [by destruct v|rewrite last_snoc; by intros [= ->]]|]. split; [done|]. split; [done|lia].
Qed.

Lemma term_to_integers_witness :
  term_to_Uint (Bignum false [1; 1]) = inr SYSTEM_LIMIT /\
  term_to_Uint_mask (Bignum false [1; 1]) = Some (inl 1) /\
  term_to_Sint (Bignum false [1; 1]) = None /\
  term_equals_2pow32 (Bignum false [1; 1]) = false.
Proof.
  apply (term_to_integers (2 ^ 64 + 1)). right. exists false, [1; 1]. split; [done|]. split; [repeat constructor; done|]. split; [split; done|]. split; [done|]. split; done.
Defined.
