(* ===== verification/BigArith.v ===== *)
(** * Integer arithmetic of the emulator: [erts/emulator/beam/erl_arith.c]

    The operators on integers of either kind, smalls and bignums, and the errors they
    raise.  Floats are not modelled; [NIL] stands for the terms that are no numbers. *)
From S2P Require Import Prelude PutGet BigDigit BigNat BigMul BigBits BigDiv BigBz BigTerm.

Section Arithmetic.
Context {M : DigitMacros}.

(** ** The code *)

(** A term, or the non-value with the reason in [p->freason]. *)
Definition eresult : Type := Eterm + error_reason.

Definition IS_SSMALL (x : Z) : bool := wrapu 64 (Z.shiftr x (SMALL_BITS - 1) + 1) <? 2.
(** [if (IS_SSMALL(ires)) make_small(ires) else small_to_big(ires, hp)] *)
Definition make_word (ires : Z) : Eterm := if IS_SSMALL ires then Small ires else small_to_big ires.
(** [if (is_nil(res)) { p->freason = SYSTEM_LIMIT; return THE_NON_VALUE; } return res;] *)
Definition check_limit (res : Eterm) : eresult := if bool_decide (res = NIL) then inr SYSTEM_LIMIT else inl res.

Definition erts_mixed_plus (arg1 arg2 : Eterm) : option eresult :=
  match arg1, arg2 with
  | Small a, Small b => Some (inl (make_word (a + b)))
  | Small a, Bignum _ _ => if a =? 0 then Some (inl arg2) else check_limit <$> big_plus (small_to_big a) arg2
  | Bignum _ _, Small b => if b =? 0 then Some (inl arg1) else check_limit <$> big_plus arg1 (small_to_big b)
  | Bignum _ _, Bignum _ _ => check_limit <$> big_plus arg1 arg2
  | _, _ => Some (inr BADARITH)
  end.

Definition erts_mixed_minus (arg1 arg2 : Eterm) : option eresult :=
  match arg1, arg2 with
  | Small a, Small b => Some (inl (make_word (a - b)))
  | Small a, Bignum _ _ => check_limit <$> big_minus (small_to_big a) arg2
  | Bignum _ _, Small b => if b =? 0 then Some (inl arg1) else check_limit <$> big_minus arg1 (small_to_big b)
  | Bignum _ _, Bignum _ _ => check_limit <$> big_minus arg1 arg2
  | _, _ => Some (inr BADARITH)
  end.

(** Only an assertion tests the result of [big_minus]. *)
Definition erts_unary_minus (arg : Eterm) : option eresult :=
  match arg with
  | Small a => Some (inl (make_word (- a)))
  | Bignum _ _ => inl <$> big_minus (Bignum false [0]) arg
  | NIL => Some (inr BADARITH)
  end.

(** [same]: both arguments are the same object. *)
Definition erts_mixed_times (same : bool) (arg1 arg2 : Eterm) : option eresult :=
  match arg1, arg2 with
  | Small a, Small b =>
      Some (inl (if (a =? 0) || (b =? 0) then Small 0
                 else if a =? 1 then arg2
                 else if b =? 1 then arg1
                 else small_times a b))
  | Small a, Bignum _ _ =>
      if a =? 0 then Some (inl (Small 0))
      else if a =? 1 then Some (inl arg2)
      else check_limit <$> big_times false (small_to_big a) arg2
  | Bignum _ _, Small b =>
      if b =? 0 then Some (inl (Small 0))
      else if b =? 1 then Some (inl arg1)
      else check_limit <$> big_times false arg1 (small_to_big b)
  | Bignum _ _, Bignum _ _ => check_limit <$> big_times same arg1 arg2
  | _, _ => Some (inr BADARITH)
  end.

(** A small as a bignum; [None] for other terms. *)
Definition as_big (t : Eterm) : option Eterm :=
  match t with Small i => Some (small_to_big i) | Bignum _ _ => Some t | NIL => None end.
(** Without a float, the arguments behind the nested [switch]es are not numbers. *)
Definition erts_mul_add (same : bool) (arg1 arg2 arg3 : Eterm) : option eresult :=
  match as_big arg1, as_big arg2, as_big arg3 with
  | Some x, Some y, Some z => check_limit <$> big_mul_add same x y z
  | _, _, _ =>
      product ← erts_mixed_times same arg1 arg2;
      match product with inr e => Some (inr e) | inl product => erts_mixed_plus product arg3 end
  end.

(** [NUMBER_CODE(lhs, rhs)] and what is done for it: the operands as bignums, or the result
    at once. *)
Definition erts_int_div_rem (arg1 arg2 : Eterm) : option (Eterm * Eterm + error_reason) :=
  let divide (lhs rhs : Eterm) :=
    cmp ← big_ucomp lhs rhs;
    if cmp <? 0 then Some (inl (Small 0, arg1))
    else if cmp =? 0 then
      '(ls, _) ← big_val lhs; '(rs, _) ← big_val rhs;
      Some (inl (Small (if eqb ls rs then 1 else -1), Small 0))
    else
      qr ← big_div_rem lhs rhs;
      Some (match qr with Some (q, r) => inl (q, r) | None => inr SYSTEM_LIMIT end) in
  match arg1, arg2 with
  | Small a, Small b => divide (small_to_big a) (small_to_big b)
  | Bignum _ _, Small b => divide arg1 (small_to_big b)
  | Small a, Bignum _ _ => if a =? MIN_SMALL then divide (small_to_big a) arg2 else Some (inl (Small 0, arg1))
  | Bignum _ _, Bignum _ _ => divide arg1 arg2
  | _, _ => Some (inr BADARITH)
  end.
Definition intdiv_2 (arg1 arg2 : Eterm) : option eresult :=
  let general := qr ← erts_int_div_rem arg1 arg2; Some (match qr with inl (q, _) => inl q | inr e => inr e end) in
  if bool_decide (arg2 = Small 0) then Some (inr BADARITH)
  else match arg1, arg2 with
  | Small a, Small b => let ires := Z.quot a b in if IS_SSMALL ires then Some (inl (Small ires)) else general
  | _, _ => general
  end.
Definition rem_2 (arg1 arg2 : Eterm) : option eresult :=
  let general := qr ← erts_int_div_rem arg1 arg2; Some (match qr with inl (_, r) => inl r | inr e => inr e end) in
  if bool_decide (arg2 = Small 0) then Some (inr BADARITH)
  else match arg1, arg2 with
  | Small a, Small b => Some (inl (Small (Z.rem a b)))
  | _, _ => general
  end.

(** [erts_band], [erts_bor] and [erts_bxor] up to the call of the function on bignums. *)
Definition bit_operands (arg1 arg2 : Eterm) : option (Eterm * Eterm) :=
  match arg1, arg2 with
  | Small a, Bignum _ _ => Some (small_to_big a, arg2)
  | Bignum _ _, Small b => Some (arg1, small_to_big b)
  | Bignum _ _, Bignum _ _ => Some (arg1, arg2)
  | _, _ => None
  end.
(** Only an assertion tests the results of [big_band] and [big_bor]. *)
Definition erts_band (arg1 arg2 : Eterm) : option eresult :=
  match bit_operands arg1 arg2 with Some (x, y) => inl <$> big_band x y | None => Some (inr BADARITH) end.
Definition erts_bor (arg1 arg2 : Eterm) : option eresult :=
  match bit_operands arg1 arg2 with Some (x, y) => inl <$> big_bor x y | None => Some (inr BADARITH) end.
Definition erts_bxor (arg1 arg2 : Eterm) : option eresult :=
  match bit_operands arg1 arg2 with Some (x, y) => check_limit <$> big_bxor x y | None => Some (inr BADARITH) end.
(** The tag of a small is kept by [&] and [|] of the tagged words. *)
Definition band_2 (arg1 arg2 : Eterm) : option eresult :=
  match arg1, arg2 with Small a, Small b => Some (inl (Small (Z.land a b))) | _, _ => erts_band arg1 arg2 end.
Definition bor_2 (arg1 arg2 : Eterm) : option eresult :=
  match arg1, arg2 with Small a, Small b => Some (inl (Small (Z.lor a b))) | _, _ => erts_bor arg1 arg2 end.
Definition bxor_2 (arg1 arg2 : Eterm) : option eresult :=
  match arg1, arg2 with Small a, Small b => Some (inl (Small (Z.lxor a b))) | _, _ => erts_bxor arg1 arg2 end.
Definition bnot_1 (arg : Eterm) : option eresult :=
  match arg with
  | Small a => Some (inl (Small (Z.lnot a)))
  | Bignum _ _ => check_limit <$> big_bnot arg
  | NIL => Some (inr BADARITH)
  end.
Definition erts_bnot (arg : Eterm) : option eresult :=
  match arg with
  | Bignum _ _ => check_limit <$> big_bnot arg
  | _ => Some (inr BADARITH)
  end.

(** [big_shift:], with [arg1] a bignum; [i / D_EXP] is a division of C. *)
Definition big_shift (arg1 : Eterm) (i : Z) : option eresult :=
  '(_, v) ← big_val arg1;
  let ires := if 0 <? i then zlen v + Z.quot i D_EXP
              else if zlen v <=? Z.quot (- i) D_EXP then 3
              else zlen v - Z.quot (- i) D_EXP in
  if BIG_ARITY_MAX <? ires - 8 then Some (inr SYSTEM_LIMIT)
  else check_limit <$> big_lshift arg1 i.
(** [small_shift:]; [((~(Uint)0 << ((SMALL_BITS-1)-i)) & ires) == 0] says that the bits from
    [SMALL_BITS-1-i] on are clear. *)
Definition small_shift (ires i : Z) : option eresult :=
  let high := wrapu 64 (Z.shiftl (2 ^ 64 - 1) (SMALL_BITS - 1 - i)) in
  if (i =? 0) || (ires =? 0) then Some (inl (Small ires))
  else if i <? 0 then
    let i := - i in
    Some (inl (if SMALL_BITS - 1 <=? i then Small (if ires <? 0 then -1 else 0) else Small (Z.shiftr ires i)))
  else if (i <? SMALL_BITS - 1) &&
          (((0 <? ires) && (Z.land high (wrapu 64 ires) =? 0)) || (Z.land high (wrapu 64 (Z.lnot ires)) =? 0))
  then Some (inl (Small (wraps 64 (Z.shiftl ires i))))
  else big_shift (small_to_big ires) i.
Definition do_bsl (arg1 arg2 : Eterm) : option eresult :=
  match arg2 with
  | Small i =>
      match arg1 with
      | Small a => small_shift a i
      | Bignum _ _ => if i =? 0 then Some (inl arg1) else big_shift arg1 i
      | NIL => Some (inr BADARITH)
      end
  | Bignum neg _ =>
      if neg then
        match arg1 with
        | Small a => small_shift a MIN_SMALL
        | Bignum _ _ => big_shift arg1 MIN_SMALL
        | NIL => Some (inr BADARITH)
        end
      else
        match arg1 with
        | Small a => if a =? 0 then Some (inl arg1) else Some (inr SYSTEM_LIMIT)
        | Bignum _ _ => Some (inr SYSTEM_LIMIT)
        | NIL => Some (inr BADARITH)
        end
  | NIL => Some (inr BADARITH)
  end.
Definition erts_shift (arg1 arg2 : Eterm) (right : bool) : option eresult :=
  if right then
    match arg2 with
    | Small n =>
        let i := - n in
        match arg1 with
        | Small a => small_shift a i
        | Bignum _ _ => if i =? 0 then Some (inl arg1) else big_shift arg1 i
        | NIL => Some (inr BADARITH)
        end
    | Bignum neg _ => do_bsl arg1 (Small (if neg then MAX_SMALL else MIN_SMALL))
    | NIL => Some (inr BADARITH)
    end
  else do_bsl arg1 arg2.
Definition erts_bsl (arg1 arg2 : Eterm) : option eresult := erts_shift arg1 arg2 false.
Definition erts_bsr (arg1 arg2 : Eterm) : option eresult := erts_shift arg1 arg2 true.

End Arithmetic.

(** ** Integers as arguments *)

(** The emulator has a term for the integer. *)
Definition representable (z : Z) : Prop := integer_term z <> NIL.
(** The term of an integer, or the error when there is none. *)
Definition arith_result (z : Z) : eresult := check_limit (integer_term z).

Lemma arith_result_ok z : representable z -> arith_result z = inl (integer_term z).
Proof. intros Hz. unfold arith_result, check_limit. by rewrite bool_decide_eq_false_2. Qed.
Lemma fits_iff z : fits_small z = true <-> MIN_SMALL <= z <= MAX_SMALL.
Proof. unfold fits_small. rewrite andb_true_iff, !Z.leb_le. done. Qed.
Lemma integer_term_small z : fits_small z = true -> integer_term z = Small z.
Proof. intros E. unfold integer_term. by rewrite E. Qed.
Lemma big_rep_term z t : big_rep z t -> fits_small z = false -> t = integer_term z.
Proof.
  intros (s & v & -> & Hv & Nv & <- & Hs & Hl) Hf. unfold integer_term. rewrite Hf. pose proof (dval_range v Hv). assert (Z.abs (sval s v) = dval v) as -> by (unfold sval; destruct s; lia).
  rewrite digits_of_normal by done. rewrite (proj2 (Z.ltb_ge _ _)) by lia. f_equal. unfold sval. destruct s; [specialize (Hs eq_refl); symmetry; apply Z.ltb_lt; lia|symmetry; apply Z.ltb_ge; lia].
Qed.

(** An integer with a term is a small or a bignum. *)
Lemma integer_cases z : representable z ->
  MIN_SMALL <= z <= MAX_SMALL /\ integer_term z = Small z \/
  fits_small z = false /\ exists s v, integer_term z = Bignum s v /\ s = (z <? 0) /\ big_rep z (Bignum s v).
Proof.
  intros Hz. destruct (fits_small z) eqn:Ef; [left; split; [by apply fits_iff|by apply integer_term_small]|]. right. split; [done|]. unfold representable, integer_term in *. rewrite Ef in *.
  destruct (Z.ltb_spec BIG_ARITY_MAX (zlen (digits_of (Z.abs z)))); [done|]. eexists _, _. split; [done|]. split; [done|]. destruct (digits_of_ok (Z.abs z) ltac:(lia)) as (H1 & H2 & H3).
  eexists _, _. split; [reflexivity|]. split; [done|]. split; [done|]. unfold sval. rewrite H3. destruct (Z.ltb_spec z 0); (split; [lia|]; split; [intros Ht; discriminate Ht || lia|lia]).
Qed.
Lemma small_big z : MIN_SMALL <= z <= MAX_SMALL -> big_rep z (small_to_big z).
Proof. rewrite max_small, min_small. intros Hz. apply small_to_big_ok. change (2 ^ 63) with 9223372036854775808. lia. Qed.

Lemma IS_SSMALL_ok x : - 2 ^ 62 <= x < 2 ^ 62 -> IS_SSMALL x = fits_small x.
Proof.
  change (2 ^ 62) with 4611686018427387904. intros Hx. unfold IS_SSMALL, fits_small. rewrite max_small, min_small, Z.shiftr_div_pow2 by (unfold SMALL_BITS; lia). change (2 ^ (SMALL_BITS - 1)) with 576460752303423488.
  set (q := x / 576460752303423488). pose proof (Z.div_mod x 576460752303423488 ltac:(lia)) as E. pose proof (Z.mod_pos_bound x 576460752303423488 ltac:(lia)). fold q in E. assert (-8 <= q <= 7) as Hq by lia.
  destruct (Z.leb_spec (-576460752303423488) x), (Z.leb_spec x 576460752303423487); cbn [andb]; try lia.
  - assert (0 <= q + 1 < 2) by lia. rewrite wrapu64_small by dig. apply Z.ltb_lt. lia.
  - assert (2 <= q + 1 <= 8) by lia. rewrite wrapu64_small by dig. apply Z.ltb_ge. lia.
  - assert (wrapu 64 (q + 1) = q + 1 + DB) as -> by (unfold wrapu; symmetry; apply (Z.mod_unique _ _ (-1)); change (2 ^ 64) with DB; lia). apply Z.ltb_ge. lia.
Qed.
Lemma make_word_ok x : - 2 ^ 62 <= x < 2 ^ 62 -> make_word x = integer_term x.
Proof.
  intros Hx. unfold make_word. rewrite IS_SSMALL_ok by done. destruct (fits_small x) eqn:Ef; [by rewrite integer_term_small|]. apply big_rep_term; [|done]. apply small_to_big_ok. change (2 ^ 62) with 4611686018427387904 in Hx. change (2 ^ 63) with 9223372036854775808. lia.
Qed.
Lemma word_representable x : - 2 ^ 62 <= x < 2 ^ 62 -> representable x.
Proof.
  intros Hx. destruct (fits_small x) eqn:Ef; [unfold representable; by rewrite integer_term_small|]. apply (big_rep_not_nil x (small_to_big x)), small_to_big_ok. change (2 ^ 62) with 4611686018427387904 in Hx. change (2 ^ 63) with 9223372036854775808. lia.
Qed.

(** ** The operators *)

Section Laws.
Context {M : DigitMacros} {L : DigitLaws M}.

Lemma big_plus_ok x y a b : big_rep a x -> big_rep b y -> big_plus x y = Some (integer_term (a + b)).
Proof using L. intros Hx Hy. by destruct (big_plus_minus_times x y x a b a false Hx Hy Hx) as (? & _). Qed.
Lemma big_minus_ok x y a b : big_rep a x -> big_rep b y -> big_minus x y = Some (integer_term (a - b)).
Proof using L. intros Hx Hy. by destruct (big_plus_minus_times x y x a b a false Hx Hy Hx) as (_ & ? & _). Qed.
Lemma big_times_ok same x y a b : big_rep a x -> big_rep b y -> (same = true -> x = y) -> big_times same x y = Some (integer_term (a * b)).
Proof using L. intros Hx Hy Hs. by destruct (big_plus_minus_times x y x a b a same Hx Hy Hx) as (_ & _ & ? & _). Qed.

(** The terms of two integers, as smalls or bignums. *)
Ltac integer_args Ha Hb :=
  destruct (integer_cases _ Ha) as [[?Ra ?Ea]|(?Fa & ?sa & ?va & ?Ea & ?Esa & ?Ra)], (integer_cases _ Hb) as [[?Rb ?Eb]|(?Fb & ?sb & ?vb & ?Eb & ?Esb & ?Rb)].

Lemma mixed_ok a b same : representable a -> representable b -> (same = true -> a = b) ->
  erts_mixed_plus (integer_term a) (integer_term b) = Some (arith_result (a + b)) /\
  erts_mixed_minus (integer_term a) (integer_term b) = Some (arith_result (a - b)) /\
  erts_mixed_times same (integer_term a) (integer_term b) = Some (arith_result (a * b)).
Proof using L.
  intros Ha Hb Hs. pose proof max_small as EM. pose proof min_small as Em. assert (forall z, - 2 ^ 62 <= z < 2 ^ 62 -> inl (make_word z) = arith_result z) as Hword by (intros z Hz; rewrite make_word_ok by done; by rewrite arith_result_ok by (by apply word_representable)).
  integer_args Ha Hb; rewrite Ea, Eb; cbn [erts_mixed_plus erts_mixed_minus erts_mixed_times].
  - change (2 ^ 62) with 4611686018427387904 in Hword. rewrite !Hword by lia. split; [done|]. split; [done|]. f_equal. unfold arith_result. rewrite <- small_times_ok by done.
    assert (small_times a b <> NIL) as Hn. { unfold small_times. destruct (DMULc _ _ _) as [d0 d1]. by destruct (_ && _). }
    unfold check_limit. rewrite bool_decide_eq_false_2 by done. f_equal. rewrite small_times_ok by done.
    destruct (Z.eqb_spec a 0) as [->|]; cbn [orb]; [by rewrite Z.mul_0_l|]. destruct (Z.eqb_spec b 0) as [->|]; [by rewrite Z.mul_0_r|]. destruct (Z.eqb_spec a 1) as [->|]; [by rewrite Z.mul_1_l|]. destruct (Z.eqb_spec b 1) as [->|]; [by rewrite Z.mul_1_r|done].
  - pose proof (small_big a Ra) as Ra'. rewrite (big_minus_ok _ _ a b) by done. split; [|split; [done|]].
    + destruct (Z.eqb_spec a 0) as [->|]; [|by rewrite (big_plus_ok _ _ a b)]. rewrite Z.add_0_l, arith_result_ok by done. by rewrite Eb.
    + destruct (Z.eqb_spec a 0) as [->|]; [by rewrite Z.mul_0_l|]. destruct (Z.eqb_spec a 1) as [->|]; [rewrite Z.mul_1_l, arith_result_ok by done; by rewrite Eb|]. by rewrite (big_times_ok false _ _ a b).
  - pose proof (small_big b Rb) as Rb'. destruct (Z.eqb_spec b 0) as [->|]; [rewrite Z.add_0_r, Z.sub_0_r, Z.mul_0_r, arith_result_ok, Ea by done; done|].
    rewrite (big_plus_ok _ _ a b), (big_minus_ok _ _ a b) by done. split; [done|]. split; [done|]. destruct (Z.eqb_spec b 1) as [->|]; [rewrite Z.mul_1_r, arith_result_ok by done; by rewrite Ea|]. by rewrite (big_times_ok false _ _ a b).
  - rewrite (big_plus_ok _ _ a b), (big_minus_ok _ _ a b), (big_times_ok same _ _ a b) by (done || (intros E; specialize (Hs E); subst b; congruence)). done.
Qed.

Lemma erts_unary_minus_ok a : representable a -> erts_unary_minus (integer_term a) = Some (inl (integer_term (- a))).
Proof using L.
  intros Ha. pose proof max_small. pose proof min_small. destruct (integer_cases _ Ha) as [[Ra ->]|(_ & s & v & -> & _ & Ra)]; cbn [erts_unary_minus].
  - by rewrite make_word_ok by (change (2 ^ 62) with 4611686018427387904; lia).
  - rewrite (big_minus_ok _ _ 0 a); [done|by apply (one_digit false); [apply digit_0|]|done].
Qed.
Lemma as_big_ok a : representable a -> exists t, as_big (integer_term a) = Some t /\ big_rep a t.
Proof using.
  intros Ha. destruct (integer_cases _ Ha) as [[Ra ->]|(_ & s & v & -> & _ & Ra)]; cbn [as_big]; eexists; (split; [reflexivity|]); [by apply small_big|done].
Qed.
Lemma erts_mul_add_ok a b c same : representable a -> representable b -> representable c -> (same = true -> a = b) ->
  erts_mul_add same (integer_term a) (integer_term b) (integer_term c) = Some (arith_result (a * b + c)).
Proof using L.
  intros Ha Hb Hc Hs. destruct (as_big_ok a Ha) as (x & Ex & Rx), (as_big_ok b Hb) as (y & Ey & Ry), (as_big_ok c Hc) as (z & Ez & Rz). unfold erts_mul_add. rewrite Ex, Ey, Ez.
  destruct (big_plus_minus_times x y z a b c same Rx Ry Rz) as (_ & _ & _ & ->); [|done]. intros E. specialize (Hs E). subst b. congruence.
Qed.

(** The integers with a term are those below the largest power. *)
Definition LIMIT : Z := 2 ^ (64 * BIG_ARITY_MAX).
Lemma arity_pos : 1 <= BIG_ARITY_MAX.
Proof using. done. Qed.
Lemma LIMIT_eq : LIMIT = 2 ^ (64 * BIG_ARITY_MAX).
Proof using. reflexivity. Qed.
Lemma LIMIT_pow : LIMIT = DB ^ Z.of_nat (Z.to_nat BIG_ARITY_MAX).
Proof using. pose proof arity_pos. rewrite LIMIT_eq, Z.pow_mul_r, Z2Nat.id by lia. by change (2 ^ 64) with DB. Qed.
Lemma LIMIT_exp : exists n, 64 <= n /\ LIMIT = 2 ^ n.
Proof using. exists (64 * BIG_ARITY_MAX). split; [done|apply LIMIT_eq]. Qed.
Lemma representable_iff z : representable z <-> Z.abs z < LIMIT.
Proof using.
  pose proof arity_pos. rewrite LIMIT_pow. assert (DB ^ 1 <= DB ^ Z.of_nat (Z.to_nat BIG_ARITY_MAX)) as Hmin by (apply Z.pow_le_mono_r; lia). destruct (digits_of_ok (Z.abs z) ltac:(lia)) as (H1 & H2 & H3). set (n := Z.to_nat BIG_ARITY_MAX) in *. assert (Z.of_nat n = BIG_ARITY_MAX) as En by lia. clearbody n. split.
  - intros Hz. destruct (integer_cases z Hz) as [[R _]|(Ef & _)]; [rewrite max_small, min_small in R; change (DB ^ 1) with DB in Hmin; lia|]. unfold representable, integer_term in Hz. rewrite Ef in Hz.
    destruct (Z.ltb_spec BIG_ARITY_MAX (zlen (digits_of (Z.abs z)))) as [|Hle]; [done|]. pose proof (dval_range _ H1) as Hr. rewrite H3, pw_nat in Hr. assert (DB ^ Z.of_nat (length (digits_of (Z.abs z))) <= DB ^ Z.of_nat n); [|lia].
    apply Z.pow_le_mono_r; [lia|]. unfold zlen in Hle. lia.
  - intros Hz. unfold representable, integer_term. destruct (fits_small z); [done|]. pose proof (normal_size _ n H1 H2 ltac:(lia) ltac:(lia)) as Hl.
    rewrite (proj2 (Z.ltb_ge _ _)); [done|]. unfold zlen. lia.
Qed.
Lemma opp_representable a : representable a -> representable (- a).
Proof using. intros Ha%representable_iff. apply representable_iff. by rewrite Z.abs_opp. Qed.

(** C22: the operators [+], [-], [*] and the negation of integers, smalls and bignums in any
    combination, and [erts_mul_add], give the term of the sum, difference, product and so
    on: a small exactly when it fits, and the error [system_limit] exactly when the result
    has too many digits for a term.  A negation always has a term. *)
Theorem erts_mixed_arithmetic a b c same : representable a -> representable b -> representable c -> (same = true -> a = b) ->
  erts_mixed_plus (integer_term a) (integer_term b) = Some (arith_result (a + b)) /\
  erts_mixed_minus (integer_term a) (integer_term b) = Some (arith_result (a - b)) /\
  erts_mixed_times same (integer_term a) (integer_term b) = Some (arith_result (a * b)) /\
  erts_mul_add same (integer_term a) (integer_term b) (integer_term c) = Some (arith_result (a * b + c)) /\
  erts_unary_minus (integer_term a) = Some (inl (integer_term (- a))) /\ representable (- a).
Proof using L.
  intros Ha Hb Hc Hs. destruct (mixed_ok a b same Ha Hb Hs) as (-> & -> & ->). rewrite erts_mul_add_ok, erts_unary_minus_ok by done. repeat (split; [done|]). by apply opp_representable.
Qed.

(** ** Quotients *)

(** [divide] of [erts_int_div_rem]. *)
Lemma divide_ok arg1 lhs rhs a b : big_rep a lhs -> big_rep b rhs -> b <> 0 -> arg1 = integer_term a ->
  (cmp ← big_ucomp lhs rhs;
   if cmp <? 0 then Some (inl (Small 0, arg1))
   else if cmp =? 0 then '(ls, _) ← big_val lhs; '(rs, _) ← big_val rhs; Some (inl (Small (if eqb ls rs then 1 else -1), Small 0))
   else qr ← big_div_rem lhs rhs; Some (match qr with Some (q, r) => inl (q, r) | None => inr SYSTEM_LIMIT end))
  = Some (inl (integer_term (Z.quot a b), integer_term (Z.rem a b)) : Eterm * Eterm + error_reason).
Proof using L.
  intros Ra Rb Hb ->. destruct (big_compare _ _ _ _ Ra Rb) as [_ ->]. cbn [mbind option_bind]. destruct (Z.compare_spec (Z.abs a) (Z.abs b)) as [E|E|E]; cbn [Z.ltb Z.eqb Z.compare].
  - destruct Ra as (s & v & -> & Hv & Nv & Ea & Hs & _), Rb as (s' & v' & -> & Hv' & Nv' & Eb & Hs' & _). cbn [big_val mbind option_bind]. pose proof (dval_range v Hv). pose proof (dval_range v' Hv'). unfold sval in *.
    assert (dval v = dval v') as Ev by (destruct s, s'; lia). destruct s, s'; cbn [eqb]; rewrite <- Ea, <- Eb, <- Ev, ?Z.quot_opp_opp, ?Z.quot_opp_l, ?Z.quot_opp_r, ?Z.rem_opp_opp, ?Z.rem_opp_l, ?Z.rem_opp_r, Z.quot_same, Z.rem_same by lia; done.
  - assert (Z.quot a b = 0 /\ Z.rem a b = a) as [-> ->]; [|done]. assert (Z.rem a b = a) as Er by (apply Z.rem_small_iff; lia). split; [|done]. pose proof (Z.quot_rem a b Hb) as Eq. rewrite Er in Eq. nia.
  - rewrite (big_div_rem_spec _ _ a b) by (done || lia). done.
Qed.

Lemma div_rem_ok a b : representable a -> representable b ->
  intdiv_2 (integer_term a) (integer_term b) = Some (if b =? 0 then inr BADARITH else inl (integer_term (Z.quot a b))) /\
  rem_2 (integer_term a) (integer_term b) = Some (if b =? 0 then inr BADARITH else inl (integer_term (Z.rem a b))).
Proof using L.
  intros Ha Hb. destruct (Z.eqb_spec b 0) as [->|Hb0].
  { rewrite (integer_term_small 0) by done. unfold intdiv_2, rem_2. by rewrite !bool_decide_eq_true_2. }
  pose proof max_small as EM. pose proof min_small as Em.
  assert (erts_int_div_rem (integer_term a) (integer_term b) = Some (inl (integer_term (Z.quot a b), integer_term (Z.rem a b)))) as Egen.
  { unfold erts_int_div_rem. integer_args Ha Hb; rewrite Ea, Eb.
    - apply divide_ok; [by apply small_big|by apply small_big|done|done].
    - destruct (Z.eqb_spec a MIN_SMALL) as [E|E]; [apply divide_ok; [by apply small_big|done|done|done]|].
      assert (Z.abs a < Z.abs b) as Hlt. { assert (~ (MIN_SMALL <= b <= MAX_SMALL)) by (rewrite <- fits_iff; by rewrite Fb). lia. }
      assert (Z.rem a b = a) as Er by (by apply Z.rem_small_iff). assert (Z.quot a b = 0) as -> by (pose proof (Z.quot_rem a b Hb0) as Eq; rewrite Er in Eq; nia). by rewrite Er, Ea.
    - apply divide_ok; [done|by apply small_big|done|done].
    - apply divide_ok; done. }
  assert (integer_term b <> Small 0) as Hne. { integer_args Ha Hb; rewrite Eb; congruence. }
  unfold intdiv_2, rem_2. rewrite !bool_decide_eq_false_2, Egen by done. cbn [mbind option_bind]. integer_args Ha Hb; rewrite ?Ea, ?Eb; [|done..]. split.
  - assert (Z.abs (Z.quot a b) <= Z.abs a) by (rewrite <- Z.quot_abs by done; apply Z.quot_le_upper_bound; nia). rewrite IS_SSMALL_ok by (change (2 ^ 62) with 4611686018427387904; lia). destruct (fits_small (Z.quot a b)) eqn:Ef; [by rewrite integer_term_small|done].
  - rewrite integer_term_small; [done|]. apply fits_iff. destruct (Z.lt_ge_cases a 0); [pose proof (Z.rem_bound_neg_pos a b)|]; pose proof (Z.rem_bound_abs a b Hb0); pose proof (Z.rem_sign_nz a b Hb0); destruct (decide (Z.rem a b = 0)); lia.
Qed.

Lemma quot_representable a b : representable a -> b <> 0 -> representable (Z.quot a b) /\ representable (Z.rem a b).
Proof using.
  intros Ha%representable_iff Hb. split; apply representable_iff; (eapply Z.le_lt_trans; [|exact Ha]).
  - rewrite <- Z.quot_abs by done. apply Z.quot_le_upper_bound; [lia|]. rewrite <- (Z.mul_1_l (Z.abs a)) at 1. apply Z.mul_le_mono_nonneg_r; lia.
  - rewrite <- Z.rem_abs by done. apply Z.rem_le; lia.
Qed.
(** C23: [div] and [rem] of integers are the quotient that is rounded towards zero and its
    remainder, for smalls and bignums in any combination and for the quotient that is no
    small although both operands are; both always have a term, and a divisor of zero is the
    error [badarith]. *)
Theorem div_rem_operators a b : representable a -> representable b ->
  if b =? 0
  then intdiv_2 (integer_term a) (integer_term b) = Some (inr BADARITH) /\ rem_2 (integer_term a) (integer_term b) = Some (inr BADARITH)
  else exists q r, a = q * b + r /\ Z.abs r < Z.abs b /\ 0 <= a * r /\ representable q /\ representable r /\
    intdiv_2 (integer_term a) (integer_term b) = Some (inl (integer_term q)) /\
    rem_2 (integer_term a) (integer_term b) = Some (inl (integer_term r)).
Proof using L.
  intros Ha Hb. destruct (div_rem_ok a b Ha Hb) as [-> ->]. destruct (Z.eqb_spec b 0) as [E|E]; [done|]. exists (Z.quot a b), (Z.rem a b). destruct (quot_representable a b Ha E).
  split; [pose proof (Z.quot_rem a b E); lia|]. split; [by apply Z.rem_bound_abs|]. split; [|done]. rewrite Z.mul_comm. by apply Z.rem_sign_mul.
Qed.

(** ** Bits *)

Lemma lor_bound n a b : 0 <= n -> Z.abs a < 2 ^ n -> Z.abs b < 2 ^ n -> Z.abs (Z.lor a b) < 2 ^ n.
Proof using.
  intros Hn Ha Hb. assert (0 < 2 ^ n) as Hp by (apply Z.pow_pos_nonneg; lia).
  pose proof (bitop_range (op := Z.lor) n a b Hn ltac:(lia) ltac:(lia)) as Hr. destruct (decide (Z.lor a b = - 2 ^ n)) as [E|]; [|lia]. exfalso.
  assert (forall w, Z.abs w < 2 ^ n -> (forall k, 0 <= k < n -> Z.testbit w k = false) -> w = 0) as Hzero.
  { intros w Hw Hbits. assert (w mod 2 ^ n = 0) as Em. { apply Z.bits_inj'. intros k Hk. rewrite Z.bits_0, Z.testbit_mod_pow2 by lia. destruct (Z.ltb_spec k n); [by rewrite Hbits by lia|done]. }
    pose proof (Z.div_mod w (2 ^ n) ltac:(lia)) as Ed. rewrite Em in Ed. destruct (decide (w / 2 ^ n = 0)) as [E0|]; [rewrite E0 in Ed; lia|]. nia. }
  assert (forall k, 0 <= k < n -> Z.testbit a k = false /\ Z.testbit b k = false) as Hk.
  { intros k Hk. apply orb_false_iff. rewrite <- Z.lor_spec, E. replace (- 2 ^ n) with (Z.shiftl (-1) n) by (rewrite Z.shiftl_mul_pow2 by lia; lia). rewrite Z.shiftl_spec by lia. apply Z.testbit_neg_r. lia. }
  assert (a = 0) as -> by (apply Hzero; [done|]; intros k Hk'; by apply Hk). assert (b = 0) as -> by (apply Hzero; [done|]; intros k Hk'; by apply Hk). rewrite Z.lor_0_l in E. lia.
Qed.
Lemma lor_representable a b : representable a -> representable b -> representable (Z.lor a b).
Proof using. intros Ha%representable_iff Hb%representable_iff. apply representable_iff. destruct LIMIT_exp as (n & Hn & E). rewrite E in *. refine (lor_bound n a b _ Ha Hb). lia. Qed.
Lemma small_bitop {op f} `{BitOp op f} a b : MIN_SMALL <= a <= MAX_SMALL -> MIN_SMALL <= b <= MAX_SMALL -> Small (op a b) = integer_term (op a b).
Proof using.
  rewrite max_small, min_small. intros Ha Hb. symmetry. apply integer_term_small, fits_iff. rewrite max_small, min_small. pose proof (bitop_range (op := op) 59 a b ltac:(lia)) as Hr. change (2 ^ 59) with 576460752303423488 in Hr. specialize (Hr ltac:(lia) ltac:(lia)). lia.
Qed.
Lemma bit_operands_ok a b : representable a -> representable b -> (MIN_SMALL <= a <= MAX_SMALL /\ MIN_SMALL <= b <= MAX_SMALL) \/
  exists x y, bit_operands (integer_term a) (integer_term b) = Some (x, y) /\ big_rep a x /\ big_rep b y /\
    band_2 (integer_term a) (integer_term b) = erts_band (integer_term a) (integer_term b) /\
    bor_2 (integer_term a) (integer_term b) = erts_bor (integer_term a) (integer_term b) /\
    bxor_2 (integer_term a) (integer_term b) = erts_bxor (integer_term a) (integer_term b).
Proof using.
  intros Ha Hb. integer_args Ha Hb; rewrite Ea, Eb; [by left|right..]; eexists _, _; (split; [reflexivity|]); repeat split; done || by apply small_big.
Qed.

Lemma bits_ok a b : representable a -> representable b ->
  band_2 (integer_term a) (integer_term b) = Some (inl (integer_term (Z.land a b))) /\
  bor_2 (integer_term a) (integer_term b) = Some (inl (integer_term (Z.lor a b))) /\ representable (Z.lor a b) /\
  bxor_2 (integer_term a) (integer_term b) = Some (arith_result (Z.lxor a b)) /\
  bnot_1 (integer_term a) = Some (arith_result (Z.lnot a)).
Proof using.
  intros Ha Hb. assert (bnot_1 (integer_term a) = Some (arith_result (Z.lnot a))) as Hnot.
  { destruct (integer_cases _ Ha) as [[Ra ->]|(_ & s & v & -> & _ & Ra)]; cbn [bnot_1].
    - rewrite max_small, min_small in Ra. assert (fits_small (Z.lnot a) = true) as Ef by (apply fits_iff; rewrite max_small, min_small; unfold Z.lnot; lia). unfold arith_result. by rewrite integer_term_small.
    - destruct (big_bits _ _ a a 0 Ra Ra ltac:(lia)) as (_ & _ & _ & -> & _). done. }
  pose proof (lor_representable a b Ha Hb). destruct (bit_operands_ok a b Ha Hb) as [[Ra Rb]|(x & y & E & Rx & Ry & -> & -> & ->)].
  - rewrite !(integer_term_small a), !(integer_term_small b) by (by apply fits_iff). cbn [band_2 bor_2 bxor_2]. rewrite !small_bitop by done. split; [done|]. split; [done|]. split; [done|]. split; [|by rewrite <- (integer_term_small a) by (by apply fits_iff)].
    unfold arith_result. rewrite <- small_bitop by done. done.
  - destruct (big_bits x y a b 0 Rx Ry ltac:(lia)) as (E1 & E2 & E3 & _). unfold erts_band, erts_bor, erts_bxor. rewrite E, E1, E2, E3. done.
Qed.
Lemma land_representable a b : representable a -> representable b -> 0 <= a \/ 0 <= b -> representable (Z.land a b).
Proof using.
  intros Ha%representable_iff Hb%representable_iff Hs. apply representable_iff. destruct LIMIT_exp as (n & Hn & E). rewrite E in *.
  pose proof (bitop_range (op := Z.land) n a b ltac:(lia) ltac:(lia) ltac:(lia)). assert (0 <= Z.land a b) by (by apply Z.land_nonneg). lia.
Qed.
(** The bound is reached by [band] alone, and from below. *)
Lemma land_cases a b : representable a -> representable b ->
  if bool_decide (Z.land a b = - LIMIT) then a < 0 /\ b < 0 /\ integer_term (Z.land a b) = NIL else representable (Z.land a b).
Proof using.
  intros Ha Hb. pose proof (land_representable a b Ha Hb) as Hr. destruct (bool_decide_reflect (Z.land a b = - LIMIT)) as [E|E].
  - assert (~ representable (Z.land a b)) as Hn by (rewrite representable_iff, E, Z.abs_opp; lia).
    clear E. split; [destruct (Z.le_gt_cases 0 a) as [H|H]; [destruct (Hn (Hr (or_introl H)))|exact H]|]. split; [destruct (Z.le_gt_cases 0 b) as [H|H]; [destruct (Hn (Hr (or_intror H)))|exact H]|].
    destruct (decide (integer_term (Z.land a b) = NIL)) as [E|E]; [exact E|destruct (Hn E)].
  - apply representable_iff in Ha, Hb. apply representable_iff. destruct LIMIT_exp as (n & Hn & El). rewrite El in *.
    pose proof (bitop_range (op := Z.land) n a b ltac:(lia) ltac:(lia) ltac:(lia)). lia.
Qed.

(** C26: [band], [bor], [bxor] and [bnot] of integers are the operations of two's complement
    of unlimited width.  A result of [bor] always has a term, and [bxor] and [bnot] raise
    [system_limit] when there is none.  The result of [band] has a term with one exception:
    two negative operands of the largest size can have the result -2^(64 * BIG_ARITY_MAX),
    for which the operator, without assertions, gives the empty list instead of an integer
    or an error, contrary to the assertion in [erts_band]. *)
Theorem bit_operators a b : representable a -> representable b ->
  (if bool_decide (Z.land a b = - 2 ^ (64 * BIG_ARITY_MAX))
   then a < 0 /\ b < 0 /\ ~ representable (Z.land a b) /\ band_2 (integer_term a) (integer_term b) = Some (inl NIL)
   else representable (Z.land a b) /\ band_2 (integer_term a) (integer_term b) = Some (inl (integer_term (Z.land a b)))) /\
  bor_2 (integer_term a) (integer_term b) = Some (inl (integer_term (Z.lor a b))) /\ representable (Z.lor a b) /\
  bxor_2 (integer_term a) (integer_term b) = Some (arith_result (Z.lxor a b)) /\
  bnot_1 (integer_term a) = Some (arith_result (Z.lnot a)).
Proof using.
  intros Ha Hb. destruct (bits_ok a b Ha Hb) as (-> & -> & H & -> & ->). split; [|done]. rewrite <- LIMIT_eq.
  pose proof (land_cases a b Ha Hb) as Hc. destruct (bool_decide (Z.land a b = - LIMIT)); [|by split].
  destruct Hc as (H1 & H2 & E). unfold representable. rewrite E. split; [exact H1|]. split; [exact H2|]. split; [by intros H3|reflexivity].
Qed.

(** ** Shifts *)

Lemma not_representable z n : 64 * BIG_ARITY_MAX <= n -> 2 ^ n <= Z.abs z -> arith_result z = inr SYSTEM_LIMIT.
Proof using.
  intros Hn Hz. assert (~ representable z) as Hr. { intros R%representable_iff. rewrite LIMIT_eq in R. pose proof (Z.pow_le_mono_r 2 (64 * BIG_ARITY_MAX) n ltac:(lia) Hn). lia. }
  unfold arith_result, check_limit. rewrite bool_decide_eq_true_2; [done|]. unfold representable in Hr. destruct (decide (integer_term z = NIL)); [done|]. by destruct Hr.
Qed.
Lemma shiftl_abs a n : 0 <= n -> Z.abs (Z.shiftl a n) = Z.abs a * 2 ^ n.
Proof using. intros Hn. rewrite Z.shiftl_mul_pow2, Z.abs_mul by done. f_equal. apply Z.abs_eq, Z.pow_nonneg. lia. Qed.
Lemma shiftl_limit a n : a <> 0 -> 64 * BIG_ARITY_MAX <= n -> arith_result (Z.shiftl a n) = inr SYSTEM_LIMIT.
Proof using.
  intros Ha Hn. pose proof arity_pos. apply (not_representable _ n Hn). rewrite shiftl_abs by lia. pose proof (Z.pow_nonneg 2 n ltac:(lia)). rewrite <- (Z.mul_1_l (2 ^ n)) at 1. apply Z.mul_le_mono_nonneg_r; lia.
Qed.
Lemma shiftr_sign a k m : 0 <= k <= m -> - 2 ^ k <= a < 2 ^ k -> Z.shiftr a m = if a <? 0 then -1 else 0.
Proof using.
  intros Hk Ha. pose proof (Z.pow_le_mono_r 2 k m ltac:(lia) ltac:(lia)). rewrite Z.shiftr_div_pow2 by lia. destruct (Z.ltb_spec a 0); symmetry; [apply (Z.div_unique _ _ _ (a + 2 ^ m))|apply (Z.div_unique _ _ _ a)]; lia.
Qed.
(** Counts beyond the smalls shift everything out. *)
Lemma shiftr_out a m : representable a -> 2 ^ 59 <= m -> Z.shiftr a m = if a <? 0 then -1 else 0.
Proof using.
  intros Ha%representable_iff Hm. rewrite LIMIT_eq in Ha. apply (shiftr_sign a (64 * BIG_ARITY_MAX)); [|lia]. pose proof arity_pos. assert (64 * BIG_ARITY_MAX <= 2 ^ 59) by done. lia.
Qed.

(** The test of [small_shift] whether the result is a small. *)
Lemma clear_above w k : 0 <= k < 64 -> 0 <= w < DB -> (Z.land (wrapu 64 (Z.shiftl (2 ^ 64 - 1) k)) w =? 0) = (w <? 2 ^ k).
Proof using.
  intros Hk Hw. set (high := wrapu 64 _). assert (0 < 2 ^ k) as Hp by (apply Z.pow_pos_nonneg; lia).
  assert (forall n, 0 <= n -> Z.testbit high n = ((k <=? n) && (n <? 64))%bool) as Hh.
  { intros n Hn. unfold high, wrapu. rewrite Z.testbit_mod_pow2, Z.shiftl_spec by lia. destruct (Z.ltb_spec n 64); [|by rewrite andb_false_r]. rewrite andb_true_l, andb_true_r. change (2 ^ 64 - 1) with (Z.ones 64). rewrite Z.testbit_ones by lia.
    destruct (Z.leb_spec k n); [|by rewrite (proj2 (Z.leb_gt _ _)) by lia]. by rewrite (proj2 (Z.leb_le _ _)), (proj2 (Z.ltb_lt _ _)) by lia. }
  assert (forall n, 64 <= n -> Z.testbit w n = false) as Htop. { intros n Hn. rewrite <- (Z.mod_small w DB) by done. change DB with (2 ^ 64). rewrite Z.mod_pow2_bits_high by lia. done. }
  destruct (Z.ltb_spec w (2 ^ k)) as [Hlt|Hge].
  - apply Z.eqb_eq, Z.bits_inj'. intros n Hn. rewrite Z.land_spec, Z.bits_0, Hh by done. destruct (Z.leb_spec k n); [|done]. rewrite <- (Z.mod_small w (2 ^ k)), Z.mod_pow2_bits_high by lia. apply andb_false_r.
  - apply Z.eqb_neq. intros E. assert (w mod 2 ^ k = w) as Em; [|pose proof (Z.mod_pos_bound w (2 ^ k)); lia]. apply Z.bits_inj'. intros n Hn. rewrite Z.testbit_mod_pow2 by lia. destruct (Z.ltb_spec n k); [done|]. rewrite andb_false_l. symmetry.
    destruct (Z.lt_ge_cases n 64) as [Hn64|]; [|by apply Htop]. assert (Z.testbit (Z.land high w) n = false) as Hb by (by rewrite E, Z.bits_0). rewrite Z.land_spec, Hh in Hb by done. by rewrite (proj2 (Z.leb_le _ _)), (proj2 (Z.ltb_lt _ _)) in Hb by lia.
Qed.

Lemma big_shift_ok x a i : big_rep a x -> a <> 0 -> - 2 ^ 63 < i < 2 ^ 63 -> big_shift x i = Some (arith_result (Z.shiftl a i)).
Proof using.
  intros Rx Ha Hi. destruct (big_bits x x a a i Rx Rx Hi) as (_ & _ & _ & _ & El). pose proof Rx as (s & v & -> & Hv & Nv & Ea & Hs & Hl). unfold big_shift. cbn [big_val mbind option_bind]. rewrite El. cbn [fmap option_fmap option_map].
  destruct (Z.ltb_spec BIG_ARITY_MAX ((if 0 <? i then zlen v + Z.quot i D_EXP else if zlen v <=? Z.quot (- i) D_EXP then 3 else zlen v - Z.quot (- i) D_EXP) - 8)) as [Hlim|]; [|done].
  pose proof arity_pos. change D_EXP with 64 in Hlim. destruct (Z.ltb_spec 0 i).
  - rewrite Z.quot_div_nonneg in Hlim by lia. pose proof (Z.div_mod i 64 ltac:(lia)) as E. pose proof (Z.mod_pos_bound i 64 ltac:(lia)).
    assert (1 <= dval v) as Hpos by (pose proof (dval_range v Hv); unfold sval in Ea; destruct s; lia). assert (Z.abs a = dval v) as Eabs by (unfold sval in Ea; destruct s; lia).
    pose proof (normal_pos v Hv Nv ltac:(lia)) as Hlow. rewrite pw_nat in Hlow. change DB with (2 ^ 64) in Hlow. rewrite <- Z.pow_mul_r in Hlow by lia. fold (zlen v) in Hlow.
    rewrite (not_representable _ (64 * zlen v + i - 64)); [done|unfold zlen in *; lia|]. rewrite shiftl_abs, Eabs by lia. apply (Z.mul_le_mono_pos_l _ _ (2 ^ 64)); [done|]. rewrite <- Z.pow_add_r by (unfold zlen in *; lia).
    replace (64 + (64 * zlen v + i - 64)) with (64 * zlen v + i) by lia. rewrite Z.pow_add_r by (unfold zlen in *; lia). rewrite Z.mul_assoc. apply Z.mul_le_mono_nonneg_r; [apply Z.pow_nonneg; lia|lia].
  - exfalso. rewrite Z.quot_div_nonneg in Hlim by lia. pose proof (Z.div_pos (- i) 64 ltac:(lia) ltac:(lia)). destruct (Z.leb_spec (zlen v) (- i / 64)); lia.
Qed.

Lemma small_arith z : MIN_SMALL <= z <= MAX_SMALL -> arith_result z = inl (Small z).
Proof using. intros Hz%fits_iff. unfold arith_result. by rewrite integer_term_small. Qed.
Lemma shift_fits a i : MIN_SMALL <= a <= MAX_SMALL -> a <> 0 -> 0 < i < SMALL_BITS - 1 ->
  let high := wrapu 64 (Z.shiftl (2 ^ 64 - 1) (SMALL_BITS - 1 - i)) in
  ((0 <? a) && (Z.land high (wrapu 64 a) =? 0)) || (Z.land high (wrapu 64 (Z.lnot a)) =? 0) = true -> MIN_SMALL <= Z.shiftl a i <= MAX_SMALL.
Proof using.
  rewrite max_small, min_small. change (SMALL_BITS - 1) with 59. intros Ra Ha Hi high. unfold high. assert (0 < 2 ^ (59 - i)) as Hp by (apply Z.pow_pos_nonneg; lia). assert (2 ^ (59 - i) <= 2 ^ 58) as Hq by (apply Z.pow_le_mono_r; lia). change (2 ^ 58) with 288230376151711744 in Hq.
  assert (2 ^ (59 - i) * 2 ^ i = 576460752303423488) as E by (rewrite <- Z.pow_add_r by lia; replace (59 - i + i) with 59 by lia; done). assert (0 < 2 ^ i) as Hpi by (apply Z.pow_pos_nonneg; lia).
  rewrite !clear_above by (lia || apply wrapu64_digit). rewrite Z.shiftl_mul_pow2 by lia. unfold Z.lnot. destruct (Z.ltb_spec 0 a).
  - rewrite (wrapu64_small a) by dig. assert (wrapu 64 (Z.pred (- a)) = Z.pred (- a) + DB) as -> by (unfold wrapu; symmetry; apply (Z.mod_unique _ _ (-1)); change (2 ^ 64) with DB; dig). intros Hc.
    assert (a < 2 ^ (59 - i)) as Hlt. { apply orb_true_iff in Hc as [Hc|Hc]; [apply andb_true_iff in Hc as [_ Hc]; by apply Z.ltb_lt in Hc|]. apply Z.ltb_lt in Hc. dig. }
    pose proof (Z.mul_le_mono_nonneg_r (a + 1) (2 ^ (59 - i)) (2 ^ i) ltac:(lia) ltac:(lia)). pose proof (Z.mul_nonneg_nonneg a (2 ^ i) ltac:(lia) ltac:(lia)). lia.
  - rewrite (wrapu64_small (Z.pred (- a))) by dig. cbn [andb orb]. intros Hlt%Z.ltb_lt. pose proof (Z.mul_le_mono_nonneg_r (- a) (2 ^ (59 - i)) (2 ^ i) ltac:(lia) ltac:(lia)). pose proof (Z.mul_nonneg_nonneg (- a) (2 ^ i) ltac:(lia) ltac:(lia)). lia.
Qed.
Lemma small_shift_ok a i : MIN_SMALL <= a <= MAX_SMALL -> - 2 ^ 63 < i < 2 ^ 63 -> small_shift a i = Some (arith_result (Z.shiftl a i)).
Proof using.
  intros Ra Hi. unfold small_shift. destruct (Z.eqb_spec i 0) as [->|Hi0]; cbn [orb]; [by rewrite Z.shiftl_0_r, small_arith|]. destruct (Z.eqb_spec a 0) as [->|Ha]; [by rewrite Z.shiftl_0_l|].
  pose proof Ra as Ra'. rewrite max_small, min_small in Ra'. destruct (Z.ltb_spec i 0) as [Hneg|Hpos].
  - assert (Z.shiftl a i = Z.shiftr a (- i)) as -> by (by rewrite Z.shiftr_opp_r). destruct (Z.leb_spec (SMALL_BITS - 1) (- i)) as [Hbig|Hsm].
    + rewrite (shiftr_sign a 59) by (change (2 ^ 59) with 576460752303423488; unfold SMALL_BITS in *; lia). by destruct (a <? 0).
    + rewrite small_arith; [done|]. rewrite max_small, min_small, Z.shiftr_div_pow2 by lia. assert (0 < 2 ^ (- i)) as Hp by (apply Z.pow_pos_nonneg; lia). split; [apply Z.div_le_lower_bound; nia|]. apply Z.div_le_upper_bound; nia.
  - destruct (_ && _) eqn:E.
    + apply andb_true_iff in E as [Hlt%Z.ltb_lt E]. pose proof (shift_fits a i Ra Ha ltac:(lia) E) as Hf. rewrite small_arith by done. rewrite max_small, min_small in Hf. rewrite wraps_small; [done|done|]. unfold in_s. change (2 ^ (64 - 1)) with 9223372036854775808. lia.
    + apply big_shift_ok; [by apply small_big|done|lia].
Qed.


Lemma fits_false z : fits_small z = false -> z < - 2 ^ 59 \/ 2 ^ 59 <= z.
Proof using. intros Hf. assert (~ (MIN_SMALL <= z <= MAX_SMALL)) as Hn by (rewrite <- fits_iff; by rewrite Hf). rewrite max_small, min_small in Hn. change (2 ^ 59) with 576460752303423488. lia. Qed.
Lemma small_bounds i : MIN_SMALL <= i <= MAX_SMALL -> - 2 ^ 63 < - i < 2 ^ 63 /\ - 2 ^ 63 < i < 2 ^ 63.
Proof using. rewrite max_small, min_small. change (2 ^ 63) with 9223372036854775808. lia. Qed.
(** A shift by a small count, for both directions. *)
Lemma shift_small a i : representable a -> - 2 ^ 63 < i < 2 ^ 63 ->
  match integer_term a with
  | Small x => small_shift x i
  | Bignum _ _ => if i =? 0 then Some (inl (integer_term a)) else big_shift (integer_term a) i
  | NIL => Some (inr BADARITH)
  end = Some (arith_result (Z.shiftl a i)).
Proof using.
  intros Ha Hi. pose proof Ha as [[Ra ->]|(Fa & s & v & Ea & _ & Ra)]%integer_cases; [by apply small_shift_ok|]. rewrite Ea. destruct (Z.eqb_spec i 0) as [->|]; [by rewrite Z.shiftl_0_r, arith_result_ok, Ea|].
  apply big_shift_ok; [done| |done]. apply fits_false in Fa. change (2 ^ 59) with 576460752303423488 in Fa. lia.
Qed.
Lemma do_bsl_small a i : representable a -> MIN_SMALL <= i <= MAX_SMALL -> do_bsl (integer_term a) (Small i) = Some (arith_result (Z.shiftl a i)).
Proof using. intros Ha Hi. unfold do_bsl. rewrite <- shift_small by (done || by apply small_bounds). done. Qed.
(** A count that is a bignum has the effect of the last small count. *)
Lemma shiftl_out a n : representable a -> n <= MIN_SMALL -> Z.shiftl a n = Z.shiftl a MIN_SMALL.
Proof using.
  intros Ha. rewrite min_small. intros Hn. rewrite <- !Z.shiftr_opp_r, !shiftr_out by (done || (change (2 ^ 59) with 576460752303423488; lia)). done.
Qed.
Lemma shiftl_over a n : MAX_SMALL <= n -> arith_result (Z.shiftl a n) = arith_result (Z.shiftl a MAX_SMALL).
Proof using.
  intros Hn. destruct (decide (a = 0)) as [->|Ha]; [by rewrite !Z.shiftl_0_l|]. assert (64 * BIG_ARITY_MAX <= MAX_SMALL) by done. rewrite !shiftl_limit by (done || lia). done.
Qed.
Lemma do_bsl_ok a n : representable a -> representable n -> do_bsl (integer_term a) (integer_term n) = Some (arith_result (Z.shiftl a n)).
Proof using.
  intros Ha Hn. destruct (integer_cases _ Hn) as [[Rn ->]|(Fn%fits_false & s & v & -> & -> & _)]; [by apply do_bsl_small|]. pose proof max_small as EM. pose proof min_small as Em. change (2 ^ 59) with 576460752303423488 in Fn. unfold do_bsl. destruct (Z.ltb_spec n 0).
  - rewrite shiftl_out by (done || lia). rewrite <- shift_small by (done || (apply small_bounds; lia)). pose proof Ha as [[_ ->]|(_ & s' & v' & -> & _)]%integer_cases; done.
  - rewrite shiftl_over by lia. assert (64 * BIG_ARITY_MAX <= MAX_SMALL) by done. pose proof Ha as [[_ ->]|(Fa%fits_false & s' & v' & -> & _)]%integer_cases.
    + destruct (Z.eqb_spec a 0) as [->|]; [by rewrite Z.shiftl_0_l|by rewrite shiftl_limit].
    + rewrite shiftl_limit; [done| |done]. change (2 ^ 59) with 576460752303423488 in Fa. lia.
Qed.

Lemma shift_ok a n : representable a -> representable n ->
  erts_bsl (integer_term a) (integer_term n) = Some (arith_result (Z.shiftl a n)) /\
  erts_bsr (integer_term a) (integer_term n) = Some (arith_result (Z.shiftr a n)).
Proof using.
  intros Ha Hn. split; [by apply do_bsl_ok|]. unfold erts_bsr, erts_shift. rewrite <- Z.shiftl_opp_r. pose proof max_small as EM. pose proof min_small as Em. destruct (integer_cases _ Hn) as [[Rn ->]|(Fn%fits_false & s & v & -> & -> & _)].
  - destruct (small_bounds n Rn). by rewrite <- shift_small by done.
  - change (2 ^ 59) with 576460752303423488 in Fn. destruct (Z.ltb_spec n 0); rewrite do_bsl_small by (done || lia).
    + by rewrite (shiftl_over a (- n)) by lia.
    + by rewrite (shiftl_out a (- n)) by (done || lia).
Qed.
(** C27: [bsl] and [bsr] of integers are the product with a power of two and the quotient
    rounded down, exchanged for a negative count, with the term of the result or [system_limit]
    when it has too many digits; also for counts that are bignums, which shift everything
    out or past every limit. *)
Theorem shift_operators a n : representable a -> representable n ->
  erts_bsl (integer_term a) (integer_term n) = Some (arith_result (if n <? 0 then a / 2 ^ (- n) else a * 2 ^ n)) /\
  erts_bsr (integer_term a) (integer_term n) = Some (arith_result (if n <? 0 then a * 2 ^ (- n) else a / 2 ^ n)).
Proof using.
  intros Ha Hn. destruct (shift_ok a n Ha Hn) as [-> ->]. destruct (Z.ltb_spec n 0).
  - by rewrite <- (Z.shiftl_mul_pow2 a (- n)), <- Z.shiftr_div_pow2, Z.shiftr_opp_r, Z.shiftl_opp_r by lia.
  - by rewrite Z.shiftl_mul_pow2, Z.shiftr_div_pow2 by lia.
Qed.

(** [erts_band] can return the empty list: the result of two large negative integers has one
    digit more. *)
Lemma land_limit n : 2 <= n -> Z.land (- (2 ^ n - 1)) (- (2 ^ n - 2)) = - 2 ^ n.
Proof using.
  intros Hn. apply Z.bits_inj'. intros k Hk. rewrite Z.land_spec. assert (forall w, 0 <= w < 2 ^ n -> Z.testbit (- 2 ^ n + w) k = if k <? n then Z.testbit w k else true) as Hb.
  { intros w Hw. destruct (Z.ltb_spec k n).
    - rewrite <- (Z.mod_pow2_bits_low (- 2 ^ n + w) n k) by lia. f_equal. symmetry. apply (Z.mod_unique_pos _ _ (-1)); lia.
    - rewrite Z.testbit_true by lia. assert ((- 2 ^ n + w) / 2 ^ k = -1) as ->; [|done]. symmetry. pose proof (Z.pow_le_mono_r 2 n k ltac:(lia) ltac:(lia)). apply (Z.div_unique_pos _ _ _ (- 2 ^ n + w + 2 ^ k)); lia. }
  assert (4 <= 2 ^ n) by (change 4 with (2 ^ 2); apply Z.pow_le_mono_r; lia).
  replace (- (2 ^ n - 1)) with (- 2 ^ n + 1) by lia. replace (- (2 ^ n - 2)) with (- 2 ^ n + 2) by lia. replace (- 2 ^ n) with (- 2 ^ n + 0) at 3 by lia. rewrite !Hb by lia. destruct (k <? n); [|done]. rewrite Z.bits_0. rewrite <- Z.land_spec. by rewrite Z.bits_0.
Qed.
Lemma erts_band_nil : exists a b, representable a /\ representable b /\ erts_band (integer_term a) (integer_term b) = Some (inl NIL).
Proof using.
  destruct LIMIT_exp as (n & Hn & E). exists (- (2 ^ n - 1)), (- (2 ^ n - 2)). assert (2 ^ 64 <= 2 ^ n) as Hp by (apply Z.pow_le_mono_r; lia). change (2 ^ 64) with DB in Hp.
  assert (representable (- (2 ^ n - 1))) as Ra by (apply representable_iff; rewrite E; dig). assert (representable (- (2 ^ n - 2))) as Rb by (apply representable_iff; rewrite E; dig). split; [done|]. split; [done|].
  destruct (bit_operands_ok _ _ Ra Rb) as [[[Hs _] _]|(x & y & Eo & Rx & Ry & _)]; [rewrite min_small in Hs; dig|]. unfold erts_band. rewrite Eo. destruct (big_bits x y _ _ 0 Rx Ry ltac:(lia)) as (-> & _). rewrite land_limit by lia. cbn [fmap option_fmap option_map]. do 2 f_equal.
  destruct (decide (integer_term (- 2 ^ n) = NIL)) as [|Hr]; [done|]. apply representable_iff in Hr. rewrite E in Hr. dig.
Qed.

(** ** Well-formed terms *)

(** The invariant of the terms of integers: a small is in its range, a bignum has digits
    without a leading zero, not too many of them, and would not fit a small. *)
Inductive wf_term : Eterm -> Prop :=
  | wf_small z : MIN_SMALL <= z <= MAX_SMALL -> wf_term (Small z)
  | wf_big s v : digits v -> normal v -> zlen v <= BIG_ARITY_MAX -> fits_small (sval s v) = false -> wf_term (Bignum s v).
(** An error is one of the two that an operator may raise. *)
Definition well_typed (r : option eresult) : Prop :=
  match r with
  | Some (inl t) => wf_term t
  | Some (inr e) => e = BADARITH \/ e = SYSTEM_LIMIT
  | None => False
  end.

Lemma wf_integer z : representable z -> wf_term (integer_term z).
Proof using.
  intros Hz. destruct (integer_cases z Hz) as [[R ->]|(F & s & v & -> & -> & (s' & v' & [= <- <-] & Hv & Nv & E & _ & Hl))]; constructor; try done. by rewrite E.
Qed.
Lemma integer_wf t : wf_term t -> exists z, representable z /\ t = integer_term z.
Proof using.
  intros [z Hz|s v Hv Nv Hl Hf].
  - exists z. assert (integer_term z = Small z) as E by (by apply integer_term_small, fits_iff). split; [unfold representable|]; by rewrite E.
  - assert (big_rep (sval s v) (Bignum s v)) as R.
    { exists s, v. split; [done|]. split; [done|]. split; [done|]. split; [done|]. split; [|done]. intros ->. apply fits_false in Hf. change (2 ^ 59) with 576460752303423488 in Hf. unfold sval in Hf. pose proof (dval_range v Hv). lia. }
    exists (sval s v). split; [by apply (big_rep_not_nil _ _ R)|by apply big_rep_term].
Qed.
Lemma arith_typed z : well_typed (Some (arith_result z)).
Proof using.
  unfold arith_result, check_limit. destruct (bool_decide_reflect (integer_term z = NIL)) as [|Hn]; [by right|]. by apply wf_integer.
Qed.
(** The terms an operator may get. *)
Definition value (t : Eterm) : Prop := wf_term t \/ t = NIL.
Lemma value_cases t : value t -> (exists z, representable z /\ t = integer_term z) \/ t = NIL.
Proof using. intros [H| ->]; [left; by apply integer_wf|by right]. Qed.
Lemma wf_not_nil z : representable z -> (exists x, integer_term z = Small x) \/ (exists s v, integer_term z = Bignum s v).
Proof using. intros Hz. destruct (integer_cases z Hz) as [[_ ->]|(_ & s & v & -> & _)]; eauto. Qed.

Ltac not_number := repeat match goal with H : representable ?z |- _ => destruct (wf_not_nil z H) as [[? ->]|(? & ? & ->)]; clear H end.

Lemma integer_term_inj x y : representable x -> representable y -> integer_term x = integer_term y -> x = y.
Proof using.
  intros Hx Hy E. destruct (integer_cases x Hx) as [[_ Ex]|(_ & s & v & Ex & _ & (s1 & v1 & E1 & _ & _ & <- & _))], (integer_cases y Hy) as [[_ Ey]|(_ & s' & v' & Ey & _ & (s2 & v2 & E2 & _ & _ & <- & _))]; congruence.
Qed.
(** The operators of two arguments but [band], and those of one; [same]: both arguments of the
    product are the same object. *)
Definition binary_operators {M : DigitMacros} (same : bool) : list (Eterm -> Eterm -> option eresult) :=
  [erts_mixed_plus; erts_mixed_minus; erts_mixed_times same; intdiv_2; rem_2; bor_2; bxor_2; erts_bsl; erts_bsr].
Definition unary_operators {M : DigitMacros} : list (Eterm -> option eresult) := [erts_unary_minus; bnot_1].

Lemma operators_badarith same a b : value a -> value b -> a = NIL \/ b = NIL ->
  Forall (fun f => f a b = Some (inr BADARITH)) (band_2 :: binary_operators same).
Proof using.
  intros [(x & Hx & ->)| ->]%value_cases [(y & Hy & ->)| ->]%value_cases Hn; unfold binary_operators.
  - unfold representable in *. tauto.
  - not_number; repeat constructor.
  - repeat apply Forall_cons_2; try apply Forall_nil_2; unfold intdiv_2, rem_2; try destruct (bool_decide (integer_term y = Small 0)); not_number; try done;
      match goal with neg : bool |- _ => by destruct neg end.
  - repeat constructor.
Qed.
(** C21: the operators keep the invariant of terms: for all values each one returns, with a
    well-formed term of an integer or with one of the errors [badarith] and [system_limit].
    The one exception is [band] of two integers whose result is -2^(64 * BIG_ARITY_MAX), the
    only one it has no term for, where it gives the empty list.  Every operator, [band]
    included, gives [badarith] when an argument is not a number. *)
Theorem operators_well_typed same a b : value a -> value b -> (same = true -> a = b) ->
  Forall (fun f => well_typed (f a b)) (binary_operators same) /\
  (well_typed (band_2 a b) \/
   exists x y, a = integer_term x /\ b = integer_term y /\ Z.land x y = - 2 ^ (64 * BIG_ARITY_MAX) /\ band_2 a b = Some (inl NIL)) /\
  Forall (fun f => well_typed (f a)) unary_operators /\
  (a = NIL \/ b = NIL -> Forall (fun f => f a b = Some (inr BADARITH)) (band_2 :: binary_operators same)) /\
  (a = NIL -> Forall (fun f => f a = Some (inr BADARITH)) unary_operators).
Proof using L.
  intros Va Vb Hs. pose proof (operators_badarith same a b Va Vb) as Hbad. enough (Hall : (Forall (fun f => well_typed (f a b)) (binary_operators same) /\ (well_typed (band_2 a b) \/
    exists x y, a = integer_term x /\ b = integer_term y /\ Z.land x y = - 2 ^ (64 * BIG_ARITY_MAX) /\ band_2 a b = Some (inl NIL))) /\
    Forall (fun f => well_typed (f a)) unary_operators).
  { destruct Hall as [[H1 H2] H3]. split; [exact H1|]. split; [exact H2|]. split; [exact H3|]. split; [exact Hbad|]. intros ->. repeat constructor. }
  assert (forall f, f a b = Some (inr BADARITH) -> well_typed (f a b)) as Herr by (intros f ->; by left).
  pose proof Va as [(x & Hx & ->)| ->]%value_cases.
  2: { specialize (Hbad (or_introl eq_refl)). apply Forall_cons_1 in Hbad as [Hband Hbad]. split; [|repeat constructor].
       split; [eapply Forall_impl; [|exact Hbad]; exact Herr|left; by apply Herr]. }
  assert (Forall (fun f => well_typed (f (integer_term x))) unary_operators) as Hun.
  { destruct (bits_ok x x Hx Hx) as (_ & _ & _ & _ & Enot). repeat constructor; [rewrite erts_unary_minus_ok by done|rewrite Enot; apply arith_typed]. by apply wf_integer, opp_representable. }
  split; [|exact Hun]. pose proof Vb as [(y & Hy & ->)| ->]%value_cases.
  2: { specialize (Hbad (or_intror eq_refl)). apply Forall_cons_1 in Hbad as [Hband Hbad].
       split; [eapply Forall_impl; [|exact Hbad]; exact Herr|left; by apply Herr]. }
  assert (same = true -> x = y) as Hxy by (intros E; apply integer_term_inj; auto).
  destruct (mixed_ok x y same Hx Hy Hxy) as (E1 & E2 & E3), (div_rem_ok x y Hx Hy) as [E4 E5], (bits_ok x y Hx Hy) as (E6 & E7 & Hor & E8 & _), (shift_ok x y Hx Hy) as [E9 E10]. split.
  - pose proof arith_typed. pose proof (wf_integer _ Hor). unfold binary_operators. repeat apply Forall_cons_2; rewrite ?E1, ?E2, ?E3, ?E4, ?E5, ?E7, ?E8, ?E9, ?E10; try done; try apply Forall_nil_2;
      (destruct (Z.eqb_spec y 0); [by left|]); destruct (quot_representable x y Hx ltac:(done)); by apply wf_integer.
  - rewrite E6, <- LIMIT_eq. pose proof (land_cases x y Hx Hy) as Hc. destruct (bool_decide_reflect (Z.land x y = - LIMIT)) as [E|E]; [|left; exact (wf_integer _ Hc)].
    right. exists x, y. destruct Hc as (_ & _ & ->). split; [reflexivity|]. split; [reflexivity|]. split; [exact E|reflexivity].
Qed.
End Laws.


(** ** Concrete inputs *)

Lemma erts_mixed_arithmetic_witness :
  erts_mixed_plus (Small MAX_SMALL) (Small 1) = Some (inl (Bignum false [2 ^ 59])) /\
  erts_mixed_minus (Small MAX_SMALL) (Small 1) = Some (inl (Small (2 ^ 59 - 2))) /\
  erts_mixed_times false (Small MAX_SMALL) (Small 1) = Some (inl (Small MAX_SMALL)) /\
  erts_mul_add false (Small MAX_SMALL) (Small 1) (Small 1) = Some (inl (Bignum false [2 ^ 59])) /\
  erts_unary_minus (Small MAX_SMALL) = Some (inl (Small (- MAX_SMALL))) /\ representable (- MAX_SMALL).
Proof. apply (erts_mixed_arithmetic MAX_SMALL 1 1 false); done. Defined.
Lemma div_rem_operators_witness :
  exists q r, MIN_SMALL = q * -1 + r /\ Z.abs r < Z.abs (-1) /\ 0 <= MIN_SMALL * r /\ representable q /\ representable r /\
    intdiv_2 (Small MIN_SMALL) (Small (-1)) = Some (inl (integer_term q)) /\
    rem_2 (Small MIN_SMALL) (Small (-1)) = Some (inl (integer_term r)).
Proof. apply (div_rem_operators MIN_SMALL (-1)); done. Defined.
Lemma bit_operators_witness :
  band_2 (Bignum true [2 ^ 60]) (Small 5) = Some (inl (Small 0)) /\
  bor_2 (Bignum true [2 ^ 60]) (Small 5) = Some (inl (Bignum true [2 ^ 60 - 5])) /\ representable (Z.lor (- 2 ^ 60) 5) /\
  bxor_2 (Bignum true [2 ^ 60]) (Small 5) = Some (inl (Bignum true [2 ^ 60 - 5])) /\
  bnot_1 (Bignum true [2 ^ 60]) = Some (inl (Bignum false [2 ^ 60 - 1])).
Proof.
  assert (representable (- 2 ^ 60) /\ representable 5) as [Ra Rb] by done. assert (Z.land (- 2 ^ 60) 5 = 0) as E by done.
  destruct (bit_operators (- 2 ^ 60) 5 Ra Rb) as [Hand H]. split; [|exact H]. rewrite E in Hand. rewrite bool_decide_eq_false_2 in Hand; [apply Hand|].
  rewrite <- LIMIT_eq. destruct LIMIT_exp as (n & Hn & ->). pose proof (Z.pow_pos_nonneg 2 n). lia.
Defined.
Lemma operators_well_typed_witness :
  let a := Bignum true [0; 1] in let b := NIL in
  Forall (fun f => well_typed (f a b)) (binary_operators false) /\
  (well_typed (band_2 a b) \/
   exists x y, a = integer_term x /\ b = integer_term y /\ Z.land x y = - 2 ^ (64 * BIG_ARITY_MAX) /\ band_2 a b = Some (inl NIL)) /\
  Forall (fun f => well_typed (f a)) unary_operators /\
  (a = NIL \/ b = NIL -> Forall (fun f => f a b = Some (inr BADARITH)) (band_2 :: binary_operators false)) /\
  (a = NIL -> Forall (fun f => f a = Some (inr BADARITH)) unary_operators).
Proof. apply (operators_well_typed false (Bignum true [0; 1]) NIL); [left; apply wf_big; [apply digits_cons; split; [done|]; apply digits_cons; split; [done|constructor]|split; done|done|done]|by right|done]. Defined.
Lemma shift_operators_witness :
  erts_bsl (Small (-3)) (Small 64) = Some (inl (Bignum true [0; 3])) /\
  erts_bsr (Small (-3)) (Small 64) = Some (inl (Small (-1))).
Proof. apply (shift_operators (-3) 64); done. Defined.
