(* ===== verification/BigExt.v ===== *)
(** * Integers between emulator and C nodes: [erts/emulator/beam/external.c]

    The parts of [enc_term], [dec_term], [decoded_size] and the size functions that deal
    with integers, and how they fit the functions of [erl_interface] on the other side of
    the connection. *)
From S2P Require Import Prelude PutGet EiTypes EiInt EiBig Packet BigDigit BigNat BigBits BigTerm BigArith.

(** ** The code *)

Definition SMALL_INTEGER_EXT : Z := 97.
Definition INTEGER_EXT : Z := 98.
Definition SMALL_BIG_EXT : Z := 110.
Definition LARGE_BIG_EXT : Z := 111.

Definition IS_SSMALL32 (x : Z) : bool := wrapu 64 (Z.shiftr x (32 - 1) + 1) <? 2.

(** The case [SMALL_DEF] of [enc_term_int]: the bytes that are written at [ep]. *)
Definition enc_small (val : Z) : option (list Z) :=
  if wrapu 64 val <? 256 then Some [SMALL_INTEGER_EXT; Z.land val 255]
  else if IS_SSMALL32 val then Some (INTEGER_EXT :: be_bytes 4 val)
  else
    let big := small_to_big val in
    n ← big_bytes big;
    '(sign, _) ← big_val big;
    digits ← big_to_bytes big;
    Some ([SMALL_BIG_EXT; Z.land n 255; b2z sign] ++ digits).
(** The case [BIG_DEF]. *)
Definition enc_big (obj : Eterm) : option (list Z) :=
  '(sign, _) ← big_val obj;
  n ← big_bytes obj;
  digits ← big_to_bytes obj;
  Some ((if n <? 256 then [SMALL_BIG_EXT; Z.land n 255] else LARGE_BIG_EXT :: be_bytes 4 n) ++ b2z sign :: digits).
Definition enc_integer (obj : Eterm) : option (list Z) :=
  match obj with Small val => enc_small val | Bignum _ _ => enc_big obj | NIL => None end.

Definition encode_small_size (val : Z) : option Z :=
  if wrapu 64 val <? 256 then Some (1 + 1)
  else if IS_SSMALL32 val then Some (1 + 4)
  else i ← big_bytes (small_to_big val); Some (1 + 1 + 1 + i).
(** The two cases of [encode_size_struct_int]. *)
Definition encode_integer_size (obj : Eterm) : option Z :=
  match obj with
  | Small val => encode_small_size val
  | Bignum _ _ => i ← big_bytes obj; Some (if i <? 256 then 1 + 1 + 1 + i else 1 + 4 + 1 + i)
  | NIL => None
  end.

(** [do { --last; } while (first <= last && *last == 0);]: the bytes that are left. *)
Fixpoint strip (l : list Z) : list Z :=
  match l with
  | [] => []
  | b :: l => match strip l with [] => if b =? 0 then [] else [b] | l => b :: l end
  end.

(** A term and what is behind it, the label [error], or a tag that is no integer's. *)
Inductive decoded {A : Type} : Type :=
  | Decoded (t : A) (ep : list Z)
  | Decode_error
  | Not_integer.
Arguments decoded : clear implicits.

(** [None] is a read behind the bytes. *)
Definition big_loop (n : Z) (ep : list Z) : option (decoded Eterm) :=
  neg ← get_int8 ep;
  let ep := drop 1 ep in
  if zlen ep <? n then None
  else
    let bytes := strip (take (Z.to_nat n) ep) in
    let ep := drop (Z.to_nat n) ep in
    Some (match bytes with
          | [] => Decoded (Small 0) ep
          | _ => match bytes_to_big bytes (negb (neg =? 0)) with NIL => Decode_error | big => Decoded big ep end
          end).
(** The four cases of [dec_term]. *)
Definition dec_integer (ep : list Z) : option (decoded Eterm) :=
  tag ← get_int8 ep;
  let ep := drop 1 ep in
  if tag =? INTEGER_EXT then n ← get_int32 ep; Some (Decoded (Small (wraps 32 n)) (drop 4 ep))
  else if tag =? SMALL_INTEGER_EXT then n ← get_int8 ep; Some (Decoded (Small n) (drop 1 ep))
  else if tag =? SMALL_BIG_EXT then n ← get_int8 ep; big_loop n (drop 1 ep)
  else if tag =? LARGE_BIG_EXT then n ← get_int32 ep; big_loop (wraps 32 n) (drop 4 ep)
  else Some Not_integer.

(** The four cases of [decoded_size], with the words on the heap; [CHKSIZE], [SKIP] and
    [SKIP2] compare with the bytes that are left. *)
Definition SKIP2 (sz1 sz2 : Z) (ep : list Z) : option (list Z) :=
  let sz := sz1 + sz2 in
  if (sz1 <? sz) && (sz <=? zlen ep) then Some (drop (Z.to_nat sz) ep) else None.
Definition decoded_integer_size (ep : list Z) : decoded Z :=
  let big extra n head ep :=
    match SKIP2 n (head + 1) ep with
    | Some ep => Decoded (extra + (n + 8 - 1) / 8) ep
    | None => Decode_error
    end in
  match ep with
  | [] => Decode_error
  | tag :: ep =>
      if tag =? INTEGER_EXT then if 4 <=? zlen ep then Decoded 0 (drop 4 ep) else Decode_error
      else if tag =? SMALL_INTEGER_EXT then if 1 <=? zlen ep then Decoded 0 (drop 1 ep) else Decode_error
      else if tag =? SMALL_BIG_EXT then
        match get_int8 ep with None => Decode_error | Some n => big 1 n 1 ep end
      else if tag =? LARGE_BIG_EXT then
        match get_int32 ep with
        | None => Decode_error
        | Some n => if BIG_ARITY_MAX * 8 <? n then Decode_error else big 2 n 4 ep
        end
      else Not_integer
  end.

(** The words a term has on the heap. *)
Definition heap_words (t : Eterm) : Z := match t with Bignum _ v => 1 + zlen v | _ => 0 end.

(** ** The bytes of an integer *)

Lemma IS_SSMALL32_ok x : - 2 ^ 62 <= x < 2 ^ 62 -> IS_SSMALL32 x = ((- 2 ^ 31 <=? x) && (x <? 2 ^ 31)).
Proof.
  change (2 ^ 62) with 4611686018427387904. intros Hx. unfold IS_SSMALL32. rewrite Z.shiftr_div_pow2 by lia. change (2 ^ (32 - 1)) with 2147483648. change (- 2 ^ 31) with (-2147483648). change (2 ^ 31) with 2147483648.
  set (q := x / 2147483648). pose proof (Z.div_mod x 2147483648 ltac:(lia)) as E. pose proof (Z.mod_pos_bound x 2147483648 ltac:(lia)). fold q in E. assert (-2147483648 <= q <= 2147483648) as Hq by lia.
  destruct (Z.leb_spec (-2147483648) x), (Z.ltb_spec x 2147483648); cbn [andb]; try lia.
  - assert (0 <= q + 1 < 2) by lia. rewrite wrapu64_small by dig. apply Z.ltb_lt. lia.
  - rewrite wrapu64_small by dig. apply Z.ltb_ge. lia.
  - assert (wrapu 64 (q + 1) = q + 1 + DB) as -> by (unfold wrapu; symmetry; apply (Z.mod_unique _ _ (-1)); change (2 ^ 64) with DB; lia). apply Z.ltb_ge. lia.
Qed.

Lemma le_val_low bs : bytes_ok bs -> bs <> [] -> list.last bs <> Some 0 -> 256 ^ Z.of_nat (length bs - 1) <= le_val bs.
Proof.
  intros Hb Hne Hl. destruct bs as [|b bs _] using rev_ind; [done|]. rewrite last_snoc in Hl. rewrite length_app, le_val_app. cbn [length le_val]. replace (length bs + 1 - 1)%nat with (length bs) by lia.
  apply Forall_app in Hb as [Hb [Hb0 _]%Forall_cons_iff]. pose proof (le_val_nonneg bs Hb). assert (1 <= b) as Hb1 by (unfold byte_ok in Hb0; destruct (decide (b = 0)) as [->|]; [done|lia]).
  rewrite Z.mul_0_r, Z.add_0_r. pose proof (Z.pow_pos_nonneg 256 (Z.of_nat (length bs)) ltac:(lia) ltac:(lia)). nia.
Qed.
(** The size of the bytes of a number of at most [k] digits. *)
Lemma bytes_size bs k : bytes_ok bs -> bs <> [] -> list.last bs <> Some 0 -> le_val bs < DB ^ Z.of_nat k -> (length bs <= 8 * k)%nat.
Proof.
  intros Hb Hne Hl Hv. pose proof (le_val_low bs Hb Hne Hl) as Hlow. change DB with (256 ^ 8) in Hv. rewrite <- Z.pow_mul_r in Hv by lia.
  destruct (Nat.le_gt_cases (length bs) (8 * k)) as [|Hgt]; [done|]. exfalso. pose proof (Z.pow_le_mono_r 256 (8 * Z.of_nat k) (Z.of_nat (length bs - 1)) ltac:(lia) ltac:(lia)). lia.
Qed.
Lemma byte_len n : 0 <= n < 256 -> Z.land n 255 = n.
Proof. intros Hn. by apply land_255_small. Qed.

Lemma digits_len bs z : bytes_ok bs -> bs <> [] -> list.last bs <> Some 0 -> le_val bs = Z.abs z -> representable z -> zlen bs <= BIG_ARITY_MAX * 8.
Proof.
  intros Hb Hne Hl Hv Hz%representable_iff. rewrite LIMIT_pow, <- Hv in Hz. pose proof (bytes_size bs _ Hb Hne Hl Hz) as H. pose proof arity_pos. unfold zlen. lia.
Qed.
Lemma last_nonempty (bs : list Z) v : le_val bs = v -> v <> 0 -> bs <> [].
Proof. intros E Hv ->. by rewrite <- E in Hv. Qed.

(** The encoder writes an integer of the external format with its value. *)
Lemma enc_integer_ext z : representable z ->
  exists e, enc_integer (integer_term z) = Some (int_ext_bytes e) /\ encode_integer_size (integer_term z) = Some (zlen (int_ext_bytes e)) /\
    int_ext_ok e /\ int_ext_val e = z /\ match e with LargeBig _ ds => zlen ds <= BIG_ARITY_MAX * 8 | _ => True end /\ (0 <= z -> int_ext_sign e = 0).
Proof.
  intros Hz. destruct (integer_cases z Hz) as [[R E]|(F%fits_false & s & v & E & -> & R)]; rewrite E; cbn [enc_integer encode_integer_size].
  - rewrite max_small, min_small in R. unfold enc_small, encode_small_size. destruct (Z.ltb_spec (wrapu 64 z) 256) as [Hs|Hs].
    { assert (0 <= z < 256) as Hz256. { unfold wrapu in Hs. change (2 ^ 64) with DB in Hs. destruct (Z.lt_ge_cases z 0); [|rewrite Z.mod_small in Hs by lia; lia]. assert (z mod DB = z + DB) as Em by (symmetry; apply (Z.mod_unique _ _ (-1)); lia). lia. }
      exists (SmallInt z). cbn [int_ext_bytes int_ext_ok int_ext_val]. rewrite byte_len by lia. done. }
    rewrite IS_SSMALL32_ok by (change (2 ^ 62) with 4611686018427387904; lia). destruct (_ && _) eqn:E32.
    { exists (Int32 z). cbn [int_ext_bytes int_ext_ok int_ext_val]. split; [done|]. split; [done|]. split; [|done]. apply andb_true_iff in E32 as [?%Z.leb_le ?%Z.ltb_lt]. unfold in_s. change (2 ^ (32 - 1)) with (2 ^ 31). lia. }
    assert (z <> 0) as Hz0 by (intros ->; by vm_compute in E32). destruct (big_bytes_roundtrip z (small_to_big z)) as (bs & Eb & -> & Hb & Hv & Hl & _); [apply small_big; rewrite max_small, min_small; lia|done|].
    pose proof (last_nonempty bs _ Hv ltac:(lia)) as Hne. pose proof (bytes_size bs 1 Hb Hne Hl) as Hlen. change (DB ^ Z.of_nat 1) with DB in Hlen. specialize (Hlen ltac:(lia)).
    assert (exists v, big_val (small_to_big z) = Some (z <? 0, v)) as (v & ->). { unfold small_to_big. rewrite Z.leb_antisym. destruct (z <? 0); by eexists. }
    cbn [mbind option_bind]. rewrite Eb. cbn [mbind option_bind]. exists (SmallBig (b2z (z <? 0)) bs). cbn [int_ext_bytes int_ext_ok int_ext_val]. rewrite byte_len by (unfold zlen; lia). split; [done|]. split; [f_equal; zlen_lia|]. rewrite Hv.
    split; [split; [by destruct (z <? 0)|]; split; [done|unfold zlen; lia]|]. split; [destruct (Z.ltb_spec z 0); cbn; lia|]. split; [done|]. intros Hz'. cbn. destruct (Z.ltb_spec z 0); [lia|done].
  - change (2 ^ 59) with 576460752303423488 in F. destruct (big_bytes_roundtrip z _ R) as (bs & Eb & En & Hb & Hv & Hl & _); [lia|]. pose proof (last_nonempty bs _ Hv ltac:(lia)) as Hne. pose proof (digits_len bs z Hb Hne Hl Hv Hz) as Hlen.
    unfold enc_big. cbn [big_val mbind option_bind]. rewrite En. cbn [mbind option_bind]. rewrite Eb. cbn [mbind option_bind]. assert (byte_ok (b2z (z <? 0))) as Hsign by (by destruct (z <? 0)). assert (0 <= z -> b2z (z <? 0) = 0) as Hpos by (intros; by rewrite (proj2 (Z.ltb_ge z 0))). assert ((if b2z (z <? 0) =? 0 then le_val bs else - le_val bs) = z) as Hval by (rewrite Hv; destruct (Z.ltb_spec z 0); cbn; lia).
    destruct (Z.ltb_spec (zlen bs) 256).
    + exists (SmallBig (b2z (z <? 0)) bs). cbn [int_ext_bytes int_ext_ok int_ext_val app]. rewrite byte_len by zlen_lia. split; [done|]. split; [f_equal; zlen_lia|]. parts.
    + exists (LargeBig (b2z (z <? 0)) bs). cbn [int_ext_bytes int_ext_ok int_ext_val app]. split; [done|]. split; [f_equal; zlen_lia|]. split; [|done]. split; [done|]. split; [done|]. assert (BIG_ARITY_MAX * 8 < 2 ^ 31) by done. lia.
Qed.

(** ** Reading them back *)

Lemma strip_ok l : bytes_ok l -> bytes_ok (strip l) /\ le_val (strip l) = le_val l /\ (length (strip l) <= length l)%nat /\ list.last (strip l) <> Some 0.
Proof.
  induction 1 as [|b l Hb Hl (H1 & H2 & H3 & H4)]; cbn [strip]; [done|]. destruct (strip l) as [|c r] eqn:E.
  - cbn [le_val] in *. destruct (Z.eqb_spec b 0) as [->|]; [cbn [le_val length]; repeat split; [done|lia|lia|done]|]. repeat split; [by constructor|cbn [le_val]; lia|cbn [length]; lia|cbn; congruence].
  - repeat split; [by constructor|cbn [le_val] in *; lia|cbn [length] in *; lia|]. by cbn [list.last].
Qed.
(** [big_loop] behind the size. *)
Lemma big_loop_ok neg ds rest : byte_ok neg -> bytes_ok ds ->
  big_loop (zlen ds) (neg :: ds ++ rest) =
  Some (match integer_term (if neg =? 0 then le_val ds else - le_val ds) with NIL => Decode_error | t => Decoded t rest end).
Proof.
  intros Hn Hd. unfold big_loop. cbn [get_int8 head hd_error mbind option_bind drop skipn]. rewrite ?drop_0. rewrite (proj2 (Z.ltb_ge (zlen (ds ++ rest)) (zlen ds))) by zlen_lia. unfold zlen. rewrite Nat2Z.id, take_app_length, drop_app_length.
  destruct (strip_ok ds Hd) as (H1 & H2 & _ & H4). rewrite <- H2. destruct (strip ds) as [|b bs] eqn:E; [by destruct (neg =? 0)|]. rewrite bytes_to_big_ok by done. by destruct (neg =? 0).
Qed.
Lemma be32_read n rest : get_int32 (be_bytes 4 n ++ rest) = Some (wrapu 32 n).
Proof.
  pose proof (be_val_bytes 4 n) as Hv. pose proof (be_bytes_ok 4 n) as Hok. destruct (be_bytes 4 n) as [|a [|b [|c [|d [|]]]]] eqn:E; try done. cbn [app get_int32]. change (8 * Z.of_nat 4) with 32 in Hv.
  rewrite <- Hv, <- be32_val; [done|..]; repeat match goal with H : Forall _ (_ :: _) |- _ => inversion_clear H end; done.
Qed.
Lemma dec_integer_ext e rest : int_ext_ok e ->
  dec_integer (int_ext_bytes e ++ rest) = Some (match integer_term (int_ext_val e) with NIL => Decode_error | t => Decoded t rest end).
Proof.
  intros He. destruct e as [n|n|neg ds|neg ds]; cbn [int_ext_ok int_ext_bytes int_ext_val app] in *.
  - unfold byte_ok in He. rewrite integer_term_small by (apply fits_iff; rewrite max_small, min_small; lia). done.
  - unfold in_s in He. change (2 ^ (32 - 1)) with 2147483648 in He. rewrite integer_term_small by (apply fits_iff; rewrite max_small, min_small; lia). unfold dec_integer. cbn [get_int8 head hd_error mbind option_bind drop skipn]. rewrite ?drop_0.
    rewrite be32_read. change (ERL_INTEGER_EXT =? INTEGER_EXT) with true. cbn match. cbn [mbind option_bind]. rewrite wraps_wrapu, wraps_small by (done || (unfold in_s; change (2 ^ (32 - 1)) with 2147483648; lia)). do 2 f_equal.
  - destruct He as (Hn & Hd & Hl). unfold dec_integer. cbn [get_int8 head hd_error mbind option_bind drop skipn]. rewrite ?drop_0. change (ERL_SMALL_BIG_EXT =? INTEGER_EXT) with false. cbn match. by apply big_loop_ok.
  - destruct He as (Hn & Hd & Hl). unfold dec_integer. cbn [get_int8 head hd_error mbind option_bind drop skipn]. rewrite ?drop_0. change (ERL_LARGE_BIG_EXT =? INTEGER_EXT) with false. cbn match.
    rewrite <- app_assoc, be32_read. cbn [mbind option_bind]. change (drop 4 (be_bytes 4 (zlen ds) ++ (neg :: ds) ++ rest)) with (neg :: ds ++ rest).
    pose proof (zlen_nonneg ds). rewrite wraps_wrapu, wraps_small by (done || (unfold in_s; change (2 ^ (32 - 1)) with (2 ^ 31); lia)). by apply big_loop_ok.
Qed.

(** ** What the size check allows *)

(** A number of [k] digits has a term that fits [k + 1] words. *)
Lemma term_words z k : Z.abs z < DB ^ k -> 0 <= k <= BIG_ARITY_MAX -> representable z /\ heap_words (integer_term z) <= 1 + k.
Proof.
  intros Hz Hk. assert (representable z) as R. { apply representable_iff. rewrite LIMIT_pow, Z2Nat.id by lia. eapply Z.lt_le_trans; [exact Hz|]. apply Z.pow_le_mono_r; lia. }
  split; [done|]. destruct (integer_cases z R) as [[_ ->]|(F%fits_false & s & v & -> & -> & (s' & v' & [= <- <-] & Hv & Nv & Ev & _ & _))]; [cbn; lia|]. cbn [heap_words].
  destruct (decide (k = 0)) as [->|]; [change (2 ^ 59) with 576460752303423488 in F; change (DB ^ 0) with 1 in Hz; lia|].
  pose proof (normal_size v (Z.to_nat k) Hv Nv) as Hl. rewrite Z2Nat.id in Hl by lia. unfold zlen. assert (dval v = Z.abs z) as E by (pose proof (dval_range v Hv); unfold sval in Ev; destruct (z <? 0); lia). specialize (Hl ltac:(lia) ltac:(lia)). lia.
Qed.
Lemma bytes_words ds (neg : bool) : bytes_ok ds -> zlen ds <= BIG_ARITY_MAX * 8 ->
  representable (if neg then - le_val ds else le_val ds) /\ heap_words (integer_term (if neg then - le_val ds else le_val ds)) <= 1 + (zlen ds + 8 - 1) / 8.
Proof.
  intros Hd Hl. pose proof (le_val_range ds Hd) as Hr. pose proof (zlen_nonneg ds). pose proof (Z.div_mod (zlen ds + 8 - 1) 8 ltac:(lia)) as E. pose proof (Z.mod_pos_bound (zlen ds + 8 - 1) 8 ltac:(lia)). set (k := (zlen ds + 8 - 1) / 8) in *. clearbody k.
  apply term_words; [|lia]. change DB with (256 ^ 8). rewrite <- Z.pow_mul_r by lia. fold (zlen ds) in Hr. pose proof (Z.pow_le_mono_r 256 (zlen ds) (8 * k) ltac:(lia) ltac:(lia)). destruct neg; lia.
Qed.
Lemma decoded_term z rest : representable z -> match integer_term z with NIL => Decode_error | t => Decoded t rest end = Decoded (integer_term z) rest.
Proof. intros Hz. unfold representable in Hz. by destruct (integer_term z). Qed.

(** [big_loop] behind [SKIP2]. *)
Lemma big_loop_safe n k ep rest h : bytes_ok ep -> 0 <= n <= BIG_ARITY_MAX * 8 -> 0 <= k -> SKIP2 n (k + 1) ep = Some rest -> 1 + (n + 8 - 1) / 8 <= h ->
  exists t, big_loop n (drop (Z.to_nat k) ep) = Some (Decoded t rest) /\ wf_term t /\ heap_words t <= h.
Proof.
  intros Hb Hn Hk Hs Hh. unfold SKIP2 in Hs. destruct (_ && _) eqn:E; [|done]. apply andb_true_iff in E as [_ Hlen%Z.leb_le]. injection Hs as <-. unfold zlen in Hlen.
  assert (bytes_ok (drop (Z.to_nat k) ep)) as Hb' by (by apply Forall_drop). destruct (drop (Z.to_nat k) ep) as [|neg tl] eqn:Ed; [apply (f_equal length) in Ed; rewrite length_drop in Ed; cbn in Ed; lia|]. apply Forall_cons_iff in Hb' as [Hneg Htl].
  assert (length tl = (length ep - Z.to_nat k - 1)%nat) as Hltl by (apply (f_equal length) in Ed; rewrite length_drop in Ed; cbn [length] in Ed; lia).
  assert (zlen (take (Z.to_nat n) tl) = n) as El by (unfold zlen; rewrite length_take; lia).
  assert (big_loop n (neg :: tl) = big_loop (zlen (take (Z.to_nat n) tl)) (neg :: take (Z.to_nat n) tl ++ drop (Z.to_nat n) tl)) as -> by (by rewrite El, take_drop). rewrite big_loop_ok by (done || by apply Forall_take).
  destruct (bytes_words (take (Z.to_nat n) tl) (negb (neg =? 0))) as [R W]; [by apply Forall_take|lia|]. rewrite El in W. replace (if neg =? 0 then _ else _) with (if negb (neg =? 0) then - le_val (take (Z.to_nat n) tl) else le_val (take (Z.to_nat n) tl)) by (by destruct (neg =? 0)).
  rewrite decoded_term by done. eexists. split; [do 2 f_equal|split; [by apply wf_integer|lia]].
  replace (drop (Z.to_nat n) tl) with (drop (1 + Z.to_nat n) (drop (Z.to_nat k) ep)) by (by rewrite Ed). rewrite drop_drop. f_equal. lia.
Qed.

(** C28: what the emulator accepts from a peer is safe: when [decoded_size] accepts the bytes
    of an integer, whatever they are, [dec_term] reads only bytes that were counted, ends
    where the size ends, succeeds with a well-formed term, and needs no more words of the
    heap than were counted. *)
Theorem decoded_integer_safe ep h rest : bytes_ok ep -> decoded_integer_size ep = Decoded h rest ->
  exists t, dec_integer ep = Some (Decoded t rest) /\ wf_term t /\ heap_words t <= h.
Proof.
  intros Hb Hs. unfold decoded_integer_size in Hs. destruct ep as [|tag ep]; [done|]. apply Forall_cons_iff in Hb as [_ Hb]. unfold dec_integer. cbn [get_int8 head hd_error mbind option_bind drop skipn]. rewrite ?drop_0.
  destruct (tag =? INTEGER_EXT); [|destruct (tag =? SMALL_INTEGER_EXT); [|destruct (tag =? SMALL_BIG_EXT); [|destruct (tag =? LARGE_BIG_EXT); [|done]]]].
  - destruct (Z.leb_spec 4 (zlen ep)) as [Hl|]; [|done]. injection Hs as <- <-. destruct (get_int32_some ep) as [x ->]; [unfold zlen in Hl; lia|]. cbn [mbind option_bind]. eexists. split; [done|]. split; [|done]. constructor. pose proof (wraps_range 32 x ltac:(lia)) as Hr. unfold in_s in Hr. change (2 ^ (32 - 1)) with 2147483648 in Hr. rewrite max_small, min_small. lia.
  - destruct (Z.leb_spec 1 (zlen ep)) as [Hl|]; [|done]. injection Hs as <- <-. destruct ep as [|n ep]; [done|]. apply Forall_cons_iff in Hb as [Hn _]. eexists. split; [done|]. split; [|done]. constructor. unfold byte_ok in Hn. rewrite max_small, min_small. lia.
  - destruct (get_int8 ep) as [n|] eqn:En; [|done]. cbn [mbind option_bind]. destruct (SKIP2 n (1 + 1) ep) as [r|] eqn:Es; [|done]. injection Hs as <- <-. assert (byte_ok n) as Hn by (destruct ep; [done|]; injection En as ->; by apply Forall_cons_iff in Hb as [? _]).
    apply (big_loop_safe n 1 ep r); [done| |lia|done|lia]. pose proof arity_pos. assert (256 <= BIG_ARITY_MAX * 8) by done. unfold byte_ok in Hn. lia.
  - destruct (get_int32 ep) as [n|] eqn:En; [|done]. cbn [mbind option_bind]. destruct (Z.ltb_spec (BIG_ARITY_MAX * 8) n) as [|Hmax]; [done|]. destruct (SKIP2 n (4 + 1) ep) as [r|] eqn:Es; [|done]. injection Hs as <- <-. pose proof (get_int32_nonneg ep n Hb En).
    assert (BIG_ARITY_MAX * 8 < 2 ^ 31) by done. rewrite wraps_small by (done || (unfold in_s; change (2 ^ (32 - 1)) with (2 ^ 31); lia)). apply (big_loop_safe n 4 ep r); [done|lia|lia|done|lia].
Qed.
Lemma decoded_integer_safe_witness :
  exists t, dec_integer [110; 3; 1; 0; 2; 0; 99] = Some (Decoded t [99]) /\ wf_term t /\ heap_words t <= 2.
Proof. apply (decoded_integer_safe [110; 3; 1; 0; 2; 0; 99] 2 [99]); [repeat constructor; done|reflexivity]. Defined.

(** ** Round trips *)

Lemma decoded_size_ext e rest : int_ext_ok e -> match e with LargeBig _ ds => zlen ds <= BIG_ARITY_MAX * 8 | _ => True end ->
  exists h, decoded_integer_size (int_ext_bytes e ++ rest) = Decoded h rest.
Proof.
  assert (forall (ds : list Z) k a l, zlen l = k -> 0 <= k -> SKIP2 (zlen ds) (k + 1) (l ++ a :: ds ++ rest) = Some rest) as Hskip.
  { intros ds k a l Hl Hk. unfold SKIP2. pose proof (zlen_nonneg ds). rewrite (proj2 (Z.ltb_lt _ _)) by lia. rewrite (proj2 (Z.leb_le _ _)) by (unfold zlen in *; rewrite length_app; cbn [length]; rewrite length_app; lia). cbn [andb]. f_equal.
    replace (l ++ a :: ds ++ rest) with ((l ++ a :: ds) ++ rest) by (by rewrite <- app_assoc). apply drop_app_length'. unfold zlen in *. rewrite length_app. cbn [length]. lia. }
  intros He Hl. destruct e as [n|n|neg ds|neg ds]; cbn [int_ext_ok int_ext_bytes app] in *; unfold decoded_integer_size.
  - eexists. change (ERL_SMALL_INTEGER_EXT =? INTEGER_EXT) with false. change (ERL_SMALL_INTEGER_EXT =? SMALL_INTEGER_EXT) with true. cbn match. rewrite (proj2 (Z.leb_le _ _)) by zlen_lia. reflexivity.
  - eexists. change (ERL_INTEGER_EXT =? INTEGER_EXT) with true. cbn match. rewrite (proj2 (Z.leb_le _ _)) by zlen_lia. reflexivity.
  - eexists. change (ERL_SMALL_BIG_EXT =? INTEGER_EXT) with false. change (ERL_SMALL_BIG_EXT =? SMALL_INTEGER_EXT) with false. change (ERL_SMALL_BIG_EXT =? SMALL_BIG_EXT) with true. cbn match. cbn [get_int8 head hd_error].
    change (zlen ds :: neg :: ds ++ rest) with ([zlen ds] ++ neg :: ds ++ rest). rewrite Hskip by done. reflexivity.
  - eexists. change (ERL_LARGE_BIG_EXT =? INTEGER_EXT) with false. change (ERL_LARGE_BIG_EXT =? SMALL_INTEGER_EXT) with false. change (ERL_LARGE_BIG_EXT =? SMALL_BIG_EXT) with false. change (ERL_LARGE_BIG_EXT =? LARGE_BIG_EXT) with true. cbn match.
    rewrite <- app_assoc. cbn [app]. destruct He as (_ & _ & Hlen). pose proof (zlen_nonneg ds). assert (2 ^ 31 < 2 ^ 32) by done. rewrite get_int32_be by lia. rewrite (proj2 (Z.ltb_ge _ _)) by lia. rewrite Hskip by done. reflexivity.
Qed.

(** C29: every integer that has a term is written in the external format, with the number of
    bytes that was announced, and read back as the same term from in front of anything;
    the check of the size accepts it. *)
Theorem integer_external_roundtrip z rest : representable z ->
  exists bs h, enc_integer (integer_term z) = Some bs /\ encode_integer_size (integer_term z) = Some (zlen bs) /\
    decoded_integer_size (bs ++ rest) = Decoded h rest /\ dec_integer (bs ++ rest) = Some (Decoded (integer_term z) rest).
Proof.
  intros Hz. destruct (enc_integer_ext z Hz) as (e & He & Hs & Hok & Hv & Hl & _). destruct (decoded_size_ext e rest Hok Hl) as [h Hh]. exists (int_ext_bytes e), h.
  repeat (split; [done|]). by rewrite dec_integer_ext, Hv, decoded_term.
Qed.
Lemma integer_external_roundtrip_witness :
  exists bs h, enc_integer (Bignum true [5; 1]) = Some bs /\ encode_integer_size (Bignum true [5; 1]) = Some (zlen bs) /\
    decoded_integer_size (bs ++ [7]) = Decoded h [7] /\ dec_integer (bs ++ [7]) = Some (Decoded (Bignum true [5; 1]) [7]).
Proof. apply (integer_external_roundtrip (- (2 ^ 64 + 5)) [7]). done. Defined.

(** C30: integers cross between emulator and C node.  What the emulator writes is read by
    [ei_decode_longlong] and [ei_decode_ulonglong] as the same number when it is in their
    range and refused otherwise, and what [ei_encode_longlong] wrote is read by the
    emulator as the term of the same number. *)
Theorem integers_cross_nodes z p : representable z -> in_s 64 p ->
  (exists bs, enc_integer (integer_term z) = Some bs /\ forall m s, holds m s bs ->
     ei_decode_longlong m s = (if in_range (- 2 ^ 63) (2 ^ 63 - 1) z then DOk z (s + zlen bs) else DErr s) /\
     ei_decode_ulonglong m s = (if in_range 0 (2 ^ 64 - 1) z then DOk z (s + zlen bs) else DErr s)) /\
  (forall m i m' j, 0 <= i -> ei_encode_longlong (Some m) i p = EOk (Some m') j ->
     dec_integer (drop (Z.to_nat i) m') = Some (Decoded (integer_term p) (drop (Z.to_nat j) m'))).
Proof.
  intros Hz Hp. split.
  - destruct (enc_integer_ext z Hz) as (e & He & _ & Hok & Hv & _ & Hs). exists (int_ext_bytes e). split; [done|]. intros m s Hh. rewrite ei_decode_longlong_dispatch, ei_decode_ulonglong_dispatch, (signed_decoder_spec 8 e), (unsigned_decoder_spec 8 e), Hv by auto. split; [done|].
    destruct (Z.lt_ge_cases z 0); [|by rewrite Hs]. assert (in_range 0 (2 ^ (8 * 8) - 1) z = false) as -> by (destruct (in_range _ _ z) eqn:E; [apply in_range_iff in E; lia|done]). rewrite andb_false_r.
    assert (in_range 0 (2 ^ 64 - 1) z = false) as -> by (destruct (in_range 0 (2 ^ 64 - 1) z) eqn:E; [apply in_range_iff in E; lia|done]). done.
  - intros m i m' j Hi E. rewrite (emits_buf (Emits := ei_encode_longlong_emits p)) in E. apply emit_ok in E as (m'' & [= <-] & -> & (pre & post & -> & Hpre) & _). destruct (longlong_ext_of p Hp) as (<- & Hv & Hok).
    unfold zlen in Hpre. replace (Z.to_nat i) with (length pre) by lia. rewrite drop_app_length. rewrite dec_integer_ext, Hv by done. rewrite decoded_term. 2:{ unfold in_s in Hp. apply (term_words p 1); [change (DB ^ 1) with DB; change (2 ^ (64 - 1)) with 9223372036854775808 in Hp; lia|done]. }
    do 2 f_equal. rewrite app_assoc. symmetry. apply drop_app_length'. unfold zlen. rewrite length_app. lia.
Qed.
Lemma integers_cross_nodes_witness :
  (exists bs, enc_integer (Small (-300)) = Some bs /\ forall m s, holds m s bs ->
     ei_decode_longlong m s = DOk (-300) (s + zlen bs) /\ ei_decode_ulonglong m s = DErr s) /\
  (forall m i m' j, 0 <= i -> ei_encode_longlong (Some m) i (2 ^ 60) = EOk (Some m') j ->
     dec_integer (drop (Z.to_nat i) m') = Some (Decoded (Bignum false [2 ^ 60]) (drop (Z.to_nat j) m'))).
Proof. apply (integers_cross_nodes (-300) (2 ^ 60)); [done|unfold in_s; lia]. Defined.

(** [ei_decode_bignum] stores the 32-bit form with [mpz_set_ui], so that a negative integer
    of the emulator becomes a large positive one. *)
Lemma bignum_negative_misread (G : Gmp) :
  enc_integer (Small (-1)) = Some [98; 255; 255; 255; 255] /\
  exists n, ei_decode_bignum [98; 255; 255; 255; 255] 0 = DOk n 5 /\ mpz_val n = 2 ^ 64 - 1.
Proof. split; [done|]. exists (mpz_set_ui (2 ^ 64 - 1)). split; [done|]. apply mpz_set_ui_val. unfold in_u. lia. Qed.
