(* ===== verification/BigText.v ===== *)
(** * Integers as text, digit by digit: [erts/emulator/beam/big.c]

    [write_big_simple], which writes a number in a base of 2 to 36 by dividing by the
    largest power of the base that fits a word, and the tables it uses.  Characters are
    written from the end of a buffer towards its beginning; the buffer is the list of
    those that are there already, with the last one written in front. *)
From S2P Require Import Prelude PutGet BigDigit BigNat.

(** ** The code *)

Definition digits_per_sint_lookup : list Z :=
  [62; 38; 30; 26; 23; 21; 20; 18; 17; 17; 16; 16; 15; 15; 14; 14; 14; 13; 13;
   13; 13; 12; 12; 12; 12; 12; 12; 11; 11; 11; 11; 11; 11; 11; 11].
Definition digits_per_small_lookup : list Z :=
  [59; 37; 29; 25; 22; 21; 19; 18; 17; 17; 16; 15; 15; 15; 14; 14; 14; 13; 13;
   13; 13; 13; 12; 12; 12; 12; 12; 12; 12; 11; 11; 11; 11; 11; 11].
Definition largest_power_of_base_lookup : list Z :=
  [4611686018427387904; 1350851717672992089; 1152921504606846976;
   1490116119384765625; 789730223053602816; 558545864083284007;
   1152921504606846976; 150094635296999121; 100000000000000000;
   505447028499293771; 184884258895036416; 665416609183179841;
   155568095557812224; 437893890380859375; 72057594037927936;
   168377826559400929; 374813367582081024; 42052983462257059;
   81920000000000000; 154472377739119461; 282810057883082752;
   21914624432020321; 36520347436056576; 59604644775390625;
   95428956661682176; 150094635296999121; 232218265089212416;
   12200509765705829; 17714700000000000; 25408476896404831;
   36028797018963968; 50542106513726817; 70188843638032384;
   96549157373046875; 131621703842267136].
Definition get_digits_per_signed_int (base : Z) : option Z := digits_per_sint_lookup !! Z.to_nat (base - 2).
Definition get_digits_per_small (base : Z) : option Z := digits_per_small_lookup !! Z.to_nat (base - 2).
Definition get_largest_power_of_base (base : Z) : option Z := largest_power_of_base_lookup !! Z.to_nat (base - 2).

(** [(d < 10) ? (char)('0' + d) : (char)('A' + d - 10)] *)
Definition digit_char (d : Z) : Z := if d <? 10 then 48 + d else 65 + d - 10.

(** [while (rem) { int d = rem % base; *--p = ...; rem /= base; n++; }]; a word has at most
    64 digits. *)
Fixpoint rem_chars (fuel : nat) (base rem : Z) (p : list Z) (n : Z) : option (list Z * Z) :=
  if rem =? 0 then Some (p, n)
  else match fuel with
  | O => None
  | S fuel => rem_chars fuel base (rem / base) (digit_char (rem mod base) :: p) (n + 1)
  end.
(** [while (i--) {...}] *)
Fixpoint fixed_chars (i : nat) (base rem : Z) (p : list Z) (n : Z) : list Z * Z :=
  match i with
  | O => (p, n)
  | S i => fixed_chars i base (rem / base) (digit_char (rem mod base) :: p) (n + 1)
  end.

Section Simple.
Context {M : DigitMacros}.

(** [while (1) {...}] *)
Fixpoint simple_loop (fuel : nat) (base largest_pow digits_per_Sint : Z) (v p : list Z) (n : Z) : option (list Z * Z) :=
  match fuel with
  | O => None
  | S fuel =>
      '(v, rem) ← D_div v largest_pow;
      if bool_decide (v = [0]) then rem_chars 64 base rem p n
      else let '(p, n) := fixed_chars (Z.to_nat digits_per_Sint) base rem p n in simple_loop fuel base largest_pow digits_per_Sint v p n
  end.
(** [while (n < width) { *--p = '0'; n++; }] *)
Definition zero_pad (p : list Z) (n width : Z) : list Z * Z := (replicate (Z.to_nat (width - n)) 48 ++ p, Z.max n width).

(** The characters, and how many were written.  A digit of 64 bits holds two of the largest
    powers at most, so that two turns for each digit are enough. *)
Definition write_big_simple (v : list Z) (base : Z) (out : list Z) (width : Z) : option (list Z * Z) :=
  digits_per_Sint ← get_digits_per_signed_int base;
  largest_pow ← get_largest_power_of_base base;
  '(p, n) ← (match v with
             | [rem] =>
                 if rem <? largest_pow then
                   if (rem =? 0) && (width =? 0) then Some (48 :: out, 1) else rem_chars 64 base rem out 0
                 else simple_loop (2 * length v + 1) base largest_pow digits_per_Sint v out 0
             | _ => simple_loop (2 * length v + 1) base largest_pow digits_per_Sint v out 0
             end);
  Some (zero_pad p n width).
End Simple.

(** ** Text in a base *)

(** The last [k] digits of [v], in front of [out]. *)
Fixpoint radix (base : Z) (k : nat) (v : Z) (out : list Z) : list Z :=
  match k with
  | O => out
  | S k => radix base k (v / base) (digit_char (v mod base) :: out)
  end.
Fixpoint digits_needed (fuel : nat) (base v : Z) : nat :=
  match fuel with
  | O => O
  | S fuel => if v =? 0 then O else S (digits_needed fuel base (v / base))
  end.
(** The number of digits of [v], none for 0. *)
Definition text_width (base v : Z) : nat := digits_needed (S (Z.to_nat (Z.log2 v))) base v.
(** A number that is not negative without leading zeros. *)
Definition natural_text (base v : Z) : list Z := if v =? 0 then [48] else radix base (text_width base v) v [].
Definition integer_text (base z : Z) : list Z := (if z <? 0 then [45] else []) ++ natural_text base (Z.abs z).

Definition base_ok (base : Z) : Prop := 2 <= base <= 36.

Lemma radix_app base k v out : radix base k v out = radix base k v [] ++ out.
Proof. revert v out. induction k as [|k IH]; intros v out; [done|]. cbn [radix]. rewrite IH, (IH _ [_]), <- app_assoc. done. Qed.
Lemma length_radix base k v out : length (radix base k v out) = (k + length out)%nat.
Proof. revert v out. induction k as [|k IH]; intros v out; cbn [radix]; [done|]. rewrite IH. cbn [length]. lia. Qed.
Lemma radix_zero base k out : 2 <= base -> radix base k 0 out = replicate k 48 ++ out.
Proof.
  intros Hb. revert out. induction k as [|k IH]; intros out; [done|]. cbn [radix]. rewrite Z.div_0_l, Z.mod_0_l, IH by lia. rewrite replicate_S_end, <- app_assoc. done.
Qed.
(** The digits above and those below a power. *)
Lemma radix_split base k j v out : 2 <= base -> 0 <= v -> radix base (k + j) v out = radix base j (v / base ^ Z.of_nat k) (radix base k (v mod base ^ Z.of_nat k) out).
Proof.
  intros Hb. revert v out. induction k as [|k IH]; intros v out Hv; [cbn [radix Nat.add]; by rewrite Z.pow_0_r, Z.div_1_r|]. cbn [radix Nat.add]. rewrite IH by (apply Z.div_pos; lia).
  rewrite Nat2Z.inj_succ, Z.pow_succ_r by lia. assert (0 < base ^ Z.of_nat k) as Hp by (apply Z.pow_pos_nonneg; lia). rewrite Z.div_div by lia. f_equal.
  rewrite Z.rem_mul_r by lia. pose proof (Z.mod_pos_bound v base ltac:(lia)). set (m := (v / base) mod base ^ Z.of_nat k). assert ((v mod base + base * m) / base = m /\ (v mod base + base * m) mod base = v mod base) as [-> ->]; [|done].
  split; symmetry; [apply (Z.div_unique_pos _ _ _ (v mod base)); lia|apply (Z.mod_unique_pos _ _ m); lia].
Qed.

(** ** The number of digits *)

Lemma digits_needed_ok fuel base v : 2 <= base -> 0 <= v < 2 ^ Z.of_nat fuel ->
  0 <= v < base ^ Z.of_nat (digits_needed fuel base v) /\ (0 < v -> base ^ Z.of_nat (digits_needed fuel base v - 1) <= v).
Proof.
  intros Hb. revert v. induction fuel as [|fuel IH]; intros v Hv; cbn [digits_needed]; [cbn in *; lia|].
  destruct (Z.eqb_spec v 0) as [->|Hv0]; [cbn; lia|]. rewrite Nat2Z.inj_succ, Z.pow_succ_r in Hv by lia.
  assert (0 <= v / base) as Hq by (apply Z.div_pos; lia). pose proof (Z.div_mod v base ltac:(lia)) as E. pose proof (Z.mod_pos_bound v base ltac:(lia)) as Hm. assert (v / base < 2 ^ Z.of_nat fuel) as Hlt by (apply Z.div_lt_upper_bound; [lia|]; nia).
  destruct (IH (v / base) ltac:(lia)) as [[_ H1] H2]. rewrite Nat2Z.inj_succ, Z.pow_succ_r by lia. split; [nia|]. intros _. cbn [Nat.sub]. rewrite Nat.sub_0_r.
  destruct (Z.eqb_spec (v / base) 0) as [E0|Hq0].
  - assert (digits_needed fuel base (v / base) = 0%nat) as -> by (rewrite E0; by destruct fuel). cbn. lia.
  - specialize (H2 ltac:(lia)). destruct (digits_needed fuel base (v / base)) as [|k]; [cbn in H1; lia|]. cbn [Nat.sub] in H2. rewrite Nat.sub_0_r in H2. rewrite Nat2Z.inj_succ, Z.pow_succ_r by lia. nia.
Qed.
Lemma width_unique base v k j : 2 <= base -> base ^ Z.of_nat (k - 1) <= v < base ^ Z.of_nat k -> base ^ Z.of_nat (j - 1) <= v < base ^ Z.of_nat j -> (0 < k)%nat -> (0 < j)%nat -> k = j.
Proof.
  intros Hb Hk Hj Hk0 Hj0. destruct (Nat.lt_total k j) as [H|[H|H]]; [|done|]; exfalso.
  - pose proof (Z.pow_le_mono_r base (Z.of_nat k) (Z.of_nat (j - 1)) ltac:(lia) ltac:(lia)). lia.
  - pose proof (Z.pow_le_mono_r base (Z.of_nat j) (Z.of_nat (k - 1)) ltac:(lia) ltac:(lia)). lia.
Qed.
Lemma text_width_ok base v : 2 <= base -> 0 <= v -> v < base ^ Z.of_nat (text_width base v) /\ (0 < v -> base ^ Z.of_nat (text_width base v - 1) <= v /\ (0 < text_width base v)%nat).
Proof.
  intros Hb Hv. assert (0 <= v < 2 ^ Z.of_nat (S (Z.to_nat (Z.log2 v)))) as Hr. { split; [done|]. pose proof (Z.log2_nonneg v). rewrite Nat2Z.inj_succ, Z2Nat.id by lia. destruct (decide (v = 0)) as [->|]; [done|]. apply Z.log2_spec. lia. }
  unfold text_width. destruct (digits_needed_ok _ base v Hb Hr) as [H1 H2]. split; [lia|]. intros Hpos. split; [auto|]. cbn [digits_needed]. rewrite (proj2 (Z.eqb_neq v 0)) by lia. lia.
Qed.
Lemma text_width_intro base v k : 2 <= base -> 0 < v -> base ^ Z.of_nat (k - 1) <= v < base ^ Z.of_nat k -> (0 < k)%nat -> k = text_width base v.
Proof. intros Hb Hv Hk Hk0. destruct (text_width_ok base v Hb ltac:(lia)) as [H1 H2]. destruct (H2 Hv). by apply (width_unique base v). Qed.
Lemma text_width_0 base : text_width base 0 = 0%nat.
Proof. done. Qed.
(** A number that is not 0, with the digits above a power and those below it. *)
Lemma text_width_split base k v : 2 <= base -> base ^ Z.of_nat k <= v -> text_width base v = (k + text_width base (v / base ^ Z.of_nat k))%nat.
Proof.
  intros Hb Hv. assert (0 < base ^ Z.of_nat k) as Hp by (apply Z.pow_pos_nonneg; lia). symmetry. set (q := v / base ^ Z.of_nat k). pose proof (Z.div_mod v (base ^ Z.of_nat k) ltac:(lia)) as E. pose proof (Z.mod_pos_bound v (base ^ Z.of_nat k) Hp) as Hm. fold q in E. assert (1 <= q) as Hq by (unfold q; apply Z.div_le_lower_bound; lia).
  destruct (text_width_ok base q Hb ltac:(lia)) as [H1 H2]. destruct (H2 ltac:(lia)) as [H3 H4]. apply text_width_intro; [done|lia| |lia].
  replace (k + text_width base q - 1)%nat with (k + (text_width base q - 1))%nat by lia. rewrite !Nat2Z.inj_add, !Z.pow_add_r by lia. split; nia.
Qed.

(** ** The tables *)

Definition tables_ok (base : Z) : bool :=
  match get_digits_per_signed_int base, get_digits_per_small base, get_largest_power_of_base base with
  | Some k, Some d, Some p => (0 <? k) && (p =? base ^ k) && (2 ^ 53 <=? p) && (p <? 2 ^ 63) && (0 <? d) && (base ^ d <=? 2 ^ 59) && (2 ^ 59 <? base ^ (d + 2))
  | _, _, _ => false
  end.
Lemma tables_all : forallb tables_ok (map Z.of_nat (seq 2 35)) = true.
Proof. by vm_compute. Qed.
(** The powers are those of the numbers of digits, and the largest that fit. *)
Lemma tables base : base_ok base -> exists k d p, get_digits_per_signed_int base = Some k /\ get_digits_per_small base = Some d /\ get_largest_power_of_base base = Some p /\
  0 < k /\ p = base ^ k /\ 2 ^ 53 <= p < 2 ^ 63 /\ 0 < d /\ base ^ d <= 2 ^ 59 < base ^ (d + 2).
Proof.
  intros Hb. unfold base_ok in Hb. pose proof tables_all as H. rewrite forallb_forall in H. specialize (H base). assert (tables_ok base = true) as E. { apply H, in_map_iff. exists (Z.to_nat base). split; [lia|]. apply in_seq. lia. }
  unfold tables_ok in E. destruct (get_digits_per_signed_int base) as [k|], (get_digits_per_small base) as [d|], (get_largest_power_of_base base) as [p|]; try done. rewrite !andb_true_iff, !Z.ltb_lt, !Z.leb_le, Z.eqb_eq in E. exists k, d, p. tauto.
Qed.

(** ** What is written *)

Lemma rem_chars_ok fuel base rem p n : 2 <= base -> 0 <= rem < base ^ Z.of_nat fuel ->
  rem_chars fuel base rem p n = Some (radix base (text_width base rem) rem p, n + Z.of_nat (text_width base rem)).
Proof.
  intros Hb. revert rem p n. induction fuel as [|fuel IH]; intros rem p n Hr; cbn [rem_chars].
  - assert (rem = 0) as -> by (cbn in Hr; lia). rewrite text_width_0. cbn [radix Z.eqb]. do 2 f_equal. lia.
  - destruct (Z.eqb_spec rem 0) as [->|H0]; [rewrite text_width_0; cbn [radix]; do 2 f_equal; lia|]. rewrite Nat2Z.inj_succ, Z.pow_succ_r in Hr by lia.
    assert (0 <= rem / base < base ^ Z.of_nat fuel) as Hq by (split; [apply Z.div_pos; lia|apply Z.div_lt_upper_bound; lia]). rewrite IH by done.
    assert (text_width base rem = S (text_width base (rem / base))) as ->; [|cbn [radix]; do 2 f_equal; lia].
    destruct (Z.lt_ge_cases rem base).
    + rewrite Z.div_small, text_width_0 by lia. symmetry. apply text_width_intro; [done|lia| |lia]. cbn [Nat.sub]. rewrite Z.pow_0_r. change (Z.of_nat 1) with 1. rewrite Z.pow_1_r. lia.
    + rewrite (text_width_split base 1) by (rewrite ?Z.pow_1_r; done). rewrite Z.pow_1_r. done.
Qed.
Lemma fixed_chars_ok i base rem p n : fixed_chars i base rem p n = (radix base i rem p, n + Z.of_nat i).
Proof. revert rem p n. induction i as [|i IH]; intros rem p n; cbn [fixed_chars radix]; [f_equal; lia|]. rewrite IH. f_equal. lia. Qed.

Section Laws.
Context {M : DigitMacros} {L : DigitLaws M}.
Context (base : Z) (Hbase : base_ok base).

Lemma simple_loop_ok fuel k P v p n : P = base ^ k -> 0 < k -> 2 ^ 53 <= P < 2 ^ 63 -> digits v -> normal v -> 0 < dval v < P ^ Z.of_nat fuel ->
  simple_loop fuel base P k v p n = Some (radix base (text_width base (dval v)) (dval v) p, n + Z.of_nat (text_width base (dval v))).
Proof using Hbase L.
  intros EP Hk HP. revert v p n. induction fuel as [|fuel IH]; intros v p n Hv Nv Hd; [cbn in Hd; lia|]. cbn [simple_loop]. unfold base_ok in Hbase. change (2 ^ 53) with 9007199254740992 in HP.
  assert (digit P) as HPd by (unfold digit; change (2 ^ 63) with 9223372036854775808 in HP; lia). destruct (D_div_ok v P Hv Nv HPd ltac:(lia)) as (q & r & -> & Hq & Nq & Hr & E & _). cbn [mbind option_bind]. case_bool_decide as Eq.
  - rewrite Eq in E. cbn [dval] in E. replace (dval v) with r by lia. apply rem_chars_ok; [lia|]. split; [lia|]. pose proof (Z.pow_le_mono_l 2 base 64 ltac:(lia)). change (Z.of_nat 64) with 64. change (2 ^ 64) with DB in *. unfold digit in HPd. lia.
  - assert (0 < dval q) as Hq0. { pose proof (dval_range q Hq). destruct (decide (dval q = 0)) as [E0|]; [|lia]. destruct Eq. apply (normal_unique q [0]); [done|by apply digits_one, digit_0|done|by apply normal_singleton, digit_0|by rewrite E0]. }
    rewrite fixed_chars_ok. rewrite Nat2Z.inj_succ, Z.pow_succ_r in Hd by lia. rewrite IH by (done || nia).
    assert (base ^ Z.of_nat (Z.to_nat k) = P) as Ek by (rewrite Z2Nat.id by lia; done). assert (dval v / P = dval q /\ dval v mod P = r) as [Ed Em] by (split; symmetry; [apply (Z.div_unique_pos _ _ _ r); lia|apply (Z.mod_unique_pos _ _ (dval q)); lia]).
    rewrite (text_width_split base (Z.to_nat k) (dval v)) by (rewrite ?Ek; nia). rewrite radix_split by lia. rewrite Ek, Ed, Em. do 2 f_equal. lia.
Qed.
Lemma zero_pad_ok k v p n out : p = radix base (text_width base v) v out -> n = Z.of_nat (text_width base v) -> 0 <= v < base ^ Z.of_nat k ->
  zero_pad p n (Z.of_nat k) = (radix base k v out, Z.of_nat k).
Proof using Hbase.
  unfold base_ok in Hbase. intros -> -> Hv. destruct (text_width_ok base v ltac:(lia) ltac:(lia)) as [H1 H2]. assert (text_width base v <= k)%nat as Hle.
  { destruct (decide (v = 0)) as [->|]; [rewrite text_width_0; lia|]. destruct (H2 ltac:(lia)) as [H3 _]. destruct (Nat.le_gt_cases (text_width base v) k) as [|Hgt]; [done|]. pose proof (Z.pow_le_mono_r base (Z.of_nat k) (Z.of_nat (text_width base v - 1)) ltac:(lia) ltac:(lia)). lia. }
  unfold zero_pad. rewrite Z.max_r by lia. f_equal. replace k with (text_width base v + (k - text_width base v))%nat at 2 by lia. rewrite radix_split, (Z.div_small v), (Z.mod_small v), radix_zero by lia. do 2 f_equal. lia.
Qed.

(** Before the padding. *)
Lemma simple_chars v out k P width : P = base ^ k -> 0 < k -> 2 ^ 53 <= P < 2 ^ 63 -> digits v -> normal v -> 0 < dval v \/ width <> 0 ->
  (match v with
   | [rem] => if rem <? P then if (rem =? 0) && (width =? 0) then Some (48 :: out, 1) else rem_chars 64 base rem out 0 else simple_loop (2 * length v + 1) base P k v out 0
   | _ => simple_loop (2 * length v + 1) base P k v out 0
   end) = Some (radix base (text_width base (dval v)) (dval v) out, Z.of_nat (text_width base (dval v))).
Proof using Hbase L.
  intros EP Hk HP Hv Nv Hw. pose proof (dval_range v Hv) as Hr. change (2 ^ 53) with 9007199254740992 in HP. change (2 ^ 63) with 9223372036854775808 in HP. unfold base_ok in Hbase.
  assert (0 < dval v -> simple_loop (2 * length v + 1) base P k v out 0 = Some (radix base (text_width base (dval v)) (dval v) out, Z.of_nat (text_width base (dval v)))) as Hloop.
  { intros Hpos. rewrite <- (Z.add_0_l (Z.of_nat (text_width _ _))). apply simple_loop_ok; try done. split; [done|]. eapply Z.lt_le_trans; [apply Hr|]. rewrite pw_nat. etransitivity; [|apply (Z.pow_le_mono_r P (2 * Z.of_nat (length v))); lia]. rewrite Z.pow_mul_r by lia. apply Z.pow_le_mono_l. nia. }
  destruct v as [|rem [|rem2 v]]; [by destruct Nv| |].
  - cbn [dval] in *. rewrite Z.mul_0_r, Z.add_0_r in *. apply digits_cons in Hv as [Hrem _]. destruct (Z.ltb_spec rem P) as [Hlt|]; [|apply Hloop; lia].
    assert ((rem =? 0) && (width =? 0) = false) as ->. { destruct (Z.eqb_spec rem 0), (Z.eqb_spec width 0); try done. lia. }
    rewrite rem_chars_ok; [done|lia|]. unfold digit in Hrem. pose proof (Z.pow_le_mono_l 2 base 64 ltac:(lia)). change (Z.of_nat 64) with 64. change (2 ^ 64) with DB in *. lia.
  - apply Hloop. pose proof (normal_low _ Hv Nv ltac:(unfold zlen; cbn [length]; lia)). pose proof (pw_pos (rem :: rem2 :: v)). lia.
Qed.
(** Without a width the text of the number, with one as many digits. *)
Lemma write_big_simple_ok v out : digits v -> normal v -> write_big_simple v base out 0 = Some (natural_text base (dval v) ++ out, zlen (natural_text base (dval v))).
Proof using Hbase L.
  intros Hv Nv. unfold write_big_simple. destruct (tables base Hbase) as (k & d & P & -> & _ & -> & Hk & EP & HP & _). cbn [mbind option_bind]. pose proof (dval_range v Hv) as Hr. unfold natural_text. destruct (Z.eqb_spec (dval v) 0) as [E0|E0].
  - assert (v = [0]) as -> by (apply (normal_unique v [0]); [done|by apply digits_one, digit_0|done|by apply normal_singleton, digit_0|by rewrite E0]). rewrite (proj2 (Z.ltb_lt 0 P)) by (change (2 ^ 53) with 9007199254740992 in HP; lia). done.
  - rewrite (simple_chars v out k P 0) by (done || (left; lia)). cbn [mbind option_bind]. unfold zero_pad. replace (Z.to_nat (0 - _)) with 0%nat by lia. cbn [replicate app]. rewrite Z.max_l by lia. f_equal. f_equal; [apply radix_app|]. unfold zlen. rewrite length_radix. cbn [length]. lia.
Qed.
Lemma write_big_simple_padded v out k : digits v -> normal v -> (0 < k)%nat -> dval v < base ^ Z.of_nat k -> write_big_simple v base out (Z.of_nat k) = Some (radix base k (dval v) out, Z.of_nat k).
Proof using Hbase L.
  intros Hv Nv Hk0 Hlt. unfold write_big_simple. destruct (tables base Hbase) as (j & d & P & -> & _ & -> & Hk & EP & HP & _). cbn [mbind option_bind]. pose proof (dval_range v Hv) as Hr.
  rewrite (simple_chars v out j P (Z.of_nat k)) by (done || (right; lia)). cbn [mbind option_bind]. f_equal. apply (zero_pad_ok k (dval v)); [done|done|lia].
Qed.
End Laws.
