(* ===== verification/BigWidth.v ===== *)
(** * How many characters an integer needs: [erts/emulator/beam/big.c]

    [write_big] and [big_integer_estimate] divide a number of bits by the logarithm of the
    base in double precision.  A double that is not negative is a mantissa below [2 ^ 53]
    and the number of its bits behind the point; operations round to the nearest double,
    and to the even one of two. *)
From S2P Require Import Prelude PutGet BigDigit BigNat BigBits BigTerm BigText.

(** ** The code *)

(** [a / b] rounded to the nearest integer, to the even one of two. *)
Definition rn_div (a b : Z) : Z :=
  let q := a / b in
  let r := a mod b in
  if (2 * r <? b) || ((2 * r =? b) && Z.even q) then q else q + 1.
(** The double next to [a / b], which is not below 1 and not above [2 ^ 52]. *)
Definition double_quot (a b : Z) : Z * Z := let k := 52 - Z.log2 (a / b) in (rn_div (a * 2 ^ k) b, k).

(** [lg2_lookup], in units of the last decimal place, and the doubles that the compiler makes
    of the decimal numbers. *)
Definition lg2_lookup : list Z :=
  [100000; 158496; 200000; 232192; 258496; 280735; 300000; 316992; 332192;
   345943; 358496; 370043; 380735; 390689; 400000; 408746; 416992; 424792;
   432192; 439231; 445943; 452356; 458496; 464385; 470043; 475488;
   480735; 485798; 490689; 495419; 500000; 504439; 508746; 512928; 516992].
Definition lookup_log2 (base : Z) : option (Z * Z) := d ← lg2_lookup !! Z.to_nat (base - 2); Some (double_quot d 100000).

(** [n / lookup_log2(base)], for an integer [n]. *)
Definition double_bits (n base : Z) : option (Z * Z) := '(m, s) ← lookup_log2 base; Some (double_quot (n * 2 ^ s) m).
(** [(Uint) (((double) xl * D_EXP) / lookup_log2(base)) + 2] *)
Definition width_estimate (xl base : Z) : option Z := '(q, k) ← double_bits (xl * D_EXP) base; Some (Z.shiftr q k + 2).

(** [while(d != 0) { d >>= 1; sz++; }] *)
Fixpoint bit_count (fuel : nat) (d sz : Z) : Z :=
  match fuel with
  | O => sz
  | S fuel => if d =? 0 then sz else bit_count fuel (Z.shiftr d 1) (sz + 1)
  end.
Definition I_lg (x : list Z) : option Z := d ← list.last x; Some (bit_count 64 d ((zlen x - 1) * D_EXP) - 1).
(** The sum with 1 is rounded as well, to a double with one bit less behind the point when it
    needs more than 53. *)
Definition double_succ (d : Z * Z) : Z * Z := let '(q, k) := d in let q := q + 2 ^ k in if q <? 2 ^ 53 then (q, k) else (rn_div q 2, k - 1).
Definition big_integer_estimate (x : Eterm) (base : Z) : option Z :=
  '(sign, v) ← big_val x;
  lg ← I_lg v;
  d ← double_bits (lg + 1) base;
  let '(q, k) := double_succ d in
  let lgBase := Z.shiftr q k in
  Some ((if sign : bool then lgBase + 1 else lgBase) + 1).

(** ** The rounding *)

Lemma rn_div_ok a b : 0 < b -> 2 * a - b <= 2 * b * rn_div a b <= 2 * a + b.
Proof.
  intros Hb. unfold rn_div. pose proof (Z.div_mod a b ltac:(lia)) as E. pose proof (Z.mod_pos_bound a b Hb). destruct (Z.ltb_spec (2 * (a mod b)) b); cbn [orb]; [lia|]. destruct (_ && _) eqn:Et; [|lia]. apply andb_true_iff in Et as [Et%Z.eqb_eq _]. lia.
Qed.
(** Rounded and cut off, and one more: above the quotient. *)
Lemma double_above a b : 0 < b -> b <= a -> a / b < 2 ^ 52 -> let '(q, k) := double_quot a b in 1 <= k <= 52 /\ 0 <= q /\ a < b * (q / 2 ^ k + 1) /\ b * (q / 2 ^ k) <= a + b.
Proof.
  intros Hb Hab Hlt. unfold double_quot. assert (1 <= a / b) as Hq by (apply Z.div_le_lower_bound; lia). pose proof (Z.log2_nonneg (a / b)). assert (Z.log2 (a / b) < 52) as Hlog by (apply Z.log2_lt_pow2; lia). set (k := 52 - Z.log2 (a / b)) in *. assert (1 <= k <= 52) as Hk by lia. clearbody k.
  pose proof (rn_div_ok (a * 2 ^ k) b Hb) as Hr. assert (0 < 2 ^ k) as Hp by (apply Z.pow_pos_nonneg; lia). set (q := rn_div (a * 2 ^ k) b) in *. clearbody q.
  split; [done|]. assert (0 <= q) as Hq0 by nia. split; [done|]. pose proof (Z.div_mod q (2 ^ k) ltac:(lia)) as E. pose proof (Z.mod_pos_bound q (2 ^ k) Hp). set (t := q / 2 ^ k) in *. clearbody t. split; nia.
Qed.

(** ** The logarithms *)

(** Fractions between the number of the table and the logarithm of the base, numerators
    first. *)
Definition log2_fractions : list (Z * Z) :=
  [(1, 1); (1054, 665); (2, 1); (1832, 789); (1719, 665); (1909, 680); (3, 1); (1623, 512); (2621, 789);
   (3283, 949); (2384, 665); (1717, 464); (2589, 680); (2098, 537); (4, 1); (3879, 949); (2135, 512); (2553, 601);
   (3410, 789); (3773, 859); (4232, 949); (864, 191); (3049, 665); (3325, 716); (2181, 464); (2192, 461);
   (3269, 680); (7457, 1535); (2635, 537); (5083, 1026); (5, 1); (2159, 428); (4828, 949); (4642, 905); (2647, 512)].
Definition log2_ok (base : Z) : bool :=
  match lookup_log2 base, log2_fractions !! Z.to_nat (base - 2) with
  | Some (m, s), Some (p, q) => (0 <? p) && (0 <? q) && (0 <=? s) && (2 ^ s <=? m) && (m <? 6 * 2 ^ s) && (m * q <=? p * 2 ^ s) && (2 ^ p <=? base ^ q)
  | _, _ => false
  end.
Lemma log2_all : forallb log2_ok (map Z.of_nat (seq 2 35)) = true.
Proof. by vm_compute. Qed.
Lemma log2_table base : base_ok base -> exists m s p q, lookup_log2 base = Some (m, s) /\ 0 < p /\ 0 < q /\ 0 <= s /\ 2 ^ s <= m < 6 * 2 ^ s /\ m * q <= p * 2 ^ s /\ 2 ^ p <= base ^ q.
Proof.
  intros Hb. unfold base_ok in Hb. pose proof log2_all as H. rewrite forallb_forall in H. specialize (H base). assert (log2_ok base = true) as E. { apply H, in_map_iff. exists (Z.to_nat base). split; [lia|]. apply in_seq. lia. }
  unfold log2_ok in E. destruct (lookup_log2 base) as [[m s]|], (log2_fractions !! Z.to_nat (base - 2)) as [[p q]|]; try done. rewrite !andb_true_iff, !Z.ltb_lt, !Z.leb_le in E. exists m, s, p, q. tauto.
Qed.

(** The estimate in double precision, cut off, is at most one below the number of digits of
    [2 ^ n]. *)
Lemma double_bits_ok n base : base_ok base -> 6 <= n < 2 ^ 40 -> exists q k, double_bits n base = Some (q, k) /\ 1 <= k <= 52 /\ 0 <= q /\ 2 ^ n < base ^ (q / 2 ^ k + 1) /\ q / 2 ^ k <= n + 1.
Proof.
  intros Hb Hn. destruct (log2_table base Hb) as (m & s & p & f & E & Hp & Hf & Hs & Hm & Hmf & Hpow). unfold double_bits. rewrite E. cbn [mbind option_bind]. assert (0 < 2 ^ s) as H2s by (apply Z.pow_pos_nonneg; lia).
  assert (n * 2 ^ s / m < 2 ^ 52) as Hlt. { apply Z.div_lt_upper_bound; [lia|]. change (2 ^ 40) with 1099511627776 in Hn. change (2 ^ 52) with 4503599627370496. nia. }
  pose proof (double_above (n * 2 ^ s) m ltac:(lia) ltac:(nia) Hlt) as H. destruct (double_quot (n * 2 ^ s) m) as [q k]. destruct H as (Hk & Hq & Hab & Hbel). exists q, k. split; [done|]. split; [done|]. split; [done|].
  assert (0 <= q / 2 ^ k) as Ht by (apply Z.div_pos; [lia|apply Z.pow_pos_nonneg; lia]). split; [|assert (m * (q / 2 ^ k) <= m * (n + 1)) by nia; nia]. set (J := q / 2 ^ k + 1) in *. assert (0 < J) as HJ by lia. clearbody J. unfold base_ok in Hb.
  assert (n * f < p * J) as Hnf. { apply (Z.mul_lt_mono_pos_r (2 ^ s) (n * f) (p * J)); [done|]. pose proof (proj1 (Z.mul_lt_mono_pos_r f _ _ Hf) Hab). pose proof (Z.mul_le_mono_nonneg_r _ _ J ltac:(lia) Hmf). lia. }
  destruct (Z.lt_ge_cases (2 ^ n) (base ^ J)) as [|Hge]; [done|]. exfalso. pose proof (Z.pow_nonneg base J ltac:(lia)). pose proof (Z.pow_le_mono_l (base ^ J) (2 ^ n) f ltac:(lia)) as H1. rewrite <- !Z.pow_mul_r in H1 by lia.
  pose proof (Z.pow_lt_mono_r 2 (n * f) (p * J) ltac:(lia) ltac:(lia) Hnf) as H2. pose proof (Z.pow_le_mono_l (2 ^ p) (base ^ f) J) as H3. rewrite <- !Z.pow_mul_r, (Z.mul_comm f J) in H3 by lia. specialize (H3 ltac:(split; [apply Z.pow_nonneg; lia|done])). lia.
Qed.
Lemma width_estimate_ok xl base : base_ok base -> 1 <= xl <= BIG_ARITY_MAX -> exists w, width_estimate xl base = Some w /\ 2 <= w < 2 ^ 23 /\ DB ^ xl < base ^ (w - 1).
Proof.
  intros Hb Hx. assert (BIG_ARITY_MAX * 64 < 2 ^ 40) by done. destruct (double_bits_ok (xl * D_EXP) base Hb) as (q & k & E & Hk & Hq & Hlt & Hup); [change D_EXP with 64; lia|].
  unfold width_estimate. rewrite E. cbn [mbind option_bind]. eexists. split; [done|]. rewrite Z.shiftr_div_pow2 by lia. assert (0 <= q / 2 ^ k) by (apply Z.div_pos; [lia|apply Z.pow_pos_nonneg; lia]). split; [change D_EXP with 64 in Hup; change BIG_ARITY_MAX with 65535 in Hx; change (2 ^ 23) with 8388608; lia|].
  change DB with (2 ^ 64). rewrite <- Z.pow_mul_r by lia. change (64 * xl) with (D_EXP * xl). rewrite Z.mul_comm. replace (q / 2 ^ k + 2 - 1) with (q / 2 ^ k + 1) by lia. done.
Qed.

(** ** The buffer for the text *)

Lemma bit_count_ok fuel d sz : 0 <= d < 2 ^ Z.of_nat fuel -> exists c, bit_count fuel d sz = sz + c /\ 0 <= c <= Z.of_nat fuel /\ d < 2 ^ c.
Proof.
  revert d sz. induction fuel as [|fuel IH]; intros d sz Hd; cbn [bit_count]; [exists 0; cbn in *; lia|]. destruct (Z.eqb_spec d 0) as [->|]; [exists 0; cbn; lia|].
  rewrite Nat2Z.inj_succ, Z.pow_succ_r in Hd by lia. rewrite Z.shiftr_div_pow2 by lia. change (2 ^ 1) with 2. destruct (IH (d / 2) (sz + 1)) as (c & -> & Hc & Hlt); [split; [apply Z.div_pos; lia|apply Z.div_lt_upper_bound; lia]|].
  exists (c + 1). split; [lia|]. split; [lia|]. rewrite Z.pow_add_r by lia. pose proof (Z.div_mod d 2 ltac:(lia)). pose proof (Z.mod_pos_bound d 2 ltac:(lia)). change (2 ^ 1) with 2. lia.
Qed.
Lemma I_lg_ok v : digits v -> v <> [] -> exists lg, I_lg v = Some lg /\ lg + 1 <= 64 * zlen v /\ 0 <= lg + 1 /\ dval v < 2 ^ (lg + 1).
Proof.
  intros Hv Hne. destruct v as [|d v _] using rev_ind; [done|]. apply digits_app in Hv as [Hv [Hd _]%digits_cons]. unfold I_lg. rewrite last_snoc. cbn [mbind option_bind]. rewrite zlen_app. change (zlen [d]) with 1. replace (zlen v + 1 - 1) with (zlen v) by lia. change D_EXP with 64.
  destruct (bit_count_ok 64 d (zlen v * 64)) as (c & -> & Hc & Hlt); [by unfold digit in Hd|]. pose proof (zlen_nonneg v). eexists. split; [reflexivity|]. split; [lia|]. split; [lia|]. rewrite Z.sub_add, Z.pow_add_r by lia. rewrite dval_app. cbn [dval]. pose proof (dval_range v Hv) as Hr. unfold pw in *. change DB with (2 ^ 64) in *. rewrite <- Z.pow_mul_r in * by lia. rewrite (Z.mul_comm (zlen v)). assert (0 < 2 ^ (64 * zlen v)) by (apply Z.pow_pos_nonneg; lia). nia.
Qed.
Lemma double_succ_ok q k : 1 <= k <= 52 -> 0 <= q -> let '(q', k') := double_succ (q, k) in 0 <= k' /\ q / 2 ^ k + 1 <= q' / 2 ^ k'.
Proof.
  intros Hk Hq. unfold double_succ. assert (0 < 2 ^ k) as Hp by (apply Z.pow_pos_nonneg; lia). destruct (Z.ltb_spec (q + 2 ^ k) (2 ^ 53)).
  - split; [lia|]. rewrite <- (Z.mul_1_l (2 ^ k)) at 2. rewrite Z.div_add by lia. lia.
  - split; [lia|]. apply Z.div_le_lower_bound; [apply Z.pow_pos_nonneg; lia|]. pose proof (rn_div_ok (q + 2 ^ k) 2 ltac:(lia)). pose proof (Z.div_mod q (2 ^ k) ltac:(lia)). pose proof (Z.mod_pos_bound q (2 ^ k) Hp).
    assert (2 ^ k = 2 * 2 ^ (k - 1)) as E by (rewrite <- Z.pow_succ_r by lia; f_equal; lia). rewrite E in *. set (t := q / (2 * 2 ^ (k - 1))) in *. set (h := 2 ^ (k - 1)) in *. clearbody t h. lia.
Qed.
Lemma natural_text_len base v k : base_ok base -> 0 <= v < base ^ Z.of_nat k -> (0 < k)%nat -> (length (natural_text base v) <= k)%nat.
Proof.
  intros Hb Hv Hk. unfold base_ok in Hb. unfold natural_text. destruct (Z.eqb_spec v 0); [cbn; lia|]. rewrite length_radix. cbn [length]. rewrite Nat.add_0_r. destruct (text_width_ok base v ltac:(lia) ltac:(lia)) as [_ H]. destruct (H ltac:(lia)) as [H1 _].
  destruct (Nat.le_gt_cases (text_width base v) k) as [|Hgt]; [done|]. pose proof (Z.pow_le_mono_r base (Z.of_nat k) (Z.of_nat (text_width base v - 1)) ltac:(lia) ltac:(lia)). lia.
Qed.
(** The estimate has room for the text and a NUL. *)
Lemma big_integer_estimate_ok z t base : base_ok base -> big_rep z t -> 32 <= Z.abs z -> exists est, big_integer_estimate t base = Some est /\ zlen (integer_text base z) + 1 <= est.
Proof.
  intros Hb (s & v & -> & Hv & Nv & Ev & Hs & Hl) Hz. unfold big_integer_estimate. cbn [big_val mbind option_bind]. assert (dval v = Z.abs z) as Ed by (pose proof (dval_range v Hv); unfold sval in Ev; destruct s; lia). assert (s = (z <? 0)) as -> by (pose proof (dval_range v Hv); unfold sval in Ev; destruct s; symmetry; [apply Z.ltb_lt|apply Z.ltb_ge]; lia).
  destruct (I_lg_ok v Hv (proj1 Nv)) as (lg & -> & H1 & H2 & H3). cbn [mbind option_bind]. assert (6 <= lg + 1) as Hlg. { destruct (Z.le_gt_cases 6 (lg + 1)) as [|Hgt]; [done|]. pose proof (Z.pow_le_mono_r 2 (lg + 1) 5 ltac:(lia) ltac:(lia)). change (2 ^ 5) with 32 in *. lia. }
  assert (64 * BIG_ARITY_MAX < 2 ^ 40) by done. destruct (double_bits_ok (lg + 1) base Hb ltac:(lia)) as (q & k & -> & Hk & Hq & Hlt & _). cbn [mbind option_bind]. pose proof (double_succ_ok q k Hk Hq) as Hsucc. destruct (double_succ (q, k)) as [q' k']. destruct Hsucc as [Hk' Hsucc].
  eexists. split; [done|]. rewrite Z.shiftr_div_pow2 by lia. assert (0 <= q / 2 ^ k) by (apply Z.div_pos; [lia|apply Z.pow_pos_nonneg; lia]). set (J := q / 2 ^ k + 1) in *.
  pose proof (natural_text_len base (Z.abs z) (Z.to_nat J) Hb) as Hlen. rewrite Z2Nat.id in Hlen by lia. specialize (Hlen ltac:(lia) ltac:(lia)). unfold integer_text. rewrite zlen_app. unfold zlen at 2. destruct (z <? 0); [change (zlen [45]) with 1|change (zlen []) with 0]; lia.
Qed.
