(* ===== verification/BigWrite.v ===== *)
(** * Integers as text, by halves: [erts/emulator/beam/big.c]

    Long numbers are split at powers of the base whose exponents double, down to a width
    that [write_big_simple] writes; a quotient by such a power is estimated with its
    reciprocal (Barrett's method) when the power is large.  Where the code ends the program
    with an internal error the result is [None]. *)
From S2P Require Import Prelude PutGet BigDigit BigNat BigMul BigBits BigDiv BigBz BigTerm BigText BigWidth.

Section Write.
Context {M : DigitMacros}.

(** ** The code *)

Definition WRITE_BIG_DC_THRESHOLD : Z := 250.
Definition BARRETT_LEVEL_THRESHOLD : nat := 100.
Definition BARRETT_MAX_CORRECTIONS : nat := 4.

(** A level of [struct dc_pow_cache]; a cache is the list of its levels, the highest one
    first. *)
Record dc_level : Type := { dc_width : Z; dc_val : list Z; dc_mu : option (list Z) }.

(** [while (n--) sz = D_mul(out, sz, (ErtsDigit) base, out);] *)
Fixpoint compute_base_to_n (base : Z) (n : nat) (out : list Z) : list Z :=
  match n with O => out | S n => compute_base_to_n base n (D_mul out base) end.

(** [while (w * 2 < target_width) {...}]: [n], with [w] doubled 32 times at most. *)
Fixpoint count_levels (fuel : nat) (w target_width : Z) (n : nat) : option nat :=
  if w * 2 <? target_width then
    if (2 ^ 32 - 1) / 2 <? w then None
    else match fuel with O => None | S fuel => count_levels fuel (w * 2) target_width (S n) end
  else Some n.
(** The powers of [n] levels, those above the first by squaring. *)
Fixpoint dc_powers (base : Z) (n : nat) : option (list (Z * list Z)) :=
  match n with
  | O => Some []
  | 1%nat => Some [(WRITE_BIG_DC_THRESHOLD, compute_base_to_n base (Z.to_nat WRITE_BIG_DC_THRESHOLD) [1])]
  | S n =>
      levels ← dc_powers base n;
      match levels with
      | [] => None
      | (w, prev) :: _ => sq ← I_mul_karatsuba (S (length prev)) true prev prev; Some ((w * 2, trim sq) :: levels)
      end
  end.
(** [mu = floor(beta^(2*pn + 1) / vals[i])], for large powers only. *)
Definition dc_reciprocal (val : list Z) : option (option (list Z)) :=
  let pn := length val in
  if (pn <? BARRETT_LEVEL_THRESHOLD)%nat then Some None
  else '(q, _) ← I_div_dispatch (replicate (2 * pn + 1) 0 ++ [1]) val; Some (Some (trim q)).
Definition build_dc_powers (base target_width : Z) : option (list dc_level) :=
  let t := WRITE_BIG_DC_THRESHOLD in
  if target_width <=? t then Some []
  else
    n ← count_levels 32 t target_width 1;
    powers ← dc_powers base n;
    mapM (fun '(w, val) => mu ← dc_reciprocal val; Some {| dc_width := w; dc_val := val; dc_mu := mu |}) powers.

(** [while (I_comp(r, rsz, d, dsz) >= 0) {...}], with [allowed] corrections left. *)
Fixpoint barrett_correct (allowed : nat) (qhat r d : list Z) : option (list Z * list Z) :=
  if 0 <=? I_comp r d then
    match allowed with
    | O => None
    | S allowed => r ← I_sub r d; barrett_correct allowed (D_add qhat 1) r d
    end
  else Some (qhat, r).
(** Quotient and remainder. *)
Definition barrett_divmod (v : list Z) (l : dc_level) : option (list Z * list Z) :=
  let d := dc_val l in
  match dc_mu l with
  | None => I_div_dispatch v d
  | Some mu =>
      let v := trim v in
      let mu := trim mu in
      let qhat_offset := (2 * length d + 1)%nat in
      if I_comp v d <? 0 then Some ([0], v)
      else
        prod ← I_OPERATION bz_mul v mu;
        let prod := trim prod in
        let qhat := if (length prod <=? qhat_offset)%nat then [0] else drop qhat_offset prod in
        qd ← (if bool_decide (qhat = [0]) then Some [0] else I_OPERATION bz_mul qhat d);
        let qd := trim qd in
        if I_comp v qd <? 0 then None
        else r ← I_sub v qd; barrett_correct BARRETT_MAX_CORRECTIONS qhat r d
  end.

(** [while (i >= 0 && ...) i--;] *)
Fixpoint find_level (p : dc_level -> bool) (c : list dc_level) : option dc_level :=
  match c with [] => None | l :: c => if p l then Some l else find_level p c end.

(** [fuel] bounds the depth. *)
Fixpoint write_big_dc_padded (fuel : nat) (v : list Z) (base width : Z) (out : list Z) (c : list dc_level) : option (list Z) :=
  match fuel with
  | O => None
  | S fuel =>
      if width <=? WRITE_BIG_DC_THRESHOLD then '(p, _) ← write_big_simple v base out width; Some p
      else
        l ← find_level (fun l => dc_width l <=? width / 2) c;
        let pw := dc_width l in
        let hi_width := width - pw in
        if I_comp v (dc_val l) <? 0 then
          p ← write_big_dc_padded fuel v base pw out c; Some (replicate (Z.to_nat hi_width) 48 ++ p)
        else
          '(q, r) ← barrett_divmod v l;
          p ← write_big_dc_padded fuel r base pw out c;
          write_big_dc_padded fuel q base hi_width p c
  end.
(** The characters, and how many were written. *)
Fixpoint write_big_dc_top (fuel : nat) (v : list Z) (base : Z) (out : list Z) (c : list dc_level) : option (list Z * Z) :=
  match fuel with
  | O => None
  | S fuel =>
      match find_level (fun l => 0 <=? I_comp v (dc_val l)) c with
      | None => write_big_simple v base out 0
      | Some l =>
          '(q, r) ← barrett_divmod v l;
          p ← write_big_dc_padded (S (length c)) r base (dc_width l) out c;
          '(p, n) ← write_big_dc_top fuel q base p c;
          Some (p, n + dc_width l)
      end
  end.

(** The characters that are left in [buf] when a number is not written at once; [None] also
    when they do not fit. *)
Definition write_buffer (dx : list Z) (base : Z) : option (list Z) :=
  width ← width_estimate (zlen dx) base;
  '(out, n) ← (if 2 * WRITE_BIG_DC_THRESHOLD <=? width
               then cache ← build_dc_powers base width; write_big_dc_top (S (length cache)) dx base [] cache
               else write_big_simple dx base [] 0);
  if width <? n then None else Some (take (Z.to_nat n) out).
(** The characters in the order of the calls of [write_func], the last one of the number
    first. *)
Definition write_big (x : Eterm) (base : Z) : option (list Z) :=
  '(sign, dx) ← big_val x;
  largest_pow ← get_largest_power_of_base base;
  chars ← (match dx with
           | [rem] =>
               if rem <? largest_pow then if rem =? 0 then Some [48] else fst <$> rem_chars 64 base rem [] 0
               else write_buffer dx base
           | _ => write_buffer dx base
           end);
  Some (reverse chars ++ if sign : bool then [45] else []).

(** [write_list] puts a character in front of the list, [write_string] in front of a string,
    from the end of its buffer on, where there is a NUL. *)
Definition erts_big_to_list (x : Eterm) (base : Z) : option (list Z) :=
  chars ← write_big x base; Some (fold_left (fun res c => c :: res) chars []).
(** [None] when the buffer is too short. *)
Definition erts_big_to_string (x : Eterm) (base buf_sz : Z) : option (list Z) :=
  chars ← write_big x base;
  if buf_sz - 1 <? zlen chars then None else Some (fold_left (fun big_str c => c :: big_str) chars [0]).
Definition erts_big_to_binary_bytes (x : Eterm) (base buf_sz : Z) : option (list Z * Z) :=
  chars ← write_big x base;
  if buf_sz <? zlen chars then None else Some (fold_left (fun big_str c => c :: big_str) chars [], zlen chars).
End Write.

(** ** The powers *)

Section Laws.
Context {M : DigitMacros} {L : DigitLaws M}.
Context (base : Z) (Hbase : base_ok base).

Lemma base_digit : digit base.
Proof using Hbase. unfold base_ok in Hbase. dig. Qed.
Lemma base_pow_pos w : 0 <= w -> 1 <= base ^ w.
Proof using Hbase. unfold base_ok in Hbase. intros Hw. pose proof (Z.pow_pos_nonneg base w). lia. Qed.

Lemma compute_base_to_n_ok n out : digits out -> normal out ->
  digits (compute_base_to_n base n out) /\ normal (compute_base_to_n base n out) /\ dval (compute_base_to_n base n out) = dval out * base ^ Z.of_nat n.
Proof using Hbase L.
  revert out. induction n as [|n IH]; intros out Ho No; cbn [compute_base_to_n]; [rewrite Z.pow_0_r; split; [done|]; split; [done|lia]|]. destruct (D_mul_ok out base Ho No base_digit) as (H1 & H2 & H3 & _). destruct (IH _ H1 H2) as (H4 & H5 & H6).
  split; [done|]. split; [done|]. rewrite H6, H3, Nat2Z.inj_succ, Z.pow_succ_r by lia. lia.
Qed.
Lemma count_levels_ok fuel w target n : 1 <= w -> target <= w * 2 ^ Z.of_nat fuel -> target <= 2 ^ 32 ->
  exists j, count_levels fuel w target n = Some (n + j)%nat /\ target <= 2 * (w * 2 ^ Z.of_nat j) /\ ((0 < j)%nat -> w * 2 ^ Z.of_nat j < target).
Proof using.
  intros Hw Hf Ht. change (2 ^ 32) with 4294967296 in Ht. revert w n Hw Hf. induction fuel as [|fuel IH]; intros w n Hw Hf; cbn [count_levels]; (destruct (Z.ltb_spec (w * 2) target) as [Hlt|]; [|exists 0%nat; rewrite Z.pow_0_r, Nat.add_0_r; split; [done|]; split; lia]).
  - rewrite Z.pow_0_r in Hf. lia.
  - change ((2 ^ 32 - 1) / 2) with 2147483647. destruct (Z.ltb_spec 2147483647 w); [lia|]. rewrite Nat2Z.inj_succ, Z.pow_succ_r in Hf by lia. destruct (IH (w * 2) (S n)) as (j & -> & H1 & H2); [lia|lia|]. exists (S j). rewrite Nat.add_succ_comm, Nat2Z.inj_succ, Z.pow_succ_r by lia. split; [done|]. split; [lia|]. intros _.
    destruct j as [|j]; [rewrite Z.pow_0_r; lia|]. specialize (H2 ltac:(lia)). lia.
Qed.

(** The powers of the levels, the highest one first; the [n]th level is of width
    [250 * 2 ^ n]. *)
Definition level_width (n : nat) : Z := WRITE_BIG_DC_THRESHOLD * 2 ^ Z.of_nat n.
Definition power_ok (w : Z) (val : list Z) : Prop := digits val /\ normal val /\ dval val = base ^ w.
Inductive powers : nat -> list (Z * list Z) -> Prop :=
| powers_nil : powers 0 []
| powers_cons n val c : power_ok (level_width n) val -> powers n c -> powers (S n) ((level_width n, val) :: c).

Lemma level_width_S n : level_width (S n) = 2 * level_width n.
Proof using. unfold level_width. rewrite Nat2Z.inj_succ, Z.pow_succ_r; lia. Qed.
Lemma level_width_mono i j : (i <= j)%nat -> level_width i <= level_width j.
Proof using. intros H. unfold level_width, WRITE_BIG_DC_THRESHOLD. pose proof (Z.pow_le_mono_r 2 (Z.of_nat i) (Z.of_nat j)). lia. Qed.
Lemma level_width_pos n : 250 <= level_width n.
Proof using. change 250 with (level_width 0). apply level_width_mono. lia. Qed.
Lemma dc_powers_ok n : (0 < n)%nat -> exists ls, dc_powers base n = Some ls /\ powers n ls.
Proof using Hbase L.
  induction n as [|[|n] IH]; intros Hn; [lia| |].
  - eexists. split; [reflexivity|]. apply (powers_cons 0); [|constructor]. unfold power_ok. destruct (compute_base_to_n_ok (Z.to_nat WRITE_BIG_DC_THRESHOLD) [1]) as (H1 & H2 & H3); [apply digits_one, digit_1|apply normal_singleton, digit_1|]. split; [done|]. split; [done|]. rewrite H3. cbn [dval]. unfold level_width. rewrite Z.pow_0_r, Z.mul_1_r. change (Z.of_nat (Z.to_nat WRITE_BIG_DC_THRESHOLD)) with WRITE_BIG_DC_THRESHOLD. lia.
  - destruct (IH ltac:(lia)) as (ls & E & Hls). change (dc_powers base (S (S n))) with (levels ← dc_powers base (S n); match levels with [] => None | (w, prev) :: _ => sq ← I_mul_karatsuba (S (length prev)) true prev prev; Some ((w * 2, trim sq) :: levels) end).
    rewrite E. cbn [mbind option_bind]. inversion Hls as [|m val c (H1 & H2 & H3) Hc]; subst. destruct (I_mul_karatsuba_ok (S (length val)) true val val) as (sq & -> & Hsq & Hne & Esq & _); [done..|lia|done|lia|]. cbn [mbind option_bind].
    eexists. split; [done|]. replace (level_width n * 2) with (level_width (S n)) by (rewrite level_width_S; lia). constructor; [|done]. destruct (trim_ok sq Hsq Hne) as (T1 & T2 & T3 & _). split; [done|]. split; [done|]. pose proof (level_width_pos n). rewrite T3, Esq, H3, level_width_S, <- Z.pow_add_r by lia. f_equal. lia.
Qed.

(** ** The reciprocals *)

Definition mu_ok (val : list Z) (mu : option (list Z)) : Prop :=
  match mu with None => True | Some mu => digits mu /\ normal mu /\ dval mu = DB ^ (2 * zlen val + 1) / dval val end.
(** A power that is divided by: two digits at least, and not too many. *)
Lemma power_size w val : power_ok w val -> 250 <= w < 2 ^ 23 -> (2 <= length val)%nat /\ zlen val < 2 ^ 23.
Proof using Hbase.
  intros (Hv & Nv & Ev) Hw. unfold base_ok in Hbase. change (2 ^ 23) with 8388608 in *. unfold zlen. pose proof (dval_range val Hv) as R. rewrite pw_nat in R.
  assert (DB ^ 3 <= base ^ w) as Hlow. { etransitivity; [|apply (Z.pow_le_mono_r base 250); lia]. etransitivity; [|apply (Z.pow_le_mono_l 2 base 250); lia]. done. }
  assert (base ^ w < DB ^ Z.of_nat (Z.to_nat w)) as Hup by (rewrite Z2Nat.id by lia; apply Z.pow_lt_mono_l; lia).
  pose proof (normal_size val (Z.to_nat w) Hv Nv ltac:(lia) ltac:(lia)). split; [|lia]. destruct (Nat.le_gt_cases 2 (length val)) as [|Hgt]; [done|]. pose proof (Z.pow_le_mono_r DB (Z.of_nat (length val)) 3 ltac:(lia) ltac:(lia)). lia.
Qed.
Lemma dc_reciprocal_ok w val : power_ok w val -> 250 <= w < 2 ^ 23 -> exists mu, dc_reciprocal val = Some mu /\ mu_ok val mu.
Proof using Hbase L.
  intros Hp Hw. destruct (power_size w val Hp Hw) as [Hl Hz]. destruct Hp as (Hv & Nv & Ev). unfold dc_reciprocal. destruct (_ <? _)%nat; [by exists None|]. set (num := replicate (2 * length val + 1) 0 ++ [1]).
  assert (digits num) as Hnum by (apply digits_app; split; [apply digits_zeros|apply digits_one, digit_1]). assert (normal num) as Nnum. { split; [by destruct (replicate (2 * length val + 1) 0)|]. unfold num. rewrite last_snoc. done. }
  assert (dval num = DB ^ (2 * zlen val + 1)) as Enum. { unfold num. rewrite dval_app, dval_zeros, pw_nat, length_replicate. cbn [dval]. rewrite Z.mul_0_r, Z.add_0_r, Z.mul_1_r, Z.add_0_l. f_equal. unfold zlen. lia. }
  pose proof (dval_range val Hv) as R. rewrite pw_nat in R. assert (DB ^ Z.of_nat (length val) <= DB ^ (2 * zlen val + 1)) by (apply Z.pow_le_mono_r; unfold zlen; lia). change (2 ^ 23) with 8388608 in *.
  destruct (I_div_dispatch_ok num val) as (q & r & -> & Hq & Nq & Hr & Nr & E & Rr); [done..|lia|change (2 ^ 50) with 1125899906842624; lia|]. cbn [mbind option_bind]. eexists. split; [done|]. destruct (trim_ok q Hq (proj1 Nq)) as (T1 & T2 & T3 & _). split; [done|]. split; [done|]. rewrite T3, <- Enum. apply (Z.div_unique_pos _ _ _ (dval r)); lia.
Qed.

Record level_ok (n : nat) (l : dc_level) : Prop := {
  lvl_width : dc_width l = level_width n;
  lvl_power : power_ok (level_width n) (dc_val l);
  lvl_mu : mu_ok (dc_val l) (dc_mu l);
  lvl_small : level_width n < 2 ^ 23 }.
Inductive levels : nat -> list dc_level -> Prop :=
| levels_nil : levels 0 []
| levels_cons n l c : level_ok n l -> levels n c -> levels (S n) (l :: c).

Lemma levels_of_powers n ls : powers n ls -> ((0 < n)%nat -> level_width (n - 1) < 2 ^ 23) ->
  exists c, mapM (fun '(w, val) => mu ← dc_reciprocal val; Some {| dc_width := w; dc_val := val; dc_mu := mu |}) ls = Some c /\ levels n c.
Proof using Hbase L.
  induction 1 as [|n val ls Hp Hls IH]; intros Hw; [exists []; split; [done|constructor]|]. specialize (Hw ltac:(lia)). cbn [Nat.sub] in Hw. rewrite Nat.sub_0_r in Hw. destruct IH as (c & Ec & Hc); [intros Hn; pose proof (level_width_mono (n - 1) n ltac:(lia)); lia|].
  destruct (dc_reciprocal_ok (level_width n) val Hp) as (mu & Emu & Hmu); [pose proof (level_width_pos n); lia|]. cbn [mapM]. rewrite Emu. cbn [mbind option_bind mret option_ret]. rewrite Ec. cbn [mbind option_bind]. eexists. split; [done|]. by constructor.
Qed.
(** The highest level is above half of the width, and all are below the width. *)
Lemma build_dc_powers_ok target : 500 <= target < 2 ^ 23 -> exists n c, build_dc_powers base target = Some c /\ levels n c /\ (0 < n)%nat /\ target <= level_width n.
Proof using Hbase L.
  intros Ht. change (2 ^ 23) with 8388608 in Ht. unfold build_dc_powers. rewrite (proj2 (Z.leb_gt _ _)) by (unfold WRITE_BIG_DC_THRESHOLD; lia).
  destruct (count_levels_ok 32 WRITE_BIG_DC_THRESHOLD target 1) as (j & -> & H1 & H2); [unfold WRITE_BIG_DC_THRESHOLD; lia|unfold WRITE_BIG_DC_THRESHOLD; change (2 ^ Z.of_nat 32) with 4294967296; lia|change (2 ^ 32) with 4294967296; lia|]. cbn [mbind option_bind].
  fold (level_width j) in H1, H2. destruct (dc_powers_ok (1 + j) ltac:(lia)) as (ls & -> & Hls). cbn [mbind option_bind]. destruct (levels_of_powers _ ls Hls) as (c & -> & Hc).
  - intros _. replace (1 + j - 1)%nat with j by lia. change (2 ^ 23) with 8388608. destruct j; [change (level_width 0) with 250; lia|]. specialize (H2 ltac:(lia)). lia.
  - exists (1 + j)%nat, c. split; [done|]. split; [done|]. split; [lia|]. cbn [Nat.add]. rewrite level_width_S. lia.
Qed.

(** ** Division with the reciprocal *)

(** The estimate is the quotient or one less. *)
Lemma barrett_estimate v d K : 0 < d -> 0 <= v < K -> let qhat := v * (K / d) / K in 0 <= qhat <= v / d /\ v / d <= qhat + 1.
Proof using.
  intros Hd Hv. cbv zeta. pose proof (Z.div_mod K d ltac:(lia)) as EK. pose proof (Z.mod_pos_bound K d Hd) as RK. pose proof (Z.div_mod v d ltac:(lia)) as Ev. pose proof (Z.mod_pos_bound v d Hd) as Rv. set (mu := K / d) in *. set (e := K mod d) in *. set (q := v / d) in *. set (r := v mod d) in *. clearbody mu e q r.
  assert (0 <= mu) by nia. assert (0 <= q) by nia. split; [split; [apply Z.div_pos; nia|]|].
  - apply Z.lt_succ_r, Z.div_lt_upper_bound; [lia|]. assert (v * (mu * d) <= v * K) by (apply Z.mul_le_mono_nonneg_l; lia). assert (v * K < K * Z.succ q * d); [|nia]. assert (v < Z.succ q * d) by lia. nia.
  - assert (q - 1 <= v * mu / K); [|lia]. apply Z.div_le_lower_bound; [lia|]. assert (K * (q - 1) * d <= v * mu * d); [|nia]. assert (v * (mu * d) = v * K - v * e) by nia. assert (v * e <= K * d) by nia. nia.
Qed.
Lemma normal_drop n x : normal x -> (n < length x)%nat -> normal (drop n x).
Proof using.
  intros [_ Hn] Hl. assert (drop n x <> []) as Hne by (apply nonempty; rewrite length_drop; lia). split; [done|]. intros E. assert (x = take n x ++ drop n x) as Ex by (symmetry; apply take_drop). rewrite Ex, last_app, E in Hn. specialize (Hn eq_refl).
  apply (f_equal length) in Hn. rewrite <- Ex in Hn. cbn [length] in Hn. assert (n = 0)%nat as -> by lia. destruct x as [|? [|]]; cbn [length] in Hn; try lia. cbn in E |- *. congruence.
Qed.
(** The digits from the [n]th on are the quotient by that power. *)
Lemma shifted_digits prod n : digits prod -> normal prod -> let qhat := if (length prod <=? n)%nat then [0] else drop n prod in
  digits qhat /\ normal qhat /\ dval qhat = dval prod / DB ^ Z.of_nat n.
Proof using.
  intros Hp Np. cbv zeta. pose proof (dval_range prod Hp) as R. rewrite pw_nat in R. destruct (Nat.leb_spec (length prod) n) as [Hle|Hgt].
  - split; [apply digits_one, digit_0|]. split; [apply normal_singleton, digit_0|]. pose proof (Z.pow_le_mono_r DB (Z.of_nat (length prod)) (Z.of_nat n) ltac:(lia) ltac:(lia)). rewrite Z.div_small by lia. done.
  - destruct (bz_split_at n prod Hp ltac:(lia)) as (Hlo & Hhi & Ll & _ & E). split; [done|]. split; [by apply normal_drop|]. pose proof (dval_range _ Hlo) as Rl. rewrite pw_nat, Ll in Rl. apply (Z.div_unique_pos _ _ _ (dval (take n prod))); lia.
Qed.
Lemma barrett_correct_ok allowed qhat r d : digits qhat -> normal qhat -> digits r -> normal r -> digits d -> normal d -> 0 < dval d -> dval r < (1 + Z.of_nat allowed) * dval d ->
  exists q r', barrett_correct allowed qhat r d = Some (q, r') /\ digits q /\ normal q /\ digits r' /\ normal r' /\ dval q * dval d + dval r' = dval qhat * dval d + dval r /\ 0 <= dval r' < dval d.
Proof using.
  revert qhat r. induction allowed as [|allowed IH]; intros qhat r Hq Nq Hr Nr Hd Nd Hpos Hlt; cbn [barrett_correct]; rewrite comp_ge by done; pose proof (dval_range r Hr); (destruct (Z.leb_spec (dval d) (dval r)); [|exists qhat, r; parts]).
  - lia.
  - destruct (sub_normal_ok r d) as (r1 & -> & H1 & H2 & H3 & _); [done..|]. cbn [mbind option_bind]. destruct (D_add_ok qhat 1 Hq (proj1 Nq) digit_1) as (A1 & A2 & A3 & _). destruct (IH (D_add qhat 1) r1) as (q & r' & -> & I1 & I2 & I3 & I4 & I5 & I6); [done|by apply A3|done..|lia|]. exists q, r'. rewrite I5, A2, H3. parts.
Qed.
Lemma op_mul_ok x y : digits x -> digits y -> normal x -> normal y -> exists r, I_OPERATION bz_mul x y = Some r /\ digits r /\ r <> [] /\ dval r = dval x * dval y.
Proof using L.
  intros Hx Hy Nx Ny. unfold I_OPERATION, bz_mul. destruct (Nat.leb_spec (length y) (length x)).
  - destruct (I_mul_karatsuba_ok (S (length x)) false x y) as (r & -> & H1 & H2 & H3 & _); [done..|lia|]. by exists r.
  - destruct (I_mul_karatsuba_ok (S (length y)) false y x) as (r & -> & H1 & H2 & H3 & _); [done..|lia|done|lia|]. exists r. rewrite H3, Z.mul_comm. done.
Qed.
Lemma trim_normal x : digits x -> normal x -> trim x = x.
Proof using. intros Hx Nx. destruct (trim_ok x Hx (proj1 Nx)) as (H1 & H2 & H3 & _). by apply normal_unique. Qed.
Lemma comp_lt a b : digits a -> digits b -> normal a -> normal b -> (I_comp a b <? 0) = (dval a <? dval b).
Proof using. intros. rewrite Z.ltb_antisym, comp_ge, <- Z.ltb_antisym by done. done. Qed.
(** No correction beyond those allowed, and no remainder below 0. *)
Lemma barrett_mu_ok v d mu : digits v -> normal v -> digits d -> normal d -> 0 < dval d <= dval v -> dval v < DB ^ (2 * zlen d + 1) ->
  digits mu -> normal mu -> dval mu = DB ^ (2 * zlen d + 1) / dval d -> forall w,
  exists q r, barrett_divmod v {| dc_width := w; dc_val := d; dc_mu := Some mu |} = Some (q, r) /\ digits q /\ normal q /\ digits r /\ normal r /\ dval v = dval q * dval d + dval r /\ 0 <= dval r < dval d.
Proof using L.
  intros Hv Nv Hd Nd Hdv Hlt Hmu Nmu Emu w. unfold barrett_divmod. cbn [dc_val dc_mu]. rewrite (trim_normal v), (trim_normal mu) by done. rewrite comp_lt, (proj2 (Z.ltb_ge (dval v) (dval d))) by (done || lia).
  destruct (op_mul_ok v mu Hv Hmu Nv Nmu) as (prod & -> & Hprod & Hne & Eprod). cbn [mbind option_bind]. destruct (trim_ok prod Hprod Hne) as (T1 & T2 & T3 & _). destruct (shifted_digits (trim prod) (2 * length d + 1) T1 T2) as (Q1 & Q2 & Q3). set (qhat := if _ : bool then [0] else drop _ _) in *. clearbody qhat.
  replace (Z.of_nat (2 * length d + 1)) with (2 * zlen d + 1) in Q3 by (unfold zlen; lia). rewrite T3, Eprod, Emu in Q3. pose proof (barrett_estimate (dval v) (dval d) (DB ^ (2 * zlen d + 1)) ltac:(lia) ltac:(lia)) as [Hlow Hup]. rewrite <- Q3 in Hlow, Hup.
  assert (exists qd, (if bool_decide (qhat = [0]) then Some [0] else I_OPERATION bz_mul qhat d) = Some qd /\ digits qd /\ qd <> [] /\ dval qd = dval qhat * dval d) as (qd & -> & D1 & D2 & D3). { case_bool_decide as E; [|by apply op_mul_ok]. exists [0]. rewrite E. split; [done|]. split; [apply digits_one, digit_0|]. done. }
  cbn [mbind option_bind]. destruct (trim_ok qd D1 D2) as (U1 & U2 & U3 & _). rewrite D3 in U3. pose proof (Z.div_mod (dval v) (dval d) ltac:(lia)) as E. pose proof (Z.mod_pos_bound (dval v) (dval d) ltac:(lia)) as Rm. assert (dval qhat * dval d <= dval v) as Hqd by nia.
  rewrite comp_lt, (proj2 (Z.ltb_ge (dval v) (dval (trim qd)))) by (done || lia).
  destruct (sub_normal_ok v (trim qd)) as (r & -> & R1 & R2 & R3 & _); [done..|lia|]. cbn [mbind option_bind]. destruct (barrett_correct_ok BARRETT_MAX_CORRECTIONS qhat r d) as (q & r' & -> & C1 & C2 & C3 & C4 & C5 & C6); [done..|lia|change (1 + Z.of_nat BARRETT_MAX_CORRECTIONS) with 5; nia|].
  exists q, r'. split; [done|]. split; [done|]. split; [done|]. split; [done|]. split; [done|]. split; [lia|done].
Qed.
Lemma barrett_divmod_ok n l v : level_ok n l -> digits v -> normal v -> base ^ level_width n <= dval v < base ^ level_width (S n) ->
  exists q r, barrett_divmod v l = Some (q, r) /\ digits q /\ normal q /\ digits r /\ normal r /\ dval q = dval v / base ^ level_width n /\ dval r = dval v mod base ^ level_width n.
Proof using Hbase L.
  intros [Hw Hp Hm Hs] Hv Nv Hrange. pose proof (level_width_pos n) as Hpos. destruct (power_size _ _ Hp ltac:(lia)) as [Hl Hz]. destruct Hp as (Hd & Nd & Ed). pose proof (base_pow_pos (level_width n) ltac:(lia)) as Hp1. rewrite level_width_S in Hrange. replace (2 * level_width n) with (level_width n + level_width n) in Hrange by lia. rewrite Z.pow_add_r in Hrange by lia. rewrite <- !Ed in *.
  assert (exists q r, barrett_divmod v l = Some (q, r) /\ digits q /\ normal q /\ digits r /\ normal r /\ dval v = dval q * dval (dc_val l) + dval r /\ 0 <= dval r < dval (dc_val l)) as (q & r & -> & H1 & H2 & H3 & H4 & E & R).
  { destruct l as [w d [mu|]]; cbn [dc_width dc_val dc_mu] in *.
    - destruct Hm as (M1 & M2 & M3). apply barrett_mu_ok; try done; [lia|]. pose proof (dval_range d Hd) as Rd. rewrite pw_nat in Rd. replace (2 * zlen d + 1) with (1 + (Z.of_nat (length d) + Z.of_nat (length d))) by (unfold zlen; lia). rewrite !Z.pow_add_r, Z.pow_1_r by lia. set (P := DB ^ Z.of_nat (length d)) in *. assert (dval d * dval d <= P * P) by nia. assert (0 < P * P) by nia. lia.
    - unfold barrett_divmod. cbn [dc_mu dc_val]. apply I_div_dispatch_ok; try done; [lia|]. change (2 ^ 23) with 8388608 in Hz. change (2 ^ 50) with 1125899906842624. lia. }
  exists q, r. split; [done|]. split; [done|]. split; [done|]. split; [done|]. split; [done|]. split; [apply (Z.div_unique_pos _ _ _ (dval r)); lia|apply (Z.mod_unique_pos _ _ (dval q)); lia].
Qed.

(** ** The text *)

Lemma find_width n c j : levels n c -> (j < n)%nat -> exists l, find_level (fun l => dc_width l <=? level_width (S j) / 2) c = Some l /\ level_ok j l.
Proof using.
  rewrite level_width_S, Z.mul_comm, Z.div_mul by lia. induction 1 as [|n l c Hl Hc IH]; intros Hj; [lia|]. cbn [find_level]. rewrite (lvl_width _ _ Hl). destruct (decide (j = n)) as [->|].
  - rewrite Z.leb_refl. by exists l.
  - pose proof (level_width_mono (S j) n ltac:(lia)) as Hm. rewrite level_width_S in Hm. pose proof (level_width_pos j). rewrite (proj2 (Z.leb_gt _ _)) by lia. apply IH. lia.
Qed.
(** The highest power that is not above the number. *)
Lemma find_power n c v : levels n c -> digits v -> normal v ->
  match find_level (fun l => 0 <=? I_comp v (dc_val l)) c with
  | None => True
  | Some l => exists i, level_ok i l /\ (i < n)%nat /\ base ^ level_width i <= dval v /\ ((S i < n)%nat -> dval v < base ^ level_width (S i))
  end.
Proof using Hbase.
  intros Hc Hv Nv. induction Hc as [|n l c Hl Hc IH]; [done|]. cbn [find_level]. pose proof (lvl_power _ _ Hl) as (Hd & Nd & Ed). rewrite comp_ge, Ed by done. destruct (Z.leb_spec (base ^ level_width n) (dval v)) as [Hle|Hgt].
  - exists n. split; [done|]. split; [lia|]. split; [done|lia].
  - destruct (find_level _ c) as [l'|]; [|done]. destruct IH as (i & H1 & H2 & H3 & H4). exists i. split; [done|]. split; [lia|]. split; [done|]. intros _. destruct (decide (S i = n)) as [<-|]; [done|]. apply H4. lia.
Qed.
(** Halves of as many digits. *)
Lemma radix_halves w v out : 0 <= w -> 0 <= v -> radix base (Z.to_nat (2 * w)) v out = radix base (Z.to_nat w) (v / base ^ w) (radix base (Z.to_nat w) (v mod base ^ w) out).
Proof using Hbase. intros Hw Hv. unfold base_ok in Hbase. replace (Z.to_nat (2 * w)) with (Z.to_nat w + Z.to_nat w)%nat by lia. rewrite radix_split, Z2Nat.id by lia. done. Qed.

Lemma write_big_dc_padded_ok n c j fuel v out : levels n c -> (j <= n)%nat -> (j < fuel)%nat -> digits v -> normal v -> dval v < base ^ level_width j ->
  write_big_dc_padded fuel v base (level_width j) out c = Some (radix base (Z.to_nat (level_width j)) (dval v) out).
Proof using Hbase L.
  intros Hc. revert fuel v out. induction j as [|j IH]; intros [|fuel] v out Hj Hf Hv Nv Hlt; try lia; cbn [write_big_dc_padded].
  - change (level_width 0 <=? WRITE_BIG_DC_THRESHOLD) with true. cbn iota. change (level_width 0) with (Z.of_nat 250) in *. rewrite (write_big_simple_padded base Hbase v out 250) by (done || lia). rewrite Nat2Z.id. done.
  - pose proof (level_width_pos j) as Hpos. rewrite (proj2 (Z.leb_gt _ _)) by (rewrite level_width_S; unfold WRITE_BIG_DC_THRESHOLD; lia). destruct (find_width n c j Hc ltac:(lia)) as (l & -> & Hl). cbn [mbind option_bind]. rewrite (lvl_width _ _ Hl). pose proof (lvl_power _ _ Hl) as (Hd & Nd & Ed).
    rewrite comp_lt, Ed by done. pose proof (dval_range v Hv) as Rv. pose proof (base_pow_pos (level_width j) ltac:(lia)) as Hp. replace (level_width (S j) - level_width j) with (level_width j) by (rewrite level_width_S; lia). rewrite (level_width_S j) at 1. rewrite (radix_halves (level_width j)) by lia. destruct (Z.ltb_spec (dval v) (base ^ level_width j)) as [Hsm|Hge].
    + rewrite IH by (done || lia). cbn [mbind option_bind]. rewrite Z.div_small, Z.mod_small, radix_zero by (unfold base_ok in Hbase; lia). done.
    + destruct (barrett_divmod_ok j l v Hl Hv Nv ltac:(lia)) as (q & r & -> & Hq & Nq & Hr & Nr & Eq & Er). cbn [mbind option_bind]. rewrite IH by (done || lia || (rewrite Er; apply Z.mod_pos_bound; lia)). cbn [mbind option_bind]. rewrite Er, IH, Eq; [done|lia|lia|done|done|].
      rewrite Eq. apply Z.div_lt_upper_bound; [lia|]. rewrite <- Z.pow_add_r by lia. rewrite level_width_S in Hlt. replace (level_width j + level_width j) with (2 * level_width j) by lia. done.
Qed.
Lemma natural_text_split w v out : 0 <= w -> base ^ w <= v -> natural_text base v ++ out = natural_text base (v / base ^ w) ++ radix base (Z.to_nat w) (v mod base ^ w) out /\ zlen (natural_text base v) = zlen (natural_text base (v / base ^ w)) + w.
Proof using Hbase.
  intros Hw Hv. pose proof (base_pow_pos w Hw) as Hp. unfold base_ok in Hbase. assert (1 <= v / base ^ w) as Hq by (apply Z.div_le_lower_bound; lia). unfold natural_text. rewrite (proj2 (Z.eqb_neq v 0)), (proj2 (Z.eqb_neq (v / base ^ w) 0)) by lia. pose proof (text_width_split base (Z.to_nat w) v ltac:(lia)) as Ew. rewrite Z2Nat.id in Ew by lia. specialize (Ew Hv).
  rewrite <- !radix_app. unfold zlen. rewrite !length_radix, Ew. split; [|cbn [length]; lia]. rewrite radix_split, Z2Nat.id by lia. done.
Qed.
Lemma write_big_dc_top_ok n c k v out : levels n c -> (k <= n)%nat -> digits v -> normal v -> dval v < base ^ level_width k ->
  write_big_dc_top (S k) v base out c = Some (natural_text base (dval v) ++ out, zlen (natural_text base (dval v))).
Proof using Hbase L.
  intros Hc. assert (length c = n) as Elen by (clear -Hc; induction Hc; cbn [length]; lia). remember (S k) as fuel eqn:Ef. revert k Ef v out. induction fuel as [|fuel IH]; intros k Ef v out Hk Hv Nv Hlt; [done|]. injection Ef as ->. cbn [write_big_dc_top]. pose proof (find_power n c v Hc Hv Nv) as Hfind. destruct (find_level _ c) as [l|]; [|by apply write_big_simple_ok].
  destruct Hfind as (i & Hl & Hi & Hge & Hnext). unfold base_ok in Hbase. pose proof (level_width_pos i) as Hpos. assert (i < k)%nat as Hik. { destruct (Nat.lt_ge_cases i k) as [|Hki]; [done|]. pose proof (Z.pow_le_mono_r base (level_width k) (level_width i) ltac:(lia) (level_width_mono _ _ Hki)). lia. }
  assert (dval v < base ^ level_width (S i)) as Hup. { destruct (decide (S i < n)%nat); [by apply Hnext|]. replace (S i) with k by lia. done. }
  destruct (barrett_divmod_ok i l v Hl Hv Nv ltac:(lia)) as (q & r & -> & Hq & Nq & Hr & Nr & Eq & Er). cbn [mbind option_bind]. rewrite (lvl_width _ _ Hl). pose proof (base_pow_pos (level_width i) ltac:(lia)) as Hp. rewrite (write_big_dc_padded_ok n c i) by (done || lia || (rewrite Er; apply Z.mod_pos_bound; lia)). cbn [mbind option_bind].
  destruct k as [|k]; [lia|]. rewrite (IH k eq_refl q); [|lia|done|done|].
  - cbn [mbind option_bind]. rewrite Eq, Er. destruct (natural_text_split (level_width i) (dval v) out ltac:(lia) Hge) as [-> ->]. done.
  - rewrite Eq. apply Z.div_lt_upper_bound; [lia|]. eapply Z.lt_le_trans; [exact Hup|]. rewrite <- Z.pow_add_r by (pose proof (level_width_pos k); lia). apply Z.pow_le_mono_r; [lia|]. rewrite level_width_S. pose proof (level_width_mono i k ltac:(lia)). lia.
Qed.

(** The buffer of the estimated width has room. *)
Lemma write_buffer_ok v : digits v -> normal v -> zlen v <= BIG_ARITY_MAX -> write_buffer v base = Some (natural_text base (dval v)).
Proof using Hbase L.
  intros Hv Nv Hl. assert (1 <= zlen v) as Hl1 by (unfold zlen; destruct v; [by destruct Nv|cbn [length]; lia]). unfold write_buffer. destruct (width_estimate_ok (zlen v) base Hbase ltac:(lia)) as (w & -> & Hw & Hlt). cbn [mbind option_bind]. pose proof (dval_range v Hv) as R. unfold pw in R.
  pose proof (natural_text_len base (dval v) (Z.to_nat (w - 1)) Hbase) as Hlen. rewrite Z2Nat.id in Hlen by lia. specialize (Hlen ltac:(lia) ltac:(lia)).
  match goal with |- ?e ≫= _ = _ => assert (e = Some (natural_text base (dval v), zlen (natural_text base (dval v)))) as -> end.
  - destruct (Z.leb_spec (2 * WRITE_BIG_DC_THRESHOLD) w) as [Hdc|]; [|by rewrite write_big_simple_ok, app_nil_r by done].
    change (2 * WRITE_BIG_DC_THRESHOLD) with 500 in Hdc. destruct (build_dc_powers_ok w ltac:(lia)) as (n & c & -> & Hc & Hn & Ht). cbn [mbind option_bind]. assert (length c = n) as Elen by (clear -Hc; induction Hc; cbn [length]; lia). rewrite Elen, (write_big_dc_top_ok n c n v [] Hc) by (done || lia || (pose proof (Z.pow_le_mono_r base (w - 1) (level_width n) ltac:(unfold base_ok in Hbase; lia) ltac:(lia)); lia)). by rewrite app_nil_r.
  - cbn [mbind option_bind]. unfold zlen in *. rewrite (proj2 (Z.ltb_ge _ _)), Nat2Z.id, firstn_all by lia. done.
Qed.
Lemma write_big_ok z t : big_rep z t -> write_big t base = Some (reverse (integer_text base z)).
Proof using Hbase L.
  intros (sign & v & -> & Hv & Nv & Ez & Hs & Hl). unfold write_big. cbn [big_val mbind option_bind]. destruct (tables base Hbase) as (k & d & P & _ & _ & -> & Hk & EP & HP & _). cbn [mbind option_bind]. pose proof (write_buffer_ok v Hv Nv Hl) as Eb. pose proof (dval_range v Hv) as R.
  assert (Z.abs z = dval v /\ (z <? 0) = sign) as [Ea Es]. { unfold sval in Ez. destruct sign; [specialize (Hs eq_refl); split; [lia|apply Z.ltb_lt; lia]|split; [lia|apply Z.ltb_ge; lia]]. }
  match goal with |- ?e ≫= _ = _ => assert (e = Some (natural_text base (dval v))) as -> end.
  { destruct v as [|rem [|]]; [done| |done]. destruct (Z.ltb_spec rem P); [|done]. cbn [dval] in *. rewrite Z.mul_0_r, Z.add_0_r in *. unfold natural_text. destruct (Z.eqb_spec rem 0); [done|]. unfold base_ok in Hbase. change (2 ^ 63) with 9223372036854775808 in HP. rewrite rem_chars_ok; [done|lia|]. pose proof (Z.pow_le_mono_l 2 base (Z.of_nat 64) ltac:(lia)). change (2 ^ Z.of_nat 64) with DB in *. lia. }
  cbn [mbind option_bind]. unfold integer_text. rewrite Ea, Es. destruct sign; [|by rewrite app_nil_r]. rewrite reverse_app. done.
Qed.
Lemma fold_chars {A} (l : list A) tl : fold_left (fun res c => c :: res) (reverse l) tl = l ++ tl.
Proof using. induction l as [|a l IH]; [done|]. rewrite reverse_cons, fold_left_app, IH. done. Qed.
Lemma erts_big_to_list_ok z t : big_rep z t -> erts_big_to_list t base = Some (integer_text base z).
Proof using Hbase L. intros Hz. unfold erts_big_to_list. rewrite (write_big_ok z) by done. cbn [mbind option_bind]. by rewrite fold_chars, app_nil_r. Qed.
Lemma erts_big_to_string_ok z t buf_sz : big_rep z t -> zlen (integer_text base z) + 1 <= buf_sz -> erts_big_to_string t base buf_sz = Some (integer_text base z ++ [0]).
Proof using Hbase L. intros Hz Hb. unfold erts_big_to_string. rewrite (write_big_ok z) by done. cbn [mbind option_bind]. unfold zlen in *. rewrite length_reverse, (proj2 (Z.ltb_ge _ _)), fold_chars by lia. done. Qed.
Lemma erts_big_to_binary_bytes_ok z t buf_sz : big_rep z t -> zlen (integer_text base z) <= buf_sz -> erts_big_to_binary_bytes t base buf_sz = Some (integer_text base z, zlen (integer_text base z)).
Proof using Hbase L. intros Hz Hb. unfold erts_big_to_binary_bytes. rewrite (write_big_ok z) by done. cbn [mbind option_bind]. unfold zlen in *. rewrite length_reverse, (proj2 (Z.ltb_ge _ _)), fold_chars, app_nil_r by lia. done. Qed.

(** C31: a bignum is written as the text of its number in every base of 2 to 36: the tables of
    powers, the reciprocals and the splitting of long numbers do not show.  No internal
    error is reached and no buffer is overrun, neither the one for the digits nor one of the
    size that [big_integer_estimate] gives. *)
Theorem bignum_text z t : big_rep z t -> 32 <= Z.abs z ->
  write_big t base = Some (reverse (integer_text base z)) /\ erts_big_to_list t base = Some (integer_text base z) /\
  exists buf_sz, big_integer_estimate t base = Some buf_sz /\ erts_big_to_string t base buf_sz = Some (integer_text base z ++ [0]) /\
    erts_big_to_binary_bytes t base buf_sz = Some (integer_text base z, zlen (integer_text base z)).
Proof using Hbase L.
  intros Hz Habs. split; [by apply write_big_ok|]. split; [by apply erts_big_to_list_ok|]. destruct (big_integer_estimate_ok z t base Hbase Hz Habs) as (est & -> & Hest). exists est. split; [done|]. split; [by apply erts_big_to_string_ok|]. apply erts_big_to_binary_bytes_ok; [done|lia].
Qed.
End Laws.

Lemma bignum_text_witness :
  write_big (Bignum true [1; 1]) 16 = Some (reverse (integer_text 16 (- (2 ^ 64 + 1)))) /\ erts_big_to_list (Bignum true [1; 1]) 16 = Some (integer_text 16 (- (2 ^ 64 + 1))) /\
  exists buf_sz, big_integer_estimate (Bignum true [1; 1]) 16 = Some buf_sz /\ erts_big_to_string (Bignum true [1; 1]) 16 buf_sz = Some (integer_text 16 (- (2 ^ 64 + 1)) ++ [0]) /\
    erts_big_to_binary_bytes (Bignum true [1; 1]) 16 buf_sz = Some (integer_text 16 (- (2 ^ 64 + 1)), zlen (integer_text 16 (- (2 ^ 64 + 1)))).
Proof.
  apply (bignum_text 16 ltac:(unfold base_ok; lia)); [|lia]. exists true, [1; 1]. split; [done|]. split; [repeat constructor; done|]. split; [split; done|]. split; [done|]. split; done.
Defined.
