(* ===== verification/BigConv.v ===== *)
(** * Conversions between integers and text

    The functions of [erts/emulator/beam/bif.c] and [binary.c] that write integers, small or
    big, as lists and binaries, with [Sint_to_buf] and [buf_to_intlist] of [utils.c], and those
    of [big.c] that read small ones. *)
From S2P Require Import Prelude PutGet BigDigit BigNat BigTerm BigArith BigText BigWidth BigWrite.

(** ** The code that writes *)

(** The characters from [*buf] on, and their number; [None] when the buffer is too short. *)
Definition Sint_to_buf (n base buf_size : Z) : option (list Z * Z) :=
  let '(p, size) := if n =? 0 then ([48], 1) else ([], 0) in
  let '(sign, n) := if n <? 0 then (true, - n) else (false, n) in
  '(p, size) ← rem_chars 64 base n p size;
  let '(p, size) := if sign : bool then (45 :: p, size + 1) else (p, size) in
  if buf_size <? size then None else Some (p, size).
(** [while(i != 0) { --i; tail = CONS(hp, ...buf[i]..., tail); }] *)
Fixpoint buf_to_intlist (i : nat) (buf tail : list Z) : option (list Z) :=
  match i with O => Some tail | S i => c ← buf !! i; buf_to_intlist i buf (c :: tail) end.

Definition DIGITS_PER_RED : Z := 16.
(** What a built-in function returns: a value, an error, or that it is to run again on a
    scheduler for long work. *)
Inductive bif_result : Type := BIF_RET (text : list Z) | BIF_BADARG | BIF_DIRTY_CPU.

Section Write.
Context {M : DigitMacros}.
(** [ERTS_BIF_REDS_LEFT], and whether the scheduler is a normal one. *)
Context (reds_left : Z) (sched_normal : bool).

(** The text, nothing for [THE_NON_VALUE], and the reductions that are charged; [None] when
    the memory does not suffice. *)
Definition integer_to_list (num : Eterm) (base : Z) : option (option (list Z) * Z) :=
  match num with
  | Small n =>
      '(c, digits) ← Sint_to_buf n base 128;
      res ← buf_to_intlist (Z.to_nat digits) c [];
      Some (Some res, 0)
  | _ =>
      digits ← big_integer_estimate num base;
      let long := reds_left <? digits / DIGITS_PER_RED in
      if long && sched_normal then Some (None, 0)
      else
        let need := 2 * digits in
        res ← erts_big_to_list num base;
        if need <? 2 * zlen res then None else Some (Some res, if long then 0 else digits / DIGITS_PER_RED)
  end.
Definition integer_to_binary (num : Eterm) (base : Z) : option (option (list Z) * Z) :=
  match num with
  | Small n => '(c, digits) ← Sint_to_buf n base 128; Some (Some (take (Z.to_nat digits) c), 0)
  | _ =>
      digits ← big_integer_estimate num base;
      let long := reds_left <? digits / DIGITS_PER_RED in
      if long && sched_normal then Some (None, 0)
      else
        '(bytes, n) ← erts_big_to_binary_bytes num base digits;
        Some (Some (take (Z.to_nat n) bytes), if long then 0 else digits / DIGITS_PER_RED)
  end.

(** [if (is_non_value(res)) return erts_schedule_bif(...);] *)
Definition bif_return (r : option (option (list Z) * Z)) : option bif_result :=
  '(res, _) ← r; Some (match res with Some t => BIF_RET t | None => BIF_DIRTY_CPU end).
Definition is_integer (t : Eterm) : bool := match t with NIL => false | _ => true end.
Definition integer_to_list_1 (arg1 : Eterm) : option bif_result :=
  if is_integer arg1 then bif_return (integer_to_list arg1 10) else Some BIF_BADARG.
Definition integer_to_list_2 (arg1 arg2 : Eterm) : option bif_result :=
  match is_integer arg1, arg2 with
  | true, Small base => if (base <? 2) || (36 <? base) then Some BIF_BADARG else bif_return (integer_to_list arg1 base)
  | _, _ => Some BIF_BADARG
  end.
Definition integer_to_binary_1 (arg1 : Eterm) : option bif_result :=
  if is_integer arg1 then bif_return (integer_to_binary arg1 10) else Some BIF_BADARG.
Definition integer_to_binary_2 (arg1 arg2 : Eterm) : option bif_result :=
  match is_integer arg1, arg2 with
  | true, Small base => if (base <? 2) || (36 <? base) then Some BIF_BADARG else bif_return (integer_to_binary arg1 base)
  | _, _ => Some BIF_BADARG
  end.
End Write.

(** ** The code that reads *)

Definition c2int_is_valid_char (ch base : Z) : bool :=
  if base <=? 10 then (48 <=? ch) && (ch <? 48 + base)
  else (48 <=? ch) && (ch <=? 57) || (65 <=? ch) && (ch <? 65 + base - 10) || (97 <=? ch) && (ch <? 97 + base - 10).
Definition c2int_is_invalid_char (ch base : Z) : bool := negb (c2int_is_valid_char ch base).
Definition c2int_digit_from_base (ch : Z) : Z :=
  wrapu 8 (if ch <=? 57 then ch - 48 else 10 + (if ch <=? 90 then ch - 65 else ch - 97)).

(** A small, or one of the atoms [big] and [badarg]. *)
Inductive c2i_result : Type := C2I_small (i : Z) | C2I_big | C2I_badarg.

(** [while ( *bytes == '0') {...}]; nothing left when all are zeros. *)
Fixpoint skip_zeros (bytes : list Z) : list Z :=
  match bytes with [] => [] | b :: bytes' => if b =? 48 then skip_zeros bytes' else bytes end.
(** Characters of a base up to 10, and of any base; nothing for one that is no digit. *)
Fixpoint decimal_loop (bytes : list Z) (base i : Z) : option Z :=
  match bytes with
  | [] => Some i
  | b :: bytes =>
      let digit := wrapu 64 (b - 48) in
      if base <=? digit then None else decimal_loop bytes base (wraps 64 (i * base + digit))
  end.
Fixpoint digit_loop (bytes : list Z) (base i : Z) : option Z :=
  match bytes with
  | [] => Some i
  | b :: bytes =>
      if c2int_is_invalid_char b base then None
      else digit_loop bytes base (wraps 64 (i * base + c2int_digit_from_base b))
  end.
(** The sign that a text begins with, and what follows. *)
Definition read_sign (bytes : list Z) : bool * list Z :=
  match bytes with
  | b :: bytes' => if b =? 45 then (true, bytes') else if b =? 43 then (false, bytes') else (false, bytes)
  | [] => (false, [])
  end.
Definition chars_to_integer (bytes : list Z) (base : Z) : option c2i_result :=
  match bytes with
  | [] => Some C2I_badarg
  | _ =>
      let '(neg, bytes) := read_sign bytes in
      match bytes with
      | [] => Some C2I_badarg
      | _ =>
          match skip_zeros bytes with
          | [] => Some (C2I_small 0)
          | bytes =>
              digits_per_small ← get_digits_per_small base;
              if digits_per_small <? zlen bytes then Some C2I_big
              else
                match (if base <=? 10 then decimal_loop bytes base 0 else digit_loop bytes base 0) with
                | None => Some C2I_badarg
                | Some i => Some (C2I_small (if neg : bool then - i else i))
                end
          end
      end
  end.
(** The first argument as [erts_get_aligned_binary_bytes] gives it: nothing when it is no
    binary. *)
Definition erts_internal_binary_to_integer_2 (arg1 : option (list Z)) (arg2 : Eterm) : option c2i_result :=
  match arg2 with
  | Small base =>
      if (base <? 2) || (36 <? base) then Some C2I_badarg
      else match arg1 with None => Some C2I_badarg | Some bytes => chars_to_integer bytes base end
  | _ => Some C2I_badarg
  end.

(** Lists with any terms as elements, [None] for one that is no small, and any tail. *)
Inductive lterm : Type := L_nil | L_other | L_cons (car : option Z) (cdr : lterm).
Inductive lti_result : Type := LTI_no_integer | LTI_not_a_list | LTI_badarg | LTI_big | LTI_tuple (i : Z) (rest : lterm).

(** [unsigned_val], 60 bits, which are cut to a byte where a [byte c] is assigned. *)
Definition unsigned_val (i : Z) : Z := wrapu 60 i.
(** [while (is_list(list)) {...}], the zeros in front: a result or where the loop ends. *)
Fixpoint zero_digits (list : lterm) (base n : Z) : lti_result + lterm * Z :=
  match list with
  | L_cons (Some car) cdr =>
      let c := wrapu 8 (unsigned_val car) in
      if c =? 48 then zero_digits cdr base (n + 1)
      else if c2int_is_invalid_char c base then inl (if n =? 0 then LTI_no_integer else LTI_tuple 0 list)
      else inr (list, n)
  | _ => inr (list, n)
  end.
(** [while (n <= digits_per_small) {...}] *)
Fixpoint list_digits (list : lterm) (base digits_per_small ui n : Z) : lterm * Z * Z :=
  if n <=? digits_per_small then
    match list with
    | L_cons (Some car) cdr =>
        let c := wrapu 8 (unsigned_val car) in
        if c2int_is_invalid_char c base then (list, ui, n)
        else
          let ui := wrapu 64 (ui * base + c2int_digit_from_base c) in
          match cdr with L_cons _ _ => list_digits cdr base digits_per_small ui (n + 1) | _ => (cdr, ui, n + 1) end
    | _ => (list, ui, n)
    end
  else (list, ui, n).
Definition erts_internal_list_to_integer_2 (arg1 : lterm) (arg2 : Eterm) : option lti_result :=
  match arg1, arg2 with
  | L_nil, _ => Some LTI_no_integer
  | L_other, _ => Some LTI_not_a_list
  | L_cons car cdr, Small base =>
      let base := unsigned_val base in
      if (base <? 2) || (36 <? base) then Some LTI_badarg
      else
        let '(neg, list) := if bool_decide (car = Some 45) then (true, cdr) else if bool_decide (car = Some 43) then (false, cdr) else (false, arg1) in
        match zero_digits list base 0 with
        | inl res => Some res
        | inr (list, n) =>
            match list with
            | L_cons _ _ =>
                digits_per_small ← get_digits_per_small base;
                let '(list, ui, n) := list_digits list base digits_per_small 0 0 in
                if n =? 0 then Some LTI_no_integer
                else if digits_per_small <? n then Some LTI_big
                else let i := if neg : bool then - wraps 64 ui else wraps 64 ui in Some (LTI_tuple i list)
            | _ => Some (if n =? 0 then LTI_no_integer else LTI_tuple 0 list)
            end
        end
  | _, _ => Some LTI_badarg
  end.

(** ** Numerals *)

Definition char_value (base c : Z) : option Z :=
  let d := if (48 <=? c) && (c <=? 57) then c - 48 else if (65 <=? c) && (c <=? 90) then c - 55 else if (97 <=? c) && (c <=? 122) then c - 87 else base in
  if d <? base then Some d else None.
Fixpoint chars_value (base : Z) (cs : list Z) (acc : Z) : option Z :=
  match cs with [] => Some acc | c :: cs => d ← char_value base c; chars_value base cs (acc * base + d) end.
Definition signed (neg : bool) (v : Z) : Z := if neg then - v else v.
(** The integer of a text: a sign or none, and digits, one at least. *)
Definition text_integer (base : Z) (cs : list Z) : option Z :=
  let '(neg, ds) := read_sign cs in
  match ds with [] => None | _ => signed neg <$> chars_value base ds 0 end.
(** The longest run of digits in front, and what follows. *)
Fixpoint digit_run (base : Z) (cs : list Z) : list Z * list Z :=
  match cs with
  | [] => ([], [])
  | c :: cs' => match char_value base c with None => ([], cs) | Some _ => let '(run, post) := digit_run base cs' in (c :: run, post) end
  end.
(** The integer that a text begins with, and what follows. *)
Definition integer_prefix (base : Z) (cs : list Z) : option (Z * list Z) :=
  let '(neg, ds) := read_sign cs in
  let '(run, post) := digit_run base ds in
  match run with [] => None | _ => v ← chars_value base run 0; Some (signed neg v, post) end.
Definition char (c : Z) : Prop := 0 <= c < 256.
Definition lterm_of (cs : list Z) (tail : lterm) : lterm := foldr (fun c l => L_cons (Some c) l) tail cs.

Section Reading.
Context (base : Z) (Hbase : base_ok base).

Lemma char_value_range c d : char_value base c = Some d -> 0 <= d < base /\ 48 <= c <= 122 /\ (d = 0 -> c = 48).
Proof using Hbase.
  unfold char_value, base_ok in *. intros E. destruct (Z.leb_spec 48 c), (Z.leb_spec c 57), (Z.leb_spec 65 c), (Z.leb_spec c 90), (Z.leb_spec 97 c), (Z.leb_spec c 122); cbn [andb] in E; match type of E with context [?x <? base] => destruct (Z.ltb_spec x base) end; (discriminate E || injection E as <-); lia.
Qed.
Ltac brk := repeat match goal with |- context [?a <=? ?b] => destruct (Z.leb_spec a b) | |- context [?a <? ?b] => destruct (Z.ltb_spec a b) end; cbn [andb orb negb] in *; try lia; try done.
Lemma valid_char c : char c -> c2int_is_invalid_char c base = match char_value base c with Some _ => false | None => true end.
Proof using Hbase. unfold char, base_ok in *. intros Hc. unfold c2int_is_invalid_char, c2int_is_valid_char, char_value. brk. Qed.
Lemma digit_of_char c d : char_value base c = Some d -> c2int_digit_from_base c = d.
Proof using Hbase.
  intros E. pose proof (char_value_range c d E) as (Hd & Hc & _). unfold c2int_digit_from_base. replace (if c <=? 57 then c - 48 else 10 + (if c <=? 90 then c - 65 else c - 97)) with d; [unfold wrapu; apply Z.mod_small; unfold base_ok in Hbase; change (2 ^ 8) with 256; lia|].
  unfold char_value in E. destruct (Z.leb_spec 48 c), (Z.leb_spec c 57), (Z.leb_spec 65 c), (Z.leb_spec c 90), (Z.leb_spec 97 c), (Z.leb_spec c 122); cbn [andb] in E; try lia; match type of E with context [?x <? base] => destruct (Z.ltb_spec x base) end; (discriminate E || injection E as <-); lia.
Qed.
Lemma decimal_char c : char c -> base <= 10 -> char_value base c = let digit := wrapu 64 (c - 48) in if base <=? digit then None else Some digit.
Proof using Hbase.
  unfold char, base_ok in *. intros Hc Hb. cbv zeta. destruct (Z.le_gt_cases 48 c).
  - rewrite wrapu64_small by dig. unfold char_value. brk.
  - assert (wrapu 64 (c - 48) = c - 48 + DB) as -> by (unfold wrapu; symmetry; apply (Z.mod_unique_pos _ _ (-1)); change (2 ^ 64) with DB; lia). rewrite (proj2 (Z.leb_le _ _)) by lia. unfold char_value. brk.
Qed.

(** Positions: [acc] in front of the digits. *)
Lemma chars_value_bound cs acc v : 0 <= acc -> chars_value base cs acc = Some v -> acc * base ^ zlen cs <= v < (acc + 1) * base ^ zlen cs.
Proof using Hbase.
  unfold base_ok in Hbase. revert acc. induction cs as [|c cs IH]; intros acc Ha E; cbn [chars_value] in E.
  - injection E as <-. change (zlen []) with 0. rewrite Z.pow_0_r. lia.
  - destruct (char_value base c) as [d|] eqn:Ed; [|done]. cbn [mbind option_bind] in E. apply char_value_range in Ed as (Hd & _). specialize (IH (acc * base + d) ltac:(nia) E). replace (zlen (c :: cs)) with (Z.succ (zlen cs)) by zlen_lia. rewrite Z.pow_succ_r by zlen_lia. assert (0 < base ^ zlen cs) by (apply Z.pow_pos_nonneg; zlen_lia). split; nia.
Qed.
Lemma sum_small i : 0 <= i < 2 ^ 59 -> wraps 64 i = i.
Proof using. intros H. change (2 ^ 59) with 576460752303423488 in H. apply wraps_small; [lia|]. unfold in_s. change (2 ^ (64 - 1)) with 9223372036854775808. lia. Qed.
Lemma step_bound acc d n : 0 <= acc -> 0 <= d < base -> 0 <= n -> (acc + 1) * base ^ (Z.succ n) <= 2 ^ 59 -> 0 <= acc * base + d < 2 ^ 59 /\ (acc * base + d + 1) * base ^ n <= 2 ^ 59.
Proof using Hbase. intros Ha Hd Hn H. unfold base_ok in Hbase. rewrite Z.pow_succ_r in H by lia. assert (1 <= base ^ n) by (pose proof (Z.pow_pos_nonneg base n); lia). change (2 ^ 59) with 576460752303423488 in *. assert (acc * base + d + 1 <= (acc + 1) * base) by nia. assert ((acc * base + d + 1) * base ^ n <= (acc + 1) * base * base ^ n) by nia. split; nia. Qed.
Lemma loops_ok cs acc : Forall char cs -> 0 <= acc -> (acc + 1) * base ^ zlen cs <= 2 ^ 59 ->
  (if base <=? 10 then decimal_loop cs base acc else digit_loop cs base acc) = chars_value base cs acc.
Proof using Hbase.
  intros Hcs. revert acc. induction Hcs as [|c cs Hc Hcs IH]; intros acc Ha Hb; [by destruct (_ <=? _)|]. replace (zlen (c :: cs)) with (Z.succ (zlen cs)) in Hb by zlen_lia. assert (0 <= zlen cs) by zlen_lia. cbn [decimal_loop digit_loop chars_value].
  rewrite valid_char by done. destruct (Z.leb_spec base 10) as [H10|].
  - pose proof (decimal_char c Hc H10) as Ec. cbv zeta in Ec. destruct (char_value base c) as [d|] eqn:Ed; destruct (base <=? wrapu 64 (c - 48)); try done. injection Ec as <-. cbn [mbind option_bind]. apply char_value_range in Ed as (Hd & _). destruct (step_bound acc d (zlen cs) Ha Hd ltac:(lia) Hb) as [H1 H2]. rewrite sum_small by done. apply IH; [lia|done].
  - destruct (char_value base c) as [d|] eqn:Ed; [|done]. rewrite (digit_of_char c d Ed). cbn [mbind option_bind]. apply char_value_range in Ed as (Hd & _). destruct (step_bound acc d (zlen cs) Ha Hd ltac:(lia) Hb) as [H1 H2]. rewrite sum_small by done. apply IH; [lia|done].
Qed.

Lemma char_value_0 : char_value base 48 = Some 0.
Proof using Hbase. unfold base_ok in Hbase. unfold char_value. cbn [Z.leb Z.compare Pos.compare Pos.compare_cont andb]. change (48 - 48) with 0. rewrite (proj2 (Z.ltb_lt 0 base)) by lia. done. Qed.
Lemma skip_value cs : chars_value base (skip_zeros cs) 0 = chars_value base cs 0.
Proof using Hbase. induction cs as [|c cs IH]; [done|]. cbn [skip_zeros]. destruct (Z.eqb_spec c 48) as [->|]; [|done]. cbn [chars_value]. rewrite char_value_0. exact IH. Qed.
Lemma skip_suffix cs : exists k, cs = replicate k 48 ++ skip_zeros cs.
Proof using. induction cs as [|c cs [k IH]]; [by exists 0%nat|]. cbn [skip_zeros]. destruct (Z.eqb_spec c 48) as [->|]; [|by exists 0%nat]. exists (S k). cbn [replicate app]. by f_equal. Qed.
Lemma skip_head cs c cs' : skip_zeros cs = c :: cs' -> c <> 48.
Proof using. induction cs as [|b cs IH]; [done|]. cbn [skip_zeros]. destruct (Z.eqb_spec b 48); [done|]. by intros [= -> ->]. Qed.
Lemma skip_chars cs : Forall char cs -> Forall char (skip_zeros cs).
Proof using. intros H. destruct (skip_suffix cs) as [k E]. rewrite E in H. by apply Forall_app in H as [_ H]. Qed.
(** More digits than [d] behind the zeros: not below the power. *)
Lemma skip_size cs v d : chars_value base cs 0 = Some v -> 0 <= d -> (d <? zlen (skip_zeros cs)) = (base ^ d <=? v).
Proof using Hbase.
  intros E Hd. unfold base_ok in Hbase. rewrite <- skip_value in E. pose proof (chars_value_bound _ _ _ (Z.le_refl 0) E) as Hb. pose proof (Z.pow_pos_nonneg base d ltac:(lia) Hd) as Hp. destruct (skip_zeros cs) as [|c cs'] eqn:Es.
  - injection E as <-. change (zlen []) with 0. rewrite (proj2 (Z.ltb_ge d 0)), (proj2 (Z.leb_gt _ 0)) by lia. done.
  - pose proof (skip_head _ _ _ Es) as Hc. cbn [chars_value] in E. destruct (char_value base c) as [d0|] eqn:E0; [|done]. cbn [mbind option_bind] in E. apply char_value_range in E0 as (H0 & _ & H1). assert (1 <= d0) by (destruct (decide (d0 = 0)); [by destruct Hc; auto|lia]). pose proof (chars_value_bound cs' (0 * base + d0) v ltac:(lia) E) as Hb'.
    assert (0 <= zlen cs') by zlen_lia. assert (zlen (c :: cs') = zlen cs' + 1) as El by zlen_lia. rewrite El in *. destruct (Z.ltb_spec d (zlen cs' + 1)) as [Hlt|Hge]; symmetry.
    + apply Z.leb_le. pose proof (Z.pow_le_mono_r base d (zlen cs') ltac:(lia) ltac:(lia)). nia.
    + apply Z.leb_gt. pose proof (Z.pow_le_mono_r base (zlen cs' + 1) d ltac:(lia) ltac:(lia)). lia.
Qed.

(** ** What is read from a binary *)

Context (d : Z) (Hd : get_digits_per_small base = Some d).

Lemma small_digits : 0 < d /\ base ^ d <= 2 ^ 59.
Proof using Hbase Hd. destruct (tables base Hbase) as (k & d' & P & _ & E & _ & _ & _ & _ & H1 & H2 & _). rewrite Hd in E. by injection E as ->. Qed.
Lemma chars_to_integer_ok cs : Forall char cs ->
  chars_to_integer cs base = Some (match text_integer base cs with
                                   | Some z => if base ^ d <=? Z.abs z then C2I_big else C2I_small z
                                   | None => if d <? zlen (skip_zeros (snd (read_sign cs))) then C2I_big else C2I_badarg
                                   end).
Proof using Hbase Hd.
  intros Hcs. destruct small_digits as [Hd0 Hd1]. unfold chars_to_integer, text_integer. destruct cs as [|c0 cs0]; [cbn [read_sign snd skip_zeros]; change (zlen []) with 0; by rewrite (proj2 (Z.ltb_ge d 0)) by lia|]. set (cs := c0 :: cs0) in *. assert (Forall char (snd (read_sign cs))) as Hds. { apply Forall_cons_1 in Hcs as [H1 H2]. unfold cs. cbn [read_sign]. destruct (c0 =? 45); [done|]. destruct (c0 =? 43); [done|]. by constructor. }
  destruct (read_sign cs) as [neg ds]. cbn [snd] in *. clear cs Hcs. destruct ds as [|c ds]; [cbn [read_sign snd skip_zeros]; change (zlen []) with 0; by rewrite (proj2 (Z.ltb_ge d 0)) by lia|]. set (cs := c :: ds) in *. clearbody cs. pose proof (skip_value cs) as Ev. pose proof (skip_chars cs Hds) as Hsk. pose proof (skip_size cs) as Hsz. destruct (skip_zeros cs) as [|b bs] eqn:Es.
  - cbn [chars_value] in Ev. rewrite <- Ev. cbn [fmap option_fmap option_map]. assert (signed neg 0 = 0) as -> by (by destruct neg). rewrite (proj2 (Z.leb_gt _ _)); [done|]. change (Z.abs 0) with 0. apply Z.pow_pos_nonneg; [unfold base_ok in Hbase|]; lia.
  - rewrite Hd. cbn [mbind option_bind]. set (rest := b :: bs) in *. rewrite <- Ev. destruct (chars_value base rest 0) as [v|] eqn:E.
    + specialize (Hsz v d (eq_sym Ev) ltac:(lia)). rewrite Hsz. cbn [fmap option_fmap option_map]. pose proof (chars_value_bound rest 0 v ltac:(lia) E). assert (Z.abs (signed neg v) = v) as -> by (unfold signed; destruct neg; assert (0 <= v) by lia; lia).
      destruct (Z.leb_spec (base ^ d) v) as [|Hlt]; [done|]. apply Z.ltb_ge in Hsz. rewrite loops_ok, E by (done || lia || (rewrite Z.mul_1_l; etransitivity; [apply Z.pow_le_mono_r; [unfold base_ok in Hbase; lia|exact Hsz]|done])). done.
    + destruct (Z.ltb_spec d (zlen rest)) as [|Hge]; [done|]. rewrite loops_ok, E by (done || lia || (rewrite Z.mul_1_l; etransitivity; [apply Z.pow_le_mono_r; [unfold base_ok in Hbase; lia|exact Hge]|done])). done.
Qed.

(** ** What is read from a list *)

Lemma byte_of c : char c -> wrapu 8 (unsigned_val c) = c.
Proof using. intros Hc. unfold char in Hc. unfold unsigned_val, wrapu. rewrite (Z.mod_small c) by (change (2 ^ 60) with 1152921504606846976; lia). apply Z.mod_small. change (2 ^ 8) with 256. lia. Qed.
(** Characters that are no digits end a number. *)
Definition stops (post : list Z) : Prop := match post with [] => True | c :: _ => char c /\ char_value base c = None end.
Definition digit_chars (cs : list Z) : Prop := Forall (fun c => char c /\ char_value base c <> None) cs.

Lemma digit_run_ok cs : Forall char cs -> let '(run, post) := digit_run base cs in cs = run ++ post /\ digit_chars run /\ stops post.
Proof using.
  unfold digit_chars. induction 1 as [|c cs Hc Hcs IH]; cbn [digit_run]; [done|]. destruct (char_value base c) eqn:E; [|done]. destruct (digit_run base cs) as [run post]. destruct IH as (-> & H1 & H2). split; [done|]. split; [|done]. constructor; [|done]. by rewrite E.
Qed.
Lemma digit_chars_value cs acc : digit_chars cs -> exists v, chars_value base cs acc = Some v.
Proof using. intros H. revert acc. induction H as [|c cs [Hc Hv] H IH]; intros acc; [by exists acc|]. cbn [chars_value]. destruct (char_value base c); [|done]. apply IH. Qed.
Lemma zero_digits_ok cs post n : digit_chars cs -> stops post -> 0 <= n ->
  zero_digits (lterm_of (cs ++ post) L_nil) base n =
    match skip_zeros cs with
    | [] => match post with [] => inr (L_nil, n + zlen cs) | _ => inl (if n + zlen cs =? 0 then LTI_no_integer else LTI_tuple 0 (lterm_of post L_nil)) end
    | rest => inr (lterm_of (rest ++ post) L_nil, n + zlen cs - zlen rest)
    end.
Proof using Hbase.
  intros H Hp. revert n. induction H as [|c cs [Hc Hv] H IH]; intros n Hn.
  - cbn [app skip_zeros]. change (zlen []) with 0. rewrite Z.add_0_r. destruct post as [|c post]; [done|]. destruct Hp as [Hc Hv]. cbn [lterm_of foldr zero_digits]. rewrite (byte_of c Hc), valid_char, Hv by done. destruct (Z.eqb_spec c 48) as [->|]; [|done]. by rewrite char_value_0 in Hv.
  - cbn [app lterm_of foldr zero_digits skip_zeros]. rewrite (byte_of c Hc), valid_char by done. destruct (Z.eqb_spec c 48) as [->|].
    + change (foldr _ L_nil (cs ++ post)) with (lterm_of (cs ++ post) L_nil). rewrite IH by lia. replace (n + 1 + zlen cs) with (n + zlen (48 :: cs)) by zlen_lia. done.
    + destruct (char_value base c); [|done]. do 2 f_equal. lia.
Qed.
Lemma list_stop post ui n : stops post -> match lterm_of post L_nil with L_cons _ _ => list_digits (lterm_of post L_nil) base d ui n | _ => (lterm_of post L_nil, ui, n) end = (lterm_of post L_nil, ui, n).
Proof using Hbase. destruct post as [|c post]; [done|]. intros [Hc Hv]. cbn [lterm_of foldr list_digits]. rewrite (byte_of c Hc), valid_char, Hv by done. by destruct (n <=? d). Qed.
Lemma list_digits_ok cs post ui n v : digit_chars cs -> cs <> [] -> stops post -> 0 <= n -> n + zlen cs <= d -> 0 <= ui -> (ui + 1) * base ^ zlen cs <= 2 ^ 59 -> chars_value base cs ui = Some v ->
  list_digits (lterm_of (cs ++ post) L_nil) base d ui n = (lterm_of post L_nil, v, n + zlen cs).
Proof using Hbase.
  intros H. revert ui n. induction H as [|c cs [Hc Hv] H IH]; intros ui n Hne Hp Hn Hle Hui Hb E; [done|]. replace (zlen (c :: cs)) with (Z.succ (zlen cs)) in * by zlen_lia. assert (0 <= zlen cs) by zlen_lia. cbn [app lterm_of foldr list_digits]. change (foldr _ L_nil (cs ++ post)) with (lterm_of (cs ++ post) L_nil).
  rewrite (proj2 (Z.leb_le n d)), (byte_of c Hc), valid_char by (done || lia). cbn [chars_value] in E. destruct (char_value base c) as [e|] eqn:Ee; [|done]. cbn [mbind option_bind] in E. rewrite (digit_of_char c e Ee). apply char_value_range in Ee as (He & _). destruct (step_bound ui e (zlen cs) Hui He ltac:(lia) Hb) as [H1 H2].
  rewrite wrapu64_small by (change (2 ^ 59) with 576460752303423488 in H1; dig). destruct cs as [|c2 cs].
  - cbn [app chars_value] in *. injection E as <-. change (zlen []) with 0. rewrite list_stop by done. done.
  - cbn [app lterm_of foldr]. change (L_cons (Some c2) (foldr _ L_nil (cs ++ post))) with (lterm_of ((c2 :: cs) ++ post) L_nil). rewrite IH by (done || lia). f_equal. lia.
Qed.
Lemma list_digits_big cs post ui n : digit_chars cs -> n <= d < n + zlen cs -> exists l u, list_digits (lterm_of (cs ++ post) L_nil) base d ui n = (l, u, d + 1).
Proof using Hbase.
  intros H. revert ui n. induction H as [|c cs [Hc Hv] H IH]; intros ui n Hn; [change (zlen []) with 0 in Hn; lia|]. replace (zlen (c :: cs)) with (zlen cs + 1) in * by zlen_lia. cbn [app lterm_of foldr list_digits]. change (foldr _ L_nil (cs ++ post)) with (lterm_of (cs ++ post) L_nil).
  rewrite (proj2 (Z.leb_le n d)), (byte_of c Hc), valid_char by (done || lia). destruct (char_value base c) as [e|]; [|done]. set (u := wrapu 64 _). clearbody u. destruct (decide (n = d)) as [->|].
  - destruct (lterm_of (cs ++ post) L_nil) as [| |car cdr]; [by eexists _, _..|]. cbn [list_digits]. rewrite (proj2 (Z.leb_gt (d + 1) d)) by lia. by eexists _, _.
  - destruct (IH u (n + 1) ltac:(lia)) as (l & u' & E). exists l, u'. destruct cs as [|c2 cs]; [change (zlen []) with 0 in Hn; lia|]. cbn [app lterm_of foldr] in *. done.
Qed.

Lemma list_to_integer_ok cs : Forall char cs ->
  erts_internal_list_to_integer_2 (lterm_of cs L_nil) (Small base) = Some (match integer_prefix base cs with
    | None => LTI_no_integer
    | Some (z, post) => if base ^ d <=? Z.abs z then LTI_big else LTI_tuple z (lterm_of post L_nil)
    end).
Proof using Hbase Hd.
  intros Hcs. destruct small_digits as [Hd0 Hd1]. unfold integer_prefix. destruct cs as [|c0 cs0]; [done|]. cbn [lterm_of foldr erts_internal_list_to_integer_2]. assert (unsigned_val base = base) as ->. { unfold base_ok in Hbase. unfold unsigned_val, wrapu. apply Z.mod_small. change (2 ^ 60) with 1152921504606846976. lia. }
  assert ((base <? 2) || (36 <? base) = false) as ->. { unfold base_ok in Hbase. apply orb_false_iff. rewrite !Z.ltb_ge. lia. } change (foldr _ L_nil cs0) with (lterm_of cs0 L_nil).
  assert ((if bool_decide (Some c0 = Some 45) then (true, lterm_of cs0 L_nil) else if bool_decide (Some c0 = Some 43) then (false, lterm_of cs0 L_nil) else (false, L_cons (Some c0) (lterm_of cs0 L_nil)))
    = (fst (read_sign (c0 :: cs0)), lterm_of (snd (read_sign (c0 :: cs0))) L_nil)) as ->.
  { cbn [read_sign]. destruct (Z.eqb_spec c0 45) as [->|]; [by rewrite bool_decide_eq_true_2|]. rewrite bool_decide_eq_false_2 by congruence. destruct (Z.eqb_spec c0 43) as [->|]; [by rewrite bool_decide_eq_true_2|]. by rewrite bool_decide_eq_false_2 by congruence. }
  assert (Forall char (snd (read_sign (c0 :: cs0)))) as Hds. { apply Forall_cons_1 in Hcs as [H1 H2]. cbn [read_sign]. destruct (c0 =? 45); [done|]. destruct (c0 =? 43); [done|]. by constructor. }
  destruct (read_sign (c0 :: cs0)) as [neg ds]. cbn [fst snd] in *. clear Hcs c0 cs0. pose proof (digit_run_ok ds Hds) as Hrun. destruct (digit_run base ds) as [run post]. destruct Hrun as (-> & Hr & Hp). rewrite zero_digits_ok by (done || lia). destruct (digit_chars_value run 0 Hr) as [v E].
  pose proof (skip_size run v d E ltac:(lia)) as Hsz. assert (digit_chars (skip_zeros run)) as Hsk. { destruct (skip_suffix run) as [k Ek]. unfold digit_chars in *. rewrite Ek in Hr. by apply Forall_app in Hr as [_ Hr]. }
  pose proof (chars_value_bound run 0 v ltac:(lia) E) as Hv. assert (Z.abs (signed neg v) = v) as Eabs by (unfold signed; destruct neg; assert (0 <= v) by lia; lia). rewrite <- skip_value in E by done. destruct (skip_zeros run) as [|c rest] eqn:Es.
  - cbn [chars_value] in E. injection E as <-. destruct run as [|c run]; [cbn [app]; change (zlen []) with 0; by destruct post|]. rewrite <- skip_value, Es by done. cbn [chars_value mbind option_bind]. rewrite Eabs, <- Hsz. change (zlen []) with 0. rewrite (proj2 (Z.ltb_ge d 0)) by lia. rewrite (proj2 (Z.eqb_neq (0 + zlen (c :: run)) 0)) by zlen_lia. assert (signed neg 0 = 0) as -> by (by destruct neg). by destruct post.
  - destruct run as [|r0 run0]; [done|]. set (run := r0 :: run0) in *. rewrite <- (skip_value run), Es, E. cbn [mbind option_bind]. rewrite Eabs, <- Hsz, Hd. cbn [mbind option_bind app lterm_of foldr]. change (L_cons (Some c) (foldr _ L_nil (rest ++ post))) with (lterm_of ((c :: rest) ++ post) L_nil). destruct (Z.ltb_spec d (zlen (c :: rest))) as [Hbig|Hsm].
    + destruct (list_digits_big (c :: rest) post 0 0 Hsk ltac:(lia)) as (l & u & ->). rewrite (proj2 (Z.eqb_neq (d + 1) 0)), (proj2 (Z.ltb_lt d (d + 1))) by lia. done.
    + rewrite (list_digits_ok (c :: rest) post 0 0 v); [|done|done|done|lia|lia|lia|rewrite Z.mul_1_l; etransitivity; [apply Z.pow_le_mono_r; [unfold base_ok in Hbase; lia|exact Hsm]|done]|done]. assert (1 <= zlen (c :: rest)) by zlen_lia. rewrite (proj2 (Z.eqb_neq (0 + zlen (c :: rest)) 0)), (proj2 (Z.ltb_ge d _)) by lia.
      symmetry in Hsz. apply Z.leb_gt in Hsz. rewrite sum_small by lia. done.
Qed.
End Reading.

(** ** Texts of integers *)

Section Roundtrip.
Context (base : Z) (Hbase : base_ok base).

Lemma digit_char_value d : 0 <= d < base -> char_value base (digit_char d) = Some d /\ 48 <= digit_char d <= 90.
Proof using Hbase.
  unfold base_ok in Hbase. intros Hd. unfold digit_char, char_value. destruct (Z.ltb_spec d 10).
  - rewrite (proj2 (Z.leb_le 48 (48 + d))), (proj2 (Z.leb_le (48 + d) 57)) by lia. cbn [andb]. replace (48 + d - 48) with d by lia. rewrite (proj2 (Z.ltb_lt d base)) by lia. split; [done|lia].
  - rewrite (proj2 (Z.leb_le 48 (65 + d - 10))), (proj2 (Z.leb_gt (65 + d - 10) 57)), (proj2 (Z.leb_le 65 (65 + d - 10))), (proj2 (Z.leb_le (65 + d - 10) 90)) by lia. cbn [andb]. replace (65 + d - 10 - 55) with d by lia. rewrite (proj2 (Z.ltb_lt d base)) by lia. split; [done|lia].
Qed.
Lemma radix_value k v out acc : 0 <= v -> chars_value base (radix base k v out) acc = chars_value base out (acc * base ^ Z.of_nat k + v mod base ^ Z.of_nat k).
Proof using Hbase.
  unfold base_ok in Hbase. revert v out. induction k as [|k IH]; intros v out Hv; cbn [radix]; [rewrite Z.pow_0_r, Z.mod_1_r; f_equal; lia|]. rewrite IH by (apply Z.div_pos; lia). cbn [chars_value]. destruct (digit_char_value (v mod base)) as [-> _]; [apply Z.mod_pos_bound; lia|]. cbn [mbind option_bind]. f_equal.
  rewrite Nat2Z.inj_succ, Z.pow_succ_r, Z.rem_mul_r by (lia || (apply Z.pow_pos_nonneg; lia) || (apply Z.pow_nonzero; lia)). lia.
Qed.
Lemma radix_chars k v out : 0 <= v -> Forall (fun c => 48 <= c <= 90) out -> Forall (fun c => 48 <= c <= 90) (radix base k v out).
Proof using Hbase.
  unfold base_ok in Hbase. revert v out. induction k as [|k IH]; intros v out Hv Ho; cbn [radix]; [done|]. apply IH; [apply Z.div_pos; lia|]. constructor; [|done]. apply digit_char_value, Z.mod_pos_bound. lia.
Qed.
Lemma natural_text_value v : 0 <= v -> chars_value base (natural_text base v) 0 = Some v /\ Forall (fun c => 48 <= c <= 90) (natural_text base v) /\ natural_text base v <> [].
Proof using Hbase.
  intros Hv. unfold natural_text. destruct (Z.eqb_spec v 0) as [->|].
  - split; [|split; [repeat constructor; lia|done]]. cbn [chars_value]. rewrite char_value_0 by done. done.
  - split; [|split; [by apply radix_chars|]].
    + rewrite radix_value by done. cbn [chars_value]. rewrite Z.mul_0_l, Z.add_0_l, Z.mod_small; [done|]. split; [done|]. apply text_width_ok; [unfold base_ok in Hbase; lia|done].
    + apply nonempty. rewrite length_radix. destruct (text_width_ok base v) as [_ H]; [unfold base_ok in Hbase; lia|done|]. destruct (H ltac:(lia)) as [_ H']. lia.
Qed.
(** The sign and the digits of a text. *)
Lemma integer_text_parts z : read_sign (integer_text base z) = (z <? 0, natural_text base (Z.abs z)) /\ Forall char (integer_text base z).
Proof using Hbase.
  destruct (natural_text_value (Z.abs z) ltac:(lia)) as (_ & Hc & Hne). assert (Forall char (natural_text base (Z.abs z))) as Hch by (revert Hc; apply Forall_impl; intros c Hr; unfold char; lia). unfold integer_text. destruct (z <? 0); cbn [app].
  - split; [done|]. constructor; [unfold char; lia|done].
  - split; [|done]. destruct (natural_text base (Z.abs z)) as [|c t]; [done|]. apply Forall_cons_1 in Hc as [Hc _]. cbn [read_sign]. rewrite (proj2 (Z.eqb_neq c 45)), (proj2 (Z.eqb_neq c 43)) by lia. done.
Qed.
Lemma signed_abs z : signed (z <? 0) (Z.abs z) = z.
Proof using. unfold signed. destruct (Z.ltb_spec z 0); lia. Qed.
Lemma text_integer_text z : text_integer base (integer_text base z) = Some z.
Proof using Hbase.
  destruct (integer_text_parts z) as [E _]. destruct (natural_text_value (Z.abs z) ltac:(lia)) as (Ev & _ & Hne). unfold text_integer. rewrite E, Ev. cbn [fmap option_fmap option_map]. rewrite signed_abs. by destruct (natural_text base (Z.abs z)).
Qed.
Lemma digit_run_all cs acc v : chars_value base cs acc = Some v -> digit_run base cs = (cs, []).
Proof using. revert acc. induction cs as [|c cs IH]; intros acc E; [done|]. cbn [chars_value digit_run] in *. destruct (char_value base c); [|done]. by rewrite (IH _ E). Qed.
Lemma integer_prefix_text z : integer_prefix base (integer_text base z) = Some (z, []).
Proof using Hbase.
  destruct (integer_text_parts z) as [E _]. destruct (natural_text_value (Z.abs z) ltac:(lia)) as (Ev & _ & Hne). unfold integer_prefix. rewrite E, (digit_run_all _ _ _ Ev), Ev. cbn [mbind option_bind]. rewrite signed_abs. by destruct (natural_text base (Z.abs z)).
Qed.

(** ** What is written *)

Lemma buf_to_intlist_ok i buf tail : (i <= length buf)%nat -> buf_to_intlist i buf tail = Some (take i buf ++ tail).
Proof using.
  revert tail. induction i as [|i IH]; intros tail Hi; cbn [buf_to_intlist]; [done|]. destruct (lookup_lt_is_Some_2 buf i ltac:(lia)) as [c E]. rewrite E. cbn [mbind option_bind]. rewrite IH by lia. f_equal. rewrite (take_S_r buf i c E), <- app_assoc. done.
Qed.
Lemma small_text_len z : MIN_SMALL <= z <= MAX_SMALL -> zlen (integer_text base z) <= 61.
Proof using Hbase.
  rewrite max_small, min_small. intros Hz. pose proof (natural_text_len base (Z.abs z) 60 Hbase) as H. unfold base_ok in Hbase. pose proof (Z.pow_le_mono_l 2 base (Z.of_nat 60) ltac:(lia)). change (2 ^ Z.of_nat 60) with 1152921504606846976 in *. specialize (H ltac:(lia) ltac:(lia)). unfold integer_text, zlen. rewrite length_app. destruct (z <? 0); cbn [length]; lia.
Qed.
Lemma Sint_to_buf_ok z : MIN_SMALL <= z <= MAX_SMALL -> Sint_to_buf z base 128 = Some (integer_text base z, zlen (integer_text base z)).
Proof using Hbase.
  intros Hz. pose proof (small_text_len z Hz) as Hl. rewrite max_small, min_small in Hz. unfold base_ok in Hbase. pose proof (Z.pow_le_mono_l 2 base (Z.of_nat 64) ltac:(lia)) as Hp. change (2 ^ Z.of_nat 64) with DB in Hp.
  unfold Sint_to_buf, integer_text, natural_text in *. destruct (Z.eqb_spec z 0) as [->|H0]; [done|]. rewrite (proj2 (Z.eqb_neq (Z.abs z) 0)) in * by lia. destruct (Z.ltb_spec z 0).
  - rewrite rem_chars_ok by lia. cbn [mbind option_bind app] in *. replace (- z) with (Z.abs z) by lia. unfold zlen in *. cbn [length] in *. rewrite length_radix in *. cbn [length] in *. rewrite (proj2 (Z.ltb_ge _ _)) by lia. do 2 f_equal. lia.
  - rewrite rem_chars_ok by lia. cbn [mbind option_bind app] in *. replace (Z.abs z) with z in * by lia. unfold zlen in *. rewrite length_radix in *. cbn [length] in *. rewrite (proj2 (Z.ltb_ge _ _)) by lia. do 2 f_equal. lia.
Qed.

Context {M : DigitMacros} {L : DigitLaws M}.
(** The text and the reductions: a small integer is written at once and for free; a bignum
    whose estimated number of characters, a 16th of it, is more than the reductions left is
    not written on a normal scheduler. *)
Definition written (reds_left : Z) (normal : bool) (z : Z) (r : option (option (list Z) * Z)) : Prop :=
  (fits_small z = true -> r = Some (Some (integer_text base z), 0)) /\
  (fits_small z = false -> exists est, big_integer_estimate (integer_term z) base = Some est /\ zlen (integer_text base z) <= est /\
     r = Some (if reds_left <? est / 16 then if normal then (None, 0) else (Some (integer_text base z), 0)
               else (Some (integer_text base z), est / 16))).
Lemma integer_to_text_ok reds_left normal z : representable z ->
  written reds_left normal z (integer_to_list reds_left normal (integer_term z) base) /\
  written reds_left normal z (integer_to_binary reds_left normal (integer_term z) base).
Proof using Hbase L.
  intros Hz. unfold written. destruct (integer_cases z Hz) as [[Hs ->]|(Hf & s & v & -> & _ & Hrep)]; cbn [integer_to_list integer_to_binary].
  - rewrite (proj2 (fits_iff z) Hs), (Sint_to_buf_ok z Hs). cbn [mbind option_bind]. unfold zlen. rewrite Nat2Z.id, buf_to_intlist_ok, firstn_all, app_nil_r by lia. done.
  - rewrite Hf. assert (32 <= Z.abs z) as Habs. { destruct (Z.le_gt_cases 32 (Z.abs z)); [done|]. assert (fits_small z = true); [|congruence]. apply fits_iff. rewrite max_small, min_small. lia. }
    destruct (big_integer_estimate_ok z _ base Hbase Hrep Habs) as (est & -> & Hest). cbn [mbind option_bind]. rewrite (erts_big_to_list_ok base Hbase z) by done. rewrite (erts_big_to_binary_bytes_ok base Hbase z) by (done || lia). cbn [mbind option_bind]. rewrite (proj2 (Z.ltb_ge (2 * est) _)) by lia. unfold zlen. rewrite Nat2Z.id, firstn_all.
    change DIGITS_PER_RED with 16. split; (split; [done|]; intros _; exists est; split; [done|]; split; [unfold zlen in Hest; lia|]); by destruct (reds_left <? est / 16), normal.
Qed.
End Roundtrip.

(** ** The conversions *)

(** C33: reading is exact on every string of bytes.  A binary is a small integer when it is a
    sign or none and digits of the base, one at least, and the number is below the power of
    the base that is sure to be small; it is left to the caller as [big] when the number is
    not below, or when there are more characters than such a number has; all others are
    refused.  A list gives the integer of its longest such beginning, and the rest. *)
Theorem integers_read base cs : base_ok base -> Forall char cs ->
  exists d, get_digits_per_small base = Some d /\ 0 < d /\ base ^ d <= MAX_SMALL + 1 /\
    erts_internal_binary_to_integer_2 (Some cs) (Small base) = Some (match text_integer base cs with
      | Some z => if base ^ d <=? Z.abs z then C2I_big else C2I_small z
      | None => if d <? zlen (skip_zeros (snd (read_sign cs))) then C2I_big else C2I_badarg
      end) /\
    erts_internal_list_to_integer_2 (lterm_of cs L_nil) (Small base) = Some (match integer_prefix base cs with
      | None => LTI_no_integer
      | Some (z, post) => if base ^ d <=? Z.abs z then LTI_big else LTI_tuple z (lterm_of post L_nil)
      end).
Proof.
  intros Hb Hcs. destruct (tables base Hb) as (k & d & P & _ & Ed & _ & _ & _ & _ & H1 & H2 & _). exists d. split; [done|]. split; [done|]. split; [done|]. split; [|by apply list_to_integer_ok].
  cbn [erts_internal_binary_to_integer_2]. assert ((base <? 2) || (36 <? base) = false) as -> by (unfold base_ok in Hb; apply orb_false_iff; rewrite !Z.ltb_ge; lia). by apply chars_to_integer_ok.
Qed.
Lemma integers_read_witness :
  exists d, get_digits_per_small 16 = Some d /\ 0 < d /\ 16 ^ d <= MAX_SMALL + 1 /\
    erts_internal_binary_to_integer_2 (Some [45; 48; 51; 102; 70]) (Small 16) = Some (match text_integer 16 [45; 48; 51; 102; 70] with
      | Some z => if 16 ^ d <=? Z.abs z then C2I_big else C2I_small z
      | None => if d <? zlen (skip_zeros (snd (read_sign [45; 48; 51; 102; 70]))) then C2I_big else C2I_badarg
      end) /\
    erts_internal_list_to_integer_2 (lterm_of [45; 48; 51; 102; 70] L_nil) (Small 16) = Some (match integer_prefix 16 [45; 48; 51; 102; 70] with
      | None => LTI_no_integer
      | Some (z, post) => if 16 ^ d <=? Z.abs z then LTI_big else LTI_tuple z (lterm_of post L_nil)
      end).
Proof. apply integers_read; [unfold base_ok; lia|]. repeat constructor; cbn; lia. Defined.

Section Claims.
Context {M : DigitMacros} {L : DigitLaws M}.

(** C32: every integer the emulator has, small or big, is written by [integer_to_list] and
    [integer_to_binary] as its text.  A small integer is written at once, and so is a bignum
    on a scheduler for long work; on a normal one a bignum is written at once unless the
    number of characters estimated for it, which is never too small, divided by 16 is more
    than the reductions left: then, and only then, the call is sent to such a scheduler.
    What is read from that text is the integer again, or [big] for a number that is not sure
    to be small, for which the caller goes on: never another integer. *)
Theorem integer_text_roundtrip z base reds_left : representable z -> base_ok base ->
  let text := integer_text base z in
  (forall write, write = integer_to_list_2 reds_left \/ write = integer_to_binary_2 reds_left ->
     (MIN_SMALL <= z <= MAX_SMALL -> forall normal, write normal (integer_term z) (Small base) = Some (BIF_RET text)) /\
     (~ MIN_SMALL <= z <= MAX_SMALL -> exists est, big_integer_estimate (integer_term z) base = Some est /\ zlen text <= est /\
        write false (integer_term z) (Small base) = Some (BIF_RET text) /\
        write true (integer_term z) (Small base) = Some (if reds_left <? est / 16 then BIF_DIRTY_CPU else BIF_RET text))) /\
  exists d, get_digits_per_small base = Some d /\
    erts_internal_binary_to_integer_2 (Some text) (Small base) = Some (if base ^ d <=? Z.abs z then C2I_big else C2I_small z) /\
    erts_internal_list_to_integer_2 (lterm_of text L_nil) (Small base) = Some (if base ^ d <=? Z.abs z then LTI_big else LTI_tuple z L_nil).
Proof using L.
  intros Hz Hb text. assert ((base <? 2) || (36 <? base) = false) as Hr by (unfold base_ok in Hb; apply orb_false_iff; rewrite !Z.ltb_ge; lia). assert (is_integer (integer_term z) = true) as Hi by (unfold representable in Hz; by destruct (integer_term z)). split.
  - intros write Hw. assert (forall normal, exists r, written base reds_left normal z r /\ write normal (integer_term z) (Small base) = bif_return r) as H.
    { intros normal. destruct (integer_to_text_ok base Hb reds_left normal z Hz) as [H1 H2].
      destruct Hw as [-> | ->]; unfold integer_to_list_2, integer_to_binary_2; rewrite Hi, Hr; eauto. }
    rewrite <- fits_iff. split.
    + intros Hf normal. destruct (H normal) as (r & [Hs _] & ->). by rewrite (Hs Hf).
    + intros Hf%not_true_is_false. destruct (H false) as (r1 & [_ H1] & ->), (H true) as (r2 & [_ H2] & ->).
      destruct (H1 Hf) as (est & E & Hest & ->), (H2 Hf) as (est' & E' & _ & ->). rewrite E in E'. injection E' as <-.
      exists est. split; [done|]. split; [done|]. by destruct (reds_left <? est / 16).
  - destruct (tables base Hb) as (k & d & P & _ & Ed & _). exists d. split; [done|]. destruct (integer_text_parts base Hb z) as [_ Hch]. subst text. cbn [erts_internal_binary_to_integer_2]. rewrite Hr, (chars_to_integer_ok base Hb d Ed _ Hch), (list_to_integer_ok base Hb d Ed _ Hch). rewrite (text_integer_text base Hb), (integer_prefix_text base Hb). done.
Qed.
End Claims.

(** With 2 reductions left, 2^128 in base 2 is sent to a scheduler for long work by a normal
    one; -1296 is not, whatever is left. *)
Lemma integer_text_roundtrip_witness :
  integer_to_list_2 2 true (integer_term (2 ^ 128)) (Small 2) = Some BIF_DIRTY_CPU /\
  integer_to_list_2 2 false (integer_term (2 ^ 128)) (Small 2) = Some (BIF_RET (integer_text 2 (2 ^ 128))) /\
  integer_to_list_2 20 true (integer_term (2 ^ 128)) (Small 2) = Some (BIF_RET (integer_text 2 (2 ^ 128))) /\
  (forall write, write = integer_to_list_2 0 \/ write = integer_to_binary_2 0 ->
     write true (integer_term (-1296)) (Small 36) = Some (BIF_RET (integer_text 36 (-1296)))) /\
  exists d, get_digits_per_small 36 = Some d /\
    erts_internal_binary_to_integer_2 (Some (integer_text 36 (-1296))) (Small 36) = Some (if 36 ^ d <=? Z.abs (-1296) then C2I_big else C2I_small (-1296)) /\
    erts_internal_list_to_integer_2 (lterm_of (integer_text 36 (-1296)) L_nil) (Small 36) = Some (if 36 ^ d <=? Z.abs (-1296) then LTI_big else LTI_tuple (-1296) L_nil).
Proof.
  assert (base_ok 2 /\ base_ok 36) as [B2 B36] by (unfold base_ok; lia). assert (representable (2 ^ 128) /\ representable (-1296)) as [R1 R2] by done. assert (MIN_SMALL <= -1296 <= MAX_SMALL) as Hsmall by (by vm_compute). assert (~ MIN_SMALL <= 2 ^ 128 <= MAX_SMALL) as Hbig by (vm_compute; intros [_ H]; by apply H).
  destruct (integer_text_roundtrip (2 ^ 128) 2 2 R1 B2) as [Hw _]. destruct (proj2 (Hw _ (or_introl eq_refl)) Hbig) as (e & Ee & _ & E1 & E2). vm_compute in Ee. injection Ee as <-.
  destruct (integer_text_roundtrip (2 ^ 128) 2 20 R1 B2) as [Hw' _]. destruct (proj2 (Hw' _ (or_introl eq_refl)) Hbig) as (e & Ee & _ & _ & E3). vm_compute in Ee. injection Ee as <-.
  split; [exact E2|]. split; [exact E1|]. split; [exact E3|].
  destruct (integer_text_roundtrip (-1296) 36 0 R2 B36) as [Hs Hd]. split; [|exact Hd]. intros write H. exact (proj1 (Hs write H) Hsmall true).
Defined.

(** Elements of a list are cut to a byte: a character that is no digit, 305, is read as the
    digit 1 that has the same lowest byte. *)
Lemma wide_character_read : char_value 10 305 = None /\ erts_internal_list_to_integer_2 (L_cons (Some 305) L_nil) (Small 10) = Some (LTI_tuple 1 L_nil).
Proof. done. Qed.
(** Zeros are an integer when another character follows, and none when an element follows
    that is no small; other digits are one in both cases. *)
Lemma zeros_before_term :
  erts_internal_list_to_integer_2 (L_cons (Some 48) (L_cons (Some 46) L_nil)) (Small 10) = Some (LTI_tuple 0 (L_cons (Some 46) L_nil)) /\
  erts_internal_list_to_integer_2 (L_cons (Some 48) (L_cons None L_nil)) (Small 10) = Some LTI_no_integer /\
  erts_internal_list_to_integer_2 (L_cons (Some 49) (L_cons None L_nil)) (Small 10) = Some (LTI_tuple 1 (L_cons None L_nil)).
Proof. done. Qed.
