(* ===== verification/EpmdNode.v ===== *)
(** * The node registry of [epmd_srv.c]: [node_init], [node_unreg],
    [node_unreg_sock], [node_reg2], [bump_creation], [get_creation]

    The registry is two linked lists of [Node] structures in a shared heap:
    the registered nodes, and a FIFO queue of names that were in use before.
    The code is modelled on the heap, with its pointers; the lists it stands
    for, and what the operations do to them, are the interface [NodeDb] that
    the server is verified against. *)
From stdpp Require Import gmap.
From S2P Require Import Prelude PutGet EpmdStr.

Definition MAX_UNREG_COUNT : Z := 1000.
Definition DEBUG_MAX_UNREG_COUNT : Z := 5.

(** ** Data *)

(** [struct enode] without its [next] field.  [symname] is the bytes before its
    NUL, [extra] the [extralen] bytes in use. *)
Record enode := {
  fd : Z; port : Z; symname : list Z; cr_counter : Z; nodetype : Z; protocol : Z;
  highvsn : Z; lowvsn : Z; extralen : Z; extra : list Z
}.

(** A [Node] in memory; [None] is the NULL pointer. *)
Record cell := { next : option nat; info : enode }.
Abbreviation heap := (gmap nat cell).

Record Nodes := {
  mem_nodes : heap; reg : option nat; unreg : option nat; unreg_tail : option nat; unreg_count : Z
}.

(** ** Operations.  [None] is the use of a pointer that is not valid. *)

Definition node_init : Nodes :=
  {| mem_nodes := ∅; reg := None; unreg := None; unreg_tail := None; unreg_count := 0 |}.

Definition set_next (h : heap) (a : nat) (q : option nat) : heap :=
  alter (fun c => {| next := q; info := info c |}) a h.

(** [for (; node; prev = &node->next, node = node->next)] up to the first node
    that [p] selects: the node before it (none for [&g->nodes.reg]) and the
    node.  [fuel] bounds the number of nodes. *)
Fixpoint search (fuel : nat) (h : heap) (prev node : option nat) (p : enode -> option bool)
  : option (option (option nat * nat)) :=
  match node with
  | None => Some None
  | Some a =>
      match fuel, h !! a with
      | S fuel, Some c =>
          match p (info c) with
          | None => None
          | Some true => Some (Some (prev, a))
          | Some false => search fuel h (Some a) (next c) p
          end
      | _, _ => None
      end
  end.

(** The body shared by [node_unreg] and [node_unreg_sock]: link the first node
    that [p] selects out of "reg" and into "unreg", last.  The result is the
    value returned. *)
Definition unreg_first (p : enode -> option bool) (g : Nodes) : option (Z * Nodes) :=
  match search (size (mem_nodes g)) (mem_nodes g) None (reg g) p with
  | None => None
  | Some None => Some (-1, g)
  | Some (Some (prev, a)) =>
      match mem_nodes g !! a with
      | None => None
      | Some c =>
          (* *prev = node->next *)
          let reg' := match prev with None => next c | Some _ => reg g end in
          let h := match prev with None => mem_nodes g | Some b => set_next (mem_nodes g) b (next c) end in
          match unreg g with
          | None =>
              Some (fd (info c),
                {| mem_nodes := set_next h a None; reg := reg'; unreg := Some a; unreg_tail := Some a;
                   unreg_count := unreg_count g + 1 |})
          | Some u =>
              match unreg_tail g with
              | None => None
              | Some t =>
                  Some (fd (info c),
                    {| mem_nodes := set_next (set_next h t (Some a)) a None; reg := reg'; unreg := Some u;
                       unreg_tail := Some a; unreg_count := unreg_count g + 1 |})
              end
          end
      end
  end.

(** [name] is the block the name is in, with its NUL. *)
Definition has_name (name : mem) (n : enode) : option bool := is_same_str (symname n ++ [0]) name.
Definition has_fd (f : Z) (n : enode) : option bool := Some (fd n =? f).

Definition node_unreg (g : Nodes) (name : mem) : option (Z * Nodes) := unreg_first (has_name name) g.
Definition node_unreg_sock (g : Nodes) (f : Z) : option (Z * Nodes) := unreg_first (has_fd f) g.

(** [unsigned int] arithmetic. *)
Definition bump_creation (cr : Z) : Z :=
  let cr := wrapu 32 (cr + 1) in if cr <? 4 then 4 else cr.

Definition get_creation (n : enode) : Z :=
  if 6 <=? highvsn n then cr_counter n else cr_counter n mod 3 + 1.

(** An address that is not in use, for [malloc]. *)
Definition new_addr (h : heap) : nat := S (list_max (map fst (map_to_list h))).

(** [node_reg2] returns NULL, or the node, or does not return ([exit(1)]). *)
Inductive reg_res :=
  | RegNull
  | RegNode (a : nat) (g : Nodes)
  | RegExit.

(** Link the node [a] out of the "unreg" list, whose previous node is
    [prev]. *)
Definition unlink_unreg (g : Nodes) (prev : option nat) (a : nat) (nx : option nat) : Nodes :=
  match prev with
  | None =>
      match nx with
      | None => {| mem_nodes := mem_nodes g; reg := reg g; unreg := None; unreg_tail := None;
                   unreg_count := unreg_count g - 1 |}
      | Some _ => {| mem_nodes := mem_nodes g; reg := reg g; unreg := nx; unreg_tail := unreg_tail g;
                     unreg_count := unreg_count g - 1 |}
      end
  | Some b =>
      match nx with
      | None => {| mem_nodes := set_next (mem_nodes g) b None; reg := reg g; unreg := unreg g;
                   unreg_tail := Some b; unreg_count := unreg_count g - 1 |}
      | Some _ => {| mem_nodes := set_next (mem_nodes g) b nx; reg := reg g; unreg := unreg g;
                     unreg_tail := unreg_tail g; unreg_count := unreg_count g - 1 |}
      end
  end.

(** The end of [node_reg2]: into the "reg" list, first, with its new data. *)
Definition link_reg (g : Nodes) (a : nat) (n : enode) : Nodes :=
  {| mem_nodes := <[a := {| next := reg g; info := n |}]> (mem_nodes g); reg := Some a; unreg := unreg g;
     unreg_tail := unreg_tail g; unreg_count := unreg_count g |}.

(** [copy_str(node->symname,name)]: what is stored before the NUL; [None] too when
    the string does not fit the [MAXSYMLEN+1] bytes of the field. *)
Definition copy_symname (name : mem) : option (list Z) :=
  match copy_str name with
  | Some (l, n) => if n <=? MAXSYMLEN then Some (take (Z.to_nat n) l) else None
  | None => None
  end.

(** [debug]: [g->debug] is not 0; [now]: the time; [alloc]: [malloc] succeeds.
    [name] and [extr] are the blocks of the two strings. *)
Definition node_reg2 (debug alloc : bool) (now : Z) (g : Nodes) (namelen : Z) (name : mem) (f pt ntype proto hv lv : Z)
    (extlen : Z) (extr : mem) : option reg_res :=
  if MAXSYMLEN <? namelen then Some RegNull else
  match slice name 0 namelen with
  | None => None
  | Some nm =>
    let sz := verify_utf8 nm false in
    if 255 <? sz then Some RegNull
    else if sz <? 0 then Some RegNull
    else if MAXSYMLEN <? extlen then Some RegNull
    else
      match search (size (mem_nodes g)) (mem_nodes g) None (reg g) (has_name name), slice extr 0 extlen,
            copy_symname name with
      | Some (Some _), _, _ => Some RegNull
      | Some None, Some ex, Some sym =>
          let node cr := {| fd := f; port := pt; symname := sym; cr_counter := cr; nodetype := ntype;
                            protocol := proto; highvsn := hv; lowvsn := lv; extralen := extlen; extra := ex |} in
          match search (size (mem_nodes g)) (mem_nodes g) None (unreg g) (has_name name) with
          | None => None
          | Some (Some (prev, a)) =>
              match mem_nodes g !! a with
              | None => None
              | Some c =>
                  let g := unlink_unreg g prev a (next c) in
                  Some (RegNode a (link_reg g a (node (bump_creation (cr_counter (info c))))))
              end
          | Some None =>
              if (MAX_UNREG_COUNT <? unreg_count g) || (debug && (DEBUG_MAX_UNREG_COUNT <? unreg_count g)) then
                match unreg g with
                | None => None
                | Some a =>
                    match mem_nodes g !! a with
                    | None => None
                    | Some c =>
                        let g := {| mem_nodes := mem_nodes g; reg := reg g; unreg := next c;
                                    unreg_tail := unreg_tail g; unreg_count := unreg_count g - 1 |} in
                        Some (RegNode a (link_reg g a (node (cr_counter (info c)))))
                    end
                end
              else if alloc then
                let a := new_addr (mem_nodes g) in
                Some (RegNode a (link_reg g a (node (bump_creation (wrapu 32 now)))))
              else Some RegExit
          end
      | _, _, _ => None
      end
  end.

(** ** List segments in the heap *)

(** From [p] one comes over the nodes [l] to [q]. *)
Fixpoint lseg (h : heap) (p : option nat) (l : list (nat * enode)) (q : option nat) : Prop :=
  match l with
  | [] => p = q
  | (a, n) :: l => p = Some a /\ exists r, h !! a = Some {| next := r; info := n |} /\ lseg h r l q
  end.

Abbreviation addrs := (map fst).

Lemma lseg_app h p l1 l2 q :
  lseg h p (l1 ++ l2) q <-> exists r, lseg h p l1 r /\ lseg h r l2 q.
Proof.
  revert p. induction l1 as [|[a n] l1 IH]; intros p; cbn [app lseg].
  - split; [intros H; exists p; auto|]. intros (r & -> & H). done.
  - split.
    + intros (-> & r & Ha & (r' & H1 & H2)%IH). eauto 10.
    + intros (r' & (-> & r & Ha & H1) & H2). split; [done|]. exists r. split; [done|]. apply IH. eauto.
Qed.

Lemma lseg_frame h h' p l q :
  (forall a, In a (addrs l) -> h' !! a = h !! a) -> lseg h p l q -> lseg h' p l q.
Proof.
  revert p. induction l as [|[a n] l IH]; intros p Hf; cbn [lseg]; [done|].
  intros (-> & r & Ha & H). split; [done|]. exists r. split; [rewrite Hf; [done|by left]|].
  apply IH; [|done]. intros b Hb. apply Hf. by right.
Qed.

Lemma lseg_head h p l q : lseg h p l q -> p = match l with [] => q | (a, _) :: _ => Some a end.
Proof. destruct l as [|[a n] l]; [done|]. by intros [-> _]. Qed.

Lemma lseg_in h p l q a n : lseg h p l q -> In (a, n) l -> exists r, h !! a = Some {| next := r; info := n |}.
Proof.
  revert p. induction l as [|[b k] l IH]; intros p; [done|]. cbn [lseg].
  intros (-> & r & Hb & H) [[= -> ->]|Hin]; [eauto|]. eauto.
Qed.

(** Redirecting the last node of a segment. *)
Lemma lseg_redirect h p l a n q q' :
  lseg h p (l ++ [(a, n)]) q -> ~ In a (addrs l) -> lseg (set_next h a q') p (l ++ [(a, n)]) q'.
Proof.
  rewrite !lseg_app. intros (r & H1 & (-> & r' & Ha & Hr)) Hni. exists (Some a). split.
  - eapply lseg_frame; [|exact H1]. intros b Hb. unfold set_next. rewrite lookup_alter_ne; [done|]. by intros ->.
  - split; [done|]. exists q'. split; [|done]. unfold set_next. by rewrite lookup_alter_eq, Ha.
Qed.

Lemma set_next_frame h b q p l r :
  lseg h p l r -> ~ In b (addrs l) -> lseg (set_next h b q) p l r.
Proof.
  intros H Hni. eapply lseg_frame; [|exact H]. intros a Ha. unfold set_next.
  rewrite lookup_alter_ne; [done|]. by intros ->.
Qed.

(** ** The search loop *)

Fixpoint lfind (p : enode -> option bool) (l : list (nat * enode)) : option (option (list (nat * enode) * nat * enode * list (nat * enode))) :=
  match l with
  | [] => Some None
  | (a, n) :: l =>
      match p n with
      | None => None
      | Some true => Some (Some ([], a, n, l))
      | Some false =>
          match lfind p l with
          | Some (Some (l1, b, k, l2)) => Some (Some ((a, n) :: l1, b, k, l2))
          | r => r
          end
      end
  end.

Fixpoint last_addr (prev : option nat) (l : list (nat * enode)) : option nat :=
  match l with [] => prev | (a, _) :: l => last_addr (Some a) l end.

Lemma last_addr_snoc prev l a n : last_addr prev (l ++ [(a, n)]) = Some a.
Proof. revert prev. induction l as [|[b k] l IH]; intros prev; [done|]. apply IH. Qed.

Lemma search_lfind fuel h prev node p l :
  lseg h node l None -> (length l <= fuel)%nat ->
  search fuel h prev node p
  = match lfind p l with
    | None => None
    | Some None => Some None
    | Some (Some (l1, a, _, _)) => Some (Some (last_addr prev l1, a))
    end.
Proof.
  revert fuel prev node. induction l as [|[a n] l IH]; intros fuel prev node Hl Hf.
  - cbn in Hl. subst. by destruct fuel.
  - destruct Hl as (-> & r & Ha & Hl). cbn [length] in Hf. destruct fuel as [|fuel]; [lia|].
    cbn [search lfind]. rewrite Ha. cbn [info next]. destruct (p n) as [[|]|]; [done| |done].
    rewrite (IH fuel (Some a) r Hl) by lia. by destruct (lfind p l) as [[[[[l1 b] k] l2]|]|].
Qed.

Lemma lfind_split p l l1 a n l2 : lfind p l = Some (Some (l1, a, n, l2)) -> l = l1 ++ (a, n) :: l2 /\ p n = Some true.
Proof.
  revert l1. induction l as [|[b k] l IH]; intros l1; [done|]. cbn [lfind].
  destruct (p k) as [[|]|] eqn:E; [|destruct (lfind p l) as [[[[[l1' b'] k'] l2']|]|]|done]; try done.
  - by intros [= <- <- <- <-].
  - intros [= <- -> -> ->]. destruct (IH l1' eq_refl) as [-> Hp]. done.
Qed.

(** ** The representation *)

(** [g] holds the registered nodes [R] and the queue [U]. *)
Record rep (g : Nodes) (R U : list (nat * enode)) : Prop := {
  rep_reg : lseg (mem_nodes g) (reg g) R None;
  rep_unreg : lseg (mem_nodes g) (unreg g) U None;
  rep_nodup : NoDup (addrs R ++ addrs U);
  rep_count : unreg_count g = zlen U;
  rep_tail : unreg_tail g = last_addr None U
}.

Lemma rep_init : rep node_init [] [].
Proof. split; try done. constructor. Qed.

Lemma lseg_length h p l : lseg h p l None -> NoDup (addrs l) -> (length l <= size h)%nat.
Proof.
  intros Hl Hnd. rewrite <- (length_map fst).
  assert (size (list_to_set (addrs l) : gset nat) = length (addrs l)) as <- by (by apply size_list_to_set).
  rewrite <- (size_dom (D := gset nat)). apply subseteq_size. intros a. rewrite elem_of_list_to_set, elem_of_dom.
  intros Ha. apply list_elem_of_In, in_map_iff in Ha as ([b n] & <- & Hin).
  destruct (lseg_in _ _ _ _ _ _ Hl Hin) as [r E]. cbn. rewrite E. eauto.
Qed.

Lemma rep_search g R U p :
  rep g R U ->
  search (size (mem_nodes g)) (mem_nodes g) None (reg g) p
  = match lfind p R with
    | None => None | Some None => Some None
    | Some (Some (l1, a, _, _)) => Some (Some (last_addr None l1, a)) end /\
  search (size (mem_nodes g)) (mem_nodes g) None (unreg g) p
  = match lfind p U with
    | None => None | Some None => Some None
    | Some (Some (l1, a, _, _)) => Some (Some (last_addr None l1, a)) end.
Proof.
  intros [H1 H2 H3 _ _]. apply list.NoDup_app in H3 as (N1 & _ & N2). split.
  - apply search_lfind; [done|]. by eapply lseg_length.
  - apply search_lfind; [done|]. by eapply lseg_length.
Qed.

(** Linking a node out of a segment, given the node before it. *)
Lemma unlink_seg h p l1 a n l2 c :
  lseg h p (l1 ++ (a, n) :: l2) None -> NoDup (addrs (l1 ++ (a, n) :: l2)) -> h !! a = Some c ->
  info c = n /\ lseg h (next c) l2 None /\
  lseg (match last_addr None l1 with None => h | Some b => set_next h b (next c) end)
    (match last_addr None l1 with None => next c | Some _ => p end) (l1 ++ l2) None /\
  (forall b, ~ In b (addrs l1) ->
     (match last_addr None l1 with None => h | Some b => set_next h b (next c) end) !! b = h !! b).
Proof.
  intros Hl Hnd Ha. apply lseg_app in Hl as (r & H1 & (-> & r' & Ha' & H2)). rewrite Ha in Ha'.
  injection Ha' as ->. cbn [next info]. split; [done|]. split; [done|].
  rewrite map_app in Hnd. cbn [map fst] in Hnd.
  destruct l1 as [|[b k] l1 _] using rev_ind; [cbn in H1; subst; done|].
  rewrite last_addr_snoc. rewrite map_app in Hnd. cbn [map fst] in Hnd.
  apply list.NoDup_app in Hnd as (N1 & N2 & N3). apply list.NoDup_app in N1 as (N1 & N4 & _).
  apply list.NoDup_cons in N3 as [_ N3]. split.
  - apply lseg_app. exists r'. split.
    + eapply lseg_redirect; [exact H1|]. intros Hin. apply (N4 b); [by apply list_elem_of_In|by left].
    + apply set_next_frame; [done|]. intros Hin. apply (N2 b).
      * apply elem_of_app. right. by left.
      * right. by apply list_elem_of_In.
  - intros x Hx. unfold set_next. rewrite lookup_alter_ne; [done|]. intros ->. apply Hx.
    rewrite map_app. apply in_or_app. right. by left.
Qed.

(** ** What the operations do to the two lists *)

(** The first element that [q] selects, with what is before and after it. *)
Fixpoint split_first {A} (q : A -> bool) (l : list A) : option (list A * A * list A) :=
  match l with
  | [] => None
  | x :: l =>
      if q x then Some ([], x, l)
      else match split_first q l with
        | Some (l1, y, l2) => Some (x :: l1, y, l2)
        | None => None
        end
  end.

Lemma split_first_some {A} (q : A -> bool) l l1 x l2 :
  split_first q l = Some (l1, x, l2) -> l = l1 ++ x :: l2 /\ q x = true /\ Forall (fun y => q y = false) l1.
Proof.
  revert l1. induction l as [|y l IH]; intros l1; [done|]. cbn [split_first]. destruct (q y) eqn:E.
  - intros [= <- <- <-]. repeat split; [done|constructor].
  - destruct (split_first q l) as [[[l1' x'] l2']|]; [|done]. intros [= <- -> ->].
    destruct (IH l1' eq_refl) as (-> & Hq & Hall). repeat split; [done|by constructor].
Qed.

Lemma split_first_none {A} (q : A -> bool) l : split_first q l = None -> Forall (fun y => q y = false) l.
Proof.
  induction l as [|y l IH]; [constructor|]. cbn [split_first]. destruct (q y) eqn:E; [done|].
  destruct (split_first q l) as [[[? ?] ?]|]; [done|]. intros _. constructor; auto.
Qed.

Lemma split_first_map {A B} (f : A -> B) (q : B -> bool) l :
  split_first q (map f l)
  = match split_first (fun x => q (f x)) l with
    | Some (l1, x, l2) => Some (map f l1, f x, map f l2)
    | None => None
    end.
Proof.
  induction l as [|x l IH]; [done|]. cbn [map split_first]. destruct (q (f x)); [done|]. rewrite IH.
  by destruct (split_first _ l) as [[[l1 y] l2]|].
Qed.

Lemma lfind_split_first p q l :
  Forall (fun n => p n = Some (q n)) (map snd l) ->
  lfind p l = Some (match split_first (fun x => q (snd x)) l with
                    | Some (l1, (a, n), l2) => Some (l1, a, n, l2)
                    | None => None
                    end).
Proof.
  induction l as [|[a n] l IH]; [done|]. cbn [map snd]. intros [Hn Hl]%Forall_cons_iff.
  cbn [lfind split_first snd]. rewrite Hn. destruct (q n); [done|]. rewrite IH by done.
  by destruct (split_first _ l) as [[[l1 [b k]] l2]|].
Qed.

Lemma lseg_snoc h p l a n :
  lseg h p l (Some a) -> h !! a = Some {| next := None; info := n |} -> lseg h p (l ++ [(a, n)]) None.
Proof. intros Hl Ha. apply lseg_app. exists (Some a). split; [done|]. split; [done|]. by exists None. Qed.

Lemma set_next_at h a q c : h !! a = Some c -> set_next h a q !! a = Some {| next := q; info := info c |}.
Proof. intros H. unfold set_next. by rewrite lookup_alter_eq, H. Qed.

Lemma set_next_ne h a b q : a <> b -> set_next h a q !! b = h !! b.
Proof. intros H. unfold set_next. by rewrite lookup_alter_ne. Qed.

Lemma not_in_addrs {l k : list (nat * enode)} {a} :
  NoDup (addrs l ++ addrs k) -> In a (addrs l) -> ~ In a (addrs k).
Proof.
  intros (_ & H & _)%list.NoDup_app Hl Hk. apply (H a); by apply list_elem_of_In.
Qed.

Lemma unreg_first_rep g R U p R1 a n R2 :
  rep g R U -> lfind p R = Some (Some (R1, a, n, R2)) ->
  exists g', unreg_first p g = Some (fd n, g') /\ rep g' (R1 ++ R2) (U ++ [(a, n)]).
Proof.
  intros Hrep Hf. destruct (rep_search _ _ _ p Hrep) as [Hs _]. rewrite Hf in Hs.
  destruct Hrep as [Hreg Hun Hnd Hcnt Htl]. destruct (lfind_split _ _ _ _ _ _ Hf) as [-> _].
  assert (~ In a (addrs U)) as HaU.
  { apply (not_in_addrs Hnd). rewrite map_app. apply in_or_app. right. by left. }
  assert (NoDup (addrs (R1 ++ R2) ++ addrs (U ++ [(a, n)]))) as Hnd'.
  { eapply NoDup_Permutation_proper; [|exact Hnd]. rewrite <- !map_app. apply Permutation_map.
    rewrite <- !app_assoc. apply Permutation_app_head. rewrite app_assoc, Permutation_app_comm. done. }
  assert (~ In a (addrs (R1 ++ R2))) as HaR.
  { intros Hin. apply (not_in_addrs Hnd' Hin). rewrite map_app. apply in_or_app. right. by left. }
  pose proof Hnd as (HndR & _ & HndU)%list.NoDup_app.
  destruct (lseg_in _ _ _ _ a n Hreg) as [r Ha]; [apply in_or_app; right; by left|].
  destruct (unlink_seg _ _ _ _ _ _ _ Hreg HndR Ha) as (_ & _ & H1 & Hout). cbn [next] in *.
  unfold unreg_first. rewrite Hs, Ha. cbn [next info].
  set (h1 := match last_addr None R1 with None => mem_nodes g | Some b => set_next (mem_nodes g) b r end) in *.
  assert (h1 !! a = Some {| next := r; info := n |}) as Ha1.
  { rewrite Hout; [done|]. intros Hin. apply HaR. rewrite map_app. apply in_or_app. by left. }
  assert (lseg h1 (unreg g) U None) as HU1.
  { eapply lseg_frame; [|exact Hun]. intros b Hb. apply Hout. intros Hin. apply (not_in_addrs (a := b) Hnd); [|done].
    rewrite map_app. apply in_or_app. by left. }
  assert (zlen (U ++ [(a, n)]) = zlen U + 1) as Hz by (unfold zlen; rewrite length_app; cbn; lia).
  destruct U as [|[t k] U' _] using rev_ind.
  - cbn [lseg] in HU1. rewrite HU1. eexists. split; [reflexivity|].
    split; cbn [mem_nodes reg unreg unreg_tail unreg_count]; [|cbn [app]|done|lia|done].
    + by apply set_next_frame.
    + apply (lseg_snoc _ _ []); [done|]. by rewrite (set_next_at _ _ _ _ Ha1).
  - rewrite last_addr_snoc in Htl.
    rewrite (lseg_head _ _ _ _ HU1), Htl.
    assert (exists u, match (U' ++ [(t, k)]) with [] => None | (a0, _) :: _ => Some a0 end = Some u) as [u Hu].
    { destruct U' as [|[? ?] ?]; cbn; eauto. }
    rewrite Hu. eexists. split; [reflexivity|].
    assert (t <> a) as Hta. { intros ->. apply HaU. rewrite map_app. apply in_or_app. right. by left. }
    split; cbn [mem_nodes reg unreg unreg_tail unreg_count]; [| |done|lia|by rewrite last_addr_snoc].
    + apply set_next_frame; [|done]. apply set_next_frame; [done|]. intros Hin.
      apply (not_in_addrs Hnd' Hin). rewrite !map_app. apply in_or_app. left. apply in_or_app. right. by left.
    + apply lseg_snoc; [|apply (set_next_at _ _ _ _ (eq_trans (set_next_ne _ _ _ _ Hta) Ha1))].
      apply set_next_frame; [|done]. apply (lseg_redirect _ _ _ _ _ None).
      * rewrite <- Hu, <- (lseg_head _ _ _ _ HU1). done.
      * intros Hin. rewrite map_app in HndU. apply list.NoDup_app in HndU as (_ & HU & _).
        apply (HU t); [by apply list_elem_of_In|by left].
Qed.

Lemma unreg_first_none g R U p :
  rep g R U -> lfind p R = Some None -> unreg_first p g = Some (-1, g).
Proof. intros Hrep Hf. unfold unreg_first. destruct (rep_search _ _ _ p Hrep) as [-> _]. by rewrite Hf. Qed.

Lemma zlen_snoc_mid {A} (l1 : list A) x l2 : zlen (l1 ++ x :: l2) = zlen (l1 ++ l2) + 1.
Proof. unfold zlen. rewrite !length_app. cbn [length]. lia. Qed.

Lemma last_addr_app prev l1 l2 : last_addr prev (l1 ++ l2) = last_addr (last_addr prev l1) l2.
Proof. revert prev. induction l1 as [|[a n] l1 IH]; intros prev; [done|]. apply IH. Qed.

Lemma last_addr_cons prev prev' a n l : last_addr prev ((a, n) :: l) = last_addr prev' ((a, n) :: l).
Proof. done. Qed.

Lemma unlink_unreg_rep g R U1 a n U2 nx :
  rep g R (U1 ++ (a, n) :: U2) -> mem_nodes g !! a = Some {| next := nx; info := n |} ->
  rep (unlink_unreg g (last_addr None U1) a nx) R (U1 ++ U2).
Proof.
  intros [Hreg Hun Hnd Hcnt Htl] Ha. rewrite zlen_snoc_mid in Hcnt.
  pose proof Hnd as (_ & Hdis & HndU)%list.NoDup_app.
  destruct (unlink_seg _ _ _ _ _ _ _ Hun HndU Ha) as (_ & Hnx & HU & Hout). cbn [next] in *.
  assert (NoDup (addrs R ++ addrs (U1 ++ U2))) as Hnd'.
  { rewrite map_app in Hnd |- *. cbn [map fst] in Hnd.
    rewrite <- !Permutation_middle in Hnd.
    by apply list.NoDup_cons in Hnd as [_ Hnd]. }
  assert (lseg (match last_addr None U1 with None => mem_nodes g | Some b => set_next (mem_nodes g) b nx end)
            (reg g) R None) as HR.
  { eapply lseg_frame; [|exact Hreg]. intros b Hb. apply Hout. intros Hin. apply (not_in_addrs Hnd Hb).
    rewrite map_app. apply in_or_app. by left. }
  rewrite last_addr_app in Htl. cbn [last_addr] in Htl. apply lseg_head in Hnx.
  unfold unlink_unreg. destruct (last_addr None U1) as [b|] eqn:EL, U2 as [|[a2 n2] U2]; subst nx;
    (split; cbn [mem_nodes reg unreg unreg_tail unreg_count]; [done|done|done|lia|]);
    rewrite last_addr_app, EL; done.
Qed.

Lemma link_reg_rep g R U a n :
  rep g R U -> ~ In a (addrs R ++ addrs U) -> rep (link_reg g a n) ((a, n) :: R) U.
Proof.
  intros [Hreg Hun Hnd Hcnt Htl] Hni. rewrite in_app_iff in Hni.
  assert (forall b, In b (addrs R) \/ In b (addrs U) ->
    <[a := {| next := reg g; info := n |}]> (mem_nodes g) !! b = mem_nodes g !! b) as Hb.
  { intros b Hb. apply lookup_insert_ne. intros ->. tauto. }
  split; cbn [link_reg mem_nodes reg unreg unreg_tail unreg_count]; [| | |done|done].
  - split; [done|]. exists (reg g). split; [by rewrite lookup_insert_eq|].
    eapply lseg_frame; [|exact Hreg]. auto.
  - eapply lseg_frame; [|exact Hun]. auto.
  - cbn [map fst app]. constructor; [|done]. by rewrite elem_of_app, !list_elem_of_In.
Qed.

Lemma steal_rep g R a n b k U nx :
  rep g R ((a, n) :: (b, k) :: U) -> mem_nodes g !! a = Some {| next := nx; info := n |} ->
  rep {| mem_nodes := mem_nodes g; reg := reg g; unreg := nx; unreg_tail := unreg_tail g;
         unreg_count := unreg_count g - 1 |} R ((b, k) :: U).
Proof.
  intros Hrep Ha. pose proof (unlink_unreg_rep g R [] a n ((b, k) :: U) nx Hrep Ha) as H.
  cbn [last_addr unlink_unreg] in H. destruct nx; [exact H|].
  destruct Hrep as [_ (_ & r & Hr & Hs & _) _ _ _]. congruence.
Qed.

Lemma new_addr_fresh h : h !! new_addr h = None.
Proof.
  destruct (h !! new_addr h) as [c|] eqn:E; [|done]. exfalso.
  apply elem_of_map_to_list, list_elem_of_In, (in_map fst) in E. cbn [fst] in E.
  pose proof (proj1 (list_max_le (map fst (map_to_list h)) _) (Nat.le_refl _)) as Hmax.
  rewrite List.Forall_forall in Hmax. specialize (Hmax _ E). unfold new_addr in Hmax. lia.
Qed.

Lemma rep_addr_valid g R U a : rep g R U -> In a (addrs R ++ addrs U) -> is_Some (mem_nodes g !! a).
Proof.
  intros [Hreg Hun _ _ _]. rewrite in_app_iff, !in_map_iff.
  intros [([b n] & <- & Hin)|([b n] & <- & Hin)]; eapply lseg_in in Hin as [r ->]; eauto.
Qed.

(** A node that was taken out of the queue is in neither list. *)
Lemma taken_not_in (R U1 : list (nat * enode)) a n U2 :
  NoDup (addrs R ++ addrs (U1 ++ (a, n) :: U2)) -> ~ In a (addrs R ++ addrs (U1 ++ U2)).
Proof.
  rewrite !map_app. cbn [map fst]. rewrite <- !Permutation_middle.
  intros Hnd. apply list.NoDup_cons in Hnd as [H _]. by rewrite <- list_elem_of_In.
Qed.

(** ** The interface *)

(** The arguments of [node_reg2]; [a_name] and [a_extra] are memory blocks. *)
Record reg_args := {
  a_namelen : Z; a_name : mem; a_fd : Z; a_port : Z; a_nodetype : Z; a_protocol : Z;
  a_highvsn : Z; a_lowvsn : Z; a_extralen : Z; a_extra : mem
}.

(** What the surroundings decide: [g->debug], whether [malloc] succeeds, the
    time. *)
Record reg_env := { e_debug : bool; e_alloc : bool; e_now : Z }.

Inductive db_res (D : Type) :=
  | DbNull
  | DbNode (n : enode) (d : D)
  | DbExit.
Arguments DbNull {D}.
Arguments DbNode {D} _ _.
Arguments DbExit {D}.

(** The operations the server uses; the loops over the two lists give their
    nodes in order. *)
Class NodeDb (D : Type) := {
  db_init : D;
  db_unreg : D -> mem -> option (Z * D);
  db_unreg_sock : D -> Z -> option (Z * D);
  db_reg2 : reg_env -> D -> reg_args -> option (db_res D);
  db_reg_list : D -> option (list enode);
  db_unreg_list : D -> option (list enode)
}.

(** *** The registry as two lists *)

Definition named (nm : list Z) (n : enode) : bool := bool_decide (symname n = nm).
Definition on_fd (f : Z) (n : enode) : bool := fd n =? f.

Definition unreg_spec (q : enode -> bool) (R U : list enode) : Z * (list enode * list enode) :=
  match split_first q R with
  | None => (-1, (R, U))
  | Some (R1, n, R2) => (fd n, (R1 ++ R2, U ++ [n]))
  end.

Definition new_node (nm ex : list Z) (a : reg_args) (cr : Z) : enode :=
  {| fd := a_fd a; port := a_port a; symname := nm; cr_counter := cr; nodetype := a_nodetype a;
     protocol := a_protocol a; highvsn := a_highvsn a; lowvsn := a_lowvsn a; extralen := zlen ex; extra := ex |}.

Definition too_many (debug : bool) (U : list enode) : bool :=
  (MAX_UNREG_COUNT <? zlen U) || (debug && (DEBUG_MAX_UNREG_COUNT <? zlen U)).

(** The name [nm] and the extra data [ex] are registered with the other
    arguments [a]. *)
Definition reg_spec (e : reg_env) (R U : list enode) (nm ex : list Z) (a : reg_args)
  : db_res (list enode * list enode) :=
  if (MAXSYMLEN <? zlen nm) || (255 <? verify_utf8 nm false) || (verify_utf8 nm false <? 0)
     || (MAXSYMLEN <? zlen ex) then DbNull
  else
    match split_first (named nm) R, split_first (named nm) U with
    | Some _, _ => DbNull
    | None, Some (U1, n, U2) =>
        let n' := new_node nm ex a (bump_creation (cr_counter n)) in DbNode n' (n' :: R, U1 ++ U2)
    | None, None =>
        match too_many (e_debug e) U, U with
        | true, n :: U' => let n' := new_node nm ex a (cr_counter n) in DbNode n' (n' :: R, U')
        | _, _ =>
            if e_alloc e
            then let n' := new_node nm ex a (bump_creation (wrapu 32 (e_now e))) in DbNode n' (n' :: R, U)
            else DbExit
        end
    end.

(** What holds of the two lists at any time: the names are distinct C strings
    that fit [symname], and the counters are those [bump_creation] gives. *)
Record db_ok (R U : list enode) : Prop := {
  ok_names : NoDup (map symname (R ++ U));
  ok_nul : Forall (fun n => nul_free (symname n) /\ zlen (symname n) <= MAXSYMLEN) (R ++ U);
  ok_extra : Forall (fun n => zlen (extra n) = extralen n /\ extralen n <= MAXSYMLEN) (R ++ U);
  ok_creation : Forall (fun n => 4 <= cr_counter n < 2 ^ 32) (R ++ U)
}.

(** The block of a string of the right length. *)
Definition args_ok (nm ex : list Z) (a : reg_args) : Prop :=
  nul_free nm /\ a_namelen a = zlen nm /\ a_extralen a = zlen ex /\
  (exists r, a_name a = nm ++ 0 :: r) /\ (exists r, a_extra a = ex ++ r).

(** An implementation: every operation on a registry that holds [R] and [U]
    succeeds and does to it what the specification says. *)
Class NodeDbSpec (D : Type) `{NodeDb D} := {
  db_rep : D -> list enode -> list enode -> Prop;
  db_init_ok : db_rep db_init [] [];
  db_reg_list_ok : forall d R U, db_rep d R U -> db_reg_list d = Some R;
  db_unreg_list_ok : forall d R U, db_rep d R U -> db_unreg_list d = Some U;
  db_unreg_ok : forall d R U nm r, db_rep d R U -> db_ok R U -> nul_free nm ->
    exists d', db_unreg d (nm ++ 0 :: r) = Some (fst (unreg_spec (named nm) R U), d') /\
      db_rep d' (fst (snd (unreg_spec (named nm) R U))) (snd (snd (unreg_spec (named nm) R U)));
  db_unreg_sock_ok : forall d R U f, db_rep d R U ->
    exists d', db_unreg_sock d f = Some (fst (unreg_spec (on_fd f) R U), d') /\
      db_rep d' (fst (snd (unreg_spec (on_fd f) R U))) (snd (snd (unreg_spec (on_fd f) R U)));
  db_reg2_ok : forall e d R U nm ex a, db_rep d R U -> db_ok R U -> args_ok nm ex a ->
    match reg_spec e R U nm ex a with
    | DbNull => db_reg2 e d a = Some DbNull
    | DbExit => db_reg2 e d a = Some DbExit
    | DbNode n (R', U') => exists d', db_reg2 e d a = Some (DbNode n d') /\ db_rep d' R' U'
    end
}.

(** *** The linked lists are an implementation *)

(** [for (node = ...; node; node = node->next)] *)
Fixpoint walk (fuel : nat) (h : heap) (node : option nat) : option (list enode) :=
  match node with
  | None => Some []
  | Some a =>
      match fuel, h !! a with
      | S fuel, Some c => match walk fuel h (next c) with Some l => Some (info c :: l) | None => None end
      | _, _ => None
      end
  end.

#[export] Instance NodesDb : NodeDb Nodes := {
  db_init := node_init;
  db_unreg := node_unreg;
  db_unreg_sock := node_unreg_sock;
  db_reg2 e g a :=
    match node_reg2 (e_debug e) (e_alloc e) (e_now e) g (a_namelen a) (a_name a) (a_fd a) (a_port a)
            (a_nodetype a) (a_protocol a) (a_highvsn a) (a_lowvsn a) (a_extralen a) (a_extra a) with
    | None => None
    | Some RegNull => Some DbNull
    | Some RegExit => Some DbExit
    | Some (RegNode p g') => match mem_nodes g' !! p with Some c => Some (DbNode (info c) g') | None => None end
    end;
  db_reg_list g := walk (size (mem_nodes g)) (mem_nodes g) (reg g);
  db_unreg_list g := walk (size (mem_nodes g)) (mem_nodes g) (unreg g)
}.

Definition holds_lists (g : Nodes) (R U : list enode) : Prop :=
  exists LR LU, rep g LR LU /\ R = map snd LR /\ U = map snd LU.

Lemma walk_lseg fuel h p l : lseg h p l None -> (length l <= fuel)%nat -> walk fuel h p = Some (map snd l).
Proof.
  revert fuel p. induction l as [|[a n] l IH]; intros fuel p Hl Hf.
  - cbn in Hl. subst. by destruct fuel.
  - destruct Hl as (-> & r & Ha & Hl). cbn [length] in Hf. destruct fuel as [|fuel]; [lia|].
    cbn [walk]. rewrite Ha. cbn [next info]. rewrite (IH fuel r Hl) by lia. done.
Qed.

Lemma has_name_named nm r l :
  nul_free nm -> Forall (fun n => nul_free (symname n)) l ->
  Forall (fun n => has_name (nm ++ 0 :: r) n = Some (named nm n)) l.
Proof.
  intros Hnm. apply Forall_impl. intros n Hn. unfold has_name, named. by apply is_same_str_spec.
Qed.

Lemma unreg_first_spec g R U p q :
  holds_lists g R U -> Forall (fun n => p n = Some (q n)) R ->
  exists g', unreg_first p g = Some (fst (unreg_spec q R U), g') /\
    holds_lists g' (fst (snd (unreg_spec q R U))) (snd (snd (unreg_spec q R U))).
Proof.
  intros (LR & LU & Hrep & -> & ->) Hpq. pose proof (lfind_split_first p q LR Hpq) as Hf.
  unfold unreg_spec. rewrite split_first_map.
  destruct (split_first _ LR) as [[[l1 [a n]] l2]|]; cbn [fst snd].
  - destruct (unreg_first_rep _ _ _ _ _ _ _ _ Hrep Hf) as (g' & -> & Hrep'). eexists. split; [done|].
    exists (l1 ++ l2), (LU ++ [(a, n)]). by rewrite !map_app.
  - rewrite (unreg_first_none _ _ _ _ Hrep Hf). eexists. split; [done|]. by exists LR, LU.
Qed.

Lemma copy_symname_ok nm r : nul_free nm -> zlen nm <= MAXSYMLEN -> copy_symname (nm ++ 0 :: r) = Some nm.
Proof.
  intros Hn Hl. unfold copy_symname. rewrite copy_str_spec by done. replace (zlen nm <=? MAXSYMLEN) with true by lia.
  unfold zlen. rewrite Nat2Z.id, take_app_length. done.
Qed.

(** A search of the two lists for a name. *)
Lemma search_named g LR LU nm r :
  rep g LR LU -> nul_free nm -> Forall (fun n => nul_free (symname n)) (map snd LR ++ map snd LU) ->
  let find l := Some (match split_first (fun x => named nm (snd x)) l with
                      | Some (l1, (a, _), _) => Some (last_addr None l1, a) | None => None end) in
  search (size (mem_nodes g)) (mem_nodes g) None (reg g) (has_name (nm ++ 0 :: r)) = find LR /\
  search (size (mem_nodes g)) (mem_nodes g) None (unreg g) (has_name (nm ++ 0 :: r)) = find LU.
Proof.
  intros Hrep Hnm [HR HU]%Forall_app find. destruct (rep_search g LR LU (has_name (nm ++ 0 :: r)) Hrep) as [-> ->].
  rewrite !(lfind_split_first _ (named nm)) by (by apply has_name_named). subst find. cbn beta.
  split; by destruct (split_first _ _) as [[[? [? ?]] ?]|].
Qed.

Lemma slice_start l r n : n = zlen l -> slice (l ++ r) 0 n = Some l.
Proof. intros ->. apply holds_slice; [|done]. by exists [], r. Qed.

(** [node_reg2] past its checks of the arguments, in terms of the lists. *)
Lemma node_reg2_guards dbg alloc now g nm r f pt nt pr hv lv ex r' :
  let a := {| a_namelen := zlen nm; a_name := nm ++ 0 :: r; a_fd := f; a_port := pt; a_nodetype := nt;
              a_protocol := pr; a_highvsn := hv; a_lowvsn := lv; a_extralen := zlen ex; a_extra := ex ++ r' |} in
  forall LR LU, rep g LR LU -> db_ok (map snd LR) (map snd LU) -> nul_free nm ->
  node_reg2 dbg alloc now g (zlen nm) (nm ++ 0 :: r) f pt nt pr hv lv (zlen ex) (ex ++ r')
  = if (MAXSYMLEN <? zlen nm) || (255 <? verify_utf8 nm false) || (verify_utf8 nm false <? 0)
       || (MAXSYMLEN <? zlen ex) then Some RegNull
    else match split_first (fun x => named nm (snd x)) LR, split_first (fun x => named nm (snd x)) LU with
      | Some _, _ => Some RegNull
      | None, Some (l1, (b, _), _) =>
          match mem_nodes g !! b with
          | None => None
          | Some c =>
              Some (RegNode b (link_reg (unlink_unreg g (last_addr None l1) b (next c)) b
                      (new_node nm ex a (bump_creation (cr_counter (info c))))))
          end
      | None, None =>
          if too_many dbg (map snd LU) then
            match unreg g with
            | None => None
            | Some b =>
                match mem_nodes g !! b with
                | None => None
                | Some c =>
                    Some (RegNode b (link_reg {| mem_nodes := mem_nodes g; reg := reg g; unreg := next c;
                                                 unreg_tail := unreg_tail g; unreg_count := unreg_count g - 1 |} b
                            (new_node nm ex a (cr_counter (info c)))))
                end
            end
          else if alloc then
            Some (RegNode (new_addr (mem_nodes g))
                    (link_reg g (new_addr (mem_nodes g)) (new_node nm ex a (bump_creation (wrapu 32 now)))))
          else Some RegExit
      end.
Proof.
  intros a LR LU Hrep [Hnd Hnul _ _] Hnm. unfold node_reg2.
  rewrite (slice_start nm) by done. destruct (Z.ltb_spec MAXSYMLEN (zlen nm)) as [|Hl]; [done|].
  destruct (255 <? verify_utf8 nm false); [done|]. destruct (verify_utf8 nm false <? 0); [done|].
  cbn [orb]. destruct (MAXSYMLEN <? zlen ex); [done|].
  destruct (search_named g LR LU nm r Hrep Hnm) as [-> ->]; [by eapply Forall_impl; [|exact Hnul]; intros ? []|].
  rewrite slice_start, copy_symname_ok by done.
  destruct (split_first _ LR) as [[[? [? ?]] ?]|]; [done|].
  destruct (split_first _ LU) as [[[? [? ?]] ?]|]; [done|].
  unfold too_many. rewrite (rep_count _ _ _ Hrep). by replace (zlen (map snd LU)) with (zlen LU) by (unfold zlen; by rewrite length_map).
Qed.

Lemma node_reg2_spec e g R U nm ex a :
  holds_lists g R U -> db_ok R U -> args_ok nm ex a ->
  match reg_spec e R U nm ex a with
  | DbNull => db_reg2 e g a = Some DbNull
  | DbExit => db_reg2 e g a = Some DbExit
  | DbNode n (R', U') => exists g', db_reg2 e g a = Some (DbNode n g') /\ holds_lists g' R' U'
  end.
Proof.
  intros (LR & LU & Hrep & -> & ->) Hok (Hnm & Hnl & Hel & [r Hn] & [r' Hx]).
  destruct a as [namelen name f pt nt pr hv lv extlen ext]. cbn in Hnl, Hel, Hn, Hx. subst namelen extlen name ext.
  cbn [db_reg2 NodesDb a_namelen a_name a_fd a_port a_nodetype a_protocol a_highvsn a_lowvsn a_extralen a_extra].
  rewrite (node_reg2_guards _ _ _ g nm r f pt nt pr hv lv ex r' LR LU Hrep Hok Hnm). unfold reg_spec.
  destruct (_ || _); [done|]. rewrite !split_first_map.
  destruct (split_first _ LR) as [[[l1 [b n]] l2]|]; [done|].
  assert (forall g1 LU1 b n, rep g1 LR LU1 -> ~ In b (addrs LR ++ addrs LU1) ->
    exists g', match mem_nodes (link_reg g1 b n) !! b with
               | Some c => Some (DbNode (info c) (link_reg g1 b n)) | None => None end = Some (DbNode n g') /\
               holds_lists g' (n :: map snd LR) (map snd LU1)) as Hfin.
  { intros g1 LU1 b n Hr Hni. cbn [link_reg mem_nodes]. rewrite lookup_insert_eq. eexists. split; [done|].
    exists ((b, n) :: LR), LU1. split; [by apply link_reg_rep|done]. }
  destruct (split_first _ LU) as [[[l1 [b n]] l2]|] eqn:E.
  - apply split_first_some in E as (-> & _ & _). destruct (lseg_in _ _ _ _ b n (rep_unreg _ _ _ Hrep)) as [nx Hb].
    { apply in_or_app. right. by left. }
    rewrite Hb. cbn [info next]. rewrite <- map_app. apply Hfin; [by eapply unlink_unreg_rep|].
    eapply taken_not_in, (rep_nodup _ _ _ Hrep).
  - destruct (too_many (e_debug e) (map snd LU)) eqn:Et.
    + destruct LU as [|[b n] [|[b2 n2] LU]].
      1,2: exfalso; unfold too_many in Et; destruct (e_debug e); vm_compute in Et; done.
      destruct (rep_unreg _ _ _ Hrep) as (-> & nx & Hb & _). rewrite Hb. cbn [info next map snd].
      apply (Hfin _ ((b2, n2) :: LU)); [by eapply steal_rep|].
      eapply (taken_not_in LR []), (rep_nodup _ _ _ Hrep).
    + replace (match map snd LU with [] => _ | _ :: _ => _ end) with
        (if e_alloc e then
           let n' := new_node nm ex {| a_namelen := zlen nm; a_name := nm ++ 0 :: r; a_fd := f; a_port := pt;
             a_nodetype := nt; a_protocol := pr; a_highvsn := hv; a_lowvsn := lv; a_extralen := zlen ex;
             a_extra := ex ++ r' |} (bump_creation (wrapu 32 (e_now e))) in
           DbNode n' (n' :: map snd LR, map snd LU) else DbExit) by (by destruct (map snd LU)).
      destruct (e_alloc e); [|done]. apply Hfin; [done|]. intros Hin.
      destruct (rep_addr_valid _ _ _ _ Hrep Hin) as [c Hc]. by rewrite new_addr_fresh in Hc.
Qed.

#[export] Instance NodesDbSpec : NodeDbSpec Nodes.
Proof.
  refine {| db_rep := holds_lists |}.
  - exists [], []. split; [exact rep_init|done].
  - intros g R U (LR & LU & [H1 _ H3 _ _] & -> & _). apply list.NoDup_app in H3 as (H3 & _).
    apply walk_lseg; [done|]. by eapply lseg_length.
  - intros g R U (LR & LU & [_ H2 H3 _ _] & _ & ->). apply list.NoDup_app in H3 as (_ & _ & H3).
    apply walk_lseg; [done|]. by eapply lseg_length.
  - intros g R U nm r Hl [_ Hnul _ _] Hnm. apply unreg_first_spec; [done|]. apply has_name_named; [done|].
    apply Forall_app in Hnul as [Hnul _]. by eapply Forall_impl; [|exact Hnul]; intros ? [].
  - intros g R U f Hl. apply unreg_first_spec; [done|]. apply Forall_forall. done.
  - exact node_reg2_spec.
Defined.

(** ** The invariant of the lists *)

Lemma db_ok_perm R U R' U' : Permutation (R' ++ U') (R ++ U) -> db_ok R U -> db_ok R' U'.
Proof. intros Hp [H1 H2 H3 H4]. by split; rewrite ?Hp. Qed.

Lemma unreg_spec_ok q R U : db_ok R U -> db_ok (fst (snd (unreg_spec q R U))) (snd (snd (unreg_spec q R U))).
Proof.
  unfold unreg_spec. destruct (split_first q R) as [[[R1 n] R2]|] eqn:E; [|done]. cbn [fst snd].
  apply split_first_some in E as (-> & _ & _). apply db_ok_perm. rewrite <- !app_assoc. apply Permutation_app_head.
  rewrite (app_assoc R2 U [n]), Permutation_app_comm. done.
Qed.

Lemma bump_creation_range cr : 0 <= cr < 2 ^ 32 -> 4 <= bump_creation cr < 2 ^ 32.
Proof.
  intros H. unfold bump_creation. pose proof (wrapu_range 32 (cr + 1) ltac:(lia)) as Hr. unfold in_u in Hr.
  destruct (Z.ltb_spec (wrapu 32 (cr + 1)) 4); lia.
Qed.

(** Putting a new node in front, with a name that is not there. *)
Lemma db_ok_cons n R U :
  db_ok R U -> ~ In (symname n) (map symname (R ++ U)) -> nul_free (symname n) -> zlen (symname n) <= MAXSYMLEN ->
  zlen (extra n) = extralen n -> extralen n <= MAXSYMLEN -> 4 <= cr_counter n < 2 ^ 32 -> db_ok (n :: R) U.
Proof.
  intros [H1 H2 H3 H4] Hni Hnul Hlen Hx1 Hx2 Hcr. split; cbn [app map].
  - constructor; [by rewrite list_elem_of_In|done].
  - by constructor.
  - by constructor.
  - by constructor.
Qed.

Lemma named_false nm l : Forall (fun y => named nm y = false) l -> ~ In nm (map symname l).
Proof.
  intros H Hin. apply in_map_iff in Hin as (n & <- & Hin). rewrite List.Forall_forall in H. specialize (H n Hin).
  unfold named in H. by rewrite bool_decide_eq_true_2 in H.
Qed.

Lemma split_named nm l l1 n l2 :
  split_first (named nm) l = Some (l1, n, l2) -> l = l1 ++ n :: l2 /\ symname n = nm.
Proof.
  intros H. apply split_first_some in H as (-> & Hq & _). split; [done|]. unfold named in Hq.
  by apply bool_decide_eq_true_1 in Hq.
Qed.

(** Removing a node from the queue. *)
Lemma db_ok_remove R U1 n U2 :
  db_ok R (U1 ++ n :: U2) -> db_ok R (U1 ++ U2) /\ ~ In (symname n) (map symname (R ++ U1 ++ U2)) /\
  4 <= cr_counter n < 2 ^ 32.
Proof.
  intros H. apply (db_ok_perm _ _ [n] (R ++ U1 ++ U2)) in H.
  2:{ rewrite !(app_assoc R). rewrite <- Permutation_middle. done. }
  destruct H as [H1 H2 H3 H4]. cbn [app map] in *. apply list.NoDup_cons in H1 as [H1 H1'].
  apply Forall_cons_iff in H2 as [_ H2]. apply Forall_cons_iff in H3 as [_ H3]. apply Forall_cons_iff in H4 as [H4 H4'].
  split; [done|]. split; [|done]. by rewrite <- list_elem_of_In.
Qed.

Lemma reg_spec_ok e R U nm ex a n R' U' :
  db_ok R U -> nul_free nm -> reg_spec e R U nm ex a = DbNode n (R', U') ->
  db_ok R' U' /\ symname n = nm /\ R' = n :: R /\ fd n = a_fd a /\ 
  n = new_node nm ex a (cr_counter n) /\ (forall k, In k U' -> In k U) /\ ~ In nm (map symname R).
Proof.
  intros Hok Hnm. unfold reg_spec. destruct (_ || _) eqn:EG; [done|].
  rewrite !orb_false_iff, !Z.ltb_ge in EG. destruct EG as [[[Hl _] _] Hx].
  destruct (split_first (named nm) R) as [[[? ?] ?]|] eqn:ER; [done|]. apply split_first_none, named_false in ER.
  assert (forall U1 cr, db_ok R U1 -> ~ In nm (map symname (R ++ U1)) -> 4 <= cr < 2 ^ 32 ->
    db_ok (new_node nm ex a cr :: R) U1) as Hfin.
  { intros U1 cr H Hni Hcr. by apply db_ok_cons. }
  destruct (split_first (named nm) U) as [[[U1 m] U2]|] eqn:EU.
  - apply split_named in EU as [-> <-]. intros [= <- <- <-].
    destruct (db_ok_remove _ _ _ _ Hok) as (H1 & H2 & H3). split; [|repeat split; try done].
    + apply Hfin; [done|done|]. apply bump_creation_range. lia.
    + intros k. rewrite !in_app_iff. cbn. tauto.
  - apply split_first_none, named_false in EU.
    assert (~ In nm (map symname (R ++ U))) as Hni. { rewrite map_app, in_app_iff. tauto. }
    assert ((if e_alloc e then let n' := new_node nm ex a (bump_creation (wrapu 32 (e_now e))) in
              DbNode n' (n' :: R, U) else DbExit) = DbNode n (R', U') ->
      db_ok R' U' /\ symname n = nm /\ R' = n :: R /\ fd n = a_fd a /\
      n = new_node nm ex a (cr_counter n) /\ (forall k, In k U' -> In k U) /\ ~ In nm (map symname R)) as Hnew.
    { destruct (e_alloc e); [|done]. intros [= <- <- <-]. split; [|repeat split; done].
      apply Hfin; [done|done|]. apply bump_creation_range. apply (wrapu_range 32). lia. }
    destruct (too_many _ _); [|exact Hnew]. destruct U as [|m U2]; [exact Hnew|]. intros [= <- <- <-].
    destruct (db_ok_remove R [] m U2 Hok) as (H1 & _ & H3). split; [|repeat split; try done].
    + apply Hfin; [done|  |done]. intros Hin. apply Hni. rewrite map_app, in_app_iff in *. cbn. tauto.
    + intros k Hk. by right.
Qed.

Lemma db_ok_nil : db_ok [] [].
Proof. split; constructor. Qed.

(** ** Sequences of operations *)

Inductive db_op :=
  | OpReg (e : reg_env) (a : reg_args)
  | OpUnreg (name : mem)
  | OpUnregSock (f : Z).

(** The arguments are C strings of the lengths given. *)
Definition op_ok (o : db_op) : Prop :=
  match o with
  | OpReg _ a => args_ok (cstr (a_name a)) (take (Z.to_nat (a_extralen a)) (a_extra a)) a
  | OpUnreg name => exists nm r, nul_free nm /\ name = nm ++ 0 :: r
  | OpUnregSock _ => True
  end.

(** [None]: a pointer that is not valid was used; [Some None]: [exit(1)]. *)
Definition op_run {D} `{NodeDb D} (d : D) (o : db_op) : option (option D) :=
  match o with
  | OpReg e a =>
      match db_reg2 e d a with
      | Some DbNull => Some (Some d)
      | Some (DbNode _ d') => Some (Some d')
      | Some DbExit => Some None
      | None => None
      end
  | OpUnreg name => match db_unreg d name with Some (_, d') => Some (Some d') | None => None end
  | OpUnregSock f => match db_unreg_sock d f with Some (_, d') => Some (Some d') | None => None end
  end.

Fixpoint ops_run {D} `{NodeDb D} (d : D) (os : list db_op) : option (option D) :=
  match os with
  | [] => Some (Some d)
  | o :: os => match op_run d o with Some (Some d') => ops_run d' os | r => r end
  end.

Definition op_spec (l : list enode * list enode) (o : db_op) : option (list enode * list enode) :=
  match o with
  | OpReg e a =>
      match reg_spec e (fst l) (snd l) (cstr (a_name a)) (take (Z.to_nat (a_extralen a)) (a_extra a)) a with
      | DbNull => Some l
      | DbNode _ l' => Some l'
      | DbExit => None
      end
  | OpUnreg name => Some (snd (unreg_spec (named (cstr name)) (fst l) (snd l)))
  | OpUnregSock f => Some (snd (unreg_spec (on_fd f) (fst l) (snd l)))
  end.

Fixpoint ops_spec (l : list enode * list enode) (os : list db_op) : option (list enode * list enode) :=
  match os with
  | [] => Some l
  | o :: os => match op_spec l o with Some l' => ops_spec l' os | None => None end
  end.

Lemma op_run_refines {D} `{NodeDbSpec D} (d : D) R U o :
  db_rep d R U -> db_ok R U -> op_ok o ->
  match op_spec (R, U) o with
  | Some (R', U') => exists d', op_run d o = Some (Some d') /\ db_rep d' R' U' /\ db_ok R' U'
  | None => op_run d o = Some None
  end.
Proof.
  intros Hr Hok Ho. destruct o as [e a|name|f]; cbn [op_spec fst snd op_run].
  - pose proof (db_reg2_ok e d R U _ _ a Hr Hok Ho) as Hreg.
    destruct (reg_spec _ _ _ _ _ _) as [|n [R' U']|] eqn:E; [rewrite Hreg; eauto| |by rewrite Hreg].
    destruct Hreg as (d' & -> & Hr'). exists d'. split; [done|]. split; [done|].
    eapply reg_spec_ok; [exact Hok| |exact E]. by destruct Ho.
  - destruct Ho as (nm & r & Hnm & ->). rewrite cstr_spec by done.
    destruct (db_unreg_ok d R U nm r Hr Hok Hnm) as (d' & -> & Hr'). pose proof (unreg_spec_ok (named nm) R U Hok).
    destruct (snd (unreg_spec (named nm) R U)) as [R' U']. eauto.
  - destruct (db_unreg_sock_ok d R U f Hr) as (d' & -> & Hr'). pose proof (unreg_spec_ok (on_fd f) R U Hok).
    destruct (snd (unreg_spec (on_fd f) R U)) as [R' U']. eauto.
Qed.

Lemma ops_run_refines {D} `{NodeDbSpec D} os : forall (d : D) R U,
  db_rep d R U -> db_ok R U -> Forall op_ok os ->
  match ops_spec (R, U) os with
  | Some (R', U') => exists d', ops_run d os = Some (Some d') /\ db_rep d' R' U' /\ db_ok R' U'
  | None => ops_run d os = Some None
  end.
Proof.
  induction os as [|o os IH]; intros d R U Hr Hok Hos; cbn [ops_spec ops_run]; [eauto|].
  apply Forall_cons_iff in Hos as [Ho Hos]. pose proof (op_run_refines d R U o Hr Hok Ho) as Hs.
  destruct (op_spec (R, U) o) as [[R1 U1]|]; [|by rewrite Hs]. destruct Hs as (d1 & -> & Hr1 & Hok1). by apply IH.
Qed.

(** *** Unregistering and registering again *)

Lemma split_named_none nm l : ~ In nm (map symname l) -> split_first (named nm) l = None.
Proof.
  intros H. destruct (split_first (named nm) l) as [[[l1 n] l2]|] eqn:E; [|done].
  apply split_named in E as [-> <-]. destruct H. rewrite map_app. apply in_or_app. right. by left.
Qed.

Lemma split_named_at nm l1 n l2 :
  ~ In nm (map symname l1) -> symname n = nm -> split_first (named nm) (l1 ++ n :: l2) = Some (l1, n, l2).
Proof.
  intros Hni Hn. induction l1 as [|m l1 IH]; cbn [app split_first].
  - unfold named at 1. by rewrite bool_decide_eq_true_2.
  - cbn [map In] in Hni. unfold named at 1. rewrite bool_decide_eq_false_2 by tauto. by rewrite IH by tauto.
Qed.

Lemma unreg_spec_at R1 n R2 U :
  db_ok (R1 ++ n :: R2) U -> unreg_spec (named (symname n)) (R1 ++ n :: R2) U = (fd n, (R1 ++ R2, U ++ [n])).
Proof.
  intros Hok. unfold unreg_spec. rewrite split_named_at; [done| |done].
  pose proof (ok_names _ _ Hok) as Hnd. rewrite !map_app in Hnd. cbn [map] in Hnd.
  apply list.NoDup_app in Hnd as (Hnd & _ & _). apply list.NoDup_app in Hnd as (_ & Hnd & _).
  intros Hin. apply (Hnd (symname n)); [by apply list_elem_of_In|by left].
Qed.

Lemma reg_spec_again e R1 n R2 U ex a :
  db_ok (R1 ++ n :: R2) U -> 0 <= verify_utf8 (symname n) false <= 255 -> zlen ex <= MAXSYMLEN ->
  let n' := new_node (symname n) ex a (bump_creation (cr_counter n)) in
  reg_spec e (R1 ++ R2) (U ++ [n]) (symname n) ex a = DbNode n' (n' :: R1 ++ R2, U).
Proof.
  intros Hok Hu Hx n'. apply (db_ok_perm _ _ (R1 ++ R2) (U ++ n :: [])) in Hok.
  2:{ rewrite <- !app_assoc. apply Permutation_app_head. rewrite (app_assoc R2 U [n]), Permutation_app_comm. done. }
  pose proof (ok_nul _ _ Hok) as Hn. apply Forall_app in Hn as [_ Hn]. apply Forall_app in Hn as [_ Hn].
  apply Forall_cons_iff in Hn as [[_ Hlen] _].
  destruct (db_ok_remove _ _ _ _ Hok) as (_ & Hni & _). rewrite app_nil_r, map_app, in_app_iff in Hni.
  unfold reg_spec. destruct (_ || _) eqn:EG; [exfalso; lia|].
  rewrite split_named_none, split_named_at by tauto. by rewrite app_nil_r.
Qed.

Lemma bump_creation_changes n n' :
  4 <= cr_counter n < 2 ^ 32 -> cr_counter n' = bump_creation (cr_counter n) ->
  (6 <=? highvsn n') = (6 <=? highvsn n) -> get_creation n' <> get_creation n.
Proof.
  intros Hcr Hb Hv. unfold get_creation. rewrite Hv, Hb. unfold bump_creation, wrapu.
  assert (cr_counter n + 1 = 2 ^ 32 \/ cr_counter n + 1 < 2 ^ 32) as [E|Hlt] by lia.
  - assert (cr_counter n = 2 ^ 32 - 1) as -> by lia.
    destruct (6 <=? highvsn n); vm_compute; discriminate.
  - rewrite Z.mod_small by lia. destruct (Z.ltb_spec (cr_counter n + 1) 4); [lia|].
    destruct (6 <=? highvsn n); [lia|]. div_lia.
Qed.

(** ** Properties *)

(** C2: any sequence of registrations and unregistrations, started from
    [node_init], uses only valid pointers and ends (unless memory is exhausted)
    with the two linked lists that the list specification gives: registered
    nodes, the last one first, and the FIFO queue of names no longer in use,
    with its tail pointer and counter; and the names in the two lists are
    distinct, fit their field, and have creations of at least 4. *)
Theorem registry_refines os :
  Forall op_ok os ->
  match ops_spec ([], []) os with
  | Some (R, U) => exists g, ops_run node_init os = Some (Some g) /\ holds_lists g R U /\ db_ok R U
  | None => ops_run node_init os = Some None
  end.
Proof.
  intros H. change holds_lists with (db_rep (D := Nodes)).
  apply (ops_run_refines (D := Nodes) os node_init [] []); [exact db_init_ok|exact db_ok_nil|exact H].
Qed.

Definition sample_args (c : Z) : reg_args :=
  {| a_namelen := 1; a_name := [c; 0]; a_fd := 5; a_port := 4000; a_nodetype := 77; a_protocol := 0;
     a_highvsn := 6; a_lowvsn := 5; a_extralen := 0; a_extra := [] |}.
Definition sample_env : reg_env := {| e_debug := false; e_alloc := true; e_now := 1000 |}.

Definition sample_ops : list db_op :=
  [OpReg sample_env (sample_args 97); OpReg sample_env (sample_args 98); OpUnreg [97; 0];
   OpUnregSock 5; OpReg sample_env (sample_args 97)].

Lemma registry_refines_witness :
  (exists R U g, ops_spec ([], []) sample_ops = Some (R, U) /\
    ops_run node_init sample_ops = Some (Some g) /\ holds_lists g R U /\
    map (fun n => (symname n, cr_counter n)) R = [([97], 1002)] /\ map symname U = [[98]]).
Proof.
  assert (Forall op_ok sample_ops) as H.
  { assert (forall c, c <> 0 -> op_ok (OpReg sample_env (sample_args c))) as Hreg.
    { intros c Hc. cbn -[cstr]. change (args_ok (cstr ([c] ++ 0 :: [])) [] (sample_args c)).
      rewrite cstr_spec by (by repeat constructor).
      repeat split; [by repeat constructor|by exists []|by exists []]. }
    repeat apply List.Forall_cons; try (by apply Hreg); [|done|constructor].
    exists [97], []. split; [by repeat constructor|done]. }
  pose proof (registry_refines sample_ops H) as Hr.
  destruct (ops_spec ([], []) sample_ops) as [[R U]|] eqn:E; [|vm_compute in E; discriminate].
  destruct Hr as (g & Hrun & Hl & _). exists R, U, g. repeat split; try done;
    vm_compute in E; injection E as <- <-; vm_compute; reflexivity.
Defined.

(** A name that is unregistered and registered again gets a different
    creation, for nodes with 32-bit creations (highest version 6 or more) and
    for older ones with creations 1 to 3 alike, wrap-around of the counter
    included. *)
Theorem reregister_new_creation g R U n g1 f e a ex r :
  holds_lists g R U -> db_ok R U -> In n R ->
  node_unreg g (symname n ++ 0 :: r) = Some (f, g1) ->
  args_ok (symname n) ex a -> 0 <= verify_utf8 (symname n) false <= 255 -> zlen ex <= MAXSYMLEN ->
  (6 <=? a_highvsn a) = (6 <=? highvsn n) ->
  exists n' g2, db_reg2 e g1 a = Some (DbNode n' g2) /\ symname n' = symname n /\
    get_creation n' <> get_creation n.
Proof.
  intros Hl Hok Hin Hun Ha Hu Hx Hv. change (db_rep g R U) in Hl.
  assert (nul_free (symname n) /\ zlen (symname n) <= MAXSYMLEN) as [Hnul Hlen].
  { pose proof (ok_nul _ _ Hok) as H. rewrite List.Forall_forall in H. apply H, in_or_app. by left. }
  assert (4 <= cr_counter n < 2 ^ 32) as Hcr.
  { pose proof (ok_creation _ _ Hok) as H. rewrite List.Forall_forall in H. apply H, in_or_app. by left. }
  destruct (db_unreg_ok g R U (symname n) r Hl Hok Hnul) as (g1' & Hun' & Hl1).
  cbn in Hun'. rewrite Hun' in Hun. injection Hun as _ ->. pose proof (unreg_spec_ok (named (symname n)) R U Hok) as Hok1.
  apply in_split in Hin as (R1 & R2 & ->). rewrite unreg_spec_at in Hl1, Hok1 by done. cbn [fst snd] in Hl1, Hok1.
  pose proof (db_reg2_ok e g1 _ _ _ _ a Hl1 Hok1 Ha) as Hreg. rewrite reg_spec_again in Hreg by done.
  destruct Hreg as (g2 & -> & _). do 2 eexists. split; [done|]. split; [done|]. by apply bump_creation_changes.
Qed.

Lemma reregister_new_creation_witness :
  exists g n n' g1 g2,
    ops_run node_init [OpReg sample_env (sample_args 97)] = Some (Some g) /\
    node_unreg g [97; 0] = Some (5, g1) /\ db_reg2 sample_env g1 (sample_args 97) = Some (DbNode n' g2) /\
    get_creation n = 1001 /\ get_creation n' <> get_creation n.
Proof.
  assert (args_ok [97] [] (sample_args 97)) as Ha.
  { repeat split; [by repeat constructor|by exists []|by exists []]. }
  pose proof (ops_run_refines (D := Nodes) [OpReg sample_env (sample_args 97)] node_init [] [] db_init_ok db_ok_nil) as H.
  destruct H as (g & Hrun & Hl & Hok). { apply List.Forall_cons; [exact Ha|constructor]. }
  exists g. set (n := new_node [97] [] (sample_args 97) 1001).
  destruct (node_unreg g [97; 0]) as [[f g1]|] eqn:Hun.
  2:{ exfalso. injection Hrun as <-. vm_compute in Hun. discriminate. }
  assert (f = 5) as ->. { injection Hrun as <-. vm_compute in Hun. by injection Hun. }
  destruct (reregister_new_creation g _ _ n g1 5 sample_env (sample_args 97) [] [] Hl Hok) as (n' & g2 & H1 & H2 & H3);
    [by left|exact Hun|exact Ha|vm_compute; split; discriminate|vm_compute; discriminate|reflexivity|].
  exists n, n', g1, g2. repeat split; done.
Defined.
