(* ===== verification/EpmdConn.v ===== *)
(** * The connection table of [epmd_srv.c] and the state of the server

    [EpmdVars], the system calls as results the operating system hands out,
    the effects of the handlers as a small monad, and the operations on
    connections: [conn_init], [conn_open], [conn_local_peer_check],
    [conn_close_fd], [epmd_conn_close], [select_fd_set].

    The table works only if a connection can be found by its descriptor although
    closed slots keep the descriptor they had; [conns_ok] is the invariant that
    makes [conn_close_fd] right, and it is preserved by every operation. *)
From stdpp Require Import gmap.
From S2P Require Import Prelude PutGet EpmdStr EpmdNode.

Definition FD_SETSIZE : Z := 1024.

(** ** Data *)

(** What [s->buf] points to; [close] frees the block and keeps the pointer. *)
Inductive bufptr :=
  | BufNull
  | BufLive (m : mem)
  | BufFreed.

Record Connection := mkConn {
  c_fd : Z; c_open : bool; c_keep : bool; c_local_peer : bool;
  c_got : Z; c_want : Z; c_buf : bufptr; c_mod_time : Z
}.

(** A socket address, with the views of it the code takes: the family, the
    IPv4 address in host byte order, the IPv6 address. *)
Definition AF_INET : Z := 2.
Definition AF_INET6 : Z := 10.
Record sockaddr := { ss_family : Z; sin_addr : Z; sin6_addr : list Z }.

Section Server.

(** The registry, whatever implements it. *)
Context {D : Type}.

(** The fields of [EpmdVars] that the handlers use. *)
Record EpmdVars := mkVars {
  g_port : Z; g_debug : bool; brutal_kill : bool; packet_timeout : Z;
  max_conn : Z; active_conn : Z; select_fd_top : Z;
  conn : list Connection; nodes : D; orig_read_mask : gset Z; listenfd : list Z
}.

(** ** System calls

    What the next calls of [write], [read] and [accept] give. *)
Inductive wres :=
  | WVal (n : Z)          (* bytes written *)
  | WEintr
  | WErr.

Inductive rres :=
  | RData (bs : list Z)   (* end of file when empty *)
  | RErr.

(** A new socket with the results of [getpeername] and [getsockname] on it
    ([None]: they fail) and the block [malloc] will return for its buffer
    ([None]: NULL); a failure of [accept] is fatal or not. *)
Inductive ares :=
  | AFd (fd : Z) (peer sock : option sockaddr) (junk : option mem)
  | AErr (fatal : bool).

Inductive event :=
  | EvWrite (fd : Z) (bs : list Z)
  | EvClose (fd : Z).

(** The state of the process: its variables, the results of coming system
    calls, the time, whether [malloc] succeeds for a new node, the descriptors it
    has open and what it did, the last first. *)
Record world := mkWorld {
  vars : EpmdVars; writes : list wres; reads : list rres; accepts : list ares;
  clock : Z; memory : bool; procfds : gset Z; out : list event
}.

(** A handler returns, ends the process, waits for a system call that does not
    come back, or uses memory it may not use. *)
Inductive outcome (A : Type) :=
  | Ret (a : A) (w : world)
  | Exit (code : Z) (w : world)
  | Blocked
  | Crash.

Definition M (A : Type) : Type := world -> outcome A.

End Server.

Arguments EpmdVars : clear implicits.
Arguments mkVars {D}.
Arguments world : clear implicits.
Arguments mkWorld {D}.
Arguments outcome : clear implicits.
Arguments Ret {D A}.
Arguments Exit {D A}.
Arguments Blocked {D A}.
Arguments Crash {D A}.
Arguments M : clear implicits.

Definition ret {D A} (a : A) : M D A := fun w => Ret a w.
Definition bind {D A B} (m : M D A) (k : A -> M D B) : M D B := fun w =>
  match m w with
  | Ret a w' => k a w'
  | Exit c w' => Exit c w'
  | Blocked => Blocked
  | Crash => Crash
  end.

Declare Scope epmd_scope.
Delimit Scope epmd_scope with epmd.
#[global] Open Scope epmd_scope.
Notation "x <- m ;; k" := (bind m (fun x => k)) (at level 100, m at next level, right associativity) : epmd_scope.
Notation "m ;; k" := (bind m (fun _ => k)) : epmd_scope.

Definition crash {D A} : M D A := fun _ => Crash.
Definition blocked {D A} : M D A := fun _ => Blocked.
Definition exit {D A} (c : Z) : M D A := fun w => Exit c w.
Definition get {D} : M D (world D) := fun w => Ret w w.
Definition put {D} (w : world D) : M D unit := fun _ => Ret tt w.
(** A C expression that reads memory. *)
Definition lift {D A} (o : option A) : M D A := match o with Some a => ret a | None => crash end.

(** ** Updates of the variables *)

Definition set_vars {D} (v : EpmdVars D) (w : world D) : world D :=
  mkWorld v (writes w) (reads w) (accepts w) (clock w) (memory w) (procfds w) (out w).

Definition set_conn {D} (l : list Connection) (v : EpmdVars D) : EpmdVars D :=
  mkVars (g_port v) (g_debug v) (brutal_kill v) (packet_timeout v) (max_conn v) (active_conn v)
    (select_fd_top v) l (nodes v) (orig_read_mask v) (listenfd v).
Definition set_nodes {D} (d : D) (v : EpmdVars D) : EpmdVars D :=
  mkVars (g_port v) (g_debug v) (brutal_kill v) (packet_timeout v) (max_conn v) (active_conn v)
    (select_fd_top v) (conn v) d (orig_read_mask v) (listenfd v).
Definition set_active {D} (n : Z) (v : EpmdVars D) : EpmdVars D :=
  mkVars (g_port v) (g_debug v) (brutal_kill v) (packet_timeout v) (max_conn v) n
    (select_fd_top v) (conn v) (nodes v) (orig_read_mask v) (listenfd v).
Definition set_mask {D} (top : Z) (mask : gset Z) (v : EpmdVars D) : EpmdVars D :=
  mkVars (g_port v) (g_debug v) (brutal_kill v) (packet_timeout v) (max_conn v) (active_conn v)
    top (conn v) (nodes v) mask (listenfd v).

Definition modify {D} (f : EpmdVars D -> EpmdVars D) : M D unit := fun w => Ret tt (set_vars (f (vars w)) w).

(** [g->conn[i]] and an assignment to its fields. *)
Definition the_conn {D} (i : nat) : M D Connection :=
  w <- get ;; lift (conn (vars w) !! i).
Definition upd_conn {D} (i : nat) (f : Connection -> Connection) : M D unit :=
  modify (fun v => set_conn (alter f i (conn v)) v).

(** ** Operations *)

(** [FD_SET] and the bound given to [select]. *)
Definition select_fd_set {D} (fd : Z) : M D unit :=
  modify (fun v => set_mask (if select_fd_top v <=? fd then fd + 1 else select_fd_top v)
                     ({[fd]} ∪ orig_read_mask v) v).

Definition close_fd {D} (fd : Z) : M D unit := fun w =>
  Ret tt (mkWorld (vars w) (writes w) (reads w) (accepts w) (clock w) (memory w)
            (procfds w ∖ {[fd]}) (EvClose fd :: out w)).

(** All bytes of the table are 0. *)
Definition conn_init (max_conn : nat) : list Connection :=
  replicate max_conn (mkConn 0 false false false 0 0 BufNull 0).

(** [epmd_conn_close(g,&g->conn[i])]; the block must not have been freed. *)
Definition epmd_conn_close {D} (i : nat) : M D unit :=
  s <- the_conn i ;;
  modify (fun v => set_mask (select_fd_top v) (orig_read_mask v ∖ {[c_fd s]}) v) ;;
  close_fd (c_fd s) ;;
  upd_conn i (fun s => mkConn (c_fd s) false (c_keep s) (c_local_peer s) (c_got s) (c_want s)
                         (match c_buf s with BufNull => BufNull | _ => BufFreed end) (c_mod_time s)) ;;
  (match c_buf s with BufFreed => crash | _ => ret tt end) ;;
  modify (fun v => set_active (active_conn v - 1) v).

(** The first slot that [p] selects. *)
Fixpoint first_slot (p : Connection -> bool) (l : list Connection) : option nat :=
  match l with
  | [] => None
  | c :: l => if p c then Some O else match first_slot p l with Some i => Some (S i) | None => None end
  end.

Definition conn_close_fd {D} (fd : Z) : M D bool :=
  w <- get ;;
  match first_slot (fun c => c_fd c =? fd) (conn (vars w)) with
  | Some i => epmd_conn_close i ;; ret true
  | None => ret false
  end.

Definition in6_loopback : list Z := repeat 0 15 ++ [1].

(** [EPMD6] is defined; [peer], [sock] are the results of [getpeername] and
    [getsockname]. *)
Definition conn_local_peer_check (peer sock : option sockaddr) : bool :=
  match peer with
  | None => false
  | Some si =>
      if (ss_family si =? AF_INET6) && bool_decide (sin6_addr si = in6_loopback) then true
      else if (ss_family si =? AF_INET) && (Z.land (sin_addr si) 0xFF000000 =? 0x7F000000) then true
      else match sock with
        | None => false
        | Some di =>
            if ss_family si =? AF_INET6 then bool_decide (sin6_addr si = sin6_addr di)
            else if ss_family si =? AF_INET then sin_addr si =? sin_addr di
            else false
        end
  end.

Definition conn_open {D} (fd : Z) (peer sock : option sockaddr) (junk : option mem) : M D bool :=
  if FD_SETSIZE <=? fd then close_fd fd ;; ret false
  else
    w <- get ;;
    match first_slot (fun c => negb (c_open c)) (conn (vars w)) with
    | None => close_fd fd ;; ret false
    | Some i =>
        modify (fun v => set_active (active_conn v + 1) v) ;;
        select_fd_set fd ;;
        upd_conn i (fun _ => mkConn fd true false (conn_local_peer_check peer sock) 0 0
                               (match junk with Some m => BufLive m | None => BufNull end) (clock w)) ;;
        match junk with Some _ => ret true | None => close_fd fd ;; ret false end
    end.

(** ** Reasoning about handlers *)

(** From [w], [m] does not use memory it may not use; when it returns [Q] holds,
    when it ends the process [X] does. *)
Definition wp {D A} (m : M D A) (Q : A -> world D -> Prop) (X : Z -> world D -> Prop) (w : world D) : Prop :=
  match m w with
  | Ret a w' => Q a w'
  | Exit c w' => X c w'
  | Blocked => True
  | Crash => False
  end.

Lemma wp_bind {D A B} (m : M D A) (k : A -> M D B) Q X w :
  wp m (fun a w' => wp (k a) Q X w') X w -> wp (bind m k) Q X w.
Proof. unfold wp, bind. by destruct (m w). Qed.

Lemma wp_ret {D A} (a : A) Q X (w : world D) : Q a w -> wp (ret a) Q X w.
Proof. done. Qed.

Lemma wp_get {D} Q X (w : world D) : Q w w -> wp get Q X w.
Proof. done. Qed.

Lemma wp_put {D} Q X (w w' : world D) : Q tt w' -> wp (put w') Q X w.
Proof. done. Qed.

Lemma wp_modify {D} f Q X (w : world D) : Q tt (set_vars (f (vars w)) w) -> wp (modify f) Q X w.
Proof. done. Qed.

Lemma wp_lift {D A} (o : option A) a Q X (w : world D) : o = Some a -> Q a w -> wp (lift o) Q X w.
Proof. by intros ->. Qed.

Lemma wp_mono {D A} (m : M D A) (Q Q' : A -> world D -> Prop) X X' w :
  wp m Q X w -> (forall a w', Q a w' -> Q' a w') -> (forall c w', X c w' -> X' c w') -> wp m Q' X' w.
Proof. unfold wp. destruct (m w); auto. Qed.

(** ** The invariant of the table *)

(** The packet being read fits the buffer; nothing is wanted before the two
    bytes of the length have come. *)
Definition conn_ok (c : Connection) : Prop :=
  (exists m, c_buf c = BufLive m /\ zlen m = INBUF_SIZE /\ bytes_ok m) /\ 0 <= c_got c /\
  ((c_want c = 0 /\ c_got c < 2) \/ (3 <= c_want c < INBUF_SIZE /\ c_got c <= c_want c)).

Definition open_count (l : list Connection) : Z := zlen (List.filter c_open l).

(** [fds]: the descriptors the process has open. *)
Record table_ok {D} (v : EpmdVars D) (fds : gset Z) : Prop := {
  t_len : zlen (conn v) = max_conn v;
  t_first : forall i j c c', conn v !! i = Some c -> conn v !! j = Some c' -> (i < j)%nat ->
    c_open c' = true -> c_fd c <> c_fd c';
  t_open : forall i c, conn v !! i = Some c -> c_open c = true ->
    conn_ok c /\ c_fd c ∈ fds /\ c_fd c ∈ orig_read_mask v /\ c_fd c < select_fd_top v /\ ~ In (c_fd c) (listenfd v);
  t_listen : forall f, In f (listenfd v) -> f ∈ fds /\ f ∈ orig_read_mask v /\ f < select_fd_top v;
  t_active : active_conn v = 3 + zlen (listenfd v) + open_count (conn v)
}.

Lemma open_count_alter (f : Connection -> Connection) i l c :
  l !! i = Some c ->
  open_count (alter f i l) = open_count l - Z.b2z (c_open c) + Z.b2z (c_open (f c)).
Proof.
  revert i. induction l as [|d l IH]; intros [|i]; [done..| |].
  - intros [= ->]. unfold open_count. cbn. destruct (c_open c), (c_open (f c)); cbn [Z.b2z]; zlen_lia.
  - intros H. specialize (IH i H). unfold open_count in *. cbn -[alter]. change (alter f (S i) (d :: l)) with (d :: alter f i l).
    cbn [List.filter]. destruct (c_open d); zlen_lia.
Qed.

Lemma lookup_alter_conn (f : Connection -> Connection) (i j : nat) (l : list Connection) c :
  alter f i l !! j = Some c ->
  (j = i /\ exists c0, l !! i = Some c0 /\ c = f c0) \/ (j <> i /\ l !! j = Some c).
Proof.
  destruct (decide (j = i)) as [->|Hne].
  - rewrite list_lookup_alter_eq. destruct (l !! i) as [c0|]; [|done]. intros [= <-]. left. eauto.
  - rewrite list_lookup_alter_ne by done. auto.
Qed.

(** Open slots have different descriptors. *)
Lemma table_fd_inj {D} (v : EpmdVars D) fds i j c c' :
  table_ok v fds -> conn v !! i = Some c -> conn v !! j = Some c' -> c_open c = true -> c_open c' = true ->
  c_fd c = c_fd c' -> i = j.
Proof.
  intros H Hi Hj Ho Ho' E. destruct (Nat.lt_trichotomy i j) as [Hl|[->|Hl]]; [|done|].
  - by destruct (t_first _ _ H _ _ _ _ Hi Hj Hl Ho').
  - by destruct (t_first _ _ H _ _ _ _ Hj Hi Hl Ho).
Qed.

Lemma first_slot_some p l i : first_slot p l = Some i ->
  exists c, l !! i = Some c /\ p c = true /\ forall j c', (j < i)%nat -> l !! j = Some c' -> p c' = false.
Proof.
  revert i. induction l as [|c l IH]; intros i; [done|]. cbn [first_slot]. destruct (p c) eqn:E.
  - intros [= <-]. exists c. repeat split; [done|]. intros j c' Hj. lia.
  - destruct (first_slot p l) as [k|]; [|done]. intros [= <-]. destruct (IH k eq_refl) as (d & Hd & Hp & Hall).
    exists d. repeat split; [done|done|]. intros [|j] c' Hj; [by intros [= <-]|]. apply Hall. lia.
Qed.

Lemma first_slot_at p l i c :
  l !! i = Some c -> p c = true -> (forall j c', (j < i)%nat -> l !! j = Some c' -> p c' = false) ->
  first_slot p l = Some i.
Proof.
  revert i. induction l as [|d l IH]; intros [|i]; [done..| |].
  - intros [= ->] Hp _. cbn [first_slot]. by rewrite Hp.
  - intros Hl Hp Hall. cbn [first_slot]. rewrite (Hall O d ltac:(lia) eq_refl).
    rewrite (IH i Hl Hp); [done|]. intros j c' Hj. apply (Hall (S j)). lia.
Qed.

(** A descriptor that an open slot has is found there, whatever closed slots
    still hold. *)
Lemma first_slot_open {D} (v : EpmdVars D) fds i c :
  table_ok v fds -> conn v !! i = Some c -> c_open c = true ->
  first_slot (fun d => c_fd d =? c_fd c) (conn v) = Some i.
Proof.
  intros H Hi Ho. eapply first_slot_at; [exact Hi|lia|]. intros j c' Hj Hc'.
  apply Z.eqb_neq. by eapply (t_first _ _ H j i).
Qed.

(** Changes of an open slot that leave its descriptor. *)
Lemma table_ok_alter {D} (v : EpmdVars D) fds i c (f : Connection -> Connection) :
  table_ok v fds -> conn v !! i = Some c -> c_open c = true ->
  c_fd (f c) = c_fd c -> c_open (f c) = true -> conn_ok (f c) ->
  table_ok (set_conn (alter f i (conn v)) v) fds.
Proof.
  intros [H1 H2 H3 H4 H5] Hi Ho Hfd Ho' Hok. split; cbn [set_conn conn max_conn orig_read_mask select_fd_top listenfd active_conn].
  - unfold zlen. rewrite length_alter. exact H1.
  - intros a b c1 c2 Ha Hb Hab Hop.
    apply lookup_alter_conn in Ha as [(-> & c1' & Ha & ->)|[_ Ha]];
    apply lookup_alter_conn in Hb as [(-> & c2' & Hb & ->)|[_ Hb]]; try lia; simplify_eq; rewrite ?Hfd; eauto.
  - intros j c' Hj Hop. apply lookup_alter_conn in Hj as [(-> & c0 & Hj & ->)|[_ Hj]]; [|eauto].
    simplify_eq. rewrite Hfd. destruct (H3 _ _ Hi Ho) as (_ & Hrest). done.
  - exact H4.
  - rewrite (open_count_alter f i _ _ Hi), Ho, Ho'. cbn. lia.
Qed.

(** *** Closing *)

Definition closed_conn (s : Connection) : Connection :=
  mkConn (c_fd s) false (c_keep s) (c_local_peer s) (c_got s) (c_want s)
    (match c_buf s with BufNull => BufNull | _ => BufFreed end) (c_mod_time s).

Definition closed_vars {D} (i : nat) (s : Connection) (v : EpmdVars D) : EpmdVars D :=
  mkVars (g_port v) (g_debug v) (brutal_kill v) (packet_timeout v) (max_conn v) (active_conn v - 1)
    (select_fd_top v) (alter closed_conn i (conn v)) (nodes v) (orig_read_mask v ∖ {[c_fd s]}) (listenfd v).

Definition closed_world {D} (i : nat) (s : Connection) (w : world D) : world D :=
  mkWorld (closed_vars i s (vars w)) (writes w) (reads w) (accepts w) (clock w) (memory w)
    (procfds w ∖ {[c_fd s]}) (EvClose (c_fd s) :: out w).

Lemma epmd_conn_close_eq {D} (w : world D) i s :
  conn (vars w) !! i = Some s -> c_buf s <> BufFreed -> epmd_conn_close i w = Ret tt (closed_world i s w).
Proof.
  intros Hi Hb. unfold epmd_conn_close, the_conn, bind, get, lift. rewrite Hi. cbn.
  destruct (c_buf s) eqn:E; done.
Qed.

(** The slot may have been changed in any way before it is closed, as long as it
    keeps its descriptor. *)
Lemma closed_table_gen {D} (v : EpmdVars D) fds i s (h : Connection -> Connection) :
  table_ok v fds -> conn v !! i = Some s -> c_open s = true -> c_fd (h s) = c_fd s -> c_open (h s) = false ->
  table_ok (mkVars (g_port v) (g_debug v) (brutal_kill v) (packet_timeout v) (max_conn v) (active_conn v - 1)
    (select_fd_top v) (alter h i (conn v)) (nodes v) (orig_read_mask v ∖ {[c_fd s]}) (listenfd v)) (fds ∖ {[c_fd s]}).
Proof.
  intros H Hi Ho Hfd Hcl. pose proof H as [H1 H2 H3 H4 H5].
  assert (forall j c, conn v !! j = Some c -> c_open c = true -> j <> i -> c_fd c <> c_fd s) as Hd.
  { intros j c Hj Hc Hne E. apply Hne. by eapply (table_fd_inj v fds j i). }
  split; cbn [conn max_conn orig_read_mask select_fd_top listenfd active_conn].
  - unfold zlen. rewrite length_alter. exact H1.
  - intros a b c1 c2 Ha Hb Hab Hop.
    apply lookup_alter_conn in Hb as [(-> & c2' & Hb & ->)|[_ Hb]]; [simplify_eq; congruence|].
    apply lookup_alter_conn in Ha as [(-> & c1' & Ha & ->)|[_ Ha]]; simplify_eq; rewrite ?Hfd; eauto.
  - intros j c Hj Hop. apply lookup_alter_conn in Hj as [(-> & c0 & Hj & ->)|[Hne Hj]]; [simplify_eq; congruence|].
    specialize (Hd _ _ Hj Hop Hne). destruct (H3 _ _ Hj Hop) as (A1 & A2 & A3 & A4 & A5).
    rewrite !elem_of_difference, !elem_of_singleton. tauto.
  - intros f Hf. destruct (H4 f Hf) as (A1 & A2 & A3).
    assert (f <> c_fd s); [|rewrite !elem_of_difference, !elem_of_singleton; tauto].
    intros ->. by destruct (H3 _ _ Hi Ho) as (_ & _ & _ & _ & []).
  - rewrite (open_count_alter h i _ _ Hi), Ho, Hcl. cbn. lia.
Qed.

Lemma closed_table_ok {D} (v : EpmdVars D) fds i s :
  table_ok v fds -> conn v !! i = Some s -> c_open s = true -> table_ok (closed_vars i s v) (fds ∖ {[c_fd s]}).
Proof. intros H Hi Ho. by apply closed_table_gen. Qed.

(** *** Opening *)

Definition opened_conn {D} (fd : Z) (peer sock : option sockaddr) (junk : mem) (w : world D) : Connection :=
  mkConn fd true false (conn_local_peer_check peer sock) 0 0 (BufLive junk) (clock w).

Definition opened_vars {D} (i : nat) (c : Connection) (v : EpmdVars D) : EpmdVars D :=
  mkVars (g_port v) (g_debug v) (brutal_kill v) (packet_timeout v) (max_conn v) (active_conn v + 1)
    (if select_fd_top v <=? c_fd c then c_fd c + 1 else select_fd_top v) (alter (fun _ => c) i (conn v)) (nodes v)
    ({[c_fd c]} ∪ orig_read_mask v) (listenfd v).

Lemma conn_open_eq {D} (w : world D) fd peer sock junk i :
  fd < FD_SETSIZE -> first_slot (fun c => negb (c_open c)) (conn (vars w)) = Some i ->
  conn_open fd peer sock (Some junk) w
  = Ret true (set_vars (opened_vars i (opened_conn fd peer sock junk w) (vars w)) w).
Proof.
  intros Hf Hs. unfold conn_open. replace (FD_SETSIZE <=? fd) with false by lia.
  unfold bind at 1, get. rewrite Hs. done.
Qed.

Lemma opened_table_ok {D} (v : EpmdVars D) fds i (c : Connection) :
  table_ok v fds -> first_slot (fun c => negb (c_open c)) (conn v) = Some i ->
  c_fd c ∉ fds -> c_open c = true -> conn_ok c -> table_ok (opened_vars i c v) ({[c_fd c]} ∪ fds).
Proof.
  intros [H1 H2 H3 H4 H5] Hs Hnew Ho Hok. apply first_slot_some in Hs as (s & Hi & Hc & Hlow).
  apply negb_true_iff in Hc.
  assert (forall j d, conn v !! j = Some d -> c_open d = true -> c_fd d <> c_fd c) as Hd.
  { intros j d Hj Hop E. destruct (H3 _ _ Hj Hop) as (_ & Hin & _). by rewrite E in Hin. }
  split; cbn [opened_vars conn max_conn orig_read_mask select_fd_top listenfd active_conn].
  - unfold zlen. rewrite length_alter. exact H1.
  - intros a b c1 c2 Ha Hb Hab Hop.
    apply lookup_alter_conn in Ha as [(-> & c1' & Ha & ->)|[_ Ha]];
    apply lookup_alter_conn in Hb as [(-> & c2' & Hb & ->)|[_ Hb]]; [lia| | |by eauto].
    + intros E. by apply (Hd _ _ Hb Hop).
    + eapply Hd; [exact Ha|]. apply negb_false_iff. by eapply Hlow.
  - intros j d Hj Hop. rewrite !elem_of_union, !elem_of_singleton.
    apply lookup_alter_conn in Hj as [(-> & c0 & Hj & ->)|[Hne Hj]].
    + split; [done|]. split; [by left|]. split; [by left|]. split; [destruct (Z.leb_spec (select_fd_top v) (c_fd c)); lia|].
      intros Hin. by destruct (H4 _ Hin).
    + destruct (H3 _ _ Hj Hop) as (A1 & A2 & A3 & A4 & A5). split; [exact A1|]; split; [by right|]; split; [by right|]; split; [|exact A5].
      destruct (Z.leb_spec (select_fd_top v) (c_fd c)); lia.
  - intros f Hf. destruct (H4 f Hf) as (A1 & A2 & A3). rewrite !elem_of_union. repeat split; [by right|by right|].
    destruct (Z.leb_spec (select_fd_top v) (c_fd c)); lia.
  - rewrite (open_count_alter (fun _ => c) i _ _ Hi), Hc, Ho. cbn. lia.
Qed.

Lemma mask_table_ok {D} (v : EpmdVars D) fds fd :
  table_ok v fds ->
  table_ok (set_mask (if select_fd_top v <=? fd then fd + 1 else select_fd_top v) ({[fd]} ∪ orig_read_mask v) v) fds.
Proof.
  intros [H1 H2 H3 H4 H5]. split; cbn [set_mask conn max_conn orig_read_mask select_fd_top listenfd active_conn];
    [done|done| | |done].
  - intros i c Hi Ho. destruct (H3 _ _ Hi Ho) as (A1 & A2 & A3 & A4 & A5). rewrite elem_of_union.
    split; [exact A1|]; split; [exact A2|]; split; [by right|]; split; [|exact A5]. destruct (Z.leb_spec (select_fd_top v) fd); lia.
  - intros f Hf. destruct (H4 f Hf) as (A1 & A2 & A3). rewrite elem_of_union. repeat split; [done|by right|].
    destruct (Z.leb_spec (select_fd_top v) fd); lia.
Qed.

(** ** The invariant of the server *)

(** Every registered node has a connection of its own that is open and kept. *)
Record live_ok (R : list enode) (l : list Connection) : Prop := {
  live_conn : forall n, In n R -> exists i c, l !! i = Some c /\ c_open c = true /\ c_keep c = true /\ c_fd c = fd n;
  live_nodup : NoDup (map fd R)
}.

(** What comes from the system is bytes, and there is memory for buffers of the
    size asked for. *)
Definition rres_ok (r : rres) : Prop := match r with RData bs => bytes_ok bs | RErr => True end.
Definition ares_ok (a : ares) : Prop :=
  match a with
  | AFd _ _ _ junk => exists m, junk = Some m /\ zlen m = INBUF_SIZE /\ bytes_ok m
  | AErr _ => True
  end.
Definition env_ok {D} (w : world D) : Prop := Forall rres_ok (reads w) /\ Forall ares_ok (accepts w).

Definition srv_ok {D} `{NodeDbSpec D} (w : world D) : Prop :=
  table_ok (vars w) (procfds w) /\ env_ok w /\
  exists R U, db_rep (nodes (vars w)) R U /\ db_ok R U /\ live_ok R (conn (vars w)).

Lemma live_ok_alter R l i c (f : Connection -> Connection) :
  live_ok R l -> l !! i = Some c -> c_fd (f c) = c_fd c ->
  (c_open c = true -> c_keep c = true -> (c_open (f c) = true /\ c_keep (f c) = true) \/ ~ In (c_fd c) (map fd R)) ->
  live_ok R (alter f i l).
Proof.
  intros [H1 H2] Hi Hfd Hf. split; [|done]. intros n Hn. destruct (H1 n Hn) as (j & d & Hj & Ho & Hk & E).
  destruct (decide (j = i)) as [->|Hne].
  - assert (d = c) as -> by congruence. destruct (Hf Ho Hk) as [[Ho' Hk']|Hni].
    + exists i, (f c). rewrite list_lookup_alter_eq, Hi. rewrite Hfd. done.
    + destruct Hni. rewrite E. by apply in_map.
  - exists j, d. by rewrite list_lookup_alter_ne.
Qed.

Lemma live_ok_sub R R' l :
  live_ok R l -> (forall n, In n R' -> In n R) -> NoDup (map fd R') -> live_ok R' l.
Proof. intros [H1 H2] Hsub Hnd. split; [|done]. auto. Qed.

(** Unregistering. *)
Lemma live_ok_unreg q R U l : live_ok R l -> live_ok (fst (snd (unreg_spec q R U))) l.
Proof.
  intros H. unfold unreg_spec. destruct (split_first q R) as [[[R1 n] R2]|] eqn:E; [|done]. cbn [fst snd].
  apply split_first_some in E as (-> & _ & _). eapply live_ok_sub; [exact H| |].
  - intros k. rewrite !in_app_iff. cbn. tauto.
  - pose proof (live_nodup _ _ H) as Hnd. rewrite map_app in Hnd |- *. cbn [map] in Hnd.
    rewrite <- Permutation_middle in Hnd. by apply list.NoDup_cons in Hnd as [_ Hnd].
Qed.

Lemma unreg_fd_gone f R U : NoDup (map fd R) -> ~ In f (map fd (fst (snd (unreg_spec (on_fd f) R U)))).
Proof.
  intros Hnd. unfold unreg_spec. destruct (split_first (on_fd f) R) as [[[R1 n] R2]|] eqn:E; cbn [fst snd].
  - apply split_first_some in E as (-> & Hq & _). unfold on_fd in Hq. apply Z.eqb_eq in Hq as <-.
    rewrite map_app in Hnd |- *. cbn [map] in Hnd. rewrite <- Permutation_middle in Hnd.
    apply list.NoDup_cons in Hnd as [Hnd _]. by rewrite <- list_elem_of_In.
  - apply split_first_none in E. intros Hin. apply in_map_iff in Hin as (n & <- & Hin).
    rewrite List.Forall_forall in E. specialize (E n Hin). unfold on_fd in E. lia.
Qed.
