(* ===== verification/EpmdReq.v ===== *)
(** * Requests to epmd: [reply] and [do_request] of [epmd_srv.c]

    The handler of each request, the invariant of the server through all of
    them, and what a request does to the registry and answers. *)
From stdpp Require Import gmap.
From S2P Require Import Prelude PutGet EpmdStr EpmdNode EpmdConn.
From Stdlib Require Import Ascii.
From Stdlib Require String.
Import String.StringSyntax.
Delimit Scope string_scope with string.

Definition EPMD_ALIVE2_REQ : Z := 120.
Definition EPMD_ALIVE2_RESP : Z := 121.
Definition EPMD_ALIVE2_X_RESP : Z := 118.
Definition EPMD_PORT2_REQ : Z := 122.
Definition EPMD_PORT2_RESP : Z := 119.
Definition EPMD_NAMES_REQ : Z := 110.
Definition EPMD_DUMP_REQ : Z := 100.
Definition EPMD_KILL_REQ : Z := 107.
Definition EPMD_STOP_REQ : Z := 115.

(** ** [reply] *)

(** The loop, with the results of its calls of [write]; a call writes at most
    what it was given.  The result: the value returned, the results not used,
    the bytes that went out. *)
Fixpoint reply_loop (ws : list wres) (p : list Z) : option (bool * list wres * list Z) :=
  match ws with
  | [] => None
  | WVal val :: ws =>
      if val =? zlen p then Some (true, ws, p)
      else if (0 <=? val) && (val <? zlen p) then
        match reply_loop ws (drop (Z.to_nat val) p) with
        | Some (ret, ws, sent) => Some (ret, ws, take (Z.to_nat val) p ++ sent)
        | None => None
        end
      else None
  | WEintr :: ws => reply_loop ws p
  | WErr :: ws => Some (false, ws, [])
  end.

Definition reply {D} (fd : Z) (buf : list Z) : M D bool := fun w =>
  match reply_loop (writes w) buf with
  | None => Blocked
  | Some (r, ws, sent) =>
      Ret r (mkWorld (vars w) ws (reads w) (accepts w) (clock w) (memory w) (procfds w) (EvWrite fd sent :: out w))
  end.

(** ** Writing into [wbuf], whose first bytes are [b] *)

Definition w_bytes {D} (b s : list Z) : M D (list Z) :=
  if zlen b + zlen s <=? OUTBUF_SIZE then ret (b ++ s) else crash.

(** [copy_str] also stores the NUL. *)
Definition w_copy_str {D} (b s : list Z) : M D (list Z) :=
  if zlen b + zlen s + 1 <=? OUTBUF_SIZE then ret (b ++ s) else crash.

(** [erts_snprintf] of a text that must fit what is left. *)
Definition w_snprintf {D} (b s : list Z) : M D (list Z) :=
  if zlen s <? OUTBUF_SIZE - zlen b then ret (b ++ s) else crash.

(** ** The handlers

    The request starts at [m[p]], [bsize] bytes of the buffer of connection
    [i]. *)
Section Handlers.

Context {D : Type} `{NodeDb D}.

Definition node_list : M D (list enode) := w <- get ;; lift (db_reg_list (nodes (vars w))).
Definition old_list : M D (list enode) := w <- get ;; lift (db_unreg_list (nodes (vars w))).

Definition set_buf (m : mem) (s : Connection) : Connection :=
  mkConn (c_fd s) (c_open s) (c_keep s) (c_local_peer s) (c_got s) (c_want s) (BufLive m) (c_mod_time s).
Definition set_keep (s : Connection) : Connection :=
  mkConn (c_fd s) (c_open s) true (c_local_peer s) (c_got s) (c_want s) (c_buf s) (c_mod_time s).

(** [node_reg2] with its call of [select_fd_set], and [node_unreg]. *)
Definition reg2 (a : reg_args) : M D (option enode) :=
  w <- get ;;
  r <- lift (db_reg2 {| e_debug := g_debug (vars w); e_alloc := memory w; e_now := clock w |} (nodes (vars w)) a) ;;
  match r with
  | DbNull => ret None
  | DbNode n d => modify (set_nodes d) ;; select_fd_set (a_fd a) ;; ret (Some n)
  | DbExit => exit 1
  end.

Definition unreg_name (name : mem) : M D Z :=
  w <- get ;;
  r <- lift (db_unreg (nodes (vars w)) name) ;;
  modify (set_nodes (snd r)) ;; ret (fst r).

Definition unreg_socket (f : Z) : M D Z :=
  w <- get ;;
  r <- lift (db_unreg_sock (nodes (vars w)) f) ;;
  modify (set_nodes (snd r)) ;; ret (fst r).

Definition alive2_resp (node : option enode) (hv : Z) : list Z :=
  let creation := match node with Some n => get_creation n | None => 99 end in
  let res := match node with Some _ => 0 | None => 1 end in
  if 6 <=? hv then [EPMD_ALIVE2_X_RESP; res] ++ put_int32 creation
  else [EPMD_ALIVE2_RESP; res] ++ put_int16 creation.

Definition do_alive2 (i : nat) (f : Z) (m : mem) (p bsize : Z) : M D unit :=
  s <- the_conn i ;;
  if negb (c_local_peer s) then ret tt
  else if bsize <=? 13 then ret tt
  else
    eport <- lift (get_int16 m (p + 1)) ;;
    ntype <- lift (mem_get m (p + 3)) ;;
    proto <- lift (mem_get m (p + 4)) ;;
    hv <- lift (get_int16 m (p + 5)) ;;
    lv <- lift (get_int16 m (p + 7)) ;;
    namelen <- lift (get_int16 m (p + 9)) ;;
    if bsize <? namelen + 13 then ret tt
    else
      extlen <- lift (get_int16 m (p + 11 + namelen)) ;;
      if bsize <? extlen + namelen + 13 then ret tt
      else
        nm <- lift (slice m (p + 11) namelen) ;;
        if existsb (Z.eqb 0) nm then ret tt
        else
          m1 <- lift (store m (p + 11 + namelen) [0]) ;;
          m2 <- lift (store m1 (p + 11 + namelen + 2 + extlen) [0]) ;;
          upd_conn i (set_buf m2) ;;
          let name := drop (Z.to_nat (p + 11)) m2 in
          node <- reg2 {| a_namelen := namelen; a_name := name; a_fd := f; a_port := eport; a_nodetype := ntype;
                          a_protocol := proto; a_highvsn := hv; a_lowvsn := lv; a_extralen := extlen;
                          a_extra := drop (Z.to_nat (p + 11 + namelen + 2)) m2 |} ;;
          ok <- reply f (alive2_resp node hv) ;;
          if ok then upd_conn i set_keep else unreg_name name ;; ret tt.

(** The answer for a node that is there. *)
Definition port2_resp (n : enode) : M D (list Z) :=
  len <- lift (length_str (symname n ++ [0])) ;;
  b <- w_bytes [] ([EPMD_PORT2_RESP; 0] ++ put_int16 (port n) ++ [nodetype n; protocol n] ++
         put_int16 (highvsn n) ++ put_int16 (lowvsn n) ++ put_int16 len) ;;
  b <- w_copy_str b (symname n) ;;
  b <- w_bytes b (put_int16 (extralen n)) ;;
  ex <- lift (slice (extra n) 0 (extralen n)) ;;
  w_bytes b ex.

Fixpoint port2_loop (f : Z) (name : mem) (l : list enode) : M D unit :=
  match l with
  | [] => reply f [EPMD_PORT2_RESP; 1] ;; ret tt
  | n :: l =>
      same <- lift (has_name name n) ;;
      if same : bool then b <- port2_resp n ;; reply f b ;; ret tt
      else port2_loop f name l
  end.

Definition do_port2 (f : Z) (m : mem) (p bsize : Z) : M D unit :=
  last <- lift (mem_get m (p + bsize - 1)) ;;
  let bsize := if last =? 0 then bsize - 1 else bsize in
  if bsize <=? 1 then ret tt
  else
    nm <- lift (slice m (p + 1) (bsize - 1)) ;;
    if existsb (Z.eqb 0) nm then ret tt
    else
      src <- lift (slice m (p + 1) bsize) ;;
      let nsz := verify_utf8 src false in
      if (nsz <? 1) || (255 <? nsz) then ret tt
      else
        l <- node_list ;;
        port2_loop f (drop (Z.to_nat (p + 1)) m) l.

Definition names_line (n : enode) : M D (list Z) :=
  b <- w_copy_str [] (str "name "%string) ;;
  b <- w_copy_str b (symname n) ;;
  w_snprintf b (str " at port "%string ++ dec (port n) ++ [10]).

(** One [reply] for each node, up to the first that fails. *)
Fixpoint send_lines (f : Z) (line : enode -> M D (list Z)) (l : list enode) : M D bool :=
  match l with
  | [] => ret true
  | n :: l =>
      b <- line n ;;
      ok <- reply f b ;;
      if ok : bool then send_lines f line l else ret false
  end.

Definition do_names (f : Z) : M D unit :=
  w <- get ;;
  ok <- reply f (put_int32 (g_port (vars w))) ;;
  if ok : bool then l <- node_list ;; send_lines f names_line l ;; ret tt else ret tt.

(** The NUL is sent too ([len += r + 1]). *)
Definition dump_active (n : enode) : M D (list Z) :=
  b <- w_copy_str [] (str "active name     <"%string) ;;
  b <- w_copy_str b (symname n) ;;
  b <- w_snprintf b (str "> at port "%string ++ dec (port n) ++ str ", fd = "%string ++ dec (fd n) ++ [10]) ;;
  ret (b ++ [0]).
Definition dump_old (n : enode) : M D (list Z) :=
  b <- w_copy_str [] (str "old/unused name <"%string) ;;
  b <- w_copy_str b (symname n) ;;
  b <- w_snprintf b (str ">, port = "%string ++ dec (port n) ++ str ", fd = "%string ++ dec (fd n) ++ str " "%string ++ [10]) ;;
  ret (b ++ [0]).

Definition do_dump (i : nat) (f : Z) : M D unit :=
  s <- the_conn i ;;
  if negb (c_local_peer s) then ret tt
  else
    w <- get ;;
    ok <- reply f (put_int32 (g_port (vars w))) ;;
    if negb ok then ret tt
    else
      l <- node_list ;;
      ok <- send_lines f dump_active l ;;
      if negb ok then ret tt
      else l <- old_list ;; send_lines f dump_old l ;; ret tt.

Definition do_kill (i : nat) (f : Z) : M D unit :=
  s <- the_conn i ;;
  if negb (c_local_peer s) then ret tt
  else
    w <- get ;;
    l <- node_list ;;
    if negb (brutal_kill (vars w)) && (match l with [] => false | _ => true end) then reply f (str "NO"%string) ;; ret tt
    else reply f (str "OK"%string) ;; conn_close_fd f ;; exit 0.

Definition do_stop (i : nat) (f : Z) (m : mem) (p bsize : Z) : M D unit :=
  s <- the_conn i ;;
  if negb (c_local_peer s) then ret tt
  else
    w <- get ;;
    if negb (brutal_kill (vars w)) then ret tt
    else if bsize <=? 1 then ret tt
    else
      node_fd <- unreg_name (drop (Z.to_nat (p + 1)) m) ;;
      ok <- (if node_fd <? 0 then reply f (str "NOEXIST"%string) else conn_close_fd node_fd ;; ret true) ;;
      if ok : bool then reply f (str "STOPPED"%string) ;; ret tt else ret tt.

Definition do_request (i : nat) (f : Z) (p bsize : Z) : M D unit :=
  s <- the_conn i ;;
  match c_buf s with
  | BufLive m0 =>
      m <- lift (store m0 (p + bsize) [0]) ;;
      upd_conn i (set_buf m) ;;
      c <- lift (mem_get m p) ;;
      if c =? EPMD_ALIVE2_REQ then do_alive2 i f m p bsize
      else if c =? EPMD_PORT2_REQ then do_port2 f m p bsize
      else if c =? EPMD_NAMES_REQ then do_names f
      else if c =? EPMD_DUMP_REQ then do_dump i f
      else if c =? EPMD_KILL_REQ then do_kill i f
      else if c =? EPMD_STOP_REQ then do_stop i f m p bsize
      else ret tt
  | _ => crash
  end.

End Handlers.

(** ** What [reply] sends *)

Lemma reply_loop_spec ws p r ws' sent :
  reply_loop ws p = Some (r, ws', sent) -> if r then sent = p else exists rest, p = sent ++ rest.
Proof.
  revert p sent. induction ws as [|[val| |] ws IH]; intros p sent; cbn [reply_loop]; [done| | |].
  - destruct (val =? zlen p); [by intros [= <- <- <-]|]. destruct (_ && _); [|done].
    destruct (reply_loop ws _) as [[[r' ws''] s]|] eqn:E; [|done]. intros [= -> -> <-]. apply IH in E.
    destruct r.
    + rewrite E. apply take_drop.
    + destruct E as [rest E]. exists rest. by rewrite <- app_assoc, <- E, take_drop.
  - apply IH.
  - intros [= <- <- <-]. by exists p.
Qed.

(** The parts of the state that the invariant is about. *)
Definition same_state {D} (w w' : world D) : Prop :=
  vars w' = vars w /\ procfds w' = procfds w /\ memory w' = memory w /\ clock w' = clock w /\
  reads w' = reads w /\ accepts w' = accepts w.

Lemma wp_reply {D} f buf Q X (w : world D) :
  (forall (r : bool) sent w', same_state w w' -> out w' = EvWrite f sent :: out w ->
     (if r then sent = buf else exists rest, buf = sent ++ rest) -> Q r w') ->
  wp (reply f buf) Q X w.
Proof.
  intros HQ. unfold wp, reply. destruct (reply_loop (writes w) buf) as [[[r ws] sent]|] eqn:E; [|done].
  apply (HQ r sent); [repeat split|done|by eapply reply_loop_spec].
Qed.

(** ** The texts fit [wbuf] *)

(** What the registry guarantees of a node. *)
Definition node_ok (n : enode) : Prop :=
  (nul_free (symname n) /\ zlen (symname n) <= MAXSYMLEN) /\ (zlen (extra n) = extralen n /\ extralen n <= MAXSYMLEN).

Lemma db_ok_nodes R U : db_ok R U -> Forall node_ok R /\ Forall node_ok U.
Proof. intros [_ H2 H3 _]. rewrite <- Forall_app. by apply Forall_and. Qed.

Lemma w_bytes_ok {D} b s (Q : list Z -> world D -> Prop) X w :
  zlen b + zlen s <= OUTBUF_SIZE -> Q (b ++ s) w -> wp (w_bytes b s) Q X w.
Proof. intros Hl HQ. unfold w_bytes. by replace (_ <=? _) with true by lia. Qed.

Lemma w_copy_str_ok {D} b s (Q : list Z -> world D -> Prop) X w :
  zlen b + zlen s + 1 <= OUTBUF_SIZE -> Q (b ++ s) w -> wp (w_copy_str b s) Q X w.
Proof. intros Hl HQ. unfold w_copy_str. by replace (_ <=? _) with true by lia. Qed.

Lemma w_snprintf_ok {D} b s (Q : list Z -> world D -> Prop) X w :
  zlen b + zlen s < OUTBUF_SIZE -> Q (b ++ s) w -> wp (w_snprintf b s) Q X w.
Proof. intros Hl HQ. unfold w_snprintf. by replace (_ <? _) with true by lia. Qed.

Create HintDb epmd_wp.
#[export] Hint Resolve w_bytes_ok w_copy_str_ok w_snprintf_ok : epmd_wp.

Lemma zlen_put_int16 n : zlen (put_int16 n) = 2.
Proof. done. Qed.
Lemma zlen_put_int32 n : zlen (put_int32 n) = 4.
Proof. done. Qed.
#[export] Hint Rewrite zlen_put_int16 zlen_put_int32 : zlen.

(** Bounds of a text made of literals, a name and numbers. *)
Ltac text_len :=
  unfold OUTBUF_SIZE, MAXSYMLEN in *;
  repeat match goal with |- context [dec ?n] => lazymatch goal with
    | _ : zlen (dec n) <= 11 |- _ => fail | _ => pose proof (dec_len n) end end;
  autorewrite with zlen;
  repeat match goal with |- context [zlen (str ?s)] => let x := eval vm_compute in (zlen (str s)) in
    change (zlen (str s)) with x end; lia.

Definition port2_answer (n : enode) : list Z :=
  [EPMD_PORT2_RESP; 0] ++ put_int16 (port n) ++ [nodetype n; protocol n] ++ put_int16 (highvsn n) ++
  put_int16 (lowvsn n) ++ put_int16 (zlen (symname n)) ++ symname n ++ put_int16 (extralen n) ++ extra n.

Lemma port2_resp_ok {D} n Q X (w : world D) : node_ok n -> Q (port2_answer n) w -> wp (port2_resp n) Q X w.
Proof.
  intros [[Hnul Hl] [Hx Hxl]] HQ. unfold port2_resp. apply wp_bind.
  eapply wp_lift; [by rewrite (length_str_spec (symname n) [])|]. apply wp_bind, w_bytes_ok; [text_len|].
  apply wp_bind, w_copy_str_ok; [text_len|]. apply wp_bind, w_bytes_ok; [text_len|]. apply wp_bind.
  eapply wp_lift; [rewrite <- (app_nil_r (extra n)); by apply slice_start|].
  apply w_bytes_ok; [text_len|]. revert HQ. unfold port2_answer. by rewrite <- !app_assoc.
Qed.

Definition names_text (n : enode) : list Z := str "name "%string ++ symname n ++ str " at port "%string ++ dec (port n) ++ [10].

Lemma names_line_ok {D} n Q X (w : world D) : node_ok n -> Q (names_text n) w -> wp (names_line n) Q X w.
Proof.
  intros [[_ Hl] _] HQ. unfold names_line. apply wp_bind, w_copy_str_ok; [text_len|].
  apply wp_bind, w_copy_str_ok; [text_len|]. apply w_snprintf_ok; [text_len|].
  revert HQ. unfold names_text. by rewrite <- !app_assoc.
Qed.

Lemma dump_lines_ok {D} n (Q : list Z -> world D -> Prop) X w :
  node_ok n -> (forall b, Q b w) -> wp (dump_active n) Q X w /\ wp (dump_old n) Q X w.
Proof.
  intros [[_ Hl] _] HQ. unfold dump_active, dump_old. split;
    (apply wp_bind, w_copy_str_ok; [text_len|]; apply wp_bind, w_copy_str_ok; [text_len|];
     apply wp_bind, w_snprintf_ok; [text_len|]; apply HQ).
Qed.

(** ** The memory of a request *)

Lemma mem_get_byte m s : 0 <= s < zlen m -> bytes_ok m -> exists b, mem_get m s = Some b /\ byte_ok b.
Proof.
  intros Hs Hok. unfold mem_get. replace (s <? 0) with false by lia.
  destruct (m !! Z.to_nat s) as [b|] eqn:E.
  - exists b. split; [done|]. by eapply Forall_lookup_1.
  - apply lookup_ge_None in E. unfold zlen in Hs. lia.
Qed.

Lemma get_int16_in m s : 0 <= s -> s + 1 < zlen m -> bytes_ok m -> exists v, get_int16 m s = Some v /\ 0 <= v < 65536.
Proof.
  intros Hs Hl Hok. unfold get_int16.
  destruct (mem_get_byte m s) as (b0 & -> & H0); [lia|done|]. destruct (mem_get_byte m (s + 1)) as (b1 & -> & H1); [lia|done|].
  eexists. split; [done|]. unfold byte_ok in *. rewrite lor_shiftl_add by lia. lia.
Qed.

Lemma store_bytes_ok m s bs m' : store m s bs = Some m' -> bytes_ok m -> bytes_ok bs -> bytes_ok m'.
Proof.
  unfold store. destruct (_ && _); [|done]. intros [= <-] Hm Hb.
  repeat (apply Forall_app; split); auto using Forall_take, Forall_drop.
Qed.

Lemma slice_in m s n : 0 <= s -> 0 <= n -> s + n <= zlen m -> exists l, slice m s n = Some l /\ zlen l = n.
Proof.
  intros H1 H2 H3. destruct (slice m s n) as [l|] eqn:E.
  - exists l. split; [done|]. by destruct (slice_some _ _ _ _ E).
  - unfold slice in E. replace (_ && _) with true in E by lia. done.
Qed.

Lemma split_at (l : list Z) n : 0 <= n <= zlen l -> exists a b, l = a ++ b /\ zlen a = n.
Proof.
  intros H. exists (take (Z.to_nat n) l), (drop (Z.to_nat n) l). rewrite take_drop. split; [done|].
  unfold zlen in *. rewrite length_take. lia.
Qed.

Lemma store_one pre x post b s : s = zlen pre -> store (pre ++ x :: post) s [b] = Some (pre ++ b :: post).
Proof.
  intros ->. unfold store. replace (_ && _) with true by zlen_lia. unfold zlen. rewrite Nat2Z.id, take_app_length.
  cbn [length]. by rewrite <- drop_drop, drop_app_length.
Qed.

Lemma drop_zlen (pre l : list Z) n : n = zlen pre -> drop (Z.to_nat n) (pre ++ l) = l.
Proof. intros ->. unfold zlen. by rewrite Nat2Z.id, drop_app_length. Qed.

Lemma no_nul l : existsb (Z.eqb 0) l = false -> nul_free l.
Proof.
  intros H. induction l as [|b l IH]; [constructor|]. cbn [existsb] in H. apply orb_false_iff in H as [H1 H2].
  constructor; [lia|]. by apply IH.
Qed.

(** The two stores of the ALIVE2 request turn the name and the extra data into
    C strings. *)
Lemma alive2_stores m q nm extlen :
  0 <= extlen -> slice m q (zlen nm) = Some nm -> q + zlen nm + 2 + extlen < zlen m -> bytes_ok m ->
  exists m1 m2 ex r r',
    store m (q + zlen nm) [0] = Some m1 /\ store m1 (q + zlen nm + 2 + extlen) [0] = Some m2 /\
    zlen m2 = zlen m /\ bytes_ok m2 /\ zlen ex = extlen /\
    drop (Z.to_nat q) m2 = nm ++ 0 :: r /\ drop (Z.to_nat (q + zlen nm + 2)) m2 = ex ++ r' /\
    slice m (q + zlen nm + 2) extlen = Some ex.
Proof.
  intros Hx Hs Hl Hok. destruct (slice_some _ _ _ _ Hs) as (_ & (pre & post & -> & <-) & _).
  destruct post as [|x0 [|x1 post]]; [exfalso; zlen_lia..|].
  destruct (split_at post extlen) as (ex & tl & -> & <-); [zlen_lia|]. destruct tl as [|y tl]; [exfalso; zlen_lia|].
  exists (pre ++ nm ++ 0 :: x1 :: ex ++ y :: tl), (pre ++ nm ++ 0 :: x1 :: ex ++ 0 :: tl), ex, (x1 :: ex ++ 0 :: tl), (0 :: tl).
  assert (byte_ok 0) as H0 by (unfold byte_ok; lia).
  rewrite !(app_assoc pre nm). split; [apply store_one; zlen_lia|].
  split. { assert (forall y, (pre ++ nm) ++ 0 :: x1 :: ex ++ y :: tl = ((pre ++ nm) ++ 0 :: x1 :: ex) ++ y :: tl) as E
      by (intros b; exact (app_assoc (pre ++ nm) (0 :: x1 :: ex) (b :: tl))). rewrite !E. apply store_one. zlen_lia. }
  split; [zlen_lia|]. split.
  { rewrite !Forall_app, !Forall_cons_iff, !Forall_app, !Forall_cons_iff in *. tauto. }
  split; [done|]. split; [rewrite <- (app_assoc pre nm); by apply drop_zlen|].
  assert (forall (a b : Z) l, (pre ++ nm) ++ a :: b :: l = ((pre ++ nm) ++ [a; b]) ++ l) as E
    by (intros a b l; exact (app_assoc (pre ++ nm) [a; b] l)).
  split; rewrite E; [apply drop_zlen; zlen_lia|].
  apply holds_slice; [|done]. exists ((pre ++ nm) ++ [x0; x1]), (y :: tl). split; [done|zlen_lia].
Qed.

(** ** The invariant through a request *)

Section Invariant.

Context {D : Type} `{NodeDbSpec D}.

(** Connection [i], with descriptor [f], is being served. *)
Definition serving (i : nat) (f : Z) (w : world D) : Prop :=
  srv_ok w /\ exists c, conn (vars w) !! i = Some c /\ c_open c = true /\ c_fd c = f.

(** It is not (yet) the connection of a node. *)
Definition serving_new (i : nat) (f : Z) (w : world D) : Prop :=
  srv_ok w /\ exists c, conn (vars w) !! i = Some c /\ c_open c = true /\ c_fd c = f /\ c_keep c = false.

Lemma serving_new_serving i f w : serving_new i f w -> serving i f w.
Proof. intros [Hs (c & H1 & H2 & H3 & _)]. split; eauto. Qed.

Lemma srv_ok_same w w' : same_state w w' -> srv_ok w -> srv_ok w'.
Proof.
  intros (E1 & E2 & _ & _ & E3 & E4) (Ht & [He1 He2] & R & U & Hr). unfold srv_ok, env_ok.
  rewrite E1, E2, E3, E4. eauto 6.
Qed.

Lemma serving_same i f w w' : same_state w w' -> serving i f w -> serving i f w'.
Proof.
  intros Hs [Hok Hc]. split; [by eapply srv_ok_same|]. by rewrite (proj1 Hs).
Qed.

Lemma serving_new_same i f w w' : same_state w w' -> serving_new i f w -> serving_new i f w'.
Proof.
  intros Hs [Hok Hc]. split; [by eapply srv_ok_same|]. by rewrite (proj1 Hs).
Qed.

(** A connection that is not kept belongs to no node. *)
Lemma not_live (v : EpmdVars D) fds R i c :
  table_ok v fds -> live_ok R (conn v) -> conn v !! i = Some c -> c_open c = true -> c_keep c = false ->
  ~ In (c_fd c) (map fd R).
Proof.
  intros Ht Hl Hi Ho Hk Hin. apply in_map_iff in Hin as (n & E & Hin).
  destruct (live_conn _ _ Hl n Hin) as (j & d & Hj & Ho' & Hk' & E').
  assert (j = i) as -> by (eapply (table_fd_inj v fds j i); eauto; congruence). congruence.
Qed.

(** Changing an open slot without closing it. *)
Lemma srv_ok_alter w i c (g : Connection -> Connection) :
  srv_ok w -> conn (vars w) !! i = Some c -> c_open c = true ->
  c_fd (g c) = c_fd c -> c_open (g c) = true -> (c_keep c = true -> c_keep (g c) = true) -> conn_ok (g c) ->
  srv_ok (set_vars (set_conn (alter g i (conn (vars w))) (vars w)) w).
Proof.
  intros (Ht & He & R & U & Hr & Hok & Hl) Hi Ho Hfd Ho' Hk Hc. split; [by eapply table_ok_alter|]. split; [done|].
  exists R, U. split; [done|]. split; [done|]. eapply live_ok_alter; [done|exact Hi|done|]. intros _ Hk'. left. auto.
Qed.

Lemma set_buf_ok m c : conn_ok c -> zlen m = INBUF_SIZE -> bytes_ok m -> conn_ok (set_buf m c).
Proof. intros (_ & H1 & H2) Hl Hb. split; [by exists m|]. done. Qed.

Lemma upd_buf_wp i f m Q X w :
  serving_new i f w -> zlen m = INBUF_SIZE -> bytes_ok m ->
  (forall w', serving_new i f w' -> (forall c, conn (vars w) !! i = Some c -> conn (vars w') !! i = Some (set_buf m c)) ->
     nodes (vars w') = nodes (vars w) -> out w' = out w -> writes w' = writes w -> memory w' = memory w -> clock w' = clock w ->
     g_debug (vars w') = g_debug (vars w) -> Q tt w') ->
  wp (upd_conn i (set_buf m)) Q X w.
Proof.
  intros [Hs (c & Hi & Ho & Hfd & Hk)] Hl Hb HQ. apply HQ; try done.
  - split.
    + eapply srv_ok_alter; eauto; try done. apply set_buf_ok; [|done..].
      destruct Hs as (Ht & _). by destruct (t_open _ _ Ht _ _ Hi Ho).
    + exists (set_buf m c). cbn [vars set_vars set_conn conn]. by rewrite list_lookup_alter_eq, Hi.
  - intros c' Hi'. cbn [vars set_vars set_conn conn]. by rewrite list_lookup_alter_eq, Hi'.
Qed.

(** *** The registry operations *)

Lemma node_list_wp Q X w :
  srv_ok w -> (forall R U, db_rep (nodes (vars w)) R U -> db_ok R U -> live_ok R (conn (vars w)) -> Q R w) ->
  wp node_list Q X w.
Proof.
  intros (_ & _ & R & U & Hr & Hok & Hl) HQ. apply wp_bind, wp_get.
  eapply wp_lift; [by eapply db_reg_list_ok|]. eauto.
Qed.

Lemma old_list_wp Q X w :
  srv_ok w -> (forall R U, db_rep (nodes (vars w)) R U -> db_ok R U -> Q U w) -> wp old_list Q X w.
Proof.
  intros (_ & _ & R & U & Hr & Hok & Hl) HQ. apply wp_bind, wp_get.
  eapply wp_lift; [by eapply db_unreg_list_ok|]. eauto.
Qed.

Lemma unreg_name_wp nm r R U Q X w :
  db_rep (nodes (vars w)) R U -> db_ok R U -> nul_free nm ->
  (forall d, db_rep d (fst (snd (unreg_spec (named nm) R U))) (snd (snd (unreg_spec (named nm) R U))) ->
     Q (fst (unreg_spec (named nm) R U)) (set_vars (set_nodes d (vars w)) w)) ->
  wp (unreg_name (nm ++ 0 :: r)) Q X w.
Proof.
  intros Hr Hok Hn HQ. destruct (db_unreg_ok _ R U nm r Hr Hok Hn) as (d & E & Hr').
  apply wp_bind, wp_get, wp_bind. eapply wp_lift; [exact E|]. cbn [fst snd]. apply wp_bind, wp_modify, wp_ret. auto.
Qed.

Lemma unreg_socket_wp f R U Q X w :
  db_rep (nodes (vars w)) R U ->
  (forall d, db_rep d (fst (snd (unreg_spec (on_fd f) R U))) (snd (snd (unreg_spec (on_fd f) R U))) ->
     Q (fst (unreg_spec (on_fd f) R U)) (set_vars (set_nodes d (vars w)) w)) ->
  wp (unreg_socket f) Q X w.
Proof.
  intros Hr HQ. destruct (db_unreg_sock_ok _ R U f Hr) as (d & E & Hr').
  apply wp_bind, wp_get, wp_bind. eapply wp_lift; [exact E|]. cbn [fst snd]. apply wp_bind, wp_modify, wp_ret. auto.
Qed.

Definition the_env (w : world D) : reg_env := {| e_debug := g_debug (vars w); e_alloc := memory w; e_now := clock w |}.
Definition regd_vars (f : Z) (d : D) (v : EpmdVars D) : EpmdVars D :=
  set_mask (if select_fd_top v <=? f then f + 1 else select_fd_top v) ({[f]} ∪ orig_read_mask v) (set_nodes d v).

Lemma reg2_wp nm ex a R U Q X w :
  db_rep (nodes (vars w)) R U -> db_ok R U -> args_ok nm ex a ->
  match reg_spec (the_env w) R U nm ex a with
  | DbNull => Q None w
  | DbExit => X 1 w
  | DbNode n (R', U') => forall d, db_rep d R' U' -> Q (Some n) (set_vars (regd_vars (a_fd a) d (vars w)) w)
  end -> wp (reg2 a) Q X w.
Proof.
  intros Hr Hok Ha HQ. pose proof (db_reg2_ok (the_env w) _ R U nm ex a Hr Hok Ha) as Hreg.
  apply wp_bind, wp_get, wp_bind. fold (the_env w).
  destruct (reg_spec _ _ _ _ _ _) as [|n [R' U']|]; [| |].
  - eapply wp_lift; [exact Hreg|]. exact HQ.
  - destruct Hreg as (d & E & Hr'). eapply wp_lift; [exact E|]. apply wp_bind, wp_modify, wp_bind, wp_modify, wp_ret.
    exact (HQ d Hr').
  - eapply wp_lift; [exact Hreg|]. exact HQ.
Qed.

Lemma nodes_table_ok d (v : EpmdVars D) fds : table_ok v fds -> table_ok (set_nodes d v) fds.
Proof. intros [H1 H2 H3 H4 H5]. by split. Qed.

Lemma regd_table_ok f d (v : EpmdVars D) fds : table_ok v fds -> table_ok (regd_vars f d v) fds.
Proof. intros Ht. exact (mask_table_ok (set_nodes d v) fds f (nodes_table_ok d v fds Ht)). Qed.

(** *** ALIVE2 *)

(** After a registration the node's connection becomes a kept one. *)
Lemma keep_serving i f w n R U :
  table_ok (vars w) (procfds w) -> env_ok w -> db_rep (nodes (vars w)) (n :: R) U -> db_ok (n :: R) U ->
  live_ok R (conn (vars w)) -> fd n = f ->
  (exists c, conn (vars w) !! i = Some c /\ c_open c = true /\ c_fd c = f /\ c_keep c = false) ->
  serving i f (set_vars (set_conn (alter set_keep i (conn (vars w))) (vars w)) w).
Proof.
  intros Ht He Hr Hok Hl Hn (c & Hi & Ho & Hfd & Hk). split.
  - split; [|split; [done|]].
    + eapply table_ok_alter; [exact Ht|exact Hi|done|done|exact Ho|].
      destruct (t_open _ _ Ht _ _ Hi Ho) as (Hc & _). exact Hc.
    + exists (n :: R), U. split; [done|]. split; [done|]. split.
      * intros k [<-|Hin].
        -- exists i, (set_keep c). cbn [vars set_vars set_conn conn]. rewrite list_lookup_alter_eq, Hi. cbn. by rewrite Hn.
        -- eapply live_conn; [|exact Hin]. eapply live_ok_alter; [done|exact Hi|done|]. intros _ Hk'. congruence.
      * cbn [map]. constructor; [|exact (live_nodup _ _ Hl)]. rewrite list_elem_of_In, Hn, <- Hfd.
        by eapply not_live.
  - exists (set_keep c). cbn [vars set_vars set_conn conn]. by rewrite list_lookup_alter_eq, Hi.
Qed.

Lemma set_keep_serving i f w :
  serving_new i f w -> serving i f (set_vars (set_conn (alter set_keep i (conn (vars w))) (vars w)) w).
Proof.
  intros [Hs (c & Hi & Ho & Hfd & Hk)]. split.
  - eapply srv_ok_alter; try done. destruct Hs as (Ht & _). by destruct (t_open _ _ Ht _ _ Hi Ho).
  - exists (set_keep c). cbn [vars set_vars set_conn conn]. by rewrite list_lookup_alter_eq, Hi.
Qed.

Lemma unreg_serving i f w q d R U :
  table_ok (vars w) (procfds w) -> env_ok w -> live_ok R (conn (vars w)) ->
  (exists c, conn (vars w) !! i = Some c /\ c_open c = true /\ c_fd c = f) -> db_ok R U ->
  db_rep d (fst (snd (unreg_spec q R U))) (snd (snd (unreg_spec q R U))) ->
  serving i f (set_vars (set_nodes d (vars w)) w).
Proof.
  intros Ht He Hl Hc Hok Hr. split; [|exact Hc]. split; [|split; [exact He|]].
  - by apply nodes_table_ok.
  - do 2 eexists. split; [exact Hr|]. split; [by apply unreg_spec_ok|]. by apply live_ok_unreg.
Qed.

Lemma alive2_tail_wp i f hv nm r ex a Q w :
  serving_new i f w -> args_ok nm ex a -> a_fd a = f -> a_name a = nm ++ 0 :: r ->
  (forall w', serving i f w' -> Q tt w') ->
  wp (node <- reg2 a ;; ok <- reply f (alive2_resp node hv) ;;
      if ok : bool then upd_conn i set_keep else unreg_name (nm ++ 0 :: r) ;; ret tt) Q (fun _ _ => True) w.
Proof.
  intros Hsv Ha Hf Hname HQ. pose proof Hsv as ((Ht & He & R & U & Hr & Hok & Hl) & Hc).
  pose proof (proj1 Ha) as Hnm.
  apply wp_bind. eapply reg2_wp; [exact Hr|exact Hok|exact Ha|].
  destruct (reg_spec _ _ _ _ _ _) as [|n [R' U']|] eqn:E; [| |done].
  - apply wp_bind, wp_reply. intros [|] sent w1 Hs1 _ _.
    + apply wp_modify, HQ, set_keep_serving. by eapply serving_new_same.
    + destruct Hs1 as (E1 & E2 & _ & _ & E3 & E4). apply wp_bind.
      eapply unreg_name_wp; [by rewrite E1|exact Hok|exact Hnm|]. intros d Hd. apply wp_ret, HQ.
      eapply unreg_serving; rewrite ?E1, ?E2; [exact Ht|by unfold env_ok; rewrite E3, E4|exact Hl| |exact Hok|exact Hd].
      destruct Hc as (c & ? & ? & ? & _). eauto.
  - destruct (reg_spec_ok _ _ _ _ _ _ _ _ _ Hok Hnm E) as (Hok' & Hsym & -> & Hfd & _).
    intros d Hd. apply wp_bind, wp_reply. intros [|] sent w1 (E1 & E2 & _ & _ & E3 & E4) _ _.
    + apply wp_modify, HQ. eapply (keep_serving i f w1 n R U'); rewrite ?E1, ?E2; cbn [vars set_vars regd_vars set_mask nodes conn].
      * by apply regd_table_ok.
      * unfold env_ok. by rewrite E3, E4.
      * exact Hd.
      * exact Hok'.
      * exact Hl.
      * by rewrite Hfd.
      * exact Hc.
    + apply wp_bind. eapply (unreg_name_wp nm r (n :: R) U'); [by rewrite E1|exact Hok'|exact Hnm|].
      assert (unreg_spec (named nm) (n :: R) U' = (fd n, (R, U' ++ [n]))) as Eu.
      { rewrite <- Hsym. by apply (unreg_spec_at []). }
      pose proof (unreg_spec_ok (named nm) _ _ Hok') as Hok2. rewrite Eu in Hok2 |- *. cbn [fst snd] in *.
      intros d2 Hd2. apply wp_ret, HQ. split.
      * split; [|split; [by unfold env_ok; cbn; rewrite E3, E4|]].
        -- cbn [vars set_vars procfds]. rewrite E1, E2. by apply nodes_table_ok, regd_table_ok.
        -- cbn [vars set_vars set_nodes nodes conn]. rewrite E1. eauto.
      * cbn [vars set_vars set_nodes conn]. rewrite E1. destruct Hc as (c & ? & ? & ? & _). eauto.
Qed.

Lemma do_alive2_wp i f m bsize Q w :
  serving_new i f w -> zlen m = INBUF_SIZE -> bytes_ok m -> 2 + bsize < INBUF_SIZE ->
  (forall w', serving i f w' -> Q tt w') ->
  wp (do_alive2 i f m 2 bsize) Q (fun _ _ => True) w.
Proof.
  intros Hsv Hl Hb Hsz HQ. pose proof (serving_new_serving _ _ _ Hsv) as Hsv'.
  pose proof Hsv as (_ & c & Hi & _ & Hfd & _).
  unfold do_alive2. apply wp_bind, wp_bind, wp_get. eapply wp_lift; [exact Hi|].
  destruct (negb (c_local_peer c)); [by apply wp_ret, HQ|].
  destruct (Z.leb_spec bsize 13) as [|H13]; [by apply wp_ret, HQ|].
  destruct (get_int16_in m (2 + 1)) as (eport & E1 & _); [lia..|done|].
  destruct (mem_get_byte m (2 + 3)) as (ntype & E2 & _); [lia|done|].
  destruct (mem_get_byte m (2 + 4)) as (proto & E3 & _); [lia|done|].
  destruct (get_int16_in m (2 + 5)) as (hv & E4 & _); [lia..|done|].
  destruct (get_int16_in m (2 + 7)) as (lv & E5 & _); [lia..|done|].
  destruct (get_int16_in m (2 + 9)) as (namelen & E6 & Hnl); [lia..|done|].
  do 5 (apply wp_bind; eapply wp_lift; [eassumption|]). apply wp_bind; eapply wp_lift; [exact E6|].
  destruct (Z.ltb_spec bsize (namelen + 13)) as [|Hn]; [by apply wp_ret, HQ|].
  destruct (get_int16_in m (2 + 11 + namelen)) as (extlen & E7 & Hxl); [lia..|done|].
  apply wp_bind; eapply wp_lift; [exact E7|].
  destruct (Z.ltb_spec bsize (extlen + namelen + 13)) as [|Hx]; [by apply wp_ret, HQ|].
  destruct (slice_in m (2 + 11) namelen) as (nm & E8 & <-); [lia..|].
  apply wp_bind; eapply wp_lift; [exact E8|].
  destruct (existsb (Z.eqb 0) nm) eqn:Enul; [by apply wp_ret, HQ|]. apply no_nul in Enul.
  destruct (alive2_stores m (2 + 11) nm extlen) as (m1 & m2 & ex & r & r' & S1 & S2 & Hl2 & Hb2 & <- & Dn & Dx & _); [lia|done|lia|done|].
  apply wp_bind; eapply wp_lift; [exact S1|]. apply wp_bind; eapply wp_lift; [exact S2|].
  apply wp_bind, (upd_buf_wp i f); [exact Hsv|lia|done|]. intros w' Hsv2 _ _ _ _ _ _ _. rewrite Dn, Dx.
  eapply (alive2_tail_wp i f hv nm r ex); [exact Hsv2| |done|done|exact HQ].
  split; [exact Enul|]. repeat split; cbn; eauto.
Qed.

(** *** The other requests *)

Lemma the_conn_wp i f Q X w :
  serving_new i f w -> (forall c, conn (vars w) !! i = Some c -> Q c w) -> wp (the_conn i) Q X w.
Proof. intros (_ & c & Hi & _) HQ. apply wp_bind, wp_get. eapply wp_lift; [exact Hi|]. auto. Qed.

(** A reply that changes nothing and whose result is not used. *)
Lemma reply_ret_wp i f buf Q X w :
  serving_new i f w -> (forall w', serving_new i f w' -> Q tt w') -> wp (reply f buf ;; ret tt) Q X w.
Proof.
  intros Hsv HQ. apply wp_bind, wp_reply. intros r sent w' Hs _ _. apply wp_ret, HQ. by eapply serving_new_same.
Qed.

Lemma cstring_at m q nm :
  slice m q (zlen nm) = Some nm -> mem_get m (q + zlen nm) = Some 0 -> exists r, drop (Z.to_nat q) m = nm ++ 0 :: r.
Proof.
  intros Hs Hz. destruct (slice_some _ _ _ _ Hs) as (_ & (pre & post & -> & <-) & _).
  destruct post as [|x post].
  - unfold mem_get in Hz. destruct (_ <? 0); [done|]. apply lookup_lt_Some in Hz. unfold zlen in Hz.
    rewrite !length_app in Hz. cbn in Hz. lia.
  - rewrite app_assoc in Hz. destruct (holds_cons ((pre ++ nm) ++ x :: post) (zlen pre + zlen nm) x []) as [Hx _].
    { exists (pre ++ nm), post. split; [done|zlen_lia]. }
    rewrite Hz in Hx. injection Hx as <-. exists post. by apply drop_zlen.
Qed.

Lemma has_nul (l : list Z) k : l !! k = Some 0 -> exists nm r, nul_free nm /\ l = nm ++ 0 :: r.
Proof.
  revert k. induction l as [|b l IH]; intros k; [done|]. destruct (Z.eqb_spec b 0) as [->|Hb].
  - intros _. exists [], l. split; [constructor|done].
  - destruct k as [|k]; [intros [= ->]; done|]. intros (nm & r & Hn & ->)%IH. exists (b :: nm), r. split; [by constructor|done].
Qed.

Lemma port2_loop_wp i f nm r l Q X w :
  serving_new i f w -> nul_free nm -> Forall node_ok l -> (forall w', serving_new i f w' -> Q tt w') ->
  wp (port2_loop f (nm ++ 0 :: r) l) Q X w.
Proof.
  intros Hsv Hnm Hl HQ. induction Hl as [|n l Hn Hl IH]; cbn [port2_loop]; [by eapply reply_ret_wp|].
  apply wp_bind. eapply wp_lift; [apply is_same_str_spec; [apply Hn|done]|]. destruct (bool_decide _); [|exact IH].
  apply wp_bind, port2_resp_ok; [done|]. by eapply reply_ret_wp.
Qed.

Lemma do_port2_wp i f m bsize Q X w :
  serving_new i f w -> zlen m = INBUF_SIZE -> bytes_ok m -> 1 <= bsize -> 2 + bsize < INBUF_SIZE ->
  mem_get m (2 + bsize) = Some 0 -> (forall w', serving_new i f w' -> Q tt w') ->
  wp (do_port2 f m 2 bsize) Q X w.
Proof.
  intros Hsv Hl Hb H1 H2 Hz HQ. unfold do_port2.
  destruct (mem_get_byte m (2 + bsize - 1)) as (last & El & _); [lia|done|]. apply wp_bind; eapply wp_lift; [exact El|].
  set (bs := if last =? 0 then bsize - 1 else bsize). cbv zeta.
  assert (mem_get m (2 + bs) = Some 0 /\ bs <= bsize) as [Hz' Hbs].
  { subst bs. destruct (Z.eqb_spec last 0) as [->|]; [|done]. split; [|lia]. by replace (2 + (bsize - 1)) with (2 + bsize - 1) by lia. }
  destruct (Z.leb_spec bs 1) as [|Hbs1]; [by apply wp_ret, HQ|].
  destruct (slice_in m (2 + 1) (bs - 1)) as (nm & En & Hlen); [lia..|]. apply wp_bind; eapply wp_lift; [exact En|].
  destruct (existsb (Z.eqb 0) nm) eqn:Enul; [by apply wp_ret, HQ|]. apply no_nul in Enul.
  destruct (slice_in m (2 + 1) bs) as (src & Es & _); [lia..|]. apply wp_bind; eapply wp_lift; [exact Es|].
  destruct (_ || _); [by apply wp_ret, HQ|]. apply wp_bind, node_list_wp; [apply Hsv|]. intros R U _ Hok _.
  destruct (cstring_at m (2 + 1) nm) as [r ->]; [by rewrite Hlen|by replace (2 + 1 + zlen nm) with (2 + bs) by lia|].
  eapply port2_loop_wp; [done..| |exact HQ]. by destruct (db_ok_nodes _ _ Hok).
Qed.

Lemma send_lines_wp i f line l Q X w :
  (forall n w (Q : list Z -> world D -> Prop), node_ok n -> (forall b, Q b w) -> wp (line n) Q X w) -> Forall node_ok l -> serving_new i f w ->
  (forall r w', serving_new i f w' -> Q r w') -> wp (send_lines f line l) Q X w.
Proof.
  intros Hline Hl Hsv HQ. revert w Hsv. induction Hl as [|n l Hn Hl IH]; intros w Hsv; cbn [send_lines]; [by apply wp_ret, HQ|].
  apply wp_bind, Hline; [done|]. intros b. apply wp_bind, wp_reply. intros [|] sent w' Hs _ _.
  - by apply IH, (serving_new_same _ _ w).
  - by apply wp_ret, HQ, (serving_new_same _ _ w).
Qed.

Lemma do_names_wp i f Q X w :
  serving_new i f w -> (forall w', serving_new i f w' -> Q tt w') -> wp (do_names f) Q X w.
Proof.
  intros Hsv HQ. apply wp_bind, wp_get, wp_bind, wp_reply. intros [|] sent w1 Hs _ _;
    assert (serving_new i f w1) as Hsv1 by (by eapply serving_new_same); [|by apply wp_ret, HQ].
  apply wp_bind, node_list_wp; [apply Hsv1|]. intros R U _ Hok _. apply wp_bind.
  eapply (send_lines_wp i); [|by destruct (db_ok_nodes _ _ Hok)|exact Hsv1|].
  - intros n w' Q' Hn Hq. by apply names_line_ok.
  - intros _ w' Hw'. by apply wp_ret, HQ.
Qed.

Lemma do_dump_wp i f Q X w :
  serving_new i f w -> (forall w', serving_new i f w' -> Q tt w') -> wp (do_dump i f) Q X w.
Proof.
  intros Hsv HQ. apply wp_bind. eapply the_conn_wp; [exact Hsv|]. intros c _.
  destruct (negb (c_local_peer c)); [by apply wp_ret, HQ|].
  apply wp_bind, wp_get, wp_bind, wp_reply. intros [|] sent w1 Hs _ _;
    assert (serving_new i f w1) as Hsv1 by (by eapply serving_new_same); cbn [negb]; [|by apply wp_ret, HQ].
  apply wp_bind, node_list_wp; [apply Hsv1|]. intros R U _ Hok _. apply wp_bind.
  eapply (send_lines_wp i); [|by destruct (db_ok_nodes _ _ Hok)|exact Hsv1|].
  { intros n w' Q' Hn Hq. by eapply dump_lines_ok. }
  intros [|] w2 Hsv2; cbn [negb]; [|by apply wp_ret, HQ].
  apply wp_bind, old_list_wp; [apply Hsv2|]. intros R2 U2 _ Hok2. apply wp_bind.
  eapply (send_lines_wp i); [|by destruct (db_ok_nodes _ _ Hok2)|exact Hsv2|].
  - intros n w' Q' Hn Hq. by eapply dump_lines_ok.
  - intros _ w' Hw'. by apply wp_ret, HQ.
Qed.

(** Closing a connection that no node has. *)
Lemma closed_srv_ok w j c R U :
  table_ok (vars w) (procfds w) -> env_ok w -> db_rep (nodes (vars w)) R U -> db_ok R U -> live_ok R (conn (vars w)) ->
  conn (vars w) !! j = Some c -> c_open c = true -> ~ In (c_fd c) (map fd R) -> srv_ok (closed_world j c w).
Proof.
  intros Ht He Hr Hok Hl Hj Ho Hni. split; [by apply closed_table_ok|]. split; [exact He|].
  exists R, U. split; [done|]. split; [done|]. eapply live_ok_alter; [exact Hl|exact Hj|done|]. auto.
Qed.

Lemma open_not_freed (v : EpmdVars D) fds i c :
  table_ok v fds -> conn v !! i = Some c -> c_open c = true -> c_buf c <> BufFreed.
Proof. intros Ht Hi Ho. destruct (t_open _ _ Ht _ _ Hi Ho) as (((m & -> & _) & _) & _). done. Qed.

Lemma conn_close_fd_eq (w : world D) fds i c :
  table_ok (vars w) fds -> conn (vars w) !! i = Some c -> c_open c = true ->
  conn_close_fd (c_fd c) w = Ret true (closed_world i c w).
Proof.
  intros Ht Hi Ho. unfold conn_close_fd, bind at 1, get. rewrite (first_slot_open _ _ _ _ Ht Hi Ho).
  unfold bind. rewrite (epmd_conn_close_eq _ _ _ Hi); [done|]. by eapply open_not_freed.
Qed.

Lemma do_kill_wp i f Q w :
  serving_new i f w -> (forall w', serving_new i f w' -> Q tt w') -> wp (do_kill i f) Q (fun _ _ => True) w.
Proof.
  intros Hsv HQ. apply wp_bind. eapply the_conn_wp; [exact Hsv|]. intros c _.
  destruct (negb (c_local_peer c)); [by apply wp_ret, HQ|].
  apply wp_bind, wp_get, wp_bind, node_list_wp; [apply Hsv|]. intros R U _ _ _.
  destruct (_ && _); [by eapply reply_ret_wp|]. apply wp_bind, wp_reply. intros r sent w1 Hs _ _.
  assert (serving_new i f w1) as [(Ht & _) (c1 & Hi & Ho & <- & _)] by (by eapply serving_new_same).
  apply wp_bind. unfold wp at 1. by rewrite (conn_close_fd_eq _ _ _ _ Ht Hi Ho).
Qed.

(** The connection of the node that STOP unregisters is closed. *)
Lemma stop_close_wp i f w q n R1 R2 U d Q X :
  serving_new i f w -> db_ok (R1 ++ n :: R2) U -> live_ok (R1 ++ n :: R2) (conn (vars w)) ->
  unreg_spec q (R1 ++ n :: R2) U = (fd n, (R1 ++ R2, U ++ [n])) -> db_rep d (R1 ++ R2) (U ++ [n]) ->
  (forall w', serving_new i f w' -> Q true w') ->
  wp (conn_close_fd (fd n) ;; ret true) Q X (set_vars (set_nodes d (vars w)) w).
Proof.
  intros ((Ht & He & _) & c & Hi & Ho & Hf & Hk) Hok Hl Eu Hd HQ.
  destruct (live_conn _ _ Hl n) as (j & cj & Hj & Hoj & Hkj & Ej); [apply in_or_app; right; by left|].
  assert (i <> j) as Hij by (intros ->; congruence).
  pose proof (nodes_table_ok d _ _ Ht) as Ht'. apply wp_bind. unfold wp at 1.
  rewrite <- Ej, (conn_close_fd_eq (set_vars (set_nodes d (vars w)) w) _ _ _ Ht' Hj Hoj). apply wp_ret, HQ. split.
  - eapply closed_srv_ok; [exact Ht'|exact He|exact Hd| | |exact Hj|exact Hoj|].
    + pose proof (unreg_spec_ok q _ _ Hok) as Hok'. by rewrite Eu in Hok'.
    + pose proof (live_ok_unreg q _ U _ Hl) as Hl'. by rewrite Eu in Hl'.
    + pose proof (live_nodup _ _ Hl) as Hnd. rewrite map_app in Hnd |- *. cbn [map] in Hnd.
      rewrite <- Permutation_middle in Hnd. apply list.NoDup_cons in Hnd as [Hnd _].
      by rewrite Ej, <- list_elem_of_In.
  - exists c. cbn [closed_world vars closed_vars set_vars set_nodes conn]. by rewrite list_lookup_alter_ne by done.
Qed.

Lemma do_stop_wp i f m bsize Q X w :
  serving_new i f w -> 1 <= bsize -> mem_get m (2 + bsize) = Some 0 ->
  (forall w', serving_new i f w' -> Q tt w') -> wp (do_stop i f m 2 bsize) Q X w.
Proof.
  intros Hsv H1 Hz HQ. apply wp_bind. eapply the_conn_wp; [exact Hsv|]. intros c _.
  destruct (negb (c_local_peer c)); [by apply wp_ret, HQ|]. apply wp_bind, wp_get.
  destruct (negb (brutal_kill _)); [by apply wp_ret, HQ|].
  destruct (Z.leb_spec bsize 1); [by apply wp_ret, HQ|].
  destruct (has_nul (drop (Z.to_nat (2 + 1)) m) (Z.to_nat (bsize - 1))) as (nm & r & Hnm & ->).
  { rewrite lookup_drop. unfold mem_get in Hz. destruct (_ <? 0); [done|]. rewrite <- Hz. f_equal. lia. }
  pose proof Hsv as ((Ht & He & R & U & Hr & Hok & Hl) & Hc).
  apply wp_bind. eapply unreg_name_wp; [exact Hr|exact Hok|exact Hnm|]. intros d Hd.
  set (w1 := set_vars (set_nodes d (vars w)) w).
  assert (serving_new i f w1) as Hsv1.
  { split; [|exact Hc]. eapply (unreg_serving i f w (named nm) d R U); [done..| |exact Hok|exact Hd].
    destruct Hc as (c' & ? & ? & ? & _). eauto. }
  apply wp_bind. unfold unreg_spec in *. destruct (split_first (named nm) R) as [[[R1 n] R2]|] eqn:E; cbn [fst snd] in *.
  - apply split_named in E as [-> <-]. destruct (fd n <? 0).
    + apply wp_reply. intros [|] sent w2 Hs _ _; [|by apply wp_ret, HQ, (serving_new_same _ _ w1)].
      by eapply reply_ret_wp; [eapply serving_new_same|].
    + eapply stop_close_wp; [exact Hsv|exact Hok|exact Hl|by apply unreg_spec_at|exact Hd|].
      intros w2 Hw2. by eapply reply_ret_wp.
  - cbn. apply wp_reply. intros [|] sent w2 Hs _ _; [|by apply wp_ret, HQ, (serving_new_same _ _ w1)].
    by eapply reply_ret_wp; [eapply serving_new_same|].
Qed.

Lemma do_request_wp i f bsize Q w :
  serving_new i f w -> 1 <= bsize -> 2 + bsize < INBUF_SIZE -> (forall w', serving i f w' -> Q tt w') ->
  wp (do_request i f 2 bsize) Q (fun _ _ => True) w.
Proof.
  intros Hsv H1 H2 HQ. assert (forall w', serving_new i f w' -> Q tt w') as HQ' by auto using serving_new_serving.
  apply wp_bind. eapply the_conn_wp; [exact Hsv|]. intros c Hi.
  pose proof Hsv as ((Ht & _) & c' & Hi' & Ho & _). assert (c' = c) as -> by congruence.
  destruct (t_open _ _ Ht _ _ Hi Ho) as (((m0 & Em & Hl0 & Hb0) & _) & _). rewrite Em.
  destruct (store_some m0 (2 + bsize) [0]) as [m Es]; [lia|zlen_lia|].
  destruct (store_bounds _ _ _ _ Es) as (_ & _ & Hl). rewrite Hl0 in Hl.
  assert (bytes_ok m) as Hb by (eapply store_bytes_ok; [exact Es|exact Hb0|repeat constructor; unfold byte_ok; lia]).
  destruct (holds_cons _ _ _ _ (store_holds _ _ _ _ Es)) as [Hz _].
  apply wp_bind; eapply wp_lift; [exact Es|]. apply wp_bind, (upd_buf_wp i f); [done..|].
  intros w1 Hsv1 _ _ _ _ _ _ _. destruct (mem_get_byte m 2) as (b & Eb & _); [unfold INBUF_SIZE, MAXSYMLEN in *; lia|done|].
  apply wp_bind; eapply wp_lift; [exact Eb|].
  destruct (b =? EPMD_ALIVE2_REQ); [by apply do_alive2_wp|].
  destruct (b =? EPMD_PORT2_REQ); [by eapply do_port2_wp|].
  destruct (b =? EPMD_NAMES_REQ); [by eapply do_names_wp|].
  destruct (b =? EPMD_DUMP_REQ); [by eapply do_dump_wp|].
  destruct (b =? EPMD_KILL_REQ); [by eapply do_kill_wp|].
  destruct (b =? EPMD_STOP_REQ); [by eapply do_stop_wp|]. by apply wp_ret, HQ'.
Qed.

End Invariant.
