(* ===== verification/EpmdSrv.v ===== *)
(** * The main loop of epmd: [do_read], [do_accept] and the [select] loop of
    [run] ([epmd_srv.c])

    A round of the loop is a function of what [select] reports; the server is
    the relation of its rounds and of what the outside may do between them. *)
From stdpp Require Import gmap.
From S2P Require Import Prelude PutGet EpmdStr EpmdNode EpmdConn EpmdReq.

Section Loop.

Context {D : Type} `{NodeDb D}.

(** [read] of at most [n] bytes; [None] when it fails. *)
Definition sys_read (n : Z) : M D (option (list Z)) := fun w =>
  match reads w with
  | [] => Blocked
  | r :: rs =>
      Ret (match r with RData bs => Some (take (Z.to_nat n) bs) | RErr => None end)
        (mkWorld (vars w) (writes w) rs (accepts w) (clock w) (memory w) (procfds w) (out w))
  end.

(** The block of a connection, for [read] to write to. *)
Definition buf_of (s : Connection) : M D mem := match c_buf s with BufLive m => ret m | _ => crash end.

Definition set_got (m : mem) (got : Z) (s : Connection) : Connection :=
  mkConn (c_fd s) (c_open s) (c_keep s) (c_local_peer s) got (c_want s) (BufLive m) (c_mod_time s).
Definition set_want (want : Z) (s : Connection) : Connection :=
  mkConn (c_fd s) (c_open s) (c_keep s) (c_local_peer s) (c_got s) want (c_buf s) (c_mod_time s).
Definition set_time (now : Z) (s : Connection) : Connection :=
  mkConn (c_fd s) (c_open s) (c_keep s) (c_local_peer s) (c_got s) (c_want s) (c_buf s) now.

(** [if (s->want == s->got)]: the packet is complete. *)
Definition do_packet (i : nat) : M D unit :=
  s <- the_conn i ;;
  if c_want s =? c_got s then
    w <- get ;;
    upd_conn i (set_time (clock w)) ;;
    do_request i (c_fd s) 2 (c_got s - 2) ;;
    s <- the_conn i ;;
    if negb (c_keep s) then epmd_conn_close i else ret tt
  else ret tt.

Definition do_read (i : nat) : M D unit :=
  s <- the_conn i ;;
  if negb (c_open s) then ret tt
  else if c_keep s then
    r <- sys_read INBUF_SIZE ;;
    match r with
    | Some [] | None => unreg_socket (c_fd s) ;; epmd_conn_close i
    | Some bs =>
        m <- buf_of s ;; m <- lift (store m 0 bs) ;; upd_conn i (set_buf m) ;;
        unreg_socket (c_fd s) ;; epmd_conn_close i
    end
  else
    let pack_size := if c_want s =? 0 then INBUF_SIZE - 1 else c_want s in
    r <- sys_read (pack_size - c_got s) ;;
    match r with
    | Some [] | None => epmd_conn_close i
    | Some bs =>
        m <- buf_of s ;; m <- lift (store m (c_got s) bs) ;;
        let got := c_got s + zlen bs in
        upd_conn i (set_got m got) ;;
        if (c_want s =? 0) && (2 <=? got) then
          len <- lift (get_int16 m 0) ;;
          let want := len + 2 in
          upd_conn i (set_want want) ;;
          if (want <? 3) || (INBUF_SIZE <=? want) then epmd_conn_close i
          else if want <? got then epmd_conn_close i
          else do_packet i
        else do_packet i
    end.

(** [accept] gives a descriptor that the process does not have. *)
Definition do_accept : M D bool := fun w =>
  match accepts w with
  | [] => Blocked
  | AErr fatal :: rs =>
      let w' := mkWorld (vars w) (writes w) (reads w) rs (clock w) (memory w) (procfds w) (out w) in
      if fatal then Exit 1 w' else Ret false w'
  | AFd f peer sock junk :: rs =>
      if bool_decide (f ∈ procfds w) then Blocked
      else conn_open f peer sock junk
        (mkWorld (vars w) (writes w) (reads w) rs (clock w) (memory w) ({[f]} ∪ procfds w) (out w))
  end.

(** The sockets [ls] that are ready; [true] for [goto select_again]. *)
Fixpoint accept_loop (ready : gset Z) (ls : list Z) : M D bool :=
  match ls with
  | [] => ret false
  | l :: ls =>
      if bool_decide (l ∈ ready) then
        ok <- do_accept ;;
        w <- get ;;
        if (ok : bool) && (active_conn (vars w) <? max_conn (vars w)) then ret true else accept_loop ready ls
      else accept_loop ready ls
  end.

Definition check_conn (ready : gset Z) (now : Z) (i : nat) : M D unit :=
  s <- the_conn i ;;
  if c_open s then
    if bool_decide (c_fd s ∈ ready) then do_read i
    else
      w <- get ;;
      if negb (c_keep s) && (c_mod_time s + packet_timeout (vars w) <? now) then epmd_conn_close i else ret tt
  else ret tt.

Fixpoint check_conns (ready : gset Z) (now : Z) (l : list nat) : M D unit :=
  match l with
  | [] => ret tt
  | i :: l => check_conn ready now i ;; check_conns ready now l
  end.

(** What [select] returns: some of the descriptors asked for, a timeout, or an
    error that is transient or not. *)
Inductive sres :=
  | SReady (fds : gset Z)
  | STimeout
  | SErr (transient : bool).

Definition select_round (r : sres) : M D unit :=
  match r with
  | SErr transient => if transient then ret tt else exit 1
  | _ =>
      w <- get ;;
      let ready := match r with SReady fds => fds ∩ orig_read_mask (vars w) | _ => ∅ end in
      again <- accept_loop ready (listenfd (vars w)) ;;
      if again : bool then ret tt
      else w <- get ;; check_conns ready (clock w) (seq 0 (Z.to_nat (max_conn (vars w))))
  end.

(** ** The server *)

(** The start of the loop: [node_init], [conn_init], and the sockets [ls] to
    listen on. *)
Definition start_vars (port : Z) (debug brutal : bool) (timeout : Z) (max : nat) (ls : list Z) : EpmdVars D :=
  mkVars port debug brutal timeout (Z.of_nat max) (3 + zlen ls) (foldr (fun f t => Z.max t (f + 1)) 0 ls)
    (conn_init max) db_init (list_to_set ls) ls.

Inductive srv_start : world D -> Prop :=
  | Start w port debug brutal timeout max ls :
      vars w = start_vars port debug brutal timeout max ls -> (forall l, In l ls -> l ∈ procfds w) ->
      srv_start w.

(** Between rounds time passes and the outside decides what comes next. *)
Inductive srv_step : world D -> world D -> Prop :=
  | StepRound r w w' : select_round r w = Ret tt w' -> srv_step w w'
  | StepOutside w ws rs acs now mem :
      Forall rres_ok rs -> Forall ares_ok acs ->
      srv_step w (mkWorld (vars w) ws rs acs now mem (procfds w) (out w)).

Inductive reachable : world D -> Prop :=
  | ReachStart w : srv_start w -> env_ok w -> reachable w
  | ReachStep w w' : reachable w -> srv_step w w' -> reachable w'.

End Loop.

(** ** What no handler changes: the size of the table and the listen sockets *)

Section Stable.

Context {D : Type} `{NodeDb D}.

Definition stable_vars (v v' : EpmdVars D) : Prop :=
  length (conn v') = length (conn v) /\ max_conn v' = max_conn v /\ listenfd v' = listenfd v.

Definition Stable {A} (m : M D A) : Prop :=
  forall w, match m w with Ret _ w' => stable_vars (vars w) (vars w') | _ => True end.

Lemma stable_ret {A} (a : A) : Stable (ret a).
Proof. by intros w. Qed.
Lemma stable_crash {A} : Stable (crash (A := A)).
Proof. by intros w. Qed.
Lemma stable_exit {A} c : Stable (exit (A := A) c).
Proof. by intros w. Qed.
Lemma stable_get : Stable get.
Proof. by intros w. Qed.
Lemma stable_lift {A} (o : option A) : Stable (lift o).
Proof. destruct o; by intros w. Qed.
Lemma stable_bind {A B} (m : M D A) (k : A -> M D B) : Stable m -> (forall a, Stable (k a)) -> Stable (bind m k).
Proof.
  intros Hm Hk w. unfold bind. specialize (Hm w). destruct (m w) as [a w'| | |]; try done.
  specialize (Hk a w'). destruct (k a w'); try done. destruct Hm as (? & ? & ?), Hk as (? & ? & ?). repeat split; congruence.
Qed.
Lemma stable_modify f : (forall v, stable_vars v (f v)) -> Stable (modify f).
Proof. intros Hf w. apply Hf. Qed.
Lemma stable_upd_conn i f : Stable (upd_conn i f).
Proof. apply stable_modify. intros v. repeat split. apply length_alter. Qed.
Lemma stable_set_nodes d : Stable (modify (set_nodes d)).
Proof. by apply stable_modify. Qed.
Lemma stable_select_fd_set f : Stable (select_fd_set f).
Proof. by apply stable_modify. Qed.
Lemma stable_close_fd f : Stable (close_fd f).
Proof. by intros w. Qed.
Lemma stable_reply f b : Stable (reply f b).
Proof. intros w. unfold reply. by destruct (reply_loop _ _) as [[[? ?] ?]|]. Qed.
Lemma stable_sys_read n : Stable (sys_read n).
Proof. intros w. unfold sys_read. by destruct (reads w). Qed.

Create HintDb stable.
#[local] Hint Resolve stable_ret stable_crash stable_exit stable_get stable_lift stable_upd_conn stable_set_nodes
  stable_select_fd_set stable_close_fd stable_reply stable_sys_read : stable.

Ltac stable :=
  repeat (cbv zeta; first
    [ solve [eauto with stable]
    | apply stable_bind; [|intros ?]
    | match goal with
      | |- Stable (match ?x with _ => _ end) => destruct x
      | |- Stable (modify _) => apply stable_modify; intros ?; repeat split
      end ]).

Lemma stable_the_conn i : Stable (the_conn i).
Proof. unfold the_conn. stable. Qed.
#[local] Hint Resolve stable_the_conn : stable.
Lemma stable_epmd_conn_close i : Stable (epmd_conn_close i).
Proof. unfold epmd_conn_close. stable. Qed.
#[local] Hint Resolve stable_epmd_conn_close : stable.
Lemma stable_conn_close_fd f : Stable (conn_close_fd f).
Proof. unfold conn_close_fd. stable. Qed.
Lemma stable_conn_open f peer sock junk : Stable (conn_open f peer sock junk).
Proof. unfold conn_open. stable. Qed.
Lemma stable_node_list : Stable node_list.
Proof. unfold node_list. stable. Qed.
Lemma stable_old_list : Stable old_list.
Proof. unfold old_list. stable. Qed.
Lemma stable_unreg_name nm : Stable (unreg_name nm).
Proof. unfold unreg_name. stable. Qed.
Lemma stable_unreg_socket f : Stable (unreg_socket f).
Proof. unfold unreg_socket. stable. Qed.
Lemma stable_reg2 a : Stable (reg2 a).
Proof. unfold reg2. stable. Qed.
Lemma stable_w_bytes b s : Stable (w_bytes b s).
Proof. unfold w_bytes. stable. Qed.
Lemma stable_w_copy_str b s : Stable (w_copy_str b s).
Proof. unfold w_copy_str. stable. Qed.
Lemma stable_w_snprintf b s : Stable (w_snprintf b s).
Proof. unfold w_snprintf. stable. Qed.
#[local] Hint Resolve stable_conn_close_fd stable_conn_open stable_node_list stable_old_list stable_unreg_name
  stable_unreg_socket stable_reg2 stable_w_bytes stable_w_copy_str stable_w_snprintf : stable.

Lemma stable_send_lines f line l : (forall n, Stable (line n)) -> Stable (send_lines f line l).
Proof. intros Hl. induction l; cbn [send_lines]; stable. Qed.
Lemma stable_port2_loop f nm l : Stable (port2_loop f nm l).
Proof. induction l; cbn [port2_loop]; unfold port2_resp; stable. Qed.
#[local] Hint Resolve stable_port2_loop : stable.

Lemma stable_lines n : Stable (names_line n) /\ Stable (dump_active n) /\ Stable (dump_old n).
Proof. unfold names_line, dump_active, dump_old. repeat split; stable. Qed.

Lemma stable_do_request i f p bsize : Stable (do_request i f p bsize).
Proof.
  assert (forall l, Stable (send_lines f names_line l)) as H1 by (intros; apply stable_send_lines; apply stable_lines).
  assert (forall l, Stable (send_lines f dump_active l)) as H2 by (intros; apply stable_send_lines; apply stable_lines).
  assert (forall l, Stable (send_lines f dump_old l)) as H3 by (intros; apply stable_send_lines; apply stable_lines).
  unfold do_request, do_alive2, do_port2, do_names, do_dump, do_kill, do_stop. stable.
Qed.
#[local] Hint Resolve stable_do_request : stable.

Lemma stable_do_read i : Stable (do_read i).
Proof. unfold do_read, do_packet, buf_of. stable. Qed.

Lemma stable_do_accept : Stable do_accept.
Proof.
  intros w. unfold do_accept. destruct (accepts w) as [|[f peer sock junk|fatal] rs]; [done| |by destruct fatal].
  destruct (bool_decide _); [done|]. apply (stable_conn_open f peer sock junk (mkWorld _ _ _ _ _ _ _ _)).
Qed.

Lemma stable_check_conn ready now i : Stable (check_conn ready now i).
Proof. pose proof (stable_do_read i). unfold check_conn. stable. Qed.

(** A proof about a handler may use what it does not change. *)
Lemma wp_stable {A} (m : M D A) Q X w :
  Stable m -> wp m (fun a w' => stable_vars (vars w) (vars w') -> Q a w') X w -> wp m Q X w.
Proof. intros Hm. specialize (Hm w). unfold wp. destruct (m w); auto. Qed.

End Stable.

Section Invariant.

Context {D : Type} `{NodeDbSpec D}.

Lemma srv_ok_reads (w : world D) r rs :
  srv_ok w -> reads w = r :: rs ->
  rres_ok r /\ srv_ok (mkWorld (vars w) (writes w) rs (accepts w) (clock w) (memory w) (procfds w) (out w)).
Proof.
  intros (Ht & [Hr Ha] & Hd) E. rewrite E in Hr. apply Forall_cons_iff in Hr as [H1 H2]. split; [done|]. by split.
Qed.

Lemma sys_read_wp n (Q : option (list Z) -> world D -> Prop) X w :
  srv_ok w ->
  (forall r w', match r with Some bs => bytes_ok bs /\ (0 <= n -> zlen bs <= n) | None => True end ->
     srv_ok w' -> vars w' = vars w -> Q r w') ->
  wp (sys_read n) Q X w.
Proof.
  intros Hs HQ. unfold wp, sys_read. destruct (reads w) as [|r rs] eqn:E; [done|].
  destruct (srv_ok_reads _ _ _ Hs E) as [Hr Hs']. apply HQ; [|done|done]. destruct r as [bs|]; [|done].
  split; [by apply Forall_take|]. intros Hn. unfold zlen. rewrite length_take. lia.
Qed.

Lemma close_wp i c (Q : unit -> world D -> Prop) X w :
  srv_ok w -> conn (vars w) !! i = Some c -> c_open c = true -> c_keep c = false ->
  (forall w', srv_ok w' -> Q tt w') -> wp (epmd_conn_close i) Q X w.
Proof.
  intros (Ht & He & R & U & Hr & Hok & Hl) Hi Ho Hk HQ. unfold wp.
  rewrite (epmd_conn_close_eq _ _ _ Hi) by (by eapply open_not_freed). apply HQ.
  eapply closed_srv_ok; [done..|]. by eapply not_live.
Qed.

(** Closing a slot that was changed since the invariant held. *)
Lemma close_changed_wp i c (g : Connection -> Connection) (Q : unit -> world D -> Prop) X w :
  srv_ok w -> conn (vars w) !! i = Some c -> c_open c = true -> c_keep c = false ->
  c_fd (g c) = c_fd c -> c_buf (g c) <> BufFreed -> (forall w', srv_ok w' -> Q tt w') ->
  wp (epmd_conn_close i) Q X (set_vars (set_conn (alter g i (conn (vars w))) (vars w)) w).
Proof.
  intros (Ht & He & R & U & Hr & Hok & Hl) Hi Ho Hk Hfd Hb HQ. unfold wp.
  rewrite (epmd_conn_close_eq _ i (g c)); [|cbn [vars set_vars set_conn conn]; by rewrite list_lookup_alter_eq, Hi|done].
  apply HQ. split; [|split; [exact He|]].
  - unfold closed_world, closed_vars, set_vars, set_conn.
    cbn [vars procfds conn nodes g_port g_debug brutal_kill packet_timeout max_conn active_conn select_fd_top orig_read_mask listenfd].
    rewrite Hfd, list_alter_alter_eq. by apply closed_table_gen.
  - exists R, U. split; [done|]. split; [done|]. cbn [vars closed_world closed_vars set_vars set_conn conn].
    rewrite list_alter_alter_eq. eapply live_ok_alter; [exact Hl|exact Hi|done|]. intros _ Hk'. congruence.
Qed.

(** The slot [i] holds [c]. *)
Lemma slot_wp i c (Q : Connection -> world D -> Prop) X w :
  conn (vars w) !! i = Some c -> Q c w -> wp (the_conn i) Q X w.
Proof. intros Hi HQ. apply wp_bind, wp_get. eapply wp_lift; [exact Hi|done]. Qed.

Lemma slot_conn_ok w i c : srv_ok w -> conn (vars w) !! i = Some c -> c_open c = true -> conn_ok c.
Proof. intros (Ht & _) Hi Ho. by destruct (t_open _ _ Ht _ _ Hi Ho). Qed.

Lemma do_packet_wp i c (Q : unit -> world D -> Prop) w :
  srv_ok w -> conn (vars w) !! i = Some c -> c_open c = true -> c_keep c = false -> 1 <= c_got c ->
  (forall w', srv_ok w' -> Q tt w') -> wp (do_packet i) Q (fun _ _ => True) w.
Proof.
  intros Hs Hi Ho Hk Hg HQ. pose proof (slot_conn_ok _ _ _ Hs Hi Ho) as Hc. pose proof Hc as (_ & _ & Hw).
  apply wp_bind. eapply slot_wp; [exact Hi|]. destruct (Z.eqb_spec (c_want c) (c_got c)) as [E|]; [|by apply wp_ret, HQ].
  apply wp_bind, wp_get, wp_bind, wp_modify, wp_bind, do_request_wp; [|lia..|].
  - split; [by eapply srv_ok_alter|]. exists (set_time (clock w) c). cbn [vars set_vars set_conn conn].
    by rewrite list_lookup_alter_eq, Hi.
  - intros w1 (Hs1 & c1 & Hi1 & Ho1 & _). apply wp_bind. eapply slot_wp; [exact Hi1|].
    destruct (c_keep c1) eqn:Hk1; cbn [negb]; [by apply wp_ret, HQ|]. by eapply close_wp.
Qed.

(** Unregistering the node of a connection and closing it. *)
Lemma hangup_wp i c (Q : unit -> world D -> Prop) X w :
  srv_ok w -> conn (vars w) !! i = Some c -> c_open c = true -> (forall w', srv_ok w' -> Q tt w') ->
  wp (unreg_socket (c_fd c) ;; epmd_conn_close i) Q X w.
Proof.
  intros (Ht & He & R & U & Hr & Hok & Hl) Hi Ho HQ. apply wp_bind. eapply unreg_socket_wp; [exact Hr|].
  intros d Hd. unfold wp. pose proof (nodes_table_ok d _ _ Ht) as Ht'.
  rewrite (epmd_conn_close_eq (set_vars (set_nodes d (vars w)) w) i c Hi) by (by eapply open_not_freed). apply HQ.
  eapply closed_srv_ok; [exact Ht'|exact He|exact Hd|by apply unreg_spec_ok|by apply live_ok_unreg|exact Hi|exact Ho|].
  apply unreg_fd_gone, (live_nodup _ _ Hl).
Qed.

Lemma buf_of_wp c (Q : mem -> world D -> Prop) X w :
  conn_ok c -> (forall m, c_buf c = BufLive m -> zlen m = INBUF_SIZE -> bytes_ok m -> Q m w) -> wp (buf_of c) Q X w.
Proof. intros ((m & E & Hl & Hb) & _) HQ. unfold buf_of. rewrite E. apply wp_ret. by apply HQ. Qed.

Lemma set_got_ok m g c :
  conn_ok c -> zlen m = INBUF_SIZE -> bytes_ok m -> 0 <= g -> (c_want c = 0 -> g < 2) -> (c_want c <> 0 -> g <= c_want c) ->
  conn_ok (set_got m g c).
Proof.
  intros (_ & _ & Hw) Hl Hb Hg H0' H1. split; [by exists m|]. cbn. split; [done|]. destruct Hw as [[Hw _]|[Hw _]].
  - left. auto.
  - right. split; [done|]. apply H1. lia.
Qed.

(** The bytes that came are in the buffer; [want] is not known or has just
    become known. *)
Lemma do_read_data_wp i c m (bs : list Z) (Q : unit -> world D -> Prop) w :
  srv_ok w -> conn (vars w) !! i = Some c -> c_open c = true -> c_keep c = false ->
  let got := c_got c + zlen bs in
  zlen m = INBUF_SIZE -> bytes_ok m -> bs <> [] -> (c_want c = 0 -> got < INBUF_SIZE) -> (c_want c <> 0 -> got <= c_want c) ->
  (forall w', srv_ok w' -> Q tt w') ->
  wp (upd_conn i (set_got m got) ;;
      if (c_want c =? 0) && (2 <=? got) then
        len <- lift (get_int16 m 0) ;;
        let want := len + 2 in
        upd_conn i (set_want want) ;;
        if (want <? 3) || (INBUF_SIZE <=? want) then epmd_conn_close i
        else if want <? got then epmd_conn_close i
        else do_packet i
      else do_packet i) Q (fun _ _ => True) w.
Proof.
  intros Hs Hi Ho Hk got Hl Hb Hne H0' H1 HQ. pose proof (slot_conn_ok _ _ _ Hs Hi Ho) as Hc.
  assert (0 <= c_got c /\ 1 <= zlen bs) as [Hg Hz].
  { split; [apply Hc|]. destruct bs; [done|zlen_lia]. }
  apply wp_bind, wp_modify. destruct (Z.eqb_spec (c_want c) 0) as [Ew|Ew]; cbn [andb].
  2:{ eapply (do_packet_wp i (set_got m got c)); [|cbn; by rewrite list_lookup_alter_eq, Hi|done|done|cbn; lia|exact HQ].
      eapply srv_ok_alter; try done. apply set_got_ok; try done; lia. }
  destruct (Z.leb_spec 2 got) as [H2|H2].
  2:{ eapply (do_packet_wp i (set_got m got c)); [|cbn; by rewrite list_lookup_alter_eq, Hi|done|done|cbn; lia|exact HQ].
      eapply srv_ok_alter; try done. apply set_got_ok; try done; lia. }
  destruct (get_int16_in m 0) as (len & El & Hlen); [lia|unfold INBUF_SIZE, MAXSYMLEN in *; lia|done|].
  apply wp_bind; eapply wp_lift; [exact El|]. cbv zeta. apply wp_bind, wp_modify.
  set (g := set_want (len + 2) ∘ set_got m got).
  match goal with |- wp _ _ _ ?w' => assert (w' = set_vars (set_conn (alter g i (conn (vars w))) (vars w)) w) as -> end.
  { unfold set_vars, set_conn. cbn. by rewrite list_alter_alter_eq. }
  assert (wp (epmd_conn_close i) Q (fun _ _ => True) (set_vars (set_conn (alter g i (conn (vars w))) (vars w)) w)) as Hcl.
  { by eapply close_changed_wp. }
  destruct (_ || _) eqn:E1; [exact Hcl|]. rewrite orb_false_iff in E1. destruct E1 as [E1 E2].
  destruct (Z.ltb_spec (len + 2) got); [exact Hcl|].
  eapply (do_packet_wp i (g c)); [|cbn; by rewrite list_lookup_alter_eq, Hi|done|done|cbn; lia|exact HQ].
  eapply srv_ok_alter; try done. split; [by exists m|]. cbn. lia.
Qed.

Lemma do_read_wp i c (Q : unit -> world D -> Prop) w :
  srv_ok w -> conn (vars w) !! i = Some c -> (forall w', srv_ok w' -> Q tt w') ->
  wp (do_read i) Q (fun _ _ => True) w.
Proof.
  intros Hs Hi HQ. apply wp_bind. eapply slot_wp; [exact Hi|]. destruct (c_open c) eqn:Ho; cbn [negb]; [|by apply wp_ret, HQ].
  pose proof (slot_conn_ok _ _ _ Hs Hi Ho) as Hc. destruct (c_keep c) eqn:Hk.
  - apply wp_bind, sys_read_wp; [done|]. intros [[|b bs]|] w1 Hr Hs1 Ev;
      rewrite <- Ev in Hi; [by eapply hangup_wp| |by eapply hangup_wp].
    destruct Hr as [Hb Hlen]. specialize (Hlen ltac:(unfold INBUF_SIZE, MAXSYMLEN; lia)).
    apply wp_bind, buf_of_wp; [done|]. intros m _ Hl Hbm.
    destruct (store_some m 0 (b :: bs)) as [m' Es]; [lia|lia|]. apply wp_bind; eapply wp_lift; [exact Es|].
    destruct (store_bounds _ _ _ _ Es) as (_ & _ & Hl').
    apply wp_bind, wp_modify. change (c_fd c) with (c_fd (set_buf m' c)).
    eapply (hangup_wp i (set_buf m' c)); [|cbn; by rewrite list_lookup_alter_eq, Hi|exact Ho|exact HQ].
    eapply srv_ok_alter; try done. apply set_buf_ok; [done|lia|by eapply store_bytes_ok].
  - cbv zeta. set (n := (if c_want c =? 0 then INBUF_SIZE - 1 else c_want c) - c_got c).
    assert (0 <= n /\ c_got c + n < INBUF_SIZE /\ (c_want c <> 0 -> c_got c + n <= c_want c)) as (Hn & Hn2 & Hn3).
    { destruct Hc as (_ & Hg & Hw). subst n. unfold INBUF_SIZE, MAXSYMLEN in *. destruct (Z.eqb_spec (c_want c) 0); lia. }
    apply wp_bind, sys_read_wp; [done|]. intros [[|b bs]|] w1 Hr Hs1 Ev; rewrite <- Ev in Hi; [by eapply close_wp| |by eapply close_wp].
    destruct Hr as [Hb Hlen]. specialize (Hlen Hn). apply wp_bind, buf_of_wp; [done|]. intros m _ Hl Hbm.
    destruct (store_some m (c_got c) (b :: bs)) as [m' Es]; [apply Hc|lia|]. apply wp_bind; eapply wp_lift; [exact Es|].
    destruct (store_bounds _ _ _ _ Es) as (_ & _ & Hl').
    eapply (do_read_data_wp i c m' (b :: bs)); try done; [lia|by eapply store_bytes_ok|lia|lia].
Qed.

(** *** Accepting *)

Lemma table_ok_mono (v : EpmdVars D) fds fds' : table_ok v fds -> fds ⊆ fds' -> table_ok v fds'.
Proof.
  intros [H1 H2 H3 H4 H5] Hsub. split; [done|done| | |done].
  - intros j c Hj Ho. destruct (H3 _ _ Hj Ho) as (A1 & A2 & A3 & A4 & A5). split; [done|]. split; [by apply Hsub|done].
  - intros f Hf. destruct (H4 f Hf) as (A1 & A2). split; [by apply Hsub|done].
Qed.

Lemma refused_wp f (Q : bool -> world D -> Prop) X w :
  srv_ok w -> f ∉ procfds w -> (forall w', srv_ok w' -> Q false w') ->
  wp (close_fd f ;; ret false) Q X
    (mkWorld (vars w) (writes w) (reads w) (accepts w) (clock w) (memory w) ({[f]} ∪ procfds w) (out w)).
Proof.
  intros (Ht & He & Hd) Hf HQ. apply (HQ (mkWorld _ _ _ _ _ _ _ _)). split; [|by split].
  eapply table_ok_mono; [exact Ht|]. intros g Hg. cbn [procfds].
  rewrite elem_of_difference, elem_of_union, elem_of_singleton. split; [by right|]. by intros ->.
Qed.

Lemma live_ok_closed R l i c (f : Connection -> Connection) :
  live_ok R l -> l !! i = Some c -> c_open c = false -> live_ok R (alter f i l).
Proof.
  intros [H1 H2] Hi Hc. split; [|done]. intros n Hn. destruct (H1 n Hn) as (j & d & Hj & Ho & Hk & E).
  exists j, d. rewrite list_lookup_alter_ne; [done|]. intros ->. congruence.
Qed.

Lemma do_accept_wp (Q : bool -> world D -> Prop) w :
  srv_ok w -> (forall r w', srv_ok w' -> Q r w') -> wp do_accept Q (fun _ _ => True) w.
Proof.
  intros Hs HQ. unfold wp, do_accept. destruct (accepts w) as [|a rs] eqn:E; [done|].
  pose proof Hs as (Ht & [Hr Ha] & R & U & Hd & Hok & Hl). rewrite E in Ha. apply Forall_cons_iff in Ha as [Ha Hrs].
  set (w1 := mkWorld (vars w) (writes w) (reads w) rs (clock w) (memory w) (procfds w) (out w)).
  assert (srv_ok w1) as Hs1 by (split; [done|]; split; [done|]; eauto 6).
  destruct a as [f peer sock junk|[|]]; [|done|by apply HQ].
  destruct (bool_decide (f ∈ procfds w)) eqn:Ef; [done|]. apply bool_decide_eq_false_1 in Ef.
  destruct Ha as (m & -> & Hlm & Hbm).
  pose proof (refused_wp f Q (fun _ _ => True) w1 Hs1 Ef (HQ false)) as Hno.
  set (w2 := mkWorld (vars w) (writes w) (reads w) rs (clock w) (memory w) ({[f]} ∪ procfds w) (out w)).
  change (wp (conn_open f peer sock (Some m)) Q (fun _ _ => True) w2).
  destruct (Z.leb_spec FD_SETSIZE f) as [Hbig|Hsmall].
  { unfold conn_open. replace (FD_SETSIZE <=? f) with true by lia. exact Hno. }
  destruct (first_slot (fun c => negb (c_open c)) (conn (vars w))) as [i|] eqn:Ei.
  - unfold wp. rewrite (conn_open_eq w2 f peer sock m i Hsmall Ei). apply HQ.
    set (c := opened_conn f peer sock m w2). split; [|split; [done|]].
    + apply (opened_table_ok (vars w) (procfds w) i c Ht Ei Ef); [done|]. split; [by exists m|]. split; [cbn; lia|]. left. cbn. lia.
    + exists R, U. split; [done|]. split; [done|]. apply first_slot_some in Ei as (s & Hi & Hc & _).
      apply negb_true_iff in Hc. by eapply live_ok_closed.
  - unfold conn_open. replace (FD_SETSIZE <=? f) with false by lia. apply wp_bind, wp_get.
    change (conn (vars w2)) with (conn (vars w)). rewrite Ei. exact Hno.
Qed.

Lemma accept_loop_wp ready ls (Q : bool -> world D -> Prop) w :
  srv_ok w -> (forall r w', srv_ok w' -> Q r w') -> wp (accept_loop ready ls) Q (fun _ _ => True) w.
Proof.
  revert w. induction ls as [|l ls IH]; intros w Hs HQ; cbn [accept_loop]; [by apply wp_ret, HQ|].
  destruct (bool_decide _); [|by apply IH]. apply wp_bind, do_accept_wp; [done|]. intros ok w1 Hs1.
  apply wp_bind, wp_get. destruct (_ && _); [by apply wp_ret, HQ|by apply IH].
Qed.

(** *** A round *)

Lemma slot_exists (v : EpmdVars D) fds i : table_ok v fds -> (i < Z.to_nat (max_conn v))%nat -> exists c, conn v !! i = Some c.
Proof.
  intros Ht Hi. apply lookup_lt_is_Some_2. pose proof (t_len _ _ Ht) as Hl. unfold zlen in Hl. lia.
Qed.

Lemma check_conn_wp ready now i (Q : unit -> world D -> Prop) w :
  srv_ok w -> (i < Z.to_nat (max_conn (vars w)))%nat -> (forall w', srv_ok w' -> Q tt w') ->
  wp (check_conn ready now i) Q (fun _ _ => True) w.
Proof.
  intros Hs Hi HQ. destruct (slot_exists _ _ i (proj1 Hs) Hi) as [c Hc]. apply wp_bind. eapply slot_wp; [exact Hc|].
  destruct (c_open c) eqn:Ho; [|by apply wp_ret, HQ]. destruct (bool_decide _); [by eapply do_read_wp|].
  apply wp_bind, wp_get. destruct (c_keep c) eqn:Hk; cbn [negb andb]; [by apply wp_ret, HQ|].
  destruct (_ <? now); [by eapply close_wp|by apply wp_ret, HQ].
Qed.

Lemma check_conns_wp ready now l (Q : unit -> world D -> Prop) w :
  srv_ok w -> Forall (fun i => (i < Z.to_nat (max_conn (vars w)))%nat) l -> (forall w', srv_ok w' -> Q tt w') ->
  wp (check_conns ready now l) Q (fun _ _ => True) w.
Proof.
  revert w. induction l as [|i l IH]; intros w Hs Hl HQ; cbn [check_conns]; [by apply wp_ret, HQ|].
  apply Forall_cons_iff in Hl as [Hi Hl]. apply wp_bind, wp_stable; [apply stable_check_conn|].
  apply check_conn_wp; [done|done|]. intros w1 Hs1 (_ & Em & _). apply IH; [done| |done]. by rewrite Em.
Qed.

Lemma select_round_wp r (Q : unit -> world D -> Prop) w :
  srv_ok w -> (forall w', srv_ok w' -> Q tt w') -> wp (select_round r) Q (fun _ _ => True) w.
Proof.
  intros Hs HQ. assert (forall ready, wp (again <- accept_loop ready (listenfd (vars w)) ;;
    if again : bool then ret tt else w <- get ;; check_conns ready (clock w) (seq 0 (Z.to_nat (max_conn (vars w))))) Q
    (fun _ _ => True) w) as Hr.
  { intros ready. apply wp_bind, accept_loop_wp; [done|]. intros [|] w1 Hs1; [by apply wp_ret, HQ|].
    apply wp_bind, wp_get, check_conns_wp; [done| |done]. apply List.Forall_forall. intros i Hi%in_seq. lia. }
  destruct r as [fds| |[|]]; cbn [select_round]; [apply wp_bind, wp_get; apply Hr..|by apply wp_ret, HQ|done].
Qed.

Lemma foldr_max_le l (ls : list Z) : In l ls -> l < foldr (fun f t => Z.max t (f + 1)) 0 ls.
Proof. induction ls as [|a ls IH]; [done|]. intros [->|Hin]; cbn [foldr]; [lia|]. specialize (IH Hin). lia. Qed.

Lemma start_ok w : srv_start w -> env_ok w -> srv_ok w.
Proof.
  intros [w' port debug brutal timeout max ls Ev Hls] He. split; [|split; [done|]]; rewrite Ev.
  - split; cbn [start_vars conn max_conn orig_read_mask select_fd_top listenfd active_conn].
    + unfold conn_init. by autorewrite with zlen.
    + intros i j c c' _ Hj _ Ho. unfold conn_init in Hj. apply lookup_replicate in Hj as [-> _]. done.
    + intros j c Hj Ho. unfold conn_init in Hj. apply lookup_replicate in Hj as [-> _]. done.
    + intros f Hf. split; [auto|]. rewrite elem_of_list_to_set, list_elem_of_In. split; [done|by apply foldr_max_le].
    + assert (open_count (conn_init max) = 0) as ->; [|lia]. unfold conn_init, open_count.
      clear. by induction max as [|max IH]; [|exact IH].
  - exists [], []. split; [exact db_init_ok|]. split; [exact db_ok_nil|]. split; [done|constructor].
Qed.

Lemma reachable_ok w : reachable w -> srv_ok w.
Proof.
  induction 1 as [w Hw He|w w' _ IH Hst]; [by apply start_ok|]. destruct Hst as [r w w' Hr|w ws rs acs now mem Hr Ha].
  - pose proof (select_round_wp r (fun _ => srv_ok) w IH (fun _ H => H)) as Hwp. unfold wp in Hwp. by rewrite Hr in Hwp.
  - destruct IH as (Ht & _ & Hd). by split.
Qed.

End Invariant.

(** ** Hanging up *)

Section Hangup.

Context {D : Type} `{NodeDbSpec D}.

Lemma on_fd_split R1 n R2 : NoDup (map fd (R1 ++ n :: R2)) -> split_first (on_fd (fd n)) (R1 ++ n :: R2) = Some (R1, n, R2).
Proof.
  rewrite map_app. cbn [map]. intros (_ & Hd & _)%list.NoDup_app. induction R1 as [|m R1 IH]; cbn [app split_first].
  - unfold on_fd. by rewrite Z.eqb_refl.
  - unfold on_fd at 1. destruct (Z.eqb_spec (fd m) (fd n)) as [E|].
    + exfalso. apply (Hd (fd m)); [by left|rewrite E; by left].
    + rewrite IH; [done|]. intros x Hx. apply Hd. by right.
Qed.

(** What [do_read] does on a kept connection, whatever [read] gives. *)
Lemma do_read_kept i c R1 n R2 U r rs (w : world D) :
  srv_ok w -> conn (vars w) !! i = Some c -> c_open c = true -> c_keep c = true ->
  db_rep (nodes (vars w)) (R1 ++ n :: R2) U -> NoDup (map fd (R1 ++ n :: R2)) -> fd n = c_fd c -> reads w = r :: rs ->
  exists w', do_read i w = Ret tt w' /\ db_rep (nodes (vars w')) (R1 ++ R2) (U ++ [n]) /\
    (exists c', conn (vars w') !! i = Some c' /\ c_open c' = false) /\ out w' = EvClose (c_fd c) :: out w.
Proof.
  intros Hs Hi Ho Hk Hr Hnd Hfd Er. pose proof (slot_conn_ok _ _ _ Hs Hi Ho) as ((m & Em & Hlm & _) & _).
  assert (forall w1 c1, conn (vars w1) !! i = Some c1 -> c_fd c1 = c_fd c -> c_buf c1 <> BufFreed ->
    nodes (vars w1) = nodes (vars w) -> out w1 = out w ->
    exists w', (unreg_socket (c_fd c) ;; epmd_conn_close i) w1 = Ret tt w' /\
      db_rep (nodes (vars w')) (R1 ++ R2) (U ++ [n]) /\
      (exists c', conn (vars w') !! i = Some c' /\ c_open c' = false) /\ out w' = EvClose (c_fd c) :: out w) as Hfin.
  { intros w1 c1 Hi1 Hf1 Hb1 En Eo.
    destruct (db_unreg_sock_ok (nodes (vars w1)) (R1 ++ n :: R2) U (c_fd c)) as (d & Eu & Hd); [by rewrite En|].
    rewrite <- Hfd in Eu, Hd |- *. unfold unreg_spec in Eu, Hd. rewrite (on_fd_split _ _ _ Hnd) in Eu, Hd. cbn [fst snd] in Eu, Hd.
    exists (closed_world i c1 (set_vars (set_nodes d (vars w1)) w1)). split; [|split; [exact Hd|split]].
    - unfold unreg_socket, bind, get, lift. rewrite Eu. exact (epmd_conn_close_eq (set_vars (set_nodes d (vars w1)) w1) i c1 Hi1 Hb1).
    - exists (closed_conn c1). cbn. by rewrite list_lookup_alter_eq, Hi1.
    - cbn. by rewrite Eo, Hf1, Hfd. }
  unfold do_read, the_conn. unfold bind at 1, bind at 1, get, lift. rewrite Hi. cbn [ret]. rewrite Ho, Hk. cbn [negb].
  unfold bind at 1, sys_read. rewrite Er. destruct r as [bs|]; [|by apply (Hfin _ c); cbn; congruence].
  destruct (take (Z.to_nat INBUF_SIZE) bs) as [|b l] eqn:Et; [by apply (Hfin _ c); cbn; congruence|].
  destruct (store_some m 0 (b :: l)) as [m' Es]; [lia| |].
  { rewrite <- Et, Hlm. unfold zlen. rewrite length_take. unfold INBUF_SIZE, MAXSYMLEN. lia. }
  unfold buf_of. rewrite Em. unfold bind at 1, ret. unfold bind at 1, lift. rewrite Es. unfold ret. unfold bind at 1, upd_conn, modify.
  apply (Hfin _ (set_buf m' c)); [cbn; by rewrite list_lookup_alter_eq, Hi|done|done|done|done].
Qed.

End Hangup.

(** ** Properties *)

(** C1: In every reachable state of the server, whatever its peers send and
    whatever the system calls return (memory for connection buffers given), no
    round of the loop accesses memory it may not access; the registry's two
    linked lists are intact and its names distinct; and every registered node
    has exactly one open connection, which is a kept one and is watched by
    [select], so that the end of the node will be noticed. *)
Theorem server_invariant (w : world Nodes) :
  reachable w ->
  (forall r, select_round r w <> Crash) /\
  exists R U, holds_lists (nodes (vars w)) R U /\ db_ok R U /\
    forall n, In n R -> exists i c,
      conn (vars w) !! i = Some c /\ c_open c = true /\ c_keep c = true /\ c_fd c = fd n /\
      fd n ∈ orig_read_mask (vars w) /\ fd n < select_fd_top (vars w) /\
      (forall j c', conn (vars w) !! j = Some c' -> c_open c' = true -> c_fd c' = fd n -> j = i) /\
      (forall n', In n' R -> fd n' = fd n -> n' = n).
Proof.
  intros Hr. pose proof (reachable_ok w Hr) as Hs. split.
  - intros r E. pose proof (select_round_wp r (fun _ _ => True) w Hs (fun _ _ => I)) as Hwp. unfold wp in Hwp.
    by rewrite E in Hwp.
  - destruct Hs as (Ht & _ & R & U & Hd & Hok & Hl). exists R, U. split; [exact Hd|]. split; [done|]. intros n Hn.
    destruct (live_conn _ _ Hl n Hn) as (i & c & Hi & Ho & Hk & E). exists i, c.
    destruct (t_open _ _ Ht _ _ Hi Ho) as (_ & _ & Hm & Htop & _). rewrite E in Hm, Htop. repeat split; try done.
    + intros j c' Hj Ho' E'. eapply (table_fd_inj (vars w) (procfds w) j i); eauto. congruence.
    + intros n' Hn' Efd. pose proof (live_nodup _ _ Hl) as Hnd. apply in_split in Hn' as (R1 & R2 & ->).
      rewrite map_app in Hnd. cbn [map] in Hnd. rewrite <- Permutation_middle in Hnd.
      apply list.NoDup_cons in Hnd as [Hnd _]. rewrite Efd, <- map_app, list_elem_of_In in Hnd.
      apply in_app_iff in Hn as [Hn|[->|Hn]]; [|done|]; destruct Hnd; apply (in_map fd), in_app_iff; auto.
Qed.

(** *** A server on which one node has registered *)

Definition outside (ws : list wres) (rs : list rres) (acs : list ares) (w : world Nodes) : world Nodes :=
  mkWorld (vars w) ws rs acs (clock w) (memory w) (procfds w) (out w).
Definition after (r : sres) (w : world Nodes) : world Nodes :=
  match select_round r w with Ret _ w' => w' | _ => w end.

Definition loopback : option sockaddr :=
  Some {| ss_family := AF_INET; sin_addr := 0x7F000001; sin6_addr := [] |}.
Definition remote : option sockaddr :=
  Some {| ss_family := AF_INET; sin_addr := 0x0A000001; sin6_addr := [] |}.
Definition blank : mem := repeat 0 3060.

(** Name "a", port 4000, versions 6 and 5. *)
Definition alive2_packet : list Z := [0; 14; 120; 15; 160; 77; 0; 0; 6; 0; 5; 0; 1; 97; 0; 0].

Definition sample_w0 : world Nodes :=
  mkWorld (start_vars 4369 false true 60 4 [3]) [] [] [AFd 5 loopback loopback (Some blank)] 100 true {[3]} [].
Definition sample_w1 : world Nodes := after (SReady {[3]}) sample_w0.
Definition sample_w2 : world Nodes := outside [WVal 2; WEintr; WVal 4] [RData alive2_packet] [] sample_w1.
Definition sample_w3 : world Nodes := after (SReady {[5]}) sample_w2.

Lemma bytes_ok_dec l : forallb (fun b => (0 <=? b) && (b <? 256)) l = true -> bytes_ok l.
Proof.
  intros Hl. apply List.Forall_forall. intros b Hb. rewrite forallb_forall in Hl. specialize (Hl b Hb). unfold byte_ok. lia.
Qed.

Lemma sample_accept_ok f peer sock : ares_ok (AFd f peer sock (Some blank)).
Proof. exists blank. split; [done|]. split; [vm_compute; reflexivity|]. apply bytes_ok_dec. vm_compute. reflexivity. Qed.

Lemma sample_w1_reachable : reachable sample_w1.
Proof.
  eapply ReachStep; [apply (ReachStart sample_w0)|apply (StepRound (SReady {[3]}))].
  - eapply Start; [reflexivity|]. intros l [<-|[]]. set_solver.
  - split; [constructor|]. apply List.Forall_cons; [apply sample_accept_ok|constructor].
  - vm_compute. reflexivity.
Qed.

Lemma sample_w2_reachable : reachable sample_w2.
Proof.
  eapply ReachStep; [exact sample_w1_reachable|]. apply StepOutside; [|constructor].
  apply List.Forall_cons; [|constructor]. apply bytes_ok_dec. vm_compute. reflexivity.
Qed.

Lemma sample_w3_reachable : reachable sample_w3.
Proof.
  eapply ReachStep; [exact sample_w2_reachable|]. apply (StepRound (SReady {[5]})). vm_compute. reflexivity.
Qed.

Lemma server_invariant_witness :
  (forall r, select_round r sample_w3 <> Crash) /\
  (db_reg_list (nodes (vars sample_w3)) = Some [{| fd := 5; port := 4000; symname := [97]; cr_counter := 101;
     nodetype := 77; protocol := 0; highvsn := 6; lowvsn := 5; extralen := 0; extra := [] |}] /\
   out sample_w3 = [EvWrite 5 [118; 0; 0; 0; 0; 101]]).
Proof.
  split; [|split; vm_compute; reflexivity]. apply (server_invariant sample_w3). exact sample_w3_reachable.
Defined.

(** C38: When a node's connection becomes readable, be it because the node closed
    it, because of an error or because it sent something more, epmd unregisters
    that node and no other, puts its name last in the queue of used names, and
    closes the connection. *)
Theorem node_down_unregisters (w : world Nodes) R1 n R2 U r rs :
  reachable w -> holds_lists (nodes (vars w)) (R1 ++ n :: R2) U -> reads w = r :: rs ->
  exists i w', do_read i w = Ret tt w' /\ holds_lists (nodes (vars w')) (R1 ++ R2) (U ++ [n]) /\
    (exists c', conn (vars w') !! i = Some c' /\ c_open c' = false) /\ out w' = EvClose (fd n) :: out w.
Proof.
  intros Hr Hl Er. pose proof (reachable_ok w Hr) as Hs. pose proof Hs as (Ht & _ & R & U0 & Hd & Hok & Hlive).
  assert (R = R1 ++ n :: R2) as ->.
  { pose proof (db_reg_list_ok _ _ _ Hd) as E1. change (db_rep (nodes (vars w)) (R1 ++ n :: R2) U) in Hl.
    pose proof (db_reg_list_ok _ _ _ Hl) as E2. congruence. }
  destruct (live_conn _ _ Hlive n) as (i & c & Hi & Ho & Hk & E); [apply in_or_app; right; by left|].
  exists i. rewrite <- E. change (holds_lists ?g) with (db_rep g).
  by eapply (do_read_kept i c R1 n R2 U r rs w); [..|exact (live_nodup _ _ Hlive)| |].
Qed.

Definition sample_node : enode :=
  {| fd := 5; port := 4000; symname := [97]; cr_counter := 101; nodetype := 77; protocol := 0; highvsn := 6;
     lowvsn := 5; extralen := 0; extra := [] |}.
Definition sample_w4 : world Nodes := outside [] [RData []] [] sample_w3.

Lemma sample_w4_reachable : reachable sample_w4.
Proof.
  eapply ReachStep; [exact sample_w3_reachable|]. apply StepOutside; [|constructor].
  apply List.Forall_cons; [constructor|constructor].
Qed.

Lemma reachable_lists (w : world Nodes) R U :
  reachable w -> db_reg_list (nodes (vars w)) = Some R -> db_unreg_list (nodes (vars w)) = Some U ->
  holds_lists (nodes (vars w)) R U.
Proof.
  intros Hr E1 E2. pose proof (reachable_ok w Hr) as (_ & _ & R' & U' & Hd & _ & _).
  rewrite (db_reg_list_ok _ _ _ Hd) in E1. rewrite (db_unreg_list_ok _ _ _ Hd) in E2. simplify_eq. exact Hd.
Qed.

Lemma sample_w4_lists : holds_lists (nodes (vars sample_w4)) [sample_node] [].
Proof. apply reachable_lists; [exact sample_w4_reachable|vm_compute; reflexivity..]. Qed.

Lemma sample_w4_reads : reads sample_w4 = [RData []].
Proof. reflexivity. Qed.

Lemma node_down_unregisters_witness :
  exists i w', do_read i sample_w4 = Ret tt w' /\ holds_lists (nodes (vars w')) [] [sample_node] /\
    out w' = EvClose 5 :: out sample_w4.
Proof.
  destruct (node_down_unregisters sample_w4 [] sample_node [] [] (RData []) [] sample_w4_reachable
    sample_w4_lists sample_w4_reads) as (i & w' & E & Hl & _ & Ho).
  exists i, w'. split; [exact E|]. split; [exact Hl|exact Ho].
Defined.

(** ** Fragmentation *)

Lemma alter_insert (f : Connection -> Connection) (i : nat) c (l : list Connection) : alter f i (<[i:=c]> l) = <[i:=f c]> l.
Proof. revert i. induction l as [|d l IH]; intros [|i]; try done. change (d :: alter f i (<[i:=c]> l) = d :: <[i:=f c]> l). by rewrite IH. Qed.

Section Fragments.

Context {D : Type} `{NodeDb D}.

Fixpoint run_reads (i : nat) (k : nat) : M D unit :=
  match k with O => ret tt | S O => do_read i | S k => do_read i ;; run_reads i k end.

Definition with_reads (rs : list rres) (w : world D) : world D :=
  mkWorld (vars w) (writes w) rs (accepts w) (clock w) (memory w) (procfds w) (out w).

(** Connection [c] after the bytes [p] of a packet of [size] bytes. *)
Definition part_conn (c : Connection) (size : Z) (p : list Z) (m : mem) : Connection :=
  mkConn (c_fd c) true false (c_local_peer c) (zlen p) (if zlen p <? 2 then 0 else size) (BufLive m) (c_mod_time c).
Definition part_world (w : world D) (i : nat) (c : Connection) (size : Z) (p : list Z) (m : mem) (rs : list rres) : world D :=
  with_reads rs (set_vars (set_conn (<[i:=part_conn c size p m]> (conn (vars w))) (vars w)) w).

Lemma get_int16_at m s a b : holds m s [a; b] -> get_int16 m s = Some (Z.lor (Z.shiftl a 8) b).
Proof. intros Hh. unfold get_int16. apply holds_cons in Hh as [-> Hh]. by apply holds_cons in Hh as [-> _]. Qed.

Lemma do_read_part w i c a b body p bs q m m' rs :
  let pkt := a :: b :: body in
  (i < length (conn (vars w)))%nat ->
  0 <= a < 256 -> 0 <= b < 256 -> a * 256 + b = zlen body -> 1 <= zlen body -> zlen pkt < INBUF_SIZE ->
  pkt = p ++ bs ++ q -> bs <> [] -> holds m 0 p -> store m (zlen p) bs = Some m' -> holds m' 0 (p ++ bs) ->
  do_read i (part_world w i c (zlen pkt) p m (RData bs :: rs))
  = do_packet i (part_world w i c (zlen pkt) (p ++ bs) m' rs).
Proof.
  intros pkt Hi Ha Hb Hlen H1 Hsz Epkt Hne Hm Hst Hm'.
  assert (zlen pkt = zlen p + zlen bs + zlen q) as Hz by (rewrite Epkt; zlen_lia).
  assert (1 <= zlen bs) as Hbs by (destruct bs; [done|zlen_lia]).
  pose proof (zlen_nonneg p) as Hp. pose proof (zlen_nonneg q) as Hq.
  set (w1 := part_world w i c (zlen pkt) p m (RData bs :: rs)). unfold do_read. unfold bind at 1.
  assert (the_conn i w1 = Ret (part_conn c (zlen pkt) p m) w1) as ->.
  { unfold the_conn, bind, get, lift. cbn [w1 part_world with_reads set_vars vars set_conn conn].
    by rewrite list_lookup_insert_eq by done. }
  subst w1. cbn [part_conn c_open c_keep negb c_want c_got]. cbv zeta. unfold bind at 1, sys_read. cbn [part_world with_reads reads].
  rewrite take_ge; [|unfold zlen, INBUF_SIZE, MAXSYMLEN in *; destruct (Z.ltb_spec (Z.of_nat (length p)) 2); cbn [Z.eqb];
    destruct (Z.eqb_spec (Z.of_nat (length pkt)) 0); lia].
  destruct bs as [|b0 bs]; [done|]. unfold buf_of. cbn [part_conn c_buf]. unfold bind at 1, ret. unfold bind at 1, lift. rewrite Hst.
  unfold ret. unfold bind at 1, upd_conn, modify. cbn [vars set_vars set_conn conn part_world with_reads]. rewrite alter_insert.
  replace (zlen p + zlen (b0 :: bs)) with (zlen (p ++ b0 :: bs)) by zlen_lia. set (p' := p ++ b0 :: bs) in *.
  destruct (Z.ltb_spec (zlen p) 2) as [Hp2|Hp2]; cbn [Z.eqb andb].
  - change (0 =? 0) with true. cbn [andb]. destruct (Z.leb_spec 2 (zlen p')) as [H2|H2].
    + unfold bind at 1, lift. rewrite (get_int16_at m' 0 a b).
      2:{ apply (holds_app _ _ [a; b] (drop 2 p')). replace ([a; b] ++ drop 2 p') with p'; [exact Hm'|].
          destruct p' as [|x [|y p'']] eqn:Ep; [exfalso; zlen_lia..|]. cbn. subst p'. rewrite app_assoc, Ep in Epkt.
          by injection Epkt as <- <- _. }
      unfold ret. rewrite lor_shiftl_add by lia. unfold bind at 1, modify. cbn [vars set_vars set_conn conn].
      rewrite alter_insert. change (2 ^ 8) with 256. rewrite Hlen.
      replace (zlen body + 2) with (zlen pkt) by (subst pkt; zlen_lia).
      assert (zlen pkt = zlen body + 2) by (subst pkt; zlen_lia).
      replace ((zlen pkt <? 3) || (INBUF_SIZE <=? zlen pkt)) with false by lia.
      assert (zlen p' <= zlen pkt) by (subst p'; zlen_lia).
      replace (zlen pkt <? zlen p') with false by lia.
      unfold part_world, with_reads, set_vars, set_conn, part_conn. cbn.
      by replace (zlen p' <? 2) with false by lia.
    + unfold part_world, with_reads, set_vars, set_conn, part_conn, set_got. cbn.
      replace (zlen p <? 2) with true by lia. by replace (zlen p' <? 2) with true by lia.
  - replace (zlen pkt =? 0) with false by lia. cbn [andb].
    assert (2 <= zlen p') by (subst p'; zlen_lia).
    unfold part_world, with_reads, set_vars, set_conn, part_conn, set_got. cbn.
    replace (zlen p <? 2) with false by lia. by replace (zlen p' <? 2) with false by lia.
Qed.

(** A packet that is not complete is waited for. *)
Lemma do_packet_part w i c size p m rs :
  (i < length (conn (vars w)))%nat -> 1 <= zlen p < size -> do_packet i (part_world w i c size p m rs) = Ret tt (part_world w i c size p m rs).
Proof.
  intros Hi Hp. unfold do_packet, the_conn, bind at 1, bind at 1, get, lift.
  cbn [part_world with_reads set_vars vars set_conn conn]. rewrite list_lookup_insert_eq by done. unfold ret.
  cbn [part_conn c_want c_got]. destruct (Z.ltb_spec (zlen p) 2); by replace (_ =? zlen p) with false by lia.
Qed.

Lemma run_reads_part w i c a b body chunks : forall p m0 m,
  let pkt := a :: b :: body in
  (i < length (conn (vars w)))%nat ->
  0 <= a < 256 -> 0 <= b < 256 -> a * 256 + b = zlen body -> 1 <= zlen body -> zlen pkt < INBUF_SIZE ->
  zlen m0 = INBUF_SIZE -> store m0 0 p = Some m -> pkt = p ++ concat chunks -> Forall (fun l => l <> []) chunks -> chunks <> [] ->
  exists m', store m0 0 pkt = Some m' /\
  run_reads i (length chunks) (part_world w i c (zlen pkt) p m (map RData chunks))
  = do_packet i (part_world w i c (zlen pkt) pkt m' []).
Proof.
  induction chunks as [|bs chunks IH]; intros p m0 m pkt Hi Ha Hb Hlen H1 Hsz Hm0 Hst Epkt Hne Hcs; [done|].
  apply Forall_cons_iff in Hne as [Hbs Hne]. cbn [concat] in Epkt.
  assert (zlen pkt = zlen p + zlen bs + zlen (concat chunks)) as Hz by (rewrite Epkt; zlen_lia).
  pose proof (zlen_nonneg p). pose proof (zlen_nonneg (concat chunks)).
  destruct (store_some m0 0 (p ++ bs)) as [m1 Hst1]; [lia|zlen_lia|].
  assert (store m (zlen p) bs = Some m1) as Hst2 by (pose proof (store_seq m0 0 p bs) as E; rewrite Hst, Hst1 in E; exact E).
  pose proof (do_read_part w i c a b body p bs (concat chunks) m m1 (map RData chunks) Hi Ha Hb Hlen H1 Hsz Epkt Hbs
    (store_holds _ _ _ _ Hst) Hst2 (store_holds _ _ _ _ Hst1)) as Hr. fold pkt in Hr.
  destruct chunks as [|bs2 chunks].
  - exists m1. cbn [concat] in Epkt. rewrite app_nil_r in Epkt. cbn [map length run_reads] in *. rewrite Epkt at 1. split; [done|].
    rewrite Hr, <- Epkt. done.
  - destruct (IH (p ++ bs) m0 m1 Hi Ha Hb Hlen H1 Hsz Hm0 Hst1) as (m' & Hm' & Erun); [by rewrite <- app_assoc|done|done|].
    exists m'. split; [done|]. cbn [length]. change (run_reads i (S (S (length chunks)))) with (do_read i ;; run_reads i (S (length chunks))).
    unfold bind. cbn [map] in *. rewrite Hr, do_packet_part; [exact Erun|done|]. fold pkt.
    assert (1 <= zlen bs) by (destruct bs; [done|zlen_lia]).
    apply Forall_cons_iff in Hne as [Hbs2 _]. assert (1 <= zlen bs2) by (destruct bs2; [done|zlen_lia]).
    cbn [concat] in *. zlen_lia.
Qed.

(** A connection from which nothing has been read yet. *)
Definition fresh (w : world D) (i : nat) (c : Connection) (m0 : mem) : Prop :=
  conn (vars w) !! i = Some c /\ c_open c = true /\ c_keep c = false /\ c_got c = 0 /\ c_want c = 0 /\
  c_buf c = BufLive m0 /\ zlen m0 = INBUF_SIZE.

Lemma fresh_part w i c m0 size rs : fresh w i c m0 -> with_reads rs w = part_world w i c size [] m0 rs.
Proof.
  intros (Hi & Ho & Hk & Hg & Hw & Hb & _). unfold part_world. f_equal. assert (part_conn c size [] m0 = c) as ->.
  { unfold part_conn. change (zlen [] <? 2) with true. destruct c. cbn in *. subst. done. }
  rewrite list_insert_id by done. destruct w as [v]. by destruct v.
Qed.

(** A whole packet at once. *)
Lemma do_read_whole w i c m0 a b body :
  let pkt := a :: b :: body in
  fresh w i c m0 -> 0 <= a < 256 -> 0 <= b < 256 -> a * 256 + b = zlen body -> 1 <= zlen body -> zlen pkt < INBUF_SIZE ->
  exists m, store m0 0 pkt = Some m /\
    do_read i (with_reads [RData pkt] w) = do_packet i (part_world w i c (zlen pkt) pkt m []).
Proof.
  intros pkt Hf Ha Hb Hlen H1 Hsz. rewrite (fresh_part w i c m0 (zlen pkt) _ Hf). destruct Hf as (Hi & _ & _ & _ & _ & _ & Hm0).
  apply (run_reads_part w i c a b body [pkt] [] m0 m0); try done.
  - by eapply lookup_lt_Some.
  - apply store_nil. zlen_lia.
  - cbn. by rewrite app_nil_r.
  - by repeat constructor.
Qed.

End Fragments.

(** C37: How the bytes of a request are split over the calls of [read] makes no
    difference: reading a packet in any number of non-empty pieces ends in the
    same state, with the same answer sent, as reading it at once. *)
Theorem fragmentation_irrelevant (w : world Nodes) i c m0 a b body chunks :
  fresh w i c m0 ->
  0 <= a < 256 -> 0 <= b < 256 -> a * 256 + b = zlen body -> 1 <= zlen body -> zlen body + 2 < INBUF_SIZE ->
  concat chunks = a :: b :: body -> Forall (fun l => l <> []) chunks ->
  run_reads i (length chunks) (with_reads (map RData chunks) w) = do_read i (with_reads [RData (a :: b :: body)] w).
Proof.
  intros Hf Ha Hb Hlen H1 Hsz Hc Hne.
  assert (zlen (a :: b :: body) < INBUF_SIZE) as Hsz' by zlen_lia.
  destruct (do_read_whole w i c m0 a b body Hf Ha Hb Hlen H1 Hsz') as (m2 & S2 & R2).
  pose proof Hf as (Hi & _ & _ & _ & _ & _ & Hm0).
  destruct (run_reads_part w i c a b body chunks [] m0 m0) as (m1 & S1 & R1); try done;
    [by eapply lookup_lt_Some|apply store_nil; zlen_lia|by intros ->|].
  rewrite R2, (fresh_part w i c m0 (zlen (a :: b :: body)) _ Hf), R1. congruence.
Qed.

Lemma fragmentation_irrelevant_witness :
  run_reads 0 3 (with_reads [RData [0]; RData [14; 120; 15; 160]; RData [77; 0; 0; 6; 0; 5; 0; 1; 97; 0; 0]] sample_w2)
  = do_read 0 (with_reads [RData alive2_packet] sample_w2) /\
  (exists w', do_read 0 (with_reads [RData alive2_packet] sample_w2) = Ret tt w' /\
    out w' = [EvWrite 5 [118; 0; 0; 0; 0; 101]]).
Proof.
  split.
  - destruct (conn (vars sample_w2) !! 0%nat) as [c|] eqn:Hc; [|vm_compute in Hc; discriminate].
    assert (c = mkConn 5 true false true 0 0 (BufLive blank) 100) as ->.
    { vm_compute in Hc. injection Hc as <-. vm_compute. reflexivity. }
    apply (fragmentation_irrelevant sample_w2 0 (mkConn 5 true false true 0 0 (BufLive blank) 100) blank 0 14 [120; 15; 160; 77; 0; 0; 6; 0; 5; 0; 1; 97; 0; 0]
      [[0]; [14; 120; 15; 160]; [77; 0; 0; 6; 0; 5; 0; 1; 97; 0; 0]]); try reflexivity; try (vm_compute; split; congruence);
      try (vm_compute; congruence); [|repeat constructor; discriminate].
    repeat split.
  - eexists. split; vm_compute; reflexivity.
Defined.

(** ** Peers that are not local *)

Section Readonly.

Context {D : Type} `{NodeDb D}.

(** Changes no variable and does not end the process. *)
Definition ReadOnly {A} (m : M D A) : Prop :=
  forall w, match m w with Ret _ w' => vars w' = vars w | Exit _ _ => False | _ => True end.

Lemma ro_ret {A} (a : A) : ReadOnly (ret a).
Proof. by intros w. Qed.
Lemma ro_crash {A} : ReadOnly (crash (A := A)).
Proof. by intros w. Qed.
Lemma ro_get : ReadOnly get.
Proof. by intros w. Qed.
Lemma ro_lift {A} (o : option A) : ReadOnly (lift o).
Proof. destruct o; by intros w. Qed.
Lemma ro_reply f b : ReadOnly (reply f b).
Proof. intros w. unfold reply. by destruct (reply_loop _ _) as [[[? ?] ?]|]. Qed.
Lemma ro_bind {A B} (m : M D A) (k : A -> M D B) : ReadOnly m -> (forall a, ReadOnly (k a)) -> ReadOnly (bind m k).
Proof.
  intros Hm Hk w. unfold bind. specialize (Hm w). destruct (m w) as [a w'| | |]; try done.
  specialize (Hk a w'). destruct (k a w'); try done. congruence.
Qed.

Create HintDb readonly.
#[local] Hint Resolve ro_ret ro_crash ro_get ro_lift ro_reply : readonly.
Ltac readonly :=
  repeat (cbv zeta; first
    [ solve [eauto with readonly]
    | apply ro_bind; [|intros ?]
    | match goal with |- ReadOnly (match ?x with _ => _ end) => destruct x end ]).

Lemma ro_node_list : ReadOnly node_list.
Proof. unfold node_list. readonly. Qed.
#[local] Hint Resolve ro_node_list : readonly.
Lemma ro_port2_loop f nm l : ReadOnly (port2_loop f nm l).
Proof. induction l; cbn [port2_loop]; unfold port2_resp, w_bytes, w_copy_str; readonly. Qed.
Lemma ro_names f l : ReadOnly (send_lines f names_line l).
Proof. induction l; cbn [send_lines]; unfold names_line, w_copy_str, w_snprintf; readonly. Qed.
#[local] Hint Resolve ro_port2_loop ro_names : readonly.

Lemma ro_do_port2 f m p bsize : ReadOnly (do_port2 f m p bsize).
Proof. unfold do_port2. readonly. Qed.
Lemma ro_do_names f : ReadOnly (do_names f).
Proof. unfold do_names. readonly. Qed.

End Readonly.

(** C39: A peer that is not on this host can only look up: whatever the request
    it sends, the registry, the connections (the request's own buffer apart) and
    the other variables stay as they are, and the server is not ended. *)
Theorem nonlocal_peer_readonly (w : world Nodes) i c f bsize :
  conn (vars w) !! i = Some c -> c_local_peer c = false ->
  match do_request i f 2 bsize w with
  | Ret _ w' => exists m, vars w' = set_conn (alter (set_buf m) i (conn (vars w))) (vars w)
  | Exit _ _ => False
  | _ => True
  end.
Proof.
  intros Hi Hloc. unfold do_request, the_conn. unfold bind at 1, bind at 1, get, lift. rewrite Hi. cbn [ret].
  destruct (c_buf c) as [|m0|]; [done| |done]. unfold bind at 1. destruct (store m0 (2 + bsize) [0]) as [m|]; [|done]. cbn [ret].
  unfold bind at 1, upd_conn, modify. unfold bind at 1. destruct (mem_get m 2) as [b|]; [|done]. cbn [ret].
  set (v := set_conn (alter (set_buf m) i (conn (vars w))) (vars w)). set (w1 := set_vars v w).
  assert (forall k : M Nodes unit, ReadOnly k ->
    match k w1 with Ret _ w' => exists m, vars w' = set_conn (alter (set_buf m) i (conn (vars w))) (vars w)
    | Exit _ _ => False | _ => True end) as Hro.
  { intros k Hk. specialize (Hk w1). destruct (k w1); try done. by exists m. }
  assert (conn (vars w1) !! i = Some (set_buf m c)) as Hi1 by (cbn; by rewrite list_lookup_alter_eq, Hi).
  assert (forall k : Connection -> M Nodes unit, ReadOnly (k (set_buf m c)) ->
    match bind (the_conn i) k w1 with Ret _ w' => exists m, vars w' = set_conn (alter (set_buf m) i (conn (vars w))) (vars w)
    | Exit _ _ => False | _ => True end) as Hrc.
  { intros k Hk. unfold bind, the_conn, bind, get, lift. rewrite Hi1. cbn [ret]. by apply Hro. }
  destruct (b =? EPMD_ALIVE2_REQ); [apply Hrc; cbn [c_local_peer set_buf]; rewrite Hloc; apply ro_ret|].
  destruct (b =? EPMD_PORT2_REQ); [apply Hro, ro_do_port2|].
  destruct (b =? EPMD_NAMES_REQ); [apply Hro, ro_do_names|].
  destruct (b =? EPMD_DUMP_REQ); [apply Hrc; cbn [c_local_peer set_buf]; rewrite Hloc; apply ro_ret|].
  destruct (b =? EPMD_KILL_REQ); [apply Hrc; cbn [c_local_peer set_buf]; rewrite Hloc; apply ro_ret|].
  destruct (b =? EPMD_STOP_REQ); [apply Hrc; cbn [c_local_peer set_buf]; rewrite Hloc; apply ro_ret|].
  by apply Hro, ro_ret.
Qed.

(** A remote peer has sent KILL_REQ. *)
Definition sample_remote : world Nodes :=
  set_vars (set_conn [mkConn 6 true false (conn_local_peer_check remote loopback) 3 3 (BufLive ([0; 1; 107] ++ repeat 0 3057)) 100]
              (vars sample_w3)) sample_w3.

Lemma nonlocal_peer_readonly_witness :
  (exists m, match do_request 0 6 2 1 sample_remote with
   | Ret _ w' => vars w' = set_conn (alter (set_buf m) 0%nat (conn (vars sample_remote))) (vars sample_remote)
   | _ => False
   end) /\ length (conn (vars sample_remote)) = 1%nat.
Proof.
  split; [|vm_compute; reflexivity].
  pose proof (nonlocal_peer_readonly sample_remote 0 _ 6 1 eq_refl eq_refl) as Hr.
  destruct (do_request 0 6 2 1 sample_remote) as [u w'|code w'| |] eqn:E;
    [|destruct Hr|vm_compute in E; discriminate|vm_compute in E; discriminate].
  destruct Hr as [m Hr]. exists m. exact Hr.
Defined.
