(* ===== verification/EpmdClient.v ===== *)
(** * The epmd client of [erl_interface]: [epmd_publish.c], [epmd_port.c],
    [epmd_unpublish.c]

    The client's requests and its reading of the answers, and the protocol as a
    whole: a node published through the client is registered by the server, and
    whoever looks it up through the client gets its port. *)
From stdpp Require Import gmap.
From S2P Require Import Prelude PutGet EiPort EpmdStr EpmdNode EpmdConn EpmdReq EpmdSrv.
From Stdlib Require String.
Import String.StringSyntax.

Definition EPMDBUF : Z := 512.
Definition EI_DIST_HIGH : Z := 6.
Definition EI_DIST_LOW : Z := 6.
Definition EI_MYPROTO : Z := 0.
Definition EI_EPMD_ALIVE2_REQ : Z := 120.
Definition EI_EPMD_ALIVE2_RESP : Z := 121.
Definition EI_EPMD_ALIVE2_X_RESP : Z := 118.
Definition EI_EPMD_PORT2_REQ : Z := 122.
Definition EI_EPMD_PORT2_RESP : Z := 119.
Definition EI_EPMD_STOP_REQ : Z := 115.

(** ** The requests

    What [ei_epmd_connect_tmo] returns, the results of the transfers, and the
    contents of the local buffer. *)
Record cenv := { ce_fd : Z; ce_writes : list cwrite; ce_reads : list cread; ce_buf : mem }.

(** The result: the value returned, the value decoded for the caller or the
    trace, the bytes sent.  [None]: an access outside of the buffer, or a
    transfer that has not ended. *)
Definition cres : Type := option (Z * option Z * list Z).

Definition publish_buf (m : mem) (port : Z) (alive : list Z) : option mem :=
  '(m, s) ← put16be m 0 (zlen alive + 13);
  '(m, s) ← put8 m s EI_EPMD_ALIVE2_REQ;
  '(m, s) ← put16be m s port;
  '(m, s) ← put8 m s 104;
  '(m, s) ← put8 m s EI_MYPROTO;
  '(m, s) ← put16be m s EI_DIST_HIGH;
  '(m, s) ← put16be m s EI_DIST_LOW;
  '(m, s) ← put16be m s (zlen alive);
  m ← store m s (alive ++ [0]);
  '(m, s) ← put16be m (s + zlen alive) 0;
  Some m.

(** The 4 bytes that were read, in the buffer [m]. *)
Definition publish_resp (m : mem) (fd : Z) : option (Z * option Z) :=
  '(response, s) ← get8 m 0;
  if negb (response =? EI_EPMD_ALIVE2_RESP) && negb (response =? EI_EPMD_ALIVE2_X_RESP) then Some (-1, None)
  else
    '(res, s) ← get8 m s;
    if negb (res =? 0) then Some (-1, None)
    else
      '(creation, s) ← (if response =? EI_EPMD_ALIVE2_RESP then get16be m s else get32be m s);
      Some (fd, Some (wrapu 32 creation)).

Definition ei_epmd_r4_publish (e : cenv) (port : Z) (alive : list Z) : cres :=
  let len := zlen alive + 13 in
  if EPMDBUF - 2 <? len then Some (-1, None, [])
  else
    m ← publish_buf (ce_buf e) port alive;
    if ce_fd e <? 0 then Some (ce_fd e, None, [])
    else
      req ← slice m 0 (len + 2);
      '(err, sent, _) ← ei_write_fill (ce_writes e) req;
      if negb (err =? 0) then Some (-1, None, sent)
      else
        '(err, got, _) ← ei_read_fill (ce_reads e) 4;
        if negb (err =? 0) || negb (zlen got =? 4) then Some (-2, None, sent)
        else
          m ← store m 0 got;
          '(r, creation) ← publish_resp m (ce_fd e);
          Some (r, creation, sent).

Definition port2_buf (m : mem) (alive : list Z) : option mem :=
  '(m, s) ← put16be m 0 (zlen alive + 1);
  '(m, s) ← put8 m s EI_EPMD_PORT2_REQ;
  store m s (alive ++ [0]).

(** The port and [*dist] from the last 8 bytes. *)
Definition port2_data (m : mem) : option (Z * option Z) :=
  '(port, s) ← get16be m 0;
  '(ntype, s) ← get8 m s;
  '(proto, s) ← get8 m s;
  '(dist_high, s) ← get16be m s;
  '(dist_low, s) ← get16be m s;
  if negb (EI_MYPROTO =? proto) then Some (-1, None)
  else if (EI_DIST_HIGH <? dist_low) || (dist_high <? EI_DIST_LOW) then Some (-1, None)
  else Some (port, Some (if EI_DIST_HIGH <? dist_high then EI_DIST_HIGH else dist_high)).

(** A short read of the first 2 bytes is not treated as an error: only
    [erl_errno] is set. *)
Definition ei_epmd_r4_port (e : cenv) (alive : list Z) : cres :=
  let len := zlen alive + 1 in
  if EPMDBUF - 3 <? len then Some (-1, None, [])
  else
    m ← port2_buf (ce_buf e) alive;
    if ce_fd e <? 0 then Some (-1, None, [])
    else
      req ← slice m 0 (len + 2);
      '(err, sent, _) ← ei_write_fill (ce_writes e) req;
      if negb (err =? 0) then Some (-1, None, sent)
      else
        '(err, got, rs) ← ei_read_fill (ce_reads e) 2;
        if negb (err =? 0) then Some (-2, None, sent)
        else
          m ← store m 0 got;
          '(res, s) ← get8 m 0;
          if negb (res =? EI_EPMD_PORT2_RESP) then Some (-1, None, sent)
          else
            '(res, s) ← get8 m s;
            if negb (res =? 0) then Some (-1, None, sent)
            else
              '(err, got, _) ← ei_read_fill rs 8;
              if negb (err =? 0) || negb (zlen got =? 8) then Some (-1, None, sent)
              else
                m ← store m 0 got;
                '(port, dist) ← port2_data m;
                Some (port, dist, sent).

Definition stop_buf (m : mem) (alive : list Z) : option mem :=
  '(m, s) ← put16be m 0 (1 + zlen alive);
  '(m, s) ← put8 m s EI_EPMD_STOP_REQ;
  store m s (alive ++ [0]).

(** Both other answers, NOEXIST and an unknown one, give -1. *)
Definition ei_unpublish_tmo (e : cenv) (alive : list Z) : cres :=
  let len := 1 + zlen alive in
  if EPMDBUF - 3 <? len then Some (-1, None, [])
  else
    m ← stop_buf (ce_buf e) alive;
    if ce_fd e <? 0 then Some (ce_fd e, None, [])
    else
      req ← slice m 0 (len + 2);
      '(err, sent, _) ← ei_write_fill (ce_writes e) req;
      if negb (err =? 0) then Some (-1, None, sent)
      else
        '(err, got, _) ← ei_read_fill (ce_reads e) 7;
        if negb (err =? 0) then Some (-1, None, sent)
        else
          m ← store m 0 got;
          m ← store m 7 [0];
          same ← is_same_str (str "STOPPED"%string ++ [0]) m;
          Some (if same : bool then 0 else -1, None, sent).

(** ** What the client sends *)

Definition alive2_req (port : Z) (alive : list Z) : list Z :=
  put_int16 (zlen alive + 13) ++ [EPMD_ALIVE2_REQ] ++ put_int16 port ++ [104; EI_MYPROTO] ++ put_int16 EI_DIST_HIGH ++
  put_int16 EI_DIST_LOW ++ put_int16 (zlen alive) ++ alive ++ put_int16 0.

Definition port2_req (alive : list Z) : list Z := put_int16 (zlen alive + 1) ++ [EPMD_PORT2_REQ] ++ alive.

Lemma put_int16_be n : put_int16 n = be_bytes 2 n.
Proof. unfold put_int16, be_bytes, byte_at. by rewrite Z.shiftr_0_r. Qed.

(** Writing on after the bytes [l1]. *)
Lemma store_after m l1 l2 :
  holds m 0 l1 -> zlen l1 + zlen l2 <= zlen m ->
  exists m', store m (zlen l1) l2 = Some m' /\ holds m' 0 (l1 ++ l2) /\ zlen m' = zlen m.
Proof.
  intros (pre & post & -> & Hp) Hl. assert (pre = []) as -> by (destruct pre; [done|exfalso; zlen_lia]). cbn [app] in *.
  destruct (store_some (l1 ++ post) (zlen l1) l2) as [m' E]; [zlen_lia|done|]. exists m'. split; [done|].
  split; [|by apply (store_bounds _ _ _ _ E)]. unfold store in E. destruct (_ && _); [|done]. injection E as <-.
  unfold zlen. rewrite Nat2Z.id, take_app_length. exists [], (drop (length l1 + length l2) (l1 ++ post)).
  by rewrite <- app_assoc.
Qed.

Lemma put8_after m l n : holds m 0 l -> zlen l + 1 <= zlen m ->
  exists m', put8 m (zlen l) n = Some (m', zlen (l ++ [Z.land n 255])) /\ holds m' 0 (l ++ [Z.land n 255]) /\ zlen m' = zlen m.
Proof.
  intros Hh Hl. destruct (store_after m l [Z.land n 255]) as (m' & E & H1 & H2); [done|done|]. exists m'.
  unfold put8. rewrite E. split; [|done]. do 2 f_equal. zlen_lia.
Qed.

Lemma put16be_after m l n : holds m 0 l -> zlen l + 2 <= zlen m ->
  exists m', put16be m (zlen l) n = Some (m', zlen (l ++ put_int16 n)) /\ holds m' 0 (l ++ put_int16 n) /\ zlen m' = zlen m.
Proof.
  intros Hh Hl. destruct (store_after m l (put_int16 n)) as (m' & E & H1 & H2); [done|zlen_lia|]. exists m'.
  unfold put16be. change [Z.land (Z.shiftr n 8) 255; Z.land n 255] with (put_int16 n). rewrite E. split; [|done].
  do 2 f_equal. zlen_lia.
Qed.

Lemma holds_nil m : holds m 0 [].
Proof. by exists [], m. Qed.

(** One put of the request, at the end of what is there. *)
Ltac put_next lem Hh Hl :=
  let m := fresh "m" in let E := fresh "E" in let H1 := fresh "Hh" in let H2 := fresh "Hl" in
  match type of Hh with holds ?m0 0 ?l =>
    destruct (lem m0 l Hh) as (m & E & H1 & H2); [zlen_lia|]; rewrite E; cbn [mbind option_bind]; clear E Hh;
    rename H1 into Hh; rewrite Hl in H2; clear Hl; rename H2 into Hl; try clear m0 end.

Lemma publish_buf_ok m port alive :
  zlen m = EPMDBUF -> zlen alive + 13 <= EPMDBUF - 2 ->
  exists m', publish_buf m port alive = Some m' /\ zlen m' = EPMDBUF /\ holds m' 0 (alive2_req port alive).
Proof.
  intros Hl Hlen. unfold EPMDBUF in *. pose proof (holds_nil m) as Hh. unfold publish_buf.
  change (put16be m 0) with (put16be m (zlen (@nil Z))).
  put_next (fun m l => put16be_after m l (zlen alive + 13)) Hh Hl.
  put_next (fun m l => put8_after m l EI_EPMD_ALIVE2_REQ) Hh Hl.
  put_next (fun m l => put16be_after m l port) Hh Hl.
  put_next (fun m l => put8_after m l 104) Hh Hl.
  put_next (fun m l => put8_after m l EI_MYPROTO) Hh Hl.
  put_next (fun m l => put16be_after m l EI_DIST_HIGH) Hh Hl.
  put_next (fun m l => put16be_after m l EI_DIST_LOW) Hh Hl.
  put_next (fun m l => put16be_after m l (zlen alive)) Hh Hl.
  match type of Hh with holds ?m0 0 ?l =>
    destruct (store_after m0 l (alive ++ [0]) Hh) as (m1 & E1 & Hh1 & Hl1); [zlen_lia|];
    rewrite E1; cbn [mbind option_bind]; clear E1; rewrite app_assoc in Hh1;
    apply holds_app in Hh1 as [Hh1 _]; replace (zlen l + zlen alive) with (zlen (l ++ alive)) by zlen_lia end.
  rewrite Hl in Hl1. put_next (fun m l => put16be_after m l 0) Hh1 Hl1.
  eexists. split; [reflexivity|]. split; [exact Hl1|]. unfold alive2_req.
  revert Hh1. cbn [app]. by rewrite <- !app_assoc.
Qed.

Lemma port2_buf_ok m alive :
  zlen m = EPMDBUF -> zlen alive + 1 <= EPMDBUF - 3 ->
  exists m', port2_buf m alive = Some m' /\ zlen m' = EPMDBUF /\ holds m' 0 (port2_req alive ++ [0]).
Proof.
  intros Hl Hlen. unfold EPMDBUF in *. pose proof (holds_nil m) as Hh. unfold port2_buf.
  change (put16be m 0) with (put16be m (zlen (@nil Z))).
  put_next (fun m l => put16be_after m l (zlen alive + 1)) Hh Hl.
  put_next (fun m l => put8_after m l EI_EPMD_PORT2_REQ) Hh Hl.
  match type of Hh with holds ?m0 0 ?l =>
    destruct (store_after m0 l (alive ++ [0]) Hh) as (m1 & E1 & Hh1 & Hl1); [zlen_lia|] end.
  exists m1. split; [exact E1|]. split; [lia|]. unfold port2_req. revert Hh1. cbn [app]. by rewrite <- !app_assoc.
Qed.

(** ** How the client reads the answers *)

Lemma ei_epmd_r4_publish_ok e port alive n sent ws rs :
  0 <= ce_fd e -> zlen (ce_buf e) = EPMDBUF -> zlen alive + 13 <= EPMDBUF - 2 ->
  ei_write_fill (ce_writes e) (alive2_req port alive) = Some (0, sent, ws) ->
  ei_read_fill (ce_reads e) 4 = Some (0, take 4 (alive2_resp (Some n) EI_DIST_HIGH), rs) ->
  exists creation, ei_epmd_r4_publish e port alive = Some (ce_fd e, Some creation, alive2_req port alive).
Proof.
  intros Hfd Hb Hlen Hw Hr. unfold ei_epmd_r4_publish. replace (EPMDBUF - 2 <? zlen alive + 13) with false by lia.
  destruct (publish_buf_ok (ce_buf e) port alive Hb Hlen) as (m & -> & Hm & Hh). cbn [mbind option_bind].
  replace (ce_fd e <? 0) with false by lia.
  rewrite (holds_slice m 0 (alive2_req port alive)); [|done|unfold alive2_req; zlen_lia]. cbn [mbind option_bind].
  rewrite Hw. cbn [mbind option_bind]. change (negb (0 =? 0)) with false. cbv iota. rewrite Hr. cbn [mbind option_bind].
  apply ei_write_fill_all in Hw as ->.
  unfold alive2_resp. change (6 <=? EI_DIST_HIGH) with true. cbv iota.
  set (c := get_creation n). unfold put_int32. cbn [app take].
  set (b0 := Z.land (Z.shiftr c 24) 255). set (b1 := Z.land (Z.shiftr c 16) 255).
  change (negb (0 =? 0) || negb (zlen [EPMD_ALIVE2_X_RESP; 0; b0; b1] =? 4)) with false. cbv iota.
  destruct (store_some m 0 [EPMD_ALIVE2_X_RESP; 0; b0; b1]) as [m1 E]; [lia|rewrite Hm; unfold EPMDBUF; zlen_lia|].
  rewrite E. cbn [mbind option_bind]. pose proof (store_holds _ _ _ _ E) as Hh1. apply store_bounds in E as (_ & _ & Hl1).
  unfold publish_resp. apply get8_holds in Hh1 as [-> Hh1]; [|unfold byte_ok, EPMD_ALIVE2_X_RESP; lia]. cbn [mbind option_bind].
  change (negb (EPMD_ALIVE2_X_RESP =? EI_EPMD_ALIVE2_RESP) && negb (EPMD_ALIVE2_X_RESP =? EI_EPMD_ALIVE2_X_RESP)) with false.
  cbv iota. apply get8_holds in Hh1 as [-> Hh1]; [|unfold byte_ok; lia]. cbn [mbind option_bind].
  change (negb (0 =? 0)) with false. change (EPMD_ALIVE2_X_RESP =? EI_EPMD_ALIVE2_RESP) with false. cbv iota.
  assert (exists v s, get32be m1 (0 + 1 + 1) = Some (v, s)) as (v & s & ->); [|by eexists].
  unfold get32be. assert (forall k, 0 <= k < 512 -> exists b, mem_get m1 k = Some b) as Hget.
  { intros k Hk. unfold mem_get. replace (k <? 0) with false by lia. apply lookup_lt_is_Some_2.
    unfold zlen, EPMDBUF in *. lia. }
  destruct (Hget (0 + 1 + 1)) as [? ->]; [lia|]. destruct (Hget (0 + 1 + 1 + 1)) as [? ->]; [lia|].
  destruct (Hget (0 + 1 + 1 + 2)) as [? ->]; [lia|]. destruct (Hget (0 + 1 + 1 + 3)) as [? ->]; [lia|]. eauto.
Qed.

Lemma ei_epmd_r4_port_ok e alive n sent ws rs rs' :
  0 <= ce_fd e -> zlen (ce_buf e) = EPMDBUF -> zlen alive + 1 <= EPMDBUF - 3 ->
  in_u 16 (port n) -> byte_ok (nodetype n) -> protocol n = EI_MYPROTO -> in_u 16 (highvsn n) -> in_u 16 (lowvsn n) ->
  lowvsn n <= EI_DIST_HIGH -> EI_DIST_LOW <= highvsn n ->
  ei_write_fill (ce_writes e) (port2_req alive) = Some (0, sent, ws) ->
  ei_read_fill (ce_reads e) 2 = Some (0, take 2 (port2_answer n), rs) ->
  ei_read_fill rs 8 = Some (0, take 8 (drop 2 (port2_answer n)), rs') ->
  ei_epmd_r4_port e alive = Some (port n, Some EI_DIST_HIGH, port2_req alive).
Proof.
  intros Hfd Hb Hlen Hport Hnt Hpr Hhv Hlv Hv1 Hv2 Hw Hr1 Hr2. unfold ei_epmd_r4_port.
  replace (EPMDBUF - 3 <? zlen alive + 1) with false by lia.
  destruct (port2_buf_ok (ce_buf e) alive Hb Hlen) as (m & -> & Hm & Hh). cbn [mbind option_bind].
  replace (ce_fd e <? 0) with false by lia. apply holds_app in Hh as [Hh _].
  rewrite (holds_slice m 0 (port2_req alive)); [|done|unfold port2_req; zlen_lia]. cbn [mbind option_bind].
  rewrite Hw. cbn [mbind option_bind]. change (negb (0 =? 0)) with false. cbv iota. rewrite Hr1. cbn [mbind option_bind].
  apply ei_write_fill_all in Hw as ->. change (negb (0 =? 0)) with false. cbv iota.
  change (take 2 (port2_answer n)) with [EPMD_PORT2_RESP; 0].
  destruct (store_some m 0 [EPMD_PORT2_RESP; 0]) as [m1 E]; [lia|rewrite Hm; unfold EPMDBUF; zlen_lia|].
  rewrite E. cbn [mbind option_bind]. pose proof (store_holds _ _ _ _ E) as Hh1. apply store_bounds in E as (_ & _ & Hl1).
  apply get8_holds in Hh1 as [-> Hh1]; [|unfold byte_ok, EPMD_PORT2_RESP; lia]. cbn [mbind option_bind].
  change (negb (EPMD_PORT2_RESP =? EI_EPMD_PORT2_RESP)) with false. cbv iota.
  apply get8_holds in Hh1 as [-> _]; [|unfold byte_ok; lia]. cbn [mbind option_bind]. change (negb (0 =? 0)) with false. cbv iota.
  rewrite Hr2. cbn [mbind option_bind].
  assert (take 8 (drop 2 (port2_answer n))
    = be_bytes 2 (port n) ++ [nodetype n; protocol n] ++ be_bytes 2 (highvsn n) ++ be_bytes 2 (lowvsn n)) as ->.
  { rewrite <- !put_int16_be. done. }
  set (data := be_bytes 2 (port n) ++ _). assert (zlen data = 8) as Hd by done. rewrite Hd.
  change (negb (0 =? 0) || negb (8 =? 8)) with false. cbv iota.
  destruct (store_some m1 0 data) as [m2 E]; [lia|rewrite Hl1, Hm, Hd; unfold EPMDBUF; lia|].
  rewrite E. cbn [mbind option_bind]. pose proof (store_holds _ _ _ _ E) as Hh2. subst data.
  unfold port2_data. apply get16be_holds in Hh2 as [-> Hh2]; [|done]. cbn [mbind option_bind].
  apply get8_holds in Hh2 as [-> Hh2]; [|done]. cbn [mbind option_bind].
  rewrite Hpr in Hh2. apply get8_holds in Hh2 as [-> Hh2]; [|unfold byte_ok, EI_MYPROTO; lia]. cbn [mbind option_bind].
  apply get16be_holds in Hh2 as [-> Hh2]; [|done]. cbn [mbind option_bind].
  rewrite <- (app_nil_r (be_bytes 2 (lowvsn n))) in Hh2. apply get16be_holds in Hh2 as [-> _]; [|done]. cbn [mbind option_bind].
  change (negb (EI_MYPROTO =? EI_MYPROTO)) with false. cbv iota.
  replace ((EI_DIST_HIGH <? lowvsn n) || (highvsn n <? EI_DIST_LOW)) with false by lia.
  destruct (Z.ltb_spec EI_DIST_HIGH (highvsn n)); [done|]. unfold EI_DIST_HIGH, EI_DIST_LOW in *.
  by replace (highvsn n) with 6 by lia.
Qed.

(** ** The server's side *)

(** [m] returns, and then [Q] holds. *)
Definition twp {D A} (m : M D A) (Q : A -> world D -> Prop) (w : world D) : Prop :=
  match m w with Ret a w' => Q a w' | _ => False end.

Lemma twp_bind {D A B} (m : M D A) (k : A -> M D B) Q w : twp m (fun a w' => twp (k a) Q w') w -> twp (bind m k) Q w.
Proof. unfold twp, bind. by destruct (m w). Qed.

Lemma twp_mono {D A} (m : M D A) (Q Q' : A -> world D -> Prop) w :
  twp m Q w -> (forall a w', Q a w' -> Q' a w') -> twp m Q' w.
Proof. unfold twp. destruct (m w); auto. Qed.

Lemma twp_lift {D A} (o : option A) a Q (w : world D) : o = Some a -> Q a w -> twp (lift o) Q w.
Proof. by intros ->. Qed.

Lemma twp_conn {D} i c (Q : Connection -> world D -> Prop) w : conn (vars w) !! i = Some c -> Q c w -> twp (the_conn i) Q w.
Proof. intros Hi HQ. apply twp_bind. unfold twp, get. by eapply twp_lift. Qed.

Definition wrote {D} (f : Z) (buf : list Z) (ws : list wres) (w : world D) : world D :=
  mkWorld (vars w) ws (reads w) (accepts w) (clock w) (memory w) (procfds w) (EvWrite f buf :: out w).

Lemma twp_reply {D} f buf ws (Q : bool -> world D -> Prop) w :
  writes w = WVal (zlen buf) :: ws -> Q true (wrote f buf ws w) -> twp (reply f buf) Q w.
Proof. intros E HQ. unfold twp, reply. rewrite E. cbn [reply_loop]. by rewrite Z.eqb_refl. Qed.

Lemma get_int16_put m s n bs : holds m s (put_int16 n ++ bs) -> 0 <= n < 65536 -> get_int16 m s = Some n /\ holds m (s + 2) bs.
Proof.
  intros Hh Hn. apply holds_app in Hh as [H1 H2]. split; [|exact H2]. rewrite put_int16_be in H1. pose proof (be_val_bytes 2 n) as Hv.
  pose proof (be_bytes_ok 2 n) as Hok. cbn [be_bytes] in *. rewrite (get_int16_at _ _ _ _ H1). rewrite wrapu_small in Hv by (unfold in_u; lia).
  f_equal. apply Forall_cons_iff in Hok as [_ Hok]. apply Forall_cons_iff in Hok as [Hok _]. unfold byte_ok in Hok.
  rewrite lor_shiftl_add by lia. change (2 ^ 8) with 256. unfold be_val in Hv. cbn [fold_left] in Hv. lia.
Qed.

(** Building the answer does no input or output. *)
Lemma stable_port2_resp_ret {D} n (w : world D) :
  match port2_resp n w with Ret _ _ => True | Blocked => False | _ => True end.
Proof.
  unfold port2_resp, w_bytes, w_copy_str, lift, bind, ret, crash.
  repeat (case_match; simplify_eq; try done).
Qed.

Section ServerSide.

Context {D : Type} `{NodeDbSpec D}.

(** A name that is free and well-formed is registered. *)
Lemma reg_spec_succeeds e R U nm ex a :
  zlen nm <= MAXSYMLEN -> 0 <= verify_utf8 nm false <= 255 -> zlen ex <= MAXSYMLEN -> ~ In nm (map symname R) ->
  e_alloc e = true -> exists n R' U', reg_spec e R U nm ex a = DbNode n (R', U').
Proof.
  intros Hl Hu Hx Hni Hal. unfold reg_spec. destruct (_ || _) eqn:E; [exfalso; lia|]. rewrite split_named_none by done.
  destruct (split_first (named nm) U) as [[[U1 n] U2]|]; [eauto|]. rewrite Hal.
  destruct (too_many (e_debug e) U), U; eauto.
Qed.

(** ALIVE2 for a free name on a local connection. *)
Lemma do_alive2_run i f m c R U nm eport ntype proto hv lv ws (w : world D) :
  let bsize := zlen nm + 13 in
  conn (vars w) !! i = Some c -> c_local_peer c = true -> bytes_ok m -> 2 + bsize < zlen m ->
  holds m 2 ([EPMD_ALIVE2_REQ] ++ put_int16 eport ++ [ntype; proto] ++ put_int16 hv ++ put_int16 lv ++
             put_int16 (zlen nm) ++ nm ++ put_int16 0) ->
  0 <= eport < 65536 -> 6 <= hv < 65536 -> 0 <= lv < 65536 ->
  nul_free nm -> 1 <= zlen nm <= MAXSYMLEN -> 0 <= verify_utf8 nm false <= 255 ->
  db_rep (nodes (vars w)) R U -> db_ok R U -> ~ In nm (map symname R) -> memory w = true -> writes w = WVal 6 :: ws ->
  twp (do_alive2 i f m 2 bsize) (fun _ w' => exists n U' m2,
    db_rep (nodes (vars w')) (n :: R) U' /\ db_ok (n :: R) U' /\ symname n = nm /\ fd n = f /\ port n = eport /\
    nodetype n = ntype /\ protocol n = proto /\ highvsn n = hv /\ lowvsn n = lv /\
    conn (vars w') = alter set_keep i (alter (set_buf m2) i (conn (vars w))) /\
    out w' = EvWrite f (alive2_resp (Some n) hv) :: out w) w.
Proof.
  intros bsize Hi Hloc Hb Hsz Hh Hep Hhv Hlv Hnul Hnl Hu Hr Hok Hni Hmem Hw. unfold do_alive2.
  apply twp_bind. eapply twp_conn; [exact Hi|]. rewrite Hloc. cbn [negb]. replace (bsize <=? 13) with false by lia.
  apply holds_app in Hh as [_ Hh]. change (2 + zlen [EPMD_ALIVE2_REQ]) with (2 + 1) in Hh.
  apply get_int16_put in Hh as [E1 Hh]; [|done]. apply holds_cons in Hh as [E2 Hh]. apply holds_cons in Hh as [E3 Hh].
  apply get_int16_put in Hh as [E4 Hh]; [|lia]. apply get_int16_put in Hh as [E5 Hh]; [|lia].
  apply get_int16_put in Hh as [E6 Hh]; [|unfold MAXSYMLEN in *; lia]. apply holds_app in Hh as [Hn Hh].
  rewrite <- (app_nil_r (put_int16 0)) in Hh. apply get_int16_put in Hh as [E7 _]; [|lia].
  do 6 (apply twp_bind; eapply twp_lift; [eassumption|]). subst bsize. replace (zlen nm + 13 <? zlen nm + 13) with false by lia.
  apply twp_bind. eapply twp_lift; [exact E7|]. replace (zlen nm + 13 <? 0 + zlen nm + 13) with false by lia.
  assert (slice m (2 + 11) (zlen nm) = Some nm) as En by (by apply holds_slice).
  apply twp_bind. eapply twp_lift; [exact En|].
  assert (existsb (Z.eqb 0) nm = false) as ->.
  { apply not_true_is_false. intros E. apply existsb_exists in E as (x & Hx & Ex). apply Z.eqb_eq in Ex as <-.
    unfold nul_free in Hnul. rewrite List.Forall_forall in Hnul. by apply (Hnul 0). }
  destruct (alive2_stores m (2 + 11) nm 0) as (m1 & m2 & ex & r & r' & S1 & S2 & _ & _ & Hex & Dn & Dx & _); [lia|done|lia|done|].
  apply twp_bind. eapply twp_lift; [exact S1|]. apply twp_bind. eapply twp_lift; [exact S2|].
  apply twp_bind. unfold twp at 1, upd_conn, modify. set (w1 := set_vars _ w).
  destruct ex as [|? ?]; [|exfalso; zlen_lia]. rewrite Dn, Dx. cbn [app].
  set (a := {| a_namelen := zlen nm |}).
  assert (args_ok nm [] a) as Ha. { split; [done|]. repeat split; cbn; [by exists r|by exists r']. }
  destruct (reg_spec_succeeds (the_env w1) R U nm [] a) as (n & R' & U' & Es); [lia|lia|unfold MAXSYMLEN; cbn; lia|done|done|].
  destruct (reg_spec_ok _ _ _ _ _ _ _ _ _ Hok Hnul Es) as (Hok' & Hsym & -> & Hfd & Hn' & _).
  pose proof (db_reg2_ok (the_env w1) (nodes (vars w1)) R U nm [] a Hr Hok Ha) as Hreg. rewrite Es in Hreg.
  destruct Hreg as (d & Ed & Hd). apply twp_bind. unfold reg2 at 1. apply twp_bind. unfold twp at 1, get. apply twp_bind.
  eapply twp_lift; [exact Ed|]. unfold twp at 1, bind, modify, select_fd_set, ret.
  apply twp_bind. eapply twp_reply with (ws := ws); [cbn [writes set_vars w1]; rewrite Hw; unfold alive2_resp; by replace (6 <=? hv) with true by lia|].
  unfold twp, upd_conn, modify. exists n, U', m2. split; [exact Hd|]. split; [done|]. rewrite Hn'. repeat split; done.
Qed.

Lemma verify_utf8_nul nm : bytes_ok nm -> 0 <= verify_utf8 nm false -> verify_utf8 (nm ++ [0]) false = verify_utf8 nm false + 1.
Proof.
  intros Hb Hv. destruct (utf8_loop_sound (length nm) nm 0 _ Hb (Nat.le_refl _) ltac:(lia) eq_refl Hv) as (cps & Hs & E & Hlen).
  unfold verify_utf8 in *. rewrite Hlen. replace (nm ++ [0]) with (utf8_text (cps ++ [0])).
  - rewrite utf8_loop_complete; [zlen_lia| |done]. apply Forall_app. split; [done|]. constructor; [left; lia|constructor].
  - rewrite E. unfold utf8_text. rewrite map_app, concat_app. done.
Qed.

Lemma port2_loop_run f nm r R1 n R2 ws (w : world D) :
  nul_free nm -> Forall node_ok (R1 ++ n :: R2) -> ~ In nm (map symname R1) -> symname n = nm ->
  writes w = WVal (zlen (port2_answer n)) :: ws ->
  twp (port2_loop f (nm ++ 0 :: r) (R1 ++ n :: R2)) (fun _ w' => w' = wrote f (port2_answer n) ws w) w.
Proof.
  intros Hnm Hok Hni Hn Hw. induction R1 as [|k R1 IH]; cbn [app port2_loop].
  - apply Forall_cons_iff in Hok as [Hok _]. apply twp_bind. eapply twp_lift; [apply is_same_str_spec; [apply Hok|done]|].
    rewrite bool_decide_eq_true_2 by done.
    assert (port2_resp n w = Ret (port2_answer n) w) as E.
    { pose proof (port2_resp_ok n (fun b w' => b = port2_answer n /\ w' = w) (fun _ _ => False) w Hok (conj eq_refl eq_refl)) as Hwp.
      pose proof (stable_port2_resp_ret n w) as Hb. unfold wp in Hwp. destruct (port2_resp n w); try done.
      by destruct Hwp as [-> ->]. }
    apply twp_bind. unfold twp at 1. rewrite E. apply twp_bind. by eapply twp_reply.
  - cbn [app] in Hok. apply Forall_cons_iff in Hok as [Hk Hok]. cbn [map In] in Hni.
    apply twp_bind. eapply twp_lift; [apply is_same_str_spec; [apply Hk|done]|].
    rewrite bool_decide_eq_false_2 by tauto. apply IH; tauto.
Qed.

Lemma do_port2_run f m nm R U n ws (w : world D) :
  let bsize := zlen nm + 1 in
  holds m 2 ([EPMD_PORT2_REQ] ++ nm ++ [0]) -> nul_free nm -> bytes_ok nm -> 1 <= zlen nm -> 0 <= verify_utf8 nm false <= 254 ->
  db_rep (nodes (vars w)) R U -> db_ok R U -> In n R -> symname n = nm ->
  writes w = WVal (zlen (port2_answer n)) :: ws ->
  twp (do_port2 f m 2 bsize) (fun _ w' => w' = wrote f (port2_answer n) ws w) w.
Proof.
  intros bsize Hh Hnul Hb Hl Hu Hr Hok Hin Hn Hw. unfold do_port2. apply holds_app in Hh as [_ Hh].
  change (2 + zlen [EPMD_PORT2_REQ]) with (2 + 1) in Hh. pose proof Hh as Hh0. apply holds_app in Hh as [Hhn Hhz].
  destruct nm as [|x nm _] using rev_ind; [exfalso; zlen_lia|].
  assert (mem_get m (2 + bsize - 1) = Some x /\ x <> 0) as [Ex Hx].
  { apply holds_app in Hhn as [_ Hx]. apply holds_cons in Hx as [Hx _]. subst bsize. split.
    - rewrite <- Hx. f_equal. zlen_lia.
    - apply Forall_app in Hnul as [_ Hnul]. by apply Forall_cons_iff in Hnul as [Hnul _]. }
  set (nm' := nm ++ [x]) in *. apply twp_bind. eapply twp_lift; [exact Ex|]. replace (x =? 0) with false by lia. cbv zeta.
  subst bsize. replace (zlen nm' + 1 <=? 1) with false by lia.
  assert (slice m (2 + 1) (zlen nm' + 1 - 1) = Some nm') as E1 by (apply holds_slice; [done|lia]).
  apply twp_bind. eapply twp_lift; [exact E1|].
  assert (existsb (Z.eqb 0) nm' = false) as ->.
  { apply not_true_is_false. intros E. apply existsb_exists in E as (y & Hy & Ey). apply Z.eqb_eq in Ey as <-.
    unfold nul_free in Hnul. rewrite List.Forall_forall in Hnul. by apply (Hnul 0). }
  apply twp_bind. eapply twp_lift; [apply (holds_slice _ _ (nm' ++ [0])); [done|zlen_lia]|].
  rewrite verify_utf8_nul by (done || lia).
  replace ((verify_utf8 nm' false + 1 <? 1) || (255 <? verify_utf8 nm' false + 1)) with false by lia.
  apply twp_bind. unfold node_list. apply twp_bind. unfold twp at 1, get. eapply twp_lift; [by eapply db_reg_list_ok|].
  assert (drop (Z.to_nat (2 + 1)) m = nm' ++ 0 :: drop (Z.to_nat (2 + 1 + zlen nm' + 1)) m) as ->.
  { destruct Hh0 as (pre & post & -> & Hp). rewrite <- app_assoc. cbn [app]. rewrite <- Hp at 1. rewrite drop_zlen by done.
    f_equal. f_equal. replace (pre ++ nm' ++ 0 :: post) with ((pre ++ nm' ++ [0]) ++ post) by (by rewrite <- !app_assoc).
    rewrite drop_zlen; [done|]. zlen_lia. }
  apply in_split in Hin as (R1 & R2 & ->). destruct (db_ok_nodes _ _ Hok) as [Hnodes _].
  apply port2_loop_run; [done|done| |done|done]. pose proof (ok_names _ _ Hok) as Hnd. rewrite map_app in Hnd.
  apply list.NoDup_app in Hnd as (Hnd & _ & _). rewrite map_app in Hnd. cbn [map] in Hnd. apply list.NoDup_app in Hnd as (_ & Hnd & _).
  intros Hi. apply (Hnd (symname n)); [rewrite Hn; by apply list_elem_of_In|by left].
Qed.

(** What [write] and [read] will give. *)
Definition feed (rs : list rres) (ws : list wres) (w : world D) : world D :=
  mkWorld (vars w) ws rs (accepts w) (clock w) (memory w) (procfds w) (out w).

(** From the bytes of a packet to the call of [do_request]: the request is in
    the buffer, with a NUL after it. *)
Lemma packet_run w i c m0 len cmd rest ws (Q : unit -> world D -> Prop) :
  let body := cmd :: rest in
  fresh w i c m0 -> bytes_ok m0 -> len = zlen body -> len + 2 < INBUF_SIZE -> bytes_ok body ->
  (forall m w1 c1, holds m 2 (body ++ [0]) -> zlen m = INBUF_SIZE -> bytes_ok m ->
     conn (vars w1) !! i = Some c1 -> c_open c1 = true -> c_keep c1 = false -> c_fd c1 = c_fd c -> c_local_peer c1 = c_local_peer c ->
     c_buf c1 = BufLive m ->
     nodes (vars w1) = nodes (vars w) -> memory w1 = memory w -> writes w1 = ws -> out w1 = out w ->
     (forall j, j <> i -> conn (vars w1) !! j = conn (vars w) !! j) ->
     twp (b <- lift (mem_get m 2) ;;
          (if b =? EPMD_ALIVE2_REQ then do_alive2 i (c_fd c) m 2 len
           else if b =? EPMD_PORT2_REQ then do_port2 (c_fd c) m 2 len
           else if b =? EPMD_NAMES_REQ then do_names (c_fd c)
           else if b =? EPMD_DUMP_REQ then do_dump i (c_fd c)
           else if b =? EPMD_KILL_REQ then do_kill i (c_fd c)
           else if b =? EPMD_STOP_REQ then do_stop i (c_fd c) m 2 len
           else ret tt))
       (fun _ w' => twp (s <- the_conn i ;; if negb (c_keep s) then epmd_conn_close i else ret tt) Q w') w1) ->
  twp (do_read i) Q (feed [RData (put_int16 len ++ body)] ws w).
Proof.
  intros body Hf Hb0 Hlen Hsz Hbody HQ. pose proof (zlen_nonneg rest) as Hrest.
  assert (1 <= len < 65536) as Hlen1 by (subst body; unfold INBUF_SIZE, MAXSYMLEN in *; zlen_lia).
  pose proof (be_val_bytes 2 len) as Hv. pose proof (be_bytes_ok 2 len) as Hok. rewrite put_int16_be.
  cbn [be_bytes] in *. set (a := byte_at (Z.of_nat 1) len) in *. set (b := byte_at (Z.of_nat 0) len) in *.
  rewrite wrapu_small in Hv by (unfold in_u; cbn; lia). apply Forall_cons_iff in Hok as [Ha Hok]. apply Forall_cons_iff in Hok as [Hbb _].
  unfold be_val in Hv. cbn [fold_left] in Hv. unfold byte_ok in Ha, Hbb.
  change ([a; b] ++ body) with (a :: b :: body). set (w0 := feed [] ws w).
  change (feed [RData (a :: b :: body)] ws w) with (with_reads [RData (a :: b :: body)] w0).
  assert (fresh w0 i c m0) as Hf0 by exact Hf.
  destruct (do_read_whole w0 i c m0 a b body Hf0 Ha Hbb) as (m & Em & Er); [lia|lia|subst body; zlen_lia|].
  unfold twp. rewrite Er. clear Er. set (pkt := a :: b :: body) in *.
  assert (zlen pkt = len + 2) as Hpl by (subst pkt; zlen_lia).
  destruct Hf as (Hi & _ & _ & _ & _ & _ & Hm0). pose proof (lookup_lt_Some _ _ _ Hi) as Hil.
  pose proof (store_holds _ _ _ _ Em) as Hh. destruct (store_bounds _ _ _ _ Em) as (_ & _ & Hlm).
  assert (bytes_ok m) as Hbm by (eapply store_bytes_ok; [exact Em|done|constructor; [exact Ha|constructor; [exact Hbb|done]]]).
  destruct (store_after m pkt [0] Hh) as (m1 & E1 & Hh1 & Hl1); [zlen_lia|].
  assert (bytes_ok m1) as Hbm1 by (eapply store_bytes_ok; [exact E1|done|repeat constructor; unfold byte_ok; lia]).
  assert (holds m1 2 (body ++ [0])) as Hh2.
  { change (pkt ++ [0]) with ([a; b] ++ body ++ [0]) in Hh1. by apply holds_app in Hh1 as [_ Hh1]. }
  change (twp (do_packet i) Q (part_world w0 i c (zlen pkt) pkt m [])).
  apply twp_bind. eapply twp_conn; [cbn; by rewrite list_lookup_insert_eq by done|].
  cbn [part_conn c_want c_got c_fd]. replace (zlen pkt <? 2) with false by lia. rewrite Z.eqb_refl.
  apply twp_bind. unfold twp at 1, get. apply twp_bind. unfold twp at 1, upd_conn, modify.
  cbn [part_world with_reads set_vars vars set_conn conn clock]. rewrite alter_insert.
  apply twp_bind. unfold do_request. apply twp_bind. eapply twp_conn; [cbn; by rewrite list_lookup_insert_eq by done|].
  cbn [set_time part_conn c_buf]. rewrite Hpl. replace (len + 2 - 2) with len by lia. replace (2 + len) with (zlen pkt) by lia.
  apply twp_bind. eapply twp_lift; [exact E1|]. apply twp_bind. unfold twp at 1, upd_conn, modify.
  cbn [set_vars vars set_conn conn]. rewrite alter_insert.
  eapply (HQ m1); [exact Hh2|lia|exact Hbm1|cbn; by rewrite list_lookup_insert_eq by done|done..|].
  intros j Hj. cbn. by rewrite list_lookup_insert_ne.
Qed.

Lemma put_int16_ok n : bytes_ok (put_int16 n).
Proof. rewrite put_int16_be. apply be_bytes_ok. Qed.

(** The server registers what the client publishes. *)
Lemma server_publish w i c m0 R U port alive ws :
  fresh w i c m0 -> bytes_ok m0 -> c_local_peer c = true -> memory w = true ->
  db_rep (nodes (vars w)) R U -> db_ok R U -> ~ In alive (map symname R) ->
  nul_free alive -> bytes_ok alive -> 1 <= zlen alive <= MAXSYMLEN -> 0 <= verify_utf8 alive false <= 255 -> 0 <= port < 65536 ->
  twp (do_read i) (fun _ w' => exists n U',
    db_rep (nodes (vars w')) (n :: R) U' /\ db_ok (n :: R) U' /\ symname n = alive /\ EpmdNode.port n = port /\
    fd n = c_fd c /\ nodetype n = 104 /\ protocol n = EI_MYPROTO /\ highvsn n = EI_DIST_HIGH /\ lowvsn n = EI_DIST_LOW /\
    (exists c', conn (vars w') !! i = Some c' /\ c_open c' = true /\ c_keep c' = true /\ c_fd c' = c_fd c) /\
    (forall j, j <> i -> conn (vars w') !! j = conn (vars w) !! j) /\
    out w' = EvWrite (c_fd c) (alive2_resp (Some n) EI_DIST_HIGH) :: out w)
    (feed [RData (alive2_req port alive)] (WVal 6 :: ws) w).
Proof.
  intros Hf Hb0 Hloc Hmem Hr Hok Hni Hnul Hba Hl Hu Hp. unfold alive2_req, EI_DIST_HIGH, EI_DIST_LOW, EI_MYPROTO.
  apply (packet_run w i c m0 (zlen alive + 13) EPMD_ALIVE2_REQ
    (put_int16 port ++ [104; 0] ++ put_int16 6 ++ put_int16 6 ++ put_int16 (zlen alive) ++ alive ++ put_int16 0)); try done.
  - zlen_lia.
  - unfold INBUF_SIZE, MAXSYMLEN in *. lia.
  - constructor; [unfold byte_ok, EPMD_ALIVE2_REQ; lia|]. repeat (apply Forall_app; split); auto using put_int16_ok.
    repeat constructor; unfold byte_ok; lia.
  - intros m w1 c1 Hh Hlm Hbm Hi Ho Hk Hfd Hloc1 Hbuf Hnodes Hm1 Hw1 Ho1 Hj.
    assert (mem_get m 2 = Some EPMD_ALIVE2_REQ) as Eb by (by apply (holds_cons m 2 _ _ Hh)).
    apply twp_bind. eapply twp_lift; [exact Eb|]. change (EPMD_ALIVE2_REQ =? EPMD_ALIVE2_REQ) with true. cbv iota.
    eapply twp_mono.
    { rewrite <- Hnodes in Hr. apply (do_alive2_run i (c_fd c) m c1 R U alive port 104 0 6 6 ws); try done; try congruence; try lia;
        [unfold INBUF_SIZE, MAXSYMLEN in *; lia|by apply holds_app in Hh as [Hh _]]. }
    intros _ w2 (n & U' & m2 & H1 & H2 & H3 & H4 & H5 & H6 & H7 & H8 & H9 & H10 & H11).
    assert (conn (vars w2) !! i = Some (set_keep (set_buf m2 c1))) as Hi2 by (by rewrite H10, !list_lookup_alter_eq, Hi).
    apply twp_bind. eapply twp_conn; [exact Hi2|]. cbn [set_keep c_keep negb]. exists n, U'.
    do 9 (split; [done|]). split; [exists (set_keep (set_buf m2 c1)); by rewrite Hi2|]. split; [|by rewrite H11, Ho1].
    intros j Hne. rewrite H10, !list_lookup_alter_ne by done. auto.
Qed.

(** It answers whoever looks the node up. *)
Lemma server_lookup w i c m0 R U n alive ws :
  fresh w i c m0 -> bytes_ok m0 -> db_rep (nodes (vars w)) R U -> db_ok R U -> In n R -> symname n = alive ->
  nul_free alive -> bytes_ok alive -> 1 <= zlen alive <= MAXSYMLEN -> 0 <= verify_utf8 alive false <= 254 ->
  twp (do_read i) (fun _ w' => nodes (vars w') = nodes (vars w) /\
    out w' = EvClose (c_fd c) :: EvWrite (c_fd c) (port2_answer n) :: out w)
    (feed [RData (port2_req alive)] (WVal (zlen (port2_answer n)) :: ws) w).
Proof.
  intros Hf Hb0 Hr Hok Hin Hn Hnul Hba Hl Hu. unfold port2_req.
  apply (packet_run w i c m0 (zlen alive + 1) EPMD_PORT2_REQ alive); try done.
  - zlen_lia.
  - unfold INBUF_SIZE, MAXSYMLEN in *. lia.
  - constructor; [unfold byte_ok, EPMD_PORT2_REQ; lia|done].
  - intros m w1 c1 Hh Hlm Hbm Hi Ho Hk Hfd Hloc1 Hbuf Hnodes Hm1 Hw1 Ho1 Hj.
    assert (mem_get m 2 = Some EPMD_PORT2_REQ) as Eb by (by apply (holds_cons m 2 _ _ Hh)).
    apply twp_bind. eapply twp_lift; [exact Eb|]. change (EPMD_PORT2_REQ =? EPMD_ALIVE2_REQ) with false.
    change (EPMD_PORT2_REQ =? EPMD_PORT2_REQ) with true. cbv iota.
    rewrite <- Hnodes in Hr.
    pose proof (do_port2_run (c_fd c) m alive R U n ws w1 Hh Hnul Hba (proj1 Hl) Hu Hr Hok Hin Hn Hw1) as Hrun.
    unfold twp in Hrun |- *. destruct (do_port2 (c_fd c) m 2 (zlen alive + 1) w1) as [u w2| | |]; try done. subst w2.
    unfold bind, the_conn, bind, get, lift. cbn [wrote vars]. rewrite Hi. unfold ret. rewrite Hk. cbn [negb].
    rewrite (epmd_conn_close_eq (wrote (c_fd c) (port2_answer n) ws w1) i c1 Hi) by (by rewrite Hbuf).
    cbn. by rewrite Hfd, Ho1.
Qed.

End ServerSide.

(** ** Properties *)

(** C3: The protocol works from end to end.  When a C node publishes a free name
    over a local connection ([ei_epmd_publish] in one process, [do_read] in the
    server), the server registers it and the client gets the descriptor that
    keeps it registered; and whoever then looks the name up over any other
    connection ([ei_epmd_port]) gets the published port and distribution version
    6.  The name is valid UTF-8 of 1 to 254 characters that fits the client's
    buffer. *)
Theorem publish_then_lookup (w : world Nodes) i ci mi j cj mj R U port alive :
  holds_lists (nodes (vars w)) R U -> db_ok R U -> ~ In alive (map symname R) -> memory w = true ->
  fresh w i ci mi -> bytes_ok mi -> c_local_peer ci = true -> fresh w j cj mj -> bytes_ok mj -> j <> i ->
  nul_free alive -> bytes_ok alive -> 1 <= zlen alive <= EPMDBUF - 15 -> 0 <= verify_utf8 alive false <= 254 ->
  0 <= port < 65536 ->
  exists w1 w2 answer1 answer2,
    do_read i (feed [RData (alive2_req port alive)] [WVal 6] w) = Ret tt w1 /\
    out w1 = EvWrite (c_fd ci) answer1 :: out w /\
    (forall e sent ws rs, 0 <= ce_fd e -> zlen (ce_buf e) = EPMDBUF ->
       ei_write_fill (ce_writes e) (alive2_req port alive) = Some (0, sent, ws) ->
       ei_read_fill (ce_reads e) 4 = Some (0, take 4 answer1, rs) ->
       exists creation, ei_epmd_r4_publish e port alive = Some (ce_fd e, Some creation, alive2_req port alive)) /\
    do_read j (feed [RData (port2_req alive)] [WVal (zlen answer2)] w1) = Ret tt w2 /\
    out w2 = EvClose (c_fd cj) :: EvWrite (c_fd cj) answer2 :: out w1 /\
    (forall e sent ws rs rs', 0 <= ce_fd e -> zlen (ce_buf e) = EPMDBUF ->
       ei_write_fill (ce_writes e) (port2_req alive) = Some (0, sent, ws) ->
       ei_read_fill (ce_reads e) 2 = Some (0, take 2 answer2, rs) ->
       ei_read_fill rs 8 = Some (0, take 8 (drop 2 answer2), rs') ->
       ei_epmd_r4_port e alive = Some (port, Some EI_DIST_HIGH, port2_req alive)).
Proof.
  intros Hl Hok Hni Hmem Hfi Hbi Hloc Hfj Hbj Hne Hnul Hba Hlen Hu Hp. change (db_rep (nodes (vars w)) R U) in Hl.
  assert (1 <= zlen alive <= MAXSYMLEN) as Hlen' by (unfold EPMDBUF, MAXSYMLEN in *; lia).
  pose proof (server_publish w i ci mi R U port alive [] Hfi Hbi Hloc Hmem Hl Hok Hni Hnul Hba Hlen' ltac:(lia) Hp) as H1.
  unfold twp in H1. destruct (do_read i _) as [[] w1| | |] eqn:E1 in H1; try done.
  destruct H1 as (n & U' & Hr1 & Hok1 & Hsym & Hport & _ & Hnt & Hpr & Hhv & Hlv & _ & Hconn & Hout1).
  assert (fresh w1 j cj mj) as Hfj1 by (destruct Hfj as (Hj & Hrest); split; [by rewrite Hconn|done]).
  pose proof (server_lookup w1 j cj mj (n :: R) U' n alive [] Hfj1 Hbj Hr1 Hok1 (or_introl eq_refl) Hsym Hnul Hba Hlen' Hu) as H2.
  unfold twp in H2. destruct (do_read j _) as [[] w2| | |] eqn:E2 in H2; try done. destruct H2 as [_ Hout2].
  exists w1, w2, (alive2_resp (Some n) EI_DIST_HIGH), (port2_answer n).
  split; [exact E1|]. split; [exact Hout1|]. split.
  { intros e sent ws rs Hfd Hb Hw Hr. eapply ei_epmd_r4_publish_ok; [done|done|unfold EPMDBUF in *; lia|exact Hw|exact Hr]. }
  split; [exact E2|]. split; [exact Hout2|]. intros e sent ws rs rs' Hfd Hb Hw Hr1' Hr2'.
  rewrite <- Hport. eapply ei_epmd_r4_port_ok; try done; rewrite ?Hhv, ?Hlv, ?Hport, ?Hnt;
    unfold in_u, byte_ok, EI_DIST_HIGH, EI_DIST_LOW, EPMDBUF in *; lia.
Qed.

(** Two connections, one of them local. *)
Definition sample_pair : world Nodes :=
  mkWorld (set_conn [mkConn 5 true false true 0 0 (BufLive blank) 100; mkConn 6 true false false 0 0 (BufLive blank) 100]
             (start_vars 4369 false false 60 2 [3])) [] [] [] 100 true {[3; 5; 6]} [].

Definition sample_client (ws : list cwrite) (rs : list cread) : cenv :=
  {| ce_fd := 9; ce_writes := ws; ce_reads := rs; ce_buf := repeat 0 512 |}.

Lemma sample_fresh :
  fresh sample_pair 0 (mkConn 5 true false true 0 0 (BufLive blank) 100) blank /\
  fresh sample_pair 1 (mkConn 6 true false false 0 0 (BufLive blank) 100) blank.
Proof. repeat split. Qed.

Lemma publish_then_lookup_witness :
  (exists w1 w2 a1 a2,
     do_read 0 (feed [RData (alive2_req 4000 [97])] [WVal 6] sample_pair) = Ret tt w1 /\
     out w1 = [EvWrite 5 a1] /\
     do_read 1 (feed [RData (port2_req [97])] [WVal (zlen a2)] w1) = Ret tt w2 /\
     (forall e sent ws rs rs', 0 <= ce_fd e -> zlen (ce_buf e) = EPMDBUF ->
       ei_write_fill (ce_writes e) (port2_req [97]) = Some (0, sent, ws) ->
       ei_read_fill (ce_reads e) 2 = Some (0, take 2 a2, rs) ->
       ei_read_fill rs 8 = Some (0, take 8 (drop 2 a2), rs') ->
       ei_epmd_r4_port e [97] = Some (4000, Some EI_DIST_HIGH, port2_req [97]))) /\
  ei_epmd_r4_port (sample_client [CWrote 4] [CRead [119; 0]; CRead [15; 160; 104; 0]; CRead [0; 6; 0; 6]]) [97]
  = Some (4000, Some 6, [0; 2; 122; 97]).
Proof.
  split; [|vm_compute; reflexivity].
  assert (bytes_ok blank) as Hb by (apply bytes_ok_dec; vm_compute; reflexivity).
  pose proof (publish_then_lookup sample_pair 0 _ blank 1 _ blank [] [] 4000 [97] (db_init_ok (D := Nodes)) db_ok_nil
    (fun H => H) eq_refl (proj1 sample_fresh) Hb eq_refl (proj2 sample_fresh) Hb) as H.
  destruct H as (w1 & w2 & a1 & a2 & H1 & H2 & _ & H4 & _ & H6); [discriminate|by repeat constructor|
    repeat constructor; unfold byte_ok; lia|unfold EPMDBUF, zlen; cbn; lia|vm_compute; split; discriminate|lia|].
  exists w1, w2, a1, a2. split; [exact H1|]. split; [exact H2|]. split; [exact H4|exact H6].
Defined.
